(* ===== verification/_CoqProject ===== *)
-Q . S2P
Prelude.v
Clock.v
StdMap.v
BookTypes.v
BookSpec.v
BookLaws.v
MatchingBook.v
ReferenceBook.v
ReferenceBookRefines.v
OrderIndex.v
HashIndex.v
HashIndexRefines.v
LadderBook.v
LadderLinks.v
LadderInv.v
LadderOps.v
LadderMatch.v
LadderBookRefines.v
LadderObserve.v
BookClaims.v
Endian.v
Wire.v
Symbols.v
Ouch.v
Itch.v
RawItch.v
Mold.v
BookReplay.v
BookEvents.v
EngineBook.v
Engine.v
EngineInv.v
EngineRuns.v
MarketReplay.v
EngineFeed.v
EngineClaims.v
Capture.v
Feed.v
FeedRefines.v
ItchBook.v
ItchBookRefines.v
ItchBookSound.v
EndToEnd.v
SpscRing.v
Channel.v
QueueWait.v
Soup.v
SoupSession.v
Gateway.v
GatewaySession.v
GatewayInv.v
Poller.v
GatewayRuns.v
Wakeup.v
Client.v
ClientPaths.v
EngineResponses.v
Service.v
Exchange.v
Shutdown.v
ItchFile.v
Prices.v
Text.v
Daemon.v
Startup.v
Doubles.v
Histogram.v
Display.v
Listen.v
Replay.v
FileTool.v
View.v
OrderFlow.v
FlowGen.v
MarketSim.v
Bench.v
PingPong.v
BenchMain.v
Demo.v
