(* ===== verification/Prelude.v ===== *)
(** * A verified model of the NASDAQ-style matching engine

    ** The program

    The exchange ([src/src]) is three threads. The gateway accepts TCP
    connections, speaks SoupBinTCP and OUCH with each client, checks risk caps
    and pushes commands into a channel. The engine thread takes commands off the
    channel, keeps one order book per symbol and answers with responses (to the
    gateway) and market events (to the feed). The feed thread turns events into
    ITCH messages, packs them into MoldUDP64 datagrams, sends them and may write
    them to a capture file. On the other side are an order-entry client, a
    market-data client that rebuilds the books from the datagrams, and a reader
    of raw ITCH files. There are two books with one contract: the reference book
    ([OrderBook], ordered maps and lists) and the fast book ([FastBook], a
    pooled arena, a price ladder and a hash index), which the engine uses. The
    programs under [apps] put these parts together: the exchange daemon, four
    market-data tools, two order generators, the benchmarks and a demo.

    ** The files

    Shared: Prelude (integers of fixed width, lists, options, tactics), StdMap
    ([std::map]), Endian ([common/endian.hpp], buffers with bounds), Wire
    (layout tables and what implementing one means), Symbols ([Symbol] and
    [Token]), Prices ([price_to_string]), Text ([printf], [atoi] and the
    command-line options), Doubles (the double arithmetic the programs use, on
    the Standard Library's [SpecFloat]), Clock (the time of day,
    [common/clock.hpp], and the processor helpers, [common/cpu.hpp]).

    Books: BookTypes ([common/types.hpp], the types of [book/order_book.hpp]),
    BookSpec (the abstract book), BookLaws (its market rules), BookEvents (how
    often an operation calls its listener), MatchingBook (the
    interface of the two books, a class), ReferenceBook and
    ReferenceBookRefines ([book/order_book.cpp]), OrderIndex (the interface of
    the id index), HashIndex and HashIndexRefines ([book/flat_map.hpp]),
    LadderBook ([book/fast_book.cpp]), LadderLinks, LadderInv, LadderOps,
    LadderMatch, LadderBookRefines and LadderObserve (its invariant and
    refinement), BookClaims (the theorems).

    Protocols: Ouch ([ouch/ouch.hpp]), Itch ([itch/itch.hpp]), RawItch
    ([itch/raw_itch.hpp]), Mold ([mold/mold.cpp]), Soup and SoupSession
    ([soup/soup.cpp]).

    Engine: EngineBook (what the engine asks of a book), Engine
    ([engine/engine.cpp]), EngineInv, EngineRuns and EngineFeed (its invariant,
    one command, many commands), BookReplay and MarketReplay (the event stream
    determines the books), EngineClaims (the theorems), EngineResponses (every
    response fits its message).

    Threads: SpscRing ([common/spsc_ring.hpp]), Channel ([common/queue.hpp], the
    command channel and [Engine::run_loop]), QueueWait ([common/queue.hpp] again,
    with its mutex and condition variable).

    Market data: Feed and FeedRefines ([feed/feed.cpp]), Capture
    ([feed/capture.cpp]), ItchBook, ItchBookRefines and ItchBookSound
    ([client/itch_book.cpp]; what it has after a whole stream, and after part of
    one), ItchFile ([client/itch_file_processor.hpp]),
    EndToEnd (engine to market-data client).

    Order entry: Gateway ([gateway/gateway.cpp]), GatewaySession (one
    connection), GatewayInv and GatewayRuns (the event loop), Client
    ([client/ouch_client.cpp]), ClientPaths (client and gateway), Poller
    ([gateway/poller.cpp], both back-ends), Wakeup (how the gateway's thread is
    woken up: the queue's hook, the pipe and [stop]), Service (responses from the client's
    side, and that all output can be encoded).

    The whole system: Exchange (the three threads, the queues and the shutdown,
    [apps/exchanged.cpp]), Shutdown (that it can always be completed), Daemon
    (the daemon's options and messages), Startup (the constructors and
    destructors and the descriptors they open and close).

    Programs: Display (the ladder the tools print), Listen
    ([apps/itchlisten.cpp]), Replay ([apps/itchreplay.cpp]), FileTool
    ([apps/itchfile.cpp]), View ([apps/itchview.cpp]), OrderFlow (orders the
    engine never refuses), FlowGen ([apps/flowgen.cpp]), MarketSim
    ([apps/marketsim.cpp]), Bench, PingPong and BenchMain ([apps/bench.cpp]), Demo
    ([apps/demo.cpp]).

    Measurement: Histogram ([common/histogram.hpp]).

    ** How the model stands for the code

    Integers are [Z], with [wrap] written out wherever the source computes at an
    unsigned width ([u8] to [u64]); the fast book's signed price arithmetic goes
    through [int64], which fails on overflow. Definitions are executable and threaded through
    explicit state. Undefined behaviour is a value: [None] in the books and the
    engine, [Undefined] of [outcome] in code that touches byte buffers or
    connections; [Throw] of [outcome] is an exception. A theorem that says an
    operation returns [Some] or [Ok] therefore also says that no index, pointer
    or iterator is used outside its validity.

    What the operating system does is an argument: what [accept], [recv] and
    [send] return, when the poller reports, what the clock reads; so are the
    numbers a random generator returns, within the range they are drawn from,
    and the kernel under the poller, given by what its manual pages promise.
    Code that calls back a listener gets the listener as a record of functions
    (SoupSession) or logs the calls (the books, the client). What a program
    prints is returned as text. A program's loop takes the list of what happens
    in each of its turns; threads are steps interleaved freely.

    Loops that are not structural carry fuel, which is chosen from the state and
    proved sufficient: a probe of the hash table visits each slot once; a
    matching loop removes an order or stops, so one more than the length of the
    arena is enough; a parser consumes at least three bytes per packet, so one
    more than the pending bytes is enough. Running out of fuel is a failure
    value and the theorems show that it is not reached.

    ** What is shown

    - The books (BookClaims). Both books refine the abstract book, so they
      answer every command stream with the same results, listener calls and
      snapshots. Matching follows price-time priority, shares are conserved,
      the book is never crossed, a partial cancel keeps its place in the queue,
      an immediate order never rests, and the code's own self checks pass on
      every reachable state. All of this is for prices that leave the fast
      book's 64-bit price arithmetic room for half a band on either side; near
      the largest price it overflows, where the reference book does not.
      [matchable] is right modulo 2^32.
    - The index (HashIndexRefines). The open-addressing table is a finite map
      and does not reallocate below its reserved size.
    - The codecs (Ouch, Itch, Mold, RawItch, Capture, Soup). Every encoder and
      decoder implements its layout table: decoding inverts encoding, and
      anything that is not an encoding is refused without reading out of
      bounds. Packets survive any cutting of the stream. The exception is the
      ITCH Trade message, whose encoder and decoder access four bytes beyond it;
      the exchange sends none.
    - The engine (EngineClaims). Any session of decodable commands is processed
      without failure; the order table, the live tokens and the books agree;
      responses add up to the resting shares; an order is acknowledged once and
      before its fills; the minimum-quantity gate lets an order through exactly
      when the crossing shares modulo 2^32 reach its minimum; over a session there are at most two market events and
      six responses per command.
    - The threads (SpscRing, Channel, QueueWait). Under every interleaving the
      ring delivers in order without a data race, the queue with its mutex and
      condition variable does what its one-step operations do and loses no
      notification, the engine processes the commands in the order they were
      pushed, and it returns after [stop]; which commands are processed at
      shutdown differs between the two modes.
    - Market data (EndToEnd, Listen, FileTool, Replay, View). A client that
      receives the datagrams, or knows from the gap flag that it missed some, has
      the engine's books. The listener and the file reader print the engine's
      books, and the listener reports whatever was lost; every frame of the
      viewer shows the book after exactly the events received so far; a captured
      session is replayed datagram by datagram, with its pauses, and its dump
      lists every event. After a lost datagram the viewer can fail.
    - Order entry (GatewayRuns, GatewaySession, ClientPaths, Service). The
      gateway's tables and streams stay consistent whatever clients send, as
      long as [send] does not fail inside two handlers; a connection depends on
      the packets of the stream only; only checked commands reach the engine;
      orders reach the engine and responses reach the client unchanged. The two
      back-ends of the poller register the same descriptors and report the same
      readiness (Poller). Under every interleaving of pushes, notifications,
      [stop] and the gateway's thread no wake-up is lost: the thread does not
      sleep over queued responses or a finished [stop], and it drains or leaves
      within a fixed number of its steps (Wakeup).
    - The exchange (Exchange, Shutdown). With all threads interleaved, a client
      that adds up its responses knows what it has resting. After an orderly
      shutdown the feed has published every event of the commands processed, and
      a listener has the final books. From every reachable state the shutdown can
      be completed, and the engine's thread ends by itself. The daemon's
      constructors open five descriptors or throw, and its destructors close
      them (Startup).
    - The programs (FlowGen, MarketSim, Bench, PingPong, Demo). No order of the
      generators is refused, whatever they draw and whatever others trade; the
      benchmark's operations are accepted and give the same results on both
      books, its ping-pong ends with one latency per round, its open loop sends
      every order once and records for each the time since it was planned; the
      demo ends with a book that passes its
      self check.
    - Histogram. A percentile is at most one sub-bucket above the value it
      stands for.

    ** Bounds

    A session has fewer than 2^32 - 1 commands, because a book's 32-bit links
    address that many orders; this also bounds the events it publishes, so that
    the feed's 64-bit sequence numbers do not run out. A clock reading fits its
    field (64 bits in OUCH, 48 in ITCH); Clock shows that the time of day does.
    Prices and shares are whatever the 32-bit fields of the messages hold. The
    fast book is proved for any configuration that satisfies its constructor's
    assumptions and whose half band is below 2^62 price units, on prices at
    least half a band below 2^63; the engine for the default configuration,
    where that is true of every price of the wire. The listening tools have a
    buffer of 2048 bytes, and are shown right for datagrams that fit it. The pipe of the gateway holds
    any positive number of bytes.

    ** Not modelled

    What the kernel does in the calls that open, bind, connect, read and write
    sockets and files: their outcome is an argument. The random engines and
    distributions of the Standard Library are represented by their results, and
    what a benchmark's clock reads is an argument too. [atof] is an argument of
    the replay tool, [inet_pton] of the feed publisher. Sleeping, the pause
    instruction and the size of socket buffers have no effect in the model. A
    failed [send] returns; SIGPIPE, which the source does not ignore, is not
    modelled. The steps of the lock-free ring see slot writes in order, as its
    acquire and release operations ensure; those memory orders are assumed.
    Tests and scripts are not modelled. *)

From stdpp Require Export base list gmap option numbers tactics sorting strings.
From Stdlib Require Export ZArith Lia.

#[global] Open Scope Z_scope.

(** * Machine integers

    The program computes on fixed-width unsigned integers; a value of width
    [w] is a [Z] and every arithmetic result that is stored back into such a
    variable goes through [wrap w]. *)

Definition wrap (w z : Z) : Z := z mod 2 ^ w.

Abbreviation u8 := (wrap 8).
Abbreviation u16 := (wrap 16).
Abbreviation u32 := (wrap 32).
Abbreviation u64 := (wrap 64).

(** [fits w z]: [z] is representable as an unsigned integer of width [w]. *)
Definition fits (w z : Z) : Prop := 0 <= z < 2 ^ w.

Lemma wrap_fits w z : 0 <= w -> fits w (wrap w z).
Proof. intros Hw. unfold fits, wrap. apply Z.mod_pos_bound. lia. Qed.

Lemma wrap_small w z : fits w z -> wrap w z = z.
Proof. unfold fits, wrap. apply Z.mod_small. Qed.

Lemma wrap_wrap w z : 0 <= w -> wrap w (wrap w z) = wrap w z.
Proof. intros Hw. apply wrap_small, wrap_fits, Hw. Qed.

Lemma wrap_add_l w a b : wrap w (wrap w a + b) = wrap w (a + b).
Proof. unfold wrap. apply Zplus_mod_idemp_l. Qed.

Lemma wrap_add_r w a b : wrap w (a + wrap w b) = wrap w (a + b).
Proof. unfold wrap. apply Zplus_mod_idemp_r. Qed.

Lemma wrap_sub_l w a b : wrap w (wrap w a - b) = wrap w (a - b).
Proof. unfold wrap. apply Zminus_mod_idemp_l. Qed.

Lemma wrap_sub_r w a b : wrap w (a - wrap w b) = wrap w (a - b).
Proof. unfold wrap. apply Zminus_mod_idemp_r. Qed.

Create HintDb nsq.
#[export] Hint Resolve wrap_fits wrap_small : nsq.
#[export] Hint Extern 4 (_ <= _) => lia : nsq.
#[export] Hint Extern 4 (_ < _) => lia : nsq.
#[export] Hint Extern 4 (_ = _ :> Z) => lia : nsq.
#[export] Hint Extern 4 (fits _ _) => unfold fits in *; lia : nsq.

Create Rewrite HintDb wrap_norm.
#[export] Hint Rewrite wrap_add_l wrap_add_r wrap_sub_l wrap_sub_r : wrap_norm.

(** Two wrapped sums are equal once their unwrapped arguments are. *)
Ltac wrap_eq :=
  autorewrite with wrap_norm; f_equal; lia.

(** * Tactics *)

(** Case analysis on the head of a [match]/[if] of the goal, keeping the
    equation and simplifying. *)
Ltac case_head :=
  match goal with
  | |- context [match ?x with _ => _ end] =>
      lazymatch x with
      | context [match _ with _ => _ end] => fail
      | _ => destruct x eqn:?
      end
  end.

(** The same in a hypothesis. *)
Ltac case_head_in H :=
  match type of H with
  | context [match ?x with _ => _ end] =>
      lazymatch x with
      | context [match _ with _ => _ end] => fail
      | _ => destruct x eqn:?
      end
  end.

(** Split conjunctions, existentials and pairs in the hypotheses. *)
Ltac split_hyps :=
  repeat match goal with
  | H : _ /\ _ |- _ => destruct H
  | H : exists _, _ |- _ => destruct H
  | H : (_, _) = (_, _) |- _ => injection H as; subst
  | H : Some _ = Some _ |- _ => injection H as; subst
  end.

(** * Lists indexed by machine integers

    [v[i]] on a [std::vector] with an unsigned index: [None] is the
    out-of-range access, which the program must never make. *)

Definition lookupZ {A} (l : list A) (i : Z) : option A :=
  if 0 <=? i then l !! Z.to_nat i else None.

Definition insertZ {A} (i : Z) (x : A) (l : list A) : list A :=
  if 0 <=? i then <[Z.to_nat i := x]> l else l.

Definition lengthZ {A} (l : list A) : Z := Z.of_nat (length l).

Declare Scope nsq_scope.
Delimit Scope nsq_scope with nsq.
#[global] Open Scope nsq_scope.
Notation "l !z! i" := (lookupZ l i) (at level 20, no associativity) : nsq_scope.
Notation "<z[ i := x ]> l" := (insertZ i x l)
  (at level 5, right associativity, format "<z[ i := x ]> l") : nsq_scope.

Section ListZ.
Context {A : Type}.
Implicit Types (l : list A) (i j : Z) (x : A).

Lemma lookupZ_Some_bounds l i x :
  l !z! i = Some x -> 0 <= i < lengthZ l.
Proof.
  unfold lookupZ, lengthZ. destruct (Z.leb_spec 0 i); [|done].
  intros Hl%lookup_lt_Some. lia.
Qed.

Lemma lookupZ_is_Some l i : 0 <= i < lengthZ l -> is_Some (l !z! i).
Proof.
  unfold lookupZ, lengthZ. intros Hi. destruct (Z.leb_spec 0 i); [|lia].
  apply lookup_lt_is_Some. lia.
Qed.

Lemma lookupZ_None l i : lengthZ l <= i -> l !z! i = None.
Proof.
  unfold lookupZ, lengthZ. intros Hi. destruct (0 <=? i); [|done].
  apply lookup_ge_None. lia.
Qed.

Lemma lookupZ_insertZ_eq l i x :
  0 <= i < lengthZ l -> <z[i := x]> l !z! i = Some x.
Proof.
  unfold lookupZ, insertZ, lengthZ. intros Hi.
  destruct (Z.leb_spec 0 i); [|lia]. apply list_lookup_insert_eq. lia.
Qed.

Lemma lookupZ_insertZ_ne l i j x :
  i <> j -> <z[i := x]> l !z! j = l !z! j.
Proof.
  unfold lookupZ, insertZ. intros Hij.
  destruct (Z.leb_spec 0 i), (Z.leb_spec 0 j); try done.
  apply list_lookup_insert_ne. lia.
Qed.

Lemma lookupZ_insertZ l i j x :
  0 <= i < lengthZ l ->
  <z[i := x]> l !z! j = if i =? j then Some x else l !z! j.
Proof.
  intros Hi. destruct (Z.eqb_spec i j) as [->|Hne].
  - by apply lookupZ_insertZ_eq.
  - by apply lookupZ_insertZ_ne.
Qed.

Lemma lengthZ_insertZ l i x : lengthZ (<z[i := x]> l) = lengthZ l.
Proof. unfold lengthZ, insertZ. case_head; [|done]. by rewrite length_insert. Qed.

Lemma lookupZ_app_last l x : (l ++ [x]) !z! lengthZ l = Some x.
Proof.
  unfold lookupZ, lengthZ. destruct (Z.leb_spec 0 (Z.of_nat (length l))); [|lia].
  rewrite Nat2Z.id, lookup_app_r by done. by rewrite Nat.sub_diag.
Qed.

Lemma lookupZ_app_l l k i : i < lengthZ l -> (l ++ k) !z! i = l !z! i.
Proof.
  unfold lookupZ, lengthZ. intros Hi. destruct (Z.leb_spec 0 i); [|done].
  apply lookup_app_l. lia.
Qed.

Lemma lengthZ_app l k : lengthZ (l ++ k) = lengthZ l + lengthZ k.
Proof. unfold lengthZ. rewrite length_app. lia. Qed.

Lemma lengthZ_nonneg l : 0 <= lengthZ l.
Proof. unfold lengthZ. lia. Qed.

Lemma lookupZ_of_nat l (n : nat) : l !z! Z.of_nat n = l !! n.
Proof.
  unfold lookupZ. destruct (Z.leb_spec 0 (Z.of_nat n)); [|lia]. by rewrite Nat2Z.id.
Qed.

Lemma elem_of_lookupZ l x : x ∈ l <-> exists i, l !z! i = Some x.
Proof.
  rewrite list_elem_of_lookup. split.
  - intros [n Hn]. exists (Z.of_nat n). by rewrite lookupZ_of_nat.
  - intros [i Hi]. unfold lookupZ in Hi. case_match; [eauto|done].
Qed.

Lemma lookupZ_replicate n x i :
  0 <= i < Z.of_nat n -> replicate n x !z! i = Some x.
Proof.
  unfold lookupZ. intros Hi. destruct (Z.leb_spec 0 i); [|lia].
  apply lookup_replicate. split; [done|lia].
Qed.
End ListZ.

#[export] Hint Resolve lookupZ_Some_bounds lengthZ_nonneg : nsq.

(** * Sums *)

Fixpoint sum_by {A} (f : A -> Z) (l : list A) : Z :=
  match l with
  | [] => 0
  | x :: l' => f x + sum_by f l'
  end.

Lemma sum_by_app {A} (f : A -> Z) (l k : list A) :
  sum_by f (l ++ k) = sum_by f l + sum_by f k.
Proof. induction l as [|x l IH]; cbn in *; [done|]. rewrite IH. lia. Qed.

Lemma sum_by_nonneg {A} (f : A -> Z) (l : list A) :
  Forall (fun x => 0 <= f x) l -> 0 <= sum_by f l.
Proof. induction 1; cbn; lia. Qed.

Lemma sum_by_ext {A} (f g : A -> Z) (l : list A) :
  Forall (fun x => f x = g x) l -> sum_by f l = sum_by g l.
Proof. induction 1 as [|x l Hx _ IH]; cbn; [done|]. by rewrite Hx, IH. Qed.

Lemma sum_by_insertZ {A} (f : A -> Z) (l : list A) i x y :
  l !z! i = Some x -> sum_by f (<z[i := y]> l) = sum_by f l - f x + f y.
Proof.
  unfold lookupZ, insertZ. destruct (0 <=? i); [|done].
  generalize (Z.to_nat i). clear i. induction l as [|z l IH]; intros n; [done|].
  destruct n as [|n]; intros H; [injection H as ->; cbn; lia|].
  change (<[S n:=y]> (z :: l)) with (z :: <[n:=y]> l). specialize (IH n H).
  cbn [sum_by]. lia.
Qed.

(** * List lemmas shared by the components *)

Lemma NoDup_omap_fst {A K V} (f : A -> option (K * V)) (l : list A) :
  (forall i j x y a b, l !! i = Some x -> l !! j = Some y ->
     f x = Some a -> f y = Some b -> a.1 = b.1 -> i = j) ->
  NoDup (omap f l).*1.
Proof.
  induction l as [|x l IH]; intros Hq; cbn; [constructor|].
  assert (NoDup (omap f l).*1) as Hl.
  { apply IH. intros i j x' y a b Hi Hj. intros. enough (S i = S j) by lia.
    by eapply (Hq (S i) (S j)). }
  destruct (f x) as [a|] eqn:Hx; cbn; [|done]. constructor; [|done].
  intros (b & Hab & Hb)%list_elem_of_fmap.
  apply list_elem_of_omap in Hb as (y & Hy & Hfy).
  apply list_elem_of_lookup in Hy as [j Hj].
  by assert (0%nat = S j) by (by eapply (Hq 0%nat (S j))).
Qed.

Lemma Forall2_length_nil_l {A B} (P : A -> B -> Prop) (l : list B) :
  Forall2 P [] l -> l = [].
Proof. by inversion 1. Qed.

Lemma Forall2_length_nil_r {A B} (P : A -> B -> Prop) (l : list A) :
  Forall2 P l [] -> l = [].
Proof. by inversion 1. Qed.

Lemma Forall2_impl_in {A B} (P Q : A -> B -> Prop) (l : list A) (k : list B) :
  Forall2 P l k -> (forall x y, y ∈ k -> P x y -> Q x y) -> Forall2 Q l k.
Proof.
  induction 1 as [|x y l k Hxy _ IH]; intros H; constructor.
  - apply H; [set_solver|done].
  - apply IH. intros ????. apply H; [set_solver|done].
Qed.

Lemma Forall_sublist {A} (P : A -> Prop) (l k : list A) :
  l `sublist_of` k -> Forall P k -> Forall P l.
Proof.
  intros Hs Hk. rewrite Forall_forall in *. intros x Hx.
  apply Hk. by eapply elem_of_sublist.
Qed.

Lemma map_sublist {A B} (f : A -> B) (l k : list A) :
  l `sublist_of` k -> map f l `sublist_of` map f k.
Proof. induction 1; cbn; by constructor. Qed.

(** Running a step that succeeds. *)
Lemma obind_Some {A B} (f : A -> option B) (a : A) : Some a ≫= f = f a.
Proof. done. Qed.

(** The value of a signed 64-bit sum, difference or product: overflow is
    undefined behaviour. *)
Definition int64 (z : Z) : option Z :=
  if (- 2 ^ 63 <=? z) && (z <? 2 ^ 63) then Some z else None.

Lemma int64_Some z : - 2 ^ 63 <= z < 2 ^ 63 -> int64 z = Some z.
Proof. intros Hz. unfold int64. replace (- 2 ^ 63 <=? z) with true by lia. by replace (z <? 2 ^ 63) with true by lia. Qed.

Lemma int64_overflow z : 2 ^ 63 <= z -> int64 z = None.
Proof. intros Hz. unfold int64. replace (z <? 2 ^ 63) with false by lia. by rewrite andb_false_r. Qed.

(** * Outcomes

    A call that may throw [std::logic_error], or whose behaviour the C++
    standard leaves undefined (a dangling iterator, an index out of range). *)

Inductive outcome (A : Type) :=
  | Ok (a : A)
  | Throw (what : string)
  | Undefined.
Arguments Ok {A} a.
Arguments Throw {A} what.
Arguments Undefined {A}.

#[export] Instance outcome_ret : MRet outcome := @Ok.
#[export] Instance outcome_bind : MBind outcome := fun A B f m =>
  match m with
  | Ok a => f a
  | Throw w => Throw w
  | Undefined => Undefined
  end.

(** Running a call that returns. *)
Lemma outcome_bind_Ok {A B} (f : A -> outcome B) (a : A) : Ok a ≫= f = f a.
Proof. done. Qed.

(** [if (cond) fail(what);] *)
Definition fail_if (cond : bool) (what : string) : outcome unit :=
  if cond then Throw what else Ok tt.

(** Reading through a pointer or iterator that must be valid. *)
Definition deref {A} (m : option A) : outcome A :=
  match m with Some a => Ok a | None => Undefined end.
