(* ===== verification/Clock.v ===== *)
(** The time of day ([common/clock.hpp]) and the operating-system helpers of
    the low-latency mode ([common/cpu.hpp]).

    A reading of the system clock is its number of ticks since the epoch; a
    tick lasts [tick_ns] nanoseconds, which depends on the platform (one with
    libstdc++, a thousand with libc++). The system calls are arguments. *)

From S2P Require Import Prelude.

Module Clock.

Definition ns_per_day : Z := 86400 * 1000000000.

Section Ticks.
Context (tick_ns : Z).

Definition ticks_per_day : Z := ns_per_day / tick_ns.

(** [std::chrono::floor<days>(now)]: the conversion truncates towards zero, and
    one day is taken off when that is later than [now]. *)
Definition floor_days (now : Z) : Z :=
  let d := Z.quot now ticks_per_day in
  if now <? d * ticks_per_day then d - 1 else d.

Definition ns_since_midnight (now : Z) : Z :=
  let today := floor_days now in
  u64 ((now - today * ticks_per_day) * tick_ns).

(** A tick divides a second, as in the periods of the standard clocks. *)
Definition tick_ok : Prop := 0 < tick_ns /\ (tick_ns | 1000000000).

Context (Htick : tick_ok).

Lemma ticks_exact : ticks_per_day * tick_ns = ns_per_day.
Proof.
  destruct Htick as [H0 [k Hk]]. unfold ticks_per_day, ns_per_day. rewrite Hk.
  replace (86400 * (k * tick_ns)) with (86400 * k * tick_ns) by lia. by rewrite Z.div_mul by lia.
Qed.

Lemma ticks_positive : 0 < ticks_per_day.
Proof.
  pose proof ticks_exact as H. destruct Htick as [H0 _].
  assert (0 < ns_per_day) by by vm_compute. nia.
Qed.

Lemma floor_days_div now : floor_days now = now / ticks_per_day.
Proof.
  pose proof ticks_positive as Hp. unfold floor_days.
  pose proof (Z.quot_rem now ticks_per_day ltac:(lia)) as Hq.
  pose proof (Z.rem_bound_abs now ticks_per_day ltac:(lia)) as Hr.
  destruct (Z.ltb_spec now (now ÷ ticks_per_day * ticks_per_day)).
  - apply (Z.div_unique now ticks_per_day _ (Z.rem now ticks_per_day + ticks_per_day)); lia.
  - apply (Z.div_unique now ticks_per_day _ (Z.rem now ticks_per_day)); lia.
Qed.

(** The reading is the time of day: what is left of the time since the epoch
    after whole days, with nothing lost to the conversions. *)
Lemma ns_since_midnight_mod now : ns_since_midnight now = (now * tick_ns) mod ns_per_day.
Proof.
  pose proof ticks_positive as Hp. destruct Htick as [H0 _]. pose proof ticks_exact as He.
  unfold ns_since_midnight. cbv zeta. rewrite floor_days_div.
  replace (now - now / ticks_per_day * ticks_per_day) with (now mod ticks_per_day) by (rewrite Z.mod_eq; lia).
  rewrite <- Z.mul_mod_distr_r by lia. rewrite He, wrap_small; [done|].
  pose proof (Z.mod_pos_bound (now * tick_ns) ns_per_day ltac:(by vm_compute)) as Hm.
  unfold fits. change ns_per_day with 86400000000000 in *. lia.
Qed.

Lemma ns_since_midnight_bound now : 0 <= ns_since_midnight now < ns_per_day.
Proof. rewrite ns_since_midnight_mod. apply Z.mod_pos_bound. by vm_compute. Qed.

(** Times of day fit the 48-bit timestamps of ITCH. *)
Lemma ns_since_midnight_fits now : fits 48 (ns_since_midnight now).
Proof.
  pose proof (ns_since_midnight_bound now) as H. change ns_per_day with 86400000000000 in H. unfold fits. lia.
Qed.

(** So does everything stamped with a reading, as the engine stamps what it
    processes. *)
Lemma stamped_fit {A} (l : list (Z * A)) :
  Forall (fun c => exists now, c.1 = ns_since_midnight now) l -> Forall (fun c => fits 48 c.1) l.
Proof. intros H. eapply Forall_impl; [exact H|]. intros c [now ->]. apply ns_since_midnight_fits. Qed.

(** Two readings less than a day apart: on the same day the times of day differ
    by what elapsed, and across midnight the later one is smaller. *)
Lemma ns_since_midnight_elapsed a b :
  a <= b -> (b - a) * tick_ns < ns_per_day ->
  (a / ticks_per_day = b / ticks_per_day /\
     ns_since_midnight b - ns_since_midnight a = (b - a) * tick_ns) \/
  (a / ticks_per_day < b / ticks_per_day /\ ns_since_midnight b < ns_since_midnight a).
Proof.
  intros Hab Hd. pose proof ticks_positive as Hp. pose proof ticks_exact as He. destruct Htick as [H0 _].
  assert (forall t, ns_since_midnight t = t * tick_ns - t / ticks_per_day * ns_per_day) as Hns.
  { intros t. rewrite ns_since_midnight_mod, <- He, Z.mul_mod_distr_r by lia.
    pose proof (Z.div_mod t ticks_per_day ltac:(lia)). nia. }
  rewrite !Hns. pose proof (Z.div_le_mono a b ticks_per_day Hp Hab) as Hle.
  destruct (Z.eq_dec (a / ticks_per_day) (b / ticks_per_day)) as [->|Hne]; [left; split; lia|].
  right. split; [lia|]. assert (0 < ns_per_day) by by vm_compute. nia.
Qed.
End Ticks.
End Clock.

(** ** Processor and memory *)
Module Cpu.

(** What the build and the kernel offer: whether threads can be bound to cores
    and memory locked, and the results of the two calls, by the mask of cores
    and by the flags. *)
Record Platform := mkPlatform {
  linux : bool;
  has_mlockall : bool;
  setaffinity : Z -> Z;
  mlockall : Z -> Z }.

(** [cpu_set_t]: 1024 bits. [CPU_SET] leaves the set as it is when the core is
    not one of them; a negative core is a huge unsigned one. *)
Definition kSetBits : Z := 1024.

Definition CPU_SET (core : Z) (set : Z) : Z :=
  let cpu := u64 core in
  if cpu / 8 <? kSetBits / 8 then Z.lor set (Z.shiftl 1 cpu) else set.

Definition pin_thread_to_core (p : Platform) (core : Z) : bool :=
  if linux p then
    let set := CPU_SET core 0 in
    setaffinity p set =? 0
  else false.

Definition MCL_CURRENT : Z := 1.
Definition MCL_FUTURE : Z := 2.

Definition lock_all_memory (p : Platform) : bool :=
  if has_mlockall p then mlockall p (Z.lor MCL_CURRENT MCL_FUTURE) =? 0 else false.

Lemma CPU_SET_one core : 0 <= core < kSetBits -> CPU_SET core 0 = 2 ^ core.
Proof.
  unfold kSetBits. intros Hc. unfold CPU_SET. change (kSetBits / 8) with 128. cbv zeta. rewrite wrap_small by (unfold fits; lia).
  rewrite (proj2 (Z.ltb_lt _ _)) by (apply Z.div_lt_upper_bound; lia).
  rewrite Z.lor_0_l, Z.shiftl_mul_pow2; lia.
Qed.

Lemma CPU_SET_outside core : kSetBits <= core < 2 ^ 31 \/ - 2 ^ 31 <= core < 0 -> CPU_SET core 0 = 0.
Proof.
  intros Hc. unfold CPU_SET. cbv zeta. change (kSetBits / 8) with 128.
  assert (1024 <= u64 core) as Hu.
  { unfold kSetBits in Hc. destruct Hc as [Hc|Hc]; [rewrite wrap_small; unfold fits; lia|].
    unfold wrap. rewrite <- (Z.mod_add core 1) by lia. rewrite Z.mod_small; lia. }
  rewrite (proj2 (Z.ltb_ge _ _)); [done|]. apply Z.div_le_lower_bound; lia.
Qed.

(** Binding succeeds exactly for the cores of the machine: the kernel refuses a
    mask without any (pthread_setaffinity_np: EINVAL), and takes one with one. *)
Lemma pin_exactly_available p cores core :
  linux p = true -> 0 <= cores <= kSetBits ->
  (forall mask, setaffinity p mask = 0 <-> exists i, 0 <= i < cores /\ Z.testbit mask i = true) ->
  - 2 ^ 31 <= core < 2 ^ 31 ->
  pin_thread_to_core p core = true <-> 0 <= core < cores.
Proof.
  intros Hl Hn Hk Hc. unfold pin_thread_to_core. rewrite Hl. cbv zeta. rewrite Z.eqb_eq, Hk.
  unfold kSetBits in Hn. destruct (decide (0 <= core < 1024)) as [Hin|Hout].
  - rewrite CPU_SET_one by done. split.
    + intros (i & Hi & Hb). destruct (Z.eq_dec core i) as [->|Hne]; [done|].
      rewrite Z.pow2_bits_false in Hb by done. done.
    + intros H. exists core. by rewrite Z.pow2_bits_true by lia.
  - rewrite CPU_SET_outside by (unfold kSetBits; lia). split; [|lia].
    intros (i & _ & Hb). by rewrite Z.bits_0 in Hb.
Qed.

Lemma unsupported_never_pins p core : linux p = false -> pin_thread_to_core p core = false.
Proof. intros H. unfold pin_thread_to_core. by rewrite H. Qed.
End Cpu.
