(* ===== verification/StdMap.v ===== *)
(** A model of [std::map<Price, V, Compare>]: an association list kept
    sorted by the comparator, so that iteration order and [begin()] are the
    list's. The reference book's sides, the fast book's fallback levels and
    the client's per-symbol ladders are such maps, with [std::greater] for
    bids and [std::less] for asks. *)

From S2P Require Import Prelude.

(** What [std::map] asks of its comparator. *)
Class StrictOrder_b (lt : Z -> Z -> bool) : Prop := {
  lt_irrefl : forall k, lt k k = false;
  lt_trans : forall a b c, lt a b = true -> lt b c = true -> lt a c = true;
  lt_total : forall a b, lt a b = false -> lt b a = false -> a = b;
}.

#[export] Instance ltb_strict : StrictOrder_b Z.ltb.
Proof. split; intros; lia. Qed.

#[export] Instance gtb_strict : StrictOrder_b (fun a b => b <? a).
Proof. split; intros; lia. Qed.

Module StdMap.

(** [m.find(k)], as the mapped value; [None] is [end()]. *)
Fixpoint find {V} (k : Z) (m : list (Z * V)) : option V :=
  match m with
  | [] => None
  | (k', v) :: m' => if k =? k' then Some v else find k m'
  end.

(** [V& v = m[k]; v = f(v)]: the reference operator[] yields, creating a
    default element [d] when the key is absent. *)
Fixpoint upsert {V} (lt : Z -> Z -> bool) (d : V) (k : Z) (f : V -> V)
    (m : list (Z * V)) : list (Z * V) :=
  match m with
  | [] => [(k, f d)]
  | (k', v) :: m' =>
      if k =? k' then (k', f v) :: m'
      else if lt k k' then (k, f d) :: (k', v) :: m'
      else (k', v) :: upsert lt d k f m'
  end.

(** [it->second = f(it->second)] through an iterator to [k]. *)
Fixpoint update {V} (k : Z) (f : V -> V) (m : list (Z * V)) : list (Z * V) :=
  match m with
  | [] => []
  | (k', v) :: m' => if k =? k' then (k', f v) :: m' else (k', v) :: update k f m'
  end.

(** [m.erase(k)]. *)
Fixpoint erase {V} (k : Z) (m : list (Z * V)) : list (Z * V) :=
  match m with
  | [] => []
  | (k', v) :: m' => if k =? k' then m' else (k', v) :: erase k m'
  end.

Definition key_lt {V} (lt : Z -> Z -> bool) (a b : Z * V) : Prop :=
  lt a.1 b.1 = true.

Definition sorted {V} (lt : Z -> Z -> bool) (m : list (Z * V)) : Prop :=
  StronglySorted (key_lt lt) m.

Section Facts.
Context {V : Type} (lt : Z -> Z -> bool) `{!StrictOrder_b lt}.
Implicit Types (m : list (Z * V)) (k : Z) (v : V).

Lemma sm_lt_ne a b : lt a b = true -> a <> b.
Proof. intros H ->. by rewrite lt_irrefl in H. Qed.

Lemma sm_lt_asym a b : lt a b = true -> lt b a = false.
Proof.
  intros H. destruct (lt b a) eqn:H'; [|done].
  pose proof (lt_trans _ _ _ H H') as Hc. by rewrite lt_irrefl in Hc.
Qed.

Lemma sm_sorted_nil : sorted lt ([] : list (Z * V)).
Proof. constructor. Qed.

Lemma sm_sorted_cons k v m :
  sorted lt ((k, v) :: m) <->
  Forall (fun p => lt k p.1 = true) m /\ sorted lt m.
Proof. unfold sorted. rewrite StronglySorted_cons. done. Qed.

Lemma sm_find_elem k v m : find k m = Some v -> (k, v) ∈ m.
Proof.
  induction m as [|[k' v'] m IH]; cbn; [done|].
  destruct (Z.eqb_spec k k') as [->|]; intros H; simplify_eq; set_solver.
Qed.

Lemma sm_find_above k m :
  Forall (fun p : Z * V => lt k p.1 = true) m -> find k m = None.
Proof.
  induction 1 as [|[k' v'] m Hk _ IH]; cbn in *; [done|].
  destruct (Z.eqb_spec k k') as [->|]; [|done].
  by rewrite lt_irrefl in Hk.
Qed.

Lemma sm_elem_find k v m : sorted lt m -> (k, v) ∈ m -> find k m = Some v.
Proof.
  induction m as [|[k' v'] m IH]; cbn; intros Hs Hin; [by apply elem_of_nil in Hin|].
  apply sm_sorted_cons in Hs as [Hall Hs].
  destruct (Z.eqb_spec k k') as [->|Hne].
  - apply elem_of_cons in Hin as [Heq|Hin]; [by simplify_eq|].
    rewrite Forall_forall in Hall. specialize (Hall _ Hin). cbn in Hall.
    by rewrite lt_irrefl in Hall.
  - apply IH; [done|]. apply elem_of_cons in Hin as [?|?]; [by simplify_eq|done].
Qed.

(** The first element is the best one. *)
Lemma sm_find_head_lt k v m k' v' :
  sorted lt ((k, v) :: m) -> find k' ((k, v) :: m) = Some v' ->
  k' = k \/ lt k k' = true.
Proof.
  intros [Hall _]%sm_sorted_cons Hf%sm_find_elem.
  apply elem_of_cons in Hf as [Heq|Hin]; [left; by simplify_eq|right].
  rewrite Forall_forall in Hall. apply (Hall _ Hin).
Qed.

Lemma sm_find_upsert_eq d k f m :
  sorted lt m -> find k (upsert lt d k f m) = Some (f (default d (find k m))).
Proof.
  induction m as [|[k' v'] m IH]; cbn; intros Hs; [by rewrite Z.eqb_refl|].
  apply sm_sorted_cons in Hs as [Hall Hs].
  destruct (Z.eqb_spec k k') as [->|Hne]; cbn; [by rewrite Z.eqb_refl|].
  destruct (lt k k') eqn:Hlt; cbn.
  - rewrite Z.eqb_refl. rewrite sm_find_above; [done|].
    eapply Forall_impl; [exact Hall|]. intros p Hp. by eapply lt_trans.
  - destruct (Z.eqb_spec k k'); [done|]. by apply IH.
Qed.

Lemma sm_find_upsert_ne d k f m k' :
  k <> k' -> find k' (upsert lt d k f m) = find k' m.
Proof.
  intros Hne. induction m as [|[k0 v0] m IH]; cbn.
  - destruct (Z.eqb_spec k' k); [lia|done].
  - destruct (Z.eqb_spec k k0) as [->|]; cbn.
    + destruct (Z.eqb_spec k' k0); [lia|done].
    + destruct (lt k k0); cbn.
      * destruct (Z.eqb_spec k' k); [lia|done].
      * by rewrite IH.
Qed.

Lemma sm_upsert_Forall (P : Z * V -> Prop) d k f m :
  Forall P m -> P (k, f d) -> (forall v, P (k, v) -> P (k, f v)) ->
  Forall P (upsert lt d k f m).
Proof.
  intros Hall Hd Hf. induction Hall as [|[k0 v0] m H0 Hm IH]; cbn; [by constructor|].
  destruct (Z.eqb_spec k k0) as [->|]; [constructor; auto|].
  destruct (lt k k0); repeat constructor; auto.
Qed.

Lemma sm_sorted_upsert d k f m : sorted lt m -> sorted lt (upsert lt d k f m).
Proof.
  induction m as [|[k' v'] m IH]; cbn; intros Hs.
  - apply sm_sorted_cons. by split.
  - pose proof Hs as Hs0. apply sm_sorted_cons in Hs as [Hall Hs].
    destruct (Z.eqb_spec k k') as [->|Hne]; [by apply sm_sorted_cons|].
    destruct (lt k k') eqn:Hlt.
    + apply sm_sorted_cons. split; [|done]. constructor; [done|].
      eapply Forall_impl; [exact Hall|]. intros p Hp. by eapply lt_trans.
    + apply sm_sorted_cons. split; [|by apply IH].
      apply sm_upsert_Forall; [done| |done]. cbn.
      destruct (lt k' k) eqn:Hlt'; [done|]. by pose proof (lt_total _ _ Hlt Hlt').
Qed.

Lemma sm_find_update k f m k' :
  find k' (update k f m) = if k =? k' then f <$> find k' m else find k' m.
Proof.
  induction m as [|[k0 v0] m IH]; cbn; [by case_match|].
  destruct (Z.eqb_spec k k0) as [->|]; cbn.
  - rewrite (Z.eqb_sym k0 k'). by destruct (Z.eqb_spec k' k0) as [->|].
  - rewrite IH. destruct (Z.eqb_spec k' k0) as [->|]; [|done].
    by destruct (Z.eqb_spec k k0).
Qed.

Lemma sm_update_Forall (P : Z -> Prop) k f m :
  Forall (fun p => P p.1) m -> Forall (fun p => P p.1) (update k f m).
Proof.
  induction 1 as [|[k0 v0] m H0 Hm IH]; cbn; [done|].
  case_match; by constructor.
Qed.

Lemma sm_sorted_update k f m : sorted lt m -> sorted lt (update k f m).
Proof.
  induction m as [|[k' v'] m IH]; cbn; intros Hs; [done|].
  apply sm_sorted_cons in Hs as [Hall Hs].
  case_match; apply sm_sorted_cons; split; auto.
  by apply (sm_update_Forall (fun k0 => lt k' k0 = true)).
Qed.

Lemma sm_erase_Forall (P : Z * V -> Prop) k m : Forall P m -> Forall P (erase k m).
Proof.
  induction 1 as [|[k0 v0] m H0 Hm IH]; cbn; [done|].
  case_match; [done|]. by constructor.
Qed.

Lemma sm_sorted_erase k m : sorted lt m -> sorted lt (erase k m).
Proof.
  induction m as [|[k' v'] m IH]; cbn; intros Hs; [done|].
  apply sm_sorted_cons in Hs as [Hall Hs].
  case_match; [done|]. apply sm_sorted_cons. split; [|by apply IH].
  by apply sm_erase_Forall.
Qed.

Lemma sm_find_erase k m k' :
  sorted lt m -> find k' (erase k m) = if k =? k' then None else find k' m.
Proof.
  induction m as [|[k0 v0] m IH]; cbn; intros Hs; [by case_match|].
  apply sm_sorted_cons in Hs as [Hall Hs].
  destruct (Z.eqb_spec k k0) as [->|]; cbn.
  - rewrite (Z.eqb_sym k0 k'). destruct (Z.eqb_spec k' k0) as [->|]; [|done].
    by apply sm_find_above.
  - rewrite IH by done. destruct (Z.eqb_spec k' k0) as [->|]; [|done].
    by destruct (Z.eqb_spec k k0).
Qed.

(** Sorted maps with the same lookups are equal. *)
Lemma sm_sorted_ext m1 m2 :
  sorted lt m1 -> sorted lt m2 -> (forall k, find k m1 = find k m2) -> m1 = m2.
Proof.
  revert m2. induction m1 as [|[k1 v1] m1 IH]; intros [|[k2 v2] m2] H1 H2 Hf; [done| | |].
  - specialize (Hf k2). cbn in Hf. by rewrite Z.eqb_refl in Hf.
  - specialize (Hf k1). cbn in Hf. by rewrite Z.eqb_refl in Hf.
  - assert (k1 = k2) as <-.
    { assert (find k1 ((k2, v2) :: m2) = Some v1) as Ha
        by (rewrite <- Hf; cbn; by rewrite Z.eqb_refl).
      assert (find k2 ((k1, v1) :: m1) = Some v2) as Hb
        by (rewrite Hf; cbn; by rewrite Z.eqb_refl).
      destruct (sm_find_head_lt _ _ _ _ _ H2 Ha) as [?|Hx]; [done|].
      destruct (sm_find_head_lt _ _ _ _ _ H1 Hb) as [?|Hy]; [done|].
      by rewrite (sm_lt_asym _ _ Hx) in Hy. }
    assert (v1 = v2) as <-.
    { specialize (Hf k1). cbn in Hf. rewrite Z.eqb_refl in Hf. by simplify_eq. }
    apply sm_sorted_cons in H1 as [Ha1 H1]. apply sm_sorted_cons in H2 as [Ha2 H2].
    f_equal. apply IH; [done..|]. intros k. specialize (Hf k). cbn in Hf.
    destruct (Z.eqb_spec k k1) as [Heq|]; [|done].
    rewrite Heq. by rewrite !sm_find_above.
Qed.
End Facts.

End StdMap.

#[export] Hint Resolve StdMap.sm_sorted_upsert StdMap.sm_sorted_update
  StdMap.sm_sorted_erase StdMap.sm_sorted_nil : nsq.
