(* ===== verification/BookTypes.v ===== *)
(** The vocabulary of the order books: the domain types of
    [common/types.hpp] and the events, results and snapshots declared in
    [book/order_book.hpp]. *)

From S2P Require Import Prelude StdMap.

(** Prices are fixed-point ten-thousandths of a dollar (int64), quantities are
    uint32 share counts, order ids are uint64. *)
Abbreviation Price := Z.
Abbreviation Qty := Z.
Abbreviation OrderId := Z.

(** [enum class Side : char]. An enumeration with a fixed underlying type can
    hold any value of that type, and the codecs [static_cast] a wire byte into
    it, so a third constructor holds the bytes that are neither 'B' nor 'S'. *)
Inductive Side := Buy | Sell | RawSide (c : Z).

#[export] Instance Side_eq_dec : EqDecision Side.
Proof. solve_decision. Defined.

(** The test [side == Side::Buy] every branch of the books makes. *)
Definition is_buy (s : Side) : bool :=
  match s with Buy => true | _ => false end.

Definition valid_side (s : Side) : Prop := s = Buy \/ s = Sell.

Definition opposite (s : Side) : Side := if is_buy s then Sell else Buy.

Lemma valid_side_opposite s : valid_side (opposite s).
Proof. unfold opposite, valid_side. destruct (is_buy s); auto. Qed.

#[export] Hint Resolve valid_side_opposite : nsq.

Lemma valid_side_cases s s' : valid_side s -> valid_side s' -> s' = s \/ s' = opposite s.
Proof. intros [-> | ->] [-> | ->]; auto. Qed.

Record AddedEvent := mkAdded {
  ad_id : OrderId; ad_side : Side; ad_price : Price; ad_qty : Qty }.

Record ExecutedEvent := mkExecuted {
  ex_resting_id : OrderId; ex_aggressor_id : OrderId;
  ex_aggressor_side : Side; ex_price : Price; ex_qty : Qty; ex_match_id : Z }.

Record CanceledEvent := mkCanceled {
  ca_id : OrderId; ca_canceled_qty : Qty; ca_removed : bool }.

Record ReplacedEvent := mkReplaced {
  re_old_id : OrderId; re_new_id : OrderId; re_side : Side;
  re_price : Price; re_qty : Qty }.

(** One call on a [BookListener]. *)
Inductive BookEvent :=
  | on_added (e : AddedEvent)
  | on_executed (e : ExecutedEvent)
  | on_canceled (e : CanceledEvent)
  | on_replaced (e : ReplacedEvent).

Inductive AddStatus := AddOk | DuplicateId | BadPrice | BadQty.

Record AddResult := mkAddResult {
  ar_status : AddStatus; ar_filled : Qty; ar_resting : Qty }.

Record SnapshotOrder := mkSnapOrder { so_id : OrderId; so_qty : Qty }.

Record SnapshotLevel := mkSnapLevel {
  sl_price : Price; sl_orders : list SnapshotOrder }.

Record BookSnapshot := mkSnapshot {
  bs_bids : list SnapshotLevel; bs_asks : list SnapshotLevel }.

(** [crosses]: can an aggressor with this limit trade at [resting_price]? *)
Definition crosses (aggressor_side : Side) (aggressor_limit resting_price : Price)
    : bool :=
  if is_buy aggressor_side then resting_price <=? aggressor_limit
  else aggressor_limit <=? resting_price.

(** The comparator of a side's price map: [std::greater] for bids,
    [std::less] for asks. [before s p q]: [p] has priority over [q]. *)
Definition before (s : Side) (p q : Price) : bool :=
  if is_buy s then q <? p else p <? q.


#[export] Instance before_strict s : StrictOrder_b (before s).
Proof. unfold before. destruct (is_buy s); split; intros; lia. Qed.

(** If a price crosses then so does every better price of that side. *)
Lemma crosses_before side limit p q :
  crosses side limit q = true -> before (opposite side) p q = true ->
  crosses side limit p = true.
Proof.
  unfold crosses, before, opposite. destruct side; cbn; intros; lia.
Qed.

(** The book operations, as data: one call on a book. *)
Inductive BookOp :=
  | OpAdd (id : OrderId) (side : Side) (price : Price) (qty : Qty)
  | OpCancel (id : OrderId) (keep : Qty)
  | OpReplace (old_id new_id : OrderId) (price : Price) (qty : Qty).

Inductive OpResult :=
  | RAdd (r : AddResult)
  | RBool (ok : bool).

(** The conditions every book puts on a call: a side that is one of the two
    enumerators and a 32-bit quantity. Order ids and prices are only compared
    by the reference book and are left unbounded here; the bound the fast
    book's price arithmetic needs is [op_fits]. *)
Definition op_ok (op : BookOp) : Prop :=
  match op with
  | OpAdd _ side _ qty => valid_side side /\ fits 32 qty
  | OpCancel _ keep => fits 32 keep
  | OpReplace _ _ _ qty => fits 32 qty
  end.

(** The prices an order-entry message can carry are 32-bit. *)
Definition op_narrow (op : BookOp) : Prop :=
  match op with
  | OpAdd _ _ px _ => px < 2 ^ 32
  | OpCancel _ _ => True
  | OpReplace _ _ px _ => px < 2 ^ 32
  end.
