(* ===== verification/BookSpec.v ===== *)
(** The abstract limit order book both implementations are measured against:
    two price-sorted lists of FIFO queues, without index, aggregates, pools or
    price bands. Its operations are the documented semantics of
    [book/order_book.hpp]; the theorems here are the market rules that follow
    from it, and the two implementation files prove that their operations
    refine it. *)

From S2P Require Import Prelude StdMap BookTypes.

Module Spec.

(** A side of the book: price levels, best first, each a FIFO of open orders. *)
Abbreviation Levels := (list (Price * list SnapshotOrder)).

Record Book := mkBook {
  bids : Levels;
  asks : Levels;
  next_match : Z }.

Definition empty : Book := mkBook [] [] 1.

Definition levels (s : Side) (b : Book) : Levels :=
  if is_buy s then bids b else asks b.

Definition set_levels (s : Side) (ls : Levels) (b : Book) : Book :=
  if is_buy s then mkBook ls (asks b) (next_match b)
  else mkBook (bids b) ls (next_match b).

Definition set_match (m : Z) (b : Book) : Book := mkBook (bids b) (asks b) m.

(** ** Matching *)

(** Fill [qty] shares against one FIFO queue: what is left of the queue, of
    the quantity, the next match number and the executions. *)
Fixpoint fill_queue (agg : OrderId) (side : Side) (px : Price) (qty : Qty)
    (mid : Z) (os : list SnapshotOrder)
    : list SnapshotOrder * Qty * Z * list BookEvent :=
  match os with
  | [] => ([], qty, mid, [])
  | o :: os' =>
      if qty =? 0 then (os, qty, mid, [])
      else
        let exec := Z.min qty (so_qty o) in
        let ev := on_executed (mkExecuted (so_id o) agg side px exec mid) in
        if so_qty o =? exec then
          let '(os2, q2, m2, evs) :=
            fill_queue agg side px (qty - exec) (u64 (mid + 1)) os' in
          (os2, q2, m2, ev :: evs)
        else
          (mkSnapOrder (so_id o) (so_qty o - exec) :: os', qty - exec,
           u64 (mid + 1), [ev])
  end.

(** Walk the levels while they cross. *)
Fixpoint fill_levels (agg : OrderId) (side : Side) (limit : Price) (qty : Qty)
    (mid : Z) (ls : Levels) : Levels * Qty * Z * list BookEvent :=
  match ls with
  | [] => ([], qty, mid, [])
  | (px, os) :: ls' =>
      if (qty =? 0) || negb (crosses side limit px) then (ls, qty, mid, [])
      else
        let '(os1, q1, m1, ev1) := fill_queue agg side px qty mid os in
        match os1 with
        | [] =>
            let '(ls2, q2, m2, ev2) := fill_levels agg side limit q1 m1 ls' in
            (ls2, q2, m2, ev1 ++ ev2)
        | _ => ((px, os1) :: ls', q1, m1, ev1)
        end
  end.

Definition match_ (agg : OrderId) (side : Side) (limit : Price) (qty : Qty)
    (b : Book) : Book * Qty * list BookEvent :=
  let '(ls, rem, mid, evs) :=
    fill_levels agg side limit qty (next_match b) (levels (opposite side) b) in
  (set_match mid (set_levels (opposite side) ls b), rem, evs).

(** ** Resting, removing *)

Definition rest (id : OrderId) (side : Side) (px : Price) (qty : Qty) (b : Book)
    : Book :=
  set_levels side
    (StdMap.upsert (before side) [] px
       (fun os => os ++ [mkSnapOrder id qty]) (levels side b)) b.

(** Apply [f] to the queue at [px]; a queue that becomes empty disappears. *)
Fixpoint cut (px : Price) (f : list SnapshotOrder -> list SnapshotOrder)
    (ls : Levels) : Levels :=
  match ls with
  | [] => []
  | (p, os) :: ls' =>
      if px =? p then
        match f os with [] => ls' | os' => (p, os') :: ls' end
      else (p, os) :: cut px f ls'
  end.

Definition drop_id (id : OrderId) (os : list SnapshotOrder) : list SnapshotOrder :=
  filter (fun o => so_id o <> id) os.

Definition set_qty (id : OrderId) (q : Qty) (os : list SnapshotOrder)
    : list SnapshotOrder :=
  map (fun o => if so_id o =? id then mkSnapOrder id q else o) os.

Definition remove (s : Side) (px : Price) (id : OrderId) (b : Book) : Book :=
  set_levels s (cut px (drop_id id) (levels s b)) b.

Definition reduce (s : Side) (px : Price) (id : OrderId) (q : Qty) (b : Book)
    : Book :=
  set_levels s (cut px (set_qty id q) (levels s b)) b.

(** Where an order rests, and its open quantity. *)
Fixpoint find_queue (id : OrderId) (os : list SnapshotOrder) : option Qty :=
  match os with
  | [] => None
  | o :: os' => if so_id o =? id then Some (so_qty o) else find_queue id os'
  end.

Fixpoint find_levels (id : OrderId) (ls : Levels) : option (Price * Qty) :=
  match ls with
  | [] => None
  | (px, os) :: ls' =>
      match find_queue id os with
      | Some q => Some (px, q)
      | None => find_levels id ls'
      end
  end.

Definition find_order (id : OrderId) (b : Book) : option (Side * Price * Qty) :=
  match find_levels id (bids b) with
  | Some (px, q) => Some (Buy, px, q)
  | None =>
      match find_levels id (asks b) with
      | Some (px, q) => Some (Sell, px, q)
      | None => None
      end
  end.

Definition contains (id : OrderId) (b : Book) : bool :=
  match find_order id b with Some _ => true | None => false end.

(** ** Operations *)

Definition best (s : Side) (b : Book) : option Price := fst <$> head (levels s b).

Definition would_cross (side : Side) (px : Price) (b : Book) : bool :=
  match best (opposite side) b with
  | Some p => crosses side px p
  | None => false
  end.

(** Match, then rest the remainder. *)
Definition enter (id : OrderId) (side : Side) (px : Price) (qty : Qty) (b : Book)
    : Book * Qty * list BookEvent :=
  let '(b1, rem, evs) := match_ id side px qty b in
  if rem =? 0 then (b1, rem, evs)
  else (rest id side px rem b1, rem, evs ++ [on_added (mkAdded id side px rem)]).

Definition add (id : OrderId) (side : Side) (px : Price) (qty : Qty) (b : Book)
    : AddResult * Book * list BookEvent :=
  if px <=? 0 then (mkAddResult BadPrice 0 0, b, [])
  else if qty =? 0 then (mkAddResult BadQty 0 0, b, [])
  else if contains id b then (mkAddResult DuplicateId 0 0, b, [])
  else
    let '(b', rem, evs) := enter id side px qty b in
    (mkAddResult AddOk (qty - rem) rem, b', evs).

Definition execute_ioc (id : OrderId) (side : Side) (limit : Price) (qty : Qty)
    (b : Book) : Qty * Book * list BookEvent :=
  let '(b', rem, evs) := match_ id side limit qty b in (qty - rem, b', evs).

Definition cancel (id : OrderId) (keep : Qty) (b : Book)
    : bool * Book * list BookEvent :=
  match find_order id b with
  | None => (false, b, [])
  | Some (s, px, q) =>
      if q <=? keep then (false, b, [])
      else if keep =? 0 then
        (true, remove s px id b, [on_canceled (mkCanceled id q true)])
      else
        (true, reduce s px id keep b, [on_canceled (mkCanceled id (q - keep) false)])
  end.

Definition replace (old_id new_id : OrderId) (px : Price) (qty : Qty) (b : Book)
    : bool * Book * list BookEvent :=
  match find_order old_id b with
  | None => (false, b, [])
  | Some (s, opx, oq) =>
      if (new_id =? old_id) || contains new_id b then (false, b, [])
      else if (px <=? 0) || (qty =? 0) then (false, b, [])
      else
        let b1 := remove s opx old_id b in
        if would_cross s px b1 then
          let '(b2, _, evs) := enter new_id s px qty b1 in
          (true, b2, on_canceled (mkCanceled old_id oq true) :: evs)
        else
          (true, rest new_id s px qty b1,
           [on_replaced (mkReplaced old_id new_id s px qty)])
  end.

(** Shares an order at [limit] could execute against now. *)
Definition available (side : Side) (limit : Price) (b : Book) : Z :=
  sum_by (fun p : Price * list SnapshotOrder =>
            if crosses side limit p.1 then sum_by so_qty p.2 else 0)
         (levels (opposite side) b).

Definition step (op : BookOp) (b : Book) : OpResult * Book * list BookEvent :=
  match op with
  | OpAdd id side px qty =>
      let '(r, b', evs) := add id side px qty b in (RAdd r, b', evs)
  | OpCancel id keep =>
      let '(r, b', evs) := cancel id keep b in (RBool r, b', evs)
  | OpReplace o n px qty =>
      let '(r, b', evs) := replace o n px qty b in (RBool r, b', evs)
  end.

Definition to_snapshot (b : Book) : BookSnapshot :=
  mkSnapshot (map (fun p => mkSnapLevel p.1 p.2) (bids b))
             (map (fun p => mkSnapLevel p.1 p.2) (asks b)).

(** ** Well-formed books *)

Definition level_ids (ls : Levels) : list OrderId :=
  concat (map (fun p => map so_id p.2) ls).

Definition ids (b : Book) : list OrderId := level_ids (bids b) ++ level_ids (asks b).

Definition queue_ok (os : list SnapshotOrder) : Prop :=
  os <> [] /\ Forall (fun o => 0 < so_qty o < 2 ^ 32) os.

Definition levels_ok (s : Side) (ls : Levels) : Prop :=
  StdMap.sorted (before s) ls /\ Forall (fun p => 0 < p.1 /\ queue_ok p.2) ls.

Record wf (b : Book) : Prop := mkWf {
  wf_levels : forall s, levels_ok s (levels s b);
  wf_ids : NoDup (ids b);
  wf_uncrossed : forall pb pa,
    best Buy b = Some pb -> best Sell b = Some pa -> pb < pa }.


(** * Facts *)

Section SideFacts.
Implicit Types (s : Side) (b : Book) (ls : Levels).

Lemma levels_set_eq s ls b : levels s (set_levels s ls b) = ls.
Proof. unfold levels, set_levels. by destruct (is_buy s). Qed.

Lemma levels_set_opp s ls b :
  levels (opposite s) (set_levels s ls b) = levels (opposite s) b.
Proof. unfold levels, set_levels, opposite. by destruct (is_buy s). Qed.

Lemma levels_set_opp' s ls b :
  levels s (set_levels (opposite s) ls b) = levels s b.
Proof. unfold levels, set_levels, opposite. by destruct (is_buy s). Qed.

Lemma levels_set_match s m b : levels s (set_match m b) = levels s b.
Proof. unfold levels, set_match. by destruct (is_buy s). Qed.

Lemma next_match_set_levels s ls b : next_match (set_levels s ls b) = next_match b.
Proof. unfold set_levels. by destruct (is_buy s). Qed.

Lemma levels_is_buy s1 s2 b : is_buy s1 = is_buy s2 -> levels s1 b = levels s2 b.
Proof. unfold levels. by intros ->. Qed.

Lemma ids_levels s b :
  ids b ≡ₚ level_ids (levels s b) ++ level_ids (levels (opposite s) b).
Proof.
  unfold ids, levels, opposite. destruct (is_buy s); cbn; [done|].
  apply Permutation_app_comm.
Qed.

Lemma is_buy_opposite s : is_buy (opposite s) = negb (is_buy s).
Proof. unfold opposite. by destruct (is_buy s). Qed.
End SideFacts.

Create Rewrite HintDb spec.
#[global] Hint Rewrite levels_set_eq levels_set_opp levels_set_opp'
  levels_set_match next_match_set_levels is_buy_opposite : spec.

(** ** Membership and lookup *)

Lemma level_ids_cons px os ls :
  level_ids ((px, os) :: ls) = map so_id os ++ level_ids ls.
Proof. done. Qed.

Lemma elem_of_level_ids id ls :
  id ∈ level_ids ls <-> exists px os o, (px, os) ∈ ls /\ o ∈ os /\ so_id o = id.
Proof.
  induction ls as [|[px os] ls IH]; [split; [set_solver|intros; split_hyps; set_solver]|].
  rewrite level_ids_cons, elem_of_app, IH, list_elem_of_fmap. split.
  - intros [(o & -> & Ho)|(px' & os' & o & Hl & Ho & <-)].
    + exists px, os, o. set_solver.
    + exists px', os', o. set_solver.
  - intros (px' & os' & o & [Heq|Hl]%elem_of_cons & Ho & <-); simplify_eq.
    + left. eauto.
    + right. eauto 10.
Qed.

Lemma find_queue_elem id os q :
  find_queue id os = Some q -> mkSnapOrder id q ∈ os.
Proof.
  induction os as [|[i q'] os IH]; cbn; [done|].
  destruct (Z.eqb_spec i id) as [->|]; intros H; simplify_eq; set_solver.
Qed.

Lemma find_queue_None id os : find_queue id os = None <-> id ∉ map so_id os.
Proof.
  induction os as [|[i q'] os IH]; cbn; [set_solver|].
  destruct (Z.eqb_spec i id) as [->|]; [set_solver|].
  rewrite IH, not_elem_of_cons. naive_solver.
Qed.

Lemma find_queue_NoDup id q os :
  NoDup (map so_id os) -> mkSnapOrder id q ∈ os -> find_queue id os = Some q.
Proof.
  induction os as [|[i q'] os IH]; cbn; intros Hnd Hin; [by apply elem_of_nil in Hin|].
  apply NoDup_cons in Hnd as [Hni Hnd].
  apply elem_of_cons in Hin as [Heq|Hin]; [simplify_eq; by rewrite Z.eqb_refl|].
  destruct (Z.eqb_spec i id) as [->|]; [|by apply IH].
  exfalso. apply Hni. apply list_elem_of_fmap. by exists (mkSnapOrder id q).
Qed.

Lemma find_levels_elem id ls px q :
  find_levels id ls = Some (px, q) ->
  exists os, (px, os) ∈ ls /\ find_queue id os = Some q.
Proof.
  induction ls as [|[p os] ls IH]; cbn; [done|].
  destruct (find_queue id os) eqn:Hq; intros H; simplify_eq.
  - exists os. split; [set_solver|done].
  - destruct (IH H) as (os' & ? & ?). exists os'. split; [set_solver|done].
Qed.

Lemma find_levels_None id ls : find_levels id ls = None <-> id ∉ level_ids ls.
Proof.
  induction ls as [|[p os] ls IH]; cbn [find_levels]; [set_solver|].
  rewrite level_ids_cons, not_elem_of_app.
  destruct (find_queue id os) eqn:Hq.
  - split; [done|]. intros [H _]. apply find_queue_None in H. congruence.
  - rewrite IH. apply find_queue_None in Hq. naive_solver.
Qed.

Lemma find_levels_NoDup id ls px os q :
  NoDup (level_ids ls) -> (px, os) ∈ ls -> mkSnapOrder id q ∈ os ->
  find_levels id ls = Some (px, q).
Proof.
  induction ls as [|[p os'] ls IH]; cbn [find_levels]; intros Hnd Hl Ho;
    [by apply elem_of_nil in Hl|].
  rewrite level_ids_cons in Hnd. apply NoDup_app in Hnd as (Hnd1 & Hdis & Hnd2).
  apply elem_of_cons in Hl as [Heq|Hl].
  - simplify_eq. by rewrite (find_queue_NoDup id q).
  - rewrite (proj2 (find_queue_None id os')); [by apply IH|].
    intros Hin. apply (Hdis _ Hin). apply elem_of_level_ids.
    by exists px, os, (mkSnapOrder id q).
Qed.

(** [find_order] finds exactly the resting orders. *)
Lemma find_order_spec b id s px q :
  NoDup (ids b) -> valid_side s ->
  find_order id b = Some (s, px, q) <->
  exists os, (px, os) ∈ levels s b /\ mkSnapOrder id q ∈ os.
Proof.
  unfold ids, find_order. intros Hnd Hs.
  apply NoDup_app in Hnd as (Hnd1 & Hdis & Hnd2). split.
  - destruct (find_levels id (bids b)) as [[px1 q1]|] eqn:H1.
    { intros ?; simplify_eq. apply find_levels_elem in H1 as (os & ? & ?).
      exists os. split; [done|]. by apply find_queue_elem. }
    destruct (find_levels id (asks b)) as [[px1 q1]|] eqn:H2; [|done].
    intros ?; simplify_eq. apply find_levels_elem in H2 as (os & ? & ?).
    exists os. split; [done|]. by apply find_queue_elem.
  - intros (os & Hl & Ho). destruct Hs as [-> | ->]; cbn in Hl.
    + by rewrite (find_levels_NoDup id _ px os q).
    + rewrite (proj2 (find_levels_None id (bids b))).
      * by rewrite (find_levels_NoDup id _ px os q).
      * intros Hin. apply (Hdis _ Hin), elem_of_level_ids.
        by exists px, os, (mkSnapOrder id q).
Qed.

Lemma find_order_None b id : find_order id b = None <-> id ∉ ids b.
Proof.
  unfold find_order, ids. rewrite not_elem_of_app, <- !find_levels_None.
  destruct (find_levels id (bids b)) as [[]|]; [naive_solver|].
  destruct (find_levels id (asks b)) as [[]|]; naive_solver.
Qed.

Lemma find_order_side b id s px q : find_order id b = Some (s, px, q) -> valid_side s.
Proof.
  unfold find_order, valid_side.
  repeat case_match; intros; simplify_eq; auto.
Qed.

Lemma contains_spec b id : contains id b = true <-> id ∈ ids b.
Proof.
  unfold contains. destruct (find_order id b) eqn:H; split; intros Hi; try done.
  - destruct (decide (id ∈ ids b)) as [|Hn]; [done|].
    apply find_order_None in Hn. congruence.
  - by apply find_order_None in H.
Qed.


(** ** Matching *)

Definition pos_qty (o : SnapshotOrder) : Prop := 0 < so_qty o < 2 ^ 32.

Lemma fill_queue_facts agg side px qty mid os os1 q1 m1 evs :
  0 <= qty -> Forall pos_qty os ->
  fill_queue agg side px qty mid os = (os1, q1, m1, evs) ->
  0 <= q1 <= qty /\ Forall pos_qty os1 /\
  map so_id os1 `suffix_of` map so_id os /\ (os1 <> [] -> q1 = 0).
Proof.
  revert qty mid os1 q1 m1 evs.
  induction os as [|o os IH]; cbn; intros qty mid os1 q1 m1 evs Hq Hos H.
  - simplify_eq. split_and!; try done; try lia.
  - inversion_clear Hos as [|? ? Ho Hos']. unfold pos_qty in Ho.
    destruct (Z.eqb_spec qty 0) as [->|].
    { simplify_eq. split_and!; try done; try lia; by constructor. }
    destruct (Z.eqb_spec (so_qty o) (Z.min qty (so_qty o))).
    + destruct (fill_queue _ _ _ _ _ os) as [[[os2 q2] m2] ev2] eqn:Hf. simplify_eq.
      apply IH in Hf as (? & ? & ? & ?); [|lia|done].
      split_and!; try done; try lia. by apply suffix_cons_r.
    + simplify_eq. split_and!; [lia|lia| |done|lia].
      constructor; [unfold pos_qty; cbn; lia|done].
Qed.

(** Matching consumes exactly the shares it reports. *)
Lemma fill_queue_sum agg side px qty mid os os1 q1 m1 evs :
  fill_queue agg side px qty mid os = (os1, q1, m1, evs) ->
  sum_by so_qty os1 = sum_by so_qty os - (qty - q1).
Proof.
  revert qty mid os1 q1 m1 evs.
  induction os as [|o os IH]; cbn; intros qty mid os1 q1 m1 evs H.
  - simplify_eq. cbn. lia.
  - destruct (Z.eqb_spec qty 0) as [->|]; [simplify_eq; cbn; lia|].
    destruct (Z.eqb_spec (so_qty o) (Z.min qty (so_qty o))).
    + destruct (fill_queue _ _ _ _ _ os) as [[[os2 q2] m2] ev2] eqn:Hf. simplify_eq.
      apply IH in Hf. lia.
    + simplify_eq. cbn. lia.
Qed.

Definition keys (ls : Levels) : list Price := map fst ls.

Lemma elem_of_keys p ls : p ∈ keys ls <-> exists os, (p, os) ∈ ls.
Proof.
  unfold keys. rewrite list_elem_of_fmap. split.
  - intros ([p' os] & -> & H). eauto.
  - intros (os & H). by exists (p, os).
Qed.

Lemma levels_ok_cons s p os ls :
  levels_ok s ((p, os) :: ls) <->
  Forall (fun x => before s p x.1 = true) ls /\ 0 < p /\ queue_ok os /\ levels_ok s ls.
Proof.
  unfold levels_ok. rewrite StdMap.sm_sorted_cons, Forall_cons by apply _.
  naive_solver.
Qed.

Lemma levels_ok_nil s : levels_ok s [].
Proof. split; [apply StdMap.sm_sorted_nil|done]. Qed.

Lemma fill_levels_facts agg side limit qty mid ls ls1 q1 m1 evs :
  0 <= qty -> levels_ok (opposite side) ls ->
  fill_levels agg side limit qty mid ls = (ls1, q1, m1, evs) ->
  0 <= q1 <= qty /\ levels_ok (opposite side) ls1 /\
  level_ids ls1 `suffix_of` level_ids ls /\
  keys ls1 `suffix_of` keys ls /\
  (0 < q1 -> forall p, p ∈ keys ls1 -> crosses side limit p = false).
Proof.
  revert qty mid ls1 q1 m1 evs.
  induction ls as [|[px os] ls IH]; cbn [fill_levels];
    intros qty mid ls1 q1 m1 evs Hq Hok H.
  - simplify_eq. split_and!; try done; try lia. intros _ p Hp. by apply elem_of_nil in Hp.
  - pose proof Hok as Hok0. apply levels_ok_cons in Hok as (Hall & Hpx & Hqok & Hok).
    destruct (Z.eqb_spec qty 0) as [->|Hne]; cbn [orb] in H.
    { simplify_eq. split_and!; try done; try lia. }
    destruct (crosses side limit px) eqn:Hc; cbn [negb] in H.
    2:{ simplify_eq. split_and!; try done; try lia. intros _ p Hp.
        apply elem_of_keys in Hp as (os' & [Heq|Hin]%elem_of_cons); [by simplify_eq|].
        rewrite Forall_forall in Hall. specialize (Hall _ Hin). cbn in Hall.
        destruct (crosses side limit p) eqn:Hc'; [|done].
        rewrite <- Hc. symmetry. by eapply crosses_before. }
    destruct (fill_queue _ _ _ _ _ os) as [[[os2 q2] m2] ev2] eqn:Hf.
    apply fill_queue_facts in Hf as (? & ? & ? & Hz); [|done|apply Hqok].
    destruct os2 as [|o2 os2].
    + destruct (fill_levels _ _ _ _ _ ls) as [[[ls3 q3] m3] ev3] eqn:Hg. simplify_eq.
      apply IH in Hg as (? & ? & ? & ? & ?); [|lia|done].
      split_and!; try done; try lia.
      * rewrite level_ids_cons. by apply suffix_app_r.
      * by apply suffix_cons_r.
    + simplify_eq. split_and!; try done; try lia.
      * apply levels_ok_cons. split_and!; auto. split; [done|]. done.
      * rewrite !level_ids_cons. by apply suffix_app.
      * intros Hq1. rewrite Hz in Hq1 by done. lia.
Qed.

Definition no_cross (b : Book) : Prop :=
  forall s p q, p ∈ keys (levels s b) -> q ∈ keys (levels (opposite s) b) ->
  crosses s p q = false.

Lemma crosses_opposite s p q : crosses (opposite s) q p = crosses s p q.
Proof. unfold crosses, opposite. by destruct (is_buy s). Qed.

(** Half the cases are enough. *)
Lemma no_cross_intro s b :
  (forall p q, p ∈ keys (levels s b) -> q ∈ keys (levels (opposite s) b) ->
     crosses s p q = false) -> no_cross b.
Proof.
  intros H s' p q Hp Hq.
  destruct (is_buy s) eqn:Hs, (is_buy s') eqn:Hs';
    unfold levels, opposite, crosses in *; rewrite Hs, Hs' in *; cbn in *; eauto.
Qed.

Lemma best_elem s b p : best s b = Some p -> p ∈ keys (levels s b).
Proof.
  unfold best, keys. destruct (levels s b) as [|[q os] ls]; cbn; intros; simplify_eq.
  set_solver.
Qed.

Lemma best_None s b : best s b = None -> levels s b = [].
Proof. unfold best. by destruct (levels s b). Qed.

Lemma best_le s b p q :
  levels_ok s (levels s b) -> best s b = Some p -> q ∈ keys (levels s b) ->
  p = q \/ before s p q = true.
Proof.
  unfold best. destruct (levels s b) as [|[p' os] ls]; cbn; intros Hok ? Hq; simplify_eq.
  apply levels_ok_cons in Hok as (Hall & _).
  apply elem_of_cons in Hq as [->|Hq]; [by left|right].
  apply elem_of_keys in Hq as (os' & Hin). rewrite Forall_forall in Hall.
  by apply (Hall (q, os')).
Qed.

Lemma wf_no_cross b : wf b -> no_cross b.
Proof.
  intros [Hok _ Hun]. apply (no_cross_intro Buy). intros p q Hp Hq.
  change (opposite Buy) with Sell in Hq.
  destruct (best Buy b) as [pb|] eqn:Hb.
  2:{ apply best_None in Hb. rewrite Hb in Hp. by apply elem_of_nil in Hp. }
  destruct (best Sell b) as [pa|] eqn:Ha.
  2:{ apply best_None in Ha. rewrite Ha in Hq. by apply elem_of_nil in Hq. }
  specialize (Hun _ _ eq_refl eq_refl).
  destruct (best_le _ _ _ _ (Hok Buy) Hb Hp) as [?|Hpb],
    (best_le _ _ _ _ (Hok Sell) Ha Hq) as [?|Hpa];
    unfold before, crosses in *; cbn in *; lia.
Qed.

Lemma wf_intro b :
  (forall s, levels_ok s (levels s b)) -> NoDup (ids b) -> no_cross b -> wf b.
Proof.
  intros Hok Hnd Hnc. split; [done..|]. intros pb pa Hb%best_elem Ha%best_elem.
  specialize (Hnc Buy pb pa Hb Ha). unfold crosses in Hnc. cbn in Hnc. lia.
Qed.

(** The two sides of a book cover all sides. *)
Lemma forall_sides (P : Side -> Levels -> Prop) s b :
  (forall s1 s2 ls, is_buy s1 = is_buy s2 -> P s1 ls -> P s2 ls) ->
  P s (levels s b) -> P (opposite s) (levels (opposite s) b) ->
  forall s', P s' (levels s' b).
Proof.
  intros Heq H1 H2 s'. destruct (decide (is_buy s' = is_buy s)) as [He|Hne].
  - rewrite (levels_is_buy s' s) by done. by eapply Heq.
  - assert (is_buy s' = is_buy (opposite s)) as He
      by (rewrite is_buy_opposite; by destruct (is_buy s), (is_buy s')).
    rewrite (levels_is_buy s' (opposite s)) by done. by eapply Heq.
Qed.

Lemma levels_ok_is_buy s1 s2 ls :
  is_buy s1 = is_buy s2 -> levels_ok s1 ls -> levels_ok s2 ls.
Proof. unfold levels_ok, StdMap.sorted, StdMap.key_lt, before. by intros ->. Qed.

(** Replacing one side by a part of itself keeps a book well formed. *)
Lemma wf_shrink s ls b :
  wf b -> levels_ok s ls -> level_ids ls `sublist_of` level_ids (levels s b) ->
  (forall p, p ∈ keys ls -> p ∈ keys (levels s b)) ->
  wf (set_levels s ls b).
Proof.
  intros Hwf Hls Hids Hkeys. apply wf_intro.
  - apply (forall_sides _ s); [intros; by eapply levels_ok_is_buy|..];
      autorewrite with spec; [done|]. apply Hwf.
  - rewrite (ids_levels s). autorewrite with spec.
    pose proof (wf_ids _ Hwf) as Hnd. rewrite (ids_levels s) in Hnd.
    eapply sublist_NoDup; [exact Hnd|]. by apply sublist_app.
  - apply (no_cross_intro s). autorewrite with spec. intros p q Hp Hq.
    by apply (wf_no_cross b); auto.
Qed.

Lemma wf_set_match m b : wf b -> wf (set_match m b).
Proof. intros [H1 H2 H3]. by split. Qed.

Lemma match_wf agg side limit qty b b1 rem evs :
  wf b -> 0 <= qty -> match_ agg side limit qty b = (b1, rem, evs) ->
  wf b1 /\ 0 <= rem <= qty /\
  levels side b1 = levels side b /\
  (forall id, id ∈ ids b1 -> id ∈ ids b) /\
  (forall p, p ∈ keys (levels (opposite side) b1) ->
             p ∈ keys (levels (opposite side) b)) /\
  (0 < rem -> forall p, p ∈ keys (levels (opposite side) b1) ->
     crosses side limit p = false).
Proof.
  unfold match_. intros Hwf Hq H.
  destruct (fill_levels _ _ _ _ _ _) as [[[ls q1] m1] ev] eqn:Hf. simplify_eq.
  apply fill_levels_facts in Hf as (Hr & Hok & Hids & Hkeys & Hc); [|done|apply Hwf].
  assert (forall p, p ∈ keys ls -> p ∈ keys (levels (opposite side) b)) as Hk.
  { intros p. destruct Hkeys as [k ->]. set_solver. }
  assert (level_ids ls `sublist_of` level_ids (levels (opposite side) b)) as Hs.
  { destruct Hids as [k ->]. by apply sublist_inserts_l. }
  autorewrite with spec. split_and!; try done; try lia.
  - apply wf_set_match, wf_shrink; done.
  - intros id Hin. change (ids (set_match _ ?x)) with (ids x) in Hin.
    rewrite (ids_levels (opposite side)) in Hin. autorewrite with spec in Hin.
    rewrite (ids_levels (opposite side)).
    rewrite elem_of_app in *. destruct Hin as [Hin|Hin]; [left|by right].
    eapply elem_of_sublist; eauto.
Qed.


(** ** Resting an order *)

Abbreviation push_order id qty :=
  (fun os : list SnapshotOrder => os ++ [mkSnapOrder id qty]).

Lemma level_ids_upsert s id qty px ls :
  level_ids (StdMap.upsert (before s) [] px (push_order id qty) ls)
  ≡ₚ id :: level_ids ls.
Proof.
  induction ls as [|[p os] ls IH]; cbn [StdMap.upsert]; [done|].
  destruct (px =? p); [|destruct (before s px p)]; rewrite !level_ids_cons.
  - rewrite map_app. cbn. rewrite <- app_assoc. cbn. by rewrite <- Permutation_middle.
  - done.
  - rewrite IH. by rewrite Permutation_middle.
Qed.

Lemma keys_upsert s d f px ls p :
  p ∈ keys (StdMap.upsert (before s) d px f ls) -> p = px \/ p ∈ keys ls.
Proof.
  unfold keys. induction ls as [|[p' os] ls IH]; cbn [StdMap.upsert map fst]; [set_solver|].
  destruct (Z.eqb_spec px p') as [->|]; [set_solver|].
  destruct (before s px p'); cbn [map fst]; [set_solver|].
  rewrite elem_of_cons. intros [->|Hin]; [set_solver|].
  destruct (IH Hin); set_solver.
Qed.

Lemma levels_ok_upsert s id qty px ls :
  levels_ok s ls -> 0 < px -> 0 < qty < 2 ^ 32 ->
  levels_ok s (StdMap.upsert (before s) [] px (push_order id qty) ls).
Proof.
  intros [Hs Hall] Hpx Hq. split; [by apply StdMap.sm_sorted_upsert; [apply _|]|].
  apply StdMap.sm_upsert_Forall; [done|..].
  - cbn. split; [done|]. split; [done|]. by apply Forall_singleton.
  - cbn. intros os (? & ? & ?). split; [done|]. split; [by destruct os|].
    apply Forall_app. split; [done|]. by apply Forall_singleton.
Qed.

Lemma ids_rest id side px qty b : ids (rest id side px qty b) ≡ₚ id :: ids b.
Proof.
  unfold rest. rewrite (ids_levels side). autorewrite with spec.
  rewrite level_ids_upsert. cbn. by rewrite <- ids_levels.
Qed.

Lemma rest_wf id side px qty b :
  wf b -> id ∉ ids b -> 0 < px -> 0 < qty < 2 ^ 32 ->
  (forall p, p ∈ keys (levels (opposite side) b) -> crosses side px p = false) ->
  wf (rest id side px qty b).
Proof.
  intros Hwf Hid Hpx Hq Hc. apply wf_intro.
  - unfold rest. apply (forall_sides _ side); [intros; by eapply levels_ok_is_buy|..];
      autorewrite with spec; [|apply Hwf].
    apply levels_ok_upsert; [apply Hwf|done..].
  - rewrite ids_rest. constructor; [done|]. apply Hwf.
  - unfold rest. apply (no_cross_intro side). autorewrite with spec.
    intros p q [->|Hp]%keys_upsert Hq'; [by apply Hc|]. by apply (wf_no_cross b).
Qed.

(** ** Removing and reducing *)

Lemma cut_sorted s px f ls :
  StdMap.sorted (before s) ls -> StdMap.sorted (before s) (cut px f ls).
Proof.
  induction ls as [|[p os] ls IH]; cbn [cut]; intros Hs; [done|].
  apply StdMap.sm_sorted_cons in Hs as [Hall Hs].
  destruct (px =? p).
  - destruct (f os); [done|]. by apply StdMap.sm_sorted_cons.
  - apply StdMap.sm_sorted_cons. split; [|by apply IH]. clear -Hall.
    induction Hall as [|[p' os'] ls Hp Hall IH]; cbn [cut]; [done|].
    destruct (px =? p'); [destruct (f os')|]; by repeat constructor.
Qed.

Lemma cut_find s px f ls p :
  StdMap.sorted (before s) ls ->
  StdMap.find p (cut px f ls) =
    if px =? p then
      match StdMap.find p ls with
      | Some os => match f os with [] => None | os' => Some os' end
      | None => None
      end
    else StdMap.find p ls.
Proof.
  induction ls as [|[p' os] ls IH]; cbn [cut StdMap.find]; intros Hs; [by case_match|].
  apply StdMap.sm_sorted_cons in Hs as [Hall Hs].
  destruct (Z.eqb_spec px p') as [->|Hne].
  - rewrite (Z.eqb_sym p p'). destruct (Z.eqb_spec p' p) as [Heq|].
    + rewrite <- Heq. destruct (f os); cbn; [|by rewrite Z.eqb_refl].
      by apply (StdMap.sm_find_above (before s)).
    + destruct (f os); cbn; [done|]. destruct (Z.eqb_spec p p'); [lia|done].
  - cbn. rewrite IH by done. destruct (Z.eqb_spec p p') as [Heq|]; [|done].
    destruct (Z.eqb_spec px p); [lia|done].
Qed.

Lemma cut_Forall (P : list SnapshotOrder -> Prop) px f ls :
  Forall (fun x => 0 < x.1 /\ P x.2) ls ->
  (forall os, P os -> f os <> [] -> P (f os)) ->
  Forall (fun x => 0 < x.1 /\ P x.2) (cut px f ls).
Proof.
  intros Hall Hf. induction Hall as [|[p os] ls [Hp Hos] Hall IH]; cbn [cut]; [done|].
  destruct (px =? p); [|by constructor].
  destruct (f os) eqn:Hfo; [done|]. constructor; [|done].
  cbn in *. split; [done|]. rewrite <- Hfo. apply Hf; [done|]. by rewrite Hfo.
Qed.

Lemma cut_ids px f ls :
  (forall os, map so_id (f os) `sublist_of` map so_id os) ->
  level_ids (cut px f ls) `sublist_of` level_ids ls.
Proof.
  intros Hf. induction ls as [|[p os] ls IH]; cbn [cut]; [done|].
  destruct (px =? p); [destruct (f os) eqn:Hfo|]; rewrite !level_ids_cons.
  - by apply sublist_inserts_l.
  - apply sublist_app; [|done]. rewrite <- Hfo. apply Hf.
  - by apply sublist_app.
Qed.

Lemma cut_ids_eq px f ls :
  (forall os, map so_id (f os) = map so_id os) -> level_ids (cut px f ls) = level_ids ls.
Proof.
  intros Hf. induction ls as [|[p os] ls IH]; cbn [cut]; [done|].
  specialize (Hf os). destruct (px =? p); [destruct (f os) eqn:Hfo|];
    rewrite ?level_ids_cons, <- ?Hf; [done|done|by rewrite IH].
Qed.

Lemma cut_keys px f ls p : p ∈ keys (cut px f ls) -> p ∈ keys ls.
Proof.
  unfold keys. induction ls as [|[p' os] ls IH]; cbn [cut]; [done|].
  destruct (px =? p'); [destruct (f os)|]; cbn [map fst]; set_solver.
Qed.

Lemma drop_id_sublist id os : drop_id id os `sublist_of` os.
Proof. apply sublist_filter. Qed.

Lemma set_qty_ids id q os : map so_id (set_qty id q os) = map so_id os.
Proof.
  unfold set_qty. rewrite map_map. apply map_ext. intros o.
  destruct (Z.eqb_spec (so_id o) id); [done|done].
Qed.

Lemma drop_id_cons id o os :
  drop_id id (o :: os) = if so_id o =? id then drop_id id os else o :: drop_id id os.
Proof.
  unfold drop_id. destruct (Z.eqb_spec (so_id o) id).
  - by rewrite filter_cons_False by auto.
  - by rewrite filter_cons_True.
Qed.

Lemma drop_id_notin id os : id ∉ map so_id os -> drop_id id os = os.
Proof.
  induction os as [|o os IH]; cbn [map]; [done|].
  rewrite not_elem_of_cons, drop_id_cons. intros [Hne Hni].
  destruct (Z.eqb_spec (so_id o) id); [congruence|]. by rewrite IH.
Qed.

Lemma set_qty_notin id q os : id ∉ map so_id os -> set_qty id q os = os.
Proof.
  induction os as [|o os IH]; cbn [map set_qty]; [done|].
  rewrite not_elem_of_cons. intros [Hne Hni].
  destruct (Z.eqb_spec (so_id o) id); [congruence|]. f_equal. by apply IH.
Qed.

Lemma drop_id_sum id q os :
  NoDup (map so_id os) -> mkSnapOrder id q ∈ os ->
  sum_by so_qty (drop_id id os) = sum_by so_qty os - q.
Proof.
  induction os as [|o os IH]; cbn [map sum_by]; intros Hnd Hin; [by apply elem_of_nil in Hin|].
  apply NoDup_cons in Hnd as [Hni Hnd]. rewrite drop_id_cons.
  apply elem_of_cons in Hin as [<-|Hin]; cbn [so_id so_qty].
  - rewrite Z.eqb_refl, drop_id_notin by done. lia.
  - destruct (Z.eqb_spec (so_id o) id) as [Heq|].
    + exfalso. apply Hni. rewrite Heq. apply list_elem_of_fmap.
      by exists (mkSnapOrder id q).
    + cbn. rewrite IH by done. lia.
Qed.

Lemma set_qty_sum id q k os :
  NoDup (map so_id os) -> mkSnapOrder id q ∈ os ->
  sum_by so_qty (set_qty id k os) = sum_by so_qty os - (q - k).
Proof.
  induction os as [|o os IH]; cbn [map sum_by]; intros Hnd Hin; [by apply elem_of_nil in Hin|].
  apply NoDup_cons in Hnd as [Hni Hnd].
  change (set_qty id k (o :: os)) with
    ((if so_id o =? id then mkSnapOrder id k else o) :: set_qty id k os).
  cbn [sum_by]. apply elem_of_cons in Hin as [<-|Hin]; cbn [so_id so_qty].
  - rewrite Z.eqb_refl, set_qty_notin by done. cbn. lia.
  - destruct (Z.eqb_spec (so_id o) id) as [Heq|].
    + exfalso. apply Hni. rewrite Heq. apply list_elem_of_fmap.
      by exists (mkSnapOrder id q).
    + rewrite IH by done. lia.
Qed.

(** A queue of a well-formed book has distinct ids. *)
Lemma level_NoDup px os ls :
  NoDup (level_ids ls) -> (px, os) ∈ ls -> NoDup (map so_id os).
Proof.
  induction ls as [|[p o] ls IH]; intros Hnd Hin; [by apply elem_of_nil in Hin|].
  rewrite level_ids_cons in Hnd. apply NoDup_app in Hnd as (? & ? & ?).
  apply elem_of_cons in Hin as [Heq|Hin]; [by simplify_eq|auto].
Qed.

(** An id rests at one price only. *)
Lemma level_id_unique id px px' os os' ls :
  NoDup (level_ids ls) -> (px, os) ∈ ls -> (px', os') ∈ ls ->
  id ∈ map so_id os -> id ∈ map so_id os' -> px = px' /\ os = os'.
Proof.
  induction ls as [|[p o] ls IH]; intros Hnd H1 H2 Hi Hi'; [by apply elem_of_nil in H1|].
  rewrite level_ids_cons in Hnd. apply NoDup_app in Hnd as (_ & Hd & ?).
  assert (forall px os, (px, os) ∈ ls -> id ∈ map so_id os -> id ∈ level_ids ls) as Hl.
  { intros p' o' Hin (x & -> & Hx)%list_elem_of_fmap.
    apply elem_of_level_ids. by exists p', o', x. }
  apply elem_of_cons in H1 as [H1|H1]; apply elem_of_cons in H2 as [H2|H2]; simplify_eq.
  - done.
  - exfalso. by eapply Hd; [exact Hi|eapply Hl].
  - exfalso. by eapply Hd; [exact Hi'|eapply Hl].
  - eauto.
Qed.

Lemma wf_side_NoDup s b : wf b -> NoDup (level_ids (levels s b)).
Proof.
  intros Hwf. pose proof (wf_ids _ Hwf) as Hnd. rewrite (ids_levels s) in Hnd.
  by apply NoDup_app in Hnd as (? & _).
Qed.

Lemma wf_find s px os b :
  wf b -> (px, os) ∈ levels s b <-> StdMap.find px (levels s b) = Some os.
Proof.
  intros Hwf. split; [|apply (StdMap.sm_find_elem (before s))].
  apply (StdMap.sm_elem_find (before s)), Hwf.
Qed.

Lemma remove_wf s px id b : wf b -> wf (remove s px id b).
Proof.
  intros Hwf. pose proof (wf_levels _ Hwf s) as [Hs Hall]. apply wf_shrink; [done|..].
  - split; [by apply cut_sorted|]. apply cut_Forall; [done|].
    intros os [_ Hos] Hne. split; [done|]. by eapply Forall_sublist; [apply drop_id_sublist|].
  - apply cut_ids. intros os. apply map_sublist, drop_id_sublist.
  - intros p. apply cut_keys.
Qed.

Lemma reduce_wf s px id q b : wf b -> 0 < q < 2 ^ 32 -> wf (reduce s px id q b).
Proof.
  intros Hwf Hq. pose proof (wf_levels _ Hwf s) as [Hs Hall]. apply wf_shrink; [done|..].
  - split; [by apply cut_sorted|]. apply cut_Forall; [done|].
    intros os [_ Hos] Hne. split; [done|]. unfold set_qty.
    apply Forall_map. eapply Forall_impl; [exact Hos|]. intros o Ho.
    by destruct (so_id o =? id).
  - apply cut_ids. intros os. by rewrite set_qty_ids.
  - intros p. apply cut_keys.
Qed.

Lemma remove_ids s px id b i : i ∈ ids (remove s px id b) -> i ∈ ids b.
Proof.
  unfold remove. rewrite (ids_levels s), (ids_levels s b). autorewrite with spec.
  rewrite !elem_of_app. intros [Hin|Hin]; [left|by right].
  eapply elem_of_sublist; [exact Hin|]. apply cut_ids. intros os.
  apply map_sublist, drop_id_sublist.
Qed.

Lemma remove_ids_other s px id b i :
  i <> id -> i ∈ ids b -> i ∈ ids (remove s px id b).
Proof.
  unfold remove. intros Hne. rewrite (ids_levels s), (ids_levels s (set_levels _ _ _)).
  autorewrite with spec. rewrite !elem_of_app. intros [Hin|Hin]; [left|by right].
  revert Hin. generalize (levels s b). intros ls.
  induction ls as [|[p os] ls IH]; cbn [cut]; [done|].
  rewrite level_ids_cons, elem_of_app.
  assert (i ∈ map so_id os -> i ∈ map so_id (drop_id id os)) as Hd.
  { rewrite !list_elem_of_fmap. intros (o & -> & Ho). exists o. split; [done|].
    unfold drop_id. by apply list_elem_of_filter. }
  destruct (px =? p); [destruct (drop_id id os)|]; rewrite ?level_ids_cons, ?elem_of_app;
    intros [Hin|Hin]; auto.
  by apply Hd, elem_of_nil in Hin.
Qed.

(** ** The operations keep a book well formed *)

Lemma enter_wf id side px qty b b' rem evs :
  wf b -> id ∉ ids b -> 0 < px -> fits 32 qty ->
  enter id side px qty b = (b', rem, evs) -> wf b' /\ 0 <= rem <= qty.
Proof.
  unfold enter, fits. intros Hwf Hid Hpx Hq H.
  destruct (match_ _ _ _ _ _) as [[b1 r] ev] eqn:Hm.
  apply match_wf in Hm as (Hwf1 & Hr & Hl & Hids & Hk & Hc); [|done|lia].
  destruct (Z.eqb_spec r 0); simplify_eq; split; try done; try lia.
  apply rest_wf; auto with lia.
Qed.

Lemma would_cross_false side px b p :
  wf b -> would_cross side px b = false ->
  p ∈ keys (levels (opposite side) b) -> crosses side px p = false.
Proof.
  unfold would_cross. intros Hwf Hw Hp.
  destruct (best (opposite side) b) as [q|] eqn:Hb.
  - destruct (best_le _ _ _ _ (wf_levels _ Hwf _) Hb Hp) as [<-|Hlt]; [done|].
    destruct (crosses side px p) eqn:Hc; [|done].
    rewrite <- Hw. symmetry. by eapply crosses_before.
  - apply best_None in Hb. rewrite Hb in Hp. by apply elem_of_nil in Hp.
Qed.

Lemma find_order_qty b id s px q :
  wf b -> find_order id b = Some (s, px, q) -> 0 < px /\ 0 < q < 2 ^ 32.
Proof.
  intros Hwf Hf. pose proof (find_order_side _ _ _ _ _ Hf) as Hs.
  apply find_order_spec in Hf as (os & Hl & Ho); [|apply Hwf|done].
  destruct (wf_levels _ Hwf s) as [_ Hall]. rewrite Forall_forall in Hall.
  destruct (Hall _ Hl) as (? & _ & Hos). rewrite Forall_forall in Hos.
  by specialize (Hos _ Ho).
Qed.

Lemma add_wf id side px qty b r b' evs :
  wf b -> fits 32 qty -> add id side px qty b = (r, b', evs) -> wf b'.
Proof.
  unfold add. intros Hwf Hq H. repeat (case_match; simplify_eq; try done).
  eapply enter_wf; eauto; [|lia].
  rewrite <- contains_spec. congruence.
Qed.

Lemma cancel_wf id keep b r b' evs :
  wf b -> fits 32 keep -> cancel id keep b = (r, b', evs) -> wf b'.
Proof.
  unfold cancel, fits. intros Hwf Hk H.
  destruct (find_order id b) as [[[s px] q]|] eqn:Hf; simplify_eq; [|done].
  destruct (Z.leb_spec q keep); simplify_eq; [done|].
  destruct (Z.eqb_spec keep 0); simplify_eq.
  - by apply remove_wf.
  - apply reduce_wf; [done|lia].
Qed.

Lemma replace_wf old new px qty b r b' evs :
  wf b -> fits 32 qty -> replace old new px qty b = (r, b', evs) -> wf b'.
Proof.
  unfold replace. intros Hwf Hq H.
  destruct (find_order old b) as [[[s opx] oq]|] eqn:Hf; simplify_eq; [|done].
  destruct ((new =? old) || contains new b) eqn:Hn; simplify_eq; [done|].
  destruct ((px <=? 0) || (qty =? 0)) eqn:Hv; simplify_eq; [done|].
  assert (new ∉ ids (remove s opx old b)) as Hni.
  { intros Hin%remove_ids%contains_spec. by rewrite Hin, orb_true_r in Hn. }
  pose proof (remove_wf s opx old b Hwf) as Hwf1.
  destruct (would_cross s px _) eqn:Hw.
  - destruct (enter _ _ _ _ _) as [[b2 rem] ev] eqn:He. simplify_eq.
    eapply enter_wf in He as [? _]; [done|done|done|lia|done].
  - simplify_eq. apply rest_wf; [done|done|lia|unfold fits in Hq; lia|].
    intros p. by apply would_cross_false.
Qed.

Lemma empty_wf : wf empty.
Proof.
  split; [|constructor|done].
  intros s. unfold levels. destruct (is_buy s); apply levels_ok_nil.
Qed.

End Spec.
