(* ===== verification/BookLaws.v ===== *)
(** The market rules of the abstract book: price-time priority of matching,
    conservation of shares, what a cancel and a replace do to the queue, and
    the relation between the available quantity and a fill. *)

From S2P Require Import Prelude StdMap BookTypes BookSpec.

Import Spec.

(** * Priority *)

(** The orders a [side] order at [limit] may trade with, in the order in which
    it trades with them: best price first, then first come first served. *)
Definition priority (side : Side) (limit : Price) (ls : Levels)
    : list (Price * SnapshotOrder) :=
  concat (map (fun l => if crosses side limit l.1 then map (fun o => (l.1, o)) l.2 else []) ls).

(** Strict priority: an order trades only what those before it left. *)
Fixpoint allocate (agg : OrderId) (side : Side) (qty : Qty) (mid : Z)
    (q : list (Price * SnapshotOrder)) : list BookEvent :=
  match q with
  | [] => []
  | (px, o) :: q' =>
      if qty =? 0 then []
      else
        let exec := Z.min qty (so_qty o) in
        on_executed (mkExecuted (so_id o) agg side px exec mid)
          :: allocate agg side (qty - exec) (u64 (mid + 1)) q'
  end.

Definition queue_shares (q : list (Price * SnapshotOrder)) : Z :=
  sum_by (fun p => so_qty p.2) q.

Lemma allocate_zero agg side mid q : allocate agg side 0 mid q = [].
Proof. by destruct q as [|[p o] q]. Qed.

Lemma fill_queue_allocate agg side px qty mid os os1 q1 m1 evs q' :
  0 <= qty -> Forall pos_qty os ->
  fill_queue agg side px qty mid os = (os1, q1, m1, evs) ->
  allocate agg side qty mid (map (fun o => (px, o)) os ++ q')
  = evs ++ allocate agg side q1 m1 q'.
Proof.
  revert qty mid os1 q1 m1 evs.
  induction os as [|o os IH]; intros qty mid os1 q1 m1 evs Hq Hp Hf; cbn [fill_queue] in Hf.
  - by simplify_eq.
  - apply Forall_cons in Hp as [Ho Hp]. unfold pos_qty in Ho.
    cbn [map app allocate]. destruct (Z.eqb_spec qty 0) as [->|Hq0].
    { simplify_eq. cbn. by rewrite allocate_zero. }
    destruct (Z.eqb_spec (so_qty o) (Z.min qty (so_qty o))) as [He|He].
    + destruct (fill_queue _ _ _ _ _ os) as [[[os2 q2] m2] ev] eqn:Hf2. simplify_eq.
      apply IH in Hf2; [|lia|done]. cbn. by rewrite Hf2.
    + simplify_eq. replace (qty - Z.min qty (so_qty o)) with 0 by lia.
      by rewrite !allocate_zero.
Qed.

Lemma priority_cons side limit px os ls :
  priority side limit ((px, os) :: ls)
  = (if crosses side limit px then map (fun o => (px, o)) os else []) ++ priority side limit ls.
Proof. done. Qed.

Lemma priority_none side limit ls :
  levels_ok (opposite side) ls -> (forall p, p ∈ keys ls -> crosses side limit p = false) ->
  priority side limit ls = [].
Proof.
  induction ls as [|[px os] ls IH]; intros Hok Hno; [done|].
  apply levels_ok_cons in Hok as (_ & _ & _ & Hok).
  rewrite priority_cons, Hno by (cbn; set_solver). cbn. apply IH; [done|].
  intros p Hp. apply Hno. cbn. set_solver.
Qed.

Lemma levels_stop side limit px os ls :
  levels_ok (opposite side) ((px, os) :: ls) -> crosses side limit px = false ->
  forall p, p ∈ keys ((px, os) :: ls) -> crosses side limit p = false.
Proof.
  intros Hok Hx p. apply levels_ok_cons in Hok as (Hall & _). cbn. rewrite elem_of_cons.
  intros [->|Hp]; [done|]. apply elem_of_keys in Hp as [os' Hp].
  rewrite Forall_forall in Hall. specialize (Hall _ Hp). cbn in Hall.
  destruct (crosses side limit p) eqn:Hc; [|done].
  by rewrite (crosses_before _ _ _ _ Hc Hall) in Hx.
Qed.

(** The queue after [qty] shares of it have traded. *)
Fixpoint drop_shares (qty : Qty) (q : list (Price * SnapshotOrder))
    : list (Price * SnapshotOrder) :=
  match q with
  | [] => []
  | (px, o) :: q' =>
      if so_qty o <=? qty then drop_shares (qty - so_qty o) q'
      else (px, mkSnapOrder (so_id o) (so_qty o - qty)) :: q'
  end.

Lemma drop_shares_zero q : Forall (fun p => 0 < so_qty p.2) q -> drop_shares 0 q = q.
Proof.
  destruct q as [|[p [i n]] q]; [done|]. intros [Ho _]%Forall_cons. cbn in *.
  replace (n <=? 0) with false by lia. by rewrite Z.sub_0_r.
Qed.

Lemma fill_queue_drop agg side px qty mid os os1 q1 m1 evs q' :
  0 <= qty -> Forall pos_qty os -> Forall (fun p => 0 < so_qty p.2) q' ->
  fill_queue agg side px qty mid os = (os1, q1, m1, evs) ->
  drop_shares qty (map (fun o => (px, o)) os ++ q')
  = map (fun o => (px, o)) os1 ++ drop_shares q1 q'.
Proof.
  intros Hq Hp Hq'. revert qty mid os1 q1 m1 evs Hq.
  induction os as [|o os IH]; intros qty mid os1 q1 m1 evs Hq Hf; cbn [fill_queue] in Hf.
  - by simplify_eq.
  - apply Forall_cons in Hp as [Ho Hp]. unfold pos_qty in Ho.
    cbn [map app drop_shares]. destruct (Z.eqb_spec qty 0) as [->|Hq0].
    { simplify_eq. replace (so_qty o <=? 0) with false by lia. cbn.
      rewrite Z.sub_0_r, (drop_shares_zero q') by done. by destruct o. }
    destruct (Z.eqb_spec (so_qty o) (Z.min qty (so_qty o))) as [He|He].
    + destruct (fill_queue _ _ _ _ _ os) as [[[os2 q2] m2] ev] eqn:Hf2. simplify_eq.
      replace (so_qty o <=? qty) with true by lia. rewrite <- He in Hf2.
      eapply IH; [done|lia|done].
    + simplify_eq. replace (so_qty o <=? qty) with false by lia.
      replace (Z.min qty (so_qty o)) with qty by lia. rewrite Z.sub_diag. cbn.
      by rewrite (drop_shares_zero q').
Qed.

Lemma priority_pos side limit ls :
  levels_ok (opposite side) ls -> Forall (fun p => 0 < so_qty p.2) (priority side limit ls).
Proof.
  induction ls as [|[px os] ls IH]; intros Hok; [constructor|].
  apply levels_ok_cons in Hok as (_ & _ & [_ Hpos] & Hok). rewrite priority_cons.
  apply Forall_app. split; [|by apply IH]. destruct (crosses side limit px); [|constructor].
  apply Forall_fmap. eapply Forall_impl; [exact Hpos|]. cbn. intros o Ho. lia.
Qed.

Lemma priority_shares_nonneg side limit ls :
  levels_ok (opposite side) ls -> 0 <= queue_shares (priority side limit ls).
Proof.
  intros Hok. apply sum_by_nonneg. eapply Forall_impl; [by apply priority_pos|]. cbn. lia.
Qed.

Lemma queue_shares_cons side limit px os ls :
  crosses side limit px = true ->
  queue_shares (priority side limit ((px, os) :: ls))
  = sum_by so_qty os + queue_shares (priority side limit ls).
Proof.
  intros Hx. rewrite priority_cons, Hx. unfold queue_shares. rewrite sum_by_app. f_equal.
  induction os as [|o os IH]; cbn; lia.
Qed.

(** The executions of a match, what is left of the order and of the queue. *)
Lemma fill_levels_allocate agg side limit qty mid ls ls1 q1 m1 evs :
  0 <= qty -> levels_ok (opposite side) ls ->
  fill_levels agg side limit qty mid ls = (ls1, q1, m1, evs) ->
  evs = allocate agg side qty mid (priority side limit ls) /\
  q1 = qty - Z.min qty (queue_shares (priority side limit ls)) /\
  priority side limit ls1 = drop_shares qty (priority side limit ls).
Proof.
  revert qty mid ls1 q1 m1 evs.
  induction ls as [|[px os] ls IH]; intros qty mid ls1 q1 m1 evs Hq Hok Hf; cbn [fill_levels] in Hf.
  { simplify_eq. split; [done|]. unfold queue_shares. cbn. split; [lia|done]. }
  pose proof (priority_shares_nonneg side limit _ Hok) as Hnn.
  pose proof (priority_pos side limit _ Hok) as Hpp.
  destruct (Z.eqb_spec qty 0) as [->|Hq0]; cbn [orb] in Hf.
  { simplify_eq. rewrite allocate_zero, drop_shares_zero by done. split_and!; [done|lia|done]. }
  destruct (crosses side limit px) eqn:Hx; cbn [negb] in Hf.
  2:{ simplify_eq. rewrite (priority_none side limit ((px, os) :: ls)); [|done|by apply levels_stop].
      unfold queue_shares. cbn. split_and!; [done|lia|done]. }
  rewrite queue_shares_cons in Hnn |- * by done.
  pose proof Hok as Hok0. apply levels_ok_cons in Hok as (Hall & Hpx & [_ Hpos] & Hok).
  pose proof (priority_shares_nonneg side limit _ Hok) as Hnn'.
  pose proof (priority_pos side limit _ Hok) as Hpp'.
  destruct (fill_queue agg side px qty mid os) as [[[os1 q2] m2] ev1] eqn:Hfq.
  pose proof (fill_queue_sum _ _ _ _ _ _ _ _ _ _ Hfq) as Hsum.
  pose proof (fill_queue_facts _ _ _ _ _ _ _ _ _ _ Hq Hpos Hfq) as (Hr & Hpos1 & _ & Hz).
  pose proof (fill_queue_allocate _ _ _ _ _ _ _ _ _ _ (priority side limit ls) Hq Hpos Hfq) as Hal.
  pose proof (fill_queue_drop _ _ _ _ _ _ _ _ _ _ (priority side limit ls) Hq Hpos Hpp' Hfq) as Hdr.
  rewrite priority_cons, Hx, Hal, Hdr. destruct os1 as [|o1 os1].
  - destruct (fill_levels _ _ _ _ _ ls) as [[[ls2 q3] m3] ev2] eqn:Hfl. simplify_eq.
    destruct (IH _ _ _ _ _ _ (proj1 Hr) Hok Hfl) as (-> & -> & ->).
    change (sum_by so_qty []) with 0 in Hsum. cbn [map app]. split_and!; [done|lia|done].
  - simplify_eq. rewrite (Hz ltac:(done)) in *. rewrite allocate_zero, app_nil_r.
    assert (0 <= sum_by so_qty (o1 :: os1)).
    { apply sum_by_nonneg. eapply Forall_impl; [exact Hpos1|]. unfold pos_qty. lia. }
    split_and!; [done|lia|]. rewrite priority_cons, Hx. by rewrite drop_shares_zero.
Qed.

Lemma available_priority side limit b :
  available side limit b = queue_shares (priority side limit (levels (opposite side) b)).
Proof.
  unfold available. induction (levels (opposite side) b) as [|[px os] ls IH]; [done|].
  cbn [sum_by fst snd]. destruct (crosses side limit px) eqn:Hx.
  - rewrite queue_shares_cons by done. lia.
  - rewrite priority_cons, Hx. cbn [app]. lia.
Qed.

Lemma match_priority agg side limit qty b b1 rem evs :
  wf b -> 0 <= qty -> match_ agg side limit qty b = (b1, rem, evs) ->
  evs = allocate agg side qty (next_match b) (priority side limit (levels (opposite side) b)) /\
  rem = qty - Z.min qty (available side limit b) /\
  priority side limit (levels (opposite side) b1)
    = drop_shares qty (priority side limit (levels (opposite side) b)) /\
  levels side b1 = levels side b.
Proof.
  unfold match_. intros Hwf Hq Hm.
  destruct (fill_levels _ _ _ _ _ _) as [[[ls1 q1] m1] ev] eqn:Hf. simplify_eq.
  apply fill_levels_allocate in Hf as (-> & -> & Hd); [|done|apply Hwf].
  rewrite available_priority. autorewrite with spec. done.
Qed.

(** * Conservation *)

Definition executed (e : BookEvent) : Z :=
  match e with on_executed x => ex_qty x | _ => 0 end.

Lemma allocate_sum agg side qty mid q :
  0 <= qty -> Forall (fun p => 0 < so_qty p.2) q ->
  sum_by executed (allocate agg side qty mid q) = Z.min qty (queue_shares q).
Proof.
  revert qty mid. induction q as [|[px o] q IH]; intros qty mid Hq Hp.
  { unfold queue_shares. cbn. lia. }
  apply Forall_cons in Hp as [Ho Hp]. cbn in Ho. cbn [allocate].
  assert (0 <= queue_shares q).
  { apply sum_by_nonneg. eapply Forall_impl; [exact Hp|]. cbn. lia. }
  change (queue_shares ((px, o) :: q)) with (so_qty o + queue_shares q).
  destruct (Z.eqb_spec qty 0) as [->|]; cbn [sum_by executed ex_qty]; [lia|].
  rewrite IH by (done || lia). lia.
Qed.

Definition side_shares (ls : Levels) : Z := sum_by (fun l => sum_by so_qty l.2) ls.

(** Open shares on both sides of the book. *)
Definition open_shares (b : Book) : Z := side_shares (bids b) + side_shares (asks b).

Lemma open_shares_side s b :
  open_shares b = side_shares (levels s b) + side_shares (levels (opposite s) b).
Proof. unfold open_shares, levels, opposite. destruct (is_buy s); cbn [is_buy]; lia. Qed.

Lemma fill_levels_shares agg side limit qty mid ls ls1 q1 m1 evs :
  fill_levels agg side limit qty mid ls = (ls1, q1, m1, evs) ->
  side_shares ls1 = side_shares ls - (qty - q1).
Proof.
  revert qty mid ls1 q1 m1 evs.
  induction ls as [|[px os] ls IH]; intros qty mid ls1 q1 m1 evs Hf; cbn [fill_levels] in Hf.
  { simplify_eq. lia. }
  destruct ((qty =? 0) || negb (crosses side limit px)); [simplify_eq; lia|].
  destruct (fill_queue agg side px qty mid os) as [[[os1 q2] m2] ev1] eqn:Hfq.
  pose proof (fill_queue_sum _ _ _ _ _ _ _ _ _ _ Hfq) as Hsum.
  change (side_shares ((px, os) :: ls)) with (sum_by so_qty os + side_shares ls).
  destruct os1 as [|o1 os1].
  - destruct (fill_levels _ _ _ _ _ ls) as [[[ls2 q3] m3] ev2] eqn:Hfl. simplify_eq.
    rewrite (IH _ _ _ _ _ _ Hfl). cbn in Hsum. lia.
  - simplify_eq. change (side_shares ((px, o1 :: os1) :: ls))
      with (sum_by so_qty (o1 :: os1) + side_shares ls). lia.
Qed.

Lemma upsert_shares s id qty px ls :
  side_shares (StdMap.upsert (before s) [] px (fun os => os ++ [mkSnapOrder id qty]) ls)
  = side_shares ls + qty.
Proof.
  induction ls as [|[p os] ls IH]; cbn; [lia|].
  destruct (px =? p); [unfold side_shares; cbn; rewrite sum_by_app; cbn; lia|].
  destruct (before s px p); unfold side_shares in *; cbn; lia.
Qed.

Lemma match_shares agg side limit qty b b1 rem evs :
  match_ agg side limit qty b = (b1, rem, evs) ->
  open_shares b1 = open_shares b - (qty - rem).
Proof.
  unfold match_. intros Hm.
  destruct (fill_levels _ _ _ _ _ _) as [[[ls1 q1] m1] ev] eqn:Hf. simplify_eq.
  apply fill_levels_shares in Hf. rewrite !(open_shares_side (opposite side)).
  autorewrite with spec. unfold levels, set_match, set_levels, opposite in *.
  destruct (is_buy side); cbn [is_buy bids asks] in *; lia.
Qed.

Lemma rest_shares id side px qty b : open_shares (rest id side px qty b) = open_shares b + qty.
Proof.
  rewrite !(open_shares_side side). unfold rest. autorewrite with spec.
  rewrite upsert_shares. lia.
Qed.

Lemma enter_conserves id side px qty b b' rem evs :
  wf b -> 0 <= qty -> enter id side px qty b = (b', rem, evs) ->
  sum_by executed evs = qty - rem /\ open_shares b' = open_shares b - (qty - rem) + rem.
Proof.
  unfold enter. intros Hwf Hq He. destruct (match_ _ _ _ _ _) as [[b1 r] ev] eqn:Hm.
  pose proof (match_shares _ _ _ _ _ _ _ _ Hm) as Hsh.
  apply match_priority in Hm as (-> & -> & _); [|done|done].
  pose proof (allocate_sum id side qty (next_match b)
    (priority side px (levels (opposite side) b)) Hq (priority_pos _ _ _ (wf_levels _ Hwf _))) as Hs.
  rewrite <- available_priority in Hs.
  destruct (Z.eqb_spec (qty - Z.min qty (available side px b)) 0); simplify_eq.
  - split; [rewrite Hs; lia|lia].
  - rewrite sum_by_app, rest_shares, Hs. cbn. split; lia.
Qed.
