(* ===== verification/MatchingBook.v ===== *)
(** The interface the two books share, as a class: the operations of
    [OrderBook]/[FastBook], and what it means for an implementation to refine
    the abstract book. Theorems about command streams are proved here once,
    against the interface. *)

From S2P Require Import Prelude StdMap BookTypes BookSpec.

Class MatchingBook (B : Type) := {
  mb_empty : B;
  mb_step : BookOp -> B -> option (OpResult * B);
  mb_snapshot : B -> option BookSnapshot;
  mb_log : B -> list BookEvent }.

(** A command stream: the results, in order, and the final book. *)
Fixpoint run {B} `{MatchingBook B} (ops : list BookOp) (b : B)
    : option (list OpResult * B) :=
  match ops with
  | [] => Some ([], b)
  | op :: ops' =>
      '(r, b1) ← mb_step op b;
      '(rs, b2) ← run ops' b1;
      Some (r :: rs, b2)
  end.

Fixpoint spec_run (ops : list BookOp) (sp : Spec.Book)
    : list OpResult * Spec.Book * list BookEvent :=
  match ops with
  | [] => ([], sp, [])
  | op :: ops' =>
      let '(r, sp1, evs1) := Spec.step op sp in
      let '(rs, sp2, evs2) := spec_run ops' sp1 in
      (r :: rs, sp2, evs1 ++ evs2)
  end.

Lemma spec_run_app ops1 ops2 : forall sp rs1 sp1 evs1 rs2 sp2 evs2,
  spec_run ops1 sp = (rs1, sp1, evs1) -> spec_run ops2 sp1 = (rs2, sp2, evs2) ->
  spec_run (ops1 ++ ops2) sp = (rs1 ++ rs2, sp2, evs1 ++ evs2).
Proof.
  induction ops1 as [|op ops1 IH]; intros sp rs1 sp1 evs1 rs2 sp2 evs2 H1 H2; cbn [spec_run app] in *.
  - by simplify_eq.
  - destruct (Spec.step op sp) as [[r spx] ev]. destruct (spec_run ops1 spx) as [[rsx spy] evx] eqn:E.
    simplify_eq. rewrite (IH _ _ _ _ _ _ _ E H2). by rewrite app_assoc.
Qed.

(** The number of orders an implementation can hold at once, [None] when it
    sets no limit of its own: a book whose arena is indexed by 32-bit integers
    has finitely many slots. *)
Definition below (cap : option Z) (sp : Spec.Book) : bool :=
  match cap with
  | None => true
  | Some c => Z.of_nat (length (Spec.ids sp)) <? c
  end.

(** Before each command of the stream there is room for one more order. *)
Fixpoint within (cap : option Z) (ops : list BookOp) (sp : Spec.Book) : bool :=
  match ops with
  | [] => true
  | op :: ops' =>
      let '(_, sp1, _) := Spec.step op sp in below cap sp && within cap ops' sp1
  end.

Lemma within_unlimited ops sp : within None ops sp = true.
Proof.
  revert sp. induction ops as [|op ops IH]; intros sp; [done|]. cbn.
  destruct (Spec.step op sp) as [[r sp1] evs]. apply IH.
Qed.

(** [mb_accepts] is what a call must satisfy for the implementation to be
    defined on it. *)
Class RefinesSpec (B : Type) `{MatchingBook B} := {
  mb_rep : B -> Spec.Book -> Prop;
  mb_accepts : BookOp -> Prop;
  mb_capacity : option Z;
  mb_rep_empty : mb_rep mb_empty Spec.empty;
  mb_log_empty : mb_log mb_empty = [];
  mb_rep_wf : forall b sp, mb_rep b sp -> Spec.wf sp;
  mb_rep_step : forall op b sp r sp' evs,
    mb_rep b sp -> mb_accepts op -> below mb_capacity sp = true ->
    Spec.step op sp = (r, sp', evs) ->
    exists b', mb_step op b = Some (r, b') /\ mb_rep b' sp' /\
      mb_log b' = mb_log b ++ evs;
  mb_rep_snapshot : forall b sp,
    mb_rep b sp -> mb_snapshot b = Some (Spec.to_snapshot sp) }.

Lemma run_refines {B} `{RefinesSpec B} ops b sp rs sp' evs :
  mb_rep b sp -> Forall mb_accepts ops -> within mb_capacity ops sp = true ->
  spec_run ops sp = (rs, sp', evs) ->
  exists b', run ops b = Some (rs, b') /\ mb_rep b' sp' /\ mb_log b' = mb_log b ++ evs.
Proof.
  revert b sp rs sp' evs. induction ops as [|op ops IH];
    intros b sp rs sp' evs Hr Hok Hroom Hs; cbn in *.
  - simplify_eq. exists b. by rewrite app_nil_r.
  - inversion_clear Hok as [|? ? Hop Hops].
    destruct (Spec.step op sp) as [[r sp1] evs1] eqn:H1.
    destruct (spec_run ops sp1) as [[rs2 sp2] evs2] eqn:H2. simplify_eq.
    apply andb_true_iff in Hroom as [Hroom Hrooms].
    destruct (mb_rep_step op b sp r sp1 evs1) as (b1 & Hb1 & Hr1 & Hl1); [done..|].
    destruct (IH b1 sp1 rs2 sp' evs2) as (b2 & Hb2 & Hr2 & Hl2); [done..|].
    rewrite Hb1. cbn. rewrite Hb2. cbn. exists b2. split_and!; [done|done|].
    by rewrite Hl2, Hl1, app_assoc.
Qed.

(** Two implementations of the abstract book cannot be told apart by any
    command stream: same results, same listener calls, same snapshot. *)
Lemma run_equiv {B1 B2} `{RefinesSpec B1} `{RefinesSpec B2} ops :
  Forall (mb_accepts (B := B1)) ops -> Forall (mb_accepts (B := B2)) ops ->
  within (mb_capacity (B := B1)) ops Spec.empty = true ->
  within (mb_capacity (B := B2)) ops Spec.empty = true ->
  exists rs (b1 : B1) (b2 : B2),
    run ops mb_empty = Some (rs, b1) /\ run ops mb_empty = Some (rs, b2) /\
    mb_log b1 = mb_log b2 /\
    mb_snapshot b1 = mb_snapshot b2 /\ is_Some (mb_snapshot b1).
Proof.
  intros Hok1 Hok2 Hn1 Hn2. destruct (spec_run ops Spec.empty) as [[rs sp] evs] eqn:Hs.
  destruct (run_refines (B := B1) ops _ _ _ _ _ mb_rep_empty Hok1 Hn1 Hs)
    as (b1 & Hb1 & Hr1 & Hl1).
  destruct (run_refines (B := B2) ops _ _ _ _ _ mb_rep_empty Hok2 Hn2 Hs)
    as (b2 & Hb2 & Hr2 & Hl2).
  exists rs, b1, b2. rewrite Hl1, Hl2, !mb_log_empty.
  rewrite (mb_rep_snapshot _ _ Hr1), (mb_rep_snapshot _ _ Hr2). eauto 10.
Qed.
