(* ===== verification/ReferenceBook.v ===== *)
(** The reference book of [book/order_book.{hpp,cpp}], class [OrderBook]: two
    [std::map]s of price levels, each level a [std::list] of orders with a
    cached total, and an index from order id to list iterator.

    The nodes of the [std::list]s live in an explicit store: a list iterator
    is the address of a node, a [LevelQueue] is the sequence of its nodes'
    addresses, and reading an order through an iterator reads the store.
    [None] stands for undefined behaviour (an iterator to a freed node, a
    lookup dereferenced at [end()]); the refinement theorems show that no
    operation on a reachable book gets there. *)

From S2P Require Import Prelude StdMap BookTypes BookSpec.

Module OrderBook.

Record Order := mkOrder {
  o_id : OrderId; o_side : Side; o_price : Price; o_open : Qty }.

(** [LevelQueue::iterator]: the address of a list node. *)
Abbreviation Node := Z.

Record Level := mkLevel { l_total : Qty; l_orders : list Node }.

Record Handle := mkHandle { h_side : Side; h_price : Price; h_it : Node }.

Abbreviation SideMap := (list (Price * Level)).

(** [listener_] is the sequence of calls made on the listener so far;
    [nodes] and [next_node] are the allocated list nodes. *)
Record OrderBook := mkBook {
  listener_ : list BookEvent;
  bids_ : SideMap;
  asks_ : SideMap;
  index_ : gmap OrderId Handle;
  next_match_id_ : Z;
  nodes : gmap Node Order;
  next_node : Node }.

Definition empty : OrderBook := mkBook [] [] [] ∅ 1 ∅ 0.

Definition set_open (q : Qty) (o : Order) : Order :=
  mkOrder (o_id o) (o_side o) (o_price o) q.

Definition emit (e : BookEvent) (b : OrderBook) : OrderBook :=
  mkBook (listener_ b ++ [e]) (bids_ b) (asks_ b) (index_ b) (next_match_id_ b)
    (nodes b) (next_node b).

Definition set_node (a : Node) (o : Order) (b : OrderBook) : OrderBook :=
  mkBook (listener_ b) (bids_ b) (asks_ b) (index_ b) (next_match_id_ b)
    (<[a := o]> (nodes b)) (next_node b).

Definition free_node (a : Node) (b : OrderBook) : OrderBook :=
  mkBook (listener_ b) (bids_ b) (asks_ b) (index_ b) (next_match_id_ b)
    (delete a (nodes b)) (next_node b).

Definition set_index (i : gmap OrderId Handle) (b : OrderBook) : OrderBook :=
  mkBook (listener_ b) (bids_ b) (asks_ b) i (next_match_id_ b)
    (nodes b) (next_node b).

Definition set_match_id (m : Z) (b : OrderBook) : OrderBook :=
  mkBook (listener_ b) (bids_ b) (asks_ b) (index_ b) m (nodes b) (next_node b).

Definition side_map (s : Side) (b : OrderBook) : SideMap :=
  if is_buy s then bids_ b else asks_ b.

Definition set_side_map (s : Side) (m : SideMap) (b : OrderBook) : OrderBook :=
  if is_buy s
  then mkBook (listener_ b) m (asks_ b) (index_ b) (next_match_id_ b)
         (nodes b) (next_node b)
  else mkBook (listener_ b) (bids_ b) m (index_ b) (next_match_id_ b)
         (nodes b) (next_node b).

(** The inner loop of [OrderBook::match]: consume one level's queue. When an
    order keeps open shares, [exec] was all of [qty], so the loop's next test
    [qty > 0] fails and the loop ends there. *)
Fixpoint match_level (id : OrderId) (side : Side) (orders : list Node)
    (b : OrderBook) (total qty filled : Qty)
    : option (OrderBook * Level * Qty * Qty) :=
  match orders with
  | [] => Some (b, mkLevel total [], qty, filled)
  | it :: rest =>
      if negb (0 <? qty) then Some (b, mkLevel total orders, qty, filled)
      else
        resting ← nodes b !! it;
        let exec := if qty <? o_open resting then qty else o_open resting in
        let resting' := set_open (u32 (o_open resting - exec)) resting in
        let b1 := set_node it resting' b in
        let total' := u32 (total - exec) in
        let qty' := u32 (qty - exec) in
        let filled' := u32 (filled + exec) in
        let b2 := emit (on_executed (mkExecuted (o_id resting) id side
                          (o_price resting) exec (next_match_id_ b1))) b1 in
        let b3 := set_match_id (u64 (next_match_id_ b2 + 1)) b2 in
        if o_open resting' =? 0 then
          let b4 := set_index (delete (o_id resting') (index_ b3)) b3 in
          let b5 := free_node it b4 in
          match_level id side rest b5 total' qty' filled'
        else Some (b3, mkLevel total' (it :: rest), qty', filled')
  end.

(** [OrderBook::match]: walk the opposite side's levels, best first. A level
    is left with orders only when [qty] is exhausted, which ends the walk. *)
Fixpoint match_ (opposite : SideMap) (b : OrderBook) (id : OrderId) (side : Side)
    (limit : Price) (qty filled : Qty) : option (SideMap * OrderBook * Qty) :=
  match opposite with
  | [] => Some ([], b, filled)
  | (px, level) :: rest =>
      if negb (0 <? qty) then Some (opposite, b, filled)
      else if negb (crosses side limit px) then Some (opposite, b, filled)
      else
        '(b1, level', qty', filled') ←
          match_level id side (l_orders level) b (l_total level) qty filled;
        match l_orders level' with
        | [] => match_ rest b1 id side limit qty' filled'
        | _ => Some ((px, level') :: rest, b1, filled')
        end
  end.

(** [side == Side::Buy ? match(asks_, ...) : match(bids_, ...)]. *)
Definition match_opposite (id : OrderId) (side : Side) (price : Price) (qty : Qty)
    (b : OrderBook) : option (OrderBook * Qty) :=
  '(m, b1, filled) ← match_ (side_map (opposite side) b) b id side price qty 0;
  Some (set_side_map (opposite side) m b1, filled).

Definition rest (id : OrderId) (side : Side) (price : Price) (qty : Qty)
    (b : OrderBook) : OrderBook :=
  let it := next_node b in
  let push level := mkLevel (u32 (l_total level + qty)) (l_orders level ++ [it]) in
  let m := StdMap.upsert (before side) (mkLevel 0 []) price push (side_map side b) in
  let b1 := set_side_map side m b in
  let index := match index_ b1 !! id with
               | Some _ => index_ b1
               | None => <[id := mkHandle side price it]> (index_ b1)
               end in
  mkBook (listener_ b1) (bids_ b1) (asks_ b1) index (next_match_id_ b1)
    (<[it := mkOrder id side price qty]> (nodes b1)) (it + 1).

(** The common tail of [add] and of a crossing [replace]. *)
Definition match_and_rest (id : OrderId) (side : Side) (price : Price) (qty : Qty)
    (b : OrderBook) : option (OrderBook * Qty * Qty) :=
  '(b1, filled) ← match_opposite id side price qty b;
  let resting := u32 (qty - filled) in
  if 0 <? resting then
    let b2 := rest id side price resting b1 in
    Some (emit (on_added (mkAdded id side price resting)) b2, filled, resting)
  else Some (b1, filled, resting).

Definition add (id : OrderId) (side : Side) (price : Price) (qty : Qty)
    (b : OrderBook) : option (AddResult * OrderBook) :=
  if price <=? 0 then Some (mkAddResult BadPrice 0 0, b)
  else if qty =? 0 then Some (mkAddResult BadQty 0 0, b)
  else match index_ b !! id with
  | Some _ => Some (mkAddResult DuplicateId 0 0, b)
  | None =>
      '(b1, filled, resting) ← match_and_rest id side price qty b;
      Some (mkAddResult AddOk filled resting, b1)
  end.

(** [std::list::erase(it)]: the iterator must point into the list. *)
Fixpoint list_erase (it : Node) (l : list Node) : option (list Node) :=
  match l with
  | [] => None
  | a :: l' => if a =? it then Some l' else l1 ← list_erase it l'; Some (a :: l1)
  end.

(** [OrderBook::remove], given the index entry's key and handle. *)
Definition remove (id : OrderId) (h : Handle) (b : OrderBook) : option OrderBook :=
  level ← StdMap.find (h_price h) (side_map (h_side h) b);
  order ← nodes b !! h_it h;
  orders ← list_erase (h_it h) (l_orders level);
  let level' := mkLevel (u32 (l_total level - o_open order)) orders in
  let m := StdMap.update (h_price h) (fun _ => level') (side_map (h_side h) b) in
  let m' := match orders with [] => StdMap.erase (h_price h) m | _ => m end in
  let b1 := free_node (h_it h) (set_side_map (h_side h) m' b) in
  Some (set_index (delete id (index_ b1)) b1).

Definition cancel (id : OrderId) (keep_qty : Qty) (b : OrderBook)
    : option (bool * OrderBook) :=
  match index_ b !! id with
  | None => Some (false, b)
  | Some h =>
      order ← nodes b !! h_it h;
      if o_open order <=? keep_qty then Some (false, b)
      else if keep_qty =? 0 then
        let canceled := o_open order in
        b1 ← remove id h b;
        Some (true, emit (on_canceled (mkCanceled id canceled true)) b1)
      else
        let canceled := u32 (o_open order - keep_qty) in
        let b1 := set_node (h_it h) (set_open keep_qty order) b in
        level ← StdMap.find (h_price h) (side_map (h_side h) b1);
        let level' := mkLevel (u32 (l_total level - canceled)) (l_orders level) in
        let b2 := set_side_map (h_side h)
                    (StdMap.update (h_price h) (fun _ => level')
                       (side_map (h_side h) b1)) b1 in
        Some (true, emit (on_canceled (mkCanceled id canceled false)) b2)
  end.

Definition would_cross (side : Side) (price : Price) (b : OrderBook) : bool :=
  if is_buy side then
    match asks_ b with [] => false | (px, _) :: _ => px <=? price end
  else
    match bids_ b with [] => false | (px, _) :: _ => price <=? px end.

Definition replace (old_id new_id : OrderId) (new_price : Price) (new_qty : Qty)
    (b : OrderBook) : option (bool * OrderBook) :=
  match index_ b !! old_id with
  | None => Some (false, b)
  | Some h =>
      if (new_id =? old_id) || bool_decide (is_Some (index_ b !! new_id))
      then Some (false, b)
      else if (new_price <=? 0) || (new_qty =? 0) then Some (false, b)
      else
        let side := h_side h in
        order ← nodes b !! h_it h;
        let old_open := o_open order in
        b1 ← remove old_id h b;
        if would_cross side new_price b1 then
          let b2 := emit (on_canceled (mkCanceled old_id old_open true)) b1 in
          '(b3, _, _) ← match_and_rest new_id side new_price new_qty b2;
          Some (true, b3)
        else
          let b2 := rest new_id side new_price new_qty b1 in
          Some (true, emit (on_replaced
                  (mkReplaced old_id new_id side new_price new_qty)) b2)
  end.

Definition contains (id : OrderId) (b : OrderBook) : bool :=
  bool_decide (is_Some (index_ b !! id)).

Definition best_bid (b : OrderBook) : option Price :=
  match bids_ b with [] => None | (px, _) :: _ => Some px end.

Definition best_ask (b : OrderBook) : option Price :=
  match asks_ b with [] => None | (px, _) :: _ => Some px end.

Definition snapshot_level (b : OrderBook) (e : Price * Level) : option SnapshotLevel :=
  os ← mapM (fun a => o ← nodes b !! a; Some (mkSnapOrder (o_id o) (o_open o)))
         (l_orders e.2);
  Some (mkSnapLevel e.1 os).

Definition snapshot (b : OrderBook) : option BookSnapshot :=
  bids ← mapM (snapshot_level b) (bids_ b);
  asks ← mapM (snapshot_level b) (asks_ b);
  Some (mkSnapshot bids asks).

(** The inner loop of [check_side]: the running [sum] and [order_count]. *)
Fixpoint check_orders (b : OrderBook) (side : Side) (price : Price)
    (orders : list Node) (sum count : Z) : outcome (Z * Z) :=
  match orders with
  | [] => Ok (sum, count)
  | it :: rest =>
      o ← deref (nodes b !! it);
      let count' := count + 1 in
      _ ← fail_if (o_open o =? 0) "resting order with zero open qty";
      _ ← fail_if (negb (o_price o =? price)) "order price != level price";
      _ ← fail_if (bool_decide (o_side o <> side)) "order side != book side";
      let sum' := u32 (sum + o_open o) in
      h ← match index_ b !! o_id o with
          | Some h => Ok h
          | None => Throw "resting order missing from index"
          end;
      _ ← fail_if (negb (h_it h =? it)) "index handle does not point at order";
      _ ← fail_if (negb (h_price h =? price) || bool_decide (h_side h <> side))
            "index handle side/price mismatch";
      check_orders b side price rest sum' count'
  end.

Fixpoint check_side (b : OrderBook) (side : Side) (m : SideMap) (count : Z)
    : outcome Z :=
  match m with
  | [] => Ok count
  | (price, level) :: m' =>
      _ ← fail_if (bool_decide (l_orders level = [])) "empty price level not erased";
      '(sum, count') ← check_orders b side price (l_orders level) 0 count;
      _ ← fail_if (negb (sum =? l_total level)) "level total != sum of open quantities";
      check_side b side m' count'
  end.

Definition check_invariants (b : OrderBook) : outcome unit :=
  c1 ← check_side b Buy (bids_ b) 0;
  c2 ← check_side b Sell (asks_ b) c1;
  _ ← fail_if (negb (c2 =? Z.of_nat (size (index_ b)))) "index size != resting order count";
  match bids_ b, asks_ b with
  | (pb, _) :: _, (pa, _) :: _ => fail_if (pa <=? pb) "book is crossed or locked at rest"
  | _, _ => Ok tt
  end.

Definition step (op : BookOp) (b : OrderBook) : option (OpResult * OrderBook) :=
  match op with
  | OpAdd id side px qty => '(r, b') ← add id side px qty b; Some (RAdd r, b')
  | OpCancel id keep => '(r, b') ← cancel id keep b; Some (RBool r, b')
  | OpReplace o n px qty => '(r, b') ← replace o n px qty b; Some (RBool r, b')
  end.

End OrderBook.
