(* ===== verification/ReferenceBookRefines.v ===== *)
(** The reference book refines the abstract book: from related states every
    operation is defined, returns the same result, emits the same events and
    ends in related states; a related state passes [check_invariants] and its
    [snapshot] is the abstract one. *)

From S2P Require Import Prelude StdMap BookTypes BookSpec MatchingBook ReferenceBook.

Import OrderBook.

(** * The representation relation *)

(** Node [a] holds order [o] of side [s] at price [px], and the index maps the
    order's id to that node. *)
Definition node_rep (b : OrderBook) (s : Side) (px : Price) (a : Node)
    (o : SnapshotOrder) : Prop :=
  nodes b !! a = Some (mkOrder (so_id o) s px (so_qty o)) /\
  index_ b !! so_id o = Some (mkHandle s px a).

Definition level_rep (b : OrderBook) (s : Side) (e : Price * Level)
    (l : Price * list SnapshotOrder) : Prop :=
  e.1 = l.1 /\ l_total e.2 = u32 (sum_by so_qty l.2) /\
  Forall2 (node_rep b s l.1) (l_orders e.2) l.2.

Definition side_rep (b : OrderBook) (s : Side) (m : SideMap) (ls : Spec.Levels) : Prop :=
  Forall2 (level_rep b s) m ls.

Record Rep (b : OrderBook) (sp : Spec.Book) : Prop := mkRep {
  rep_side : forall s, valid_side s -> side_rep b s (side_map s b) (Spec.levels s sp);
  rep_index : forall id, id ∉ Spec.ids sp -> index_ b !! id = None;
  rep_fresh : forall a o, nodes b !! a = Some o -> a < next_node b;
  rep_mid : next_match_id_ b = Spec.next_match sp;
  rep_wf : Spec.wf sp }.

(** * Framing *)

(** [b'] differs from [b] only at the orders of [ids0], of which those of
    [ids1] still rest. *)
Record frame (ids0 ids1 : list OrderId) (b b' : OrderBook) : Prop := mkFrame {
  fr_node : forall s px a o, so_id o ∉ ids0 -> node_rep b s px a o -> node_rep b' s px a o;
  fr_index : forall i, i ∉ ids0 -> index_ b' !! i = index_ b !! i;
  fr_gone : forall i, i ∈ ids0 -> i ∉ ids1 -> index_ b' !! i = None;
  fr_nodes : forall a, is_Some (nodes b' !! a) -> is_Some (nodes b !! a);
  fr_bids : bids_ b' = bids_ b;
  fr_asks : asks_ b' = asks_ b;
  fr_next : next_node b' = next_node b }.

Lemma frame_refl ids b : frame ids ids b b.
Proof. split; done. Qed.

(** An untouched tail can be added to a frame. *)
Lemma frame_app i0 i1 k b b' : frame i0 i1 b b' -> frame (i0 ++ k) (i1 ++ k) b b'.
Proof.
  intros [Hn Hi Hg Ho ? ? ?]. split; try done.
  - intros s px a o Hni. apply Hn. set_solver.
  - intros i Hni. apply Hi. set_solver.
  - intros i H0 H1. apply Hg; set_solver.
Qed.

(** One queue is consumed, then the rest of the side is processed. *)
Lemma frame_trans i0 j0 j1 b b1 b2 :
  (forall i, i ∈ i0 -> i ∉ j0) -> frame i0 [] b b1 -> frame j0 j1 b1 b2 ->
  frame (i0 ++ j0) j1 b b2.
Proof.
  intros Hd [Hn Hi Hg Ho Hb Ha Hx] [Hn' Hi' Hg' Ho' Hb' Ha' Hx'].
  split; try congruence; auto.
  - intros s px a o Hni Hr. apply Hn'; [set_solver|]. apply Hn; [set_solver|done].
  - intros i Hni. rewrite Hi' by set_solver. apply Hi. set_solver.
  - intros i H0 H1. destruct (decide (i ∈ j0)) as [Hj|Hj]; [by apply Hg'|].
    rewrite Hi' by done. apply Hg; set_solver.
Qed.

Lemma queue_rep_frame i0 i1 b b' s px l os :
  frame i0 i1 b b' -> (forall i, i ∈ map so_id os -> i ∉ i0) ->
  Forall2 (node_rep b s px) l os -> Forall2 (node_rep b' s px) l os.
Proof.
  intros Hf Hd Ho. eapply Forall2_impl_in; [exact Ho|]. intros a o Hin.
  apply (fr_node _ _ _ _ Hf), Hd, list_elem_of_fmap. by exists o.
Qed.

Lemma side_rep_frame i0 i1 b b' s m ls :
  frame i0 i1 b b' -> (forall i, i ∈ Spec.level_ids ls -> i ∉ i0) ->
  side_rep b s m ls -> side_rep b' s m ls.
Proof.
  intros Hf Hd Hr. induction Hr as [|e [px os] m ls (He & Ht & Ho) Hr IH]; [constructor|].
  rewrite Spec.level_ids_cons in Hd. constructor; [|apply IH; set_solver].
  split_and!; [done..|]. eapply queue_rep_frame; [done| |done]. set_solver.
Qed.

(** * Matching *)

(** The store after one execution that leaves shares open. *)
Lemma node_rep_partial b s px it o q e m :
  node_rep b s px it o ->
  node_rep (set_match_id m (emit e (set_node it (mkOrder (so_id o) s px q) b)))
    s px it (mkSnapOrder (so_id o) q).
Proof. intros [Hn Hi]. split; cbn; [by rewrite lookup_insert_eq|done]. Qed.

(** One order's node is rewritten: nothing else changes. *)
Lemma frame_partial b s px it o q e m :
  node_rep b s px it o ->
  frame [so_id o] [so_id o] b
    (set_match_id m (emit e (set_node it (mkOrder (so_id o) s px q) b))).
Proof.
  intros [Hn Hi]. split; try done; cbn.
  - intros s' px' a o' Hni [Hn' Hi']. split; cbn; [|done].
    rewrite lookup_insert_ne; [done|]. intros ->. rewrite Hn in Hn'.
    simplify_eq. set_solver.
  - intros a. rewrite lookup_insert. case_decide; [|done]. subst. by rewrite Hn.
Qed.

(** One order's node is freed and its index entry erased. *)
Lemma frame_gone b s px it o x e m :
  node_rep b s px it o ->
  let b3 := set_match_id m (emit e (set_node it x b)) in
  frame [so_id o] [] b
    (free_node it (set_index (delete (so_id o) (index_ b3)) b3)).
Proof.
  intros [Hn Hi] b3. split; try done; cbn.
  - intros s' px' a o' Hni [Hn' Hi']. split; cbn.
    + rewrite delete_insert_eq, lookup_delete_ne; [done|].
      intros ->. rewrite Hn in Hn'. simplify_eq. set_solver.
    + rewrite lookup_delete_ne; [done|]. set_solver.
  - intros i Hni. rewrite lookup_delete_ne; [done|]. set_solver.
  - intros i ->%list_elem_of_singleton _. apply lookup_delete_eq.
  - intros a. rewrite delete_insert_eq, lookup_delete. by case_decide.
Qed.

Lemma match_level_refines id side s px orders os b total qty filled os1 q1 m1 evs :
  Forall2 (node_rep b s px) orders os -> NoDup (map so_id os) ->
  Forall Spec.pos_qty os -> fits 32 qty -> fits 32 total -> fits 32 filled ->
  Spec.fill_queue id side px qty (next_match_id_ b) os = (os1, q1, m1, evs) ->
  exists b' orders1,
    match_level id side orders b total qty filled =
      Some (b', mkLevel (u32 (total - (qty - q1))) orders1, q1,
            u32 (filled + (qty - q1))) /\
    Forall2 (node_rep b' s px) orders1 os1 /\
    frame (map so_id os) (map so_id os1) b b' /\
    next_match_id_ b' = m1 /\ listener_ b' = listener_ b ++ evs.
Proof.
  intros Hr. revert b Hr total qty filled os1 q1 m1 evs.
  revert orders. induction os as [|o os IH]; intros orders b Hr total qty filled
    os1 q1 m1 evs Hnd Hpos Hq Ht Hf Hfill.
  - apply Forall2_length_nil_r in Hr as ->. cbn in *. simplify_eq.
    exists b, []. split_and!; [|constructor|apply frame_refl|done|by rewrite app_nil_r].
    rewrite Z.sub_diag, Z.sub_0_r, Z.add_0_r, !wrap_small by done. done.
  - inversion Hr as [|it ? orders' ? Hit Hr']; subst. cbn in Hnd.
    apply NoDup_cons in Hnd as [Hni Hnd]. inversion_clear Hpos as [|? ? Ho Hpos'].
    unfold Spec.pos_qty in Ho. cbn [match_level Spec.fill_queue] in *.
    destruct (Z.eqb_spec qty 0) as [->|Hq0].
    { simplify_eq. cbn. exists b, (it :: orders').
      split_and!; [|done|apply frame_refl|done|by rewrite app_nil_r].
      rewrite Z.sub_0_r, Z.add_0_r, !wrap_small by done. done. }
    replace (0 <? qty) with true by (unfold fits in Hq; lia). cbn [negb].
    pose proof Hit as [Hn Hi]. rewrite Hn. cbn [mbind option_bind o_open set_open o_id o_price o_side].
    replace (if qty <? so_qty o then qty else so_qty o) with (Z.min qty (so_qty o))
      by (destruct (Z.ltb_spec qty (so_qty o)); lia).
    rewrite (wrap_small 32 (so_qty o - _)) by (unfold fits in *; lia).
    rewrite (wrap_small 32 (qty - _)) by (unfold fits in *; lia).
    change (next_match_id_ (set_node _ _ b)) with (next_match_id_ b).
    change (next_match_id_ (emit _ (set_node _ _ b))) with (next_match_id_ b).
    destruct (Z.eqb_spec (so_qty o) (Z.min qty (so_qty o))) as [He|He].
    + replace (so_qty o - Z.min qty (so_qty o) =? 0) with true by lia.
      destruct (Spec.fill_queue _ _ _ _ _ os) as [[[os2 q2] m2] ev2] eqn:Hfq. simplify_eq.
      match goal with
      | |- context [match_level _ _ _ ?b5 ?t ?q ?f] =>
          set (bz := b5); set (tz := t); set (fz := f)
      end.
      assert (frame [so_id o] [] b bz) as Hfr by (apply (frame_gone b s px it o); done).
      edestruct (IH orders' bz) with (total := tz) (filled := fz)
        as (b' & orders1 & Hm & Hr1 & Hfr1 & Hmid & Hlog); [..|exact Hfq|].
      * eapply queue_rep_frame; [exact Hfr| |done]. set_solver.
      * done.
      * done.
      * unfold fits in *; lia.
      * apply wrap_fits; lia.
      * apply wrap_fits; lia.
      * exists b', orders1. rewrite Hm. split_and!; [|done| |done|].
        -- unfold tz, fz. f_equal. f_equal; [do 3 f_equal|]; wrap_eq.
        -- apply (frame_trans [so_id o] (map so_id os) _ b bz b'); [set_solver|done..].
        -- rewrite Hlog. cbn. rewrite <- app_assoc. done.
    + replace (so_qty o - Z.min qty (so_qty o) =? 0) with false by lia. simplify_eq.
      eexists _, (it :: orders'). split_and!; [|..].
      * f_equal. f_equal; [do 3 f_equal|]; wrap_eq.
      * constructor; [by apply node_rep_partial|].
        eapply queue_rep_frame; [by apply frame_partial| |done]. set_solver.
      * cbn. apply (frame_app [so_id o] [so_id o] (map so_id os)), frame_partial, Hit.
      * done.
      * done.
Qed.

Lemma match_refines id side limit m ls b qty filled ls1 q1 m1 evs :
  side_rep b (opposite side) m ls -> NoDup (Spec.level_ids ls) ->
  Spec.levels_ok (opposite side) ls -> fits 32 qty -> fits 32 filled ->
  Spec.fill_levels id side limit qty (next_match_id_ b) ls = (ls1, q1, m1, evs) ->
  exists m' b',
    match_ m b id side limit qty filled = Some (m', b', u32 (filled + (qty - q1))) /\
    side_rep b' (opposite side) m' ls1 /\
    frame (Spec.level_ids ls) (Spec.level_ids ls1) b b' /\
    next_match_id_ b' = m1 /\ listener_ b' = listener_ b ++ evs.
Proof.
  revert m b qty filled ls1 q1 m1 evs. induction ls as [|[px os] ls IH];
    intros m b qty filled ls1 q1 m1 evs Hr Hnd Hok Hq Hf Hfill.
  - apply Forall2_length_nil_r in Hr as ->. cbn in *. simplify_eq.
    exists [], b. split_and!; [|constructor|apply frame_refl|done|by rewrite app_nil_r].
    by rewrite Z.sub_diag, Z.add_0_r, wrap_small.
  - inversion Hr as [|[px' lvl] ? m0 ? Hl Hr']; subst.
    pose proof Hl as (Hpx & Ht & Ho). cbn in Hpx, Ht, Ho. subst px'.
    rewrite Spec.level_ids_cons in Hnd. apply NoDup_app in Hnd as (Hnd1 & Hdis & Hnd2).
    apply Spec.levels_ok_cons in Hok as (_ & _ & [_ Hpos] & Hok).
    cbn [match_ Spec.fill_levels] in *.
    assert (exists m' b', Some ((px, lvl) :: m0, b, filled) =
              Some (m', b', u32 (filled + (qty - qty))) /\
              side_rep b' (opposite side) m' ((px, os) :: ls) /\
              frame (Spec.level_ids ((px, os) :: ls)) (Spec.level_ids ((px, os) :: ls)) b b' /\
              next_match_id_ b' = next_match_id_ b /\ listener_ b' = listener_ b ++ [])
      as Hstop.
    { exists ((px, lvl) :: m0), b.
      split_and!; [|done|apply frame_refl|done|by rewrite app_nil_r].
      by rewrite Z.sub_diag, Z.add_0_r, wrap_small. }
    destruct (Z.eqb_spec qty 0) as [->|Hq0].
    { cbn in *. simplify_eq. exact Hstop. }
    replace (0 <? qty) with true by (unfold fits in Hq; lia). cbn [negb orb] in *.
    destruct (crosses side limit px) eqn:Hc; cbn [negb] in *; [|by simplify_eq; exact Hstop].
    clear Hstop.
    destruct (Spec.fill_queue _ _ _ _ _ os) as [[[os2 q2] m2] ev2] eqn:Hfq.
    pose proof (Spec.fill_queue_sum _ _ _ _ _ _ _ _ _ _ Hfq) as Hsum.
    pose proof (Spec.fill_queue_facts _ _ _ _ _ _ _ _ _ _ (proj1 Hq) Hpos Hfq)
      as (Hq2 & Hpos2 & Hsuf & _).
    destruct (match_level_refines id side (opposite side) px (l_orders lvl) os b
                (l_total lvl) qty filled os2 q2 m2 ev2)
      as (b1 & orders1 & Hm & Hr1 & Hfr1 & Hmid1 & Hlog1); try done.
    { rewrite Ht. apply wrap_fits; lia. }
    rewrite Hm. cbn [mbind option_bind l_orders].
    destruct os2 as [|o2 os2].
    + apply Forall2_length_nil_r in Hr1 as ->.
      destruct (Spec.fill_levels _ _ _ _ _ ls) as [[[ls3 q3] m3] ev3] eqn:Hfl. simplify_eq.
      destruct (IH m0 b1 q2 (u32 (filled + (qty - q2))) ls1 q1 m1 ev3)
        as (m' & b' & Hm' & Hr3 & Hfr3 & Hmid3 & Hlog3); try done.
      * eapply side_rep_frame; [exact Hfr1| |done]. set_solver.
      * unfold fits in *; lia.
      * apply wrap_fits; lia.
      * exists m', b'. rewrite Hm'. split_and!; [|done| |done|].
        -- do 2 f_equal. wrap_eq.
        -- rewrite Spec.level_ids_cons. by eapply frame_trans.
        -- rewrite Hlog3, Hlog1. by rewrite app_assoc.
    + simplify_eq. inversion Hr1 as [|a1 ? l1 ? Ha1 Hl1]; subst. eexists _, b1.
      split_and!; [done| | |done|done].
      * constructor; [|eapply side_rep_frame; [exact Hfr1| |done]; set_solver].
        split_and!; [done| |done]. cbn [snd l_total]. rewrite Hsum, Ht. wrap_eq.
      * rewrite !Spec.level_ids_cons. by apply frame_app.
Qed.

Lemma side_map_set_eq s m b : side_map s (set_side_map s m b) = m.
Proof. unfold side_map, set_side_map. by destruct (is_buy s). Qed.

Lemma side_map_set_opp s m b :
  side_map s (set_side_map (opposite s) m b) = side_map s b.
Proof. unfold side_map, set_side_map, opposite. by destruct (is_buy s). Qed.

Lemma side_map_frame s i0 i1 b b' : frame i0 i1 b b' -> side_map s b' = side_map s b.
Proof. intros Hf. unfold side_map. rewrite (fr_bids _ _ _ _ Hf). by rewrite (fr_asks _ _ _ _ Hf). Qed.

(** Changing a side map changes neither store nor index. *)
Lemma node_rep_set_side s' m b s px a o :
  node_rep (set_side_map s' m b) s px a o <-> node_rep b s px a o.
Proof. unfold set_side_map, node_rep. by destruct (is_buy s'). Qed.

Lemma queue_rep_iff b b' s px l os :
  nodes b = nodes b' -> index_ b = index_ b' ->
  Forall2 (node_rep b s px) l os -> Forall2 (node_rep b' s px) l os.
Proof. intros Hn Hi. unfold node_rep. by rewrite Hn, Hi. Qed.

Lemma side_rep_iff b b' s m ls :
  nodes b = nodes b' -> index_ b = index_ b' -> side_rep b s m ls -> side_rep b' s m ls.
Proof. intros Hn Hi. unfold side_rep, level_rep, node_rep. by rewrite Hn, Hi. Qed.

(** Any valid side is [s] or its opposite. *)
Lemma opposite_invol s : valid_side s -> opposite (opposite s) = s.
Proof. by intros [-> | ->]. Qed.

Lemma nodes_set_side s m b : nodes (set_side_map s m b) = nodes b.
Proof. unfold set_side_map. by destruct (is_buy s). Qed.

Lemma index_set_side s m b : index_ (set_side_map s m b) = index_ b.
Proof. unfold set_side_map. by destruct (is_buy s). Qed.

Lemma next_set_side s m b : next_node (set_side_map s m b) = next_node b.
Proof. unfold set_side_map. by destruct (is_buy s). Qed.

Lemma mid_set_side s m b : next_match_id_ (set_side_map s m b) = next_match_id_ b.
Proof. unfold set_side_map. by destruct (is_buy s). Qed.

Lemma log_set_side s m b : listener_ (set_side_map s m b) = listener_ b.
Proof. unfold set_side_map. by destruct (is_buy s). Qed.

Create Rewrite HintDb refbook.
#[export] Hint Rewrite side_map_set_eq side_map_set_opp nodes_set_side index_set_side
  next_set_side mid_set_side log_set_side : refbook.

Lemma match_opposite_refines id side px qty b sp sp' rem evs :
  Rep b sp -> valid_side side -> fits 32 qty ->
  Spec.match_ id side px qty sp = (sp', rem, evs) ->
  exists b', match_opposite id side px qty b = Some (b', qty - rem) /\
    Rep b' sp' /\ listener_ b' = listener_ b ++ evs.
Proof.
  intros HR Hs Hq Hm. pose proof Hm as Hm0.
  apply Spec.match_wf in Hm0 as (Hwf' & Hrem & Hlv & Hids & _);
    [|apply HR|unfold fits in Hq; lia].
  unfold Spec.match_ in Hm.
  destruct (Spec.fill_levels _ _ _ _ _ _) as [[[ls1 q1] m1] ev] eqn:Hfl. simplify_eq.
  pose proof (Spec.wf_ids _ (rep_wf _ _ HR)) as Hnd.
  rewrite (Spec.ids_levels (opposite side)), opposite_invol in Hnd by done.
  apply NoDup_app in Hnd as (Hnd1 & Hdis & Hnd2).
  rewrite <- (rep_mid _ _ HR) in Hfl.
  destruct (match_refines id side px (side_map (opposite side) b)
              (Spec.levels (opposite side) sp) b qty 0 ls1 rem m1 evs)
    as (m' & b' & Hmt & Hr & Hfr & Hmid & Hlog); try done.
  { apply HR. auto with nsq. }
  { apply HR. }
  unfold match_opposite. rewrite Hmt. cbn [mbind option_bind].
  eexists. split_and!.
  - f_equal. f_equal. rewrite Z.add_0_l. apply wrap_small. unfold fits in *. lia.
  - split; autorewrite with refbook; try done.
    + intros s Hs'. destruct (valid_side_cases side s Hs Hs') as [-> | ->];
        autorewrite with refbook spec.
      * rewrite (side_map_frame _ _ _ _ _ Hfr).
        eapply side_rep_iff; [symmetry; apply nodes_set_side|symmetry; apply index_set_side|].
        eapply side_rep_frame; [exact Hfr| |by apply HR]. set_solver.
      * eapply side_rep_iff; [symmetry; apply nodes_set_side|symmetry; apply index_set_side|done].
    + intros i Hi. change (Spec.ids (Spec.set_match _ ?x)) with (Spec.ids x) in Hi.
      rewrite (Spec.ids_levels (opposite side)) in Hi. autorewrite with spec in Hi.
      apply not_elem_of_app in Hi as [Hi1 Hi2].
      destruct (decide (i ∈ Spec.level_ids (Spec.levels (opposite side) sp))) as [Hin|Hin].
      * by apply (fr_gone _ _ _ _ Hfr).
      * rewrite (fr_index _ _ _ _ Hfr) by done. apply HR.
        rewrite (Spec.ids_levels (opposite side)). by apply not_elem_of_app.
    + intros a o Ha. destruct (fr_nodes _ _ _ _ Hfr a) as [o' Ho']; [by rewrite Ha|].
      rewrite (fr_next _ _ _ _ Hfr). by eapply HR.
  - by autorewrite with refbook.
Qed.

(** * Resting *)

Lemma side_rep_upsert b s px push id qty m ls :
  side_rep b s m ls ->
  (forall lvl os, level_rep b s (px, lvl) (px, os) ->
     level_rep b s (px, push lvl) (px, os ++ [mkSnapOrder id qty])) ->
  side_rep b s (StdMap.upsert (before s) (mkLevel 0 []) px push m)
    (StdMap.upsert (before s) [] px (Spec.push_order id qty) ls).
Proof.
  intros Hr Hpush.
  assert (level_rep b s (px, push (mkLevel 0 [])) (px, [mkSnapOrder id qty])) as Hnew
    by (apply (Hpush (mkLevel 0 []) []); split_and!; [done|done|constructor]).
  induction Hr as [|[px' lvl] [px2 os] m ls Hl Hr IH]; cbn [StdMap.upsert].
  - constructor; [done|constructor].
  - pose proof Hl as (Hpx & _). cbn in Hpx. subst px2.
    destruct (Z.eqb_spec px px') as [->|]; [constructor; auto|].
    destruct (before s px px'); constructor; auto.
Qed.

Lemma rest_refines id side px qty b sp :
  Rep b sp -> valid_side side -> id ∉ Spec.ids sp -> fits 32 qty ->
  Spec.wf (Spec.rest id side px qty sp) ->
  Rep (rest id side px qty b) (Spec.rest id side px qty sp) /\
  listener_ (rest id side px qty b) = listener_ b.
Proof.
  intros HR Hs Hid Hq Hwf. pose proof (rep_index _ _ HR id Hid) as Hidx.
  set (b' := rest id side px qty b).
  assert (nodes b' = <[next_node b := mkOrder id side px qty]> (nodes b)) as Hn
    by (unfold b', rest; cbn; by autorewrite with refbook).
  assert (index_ b' = <[id := mkHandle side px (next_node b)]> (index_ b)) as Hi
    by (unfold b', rest; cbn; autorewrite with refbook; by rewrite Hidx).
  assert (forall s p a o, so_id o ∈ Spec.ids sp -> node_rep b s p a o -> node_rep b' s p a o)
    as Hfr.
  { intros s p a o Ho [Ha Hx]. unfold node_rep. rewrite Hn, Hi.
    rewrite !lookup_insert_ne; [done| |].
    - intros ->. done.
    - intros <-. apply (rep_fresh _ _ HR) in Ha. lia. }
  assert (forall s e l, valid_side s -> l ∈ Spec.levels s sp ->
            level_rep b s e l -> level_rep b' s e l) as Hlfr.
  { intros s e [p os] Hs' Hl (? & ? & Ho). split_and!; [done..|].
    eapply Forall2_impl_in; [exact Ho|]. intros a o Hin. apply Hfr.
    rewrite (Spec.ids_levels s), elem_of_app. left. apply Spec.elem_of_level_ids.
    exists p, os, o. done. }
  split; [split|].
  - intros s Hs'. destruct (valid_side_cases side s Hs Hs') as [-> | ->].
    + replace (side_map side b') with
        (StdMap.upsert (before side) (mkLevel 0 []) px
           (fun l => mkLevel (u32 (l_total l + qty)) (l_orders l ++ [next_node b]))
           (side_map side b))
        by (unfold b', rest, side_map, set_side_map; by destruct (is_buy side)).
      unfold Spec.rest. autorewrite with spec.
      apply side_rep_upsert.
      * eapply Forall2_impl_in; [by apply HR|]. intros e l Hin. by apply Hlfr.
      * intros lvl os (_ & Ht & Ho). cbn in Ht, Ho. split_and!; cbn; [done|..].
        -- rewrite Ht, sum_by_app. cbn. wrap_eq.
        -- apply Forall2_app; [done|]. constructor; [|done].
           unfold node_rep. rewrite Hn, Hi. cbn. by rewrite !lookup_insert_eq.
    + replace (side_map (opposite side) b') with (side_map (opposite side) b)
        by (unfold b', rest, side_map, set_side_map, opposite; by destruct (is_buy side)).
      unfold Spec.rest. autorewrite with spec.
      eapply Forall2_impl_in; [apply HR; auto with nsq|].
      intros e l Hin. by apply Hlfr.
  - intros i Hi'. rewrite Spec.ids_rest in Hi'. apply not_elem_of_cons in Hi' as [Hne Hni].
    rewrite Hi, lookup_insert_ne by done. by apply HR.
  - intros a o. rewrite Hn, lookup_insert. unfold b', rest. cbn.
    case_decide; [intros; lia|]. intros Ha%(rep_fresh _ _ HR). lia.
  - unfold b', rest. cbn. autorewrite with refbook. unfold Spec.rest.
    autorewrite with spec. apply HR.
  - done.
  - unfold b', rest. cbn. by autorewrite with refbook.
Qed.

(** * Removing and reducing one order *)

Lemma side_rep_find b s m ls px os :
  side_rep b s m ls -> StdMap.find px ls = Some os ->
  exists lvl, StdMap.find px m = Some lvl /\ level_rep b s (px, lvl) (px, os).
Proof.
  induction 1 as [|[px' lvl] [px2 os2] m ls Hl Hr IH]; cbn; [done|].
  pose proof Hl as (Hpx & _). cbn in Hpx. subst px2.
  destruct (Z.eqb_spec px px') as [->|]; [|done]. intros; simplify_eq. eauto.
Qed.

Lemma queue_rep_elem b s px l os o :
  Forall2 (node_rep b s px) l os -> o ∈ os -> exists a, node_rep b s px a o.
Proof.
  induction 1 as [|a o' l os Ha Hr IH]; [by intros ?%elem_of_nil|].
  intros [->|Hin]%elem_of_cons; eauto.
Qed.

(** What the index and the maps hold for a resting order. *)
Lemma locate_rep b sp id s px q :
  Rep b sp -> Spec.find_order id sp = Some (s, px, q) ->
  exists a lvl os,
    valid_side s /\ node_rep b s px a (mkSnapOrder id q) /\
    StdMap.find px (side_map s b) = Some lvl /\
    StdMap.find px (Spec.levels s sp) = Some os /\
    level_rep b s (px, lvl) (px, os) /\ mkSnapOrder id q ∈ os /\
    NoDup (map so_id os).
Proof.
  intros HR Hf. pose proof (rep_wf _ _ HR) as Hwf.
  pose proof (Spec.find_order_side _ _ _ _ _ Hf) as Hs.
  apply Spec.find_order_spec in Hf as (os & Hl & Ho); [|apply Hwf|done].
  pose proof (Spec.level_NoDup _ _ _ (Spec.wf_side_NoDup s sp Hwf) Hl) as Hnd.
  apply Spec.wf_find in Hl; [|done].
  destruct (side_rep_find _ _ _ _ _ _ (rep_side _ _ HR s Hs) Hl) as (lvl & Hm & Hr).
  destruct (queue_rep_elem _ _ _ _ _ _ (proj2 (proj2 Hr)) Ho) as (a & Ha).
  exists a, lvl, os. split_and!; done.
Qed.

(** The store and index change at one order only. *)
Definition only_at (a : Node) (id : OrderId) (b b' : OrderBook) : Prop :=
  (forall a', a' <> a -> nodes b' !! a' = nodes b !! a') /\
  (forall i, i <> id -> index_ b' !! i = index_ b !! i).

Lemma queue_rep_other a id q b b' s px s' px' l os :
  only_at a id b b' -> node_rep b s px a (mkSnapOrder id q) ->
  id ∉ map so_id os -> Forall2 (node_rep b s' px') l os ->
  Forall2 (node_rep b' s' px') l os.
Proof.
  intros [Hn Hi] [Ha _] Hid Hr. eapply Forall2_impl_in; [exact Hr|].
  intros a' o Hin [Ha' Hi'].
  assert (so_id o <> id) by (intros <-; apply Hid, list_elem_of_fmap; eauto).
  split.
  - rewrite Hn; [done|]. intros ->. rewrite Ha in Ha'. by simplify_eq.
  - by rewrite Hi.
Qed.

Lemma queue_rep_erase b b' s px a id q l os :
  only_at a id b b' -> node_rep b s px a (mkSnapOrder id q) ->
  NoDup (map so_id os) -> mkSnapOrder id q ∈ os -> Forall2 (node_rep b s px) l os ->
  exists l', list_erase a l = Some l' /\
    Forall2 (node_rep b' s px) l' (Spec.drop_id id os).
Proof.
  intros Ho Ha Hnd Hin Hr. induction Hr as [|a' o l os Ha' Hr IH]; [by apply elem_of_nil in Hin|].
  cbn [map] in Hnd. apply NoDup_cons in Hnd as [Hni Hnd]. cbn [list_erase].
  rewrite Spec.drop_id_cons. destruct Ha as [Hna Hia], Ha' as [Hna' Hia'].
  destruct (Z.eqb_spec a' a) as [->|Hne].
  - rewrite Hna in Hna'. simplify_eq. cbn in *.
    replace (so_id o =? so_id o) with true by lia.
    rewrite Spec.drop_id_notin by done. exists l. split; [done|].
    eapply queue_rep_other; [exact Ho|by split|done|done].
  - assert (so_id o <> id) as Hoid.
    { intros Heq. cbn in Hia. rewrite Heq, Hia in Hia'. by simplify_eq. }
    apply elem_of_cons in Hin as [<-|Hin]; [done|].
    destruct (IH Hnd Hin) as (l' & Hl' & Hr'). rewrite Hl'. cbn.
    destruct (Z.eqb_spec (so_id o) id); [done|]. eexists. split; [done|].
    constructor; [|done]. destruct Ho as [Hn Hi]. split; [by rewrite Hn|by rewrite Hi].
Qed.

Lemma queue_rep_set_qty b b' s px a id q k l os :
  only_at a id b b' -> node_rep b s px a (mkSnapOrder id q) ->
  node_rep b' s px a (mkSnapOrder id k) ->
  NoDup (map so_id os) -> Forall2 (node_rep b s px) l os ->
  Forall2 (node_rep b' s px) l (Spec.set_qty id k os).
Proof.
  intros [Hn Hi] [Hna Hia] Hk Hnd Hr. induction Hr as [|a' o l os Ha' Hr IH]; [constructor|].
  apply NoDup_cons in Hnd as [Hni Hnd]. constructor; [|by apply IH].
  destruct Ha' as [Hna' Hia']. destruct (Z.eqb_spec (so_id o) id) as [<-|Hne].
  - cbn in Hia. rewrite Hia in Hia'. by simplify_eq.
  - split; [|by rewrite Hi]. rewrite Hn; [done|]. intros ->.
    rewrite Hna in Hna'. by simplify_eq.
Qed.

(** Updating one level of the map is cutting one level of the list. *)
Lemma side_rep_cut b b' s px f m ls lvl' os :
  side_rep b s m ls -> StdMap.sorted (before s) ls ->
  StdMap.find px ls = Some os -> level_rep b' s (px, lvl') (px, f os) ->
  (forall e l, l ∈ ls -> l.1 <> px -> level_rep b s e l -> level_rep b' s e l) ->
  side_rep b' s
    (match l_orders lvl' with
     | [] => StdMap.erase px (StdMap.update px (fun _ => lvl') m)
     | _ => StdMap.update px (fun _ => lvl') m
     end) (Spec.cut px f ls).
Proof.
  intros Hr Hs Hf Hl' Hfr.
  assert (l_orders lvl' = [] <-> f os = []) as Hnil.
  { destruct Hl' as (_ & _ & Ho). cbn in Ho. split; intros Heq; rewrite Heq in Ho;
      [by eapply Forall2_length_nil_l|by eapply Forall2_length_nil_r]. }
  induction Hr as [|[px' lvl] [px2 os2] m ls Hl Hr IH]; [done|].
  pose proof Hl as (Hpx & _). cbn in Hpx. subst px2.
  apply StdMap.sm_sorted_cons in Hs as [Hall Hs].
  cbn [StdMap.find Spec.cut StdMap.update] in *.
  destruct (Z.eqb_spec px px') as [<-|Hne].
  - simplify_eq.
    assert (side_rep b' s m ls) as Hr'.
    { eapply Forall2_impl_in; [exact Hr|]. intros e l Hin. apply Hfr; [set_solver|].
      intros Heq. rewrite Forall_forall in Hall. specialize (Hall _ Hin).
      rewrite Heq, lt_irrefl in Hall. done. }
    destruct (l_orders lvl') eqn:Hlo.
    + cbn. rewrite Z.eqb_refl, (proj1 Hnil eq_refl). done.
    + destruct (f os) eqn:Hfo; [discriminate (proj2 Hnil eq_refl)|].
      by constructor.
  - assert (level_rep b' s (px', lvl) (px', os2)) as Hhd
      by (apply Hfr; [set_solver|done|done]).
    ospecialize (IH Hs Hf _); [intros e l Hin; apply Hfr; set_solver|].
    destruct (l_orders lvl'); cbn [StdMap.erase].
    + destruct (Z.eqb_spec px px'); [done|]. by constructor.
    + by constructor.
Qed.

(** The other levels are untouched when one order changes. *)
Lemma level_rep_other a id q b b' sp s px s' os e l :
  only_at a id b b' -> node_rep b s px a (mkSnapOrder id q) -> Spec.wf sp ->
  (px, os) ∈ Spec.levels s sp -> id ∈ map so_id os ->
  l ∈ Spec.levels s' sp -> (s' = s -> l.1 <> px) -> (s' = s \/ s' = opposite s) ->
  level_rep b s' e l -> level_rep b' s' e l.
Proof.
  destruct l as [px2 os2]. intros Ho Ha Hwf Hin Hid Hl Hne Hs' (He & Ht & Hr).
  split_and!; [done..|]. eapply queue_rep_other; [done..| |done]. cbn in *.
  intros Hid2. destruct Hs' as [-> | ->].
  - destruct (Spec.level_id_unique id px px2 os os2 (Spec.levels s sp)) as [-> _];
      try done; [|by apply Hne]. by apply Spec.wf_side_NoDup.
  - pose proof (Spec.wf_ids _ Hwf) as Hnd. rewrite (Spec.ids_levels s) in Hnd.
    apply NoDup_app in Hnd as (_ & Hd & _).
    assert (forall s px os, (px, os) ∈ Spec.levels s sp -> id ∈ map so_id os ->
              id ∈ Spec.level_ids (Spec.levels s sp)) as Hx.
    { intros s0 p0 o0 H0 (x & Hx & Hx0)%list_elem_of_fmap.
      apply Spec.elem_of_level_ids. by exists p0, o0, x. }
    by eapply Hd; eapply Hx.
Qed.

(** The book after one resting order changed: both sides, index and store. *)
Lemma Rep_cut a id q b b' sp s px lvl' os f :
  Rep b sp -> only_at a id b b' -> node_rep b s px a (mkSnapOrder id q) ->
  valid_side s -> StdMap.find px (Spec.levels s sp) = Some os ->
  mkSnapOrder id q ∈ os -> level_rep b' s (px, lvl') (px, f os) ->
  side_map s b' = match l_orders lvl' with
                  | [] => StdMap.erase px (StdMap.update px (fun _ => lvl') (side_map s b))
                  | _ => StdMap.update px (fun _ => lvl') (side_map s b)
                  end ->
  side_map (opposite s) b' = side_map (opposite s) b ->
  (forall a o, nodes b' !! a = Some o -> a < next_node b') ->
  next_match_id_ b' = next_match_id_ b ->
  (forall i, i ∉ Spec.ids (Spec.set_levels s (Spec.cut px f (Spec.levels s sp)) sp) ->
     index_ b' !! i = None) ->
  Spec.wf (Spec.set_levels s (Spec.cut px f (Spec.levels s sp)) sp) ->
  Rep b' (Spec.set_levels s (Spec.cut px f (Spec.levels s sp)) sp).
Proof.
  intros HR Ho Ha Hs Hf Hin Hl' Hms Hmo Hfr Hmid Hix Hwf'.
  pose proof (rep_wf _ _ HR) as Hwf.
  assert ((px, os) ∈ Spec.levels s sp) as Hel by (by apply Spec.wf_find).
  assert (id ∈ map so_id os) as Hid
    by (apply list_elem_of_fmap; by exists (mkSnapOrder id q)).
  split; try done.
  - intros s' Hs'. destruct (valid_side_cases s s' Hs Hs') as [-> | ->];
      autorewrite with spec.
    + rewrite Hms. eapply side_rep_cut; [by apply HR|apply Hwf|done|done|].
      intros e l Hl Hne. by eapply level_rep_other; eauto.
    + rewrite Hmo. eapply Forall2_impl_in; [apply HR; auto with nsq|].
      intros e l Hl. eapply level_rep_other; eauto.
      intros Heq. by destruct Hs as [-> | ->].
  - autorewrite with spec. rewrite Hmid. apply HR.
Qed.

Lemma list_erase_Some_in a l l' : list_erase a l = Some l' -> a ∈ l.
Proof.
  revert l'. induction l as [|x l IH]; cbn; intros l'; [done|].
  destruct (Z.eqb_spec x a) as [->|]; [set_solver|].
  destruct (list_erase a l); cbn; [|done]. intros; simplify_eq.
  apply elem_of_cons. right. by eapply IH.
Qed.

Lemma remove_refines id s px q b sp :
  Rep b sp -> Spec.find_order id sp = Some (s, px, q) ->
  exists h b', index_ b !! id = Some h /\ h_side h = s /\
    nodes b !! h_it h = Some (mkOrder id s px q) /\
    remove id h b = Some b' /\ Rep b' (Spec.remove s px id sp) /\
    listener_ b' = listener_ b.
Proof.
  intros HR Hf.
  destruct (locate_rep _ _ _ _ _ _ HR Hf) as (a & lvl & os & Hs & Ha & Hm & Hls & Hl & Hin & Hnd).
  pose proof Ha as [Hna Hia]. cbn in Hna, Hia.
  exists (mkHandle s px a). unfold remove. cbn [h_side h_price h_it].
  rewrite Hia, Hna, Hm. cbn [mbind option_bind].
  set (b1 := fun m => let b0 := free_node a (set_side_map s m b) in
                      set_index (delete id (index_ b0)) b0).
  assert (forall m, only_at a id b (b1 m)) as Ho.
  { intros m. split; intros; unfold b1; cbn; autorewrite with refbook;
      by rewrite lookup_delete_ne. }
  assert (forall m, index_ (b1 m) = delete id (index_ b)) as Hib
    by (intros m; cbn; by autorewrite with refbook).
  assert (forall l', Forall2 (node_rep (b1 []) s px) l' (Spec.drop_id id os) ->
            forall m, Forall2 (node_rep (b1 m) s px) l' (Spec.drop_id id os)) as Hany.
  { intros l' Hr m. eapply queue_rep_iff; [| |exact Hr]; unfold b1; cbn;
      by autorewrite with refbook. }
  destruct Hl as (_ & Ht & Hr). cbn in Ht, Hr.
  destruct (queue_rep_erase b (b1 []) s px a id q (l_orders lvl) os) as (l' & He & Hr');
    try done.
  rewrite He. cbn [mbind option_bind o_open]. eexists. split_and!; try done.
  - match goal with
    | |- context [set_side_map s ?m b] => change (Rep (b1 m) (Spec.remove s px id sp))
    end.
    eapply (Rep_cut a id q b); try done.
    + instantiate (1 := mkLevel (u32 (l_total lvl - q)) l'). split_and!; [done| |by apply Hany].
      cbn. rewrite Ht, (Spec.drop_id_sum id q) by done. wrap_eq.
    + cbn. unfold side_map, set_side_map. by destruct Hs as [-> | ->].
    + unfold side_map, set_side_map. by destruct Hs as [-> | ->].
    + intros a' o'. cbn. autorewrite with refbook.
      intros [_ Hx]%lookup_delete_Some. by eapply HR.
    + cbn. by autorewrite with refbook.
    + intros i Hi. rewrite Hib. destruct (decide (i = id)) as [->|Hne]; [apply lookup_delete_eq|].
      rewrite lookup_delete_ne by done. apply HR. intros Hin'. apply Hi.
      by apply Spec.remove_ids_other.
    + apply (Spec.remove_wf s px id). apply HR.
  - cbn. by autorewrite with refbook.
Qed.

(** * The operations *)

Lemma log_emit e b : listener_ (emit e b) = listener_ b ++ [e].
Proof. done. Qed.

(** Listener calls do not touch the book. *)
Lemma Rep_emit e b sp : Rep b sp -> Rep (emit e b) sp.
Proof. intros [Hs Hi Hf Hm Hw]. by split. Qed.

Lemma match_and_rest_refines id side px qty b sp sp' rem evs :
  Rep b sp -> valid_side side -> id ∉ Spec.ids sp -> 0 < px -> fits 32 qty ->
  Spec.enter id side px qty sp = (sp', rem, evs) ->
  exists b', match_and_rest id side px qty b = Some (b', qty - rem, rem) /\
    Rep b' sp' /\ listener_ b' = listener_ b ++ evs.
Proof.
  intros HR Hs Hid Hpx Hq He. pose proof He as He0.
  apply Spec.enter_wf in He0 as [Hwf' Hrem]; [|by apply HR|done..].
  unfold Spec.enter in He.
  destruct (Spec.match_ _ _ _ _ _) as [[sp1 r] ev] eqn:Hm.
  destruct (match_opposite_refines _ _ _ _ _ _ _ _ _ HR Hs Hq Hm) as (b1 & Hmo & HR1 & Hlog).
  apply Spec.match_wf in Hm as (_ & Hr & _ & Hids & _); [|by apply HR|apply Hq].
  unfold match_and_rest. rewrite Hmo. cbn [mbind option_bind].
  replace (qty - (qty - r)) with r by lia.
  rewrite (wrap_small 32 r) by (unfold fits in *; lia).
  destruct (Z.eqb_spec r 0) as [->|Hr0].
  - simplify_eq. exists b1. split_and!; [by rewrite Z.sub_0_r|done|done].
  - replace (0 <? r) with true by lia. simplify_eq.
    destruct (rest_refines id side px rem b1 sp1) as [HR2 Hlog2]; try done.
    { intros Hin. by apply Hid, Hids. }
    { unfold fits in *; lia. }
    eexists. split_and!; [done|by apply Rep_emit|].
    rewrite log_emit, Hlog2, Hlog. by rewrite app_assoc.
Qed.

Lemma index_contains b sp id :
  Rep b sp -> bool_decide (is_Some (index_ b !! id)) = Spec.contains id sp.
Proof.
  intros HR. unfold Spec.contains.
  destruct (Spec.find_order id sp) as [[[s px] q]|] eqn:Hf.
  - destruct (locate_rep _ _ _ _ _ _ HR Hf) as (a & _ & _ & _ & [_ Hi] & _).
    cbn in Hi. by rewrite Hi.
  - rewrite (rep_index _ _ HR); [done|]. by apply Spec.find_order_None.
Qed.

Lemma add_refines id side px qty b sp r sp' evs :
  Rep b sp -> valid_side side -> fits 32 qty ->
  Spec.add id side px qty sp = (r, sp', evs) ->
  exists b', add id side px qty b = Some (r, b') /\ Rep b' sp' /\
    listener_ b' = listener_ b ++ evs.
Proof.
  unfold add, Spec.add. intros HR Hs Hq Ha.
  destruct (Z.leb_spec px 0); [simplify_eq; exists b; by rewrite app_nil_r|].
  destruct (Z.eqb_spec qty 0); [simplify_eq; exists b; by rewrite app_nil_r|].
  pose proof (index_contains b sp id HR) as Hc.
  destruct (index_ b !! id) as [h|] eqn:Hi; cbn in Hc; rewrite <- Hc in Ha.
  - simplify_eq. exists b. by rewrite app_nil_r.
  - destruct (Spec.enter _ _ _ _ _) as [[sp1 rem] ev] eqn:He. simplify_eq.
    assert (id ∉ Spec.ids sp) as Hid by (rewrite <- Spec.contains_spec; congruence).
    assert (0 < px) as Hpx by lia.
    destruct (match_and_rest_refines _ _ _ _ _ _ _ _ _ HR Hs Hid Hpx Hq He)
      as (b' & Hm & HR' & Hlog).
    rewrite Hm. cbn [mbind option_bind]. eauto.
Qed.

Lemma reduce_refines id s px q keep a b sp :
  Rep b sp -> Spec.find_order id sp = Some (s, px, q) ->
  index_ b !! id = Some (mkHandle s px a) -> 0 < keep < q ->
  let b1 := set_node a (mkOrder id s px keep) b in
  exists lvl, StdMap.find px (side_map s b1) = Some lvl /\
    let lvl' := mkLevel (u32 (l_total lvl - u32 (q - keep))) (l_orders lvl) in
    Rep (set_side_map s (StdMap.update px (fun _ => lvl') (side_map s b1)) b1)
      (Spec.reduce s px id keep sp).
Proof.
  intros HR Hf Hia0 Hk b1.
  pose proof (Spec.find_order_qty _ _ _ _ _ (rep_wf _ _ HR) Hf) as [_ Hq].
  destruct (locate_rep _ _ _ _ _ _ HR Hf)
    as (a' & lvl & os & Hs & Ha & Hm & Hls & (_ & Ht & Hr) & Hin & Hnd).
  pose proof Ha as [Hna Hia]. cbn in Hna, Hia, Ht, Hr.
  assert (a' = a) as -> by (rewrite Hia0 in Hia; by simplify_eq).
  exists lvl. split; [unfold b1, side_map in *; by destruct Hs as [-> | ->]|].
  intros lvl'. set (m' := StdMap.update px (fun _ => lvl') (side_map s b1)).
  assert (only_at a id b (set_side_map s m' b1)) as Ho.
  { split; intros; unfold b1; autorewrite with refbook; cbn; [|done].
    by rewrite lookup_insert_ne. }
  eapply (Rep_cut a id q b); try done.
  - instantiate (1 := lvl'). split_and!; [done|..].
    + cbn. rewrite Ht, (Spec.set_qty_sum id q keep) by done. wrap_eq.
    + apply (queue_rep_set_qty b _ s px a id q); try done.
      split; autorewrite with refbook; cbn; [by rewrite lookup_insert_eq|done].
  - autorewrite with refbook.
    destruct (l_orders lvl') as [|] eqn:Hlo; [exfalso|by unfold m', b1, side_map; cbn; destruct (is_buy s)].
    cbn in Hlo. rewrite Hlo in Hr. apply Forall2_length_nil_l in Hr as ->.
    by apply elem_of_nil in Hin.
  - unfold side_map, set_side_map. by destruct Hs as [-> | ->].
  - intros x o'. autorewrite with refbook. unfold b1. cbn.
    rewrite lookup_insert. case_decide; [intros _; subst|]; eapply HR; eauto.
  - by autorewrite with refbook.
  - intros i Hi. autorewrite with refbook. unfold b1. cbn. apply HR. intros Hin'. apply Hi.
    rewrite (Spec.ids_levels s) in Hin' |- *. autorewrite with spec.
    rewrite elem_of_app in *. destruct Hin' as [Hin'|]; [left|by right].
    by rewrite Spec.cut_ids_eq by apply Spec.set_qty_ids.
  - apply Spec.reduce_wf; [apply HR|lia].
Qed.

Lemma cancel_refines id keep b sp r sp' evs :
  Rep b sp -> fits 32 keep -> Spec.cancel id keep sp = (r, sp', evs) ->
  exists b', cancel id keep b = Some (r, b') /\ Rep b' sp' /\
    listener_ b' = listener_ b ++ evs.
Proof.
  unfold cancel, Spec.cancel, fits. intros HR Hk Hc.
  destruct (Spec.find_order id sp) as [[[s px] q]|] eqn:Hf.
  - destruct (remove_refines _ _ _ _ _ _ HR Hf) as (h & b1 & Hi & Hs & Hn & Hrm & HR1 & Hlog).
    destruct (locate_rep _ _ _ _ _ _ HR Hf) as (a & _ & _ & _ & [_ Hia] & _).
    pose proof (Spec.find_order_qty _ _ _ _ _ (rep_wf _ _ HR) Hf) as [_ Hq].
    cbn in Hia. rewrite Hia in Hi. injection Hi as <-. cbn [h_it h_side h_price] in *.
    rewrite Hia. cbn [h_it h_side h_price]. rewrite Hn. cbn [mbind option_bind o_open].
    destruct (Z.leb_spec q keep); [simplify_eq; exists b; by rewrite app_nil_r|].
    destruct (Z.eqb_spec keep 0).
    + rewrite Hrm. cbn [mbind option_bind]. simplify_eq.
      eexists. split_and!; [done|by apply Rep_emit|]. by rewrite log_emit, Hlog.
    + assert (0 < keep < q) as Hkq by lia.
      destruct (reduce_refines _ _ _ _ keep _ _ _ HR Hf Hia Hkq) as (lvl & Hfl & HR2).
      change (set_open keep (mkOrder id s px q)) with (mkOrder id s px keep).
      rewrite Hfl. cbn [mbind option_bind]. simplify_eq.
      eexists. split_and!; [done|by apply Rep_emit|]. cbn. autorewrite with refbook. cbn.
      by rewrite wrap_small by (unfold fits; lia).
  - rewrite (rep_index _ _ HR) by (by apply Spec.find_order_None).
    simplify_eq. exists b. by rewrite app_nil_r.
Qed.

Lemma best_rep b sp s :
  Rep b sp -> valid_side s ->
  fst <$> head (side_map s b) = Spec.best s sp.
Proof.
  intros HR Hs. unfold Spec.best. destruct (rep_side _ _ HR s Hs) as [|[p l] [p' os] m ls Hl _];
    [done|]. destruct Hl as (Hp & _). cbn in *. by subst.
Qed.

Lemma would_cross_refines side px b sp :
  Rep b sp -> valid_side side -> would_cross side px b = Spec.would_cross side px sp.
Proof.
  intros HR Hs. unfold Spec.would_cross.
  rewrite <- (best_rep b sp (opposite side)) by auto with nsq.
  unfold would_cross, side_map, opposite, crosses.
  destruct Hs as [-> | ->]; cbn; [destruct (asks_ b) as [|[]]|destruct (bids_ b) as [|[]]]; done.
Qed.

Lemma replace_refines old new px qty b sp r sp' evs :
  Rep b sp -> fits 32 qty -> Spec.replace old new px qty sp = (r, sp', evs) ->
  exists b', replace old new px qty b = Some (r, b') /\ Rep b' sp' /\
    listener_ b' = listener_ b ++ evs.
Proof.
  unfold replace, Spec.replace. intros HR Hq Hr.
  destruct (Spec.find_order old sp) as [[[s opx] oq]|] eqn:Hf.
  2:{ rewrite (rep_index _ _ HR) by (by apply Spec.find_order_None).
      simplify_eq. exists b. by rewrite app_nil_r. }
  destruct (remove_refines _ _ _ _ _ _ HR Hf) as (h & b1 & Hi & Hs & Hn & Hrm & HR1 & Hlog).
  pose proof (Spec.find_order_side _ _ _ _ _ Hf) as Hvs.
  rewrite Hi, (index_contains b sp new HR).
  destruct ((new =? old) || Spec.contains new sp) eqn:Hnew;
    [simplify_eq; exists b; by rewrite app_nil_r|].
  destruct ((px <=? 0) || (qty =? 0)) eqn:Hv;
    [simplify_eq; exists b; by rewrite app_nil_r|].
  rewrite Hn, Hrm. cbn [mbind option_bind o_open]. rewrite Hs.
  rewrite (would_cross_refines s px b1 _ HR1 Hvs).
  assert (new ∉ Spec.ids (Spec.remove s opx old sp)) as Hni.
  { intros Hin%Spec.remove_ids%Spec.contains_spec. by rewrite Hin, orb_true_r in Hnew. }
  assert (0 < px) as Hpx by lia.
  destruct (Spec.would_cross s px _) eqn:Hw.
  - destruct (Spec.enter _ _ _ _ _) as [[sp2 rem] ev] eqn:He. simplify_eq.
    destruct (match_and_rest_refines _ _ _ _ _ _ _ _ _ (Rep_emit
                (on_canceled (mkCanceled old oq true)) _ _ HR1) Hvs Hni Hpx Hq He)
      as (b' & Hm & HR' & Hlog').
    rewrite Hm. cbn [mbind option_bind]. eexists. split_and!; [done|done|].
    rewrite Hlog', log_emit, Hlog, <- app_assoc. done.
  - simplify_eq. destruct (rest_refines new (h_side h) px qty b1 _ HR1 Hvs Hni Hq) as [HR2 Hlog2].
    { apply Spec.rest_wf; [apply HR1|done|lia|unfold fits in Hq; lia|].
      intros p. apply Spec.would_cross_false; [apply HR1|done]. }
    eexists. split_and!; [done|by apply Rep_emit|]. by rewrite log_emit, Hlog2, Hlog.
Qed.

(** * Observations *)

Lemma snapshot_level_refines b s e l :
  level_rep b s e l -> snapshot_level b e = Some (mkSnapLevel l.1 l.2).
Proof.
  destruct e as [p lvl], l as [p' os]. intros (Hp & _ & Hr). cbn in *. subst p'.
  unfold snapshot_level. cbn.
  enough (mapM (fun a => o ← nodes b !! a; Some (mkSnapOrder (o_id o) (o_open o)))
            (l_orders lvl) = Some os) as -> by done.
  induction Hr as [|a [i q] l os [Ha _] Hr IH]; [done|]. cbn in *. by rewrite Ha, IH.
Qed.

Lemma snapshot_refines b sp : Rep b sp -> snapshot b = Some (Spec.to_snapshot sp).
Proof.
  intros HR.
  assert (forall s m ls, side_rep b s m ls ->
            mapM (snapshot_level b) m = Some (map (fun p => mkSnapLevel p.1 p.2) ls)) as H.
  { intros s m ls Hr. induction Hr as [|e l m ls Hl Hr IH]; [done|]. cbn.
    rewrite (snapshot_level_refines _ _ _ _ Hl), IH. done. }
  unfold snapshot. pose proof (rep_side _ _ HR Buy (or_introl eq_refl)) as Hb.
  pose proof (rep_side _ _ HR Sell (or_intror eq_refl)) as Ha. cbn in Hb, Ha.
  by rewrite (H _ _ _ Hb), (H _ _ _ Ha).
Qed.

Lemma check_orders_ok b s px l os sum count :
  Forall2 (node_rep b s px) l os -> Forall Spec.pos_qty os -> fits 32 sum ->
  check_orders b s px l sum count =
    Ok (u32 (sum + sum_by so_qty os), count + Z.of_nat (length os)).
Proof.
  intros Hr. revert sum count. induction Hr as [|a o l os [Ha Hi] Hr IH];
    intros sum count Hp Hs; cbn.
  - by rewrite !Z.add_0_r, wrap_small.
  - inversion_clear Hp as [|? ? Ho Hp']. unfold Spec.pos_qty in Ho.
    rewrite Ha. cbn. rewrite Hi. cbn.
    replace (so_qty o =? 0) with false by lia. rewrite !Z.eqb_refl.
    rewrite bool_decide_eq_false_2 by tauto. cbn.
    rewrite IH by (done || (apply wrap_fits; lia)). do 2 f_equal; [wrap_eq|lia].
Qed.

Lemma check_side_ok b s m ls count :
  side_rep b s m ls -> Spec.levels_ok s ls ->
  check_side b s m count = Ok (count + Z.of_nat (length (Spec.level_ids ls))).
Proof.
  intros Hr. revert count. induction Hr as [|[p lvl] [p' os] m ls Hl Hr IH];
    intros count Hok; cbn [check_side].
  - cbn. f_equal. lia.
  - destruct Hl as (Hp & Ht & Ho). cbn in Hp, Ht, Ho. subst p'.
    apply Spec.levels_ok_cons in Hok as (_ & _ & [Hne Hpos] & Hok).
    rewrite Spec.level_ids_cons, length_app, length_map.
    rewrite bool_decide_eq_false_2
      by (intros Heq; rewrite Heq in Ho; by apply Forall2_length_nil_l in Ho).
    cbn. rewrite (check_orders_ok _ _ _ _ os) by (done || by split). cbn.
    rewrite Ht, Z.eqb_refl. cbn. rewrite IH by done. f_equal. lia.
Qed.

Lemma index_size b sp : Rep b sp -> size (index_ b) = length (Spec.ids sp).
Proof.
  intros HR. rewrite <- size_dom.
  replace (dom (index_ b)) with (list_to_set (Spec.ids sp) : gset OrderId).
  - apply size_list_to_set, HR.
  - apply set_eq. intros id. rewrite elem_of_list_to_set, elem_of_dom.
    by rewrite <- Spec.contains_spec, <- (index_contains b sp id HR), bool_decide_eq_true.
Qed.

Lemma check_invariants_ok b sp : Rep b sp -> check_invariants b = Ok tt.
Proof.
  intros HR. pose proof (rep_wf _ _ HR) as Hwf. unfold check_invariants.
  pose proof (rep_side _ _ HR Buy (or_introl eq_refl)) as Hb.
  pose proof (rep_side _ _ HR Sell (or_intror eq_refl)) as Ha. cbn in Hb, Ha.
  rewrite (check_side_ok _ _ _ _ _ Hb (Spec.wf_levels _ Hwf Buy)). cbn.
  rewrite (check_side_ok _ _ _ _ _ Ha (Spec.wf_levels _ Hwf Sell)). cbn.
  rewrite (index_size _ _ HR). unfold Spec.ids.
  rewrite length_app, Nat2Z.inj_add, Z.eqb_refl. cbn.
  pose proof (Spec.wf_uncrossed _ Hwf) as Hun. unfold Spec.best in Hun. cbn in Hun.
  destruct Hb as [|[pb lb] [pb' ob] mb lsb (Hpb & _) _]; [done|].
  destruct Ha as [|[pa la] [pa' oa] ma lsa (Hpa & _) _]; [done|].
  cbn in *. subst. specialize (Hun _ _ eq_refl eq_refl).
  unfold fail_if. by replace (pa' <=? pb') with false by lia.
Qed.

Lemma empty_rep : Rep empty Spec.empty.
Proof.
  split; try done.
  - intros s [-> | ->]; constructor.
  - apply Spec.empty_wf.
Qed.

Lemma step_refines op b sp r sp' evs :
  Rep b sp -> op_ok op -> Spec.step op sp = (r, sp', evs) ->
  exists b', step op b = Some (r, b') /\ Rep b' sp' /\ listener_ b' = listener_ b ++ evs.
Proof.
  intros HR Hok Hs. destruct op as [id side px qty|id keep|old new px qty]; cbn in *.
  - destruct Hok as [Hside Hq].
    destruct (Spec.add id side px qty sp) as [[r1 sp1] ev] eqn:Ha. simplify_eq.
    destruct (add_refines _ _ _ _ _ _ _ _ _ HR Hside Hq Ha) as (b' & -> & ? & ?). eauto.
  - destruct (Spec.cancel id keep sp) as [[r1 sp1] ev] eqn:Ha. simplify_eq.
    destruct (cancel_refines _ _ _ _ _ _ _ HR Hok Ha) as (b' & -> & ? & ?). eauto.
  - destruct (Spec.replace old new px qty sp) as [[r1 sp1] ev] eqn:Ha. simplify_eq.
    destruct (replace_refines _ _ _ _ _ _ _ _ _ HR Hok Ha) as (b' & -> & ? & ?). eauto.
Qed.

(** * The reference book implements the interface *)

#[export] Instance OrderBook_matching : MatchingBook OrderBook := {
  mb_empty := empty; mb_step := step; mb_snapshot := snapshot; mb_log := listener_ }.

(** Its nodes are heap-allocated: the book sets no limit of its own. *)
#[export] Program Instance OrderBook_refines : RefinesSpec OrderBook := {
  mb_rep := Rep; mb_accepts := op_ok; mb_capacity := None }.
Next Obligation. apply empty_rep. Qed.
Next Obligation. done. Qed.
Next Obligation. intros b sp HR. apply HR. Qed.
Next Obligation. intros op b sp r sp' evs HR Hok _ Hs. by eapply step_refines. Qed.
Next Obligation. apply snapshot_refines. Qed.
