(* ===== verification/OrderIndex.v ===== *)
(** What the fast book asks of its order-id index: the operations of a map
    from order ids to arena slots, and the laws that make them one. The fast
    book is written and proved against this interface; the hash table of
    [book/flat_map.hpp] is shown to satisfy it. *)

From S2P Require Import Prelude BookTypes.

Class OrderIndex (M : Type) := {
  oi_find : OrderId -> M -> option (option Z);
  oi_insert : OrderId -> Z -> M -> option M;
  oi_erase : OrderId -> M -> option (bool * M);
  oi_size : M -> Z }.

(** [oi_model] is the finite map an index stands for. The outer [option] of an
    operation is its termination: the laws say that it always returns. *)
Class OrderIndexLaws (M : Type) `{OrderIndex M} := {
  oi_ok : M -> Prop;
  oi_model : M -> gmap OrderId Z;
  oi_find_spec : forall m k, oi_ok m -> oi_find k m = Some (oi_model m !! k);
  oi_insert_spec : forall m k v, oi_ok m ->
    exists m', oi_insert k v m = Some m' /\ oi_ok m' /\
      oi_model m' = <[k := v]> (oi_model m);
  oi_erase_spec : forall m k, oi_ok m ->
    exists m', oi_erase k m = Some (bool_decide (is_Some (oi_model m !! k)), m') /\
      oi_ok m' /\ oi_model m' = delete k (oi_model m);
  oi_size_spec : forall m, oi_ok m -> oi_size m = Z.of_nat (size (oi_model m)) }.
