(* ===== verification/HashIndex.v ===== *)
(** The open-addressing hash map of [book/flat_map.hpp], class [FlatMap]:
    linear probing, Fibonacci hashing, backward-shift deletion, doubling
    growth. The template is modelled at its one instantiation in the program,
    [FlatMap<OrderId, std::uint32_t>]. The loops [for (;;)] of the code carry a fuel argument; a result
    of [None] is a probe that never stops. Under the load invariant every loop
    stops within one round of the table, which is the fuel given. *)

From S2P Require Import Prelude BookTypes OrderIndex.

Module FlatMap.

Record Slot := mkSlot { s_key : Z; s_val : Z; s_used : bool }.

(** [Slot{}]. *)
Definition empty_slot : Slot := mkSlot 0 0 false.

Record FlatMap := mkMap { slots_ : list Slot; size_ : Z }.

(** The constructor's [while (cap * 7 < expected * 10) cap <<= 1], on
    [std::size_t]. *)
Fixpoint fit_capacity (fuel : nat) (cap expected : Z) : option Z :=
  match fuel with
  | O => None
  | S n =>
      if u64 (cap * 7) <? u64 (expected * 10)
      then fit_capacity n (u64 (Z.shiftl cap 1)) expected
      else Some cap
  end.

Definition make (expected : Z) : option FlatMap :=
  cap ← fit_capacity 64 16 expected;
  Some (mkMap (replicate (Z.to_nat cap) empty_slot) 0).

Definition mask (slots : list Slot) : Z := lengthZ slots - 1.

Definition next (slots : list Slot) (i : Z) : Z := Z.land (i + 1) (mask slots).

Definition ideal (slots : list Slot) (key : Z) : Z :=
  Z.land (Z.shiftr (u64 (u64 key * 11400714819323198485)) 32) (mask slots).

(** [find_slot]: [Some None] is [kNpos]. *)
Fixpoint find_from (fuel : nat) (slots : list Slot) (key i : Z)
    : option (option Z) :=
  match fuel with
  | O => None
  | S n =>
      s ← slots !z! i;
      if negb (s_used s) then Some None
      else if s_key s =? key then Some (Some i)
      else find_from n slots key (next slots i)
  end.

Definition find_slot (key : Z) (m : FlatMap) : option (option Z) :=
  find_from (length (slots_ m)) (slots_ m) key (ideal (slots_ m) key).

Definition contains (key : Z) (m : FlatMap) : option bool :=
  r ← find_slot key m; Some (match r with Some _ => true | None => false end).

Definition find (key : Z) (m : FlatMap) : option (option Z) :=
  r ← find_slot key m;
  match r with
  | None => Some None
  | Some i => s ← slots_ m !z! i; Some (Some (s_val s))
  end.

(** The probe loop of [insert]. *)
Fixpoint insert_from (fuel : nat) (m : FlatMap) (key : Z) (val : Z) (i : Z)
    : option FlatMap :=
  match fuel with
  | O => None
  | S n =>
      s ← slots_ m !z! i;
      if negb (s_used s) then
        Some (mkMap (<z[i := mkSlot key val true]> (slots_ m)) (size_ m + 1))
      else if s_key s =? key then
        Some (mkMap (<z[i := mkSlot (s_key s) val (s_used s)]> (slots_ m)) (size_ m))
      else insert_from n m key val (next (slots_ m) i)
  end.

(** [grow], given the [insert] it calls for each used slot. *)
Definition grow (ins : Z -> Z -> FlatMap -> option FlatMap) (m : FlatMap)
    : option FlatMap :=
  let old := slots_ m in
  let fresh := mkMap (replicate (length old * 2) empty_slot) 0 in
  foldl (fun om s => m' ← om;
                     if s_used s then ins (s_key s) (s_val s) m' else Some m')
    (Some fresh) old.

(** [insert] and [grow] call each other; [depth] bounds that nesting. A vector
    of slots has fewer than 2^59 elements ([max_size]), so neither product of
    the load test wraps. *)
Fixpoint insert_rec (depth : nat) (key : Z) (val : Z) (m : FlatMap)
    : option FlatMap :=
  match depth with
  | O => None
  | S d =>
      m' ← (if lengthZ (slots_ m) * 7 <? (size_ m + 1) * 10
            then grow (insert_rec d) m else Some m);
      insert_from (length (slots_ m')) m' key val (ideal (slots_ m') key)
  end.

(** The insertions made by [grow] go to a table of twice the size and never
    grow it again, so a depth of two is enough. *)
Definition insert (key : Z) (val : Z) (m : FlatMap) : option FlatMap :=
  insert_rec 2 key val m.

(** May the entry at [j], whose home is [home], move into [hole]? *)
Definition movable (hole j home : Z) : bool :=
  if hole <=? j then (home <=? hole) || (j <? home)
  else (home <=? hole) && (j <? home).

(** The backward-shift loop of [erase]. *)
Fixpoint shift_back (fuel : nat) (slots : list Slot) (hole j : Z)
    : option (list Slot * Z) :=
  match fuel with
  | O => None
  | S n =>
      let j' := next slots j in
      s ← slots !z! j';
      if negb (s_used s) then Some (slots, hole)
      else
        let home := ideal slots (s_key s) in
        if movable hole j' home
        then shift_back n (<z[hole := s]> slots) j' j'
        else shift_back n slots hole j'
  end.

Definition erase (key : Z) (m : FlatMap) : option (bool * FlatMap) :=
  r ← find_slot key m;
  match r with
  | None => Some (false, m)
  | Some i =>
      '(slots, hole) ← shift_back (length (slots_ m)) (slots_ m) i i;
      s ← slots !z! hole;
      Some (true, mkMap (<z[hole := mkSlot (s_key s) (s_val s) false]> slots)
                    (size_ m - 1))
  end.

(** [for_each]: the calls made on the functor. *)
Definition for_each (m : FlatMap) : list (Z * Z) :=
  omap (fun s => if s_used s then Some (s_key s, s_val s) else None) (slots_ m).
End FlatMap.
