(* ===== verification/HashIndexRefines.v ===== *)
(** The hash table is a map: its loops stop, lookups find exactly the stored
    entries, insertion and backward-shift deletion change exactly one of them,
    and growth changes none. *)

From S2P Require Import Prelude BookTypes OrderIndex HashIndex.

Import FlatMap.

(** * The circle of slots *)

(** Steps from [a] to [b] going up and around a table of [cap] slots. *)
Definition dist (cap a b : Z) : Z := if a <=? b then b - a else b - a + cap.

Ltac circ :=
  unfold dist in *;
  repeat match goal with
  | H : context [?a <=? ?b] |- _ => destruct (Z.leb_spec a b)
  | |- context [?a <=? ?b] => destruct (Z.leb_spec a b)
  end; try lia.

Definition pow2 (slots : list Slot) : Prop :=
  exists k, 0 <= k /\ lengthZ slots = 2 ^ k.

Lemma pow2_length slots slots' : lengthZ slots = lengthZ slots' -> pow2 slots -> pow2 slots'.
Proof. intros Heq (k & ? & ?). exists k. by rewrite <- Heq. Qed.

Lemma land_mask slots x : pow2 slots -> 0 <= x -> Z.land x (mask slots) = x mod lengthZ slots.
Proof.
  intros (k & Hk & Hl) Hx. unfold mask. rewrite Hl.
  change (2 ^ k - 1) with (Z.pred (2 ^ k)).
  rewrite <- Z.ones_equiv, Z.land_ones by done. done.
Qed.

Lemma pow2_pos slots : pow2 slots -> 0 < lengthZ slots.
Proof. intros (k & Hk & ->). apply Z.pow_pos_nonneg; lia. Qed.

Lemma next_spec slots i :
  pow2 slots -> 0 <= i < lengthZ slots ->
  next slots i = if i + 1 =? lengthZ slots then 0 else i + 1.
Proof.
  intros Hp Hi. unfold next. rewrite land_mask by (done || lia).
  destruct (Z.eqb_spec (i + 1) (lengthZ slots)) as [->|].
  - apply Z.mod_same. lia.
  - apply Z.mod_small. lia.
Qed.

Lemma ideal_range slots k : pow2 slots -> 0 <= ideal slots k < lengthZ slots.
Proof.
  intros Hp. pose proof (pow2_pos _ Hp). unfold ideal.
  rewrite land_mask; [apply Z.mod_pos_bound; lia|done|].
  apply Z.shiftr_nonneg, wrap_fits. lia.
Qed.

Lemma ideal_length slots slots' k :
  lengthZ slots = lengthZ slots' -> ideal slots k = ideal slots' k.
Proof. unfold ideal, mask. by intros ->. Qed.

Lemma next_length slots slots' i :
  lengthZ slots = lengthZ slots' -> next slots i = next slots' i.
Proof. unfold next, mask. by intros ->. Qed.

Lemma next_range slots i :
  pow2 slots -> 0 <= i < lengthZ slots -> 0 <= next slots i < lengthZ slots.
Proof. intros Hp Hi. rewrite next_spec by done. case_match; lia. Qed.

Lemma dist_next slots i j :
  pow2 slots -> 0 <= i < lengthZ slots -> 0 <= j < lengthZ slots -> i <> j ->
  dist (lengthZ slots) (next slots i) j = dist (lengthZ slots) i j - 1.
Proof.
  intros Hp Hi Hj Hne. rewrite next_spec by done.
  destruct (Z.eqb_spec (i + 1) (lengthZ slots)); circ.
Qed.

(** * The invariant *)

Definition entry (slots : list Slot) (i k v : Z) : Prop :=
  slots !z! i = Some (mkSlot k v true).

Definition used_at (slots : list Slot) (i : Z) : Prop :=
  exists s, slots !z! i = Some s /\ s_used s = true.

(** No slot between an entry's home and the entry is empty; keys are unique. *)
Record table_ok (slots : list Slot) : Prop := mkTableOk {
  tb_pow : pow2 slots;
  tb_chain : forall i k v j, entry slots i k v -> 0 <= j < lengthZ slots ->
    dist (lengthZ slots) (ideal slots k) j < dist (lengthZ slots) (ideal slots k) i ->
    used_at slots j;
  tb_unique : forall i j k v w, entry slots i k v -> entry slots j k w -> i = j }.

Definition used_count (slots : list Slot) : Z := sum_by (fun s => Z.b2z (s_used s)) slots.

Record Inv (m : FlatMap) : Prop := mkInv {
  inv_table : table_ok (slots_ m);
  inv_size : size_ m = used_count (slots_ m);
  inv_load : size_ m * 10 <= lengthZ (slots_ m) * 7;
  inv_min : 16 <= lengthZ (slots_ m) }.

Lemma entry_used slots i k v : entry slots i k v -> used_at slots i.
Proof. intros H. by exists (mkSlot k v true). Qed.

Lemma used_entry slots i : used_at slots i -> exists k v, entry slots i k v.
Proof. intros ([k v u] & H & Hu). cbn in Hu. subst. by exists k, v. Qed.

Lemma entry_range slots i k v : entry slots i k v -> 0 <= i < lengthZ slots.
Proof. apply lookupZ_Some_bounds. Qed.

Lemma used_count_nonneg slots : 0 <= used_count slots.
Proof.
  apply sum_by_nonneg. rewrite Forall_forall. intros s _. by destruct (s_used s).
Qed.

Lemma exists_unused slots :
  used_count slots < lengthZ slots ->
  exists u s, slots !z! u = Some s /\ s_used s = false.
Proof.
  unfold used_count, lengthZ. induction slots as [|s l IH]; cbn; intros Hlt; [lia|].
  destruct (s_used s) eqn:Hu; cbn in *.
  - destruct IH as (u & t & Ht & Hf); [lia|]. exists (u + 1), t. split; [|done].
    pose proof (lookupZ_Some_bounds _ _ _ Ht). unfold lookupZ in *.
    replace (0 <=? u + 1) with true by lia. replace (0 <=? u) with true in Ht by lia.
    by replace (Z.to_nat (u + 1)) with (S (Z.to_nat u)) by lia.
  - by exists 0, s.
Qed.

Lemma load_unused m : Inv m -> exists u s, slots_ m !z! u = Some s /\ s_used s = false.
Proof. intros [_ Hs Hl Hm]. apply exists_unused. lia. Qed.

(** * Lookup *)

Lemma find_from_found fuel slots k v i i0 :
  pow2 slots -> entry slots i k v -> 0 <= i0 < lengthZ slots ->
  (forall j, 0 <= j < lengthZ slots ->
     dist (lengthZ slots) i0 j < dist (lengthZ slots) i0 i ->
     used_at slots j /\ forall w, ~ entry slots j k w) ->
  dist (lengthZ slots) i0 i < Z.of_nat fuel ->
  find_from fuel slots k i0 = Some (Some i).
Proof.
  intros Hp He. pose proof (entry_range _ _ _ _ He) as Hi.
  revert i0. induction fuel as [|fuel IH]; intros i0 Hi0 Hpath Hd; [circ|].
  cbn. destruct (decide (i0 = i)) as [->|Hne].
  - unfold entry in He. rewrite He. cbn. by rewrite Z.eqb_refl.
  - destruct (Hpath i0) as [([k' v' u] & Hs & Hu) Hno]; [done|circ|]. cbn in Hu. subst u.
    rewrite Hs. cbn. destruct (Z.eqb_spec k' k) as [->|]; [by edestruct Hno|].
    pose proof (dist_next _ _ _ Hp Hi0 Hi Hne) as Hdn.
    apply IH; [by apply next_range| |lia].
    intros j Hj Hlt. apply Hpath; [done|].
    destruct (decide (i0 = j)) as [->|Hnj]; [circ|].
    pose proof (dist_next _ _ _ Hp Hi0 Hj Hnj). lia.
Qed.

Lemma find_from_absent fuel slots k i0 u s :
  pow2 slots -> (forall j v, ~ entry slots j k v) -> 0 <= i0 < lengthZ slots ->
  slots !z! u = Some s -> s_used s = false ->
  dist (lengthZ slots) i0 u < Z.of_nat fuel ->
  find_from fuel slots k i0 = Some None.
Proof.
  intros Hp Hno Hi0 Hu Hus. pose proof (lookupZ_Some_bounds _ _ _ Hu) as Hur.
  revert i0 Hi0. induction fuel as [|fuel IH]; intros i0 Hi0 Hd; [circ|].
  cbn. destruct (lookupZ_is_Some _ _ Hi0) as [[k' v' [|]] Hs]; rewrite Hs; cbn; [|done].
  destruct (Z.eqb_spec k' k) as [->|]; [by edestruct Hno|].
  assert (i0 <> u) as Hne by (intros ->; rewrite Hs in Hu; by simplify_eq).
  pose proof (dist_next _ _ _ Hp Hi0 Hur Hne).
  apply IH; [by apply next_range|lia].
Qed.

Lemma dist_lt (slots : list Slot) i j :
  0 <= i < lengthZ slots -> 0 <= j < lengthZ slots ->
  dist (lengthZ slots) i j < Z.of_nat (length slots).
Proof. unfold lengthZ. intros. circ. Qed.

(** Along the path from its home to an entry there are other keys only. *)
Lemma path_other slots i k v j :
  table_ok slots -> entry slots i k v -> 0 <= j < lengthZ slots ->
  dist (lengthZ slots) (ideal slots k) j < dist (lengthZ slots) (ideal slots k) i ->
  used_at slots j /\ forall w, ~ entry slots j k w.
Proof.
  intros Ht He Hj Hd. split; [by eapply tb_chain|]. intros w Hw.
  rewrite (tb_unique _ Ht _ _ _ _ _ Hw He) in Hd. lia.
Qed.

Lemma find_slot_found m i k v :
  Inv m -> entry (slots_ m) i k v -> find_slot k m = Some (Some i).
Proof.
  intros HI He. pose proof (inv_table _ HI) as Ht. pose proof (tb_pow _ Ht) as Hp.
  eapply find_from_found; [done|done|by apply ideal_range|..].
  - intros j Hj Hd. by eapply path_other.
  - apply dist_lt; [by apply ideal_range|by eapply entry_range].
Qed.

Lemma find_slot_absent m k :
  Inv m -> (forall i v, ~ entry (slots_ m) i k v) -> find_slot k m = Some None.
Proof.
  intros HI Hno. pose proof (tb_pow _ (inv_table _ HI)) as Hp.
  destruct (load_unused _ HI) as (u & s & Hu & Hus).
  eapply find_from_absent; [done|done|by apply ideal_range|done|done|].
  apply dist_lt; [by apply ideal_range|by eapply lookupZ_Some_bounds].
Qed.

Lemma entry_dec slots k : (exists i v, entry slots i k v) \/ (forall i v, ~ entry slots i k v).
Proof.
  destruct (decide (Exists (fun s => s_used s = true /\ s_key s = k) slots)) as [H|H].
  - left. apply Exists_exists in H as ([k' v u] & Hs & Hu & Hk). cbn in *. subst.
    apply elem_of_lookupZ in Hs as [i Hi]. by exists i, v.
  - right. intros i v He. apply H, Exists_exists. exists (mkSlot k v true).
    split; [|done]. apply elem_of_lookupZ. by exists i.
Qed.

(** * What changing one slot does *)

Section change.
Context (slots : list Slot) (i : Z) (t : Slot).
Hypothesis (Hi : 0 <= i < lengthZ slots).

Lemma used_insertZ j : s_used t = true ->
  used_at (<z[i := t]> slots) j <-> j = i \/ used_at slots j.
Proof.
  intros Ht. unfold used_at. rewrite lookupZ_insertZ by done.
  destruct (Z.eqb_spec i j); naive_solver.
Qed.

Lemma entry_insertZ j k v :
  entry (<z[i := t]> slots) j k v <->
  (i = j /\ t = mkSlot k v true) \/ (i <> j /\ entry slots j k v).
Proof.
  unfold entry. rewrite lookupZ_insertZ by done.
  destruct (Z.eqb_spec i j); naive_solver.
Qed.

Lemma used_count_insertZ s : slots !z! i = Some s ->
  used_count (<z[i := t]> slots)
    = used_count slots - Z.b2z (s_used s) + Z.b2z (s_used t).
Proof. intros Hs. unfold used_count. by rewrite (sum_by_insertZ _ _ _ s). Qed.
End change.

(** * Insertion *)

Lemma insert_from_found fuel m k v w i i0 :
  pow2 (slots_ m) -> entry (slots_ m) i k w -> 0 <= i0 < lengthZ (slots_ m) ->
  (forall j, 0 <= j < lengthZ (slots_ m) ->
     dist (lengthZ (slots_ m)) i0 j < dist (lengthZ (slots_ m)) i0 i ->
     used_at (slots_ m) j /\ forall w, ~ entry (slots_ m) j k w) ->
  dist (lengthZ (slots_ m)) i0 i < Z.of_nat fuel ->
  insert_from fuel m k v i0 = Some (mkMap (<z[i := mkSlot k v true]> (slots_ m)) (size_ m)).
Proof.
  intros Hp He. pose proof (entry_range _ _ _ _ He) as Hi.
  revert i0. induction fuel as [|fuel IH]; intros i0 Hi0 Hpath Hd; [circ|].
  cbn. destruct (decide (i0 = i)) as [->|Hne].
  - unfold entry in He. rewrite He. cbn. by rewrite Z.eqb_refl.
  - destruct (Hpath i0) as [([k' v' u] & Hs & Hu) Hno]; [done|circ|]. cbn in Hu. subst u.
    rewrite Hs. cbn. destruct (Z.eqb_spec k' k) as [->|]; [by edestruct Hno|].
    pose proof (dist_next _ _ _ Hp Hi0 Hi Hne) as Hdn.
    apply IH; [by apply next_range| |lia].
    intros j Hj Hlt. apply Hpath; [done|].
    destruct (decide (i0 = j)) as [->|Hnj]; [circ|].
    pose proof (dist_next _ _ _ Hp Hi0 Hj Hnj). lia.
Qed.

Lemma insert_from_absent fuel m k v i0 u s :
  pow2 (slots_ m) -> (forall j v, ~ entry (slots_ m) j k v) ->
  0 <= i0 < lengthZ (slots_ m) -> slots_ m !z! u = Some s -> s_used s = false ->
  dist (lengthZ (slots_ m)) i0 u < Z.of_nat fuel ->
  exists i t, slots_ m !z! i = Some t /\ s_used t = false /\
    (forall j, 0 <= j < lengthZ (slots_ m) ->
       dist (lengthZ (slots_ m)) i0 j < dist (lengthZ (slots_ m)) i0 i -> used_at (slots_ m) j) /\
    insert_from fuel m k v i0
      = Some (mkMap (<z[i := mkSlot k v true]> (slots_ m)) (size_ m + 1)).
Proof.
  intros Hp Hno Hi0 Hu Hus. pose proof (lookupZ_Some_bounds _ _ _ Hu) as Hur.
  revert i0 Hi0. induction fuel as [|fuel IH]; intros i0 Hi0 Hd; [circ|].
  destruct (lookupZ_is_Some _ _ Hi0) as [[k' v' [|]] Hs].
  - assert (i0 <> u) as Hne by (intros ->; rewrite Hs in Hu; by simplify_eq).
    pose proof (dist_next _ _ _ Hp Hi0 Hur Hne) as Hdu.
    destruct (IH (next (slots_ m) i0)) as (i & t & Ht & Htu & Hpath & Hins);
      [by apply next_range|lia|].
    pose proof (lookupZ_Some_bounds _ _ _ Ht) as Hti.
    assert (i0 <> i) as Hnei by (intros ->; rewrite Hs in Ht; by simplify_eq).
    exists i, t. split_and!; [done|done| |].
    + intros j Hj Hlt. destruct (decide (i0 = j)) as [<-|Hnj]; [by eexists|].
      pose proof (dist_next _ _ _ Hp Hi0 Hj Hnj).
      pose proof (dist_next _ _ _ Hp Hi0 Hti Hnei). apply Hpath; [done|lia].
    + cbn. rewrite Hs. cbn. destruct (Z.eqb_spec k' k) as [->|]; [by edestruct Hno|done].
  - exists i0, (mkSlot k' v' false). split_and!; [done|done| |by cbn; rewrite Hs].
    intros j Hj Hlt. circ.
Qed.

Lemma table_overwrite slots i k v w :
  table_ok slots -> entry slots i k w -> table_ok (<z[i := mkSlot k v true]> slots).
Proof.
  intros [Hp Hc Hq] He. pose proof (entry_range _ _ _ _ He) as Hi.
  assert (lengthZ (<z[i := mkSlot k v true]> slots) = lengthZ slots) as Hl
    by apply lengthZ_insertZ.
  constructor; [by eapply pow2_length| |].
  - intros j k' v' x Hj Hx Hd. rewrite Hl in *. rewrite !(ideal_length _ slots) in Hd by done.
    rewrite used_insertZ by done. right.
    apply entry_insertZ in Hj as [[<- [= <- <-]]|[_ Hj]]; eauto.
  - intros j j' k' v' w' Hj Hj'.
    apply entry_insertZ in Hj as [[? ?]|[? Hj]]; [| |done];
      apply entry_insertZ in Hj' as [[? ?]|[? Hj']]; simplify_eq; eauto.
Qed.

Lemma table_insert slots i k v s :
  table_ok slots -> slots !z! i = Some s -> s_used s = false ->
  (forall j w, ~ entry slots j k w) ->
  (forall j, 0 <= j < lengthZ slots ->
     dist (lengthZ slots) (ideal slots k) j < dist (lengthZ slots) (ideal slots k) i ->
     used_at slots j) ->
  table_ok (<z[i := mkSlot k v true]> slots).
Proof.
  intros [Hp Hc Hq] Hs Hu Hno Hpath. pose proof (lookupZ_Some_bounds _ _ _ Hs) as Hi.
  assert (lengthZ (<z[i := mkSlot k v true]> slots) = lengthZ slots) as Hl
    by apply lengthZ_insertZ.
  constructor; [by eapply pow2_length| |].
  - intros j k' v' x Hj Hx Hd. rewrite Hl in *. rewrite !(ideal_length _ slots) in Hd by done.
    rewrite used_insertZ by done. right.
    apply entry_insertZ in Hj as [[<- [= <- <-]]|[_ Hj]]; eauto.
  - intros j j' k' v' w' Hj Hj'.
    apply entry_insertZ in Hj as [[? ?]|[? Hj]]; [| |done];
      apply entry_insertZ in Hj' as [[? ?]|[? Hj']]; simplify_eq; eauto; by edestruct Hno.
Qed.

(** * The finite map a table stands for *)

Definition model (m : FlatMap) : gmap OrderId Z := list_to_map (for_each m).

Definition live (s : Slot) : option (Z * Z) :=
  if s_used s then Some (s_key s, s_val s) else None.

Lemma for_each_elem m k v : (k, v) ∈ for_each m <-> exists i, entry (slots_ m) i k v.
Proof.
  unfold for_each. rewrite list_elem_of_omap. split.
  - intros ([k' v' u] & Hs & Hl). cbn in Hl. destruct u; [|done]. simplify_eq.
    by apply elem_of_lookupZ in Hs.
  - intros [i He]. exists (mkSlot k v true). split; [|done]. apply elem_of_lookupZ. by exists i.
Qed.

Lemma for_each_nodup m : table_ok (slots_ m) -> NoDup (for_each m).*1.
Proof.
  intros Ht. apply NoDup_omap_fst. intros i j [k v u] [k' v' u'] a b Hi Hj Ha Hb Hab.
  cbn in Ha, Hb. destruct u, u'; simplify_eq. cbn in Hab. subst k'.
  enough (Z.of_nat i = Z.of_nat j) by lia.
  eapply (tb_unique _ Ht); unfold entry; by rewrite lookupZ_of_nat.
Qed.

Lemma for_each_length m : Z.of_nat (length (for_each m)) = used_count (slots_ m).
Proof.
  unfold for_each, used_count. induction (slots_ m) as [|[k v []] l IH]; cbn; lia.
Qed.

Lemma model_lookup m k v :
  table_ok (slots_ m) -> model m !! k = Some v <-> exists i, entry (slots_ m) i k v.
Proof.
  intros Ht. unfold model. rewrite <- elem_of_list_to_map by by apply for_each_nodup.
  apply for_each_elem.
Qed.

Lemma model_absent m k :
  table_ok (slots_ m) -> model m !! k = None <-> forall i v, ~ entry (slots_ m) i k v.
Proof.
  intros Ht. rewrite eq_None_not_Some. split.
  - intros Hn i v He. apply Hn. exists v. apply model_lookup; eauto.
  - intros Hn [v Hv]. apply model_lookup in Hv as [i Hi]; [by eapply Hn|done].
Qed.

Lemma model_size m : Inv m -> size_ m = Z.of_nat (size (model m)).
Proof.
  intros HI. rewrite (inv_size _ HI), <- for_each_length. unfold model.
  rewrite <- length_map_to_list. f_equal. symmetry. apply Permutation_length.
  apply map_to_list_to_map, for_each_nodup, HI.
Qed.

Lemma find_model m k : Inv m -> find k m = Some (model m !! k).
Proof.
  intros HI. unfold find. destruct (entry_dec (slots_ m) k) as [(i & v & He)|Hno].
  - rewrite (find_slot_found _ _ _ _ HI He). cbn. unfold entry in He. rewrite He. cbn.
    f_equal. symmetry. apply model_lookup; [apply HI|eauto].
  - rewrite find_slot_absent by done. cbn. f_equal. symmetry. by apply model_absent; [apply HI|].
Qed.

Lemma contains_model m k : Inv m -> contains k m = Some (bool_decide (is_Some (model m !! k))).
Proof.
  intros HI. unfold contains. destruct (entry_dec (slots_ m) k) as [(i & v & He)|Hno].
  - rewrite (find_slot_found _ _ _ _ HI He). cbn. f_equal. symmetry. apply bool_decide_eq_true.
    exists v. apply model_lookup; [apply HI|eauto].
  - rewrite find_slot_absent by done. cbn. f_equal. symmetry. apply bool_decide_eq_false.
    intros [v Hv]. apply model_lookup in Hv as [i Hi]; [by eapply Hno|apply HI].
Qed.

(** * Insertion refines map insertion *)

(** Two tables stand for the same map when they hold the same entries. *)
Lemma model_insert m m' k v :
  table_ok (slots_ m) -> table_ok (slots_ m') ->
  (forall k' v', (exists i, entry (slots_ m') i k' v') <->
     (k' = k /\ v' = v) \/ (k' <> k /\ exists i, entry (slots_ m) i k' v')) ->
  model m' = <[k := v]> (model m).
Proof.
  intros Ht Ht' He. apply map_eq. intros k'. apply option_eq. intros v'.
  rewrite (model_lookup m'), He, lookup_insert_Some, <- model_lookup by done. naive_solver.
Qed.

Lemma insert_from_model m k v :
  Inv m -> (size_ m + 1) * 10 <= lengthZ (slots_ m) * 7 ->
  exists m', insert_from (length (slots_ m)) m k v (ideal (slots_ m) k) = Some m' /\
    Inv m' /\ model m' = <[k := v]> (model m) /\
    lengthZ (slots_ m') = lengthZ (slots_ m) /\ size_ m' <= size_ m + 1.
Proof.
  intros HI Hload. pose proof (inv_table _ HI) as Ht. pose proof (tb_pow _ Ht) as Hp.
  pose proof (ideal_range _ k Hp) as Hid.
  destruct (entry_dec (slots_ m) k) as [(i & w & He)|Hno].
  - pose proof (entry_range _ _ _ _ He) as Hi. eexists. split.
    { eapply insert_from_found; [done..| |by apply dist_lt].
      intros j Hj Hd. by eapply path_other. }
    cbn [slots_ size_]. rewrite lengthZ_insertZ.
    assert (table_ok (<z[i := mkSlot k v true]> (slots_ m))) as Ht' by by eapply table_overwrite.
    split_and!; [|apply model_insert; [done|done|]|done|lia].
    + destruct HI. constructor; cbn; rewrite ?lengthZ_insertZ; try done.
      unfold entry in He. rewrite (used_count_insertZ _ _ _ _ He). cbn. lia.
    + cbn. intros k' v'. setoid_rewrite entry_insertZ; [|done]. split.
      * intros (j & [[-> [=]]|[Hne Hj]]); [by left|]. right. split; [|by exists j].
        intros ->. by rewrite (tb_unique _ Ht _ _ _ _ _ He Hj) in Hne.
      * intros [[-> ->]|[Hk [j Hj]]]; [by exists i; left|]. exists j. right. split; [|done].
        intros ->. unfold entry in *. rewrite He in Hj. by simplify_eq.
  - destruct (load_unused _ HI) as (u & s & Hu & Hus).
    destruct (insert_from_absent (length (slots_ m)) m k v (ideal (slots_ m) k) u s)
      as (i & t & Ht' & Htu & Hpath & Hins); try done.
    { apply dist_lt; [done|by eapply lookupZ_Some_bounds]. }
    pose proof (lookupZ_Some_bounds _ _ _ Ht') as Hi.
    assert (table_ok (<z[i := mkSlot k v true]> (slots_ m))) as Htb by by eapply table_insert.
    eexists. split; [done|]. cbn [slots_ size_]. rewrite lengthZ_insertZ.
    split_and!; [|apply model_insert; [done|done|]|done|lia].
    + destruct HI. constructor; cbn; rewrite ?lengthZ_insertZ; try done; try lia.
      rewrite (used_count_insertZ _ _ _ _ Ht'), Htu. cbn. lia.
    + cbn. intros k' v'. setoid_rewrite entry_insertZ; [|done]. split.
      * intros (j & [[-> [=]]|[Hne Hj]]); [by left|]. right. split; [|by exists j].
        intros ->. by eapply Hno.
      * intros [[-> ->]|[Hk [j Hj]]]; [by exists i; left|]. exists j. right. split; [|done].
        intros ->. unfold entry in *. rewrite Ht' in Hj. by simplify_eq.
Qed.

Lemma insert_rec_model d m k v :
  Inv m -> (size_ m + 1) * 10 <= lengthZ (slots_ m) * 7 ->
  exists m', insert_rec (S d) k v m = Some m' /\
    Inv m' /\ model m' = <[k := v]> (model m) /\
    lengthZ (slots_ m') = lengthZ (slots_ m) /\ size_ m' <= size_ m + 1.
Proof.
  intros HI Hload. cbn.
  replace (lengthZ (slots_ m) * 7 <? (size_ m + 1) * 10) with false by lia.
  by apply insert_from_model.
Qed.

(** ** Growth *)

Lemma replicate_no_entry n i k v : ~ entry (replicate n empty_slot) i k v.
Proof.
  intros He. pose proof (entry_range _ _ _ _ He) as Hr.
  unfold lengthZ in Hr. rewrite length_replicate in Hr.
  unfold entry in He. by rewrite lookupZ_replicate in He by lia.
Qed.

Lemma replicate_used_count n : used_count (replicate n empty_slot) = 0.
Proof. unfold used_count. induction n; cbn; lia. Qed.

Lemma replicate_inv n k :
  0 <= k -> Z.of_nat n = 2 ^ k -> 16 <= Z.of_nat n -> Inv (mkMap (replicate n empty_slot) 0).
Proof.
  intros Hk Hn Hm. constructor; cbn; rewrite ?replicate_used_count; try done.
  - constructor.
    + exists k. unfold lengthZ. by rewrite length_replicate.
    + intros ???? He. by apply replicate_no_entry in He.
    + intros ????? He. by apply replicate_no_entry in He.
  - unfold lengthZ. rewrite length_replicate. lia.
  - unfold lengthZ. by rewrite length_replicate.
Qed.

Lemma replicate_model n z : model (mkMap (replicate n empty_slot) z) = ∅.
Proof. unfold model, for_each. cbn. by induction n. Qed.

Lemma grow_loop d (l : list Slot) m :
  Inv m -> (size_ m + used_count l) * 10 <= lengthZ (slots_ m) * 7 ->
  NoDup (omap live l).*1 ->
  exists m', foldl (fun om s => m' ← om;
      if s_used s then insert_rec (S d) (s_key s) (s_val s) m' else Some m') (Some m) l
      = Some m' /\
    Inv m' /\ model m' = list_to_map (omap live l) ∪ model m /\
    lengthZ (slots_ m') = lengthZ (slots_ m) /\ size_ m' <= size_ m + used_count l.
Proof.
  revert m. induction l as [|[k v u] l IH]; intros m HI Hload Hnd.
  { exists m. cbn. rewrite (left_id ∅ (∪)). split_and!; try done. unfold used_count. cbn. lia. }
  pose proof (used_count_nonneg l).
  assert (used_count (mkSlot k v u :: l) = Z.b2z u + used_count l) as Huc by done.
  destruct u; cbn [omap list_omap live s_used fmap list_fmap s_key s_val fst] in *.
  - apply NoDup_cons in Hnd as [Hk Hnd].
    destruct (insert_rec_model d m k v) as (m1 & Hins & HI1 & Hm1 & Hl1 & Hs1);
      [done|cbn in *; lia|].
    destruct (IH m1) as (m2 & Hfold & HI2 & Hm2 & Hl2 & Hs2); [done|cbn in *; lia|done|].
    exists m2. cbn [foldl mbind option_bind s_used s_key s_val]. rewrite Hins.
    split_and!; [done|done| |lia|cbn in *; lia].
    rewrite Hm2, Hm1. cbn. rewrite <- insert_union_l, insert_union_r; [done|].
    by apply not_elem_of_list_to_map_1.
  - destruct (IH m) as (m2 & ?); [done|cbn in *; lia|done|]. exists m2. cbn in *. by rewrite Huc.
Qed.

Lemma grow_model d m :
  Inv m ->
  exists m', grow (insert_rec (S d)) m = Some m' /\ Inv m' /\ model m' = model m /\
    lengthZ (slots_ m') = lengthZ (slots_ m) * 2 /\ size_ m' <= size_ m.
Proof.
  intros HI. destruct (tb_pow _ (inv_table _ HI)) as (k & Hk & Hcap).
  pose proof (inv_size _ HI). pose proof (inv_load _ HI). pose proof (inv_min _ HI).
  pose proof (used_count_nonneg (slots_ m)).
  set (fresh := mkMap (replicate (length (slots_ m) * 2) empty_slot) 0).
  assert (lengthZ (slots_ fresh) = lengthZ (slots_ m) * 2) as Hf.
  { unfold fresh, lengthZ. cbn. rewrite length_replicate. lia. }
  destruct (grow_loop d (slots_ m) fresh) as (m' & Hfold & HI' & Hm & Hl & Hs).
  - apply (replicate_inv _ (k + 1)); [lia| |unfold lengthZ in *; lia].
    rewrite Z.pow_add_r by lia. unfold lengthZ in *. lia.
  - cbn in *. lia.
  - by apply for_each_nodup, HI.
  - exists m'. split_and!; [done|done| |lia|cbn in *; lia].
    rewrite Hm. unfold fresh. rewrite replicate_model, (right_id ∅ (∪)). done.
Qed.

Lemma insert_rec_eq d k v m :
  insert_rec (S d) k v m =
    (m' ← (if lengthZ (slots_ m) * 7 <? (size_ m + 1) * 10
           then grow (insert_rec d) m else Some m);
     insert_from (length (slots_ m')) m' k v (ideal (slots_ m') k)).
Proof. done. Qed.

Lemma insert_model m k v :
  Inv m -> exists m', insert k v m = Some m' /\ Inv m' /\ model m' = <[k := v]> (model m).
Proof.
  intros HI. unfold insert. rewrite insert_rec_eq.
  pose proof (inv_load _ HI). pose proof (inv_min _ HI).
  destruct (Z.ltb_spec (lengthZ (slots_ m) * 7) ((size_ m + 1) * 10)) as [Hg|Hg].
  - destruct (grow_model 0 m HI) as (m1 & -> & HI1 & Hm1 & Hl1 & Hs1). cbn [mbind option_bind].
    destruct (insert_from_model m1 k v HI1) as (m2 & -> & HI2 & Hm2 & _); [lia|].
    exists m2. by rewrite Hm2, Hm1.
  - destruct (insert_from_model m k v HI) as (m2 & Hm2 & ? & ? & _); [lia|]. by exists m2.
Qed.

(** * Deletion *)

(** The entry at [j], of home [home], may move into the hole exactly when the
    hole lies on its probe path. *)
Lemma movable_spec cap hole j home :
  0 <= hole < cap -> 0 <= j < cap -> 0 <= home < cap -> hole <> j ->
  movable hole j home = (dist cap home hole <? dist cap home j).
Proof.
  intros. unfold movable. apply eq_bool_prop_intro. rewrite !Is_true_true, Z.ltb_lt.
  destruct (Z.leb_spec hole j); rewrite ?orb_true_iff, ?andb_true_iff, Z.leb_le, Z.ltb_lt; circ.
Qed.

Section shift.
(** The table before deletion, the deleted key, and a slot not in use. *)
Context (slots0 : list Slot) (key u : Z) (s_u : Slot).
Hypothesis (Hok : table_ok slots0).
Hypothesis (Hu : slots0 !z! u = Some s_u) (Hus : s_used s_u = false).

Local Abbreviation cap := (lengthZ slots0).
Local Abbreviation d := (dist cap).
Local Abbreviation home k := (ideal slots0 k).

(** The loop invariant: [hole] is a hole to fill, the slots after it up to
    [j] have been examined. *)
Record shifting (slots : list Slot) (hole j : Z) : Prop := mkShifting {
  sh_length : lengthZ slots = cap;
  sh_hole : 0 <= hole < cap;
  sh_j : 0 <= j < cap;
  sh_used : forall x, used_at slots x <-> used_at slots0 x;
  sh_count : used_count slots = used_count slots0;
  sh_run : forall x, 0 <= x < cap -> d hole x <= d hole j -> used_at slots0 x;
  sh_chain : forall i k v x, i <> hole -> entry slots i k v -> 0 <= x < cap ->
    d (home k) x < d (home k) i -> used_at slots0 x;
  sh_seen : forall i k v, i <> hole -> entry slots i k v ->
    d (home k) i <= d (home k) hole \/ d hole j < d hole i;
  sh_unique : forall i i' k v w, i <> hole -> i' <> hole ->
    entry slots i k v -> entry slots i' k w -> i = i';
  sh_entries : forall k v, (exists i, i <> hole /\ entry slots i k v) <->
    (k <> key /\ exists i, entry slots0 i k v) }.

Lemma shifting_init i v : entry slots0 i key v -> shifting slots0 i i.
Proof.
  intros He. pose proof (entry_range _ _ _ _ He) as Hi.
  constructor; try done.
  - intros x Hx Hd. assert (x = i) as -> by circ. by eapply entry_used.
  - intros i' k w x Hne He' Hx. by eapply (tb_chain _ Hok).
  - intros i' k w Hne He'. pose proof (entry_range _ _ _ _ He'). right. circ.
  - intros i1 i2 k w w' _ _. by apply (tb_unique _ Hok).
  - intros k w. split.
    + intros (i' & Hne & He'). split; [|by exists i'].
      intros ->. by rewrite (tb_unique _ Hok _ _ _ _ _ He' He) in Hne.
    + intros (Hk & i' & He'). exists i'. split; [|done].
      intros ->. unfold entry in *. rewrite He in He'. by simplify_eq.
Qed.

Lemma unused_u x : used_at slots0 x -> x <> u.
Proof. intros (s & Hs & ?) ->. congruence. Qed.

Lemma u_range : 0 <= u < cap.
Proof. by eapply lookupZ_Some_bounds. Qed.

(** The examined run never wraps around to the hole. *)
Lemma next_step slots hole j :
  shifting slots hole j ->
  d hole (next slots j) = d hole j + 1 /\ next slots j <> hole /\
  0 <= next slots j < cap.
Proof.
  intros Hs. pose proof u_range as Hur. pose proof (tb_pow _ Hok) as Hp.
  pose proof (sh_hole _ _ _ Hs). pose proof (sh_j _ _ _ Hs) as Hj.
  rewrite (next_length _ slots0) by apply Hs.
  pose proof (next_range _ _ Hp Hj).
  assert (d hole j < d hole u).
  { destruct (Z.lt_ge_cases (d hole j) (d hole u)) as [|Hge]; [done|].
    exfalso. apply (unused_u u); [|done]. by apply (sh_run _ _ _ Hs). }
  rewrite (next_spec _ _ Hp Hj) in *. destruct (Z.eqb_spec (j + 1) cap); circ.
Qed.

Lemma shifting_skip slots hole j k v :
  shifting slots hole j -> entry slots (next slots j) k v ->
  d (home k) (next slots j) <= d (home k) hole ->
  shifting slots hole (next slots j).
Proof.
  intros Hs He Hd. destruct (next_step _ _ _ Hs) as (Hn & Hne & Hr).
  destruct Hs as [Hl Hh Hj Hus' Hc Hrun Hch Hseen Hq Hent]. constructor; try done.
  - intros x Hx Hdx. destruct (decide (x = next slots j)) as [->|Hxn].
    + by apply Hus'; eapply entry_used.
    + apply Hrun; [done|]. revert Hdx Hxn Hn. circ.
  - intros i k' v' Hi He'. destruct (decide (i = next slots j)) as [->|Hin].
    + left. unfold entry in *. rewrite He in He'. by simplify_eq.
    + destruct (Hseen _ _ _ Hi He') as [|Hlt]; [by left|right].
      pose proof (entry_range _ _ _ _ He') as Hir. rewrite Hl in Hir.
      revert Hlt Hin Hn. circ.
Qed.

Lemma shifting_move slots hole j k v :
  shifting slots hole j -> entry slots (next slots j) k v ->
  d (home k) hole < d (home k) (next slots j) ->
  shifting (<z[hole := mkSlot k v true]> slots) (next slots j) (next slots j).
Proof.
  intros Hs He Hd. destruct (next_step _ _ _ Hs) as (Hn & Hne & Hr).
  set (j' := next slots j) in *.
  destruct Hs as [Hl Hh Hj Hus' Hc Hrun Hch Hseen Hq Hent].
  assert (used_at slots0 hole) as Huh by (apply Hrun; [done|circ]).
  assert (used_at slots hole) as (sh & Hsh & Hshu) by by apply Hus'.
  assert (Hhl : 0 <= hole < lengthZ slots) by (by rewrite Hl).
  constructor; try done.
  - by rewrite lengthZ_insertZ.
  - intros x. rewrite used_insertZ, Hus' by done. split; [|by right].
    by intros [->|].
  - rewrite (used_count_insertZ _ _ _ _ Hsh), Hshu. cbn. lia.
  - intros x Hx Hdx. assert (x = j') as -> by circ. apply Hus'. by eapply entry_used.
  - intros i k' v' x Hi He' Hx Hdx. apply entry_insertZ in He' as [[? ?]|[? He']];
      [simplify_eq|by eauto|done].
    apply (Hch j' _ _ x Hne He Hx). lia.
  - intros i k' v' Hi He'. right.
    assert (0 <= i < cap).
    { apply entry_range in He'. by rewrite lengthZ_insertZ, Hl in He'. }
    circ.
  - intros i i' k' v' w' Hi Hi' He1 He2.
    apply entry_insertZ in He1 as [[? ?]|[? He1]]; [| |done];
      apply entry_insertZ in He2 as [[? ?]|[? He2]]; simplify_eq; try done.
    + exfalso. by eapply Hi', Hq; eauto.
    + exfalso. by eapply Hi, Hq; eauto.
    + by eapply Hq; eauto.
  - intros k' v'. rewrite <- Hent. setoid_rewrite entry_insertZ; [|done]. split.
    + intros (i & Hi & [[? ?]|[? He']]); simplify_eq; eauto.
    + intros (i & Hi & He'). destruct (decide (i = j')) as [->|Hij].
      * exists hole. split; [done|left]. unfold entry in *. rewrite He in He'. by simplify_eq.
      * exists i. split; [done|right]. by split.
Qed.

Lemma shift_back_spec fuel slots hole j :
  shifting slots hole j -> d j u <= Z.of_nat fuel ->
  exists slots' hole' j', shift_back fuel slots hole j = Some (slots', hole') /\
    shifting slots' hole' j' /\ ~ used_at slots0 (next slots0 j').
Proof.
  revert slots hole j. induction fuel as [|fuel IH]; intros slots hole j Hs Hf.
  all: assert (j <> u) as Hju by (apply unused_u, (sh_run _ _ _ Hs); [apply Hs|done]).
  all: pose proof u_range as Hur; pose proof (sh_j _ _ _ Hs) as Hj;
    pose proof (tb_pow _ Hok) as Hp; pose proof (sh_length _ _ _ Hs) as Hl.
  { exfalso. clear -Hf Hju Hur Hj. circ. }
  pose proof (dist_next _ _ _ Hp Hj Hur Hju) as Hdn.
  destruct (next_step _ _ _ Hs) as (Hn & Hne & Hr).
  rewrite <- (next_length slots) in Hdn by done.
  cbn [shift_back]. rewrite <- Hl in Hr.
  destruct (lookupZ_is_Some _ _ Hr) as [[k v []] Hsl]; rewrite Hsl; cbn [mbind option_bind s_used negb s_key].
  - rewrite (movable_spec cap); [|apply Hs|by rewrite <- Hl| |done].
    2:{ rewrite <- Hl. apply ideal_range. by eapply pow2_length. }
    rewrite (ideal_length _ slots0) by done.
    destruct (Z.ltb_spec (d (home k) hole) (d (home k) (next slots j))).
    + apply IH; [by apply shifting_move|lia].
    + apply IH; [by eapply shifting_skip|lia].
  - exists slots, hole, j. split_and!; [done|done|].
    rewrite <- (next_length slots), <- (sh_used _ _ _ Hs) by done.
    intros (s & Hs' & ?). rewrite Hsl in Hs'. by simplify_eq.
Qed.
End shift.

Lemma table_clear slots0 key u s_u slots hole j s :
  table_ok slots0 -> slots0 !z! u = Some s_u -> s_used s_u = false ->
  shifting slots0 key slots hole j -> ~ used_at slots0 (next slots0 j) ->
  slots !z! hole = Some s ->
  table_ok (<z[hole := mkSlot (s_key s) (s_val s) false]> slots).
Proof.
  intros Hok Hu Hus Hs Hstop Hh. pose proof (lookupZ_Some_bounds _ _ _ Hh) as Hhr.
  pose proof (sh_length _ _ _ _ _ Hs) as Hl.
  pose proof (tb_pow _ Hok) as Hp.
  constructor.
  - eapply pow2_length; [|done]. by rewrite lengthZ_insertZ.
  - rewrite lengthZ_insertZ, Hl. intros i k v x He Hx Hd.
    rewrite !(ideal_length _ slots0) in Hd by by rewrite lengthZ_insertZ.
    apply entry_insertZ in He as [[? ?]|[Hne He]]; [done| |done].
    pose proof (entry_range _ _ _ _ He) as Hi. rewrite Hl in Hi.
    assert (used_at slots0 x) as Hxu by (by eapply (sh_chain _ _ _ _ _ Hs)).
    apply (sh_used _ _ _ _ _ Hs) in Hxu.
    destruct (decide (x = hole)) as [->|Hxh].
    + exfalso. apply Hstop.
      destruct (sh_seen _ _ _ _ _ Hs i k v) as [|Hlt]; [done|done|lia|].
      destruct (next_step slots0 key u s_u Hok Hu Hus _ _ _ Hs) as (Hn & _ & Hr).
      rewrite (next_length _ slots0) in * by done.
      destruct (decide (next slots0 j = i)) as [->|Hni].
      { apply (sh_used _ _ _ _ _ Hs). by eapply entry_used. }
      apply (sh_chain _ _ _ _ _ Hs i k v); [done|done|done|].
      pose proof (ideal_range slots0 k Hp). rewrite Hl in Hhr. clear -Hd Hlt Hn Hni Hr H Hi Hhr.
      circ.
    + destruct Hxu as (t & Ht & Htu). exists t. split; [|done].
      rewrite lookupZ_insertZ_ne; done.
  - intros i i' k v w He He'.
    apply entry_insertZ in He as [[? ?]|[Hne He]]; [done| |done].
    apply entry_insertZ in He' as [[? ?]|[Hne' He']]; [done| |done].
    by eapply (sh_unique _ _ _ _ _ Hs).
Qed.

Lemma erase_model m k :
  Inv m ->
  exists m', erase k m = Some (bool_decide (is_Some (model m !! k)), m') /\
    Inv m' /\ model m' = delete k (model m).
Proof.
  intros HI. pose proof (inv_table _ HI) as Ht. unfold erase.
  destruct (entry_dec (slots_ m) k) as [(i & v & He)|Hno].
  2:{ rewrite find_slot_absent by done. pose proof (proj2 (model_absent _ _ Ht) Hno) as Hk.
      exists m. cbn [mbind option_bind]. rewrite Hk. split_and!; [by rewrite bool_decide_eq_false_2 by (by intros [])|done|].
      by rewrite delete_id. }
  assert (model m !! k = Some v) as Hk by (apply model_lookup; eauto).
  rewrite (find_slot_found _ _ _ _ HI He). cbn [mbind option_bind].
  destruct (load_unused _ HI) as (u & s_u & Hu & Hus).
  pose proof (lookupZ_Some_bounds _ _ _ Hu). pose proof (entry_range _ _ _ _ He).
  destruct (shift_back_spec (slots_ m) k u s_u Ht Hu Hus (length (slots_ m)) (slots_ m) i i)
    as (slots & hole & j & -> & Hs & Hstop); [by eapply shifting_init| |].
  { pose proof (dist_lt (slots_ m) i u). lia. }
  cbn [mbind option_bind]. pose proof (sh_length _ _ _ _ _ Hs) as Hl.
  assert (used_at slots hole) as (s & Hsh & Hsu).
  { apply (sh_used _ _ _ _ _ Hs), (sh_run _ _ _ _ _ Hs); [apply Hs|].
    pose proof (sh_hole _ _ _ _ _ Hs). pose proof (sh_j _ _ _ _ _ Hs). circ. }
  pose proof (lookupZ_Some_bounds _ _ _ Hsh) as Hhr.
  rewrite Hsh. cbn [mbind option_bind]. rewrite Hk, bool_decide_eq_true_2 by done.
  assert (table_ok (<z[hole := mkSlot (s_key s) (s_val s) false]> slots)) as Htb
    by by eapply table_clear.
  eexists. split_and!; [done| |].
  - destruct HI. constructor; cbn; rewrite ?lengthZ_insertZ, ?Hl; try done; try lia.
    rewrite (used_count_insertZ _ _ _ _ Hsh), Hsu, (sh_count _ _ _ _ _ Hs). cbn. lia.
  - apply map_eq. intros k'. apply option_eq. intros v'.
    rewrite lookup_delete_Some, !model_lookup by done. cbn [slots_].
    assert (k <> k' /\ (exists i, entry (slots_ m) i k' v') <->
            k' <> k /\ (exists i, entry (slots_ m) i k' v')) as -> by naive_solver.
    rewrite <- (sh_entries _ _ _ _ _ Hs). setoid_rewrite entry_insertZ; [|done]. naive_solver.
Qed.

(** * Construction *)

Lemma fit_capacity_spec fuel k expected :
  4 <= k <= 61 -> 0 <= expected < 2 ^ 60 -> 61 - k < Z.of_nat fuel ->
  exists c, fit_capacity fuel (2 ^ k) expected = Some (2 ^ c) /\ k <= c <= 61 /\
    expected * 10 <= 2 ^ c * 7.
Proof.
  intros Hk He. revert k Hk. induction fuel as [|fuel IH]; intros k Hk Hf; [lia|].
  assert (2 ^ k <= 2 ^ 61) by (apply Z.pow_le_mono_r; lia).
  assert (0 < 2 ^ k) by (apply Z.pow_pos_nonneg; lia).
  cbn [fit_capacity]. rewrite !wrap_small by (split; lia).
  destruct (Z.ltb_spec (2 ^ k * 7) (expected * 10)) as [Hlt|Hge].
  - assert (k <> 61) by (intros ->; lia).
    destruct (IH (k + 1)) as (c & Hc & Hr & Hexp); [lia|lia|].
    exists c. split_and!; [|lia..|done]. rewrite <- Hc. f_equal.
    rewrite Z.shiftl_mul_pow2, Z.pow_add_r, wrap_small by (lia || (split; lia)). done.
  - exists k. split_and!; [done|lia..].
Qed.

Lemma make_model expected :
  0 <= expected < 2 ^ 60 ->
  exists m, make expected = Some m /\ Inv m /\ model m = ∅ /\
    expected * 10 <= lengthZ (slots_ m) * 7.
Proof.
  intros He. unfold make.
  destruct (fit_capacity_spec 64 4 expected) as (c & Hc & Hr & Hexp); [lia|done|lia|].
  change (2 ^ 4) with 16 in Hc. rewrite Hc. cbn [mbind option_bind].
  assert (0 < 2 ^ c) by (apply Z.pow_pos_nonneg; lia).
  assert (2 ^ 4 <= 2 ^ c) by (apply Z.pow_le_mono_r; lia).
  eexists. split_and!; [done| |apply replicate_model|].
  - apply (replicate_inv _ c); lia.
  - cbn. unfold lengthZ. rewrite length_replicate. lia.
Qed.

(** * The interface *)

#[export] Instance FlatMap_index : OrderIndex FlatMap := {|
  oi_find := find;
  oi_insert := insert;
  oi_erase := erase;
  oi_size := size_ |}.

#[export] Instance FlatMap_laws : OrderIndexLaws FlatMap := {|
  oi_ok := Inv;
  oi_model := model;
  oi_find_spec := find_model;
  oi_insert_spec := insert_model;
  oi_erase_spec := erase_model;
  oi_size_spec := model_size |}.

(** * Sequences of operations *)

Inductive IndexOp :=
  | IxInsert (k v : Z)
  | IxErase (k : Z).

Definition index_step (m : FlatMap) (op : IndexOp) : option FlatMap :=
  match op with
  | IxInsert k v => insert k v m
  | IxErase k => '(_, m') ← erase k m; Some m'
  end.

Fixpoint index_run (ops : list IndexOp) (m : FlatMap) : option FlatMap :=
  match ops with
  | [] => Some m
  | op :: ops' => m' ← index_step m op; index_run ops' m'
  end.

Definition map_step (g : gmap OrderId Z) (op : IndexOp) : gmap OrderId Z :=
  match op with IxInsert k v => <[k := v]> g | IxErase k => delete k g end.

Definition map_run (ops : list IndexOp) (g : gmap OrderId Z) : gmap OrderId Z :=
  foldl map_step g ops.

Lemma index_run_model ops m :
  Inv m -> exists m', index_run ops m = Some m' /\ Inv m' /\ model m' = map_run ops (model m).
Proof.
  revert m. induction ops as [|[k v|k] ops IH]; intros m HI; [by exists m| |].
  - destruct (insert_model m k v HI) as (m1 & Hins & HI1 & Hm1).
    cbn [index_run index_step map_run foldl map_step]. rewrite Hins, <- Hm1. by apply IH.
  - destruct (erase_model m k HI) as (m1 & Her & HI1 & Hm1).
    cbn [index_run index_step map_run foldl map_step]. rewrite Her, <- Hm1. by apply IH.
Qed.

(** Every insertion finds fewer than [n] entries. *)
Fixpoint bounded (n : Z) (ops : list IndexOp) (g : gmap OrderId Z) : bool :=
  match ops with
  | [] => true
  | op :: ops' =>
      match op with IxInsert _ _ => Z.of_nat (size g) <? n | IxErase _ => true end
      && bounded n ops' (map_step g op)
  end.

Lemma erase_length m k b m' :
  Inv m -> erase k m = Some (b, m') -> lengthZ (slots_ m') = lengthZ (slots_ m).
Proof.
  intros HI. unfold erase. destruct (entry_dec (slots_ m) k) as [(i & v & He)|Hno].
  2:{ rewrite find_slot_absent by done. intros [= _ <-]. done. }
  pose proof (inv_table _ HI) as Ht. rewrite (find_slot_found _ _ _ _ HI He).
  destruct (load_unused _ HI) as (u & s_u & Hu & Hus).
  pose proof (lookupZ_Some_bounds _ _ _ Hu). pose proof (entry_range _ _ _ _ He).
  pose proof (dist_lt (slots_ m) i u).
  cbn [mbind option_bind].
  destruct (shift_back_spec (slots_ m) k u s_u Ht Hu Hus (length (slots_ m)) (slots_ m) i i)
    as (slots & hole & j & -> & Hs & _); [by eapply shifting_init|lia|].
  cbn [mbind option_bind]. destruct (slots !z! hole); [|done]. cbn. intros [= _ <-]. cbn.
  rewrite lengthZ_insertZ. apply Hs.
Qed.

Lemma index_run_length n ops m :
  Inv m -> n * 10 <= lengthZ (slots_ m) * 7 -> bounded n ops (model m) = true ->
  exists m', index_run ops m = Some m' /\ lengthZ (slots_ m') = lengthZ (slots_ m).
Proof.
  revert m. induction ops as [|[k v|k] ops IH]; intros m HI Hn; [by exists m|..];
    cbn [index_run index_step bounded map_step].
  - intros [Hsz%Z.ltb_lt Hb]%andb_true_iff. rewrite <- model_size in Hsz by done.
    destruct (insert_rec_model 1 m k v) as (m1 & Hins & HI1 & Hm1 & Hl1 & _); [done|lia|].
    unfold insert. rewrite Hins. cbn [mbind option_bind]. rewrite <- Hm1 in Hb.
    destruct (IH m1) as (m2 & ? & ?); [done|lia|done|]. exists m2. split; [done|lia].
  - intros Hb. destruct (erase_model m k HI) as (m1 & Her & HI1 & Hm1). rewrite Her. cbn [mbind option_bind].
    rewrite <- Hm1 in Hb. pose proof (erase_length _ _ _ _ HI Her).
    destruct (IH m1) as (m2 & ? & ?); [done|lia|done|]. exists m2. split; [done|lia].
Qed.

(** C19: The hash table is a finite map. After any sequence of [insert] and
    [erase] calls on a table built for any expected size, all of them return
    (no probe loop runs forever, growth included), [find] and [contains]
    answer for every key what a finite map that went through the same
    insertions and deletions answers, [size] is its number of keys, and
    [for_each] visits exactly its entries, each once. *)
Theorem flat_map_is_finite_map expected ops :
  0 <= expected < 2 ^ 60 ->
  exists m, (m0 ← make expected; index_run ops m0) = Some m /\
    (forall k, find k m = Some (map_run ops ∅ !! k)) /\
    (forall k, contains k m = Some (bool_decide (is_Some (map_run ops ∅ !! k)))) /\
    size_ m = Z.of_nat (size (map_run ops ∅)) /\
    for_each m ≡ₚ map_to_list (map_run ops ∅).
Proof.
  intros He. destruct (make_model expected He) as (m0 & -> & HI0 & Hm0 & _).
  cbn [mbind option_bind].
  destruct (index_run_model ops m0 HI0) as (m & Hm & HI & Hmod). rewrite Hm0 in Hmod.
  exists m. rewrite <- Hmod. split_and!; [done|..].
  - intros k. by apply find_model.
  - intros k. by apply contains_model.
  - by apply model_size.
  - symmetry. apply map_to_list_to_map, for_each_nodup, HI.
Qed.

(** The hypotheses of C1 hold for a run that grows the table. *)
Lemma flat_map_is_finite_map_witness :
  exists m, (m0 ← make 3; index_run [IxInsert 7 1; IxInsert 7 2; IxInsert 9 4; IxErase 7] m0) = Some m /\
    find 9 m = Some (Some 4) /\ find 7 m = Some None.
Proof.
  destruct (flat_map_is_finite_map 3 [IxInsert 7 1; IxInsert 7 2; IxInsert 9 4; IxErase 7])
    as (m & Hm & Hf & _); [lia|].
  exists m. split; [exact Hm|]. split; rewrite Hf; reflexivity.
Defined.

(** A size-bounded steady state never rehashes: when each insertion finds
    fewer keys than the table was built for, the vector of slots keeps the
    length the constructor gave it, through any mix of insertions and
    deletions. *)
Theorem flat_map_never_rehashes expected ops :
  0 <= expected < 2 ^ 60 -> bounded expected ops ∅ = true ->
  exists m0 m, make expected = Some m0 /\ index_run ops m0 = Some m /\
    lengthZ (slots_ m) = lengthZ (slots_ m0).
Proof.
  intros He Hb. destruct (make_model expected He) as (m0 & Hm0 & HI0 & Hmod & Hexp).
  rewrite <- Hmod in Hb.
  destruct (index_run_length expected ops m0 HI0 Hexp Hb) as (m & Hm & Hl).
  by exists m0, m.
Qed.

Lemma flat_map_never_rehashes_witness :
  bounded 2 [IxInsert 5 1; IxInsert 6 1; IxErase 5; IxInsert 8 3] ∅ = true /\
  exists m0 m, make 2 = Some m0 /\
    index_run [IxInsert 5 1; IxInsert 6 1; IxErase 5; IxInsert 8 3] m0 = Some m /\
    lengthZ (slots_ m) = lengthZ (slots_ m0).
Proof.
  split; [reflexivity|].
  apply (flat_map_never_rehashes 2 [IxInsert 5 1; IxInsert 6 1; IxErase 5; IxInsert 8 3]);
    [lia|reflexivity].
Defined.
