(* ===== verification/LadderBook.v ===== *)
(** The fast book of [book/fast_book.{hpp,cpp}], class [FastBook]: orders in a
    pooled arena with intrusive links, price levels in a ladder indexed by
    tick offset with ordered maps for the prices off the ladder, lazily moved
    best-price cursors, and an id index that is any [OrderIndex].

    A [Level&] is a [LevelRef], loaded and stored through [load] and [store];
    a [Level&] parameter is passed in and returned. [None] stands for
    undefined behaviour (an index out of range, a missing map node, an [int64]
    overflow in the price arithmetic of the band) or for a loop that exceeds
    its fuel. A level holds at most [length pool_] orders
    and a matching loop empties a level in every iteration but the last, so
    the fuel [S (length pool_)] is never the reason to stop: the refinement
    theorems show that every operation on a reachable book returns. *)

From S2P Require Import Prelude StdMap BookTypes OrderIndex.

Module FastBook.

Definition kNil : Z := 0xFFFFFFFF.

Record Config := mkConfig {
  tick : Price; band_half_ticks : Z; expected_orders : Z }.

Record FOrder := mkFOrder {
  f_id : OrderId; f_price : Price; f_open : Qty;
  f_prev : Z; f_next : Z; f_side : Side }.

Record Level := mkLevel { l_total : Qty; l_head : Z; l_tail : Z }.

(** [Level{}]. *)
Definition new_level : Level := mkLevel 0 kNil kNil.

(** [free_] is a vector used as a stack: the head of the list is its back.
    [listener_] is the sequence of calls made on the listener so far. *)
Record FastBook (M : Type) := mkBook {
  listener_ : list BookEvent;
  cfg_ : Config;
  band_set_ : bool;
  base_ : Price;
  ladder_ : list Level;
  fb_bids_ : list (Price * Level);
  fb_asks_ : list (Price * Level);
  bid_cursor_ : Z;
  ask_cursor_ : Z;
  pool_ : list FOrder;
  free_ : list Z;
  index_ : M;
  next_match_id_ : Z }.
Arguments mkBook {M}.
Arguments listener_ {M}. Arguments cfg_ {M}. Arguments band_set_ {M}.
Arguments base_ {M}. Arguments ladder_ {M}. Arguments fb_bids_ {M}.
Arguments fb_asks_ {M}. Arguments bid_cursor_ {M}. Arguments ask_cursor_ {M}.
Arguments pool_ {M}. Arguments free_ {M}. Arguments index_ {M}.
Arguments next_match_id_ {M}.

Section Book.
Context {M : Type} `{OrderIndex M}.
Implicit Types (b : FastBook M).

(** The constructor, given the index built for [cfg.expected_orders * 2]. *)
Definition make (cfg : Config) (index : M) : FastBook M :=
  mkBook [] cfg false 0 [] [] [] (-1) 0 [] [] index 1.

(** ** Field updates *)

Definition emit (e : BookEvent) b : FastBook M :=
  mkBook (listener_ b ++ [e]) (cfg_ b) (band_set_ b) (base_ b) (ladder_ b)
    (fb_bids_ b) (fb_asks_ b) (bid_cursor_ b) (ask_cursor_ b) (pool_ b) (free_ b)
    (index_ b) (next_match_id_ b).

Definition set_ladder (l : list Level) b : FastBook M :=
  mkBook (listener_ b) (cfg_ b) (band_set_ b) (base_ b) l
    (fb_bids_ b) (fb_asks_ b) (bid_cursor_ b) (ask_cursor_ b) (pool_ b) (free_ b)
    (index_ b) (next_match_id_ b).

Definition fallback (s : Side) b : list (Price * Level) :=
  if is_buy s then fb_bids_ b else fb_asks_ b.

Definition set_fallback (s : Side) (m : list (Price * Level)) b : FastBook M :=
  mkBook (listener_ b) (cfg_ b) (band_set_ b) (base_ b) (ladder_ b)
    (if is_buy s then m else fb_bids_ b) (if is_buy s then fb_asks_ b else m)
    (bid_cursor_ b) (ask_cursor_ b) (pool_ b) (free_ b) (index_ b) (next_match_id_ b).

Definition set_cursors (bid ask : Z) b : FastBook M :=
  mkBook (listener_ b) (cfg_ b) (band_set_ b) (base_ b) (ladder_ b)
    (fb_bids_ b) (fb_asks_ b) bid ask (pool_ b) (free_ b) (index_ b) (next_match_id_ b).

Definition set_pool (p : list FOrder) b : FastBook M :=
  mkBook (listener_ b) (cfg_ b) (band_set_ b) (base_ b) (ladder_ b)
    (fb_bids_ b) (fb_asks_ b) (bid_cursor_ b) (ask_cursor_ b) p (free_ b)
    (index_ b) (next_match_id_ b).

Definition set_free (f : list Z) b : FastBook M :=
  mkBook (listener_ b) (cfg_ b) (band_set_ b) (base_ b) (ladder_ b)
    (fb_bids_ b) (fb_asks_ b) (bid_cursor_ b) (ask_cursor_ b) (pool_ b) f
    (index_ b) (next_match_id_ b).

Definition set_index (i : M) b : FastBook M :=
  mkBook (listener_ b) (cfg_ b) (band_set_ b) (base_ b) (ladder_ b)
    (fb_bids_ b) (fb_asks_ b) (bid_cursor_ b) (ask_cursor_ b) (pool_ b) (free_ b)
    i (next_match_id_ b).

Definition set_match_id (m : Z) b : FastBook M :=
  mkBook (listener_ b) (cfg_ b) (band_set_ b) (base_ b) (ladder_ b)
    (fb_bids_ b) (fb_asks_ b) (bid_cursor_ b) (ask_cursor_ b) (pool_ b) (free_ b)
    (index_ b) m.

Definition set_open (q : Qty) (o : FOrder) : FOrder :=
  mkFOrder (f_id o) (f_price o) q (f_prev o) (f_next o) (f_side o).
Definition set_prev (i : Z) (o : FOrder) : FOrder :=
  mkFOrder (f_id o) (f_price o) (f_open o) i (f_next o) (f_side o).
Definition set_next (i : Z) (o : FOrder) : FOrder :=
  mkFOrder (f_id o) (f_price o) (f_open o) (f_prev o) i (f_side o).

(** [pool_[i] = f(pool_[i])]. *)
Definition modify_pool (i : Z) (f : FOrder -> FOrder) (p : list FOrder)
    : option (list FOrder) :=
  o ← p !z! i; Some (<z[i := f o]> p).

(** ** Levels *)

(** Prices are [int64], so the difference may overflow; [off % tick] truncates
    and a tick is positive. *)
Definition tick_index (price : Price) b : option Z :=
  if negb (band_set_ b) then Some (-1)
  else
    off ← int64 (price - base_ b);
    if (off <? 0) || negb (Z.rem off (tick (cfg_ b)) =? 0) then Some (-1)
    else
      let idx := Z.quot off (tick (cfg_ b)) in
      Some (if lengthZ (ladder_ b) <=? idx then -1 else idx).

Definition price_at (idx : Z) b : option Price :=
  off ← int64 (idx * tick (cfg_ b)); int64 (base_ b + off).

(** A [Level&]: an element of the ladder or a node of a fallback map. *)
Inductive LevelRef :=
  | InLadder (t : Z)
  | InFallback (s : Side) (px : Price).

Definition load (r : LevelRef) b : option Level :=
  match r with
  | InLadder t => ladder_ b !z! t
  | InFallback s px => StdMap.find px (fallback s b)
  end.

Definition store (r : LevelRef) (l : Level) b : FastBook M :=
  match r with
  | InLadder t => set_ladder (<z[t := l]> (ladder_ b)) b
  | InFallback s px => set_fallback s (StdMap.update px (fun _ => l) (fallback s b)) b
  end.

(** [operator[]] creates the missing fallback level. *)
Definition level_for (side : Side) (price : Price) b : option (LevelRef * FastBook M) :=
  t ← tick_index price b;
  Some (if 0 <=? t then (InLadder t, b)
        else (InFallback side price,
              set_fallback side
                (StdMap.upsert (before side) new_level price (fun l => l) (fallback side b)) b)).

Definition erase_level_if_fallback (side : Side) (price : Price) (lvl : Level) b
    : option (FastBook M) :=
  if negb (l_head lvl =? kNil) then Some b
  else
    t ← tick_index price b;
    Some (if 0 <=? t then b
          else set_fallback side (StdMap.erase price (fallback side b)) b).

(** ** The arena *)

Definition alloc_order (id : OrderId) (side : Side) (price : Price) (qty : Qty) b
    : option (Z * FastBook M) :=
  let '(idx, b1) :=
    match free_ b with
    | idx :: free' => (idx, set_free free' b)
    | [] => (u32 (lengthZ (pool_ b)),
             set_pool (pool_ b ++ [mkFOrder 0 0 0 0 0 (RawSide 0)]) b)
    end in
  pool ← modify_pool idx (fun _ => mkFOrder id price qty kNil kNil side) (pool_ b1);
  Some (idx, set_pool pool b1).

Definition free_order (idx : Z) b : FastBook M := set_free (idx :: free_ b) b.

Definition unlink (lvl : Level) (idx : Z) (pool : list FOrder)
    : option (Level * list FOrder) :=
  o ← pool !z! idx;
  '(lvl1, pool1) ←
    (if negb (f_prev o =? kNil) then
       p ← modify_pool (f_prev o) (set_next (f_next o)) pool; Some (lvl, p)
     else Some (mkLevel (l_total lvl) (f_next o) (l_tail lvl), pool));
  '(lvl2, pool2) ←
    (if negb (f_next o =? kNil) then
       p ← modify_pool (f_next o) (set_prev (f_prev o)) pool1; Some (lvl1, p)
     else Some (mkLevel (l_total lvl1) (l_head lvl1) (f_prev o), pool1));
  pool3 ← modify_pool idx (fun o => set_next kNil (set_prev kNil o)) pool2;
  Some (lvl2, pool3).

(** The first resting order centres the band on its price. *)
Definition set_band (price : Price) b : option (FastBook M) :=
  if band_set_ b then Some b
  else
    half ← int64 (band_half_ticks (cfg_ b) * tick (cfg_ b));
    base ← int64 (price - half);
    let n := 2 * band_half_ticks (cfg_ b) + 1 in
    Some (mkBook (listener_ b) (cfg_ b) true base
      (replicate (Z.to_nat n) new_level)
      (fb_bids_ b) (fb_asks_ b) (-1) n (pool_ b) (free_ b) (index_ b) (next_match_id_ b)).

(** The end of [rest]: widen the cursor of the order's side. *)
Definition bump_cursors (side : Side) (price : Price) b : option (FastBook M) :=
  t ← tick_index price b;
  Some (if 0 <=? t then
          set_cursors
            (if bool_decide (side = Buy) && (bid_cursor_ b <? t) then t else bid_cursor_ b)
            (if bool_decide (side = Sell) && (t <? ask_cursor_ b) then t else ask_cursor_ b) b
        else b).

Definition rest (id : OrderId) (side : Side) (price : Price) (qty : Qty) b
    : option (FastBook M) :=
  b0 ← set_band price b;
  '(r, b1) ← level_for side price b0;
  '(idx, b2) ← alloc_order id side price qty b1;
  lvl ← load r b2;
  pool1 ← modify_pool idx (set_prev (l_tail lvl)) (pool_ b2);
  '(lvl1, pool2) ←
    (if negb (l_tail lvl =? kNil) then
       p ← modify_pool (l_tail lvl) (set_next idx) pool1; Some (lvl, p)
     else Some (mkLevel (l_total lvl) idx (l_tail lvl), pool1));
  let lvl2 := mkLevel (u32 (l_total lvl1 + qty)) (l_head lvl1) idx in
  let b3 := store r lvl2 (set_pool pool2 b2) in
  index ← oi_insert id idx (index_ b3);
  bump_cursors side price (set_index index b3).

Definition remove_resting (idx : Z) b : option (FastBook M) :=
  o ← pool_ b !z! idx;
  '(r, b1) ← level_for (f_side o) (f_price o) b;
  lvl ← load r b1;
  let lvl1 := mkLevel (u32 (l_total lvl - f_open o)) (l_head lvl) (l_tail lvl) in
  '(lvl2, pool) ← unlink lvl1 idx (pool_ b1);
  let b2 := store r lvl2 (set_pool pool b1) in
  '(_, index) ← oi_erase (f_id o) (index_ b2);
  let b3 := free_order idx (set_index index b2) in
  erase_level_if_fallback (f_side o) (f_price o) lvl2 b3.

(** ** Best prices *)

(** [lvl.head != kNil && pool_[lvl.head].side == side] *)
Definition level_has (side : Side) (t : Z) b : option bool :=
  lvl ← ladder_ b !z! t;
  if l_head lvl =? kNil then Some false
  else o ← pool_ b !z! l_head lvl; Some (bool_decide (f_side o = side)).

(** The loop of [ladder_best_bid], at [t = n - 1]. *)
Fixpoint scan_bids (n : nat) b : option Z :=
  match n with
  | O => Some (-1)
  | S n' =>
      h ← level_has Buy (Z.of_nat n') b;
      if h : bool then Some (Z.of_nat n') else scan_bids n' b
  end.

Definition ladder_best_bid b : option (Z * FastBook M) :=
  let t := Z.min (bid_cursor_ b) (lengthZ (ladder_ b) - 1) in
  t' ← (if t <? 0 then Some t else scan_bids (Z.to_nat (t + 1)) b);
  Some (t', set_cursors t' (ask_cursor_ b) b).

(** The loop of [ladder_best_ask], with [n] levels left from [t]. *)
Fixpoint scan_asks (n : nat) (t : Z) b : option Z :=
  match n with
  | O => Some t
  | S n' =>
      h ← level_has Sell t b;
      if h : bool then Some t else scan_asks n' (t + 1) b
  end.

Definition ladder_best_ask b : option (Z * FastBook M) :=
  let n := lengthZ (ladder_ b) in
  let t := Z.max (ask_cursor_ b) 0 in
  t' ← scan_asks (Z.to_nat (n - t)) t b;
  Some ((if t' <? n then t' else -1), set_cursors (bid_cursor_ b) t' b).

(** [ladder_best_ask] for [Sell], [ladder_best_bid] for [Buy]. *)
Definition ladder_best (side : Side) b : option (Z * FastBook M) :=
  if is_buy side then ladder_best_bid b else ladder_best_ask b.

(** [band_set_ ? ladder_best_...() : -1] *)
Definition ladder_best_if_set (side : Side) b : option (Z * FastBook M) :=
  if band_set_ b then ladder_best side b else Some (-1, b).

(** The better of the ladder's and the fallback map's best levels: the shared
    selection of [best_bid], [best_ask] and [match]. The last component is
    [from_fallback]. *)
Definition best_level (side : Side) b
    : option (option (Price * LevelRef * bool) * FastBook M) :=
  '(t, b1) ← ladder_best_if_set side b;
  lad ← (if 0 <=? t then px ← price_at t b1; Some (Some (px, InLadder t, false))
         else Some None);
  Some
    (match fallback side b1 with
     | (fb, _) :: _ =>
         match lad with
         | Some (p, _, _) => if before side fb p then Some (fb, InFallback side fb, true) else lad
         | None => Some (fb, InFallback side fb, true)
         end
     | [] => lad
     end, b1).

Definition best_price (r : option (Price * LevelRef * bool)) : option Price :=
  match r with Some (p, _, _) => Some p | None => None end.

Definition best_bid b : option (option Price * FastBook M) :=
  '(r, b1) ← best_level Buy b; Some (best_price r, b1).

Definition best_ask b : option (option Price * FastBook M) :=
  '(r, b1) ← best_level Sell b; Some (best_price r, b1).

Definition would_cross (side : Side) (price : Price) b : option (bool * FastBook M) :=
  '(opp, b1) ← (if is_buy side then best_ask b else best_bid b);
  Some (match opp with Some p => crosses side price p | None => false end, b1).

(** ** Matching *)

Fixpoint consume_level (fuel : nat) (lvl : Level) (level_price : Price)
    (aggressor : OrderId) (aggressor_side : Side) (want filled : Qty) b
    : option (Qty * Level * FastBook M) :=
  match fuel with
  | O => None
  | S n =>
      if negb ((0 <? want) && negb (l_head lvl =? kNil)) then Some (filled, lvl, b)
      else
        let idx := l_head lvl in
        o ← pool_ b !z! idx;
        let exec := if want <? f_open o then want else f_open o in
        let o' := set_open (u32 (f_open o - exec)) o in
        let b1 := set_pool (<z[idx := o']> (pool_ b)) b in
        let lvl1 := mkLevel (u32 (l_total lvl - exec)) (l_head lvl) (l_tail lvl) in
        let want' := u32 (want - exec) in
        let filled' := u32 (filled + exec) in
        let b2 := emit (on_executed (mkExecuted (f_id o') aggressor aggressor_side
                          level_price exec (next_match_id_ b1))) b1 in
        let b3 := set_match_id (u64 (next_match_id_ b2 + 1)) b2 in
        if f_open o' =? 0 then
          '(_, index) ← oi_erase (f_id o') (index_ b3);
          let b4 := set_index index b3 in
          '(lvl2, pool) ← unlink lvl1 idx (pool_ b4);
          let b5 := free_order idx (set_pool pool b4) in
          consume_level n lvl2 level_price aggressor aggressor_side want' filled' b5
        else
          consume_level n lvl1 level_price aggressor aggressor_side want' filled' b3
  end.

(** The loop of [match]. *)
Fixpoint match_loop (fuel : nat) (id : OrderId) (side : Side) (limit : Price)
    (qty filled : Qty) b : option (Qty * FastBook M) :=
  match fuel with
  | O => None
  | S n =>
      if negb (0 <? qty) then Some (filled, b)
      else
        '(best, b1) ← best_level (opposite side) b;
        match best with
        | None => Some (filled, b1)
        | Some (best_price, r, from_fallback) =>
            if negb (crosses side limit best_price) then Some (filled, b1)
            else
              lvl ← load r b1;
              '(got, lvl', b2) ← consume_level (S (S (length (pool_ b1)))) lvl best_price
                                   id side qty 0 b1;
              let b3 := store r lvl' b2 in
              let b4 := if (l_head lvl' =? kNil) && from_fallback
                        then set_fallback (opposite side)
                               (StdMap.erase best_price (fallback (opposite side) b3)) b3
                        else b3 in
              match_loop n id side limit (u32 (qty - got)) (u32 (filled + got)) b4
        end
  end.

Definition match_ (id : OrderId) (side : Side) (limit : Price) (qty : Qty) b
    : option (Qty * FastBook M) :=
  match_loop (S (S (length (pool_ b)))) id side limit qty 0 b.

(** [index_.contains(id)] *)
Definition contains (id : OrderId) b : option bool :=
  r ← oi_find id (index_ b); Some (bool_decide (is_Some r)).

(** The common tail of [add] and of a crossing [replace]. *)
Definition match_and_rest (id : OrderId) (side : Side) (price : Price) (qty : Qty) b
    : option (Qty * Qty * FastBook M) :=
  '(filled, b1) ← match_ id side price qty b;
  let resting := u32 (qty - filled) in
  if 0 <? resting then
    b2 ← rest id side price resting b1;
    Some (filled, resting, emit (on_added (mkAdded id side price resting)) b2)
  else Some (filled, resting, b1).

Definition add (id : OrderId) (side : Side) (price : Price) (qty : Qty) b
    : option (AddResult * FastBook M) :=
  if price <=? 0 then Some (mkAddResult BadPrice 0 0, b)
  else if qty =? 0 then Some (mkAddResult BadQty 0 0, b)
  else
    dup ← contains id b;
    if dup : bool then Some (mkAddResult DuplicateId 0 0, b)
    else
      '(filled, resting, b1) ← match_and_rest id side price qty b;
      Some (mkAddResult AddOk filled resting, b1).

Definition execute_ioc (id : OrderId) (side : Side) (limit : Price) (qty : Qty) b
    : option (Qty * FastBook M) :=
  match_ id side limit qty b.

(** The ladder loop of [matchable] for an incoming buy, from level [t] up. *)
Fixpoint sum_asks (n : nat) (t : Z) (limit : Price) (total : Qty) b : option Qty :=
  match n with
  | O => Some total
  | S n' =>
      lvl ← ladder_ b !z! t;
      h ← level_has Sell t b;
      if negb h then sum_asks n' (t + 1) limit total b
      else
        px ← price_at t b;
        if limit <? px then Some total
        else sum_asks n' (t + 1) limit (u32 (total + l_total lvl)) b
  end.

(** The ladder loop of [matchable] for an incoming sell, at [t = n - 1]. *)
Fixpoint sum_bids (n : nat) (limit : Price) (total : Qty) b : option Qty :=
  match n with
  | O => Some total
  | S n' =>
      let t := Z.of_nat n' in
      lvl ← ladder_ b !z! t;
      h ← level_has Buy t b;
      if negb h then sum_bids n' limit total b
      else
        px ← price_at t b;
        if px <? limit then Some total
        else sum_bids n' limit (u32 (total + l_total lvl)) b
  end.

(** The fallback loop of [matchable]. *)
Fixpoint sum_fallback (side : Side) (limit : Price) (m : list (Price * Level))
    (total : Qty) : Qty :=
  match m with
  | [] => total
  | (px, lvl) :: m' =>
      if negb (crosses side limit px) then total
      else sum_fallback side limit m' (u32 (total + l_total lvl))
  end.

Definition matchable (side : Side) (limit : Price) b : option (Qty * FastBook M) :=
  if is_buy side then
    '(t, b1) ← ladder_best_if_set Sell b;
    total ← (if 0 <=? t then sum_asks (Z.to_nat (lengthZ (ladder_ b1) - t)) t limit 0 b1
             else Some 0);
    Some (sum_fallback side limit (fb_asks_ b1) total, b1)
  else
    '(t, b1) ← ladder_best_if_set Buy b;
    total ← (if 0 <=? t then sum_bids (Z.to_nat (t + 1)) limit 0 b1 else Some 0);
    Some (sum_fallback side limit (fb_bids_ b1) total, b1).

(** ** Cancel and replace *)

Definition cancel (id : OrderId) (keep_qty : Qty) b : option (bool * FastBook M) :=
  pidx ← oi_find id (index_ b);
  match pidx with
  | None => Some (false, b)
  | Some idx =>
      o ← pool_ b !z! idx;
      if f_open o <=? keep_qty then Some (false, b)
      else if keep_qty =? 0 then
        let canceled := f_open o in
        b1 ← remove_resting idx b;
        Some (true, emit (on_canceled (mkCanceled id canceled true)) b1)
      else
        let canceled := u32 (f_open o - keep_qty) in
        let b1 := set_pool (<z[idx := set_open keep_qty o]> (pool_ b)) b in
        '(r, b2) ← level_for (f_side o) (f_price o) b1;
        lvl ← load r b2;
        let b3 := store r (mkLevel (u32 (l_total lvl - canceled)) (l_head lvl) (l_tail lvl)) b2 in
        Some (true, emit (on_canceled (mkCanceled id canceled false)) b3)
  end.

Definition replace (old_id new_id : OrderId) (new_price : Price) (new_qty : Qty) b
    : option (bool * FastBook M) :=
  pidx ← oi_find old_id (index_ b);
  match pidx with
  | None => Some (false, b)
  | Some idx =>
      dup ← contains new_id b;
      if (new_id =? old_id) || dup then Some (false, b)
      else if (new_price <=? 0) || (new_qty =? 0) then Some (false, b)
      else
        o ← pool_ b !z! idx;
        let side := f_side o in
        let old_open := f_open o in
        b1 ← remove_resting idx b;
        '(cross, b2) ← would_cross side new_price b1;
        if cross : bool then
          let b3 := emit (on_canceled (mkCanceled old_id old_open true)) b2 in
          '(_, _, b4) ← match_and_rest new_id side new_price new_qty b3;
          Some (true, b4)
        else
          b3 ← rest new_id side new_price new_qty b2;
          Some (true, emit (on_replaced
                  (mkReplaced old_id new_id side new_price new_qty)) b3)
  end.

(** ** Snapshot *)

(** [for (i = lvl->head; i != kNil; i = pool_[i].next)], collecting the
    orders met. *)
Fixpoint walk (fuel : nat) (i : Z) (pool : list FOrder) : option (list (Z * FOrder)) :=
  match fuel with
  | O => None
  | S n =>
      if i =? kNil then Some []
      else o ← pool !z! i; os ← walk n (f_next o) pool; Some ((i, o) :: os)
  end.

Definition snapshot_level b (e : Price * Level) : option SnapshotLevel :=
  os ← walk (S (length (pool_ b))) (l_head e.2) (pool_ b);
  Some (mkSnapLevel e.1 (map (fun io => mkSnapOrder (f_id io.2) (f_open io.2)) os)).

(** The nonempty ladder levels from [i] on whose orders are (or are not) buys. *)
Fixpoint collect_ladder (buys : bool) (i : Z) (ls : list Level) b
    : option (list (Price * Level)) :=
  match ls with
  | [] => Some []
  | lvl :: ls' =>
      if l_head lvl =? kNil then collect_ladder buys (i + 1) ls' b
      else
        px ← price_at i b;
        o ← pool_ b !z! l_head lvl;
        out ← collect_ladder buys (i + 1) ls' b;
        Some (if Bool.eqb (is_buy (f_side o)) buys then (px, lvl) :: out else out)
  end.

(** The order in which [std::sort] is asked to put the levels of a side; the
    prices are distinct, so any sorting algorithm gives the same vector. *)
Definition sort_le (s : Side) (x y : Price * Level) : Prop := before s y.1 x.1 = false.

#[global] Instance sort_le_dec s : RelDecision (sort_le s).
Proof. intros x y. unfold sort_le. apply _. Defined.

Definition snapshot_side (s : Side) b : option (list SnapshotLevel) :=
  lad ← collect_ladder (is_buy s) 0 (ladder_ b) b;
  mapM (snapshot_level b) (merge_sort (sort_le s) (lad ++ fallback s b)).

Definition snapshot b : option BookSnapshot :=
  bids ← snapshot_side Buy b;
  asks ← snapshot_side Sell b;
  Some (mkSnapshot bids asks).

(** ** Invariant check *)

Fixpoint check_walk (fuel : nat) (i prev : Z) (price : Price) (side : Side)
    (sum count : Z) b : outcome (Z * Z * Z) :=
  match fuel with
  | O => Undefined
  | S n =>
      if i =? kNil then Ok (sum, prev, count)
      else
        o ← deref (pool_ b !z! i);
        _ ← fail_if (f_open o =? 0) "resting order with zero open";
        _ ← fail_if (negb (f_price o =? price)) "order price != level price";
        _ ← fail_if (bool_decide (f_side o <> side)) "mixed sides within level";
        _ ← fail_if (negb (f_prev o =? prev)) "broken prev link";
        pidx ← deref (oi_find (f_id o) (index_ b));
        _ ← fail_if (bool_decide (pidx <> Some i)) "index does not map to order";
        check_walk n (f_next o) i price side (u32 (sum + f_open o)) (count + 1) b
  end.

Definition check_level (price : Price) (lvl : Level) (expect_side : option Side)
    (count : Z) b : outcome Z :=
  if l_head lvl =? kNil then
    _ ← fail_if (negb (l_total lvl =? 0)) "empty level with nonzero total";
    _ ← fail_if (negb (l_tail lvl =? kNil)) "empty level with tail set";
    Ok count
  else
    o ← deref (pool_ b !z! l_head lvl);
    let side := f_side o in
    _ ← fail_if (match expect_side with
                 | Some e => bool_decide (side <> e)
                 | None => false
                 end) "fallback level holds wrong side";
    '(sum, prev, count') ←
      check_walk (S (length (pool_ b))) (l_head lvl) kNil price side 0 count b;
    _ ← fail_if (negb (prev =? l_tail lvl)) "tail link mismatch";
    _ ← fail_if (negb (sum =? l_total lvl)) "level total != sum of open";
    Ok count'.

Fixpoint check_ladder (i : Z) (ls : list Level) (count : Z) b : outcome Z :=
  match ls with
  | [] => Ok count
  | lvl :: ls' =>
      px ← deref (price_at i b);
      count' ← check_level px lvl None count b;
      check_ladder (i + 1) ls' count' b
  end.

Fixpoint check_fallback (side : Side) (m : list (Price * Level)) (count : Z) b
    : outcome Z :=
  match m with
  | [] => Ok count
  | (px, lvl) :: m' =>
      _ ← fail_if (l_head lvl =? kNil)
            (if is_buy side then "empty fallback bid level not erased"
             else "empty fallback ask level not erased");
      count' ← check_level px lvl (Some side) count b;
      check_fallback side m' count' b
  end.

(** The returned book has its cursors moved by [best_bid] and [best_ask]. *)
Definition check_invariants b : outcome (FastBook M) :=
  c1 ← check_ladder 0 (ladder_ b) 0 b;
  c2 ← check_fallback Buy (fb_bids_ b) c1 b;
  c3 ← check_fallback Sell (fb_asks_ b) c2 b;
  _ ← fail_if (negb (c3 =? oi_size (index_ b))) "index size != resting order count";
  '(bb, b1) ← deref (best_bid b);
  '(ba, b2) ← deref (best_ask b1);
  _ ← fail_if (match bb, ba with Some p, Some q => q <=? p | _, _ => false end)
        "book crossed or locked at rest";
  Ok b2.

Definition step (op : BookOp) b : option (OpResult * FastBook M) :=
  match op with
  | OpAdd id side px qty => '(r, b') ← add id side px qty b; Some (RAdd r, b')
  | OpCancel id keep => '(r, b') ← cancel id keep b; Some (RBool r, b')
  | OpReplace o n px qty => '(r, b') ← replace o n px qty b; Some (RBool r, b')
  end.
End Book.
End FastBook.
