(* ===== verification/LadderLinks.v ===== *)
(** The intrusive lists of the fast book: what the [prev]/[next] links of a
    level's orders look like in the arena, and what unlinking an order and
    appending one do to them. *)

From S2P Require Import Prelude StdMap BookTypes BookSpec OrderIndex LadderBook.

Import FastBook.

(** * Segments of a linked list

    [own] is the id index: it says in which arena slot an order lives. *)

Definition slot_of (own : gmap OrderId Z) (o : SnapshotOrder) : Z :=
  default kNil (own !! so_id o).

(** The slot of the first order of [os], or [nx] when there is none. *)
Definition first_slot (own : gmap OrderId Z) (os : list SnapshotOrder) (nx : Z) : Z :=
  match os with [] => nx | o :: _ => slot_of own o end.

(** The slot of the last order of [os], or [pv] when there is none. *)
Fixpoint last_slot (own : gmap OrderId Z) (pv : Z) (os : list SnapshotOrder) : Z :=
  match os with [] => pv | o :: os' => last_slot own (slot_of own o) os' end.

(** The orders [os], of side [s] at price [px], are linked in this order; [pv]
    is the link before the first and [nx] the link after the last. *)
Fixpoint seg (pool : list FOrder) (own : gmap OrderId Z) (s : Side) (px : Price)
    (pv : Z) (os : list SnapshotOrder) (nx : Z) : Prop :=
  match os with
  | [] => True
  | o :: os' =>
      exists i, own !! so_id o = Some i /\
        pool !z! i = Some (mkFOrder (so_id o) px (so_qty o) pv (first_slot own os' nx) s) /\
        seg pool own s px i os' nx
  end.

Definition ids_of (os : list SnapshotOrder) : list OrderId := map so_id os.

Lemma ids_of_app os1 os2 : ids_of (os1 ++ os2) = ids_of os1 ++ ids_of os2.
Proof. apply map_app. Qed.

Lemma ids_of_cons o os : ids_of (o :: os) = so_id o :: ids_of os.
Proof. done. Qed.

(** [pool'] is [pool] but for the fields other than the id of slots that hold
    an order of [ids]. *)
Definition same_but (ids : list OrderId) (pool pool' : list FOrder) : Prop :=
  lengthZ pool' = lengthZ pool /\
  (forall i x, pool !z! i = Some x -> exists x', pool' !z! i = Some x' /\ f_id x' = f_id x) /\
  forall i x, pool !z! i = Some x -> f_id x ∉ ids -> pool' !z! i = Some x.

Lemma same_but_refl ids pool : same_but ids pool pool.
Proof. split_and!; eauto. Qed.

Lemma same_but_trans ids p1 p2 p3 : same_but ids p1 p2 -> same_but ids p2 p3 -> same_but ids p1 p3.
Proof.
  intros (Hl1 & Hi1 & H1) (Hl2 & Hi2 & H2). split_and!; [lia| |].
  - intros i x Hx. destruct (Hi1 _ _ Hx) as (y & Hy & <-). by apply Hi2.
  - intros i x Hx Hn. eauto.
Qed.

Lemma same_but_mono ids ids' p1 p2 :
  same_but ids p1 p2 -> (forall i, i ∈ ids -> i ∈ ids') -> same_but ids' p1 p2.
Proof. intros (Hl & Hi & H) Hsub. split_and!; [done|done|]. intros i x Hx Hn. apply H; eauto. Qed.

Lemma same_but_insert ids i x y pool :
  pool !z! i = Some x -> f_id x ∈ ids -> f_id y = f_id x ->
  same_but ids pool (<z[i := y]> pool).
Proof.
  intros Hx Hin Hid. pose proof (lookupZ_Some_bounds _ _ _ Hx).
  split_and!; [apply lengthZ_insertZ| |].
  - intros j z Hz. rewrite lookupZ_insertZ by done.
    destruct (Z.eqb_spec i j) as [<-|]; [simplify_eq|]; eauto.
  - intros j z Hz Hn. rewrite lookupZ_insertZ_ne; [done|]. intros ->. by simplify_eq.
Qed.

Section seg_facts.
Context (s : Side) (px : Price).
Implicit Types (pool : list FOrder) (own : gmap OrderId Z) (os : list SnapshotOrder).

Lemma slot_of_Some own o i : own !! so_id o = Some i -> slot_of own o = i.
Proof. unfold slot_of. by intros ->. Qed.

Lemma first_slot_app own os1 os2 nx :
  first_slot own (os1 ++ os2) nx = first_slot own os1 (first_slot own os2 nx).
Proof. by destruct os1. Qed.

Lemma last_slot_app own pv os1 os2 :
  last_slot own pv (os1 ++ os2) = last_slot own (last_slot own pv os1) os2.
Proof. revert pv. induction os1; cbn; auto. Qed.

Lemma seg_app pool own pv os1 os2 nx :
  seg pool own s px pv (os1 ++ os2) nx <->
  seg pool own s px pv os1 (first_slot own os2 nx) /\
  seg pool own s px (last_slot own pv os1) os2 nx.
Proof.
  revert pv. induction os1 as [|o os1 IH]; intros pv; cbn; [naive_solver|].
  setoid_rewrite IH. setoid_rewrite first_slot_app. split.
  - intros (i & Hi & Hp & H1 & H2). rewrite (slot_of_Some _ _ _ Hi). eauto 10.
  - intros ((i & Hi & Hp & H1) & H2). rewrite (slot_of_Some _ _ _ Hi) in H2. eauto 10.
Qed.

(** Every linked order is in its slot, with its id, price, quantity, side. *)
Lemma seg_slot pool own pv os nx o :
  seg pool own s px pv os nx -> o ∈ os ->
  exists i p n, own !! so_id o = Some i /\
    pool !z! i = Some (mkFOrder (so_id o) px (so_qty o) p n s).
Proof.
  revert pv. induction os as [|o' os IH]; intros pv; cbn; [set_solver|].
  intros (i & Hi & Hp & Hs) [->|Ho]%elem_of_cons; [eauto 10|by eapply IH].
Qed.

(** A segment depends only on the slots of its own orders. *)
Lemma seg_frame pool pool' own own' pv os nx :
  seg pool own s px pv os nx ->
  (forall o i, o ∈ os -> own !! so_id o = Some i ->
     own' !! so_id o = Some i /\ pool' !z! i = pool !z! i) ->
  seg pool' own' s px pv os nx.
Proof.
  revert pv. induction os as [|o os IH]; intros pv; cbn; [done|].
  intros (i & Hi & Hp & Hs) Hf.
  destruct (Hf o i) as [Hi' Hp']; [set_solver|done|]. exists i. rewrite Hp', Hp.
  split_and!; [done| |apply IH; [done|]; intros; apply Hf; [set_solver|done]].
  do 2 f_equal. destruct os as [|o2 os]; cbn; [done|].
  destruct Hs as (j & Hj & _). destruct (Hf o2 j) as [Hj' _]; [set_solver|done|].
  by rewrite (slot_of_Some _ _ _ Hj), (slot_of_Some _ _ _ Hj').
Qed.

Lemma first_slot_frame own own' os nx :
  (forall o, o ∈ os -> own' !! so_id o = own !! so_id o) ->
  first_slot own' os nx = first_slot own os nx.
Proof. intros Hf. destruct os; cbn; [done|]. unfold slot_of. rewrite Hf by set_solver. done. Qed.

Lemma last_slot_frame own own' pv os :
  (forall o, o ∈ os -> own' !! so_id o = own !! so_id o) ->
  last_slot own' pv os = last_slot own pv os.
Proof.
  revert pv. induction os as [|o os IH]; intros pv Hf; cbn; [done|].
  replace (slot_of own' o) with (slot_of own o) by (unfold slot_of; by rewrite Hf by set_solver).
  apply IH. intros; apply Hf; set_solver.
Qed.

(** Different orders have different slots. *)
Lemma seg_slot_inj pool own pv os nx o o' i :
  seg pool own s px pv os nx -> o ∈ os -> own !! so_id o = Some i ->
  (exists x, pool !z! i = Some x /\ f_id x = so_id o') -> so_id o = so_id o'.
Proof.
  intros Hs Ho Hi (x & Hx & Hid).
  destruct (seg_slot _ _ _ _ _ _ Hs Ho) as (j & p & n & Hj & Hp). by simplify_eq.
Qed.

(** Changing slots that belong to none of the segment's orders. *)
Lemma seg_frame_id pool pool' own pv os nx :
  seg pool own s px pv os nx ->
  (forall i x, pool !z! i = Some x -> f_id x ∈ map so_id os -> pool' !z! i = pool !z! i) ->
  seg pool' own s px pv os nx.
Proof.
  intros Hs Hf. eapply seg_frame; [done|]. intros o i Ho Hi. split; [done|].
  destruct (seg_slot _ _ _ _ _ _ Hs Ho) as (j & p & n & Hj & Hp). simplify_eq.
  eapply Hf; [done|]. apply list_elem_of_fmap. by exists o.
Qed.

(** Rewriting the [next] link of the last order. *)
Lemma seg_set_next pool own pv os nx nx' :
  seg pool own s px pv os nx -> NoDup (map so_id os) -> os <> [] ->
  exists pool', modify_pool (last_slot own pv os) (set_next nx') pool = Some pool' /\
    seg pool' own s px pv os nx' /\ same_but (ids_of os) pool pool'.
Proof.
  revert pv. induction os as [|o os IH]; intros pv Hs Hnd Hne; [done|].
  destruct Hs as (i & Hi & Hp & Hs). cbn in Hnd. apply NoDup_cons in Hnd as [Hni Hnd].
  pose proof (lookupZ_Some_bounds _ _ _ Hp) as Hb. cbn [last_slot].
  destruct os as [|o2 os].
  - cbn. rewrite (slot_of_Some _ _ _ Hi). unfold modify_pool. rewrite Hp. cbn.
    eexists. split_and!; [done| |].
    + exists i. split_and!; [done|by rewrite lookupZ_insertZ_eq|done].
    + eapply same_but_insert; [done| |done]. by left.
  - rewrite (slot_of_Some _ _ _ Hi).
    destruct (IH i Hs Hnd) as (pool' & Hm & Hs' & Hb'); [done|].
    exists pool'. split_and!; [done| |].
    + exists i. split_and!; [done| |done]. by apply Hb'.
    + eapply same_but_mono; [done|]. rewrite (ids_of_cons o). set_solver.
Qed.

(** Rewriting the [prev] link of the first order. *)
Lemma seg_set_prev pool own pv pv' os nx :
  seg pool own s px pv os nx -> NoDup (map so_id os) -> os <> [] ->
  exists pool', modify_pool (first_slot own os nx) (set_prev pv') pool = Some pool' /\
    seg pool' own s px pv' os nx /\ same_but (ids_of os) pool pool'.
Proof.
  intros Hs Hnd Hne. destruct os as [|o os]; [done|].
  destruct Hs as (i & Hi & Hp & Hs). cbn in Hnd. apply NoDup_cons in Hnd as [Hni Hnd].
  pose proof (lookupZ_Some_bounds _ _ _ Hp) as Hb.
  cbn. rewrite (slot_of_Some _ _ _ Hi). unfold modify_pool. rewrite Hp. cbn.
  eexists. split_and!; [done| |].
  - exists i. split_and!; [done|by rewrite lookupZ_insertZ_eq|].
    eapply seg_frame_id; [done|]. intros j x Hx Hid.
    rewrite lookupZ_insertZ_ne; [done|]. intros ->. rewrite Hp in Hx. by simplify_eq.
  - eapply same_but_insert; [done| |done]. by left.
Qed.

Lemma last_slot_range pool own pv os nx :
  seg pool own s px pv os nx -> os <> [] -> 0 <= last_slot own pv os < lengthZ pool.
Proof.
  revert pv. induction os as [|o os IH]; intros pv Hs Hne; [done|].
  destruct Hs as (i & Hi & Hp & Hs). cbn. rewrite (slot_of_Some _ _ _ Hi).
  destruct os; [by eapply lookupZ_Some_bounds|]. by apply IH.
Qed.

Lemma first_slot_range pool own pv os nx :
  seg pool own s px pv os nx -> os <> [] -> 0 <= first_slot own os nx < lengthZ pool.
Proof.
  destruct os as [|o os]; intros Hs Hne; [done|]. destruct Hs as (i & Hi & Hp & _).
  cbn. rewrite (slot_of_Some _ _ _ Hi). by eapply lookupZ_Some_bounds.
Qed.
End seg_facts.

(** * Unlinking *)

Lemma seg_same_but s px pool pool' own pv os nx ids :
  seg pool own s px pv os nx -> same_but ids pool pool' ->
  (forall id, id ∈ ids -> id ∉ ids_of os) -> seg pool' own s px pv os nx.
Proof.
  intros Hs (_ & _ & Hf) Hd. eapply seg_frame_id; [done|]. intros i x Hx Hin.
  rewrite Hx. apply Hf; [done|]. intros Hi. by eapply Hd.
Qed.

(** The step [if (o.prev != kNil) pool_[o.prev].next = ... else lvl.head = ...]. *)
Lemma relink_next s px pool own os1 nx nx' tot hd tl :
  lengthZ pool <= kNil -> seg pool own s px kNil os1 nx -> NoDup (ids_of os1) ->
  hd = first_slot own os1 hd ->
  exists pool',
    (if negb (last_slot own kNil os1 =? kNil) then
       p ← modify_pool (last_slot own kNil os1) (set_next nx') pool;
       Some (mkLevel tot hd tl, p)
     else Some (mkLevel tot nx' tl, pool))
    = Some (mkLevel tot (first_slot own os1 nx') tl, pool') /\
    seg pool' own s px kNil os1 nx' /\ same_but (ids_of os1) pool pool'.
Proof.
  intros Hk Hs Hnd Hhd. destruct (decide (os1 = [])) as [->|Hne].
  - exists pool. cbn. split_and!; [done|done|apply same_but_refl].
  - destruct (seg_set_next s px _ _ _ _ _ nx' Hs Hnd Hne) as (p & Hm & Hs' & Hb).
    pose proof (last_slot_range _ _ _ _ _ _ _ Hs Hne).
    replace (last_slot own kNil os1 =? kNil) with false by lia. cbn [negb].
    rewrite Hm. cbn. exists p. split_and!; [|done|].
    + do 3 f_equal. rewrite Hhd. by destruct os1.
    + done.
Qed.

(** The step [if (o.next != kNil) pool_[o.next].prev = ... else lvl.tail = ...]. *)
Lemma relink_prev s px pool own os2 pv pv' tot hd tl :
  lengthZ pool <= kNil -> seg pool own s px pv os2 kNil -> NoDup (ids_of os2) ->
  (os2 <> [] -> tl = last_slot own pv' os2) ->
  exists pool',
    (if negb (first_slot own os2 kNil =? kNil) then
       p ← modify_pool (first_slot own os2 kNil) (set_prev pv') pool;
       Some (mkLevel tot hd tl, p)
     else Some (mkLevel tot hd pv', pool))
    = Some (mkLevel tot hd (last_slot own pv' os2), pool') /\
    seg pool' own s px pv' os2 kNil /\ same_but (ids_of os2) pool pool'.
Proof.
  intros Hk Hs Hnd Htl. destruct (decide (os2 = [])) as [->|Hne].
  - exists pool. cbn. split_and!; [done|done|apply same_but_refl].
  - destruct (seg_set_prev s px _ _ _ pv' _ _ Hs Hnd Hne) as (p & Hm & Hs' & Hb).
    pose proof (first_slot_range _ _ _ _ _ _ _ Hs Hne).
    replace (first_slot own os2 kNil =? kNil) with false by lia. cbn [negb].
    rewrite Hm. cbn. exists p. split_and!; [|done|].
    + by rewrite Htl.
    + done.
Qed.

Lemma unlink_spec s px pool own os1 o os2 idx tot :
  lengthZ pool <= kNil -> seg pool own s px kNil (os1 ++ o :: os2) kNil ->
  NoDup (ids_of (os1 ++ o :: os2)) -> own !! so_id o = Some idx ->
  exists pool',
    unlink (mkLevel tot (first_slot own (os1 ++ o :: os2) kNil)
              (last_slot own kNil (os1 ++ o :: os2))) idx pool
    = Some (mkLevel tot (first_slot own (os1 ++ os2) kNil)
              (last_slot own kNil (os1 ++ os2)), pool') /\
    seg pool' own s px kNil (os1 ++ os2) kNil /\
    same_but (ids_of (os1 ++ o :: os2)) pool pool'.
Proof.
  intros Hk Hs Hnd Hi. rewrite ids_of_app, ids_of_cons in Hnd.
  apply NoDup_app in Hnd as (Hnd1 & Hd & Hnd2). apply NoDup_cons in Hnd2 as [Hno Hnd2].
  apply seg_app in Hs as [Hs1 (i & Hi' & Hp & Hs2)]. rewrite Hi in Hi'. injection Hi' as <-.
  cbn [first_slot] in Hs1. rewrite (slot_of_Some _ _ _ Hi) in Hs1.
  assert (so_id o ∉ ids_of os1) as Ho1 by (intros Hx; by apply (Hd _ Hx); left).
  unfold unlink. rewrite Hp, obind_Some. cbn [f_prev f_next l_total l_head l_tail].
  destruct (relink_next s px pool own os1 idx (first_slot own os2 kNil) tot
              (first_slot own (os1 ++ o :: os2) kNil)
              (last_slot own kNil (os1 ++ o :: os2))) as (pool1 & -> & Hs1' & Hb1); [done..| |].
  { by destruct os1. }
  rewrite obind_Some. cbn [l_total l_head l_tail].
  assert (seg pool1 own s px idx os2 kNil) as Hs2'.
  { eapply seg_same_but; [done|done|]. intros id Hid Hid2. apply (Hd id Hid). by right. }
  assert (pool1 !z! idx = pool !z! idx) as Hp1 by (rewrite Hp; by apply Hb1).
  destruct (relink_prev s px pool1 own os2 idx (last_slot own kNil os1) tot
              (first_slot own os1 (first_slot own os2 kNil))
              (last_slot own kNil (os1 ++ o :: os2))) as (pool2 & -> & Hs2'' & Hb2); [|done..| |].
  { destruct Hb1 as [-> _]. done. }
  { intros Hne. rewrite last_slot_app. cbn. destruct os2; done. }
  rewrite obind_Some.
  assert (pool2 !z! idx = Some (mkFOrder (so_id o) px (so_qty o) (last_slot own kNil os1)
            (first_slot own os2 kNil) s)) as Hp2 by (apply Hb2; [by rewrite Hp1|done]).
  unfold modify_pool at 1. rewrite Hp2, !obind_Some.
  assert (same_but [so_id o] pool2 (<z[idx := set_next kNil (set_prev kNil
            (mkFOrder (so_id o) px (so_qty o) (last_slot own kNil os1)
            (first_slot own os2 kNil) s))]> pool2)) as Hb3
    by (eapply same_but_insert; [done|cbn; set_solver|done]).
  eexists. split_and!.
  - by rewrite first_slot_app, last_slot_app.
  - apply seg_app. split; (eapply seg_same_but; [|exact Hb3|set_solver]); [|done].
    eapply seg_same_but; [done|exact Hb2|]. intros id Hid Hid1. apply (Hd id Hid1). by right.
  - rewrite ids_of_app, ids_of_cons.
    eapply same_but_trans; [eapply same_but_mono; [exact Hb1|set_solver]|].
    eapply same_but_trans; [eapply same_but_mono; [exact Hb2|set_solver]|].
    eapply same_but_mono; [exact Hb3|set_solver].
Qed.

(** * Levels *)

(** What a [Level] holding the orders [os] contains. *)
Record encodes (pool : list FOrder) (own : gmap OrderId Z) (lvl : Level) (s : Side)
    (px : Price) (os : list SnapshotOrder) : Prop := mkEncodes {
  en_level : lvl = mkLevel (u32 (sum_by so_qty os)) (first_slot own os kNil)
                     (last_slot own kNil os);
  en_seg : seg pool own s px kNil os kNil;
  en_ids : NoDup (ids_of os);
  en_qty : Forall (fun o => fits 32 (so_qty o)) os }.

Lemma encodes_nil pool own s px : encodes pool own new_level s px [].
Proof. constructor; [done|done|constructor|constructor]. Qed.

Lemma encodes_head pool own lvl s px os :
  lengthZ pool <= kNil -> encodes pool own lvl s px os ->
  l_head lvl = kNil <-> os = [].
Proof.
  intros Hk [-> Hs _ _]. cbn. split; [|by intros ->]. intros Hh.
  destruct (decide (os = [])) as [|Hne]; [done|].
  pose proof (first_slot_range _ _ _ _ _ _ _ Hs Hne). lia.
Qed.

Lemma encodes_frame pool pool' own own' lvl s px os :
  encodes pool own lvl s px os ->
  (forall o i, o ∈ os -> own !! so_id o = Some i ->
     own' !! so_id o = Some i /\ pool' !z! i = pool !z! i) ->
  encodes pool' own' lvl s px os.
Proof.
  intros [-> Hs Hnd Hq] Hf.
  assert (forall o, o ∈ os -> own' !! so_id o = own !! so_id o) as Hown.
  { intros o Ho. destruct (seg_slot _ _ _ _ _ _ _ _ Hs Ho) as (i & _ & _ & Hi & _).
    rewrite Hi. by apply Hf. }
  constructor; [|by eapply seg_frame|done|done].
  by rewrite (first_slot_frame own own'), (last_slot_frame own own').
Qed.
