(* ===== verification/LadderInv.v ===== *)
(** The invariant of the fast book: how arena, free list, index, ladder,
    fallback maps and cursors stand for a table of FIFO queues, and how each
    primitive of the book changes that table. *)

From S2P Require Import Prelude StdMap BookTypes BookSpec OrderIndex LadderBook LadderLinks.

Import FastBook.

Section inv.
Context {M : Type} `{OrderIndexLaws M}.
Implicit Types (b : FastBook M).

Definition own b : gmap OrderId Z := oi_model (index_ b).

(** The arena: live orders and free slots share it without overlap, and the
    index leads to the slot that holds the id. *)
Record slots_ok b : Prop := mkSlotsOk {
  so_index : oi_ok (index_ b);
  so_pool : lengthZ (pool_ b) <= kNil;
  so_free_nodup : NoDup (free_ b);
  so_free_range : forall i, i ∈ free_ b -> 0 <= i < lengthZ (pool_ b);
  so_count : lengthZ (pool_ b) = Z.of_nat (size (own b)) + lengthZ (free_ b);
  so_live : forall id i, own b !! id = Some i ->
    i ∉ free_ b /\ exists x, pool_ b !z! i = Some x /\ f_id x = id }.

(** The fields that matching leaves alone. *)
Record same_frame b b' : Prop := mkSameFrame {
  sf_cfg : cfg_ b' = cfg_ b;
  sf_band : band_set_ b' = band_set_ b;
  sf_base : base_ b' = base_ b;
  sf_ladder : ladder_ b' = ladder_ b;
  sf_bids : fb_bids_ b' = fb_bids_ b;
  sf_asks : fb_asks_ b' = fb_asks_ b;
  sf_bid : bid_cursor_ b' = bid_cursor_ b;
  sf_ask : ask_cursor_ b' = ask_cursor_ b }.

Lemma same_frame_refl b : same_frame b b.
Proof. by constructor. Qed.

Lemma same_frame_trans b1 b2 b3 : same_frame b1 b2 -> same_frame b2 b3 -> same_frame b1 b3.
Proof. intros [] []. constructor; congruence. Qed.

(** Removing an id from the index and its slot to the free list. *)
Lemma slots_ok_release b b' id i :
  slots_ok b -> own b !! id = Some i ->
  same_but [] (pool_ b) (pool_ b') \/ (exists ids, same_but ids (pool_ b) (pool_ b')) ->
  oi_ok (index_ b') -> own b' = delete id (own b) -> free_ b' = i :: free_ b ->
  slots_ok b'.
Proof.
  intros [Hx Hk Hnd Hr Hct Hl] Hi Hsb Hx' Ho Hf.
  assert (exists ids, same_but ids (pool_ b) (pool_ b')) as (ids & Hlen & Hids & _)
    by (destruct Hsb as [?|?]; eauto).
  destruct (Hl _ _ Hi) as (Hni & x & Hpx & Hid).
  constructor; [done|lia|rewrite Hf; by constructor| | |].
  - rewrite Hf, Hlen. intros j [->|Hj]%elem_of_cons; [by eapply lookupZ_Some_bounds|by apply Hr].
  - rewrite Hlen, Ho, Hf, Hct. assert (is_Some (own b !! id)) as Hs by eauto.
    rewrite map_size_delete, Hi. unfold lengthZ. cbn [length].
    assert (size (own b) <> 0)%nat by (intros Hz; apply map_size_empty_inv in Hz; by rewrite Hz in Hi).
    lia.
  - intros id' j. rewrite Ho, Hf. intros [Hne Hj]%lookup_delete_Some.
    destruct (Hl _ _ Hj) as (Hnj & y & Hpy & Hid').
    destruct (Hids _ _ Hpy) as (y' & Hy' & Heq). split; [|exists y'; split; [done|congruence]].
    intros [->|?]%elem_of_cons; [|done]. simplify_eq.
Qed.

Lemma slots_ok_pool b b' ids :
  slots_ok b -> same_but ids (pool_ b) (pool_ b') ->
  index_ b' = index_ b -> free_ b' = free_ b -> slots_ok b'.
Proof.
  intros [Hx Hk Hnd Hr Hct Hl] (Hlen & Hids & _) Hix Hf. unfold own in *.
  constructor; unfold own; rewrite ?Hix, ?Hf, ?Hlen; try done.
  intros id i Hi. destruct (Hl _ _ Hi) as (Hni & x & Hpx & <-). eauto.
Qed.

(** ** Consuming a level *)

Lemma encodes_set_open pool own lvl s px os1 o os2 i x q :
  encodes pool own lvl s px (os1 ++ o :: os2) -> own !! so_id o = Some i ->
  pool !z! i = Some x -> 0 <= q <= so_qty o ->
  encodes (<z[i := set_open q x]> pool) own
    (mkLevel (u32 (l_total lvl - (so_qty o - q))) (l_head lvl) (l_tail lvl)) s px
    (os1 ++ mkSnapOrder (so_id o) q :: os2).
Proof.
  intros [-> Hs Hnd Hq] Hi Hx Hqq. apply seg_app in Hs as [Hs1 (j & Hj & Hp & Hs2)].
  rewrite Hi in Hj. injection Hj as <-. rewrite Hp in Hx. injection Hx as <-.
  apply Forall_app in Hq as [Hq1 Hq2]. apply Forall_cons in Hq2 as [Hqo Hq2].
  pose proof (lookupZ_Some_bounds _ _ _ Hp).
  pose proof Hnd as Hnd0. rewrite ids_of_app, ids_of_cons in Hnd.
  apply NoDup_app in Hnd as (Hnd1 & Hd & Hnd2). apply NoDup_cons in Hnd2 as [Hni Hnd2].
  assert (same_but [so_id o] pool (<z[i := set_open q (mkFOrder (so_id o) px (so_qty o)
    (last_slot own kNil os1) (first_slot own os2 kNil) s)]> pool)) as Hsb
    by (eapply same_but_insert; [done|set_solver|done]).
  constructor.
  - rewrite !first_slot_app, !last_slot_app, !sum_by_app. cbn. f_equal. wrap_eq.
  - apply seg_app. split.
    + eapply seg_same_but; [done|exact Hsb|]. intros id ->%list_elem_of_singleton Hin.
      by apply (Hd _ Hin); left.
    + exists i. cbn. split_and!; [done|by rewrite lookupZ_insertZ_eq|].
      eapply seg_same_but; [done|exact Hsb|]. by intros id ->%list_elem_of_singleton.
  - by rewrite ids_of_app, ids_of_cons in *.
  - apply Forall_app. split; [done|]. constructor; [unfold fits in *; cbn; lia|done].
Qed.

Lemma encodes_unlink_head pool own lvl s px o os i :
  lengthZ pool <= kNil -> encodes pool own lvl s px (o :: os) -> own !! so_id o = Some i ->
  exists lvl' pool', unlink lvl i pool = Some (lvl', pool') /\
    same_but (ids_of (o :: os)) pool pool' /\
    encodes pool' (delete (so_id o) own)
      (mkLevel (u32 (l_total lvl' - so_qty o)) (l_head lvl') (l_tail lvl')) s px os /\
    l_total lvl' = l_total lvl.
Proof.
  intros Hk [-> Hs Hnd Hq] Hi.
  destruct (unlink_spec s px pool own [] o os i (u32 (sum_by so_qty (o :: os))))
    as (pool' & Hu & Hs' & Hb); [done|done|done|done|].
  eexists _, pool'. split_and!; [exact Hu|done| |done].
  apply NoDup_cons in Hnd as [Hni Hnd]. apply Forall_cons in Hq as [_ Hq].
  apply (encodes_frame pool' _ own).
  - constructor; [|done|done|done]. cbn. f_equal. wrap_eq.
  - intros o' j Ho' Hj. split; [|done]. rewrite lookup_delete_ne; [done|].
    intros Heq. apply Hni. rewrite Heq. apply list_elem_of_fmap. eauto.
Qed.

Lemma consume_level_spec agg side s px os : forall fuel lvl b want filled os1 q1 m1 evs,
  slots_ok b -> encodes (pool_ b) (own b) lvl s px os ->
  0 <= want -> 0 <= filled -> filled + want < 2 ^ 32 -> (length os < fuel)%nat ->
  Spec.fill_queue agg side px want (next_match_id_ b) os = (os1, q1, m1, evs) ->
  exists lvl' b',
    consume_level fuel lvl px agg side want filled b = Some (filled + (want - q1), lvl', b') /\
    encodes (pool_ b') (own b') lvl' s px os1 /\ slots_ok b' /\ same_frame b b' /\
    same_but (ids_of os) (pool_ b) (pool_ b') /\ own b' ⊆ own b /\
    (forall id, id ∉ ids_of os -> own b' !! id = own b !! id) /\
    (forall id, is_Some (own b' !! id) -> id ∈ ids_of os -> id ∈ ids_of os1) /\
    next_match_id_ b' = m1 /\ listener_ b' = listener_ b ++ evs.
Proof.
  induction os as [|o os IH]; intros fuel lvl b want filled os1 q1 m1 evs Hso He Hw Hf Hsum Hfuel Hq;
    (destruct fuel as [|fuel]; [cbn in Hfuel; lia|]); cbn [Spec.fill_queue] in Hq.
  - injection Hq as <- <- <- <-. exists lvl, b. cbn [consume_level].
    rewrite (proj2 (encodes_head _ _ _ _ _ _ (so_pool _ Hso) He) eq_refl).
    rewrite Z.eqb_refl, andb_false_r, Z.sub_diag, Z.add_0_r, app_nil_r. cbn [negb].
    split_and!; try done; try apply same_frame_refl; apply same_but_refl.
  - destruct (Z.eqb_spec want 0) as [->|Hw0].
    { injection Hq as <- <- <- <-. exists lvl, b. cbn [consume_level].
      replace (0 <? 0) with false by lia. rewrite Z.sub_diag, Z.add_0_r, app_nil_r. cbn [negb andb].
      split_and!; try done; try apply same_frame_refl; apply same_but_refl. }
    pose proof He as [Hlvl (i & Hi & Hp & Hsg) Hnd Hqs].
    pose proof (lookupZ_Some_bounds _ _ _ Hp) as Hir. pose proof (so_pool _ Hso) as Hk.
    apply Forall_cons in Hqs as [Hqo Hqs]. unfold fits in Hqo.
    assert (l_head lvl = i) as Hh by (rewrite Hlvl; cbn; by apply slot_of_Some).
    cbn [consume_level]. rewrite Hh. replace (i =? kNil) with false by lia.
    replace (0 <? want) with true by lia. cbn [negb andb]. rewrite Hp, obind_Some.
    cbn [f_open f_id set_open].
    replace (if want <? so_qty o then want else so_qty o) with (Z.min want (so_qty o))
      by (destruct (Z.ltb_spec want (so_qty o)); lia).
    set (exec := Z.min want (so_qty o)) in *.
    set (x := mkFOrder (so_id o) px (so_qty o) kNil (first_slot (own b) os kNil) s) in *.
    assert (0 <= exec <= want /\ exec <= so_qty o) as Hex by lia.
    rewrite (wrap_small 32 (so_qty o - exec)), (wrap_small 32 (want - exec)),
      (wrap_small 32 (filled + exec)) by (unfold fits; lia).
    pose proof (encodes_set_open _ _ _ _ _ [] _ _ i x (so_qty o - exec) He Hi Hp) as He1.
    ospecialize (He1 _); [lia|]. cbn [app] in He1.
    replace (so_qty o - (so_qty o - exec)) with exec in He1 by lia. rewrite Hh in He1.
    match goal with |- context [set_match_id ?mm ?bb] => set (b3 := set_match_id mm bb) end.
    assert (same_but (ids_of (o :: os)) (pool_ b) (pool_ b3)) as Hb3
      by (eapply same_but_insert; [done|by left|done]).
    assert (slots_ok b3) as Hso3 by (by eapply slots_ok_pool).
    assert (same_frame b b3) as Hsf3 by by constructor.
    destruct (Z.eqb_spec (so_qty o) exec) as [Heq|Hneq].
    + replace (so_qty o - exec =? 0) with true by lia.
      destruct (Spec.fill_queue _ _ _ _ _ os) as [[[os2 q2] m2] evs2] eqn:Hq2.
      injection Hq as <- <- <- <-.
      destruct (oi_erase_spec (index_ b3) (so_id o) (so_index _ Hso3)) as (ix & Hix & Hixok & Hixm).
      rewrite Hix, obind_Some. cbn [pool_ set_index].
      destruct (encodes_unlink_head (pool_ b3) (own b3) _ s px _ os i ltac:(apply Hso3) He1 Hi)
        as (lvl2 & pool2 & Hu & Hub & He2 & Htot).
      cbn [so_id so_qty] in He2, Hub. change (pool_ (set_index ix b3)) with (pool_ b3).
      rewrite Hu, obind_Some.
      match goal with |- context [free_order i ?bb] => set (b5 := free_order i bb) end.
      assert (own b5 = delete (so_id o) (own b)) as Ho5 by exact Hixm.
      assert (slots_ok b5) as Hso5.
      { eapply (slots_ok_release b3 _ (so_id o) i); [done|done|eauto|done|done|done]. }
      assert (lvl2 = mkLevel (u32 (l_total lvl2 - (so_qty o - exec))) (l_head lvl2) (l_tail lvl2))
        as Hlv2.
      { destruct lvl2 as [t2 h2 l2]. cbn in *. f_equal. rewrite Htot.
        replace (so_qty o - exec) with 0 by lia. rewrite Z.sub_0_r. symmetry. by apply wrap_wrap. }
      rewrite <- Hlv2 in He2.
      destruct (IH fuel lvl2 b5 (want - exec) (filled + exec) os2 q2 m2 evs2)
        as (lvl' & b' & Hc & He' & Hso' & Hsf' & Hb' & Hsub & Hout & Hin & Hm & Hlog).
      { done. } { by rewrite Ho5. } { lia. } { lia. } { lia. } { cbn in Hfuel; lia. } { done. }
      exists lvl', b'. split_and!; try done.
      * rewrite Hc. do 3 f_equal. lia.
      * eapply same_frame_trans; [|done]. by constructor.
      * eapply same_but_trans; [exact Hb3|].
        eapply (same_but_trans _ _ (pool_ b5)); [exact Hub|].
        eapply same_but_mono; [exact Hb'|]. rewrite ids_of_cons. set_solver.
      * etrans; [exact Hsub|]. rewrite Ho5. apply delete_subseteq.
      * intros id Hid. rewrite ids_of_cons in Hid.
        rewrite Hout, Ho5, lookup_delete_ne by set_solver. done.
      * intros id [j Hj] Hid. rewrite ids_of_cons in Hid.
        apply elem_of_cons in Hid as [->|Hid]; [exfalso|by eauto].
        eapply lookup_weaken in Hj; [|exact Hsub]. by rewrite Ho5, lookup_delete_eq in Hj.
      * rewrite Hlog. cbn. by rewrite <- app_assoc.
    + injection Hq as <- <- <- <-. replace (so_qty o - exec =? 0) with false by lia.
      assert (exec = want) as -> by lia.
      destruct fuel as [|fuel]; [cbn in Hfuel; lia|]. cbn [consume_level].
      rewrite Z.sub_diag. replace (0 <? 0) with false by lia. cbn [negb andb].
      rewrite Z.sub_0_r. eexists _, b3. split_and!; try done.
Qed.

(** ** Ticks *)

(** The band's arithmetic in the integers, which [tick_index] and [price_at]
    compute as long as they do not overflow. *)
Definition tick_of (px : Price) b : Z :=
  if negb (band_set_ b) then -1
  else
    let off := px - base_ b in
    if (off <? 0) || negb (Z.rem off (tick (cfg_ b)) =? 0) then -1
    else
      let idx := Z.quot off (tick (cfg_ b)) in
      if lengthZ (ladder_ b) <=? idx then -1 else idx.

Definition price_of (t : Z) b : Price := base_ b + t * tick (cfg_ b).

(** Half the width of the band, in price units. *)
Definition half_band (cfg : Config) : Z := band_half_ticks cfg * tick cfg.

(** Prices that a band of this configuration can be compared with, wherever
    it is centred. *)
Definition price_fits (cfg : Config) (px : Price) : Prop :=
  0 < px /\ px + half_band cfg < 2 ^ 63.

(** The band, when there is one, is centred on a price that fits. *)
Record band_fits b : Prop := mkBandFits {
  bf_tick : 0 < tick (cfg_ b);
  bf_half : 0 <= band_half_ticks (cfg_ b);
  bf_width : half_band (cfg_ b) < 2 ^ 62;
  bf_base : band_set_ b = true ->
    price_fits (cfg_ b) (base_ b + half_band (cfg_ b)) /\
    lengthZ (ladder_ b) = 2 * band_half_ticks (cfg_ b) + 1 }.

Lemma half_band_nonneg b : band_fits b -> 0 <= half_band (cfg_ b).
Proof. intros [Ht Hh _ _]. unfold half_band. nia. Qed.

Lemma tick_index_ok px b :
  band_fits b -> price_fits (cfg_ b) px -> tick_index px b = Some (tick_of px b).
Proof.
  intros Hb [Hp1 Hp2]. pose proof (half_band_nonneg b Hb) as Hnn. unfold tick_index, tick_of.
  destruct (band_set_ b) eqn:Hs; cbn [negb]; [|done].
  destruct (bf_base _ Hb Hs) as [[Hb1 Hb2] _].
  rewrite int64_Some by lia. rewrite obind_Some. by case_match.
Qed.

Lemma price_at_ok t b :
  band_fits b -> band_set_ b = true -> 0 <= t < lengthZ (ladder_ b) ->
  price_at t b = Some (price_of t b).
Proof.
  intros Hb Hs Ht. pose proof (half_band_nonneg b Hb) as Hnn.
  destruct (bf_base _ Hb Hs) as [[Hb1 Hb2] Hl]. pose proof (bf_tick _ Hb). pose proof (bf_width _ Hb).
  assert (0 <= t * tick (cfg_ b) <= 2 * half_band (cfg_ b)) as Hr by (unfold half_band; nia).
  unfold price_at, price_of. rewrite int64_Some by lia. rewrite obind_Some. apply int64_Some. lia.
Qed.

Lemma band_fits_frame b b' :
  cfg_ b' = cfg_ b -> band_set_ b' = band_set_ b -> base_ b' = base_ b ->
  lengthZ (ladder_ b') = lengthZ (ladder_ b) -> band_fits b -> band_fits b'.
Proof. intros E1 E2 E3 E4 []. constructor; rewrite ?E1, ?E2, ?E3, ?E4; done. Qed.

Lemma tick_of_spec px b :
  0 < tick (cfg_ b) -> 0 <= tick_of px b ->
  band_set_ b = true /\ tick_of px b < lengthZ (ladder_ b) /\
  price_of (tick_of px b) b = px.
Proof.
  intros Ht. unfold tick_of, price_of. destruct (band_set_ b); cbn [negb]; [|lia].
  destruct (Z.ltb_spec (px - base_ b) 0); cbn [orb]; [lia|].
  destruct (Z.eqb_spec (Z.rem (px - base_ b) (tick (cfg_ b))) 0) as [Hr|]; cbn [negb]; [|lia].
  destruct (Z.leb_spec (lengthZ (ladder_ b)) (Z.quot (px - base_ b) (tick (cfg_ b)))); [lia|].
  intros _. split_and!; [done|done|].
  pose proof (Z.quot_rem' (px - base_ b) (tick (cfg_ b))). lia.
Qed.

Lemma tick_of_price_of t b :
  0 < tick (cfg_ b) -> band_set_ b = true -> 0 <= t < lengthZ (ladder_ b) ->
  tick_of (price_of t b) b = t.
Proof.
  intros Ht Hb Hr. unfold tick_of, price_of. rewrite Hb. cbn [negb].
  replace (base_ b + t * tick (cfg_ b) - base_ b) with (t * tick (cfg_ b)) by lia.
  replace (t * tick (cfg_ b) <? 0) with false by nia.
  rewrite Z.rem_mul, Z.quot_mul by lia. cbn.
  by replace (lengthZ (ladder_ b) <=? t) with false by lia.
Qed.

Lemma tick_of_frame px b b' :
  cfg_ b' = cfg_ b -> band_set_ b' = band_set_ b -> base_ b' = base_ b ->
  lengthZ (ladder_ b') = lengthZ (ladder_ b) -> tick_of px b' = tick_of px b.
Proof. unfold tick_of. by intros -> -> -> ->. Qed.

(** ** The table of queues *)

Definition Table : Type := Side -> Price -> list SnapshotOrder.

Definition upd (Q : Table) (s : Side) (px : Price) (os : list SnapshotOrder) : Table :=
  fun s' px' => if decide (s' = s /\ px' = px) then os else Q s' px'.

Lemma upd_eq Q s px os : upd Q s px os s px = os.
Proof. unfold upd. by rewrite decide_True. Qed.

Lemma upd_ne Q s px os s' px' : ~ (s' = s /\ px' = px) -> upd Q s px os s' px' = Q s' px'.
Proof. intros. unfold upd. by rewrite decide_False. Qed.

(** [Q] is what the book holds. A fallback level may be empty only where
    [dirty] allows it: in the middle of an operation. *)
Record core b (Q : Table) (dirty : Side -> Price -> Prop) : Prop := mkCore {
  c_tick : 0 < tick (cfg_ b);
  c_half : 0 <= band_half_ticks (cfg_ b);
  c_slots : slots_ok b;
  c_own : forall id, is_Some (own b !! id) ->
    exists s px, valid_side s /\ id ∈ ids_of (Q s px);
  c_band : band_set_ b = false ->
    ladder_ b = [] /\ forall s, valid_side s -> fallback s b = [];
  c_sorted : forall s, valid_side s -> StdMap.sorted (before s) (fallback s b);
  c_in : forall t, 0 <= t < lengthZ (ladder_ b) ->
    exists s lvl, valid_side s /\ ladder_ b !z! t = Some lvl /\
      encodes (pool_ b) (own b) lvl s (price_of t b) (Q s (price_of t b)) /\
      Q (opposite s) (price_of t b) = [];
  c_infb : forall s px, valid_side s -> 0 <= tick_of px b ->
    StdMap.find px (fallback s b) = None;
  c_out : forall s px, valid_side s -> tick_of px b < 0 ->
    match StdMap.find px (fallback s b) with
    | Some lvl => encodes (pool_ b) (own b) lvl s px (Q s px) /\ (Q s px = [] -> dirty s px)
    | None => Q s px = []
    end;
  c_bid : forall t, 0 <= t < lengthZ (ladder_ b) -> Q Buy (price_of t b) <> [] ->
    t <= bid_cursor_ b;
  c_ask : forall t, 0 <= t < lengthZ (ladder_ b) -> Q Sell (price_of t b) <> [] ->
    ask_cursor_ b <= t;
  c_fits : band_fits b;
  c_prices : forall s px, valid_side s -> Q s px <> [] -> price_fits (cfg_ b) px }.

Definition clean : Side -> Price -> Prop := fun _ _ => False.

(** The price of a ladder level is computed without overflow. *)
Lemma core_price_at b Q dirty t :
  core b Q dirty -> 0 <= t < lengthZ (ladder_ b) -> price_at t b = Some (price_of t b).
Proof.
  intros Hc Ht. apply price_at_ok; [by eapply c_fits| |done].
  destruct (band_set_ b) eqn:Hb; [done|]. rewrite (proj1 (c_band _ _ _ Hc Hb)) in Ht.
  unfold lengthZ in Ht. cbn in Ht. lia.
Qed.

Lemma core_ladder_queue b Q dirty t s :
  core b Q dirty -> valid_side s -> 0 <= t < lengthZ (ladder_ b) ->
  exists lvl, ladder_ b !z! t = Some lvl /\
    (Q s (price_of t b) <> [] -> encodes (pool_ b) (own b) lvl s (price_of t b) (Q s (price_of t b))).
Proof.
  intros Hc Hs Ht. destruct (c_in _ _ _ Hc t Ht) as (s' & lvl & Hs' & Hl & He & Ho).
  exists lvl. split; [done|]. intros Hne.
  destruct (valid_side_cases s' s Hs' Hs) as [-> | ->]; [done|by rewrite Ho in Hne].
Qed.

(** Every queue is encoded by some level. *)
Lemma core_queue b Q dirty s px :
  core b Q dirty -> valid_side s ->
  exists lvl, encodes (pool_ b) (own b) lvl s px (Q s px).
Proof.
  intros Hc Hs. destruct (decide (Q s px = [])) as [-> | Hne].
  { exists new_level. apply encodes_nil. }
  destruct (Z.lt_ge_cases (tick_of px b) 0) as [Hlt|Hge].
  - pose proof (c_out _ _ _ Hc s px Hs Hlt) as Ho. case_match; [|done].
    destruct Ho as [? _]. eauto.
  - destruct (tick_of_spec px b (c_tick _ _ _ Hc) Hge) as (_ & Hr & Hp).
    destruct (core_ladder_queue b Q dirty (tick_of px b) s Hc Hs) as (lvl & _ & He); [lia|].
    rewrite Hp in He. eauto.
Qed.

Lemma core_slot b Q dirty s px o :
  core b Q dirty -> valid_side s -> o ∈ Q s px ->
  exists i p n, own b !! so_id o = Some i /\
    pool_ b !z! i = Some (mkFOrder (so_id o) px (so_qty o) p n s).
Proof.
  intros Hc Hs Ho. destruct (core_queue b Q dirty s px Hc Hs) as [lvl [_ Hsg _ _]].
  by eapply seg_slot.
Qed.

(** An order is in one queue only. *)
Lemma core_disjoint b Q dirty s px s' px' id :
  core b Q dirty -> valid_side s -> valid_side s' ->
  id ∈ ids_of (Q s px) -> id ∈ ids_of (Q s' px') -> s' = s /\ px' = px.
Proof.
  intros Hc Hs Hs' (o & -> & Ho)%list_elem_of_fmap (o' & Heq & Ho')%list_elem_of_fmap.
  destruct (core_slot _ _ _ _ _ _ Hc Hs Ho) as (i & p & n & Hi & Hp).
  destruct (core_slot _ _ _ _ _ _ Hc Hs' Ho') as (j & p' & n' & Hj & Hp').
  rewrite <- Heq, Hi in Hj. injection Hj as <-. rewrite Hp in Hp'. by simplify_eq.
Qed.

Lemma core_ext b Q Q' dirty :
  (forall s px, valid_side s -> Q s px = Q' s px) -> core b Q dirty -> core b Q' dirty.
Proof.
  intros He Hc. destruct Hc as [Ht Hh Hs Ho Hb Hso Hin Hfb Hout Hbid Hask Hbf Hpr].
  constructor; try done.
  - intros id Hid. destruct (Ho id Hid) as (s & px & Hv & Hq). exists s, px. by rewrite <- He.
  - intros t Hr. destruct (Hin t Hr) as (s & lvl & Hv & Hl & Hen & Hop).
    exists s, lvl. rewrite <- !He by auto with nsq. done.
  - intros s px Hv Hlt. specialize (Hout s px Hv Hlt). rewrite <- He by done. done.
  - intros t Hr. rewrite <- He by by left. by apply Hbid.
  - intros t Hr. rewrite <- He by by right. by apply Hask.
  - intros s px Hv. rewrite <- He by done. by apply Hpr.
Qed.

Lemma core_dirty b Q dirty dirty' :
  (forall s px, dirty s px -> dirty' s px) -> core b Q dirty -> core b Q dirty'.
Proof.
  intros Hd [Ht Hh Hs Ho Hb Hso Hin Hfb Hout Hbid Hask Hbf Hpr]. constructor; try done.
  intros s px Hv Hlt. specialize (Hout s px Hv Hlt). case_match; [|done].
  destruct Hout. eauto.
Qed.

(** ** Changing one level *)

Definition ref_for (s : Side) (px : Price) b : LevelRef :=
  if 0 <=? tick_of px b then InLadder (tick_of px b) else InFallback s px.

(** [b'] differs from [b] in one level, which is [lvl]. *)
Record touch b b' (s : Side) (px : Price) (lvl : Level) : Prop := mkTouch {
  t_cfg : cfg_ b' = cfg_ b;
  t_band : band_set_ b' = band_set_ b;
  t_base : base_ b' = base_ b;
  t_len : lengthZ (ladder_ b') = lengthZ (ladder_ b);
  t_load : load (ref_for s px b) b' = Some lvl;
  t_ladder : forall t, InLadder t <> ref_for s px b -> ladder_ b' !z! t = ladder_ b !z! t;
  t_fb : forall s' px', valid_side s' -> InFallback s' px' <> ref_for s px b ->
    StdMap.find px' (fallback s' b') = StdMap.find px' (fallback s' b);
  t_sorted : forall s', valid_side s' -> StdMap.sorted (before s') (fallback s' b') }.

(** The orders outside the touched queue keep their slots. *)
Definition keeps b b' (os os' : list SnapshotOrder) : Prop :=
  (forall id i x, own b !! id = Some i -> pool_ b !z! i = Some x -> id ∉ ids_of os ->
     own b' !! id = Some i /\ pool_ b' !z! i = Some x) /\
  (forall id, is_Some (own b' !! id) ->
     id ∈ ids_of os' \/ (is_Some (own b !! id) /\ id ∉ ids_of os)).

Lemma encodes_keeps b b' Q dirty s px os' s' px' lvl :
  core b Q dirty -> valid_side s -> valid_side s' -> keeps b b' (Q s px) os' ->
  ~ (s' = s /\ px' = px) ->
  encodes (pool_ b) (own b) lvl s' px' (Q s' px') ->
  encodes (pool_ b') (own b') lvl s' px' (Q s' px').
Proof.
  intros Hc Hs Hs' [Hk _] Hne He. eapply encodes_frame; [done|]. intros o i Ho Hi.
  destruct (core_slot _ _ _ _ _ _ Hc Hs' Ho) as (j & p & n & Hj & Hp).
  rewrite Hi in Hj. injection Hj as <-. rewrite Hp. apply Hk; [done..|].
  intros Hin. apply Hne. eapply core_disjoint; [done|done|done|done|].
  apply list_elem_of_fmap. eauto.
Qed.

(** A cursor of [b'] bounds the best level of its side. *)
Definition cursors_ok b b' (s : Side) (px : Price) (os' : list SnapshotOrder) : Prop :=
  bid_cursor_ b <= bid_cursor_ b' /\ ask_cursor_ b' <= ask_cursor_ b /\
  (os' <> [] -> s = Buy -> 0 <= tick_of px b -> tick_of px b <= bid_cursor_ b') /\
  (os' <> [] -> s = Sell -> 0 <= tick_of px b -> ask_cursor_ b' <= tick_of px b).

Lemma price_of_frame t b b' :
  cfg_ b' = cfg_ b -> base_ b' = base_ b -> price_of t b' = price_of t b.
Proof. unfold price_of. by intros -> ->. Qed.

Lemma core_update b b' Q dirty s px lvl os' :
  core b Q dirty -> band_set_ b = true -> valid_side s -> touch b b' s px lvl -> slots_ok b' ->
  encodes (pool_ b') (own b') lvl s px os' ->
  (0 <= tick_of px b -> Q (opposite s) px = []) -> price_fits (cfg_ b) px ->
  keeps b b' (Q s px) os' -> cursors_ok b b' s px os' ->
  core b' (upd Q s px os') (fun s' px' => dirty s' px' \/ (s' = s /\ px' = px)).
Proof.
  intros Hc Hbs Hs [Hcfg Hband Hbase Hlen Hload Hlad Hfb Hsort] Hso He Hopp Hfit Hk (Hc1 & Hc2 & Hc3 & Hc4).
  pose proof (c_tick _ _ _ Hc) as Htick.
  assert (forall p, tick_of p b' = tick_of p b) as Hti by (intros; by apply tick_of_frame).
  assert (forall t, price_of t b' = price_of t b) as Hpa by (intros; by apply price_of_frame).
  assert (forall t, 0 <= t < lengthZ (ladder_ b) -> tick_of (price_of t b) b = t) as Htp.
  { intros t Ht. apply tick_of_price_of; [done| |done].
    destruct (band_set_ b) eqn:Hb; [done|]. rewrite (proj1 (c_band _ _ _ Hc Hb)) in Ht. unfold lengthZ in Ht. cbn in Ht. lia. }
  constructor; rewrite ?Hcfg, ?Hband, ?Hlen; try done; try apply Hc.
  - intros id Hid. destruct (proj2 Hk id Hid) as [Hin|[Hold Hnin]].
    + exists s, px. by rewrite upd_eq.
    + destruct (c_own _ _ _ Hc id Hold) as (s' & px' & Hs' & Hin). exists s', px'.
      rewrite upd_ne; [done|]. intros [-> ->]. done.
  - by rewrite Hbs.
  - intros t Ht. rewrite !Hpa. destruct (decide (price_of t b = px)) as [Heq|Hne].
    + exists s, lvl. rewrite Heq, upd_eq, upd_ne by (intros [Hx _]; by destruct Hs as [-> | ->]).
      assert (tick_of px b = t) as Htx by (rewrite <- Heq; by apply Htp).
      unfold ref_for in Hload. rewrite Htx in Hload.
      replace (0 <=? t) with true in Hload by lia. cbn in Hload.
      split_and!; [done|done|done|]. apply Hopp. lia.
    + destruct (c_in _ _ _ Hc t Ht) as (s' & lvl' & Hs' & Hl' & He' & Ho').
      assert (forall s0, upd Q s px os' s0 (price_of t b) = Q s0 (price_of t b)) as Hu
        by (intros; apply upd_ne; intros [_ ?]; done).
      exists s', lvl'. rewrite !Hu. split_and!; [done| | |done].
      * rewrite Hlad; [done|]. unfold ref_for. destruct (Z.leb_spec 0 (tick_of px b)) as [Hge|]; [|done].
        destruct (tick_of_spec px b Htick Hge) as (_ & _ & Hp). intros [= ->]. by rewrite Hp in Hne.
      * by apply (encodes_keeps b b' Q dirty s px os'); [done..|intros [_ ?]|].
  - intros s' px' Hs' Hge. rewrite Hti in Hge. rewrite Hfb; [by apply Hc|done|].
    unfold ref_for. destruct (Z.leb_spec 0 (tick_of px b)); [done|]. intros [= -> ->]. lia.
  - intros s' px' Hs' Hlt. rewrite Hti in Hlt.
    destruct (decide (s' = s /\ px' = px)) as [[-> ->]|Hne].
    + rewrite upd_eq. unfold ref_for in Hload. replace (0 <=? tick_of px b) with false in Hload by lia.
      cbn in Hload. rewrite Hload. auto.
    + rewrite upd_ne by done. rewrite Hfb; [|done|].
      * pose proof (c_out _ _ _ Hc s' px' Hs' Hlt) as Ho. case_match; [|done].
        destruct Ho as [Ho1 Ho2]. split; [by apply (encodes_keeps b b' Q dirty s px os')|auto].
      * unfold ref_for. destruct (Z.leb_spec 0 (tick_of px b)); [done|].
        intros [= -> ->]. by apply Hne.
  - intros t Ht. rewrite Hpa. unfold upd. case_decide as Hd.
    + destruct Hd as [<- <-]. intros Hne. rewrite <- (Htp t Ht). apply Hc3; [done|done|].
      rewrite (Htp t Ht). lia.
    + intros Hne. pose proof (c_bid _ _ _ Hc t Ht Hne). lia.
  - intros t Ht. rewrite Hpa. unfold upd. case_decide as Hd.
    + destruct Hd as [<- <-]. intros Hne. rewrite <- (Htp t Ht). apply Hc4; [done|done|].
      rewrite (Htp t Ht). lia.
    + intros Hne. pose proof (c_ask _ _ _ Hc t Ht Hne). lia.
  - by apply (band_fits_frame b), Hc.
  - intros s' px' Hs'. unfold upd. case_decide as Hd; [by destruct Hd as [_ ->]|].
    by apply (c_prices _ _ _ Hc).
Qed.

(** ** Locating a level *)

Lemma ref_for_opposite_empty b Q dirty s px :
  core b Q dirty -> valid_side s -> Q s px <> [] -> 0 <= tick_of px b -> Q (opposite s) px = [].
Proof.
  intros Hc Hs Hne Hge. destruct (tick_of_spec px b (c_tick _ _ _ Hc) Hge) as (_ & Hr & Hp).
  destruct (c_in _ _ _ Hc (tick_of px b)) as (s' & lvl & Hs' & _ & _ & Ho); [lia|].
  rewrite Hp in Ho. destruct (valid_side_cases s s' Hs Hs') as [-> | ->]; [done|].
  destruct Hs as [-> | ->]; cbn in Ho; by rewrite Ho in Hne.
Qed.

(** [load] of an existing level. *)
Lemma load_queue b Q dirty s px :
  core b Q dirty -> valid_side s -> Q s px <> [] ->
  exists lvl, load (ref_for s px b) b = Some lvl /\
    encodes (pool_ b) (own b) lvl s px (Q s px).
Proof.
  intros Hc Hs Hne. unfold ref_for. destruct (Z.leb_spec 0 (tick_of px b)) as [Hge|Hlt].
  - destruct (tick_of_spec px b (c_tick _ _ _ Hc) Hge) as (_ & Hr & Hp).
    destruct (core_ladder_queue b Q dirty (tick_of px b) s Hc Hs) as (lvl & Hl & He); [lia|].
    rewrite Hp in He. exists lvl. cbn. eauto.
  - pose proof (c_out _ _ _ Hc s px Hs Hlt) as Ho. cbn. case_match; [|done].
    destruct Ho. eauto.
Qed.

Lemma fallback_set s s' m b :
  valid_side s -> valid_side s' ->
  fallback s' (set_fallback s m b) = if decide (s' = s) then m else fallback s' b.
Proof. intros [-> | ->] [-> | ->]; done. Qed.

Lemma fallback_frame s b b' :
  fb_bids_ b' = fb_bids_ b -> fb_asks_ b' = fb_asks_ b -> fallback s b' = fallback s b.
Proof. unfold fallback. by intros -> ->. Qed.

(** Storing to a level that exists touches that level only. *)
Lemma touch_store b b1 s px lvl lvl0 :
  valid_side s -> 0 < tick (cfg_ b) -> same_frame b b1 ->
  (forall s', valid_side s' -> StdMap.sorted (before s') (fallback s' b)) ->
  load (ref_for s px b) b = Some lvl0 ->
  touch b (store (ref_for s px b) lvl b1) s px lvl.
Proof.
  intros Hs Ht [Hcfg Hband Hbase Hl Hfb Hfa _ _] Hsort Hload.
  unfold ref_for in *. destruct (Z.leb_spec 0 (tick_of px b)) as [Hge|Hlt]; cbn in *.
  - pose proof (lookupZ_Some_bounds _ _ _ Hload).
    constructor; cbn; unfold ref_for; rewrite ?Hl; try done.
    + by rewrite lengthZ_insertZ.
    + replace (0 <=? tick_of px b) with true by lia. cbn. by apply lookupZ_insertZ_eq.
    + replace (0 <=? tick_of px b) with true by lia. intros t Hne.
      apply lookupZ_insertZ_ne. congruence.
    + intros. f_equal. by apply fallback_frame.
    + intros s' Hs'. rewrite (fallback_frame _ b); [by apply Hsort|done|done].
  - assert (forall s', fallback s' b1 = fallback s' b) as Hf by (intros; by apply fallback_frame).
    constructor; cbn; unfold ref_for; rewrite ?Hl; try done.
    + replace (0 <=? tick_of px b) with false by lia. cbn.
      rewrite fallback_set, decide_True by done.
      by rewrite StdMap.sm_find_update, Z.eqb_refl, Hf, Hload.
    + replace (0 <=? tick_of px b) with false by lia. intros s' px' Hs' Hne.
      rewrite fallback_set by done. case_decide as Hd; [subst s'|by rewrite Hf].
      rewrite StdMap.sm_find_update. destruct (Z.eqb_spec px px') as [->|]; [done|by rewrite Hf].
    + intros s' Hs'. rewrite fallback_set by done. case_decide; [subst|rewrite Hf; by apply Hsort].
      apply StdMap.sm_sorted_update. rewrite Hf. by apply Hsort.
Qed.
End inv.
