(* ===== verification/LadderOps.v ===== *)
(** The primitives of the fast book, each as an update of the table of queues
    its state stands for: removing, reducing and appending an order, moving
    the cursors, finding the best level. *)

From S2P Require Import Prelude StdMap BookTypes BookSpec OrderIndex LadderBook LadderLinks LadderInv.

Import FastBook.

Section ops.
Context {M : Type} `{OrderIndexLaws M}.
Implicit Types (b : FastBook M).

(** Only one level may be empty. *)
Definition at_ (s : Side) (px : Price) : Side -> Price -> Prop :=
  fun s' px' => s' = s /\ px' = px.

Lemma queue_band b Q dirty s px :
  core b Q dirty -> valid_side s -> Q s px <> [] -> band_set_ b = true.
Proof.
  intros Hc Hs Hne. destruct (band_set_ b) eqn:Hb; [done|].
  destruct (c_band _ _ _ Hc Hb) as [Hl Hf].
  assert (tick_of px b < 0) as Hlt by (unfold tick_of; rewrite Hb; cbn; lia).
  pose proof (c_out _ _ _ Hc s px Hs Hlt) as Ho. by rewrite Hf in Ho by done.
Qed.

(** ** Finding a level *)

Lemma set_fallback_id s b : set_fallback s (fallback s b) b = b.
Proof. unfold set_fallback, fallback. destruct b; cbn. by destruct (is_buy s). Qed.

Lemma level_for_existing b Q dirty s px :
  core b Q dirty -> valid_side s -> Q s px <> [] ->
  level_for s px b = Some (ref_for s px b, b).
Proof.
  intros Hc Hs Hne. unfold level_for, ref_for.
  rewrite tick_index_ok, obind_Some by (by eapply c_fits || by eapply c_prices).
  destruct (Z.leb_spec 0 (tick_of px b)) as [|Hlt]; [done|]. do 2 f_equal.
  pose proof (c_out _ _ _ Hc s px Hs Hlt) as Ho.
  destruct (StdMap.find px (fallback s b)) as [lvl|] eqn:Hf; [|done].
  pose proof (c_sorted _ _ _ Hc s Hs) as Hsort.
  rewrite (StdMap.sm_sorted_ext (before s) _ (fallback s b)); [apply set_fallback_id|..|].
  - apply StdMap.sm_sorted_upsert; [apply _|done].
  - done.
  - intros k. destruct (decide (px = k)) as [<-|Hk].
    + rewrite (StdMap.sm_find_upsert_eq (before s)) by done. by rewrite Hf.
    + by rewrite (StdMap.sm_find_upsert_ne (before s)).
Qed.

(** ** Dropping an emptied fallback level *)

(** What [erase_level_if_fallback] does to a book whose band fits. *)
Definition drop_empty (s : Side) (px : Price) (lvl : Level) b : FastBook M :=
  if negb (l_head lvl =? kNil) || (0 <=? tick_of px b) then b
  else set_fallback s (StdMap.erase px (fallback s b)) b.

Lemma erase_level_ok s px lvl b :
  band_fits b -> price_fits (cfg_ b) px ->
  erase_level_if_fallback s px lvl b = Some (drop_empty s px lvl b).
Proof.
  intros Hb Hp. unfold erase_level_if_fallback, drop_empty.
  destruct (negb (l_head lvl =? kNil)); cbn [orb]; [done|].
  rewrite tick_index_ok, obind_Some by done. done.
Qed.

Lemma core_clean b Q dirty :
  core b Q dirty -> (forall s px, tick_of px b < 0 -> dirty s px -> Q s px <> []) ->
  core b Q clean.
Proof.
  intros [Ht Hh' Hso Ho Hb Hsort Hin Hfb Hout Hbid Hask Hbf Hpr] Hd. constructor; try done.
  intros s px Hs Hlt. specialize (Hout s px Hs Hlt). case_match; [|done].
  destruct Hout as [? Hx]. split; [done|]. intros Hq. by eapply Hd; eauto.
Qed.

Lemma erase_level_core b Q s px lvl :
  core b Q (at_ s px) -> valid_side s -> encodes (pool_ b) (own b) lvl s px (Q s px) ->
  core (drop_empty s px lvl b) Q clean.
Proof.
  intros Hc Hs He. pose proof (encodes_head _ _ _ _ _ _ (so_pool _ (c_slots _ _ _ Hc)) He) as Hh.
  unfold drop_empty. destruct (Z.eqb_spec (l_head lvl) kNil) as [Hk|Hk]; cbn [negb orb].
  - apply Hh in Hk. destruct (Z.leb_spec 0 (tick_of px b)) as [Hge|Hlt].
    + eapply core_clean; [done|]. intros s' px' Hlt' [-> ->]. lia.
    + destruct Hc as [Ht Hh' Hso Ho Hb Hsort Hin Hfb Hout Hbid Hask Hbf Hpr].
      set (m := StdMap.erase px (fallback s b)).
      assert (forall p, tick_of p (set_fallback s m b) = tick_of p b) as Hti by done.
      constructor; try done.
      * by destruct Hso.
      * intros Hb'. destruct (Hb Hb') as [Hl Hf]. split; [done|]. intros s' Hs'.
        rewrite fallback_set by done. case_decide; [|by apply Hf]. subst m.
        by rewrite Hf.
      * intros s' Hs'. rewrite fallback_set by done. case_decide; [|by apply Hsort].
        subst. apply StdMap.sm_sorted_erase. by apply Hsort.
      * intros s' px' Hs' Hge'. rewrite Hti in Hge'. rewrite fallback_set by done.
        case_decide; [|by apply Hfb]. subst s' m.
        rewrite (StdMap.sm_find_erase (before s)) by (by apply Hsort).
        case_match; [done|by apply Hfb].
      * intros s' px' Hs' Hlt'. rewrite Hti in Hlt'. rewrite fallback_set by done.
        specialize (Hout s' px' Hs' Hlt'). case_decide as Hd.
        -- subst s' m. rewrite (StdMap.sm_find_erase (before s)) by (by apply Hsort).
           destruct (Z.eqb_spec px px') as [<-|Hne]; [done|]. case_match; [|done].
           destruct Hout as [? Hx]. split; [done|]. intros Hq. by apply Hx in Hq as [_ ?].
        -- case_match; [|done]. destruct Hout as [? Hx]. split; [done|].
           intros Hq. by apply Hx in Hq as [? _].
      * by destruct Hbf.
  - eapply core_clean; [done|]. intros s' px' _ [-> ->] Hq. apply Hk. by apply Hh.
Qed.

(** The cursors already bound a level that has orders. *)
Lemma cursors_keep b b' Q dirty s px os' :
  core b Q dirty -> valid_side s -> Q s px <> [] ->
  bid_cursor_ b' = bid_cursor_ b -> ask_cursor_ b' = ask_cursor_ b ->
  cursors_ok b b' s px os'.
Proof.
  intros Hc Hs Hne Hb Ha. unfold cursors_ok. rewrite Hb, Ha.
  split_and!; [done|done|intros _ -> Hge..];
    destruct (tick_of_spec px b (c_tick _ _ _ Hc) Hge) as (_ & Hr & Hpa).
  - apply (c_bid _ _ _ Hc); [lia|]. by rewrite Hpa.
  - apply (c_ask _ _ _ Hc); [lia|]. by rewrite Hpa.
Qed.

(** ** Removing an order *)

Lemma keeps_delete b b' o ids os os' :
  slots_ok b -> same_but ids (pool_ b) (pool_ b') -> own b' = delete (so_id o) (own b) ->
  so_id o ∈ ids_of os -> (forall id, id ∈ ids -> id ∈ ids_of os) ->
  (forall id, id ∈ ids_of os -> id = so_id o \/ id ∈ ids_of os') ->
  keeps b b' os os'.
Proof.
  intros Hso Hsb Ho Hin Hids Hos. split.
  - intros id i x Hi Hx Hni. rewrite Ho, lookup_delete_ne by (intros <-; done).
    split; [done|]. apply Hsb; [done|].
    destruct (so_live _ Hso _ _ Hi) as (_ & y & Hy & Hid). rewrite Hx in Hy. simplify_eq.
    intros Hy. by apply Hni, Hids.
  - intros id [j Hj]. rewrite Ho in Hj. apply lookup_delete_Some in Hj as [Hne Hj].
    destruct (decide (id ∈ ids_of os)) as [Hid|Hid]; [|right; eauto].
    left. by destruct (Hos _ Hid).
Qed.

Lemma remove_resting_core b Q s px os1 o os2 idx :
  core b Q clean -> valid_side s -> Q s px = os1 ++ o :: os2 ->
  own b !! so_id o = Some idx ->
  exists b', remove_resting idx b = Some b' /\
    core b' (upd Q s px (os1 ++ os2)) clean /\
    next_match_id_ b' = next_match_id_ b /\ listener_ b' = listener_ b /\
    lengthZ (pool_ b') = lengthZ (pool_ b) /\
    own b' = delete (so_id o) (own b) /\ cfg_ b' = cfg_ b.
Proof.
  intros Hc Hs HQ Hi. assert (Q s px <> []) as Hne by (rewrite HQ; by destruct os1).
  pose proof (c_slots _ _ _ Hc) as Hso. pose proof (so_pool _ Hso) as Hk.
  destruct (core_slot _ _ _ s px o Hc Hs) as (i & p & n & Hi' & Hp); [rewrite HQ; set_solver|].
  rewrite Hi in Hi'. injection Hi' as <-.
  destruct (load_queue _ _ _ _ _ Hc Hs Hne) as (lvl & Hl & He).
  unfold remove_resting. rewrite Hp, obind_Some. cbn [f_side f_price f_open f_id].
  pose proof (c_prices _ _ _ Hc s px Hs Hne) as Hfit.
  rewrite (level_for_existing _ _ _ _ _ Hc Hs Hne), obind_Some, Hl, obind_Some.
  pose proof He as [Hlvl Hsg Hnd Hq]. rewrite HQ in Hlvl, Hsg, Hnd, Hq.
  destruct (unlink_spec s px (pool_ b) (own b) os1 o os2 idx (u32 (l_total lvl - so_qty o)))
    as (pool' & Hu & Hsg' & Hsb); [done|done|done|done|].
  assert (l_head lvl = first_slot (own b) (os1 ++ o :: os2) kNil) as -> by by rewrite Hlvl.
  assert (l_tail lvl = last_slot (own b) kNil (os1 ++ o :: os2)) as -> by by rewrite Hlvl.
  rewrite Hu, obind_Some.
  set (lvl2 := mkLevel (u32 (l_total lvl - so_qty o)) _ _).
  set (b2 := store (ref_for s px b) lvl2 (set_pool pool' b)).
  assert (index_ b2 = index_ b /\ pool_ b2 = pool' /\ free_ b2 = free_ b) as (Hix2 & Hp2 & Hf2)
    by (unfold b2, store; by destruct (ref_for s px b)).
  assert (next_match_id_ b2 = next_match_id_ b /\ listener_ b2 = listener_ b) as (Hm2 & Hlg2)
    by (unfold b2, store; by destruct (ref_for s px b)).
  destruct (oi_erase_spec (index_ b) (so_id o) (so_index _ Hso)) as (ix & Hix & Hixok & Hixm).
  rewrite Hix2, Hix, obind_Some.
  set (b3 := free_order idx (set_index ix b2)).
  assert (own b3 = delete (so_id o) (own b)) as Ho3 by exact Hixm.
  assert (touch b b3 s px lvl2) as Ht3.
  { assert (touch b b2 s px lvl2) as [] by
      (eapply touch_store; [done|apply Hc|by constructor|apply Hc|done]).
    by constructor. }
  rewrite ids_of_app, ids_of_cons in Hnd. apply NoDup_app in Hnd as (Hnd1 & Hd & Hnd2).
  apply NoDup_cons in Hnd2 as [Hni Hnd2].
  assert (encodes (pool_ b3) (own b3) lvl2 s px (os1 ++ os2)) as He3.
  { change (pool_ b3) with (pool_ b2). rewrite Hp2, Ho3. apply (encodes_frame pool' _ (own b)).
    - apply Forall_app in Hq as [Hq1 Hq2]. apply Forall_cons in Hq2 as [_ Hq2].
      constructor; [|done|..].
      + unfold lvl2. f_equal. rewrite Hlvl. cbn. rewrite !sum_by_app. cbn. wrap_eq.
      + rewrite ids_of_app. apply NoDup_app. split_and!; [done| |done].
        intros id Hid Hid2. apply (Hd id Hid). by right.
      + by apply Forall_app.
    - intros o' j Ho' Hj. split; [|done]. rewrite lookup_delete_ne; [done|]. intros Heq.
      assert (so_id o ∈ ids_of (os1 ++ os2)) as Hin
        by (rewrite Heq; apply list_elem_of_fmap; eauto).
      rewrite ids_of_app in Hin. apply elem_of_app in Hin as [Hin|Hin]; [|done].
      by apply (Hd _ Hin); left. }
  assert (slots_ok b3) as Hso3.
  { eapply (slots_ok_release b b3 (so_id o) idx); [done|done| |done|done|].
    - right. exists (ids_of (os1 ++ o :: os2)). change (pool_ b3) with (pool_ b2). by rewrite Hp2.
    - change (free_ b3) with (idx :: free_ b2). by rewrite Hf2. }
  eexists. split.
  { destruct Ht3 as [E1 E2 E3 E4 _ _ _ _]. apply erase_level_ok; [|by rewrite E1].
    apply (band_fits_frame b); [done..|apply Hc]. }
  split; [|split_and!].
  - apply erase_level_core; [|done|by rewrite upd_eq].
    eapply core_dirty; [|eapply (core_update b b3 Q clean s px lvl2 (os1 ++ os2))]; try done.
    + intros s' px' [?|?]; [done|done].
    + by eapply queue_band.
    + by eapply ref_for_opposite_empty.
    + eapply (keeps_delete _ _ o (ids_of (os1 ++ o :: os2))); try done.
      * change (pool_ b3) with (pool_ b2). by rewrite Hp2.
      * rewrite HQ, ids_of_app, ids_of_cons. set_solver.
      * by rewrite HQ.
      * rewrite HQ, !ids_of_app, ids_of_cons. set_solver.
    + by eapply cursors_keep; eauto; unfold b3, b2, store; destruct (ref_for s px b).
  - unfold drop_empty. by case_match.
  - unfold drop_empty. by case_match.
  - unfold drop_empty.
    transitivity (lengthZ (pool_ b2)); [by case_match|rewrite Hp2; apply Hsb].
  - unfold drop_empty. by case_match.
  - transitivity (cfg_ b3); [unfold drop_empty; by case_match|apply Ht3].
Qed.

(** ** Reducing an order *)

Lemma level_for_set_pool s px p b :
  level_for s px (set_pool p b)
  = ('(r, b') ← level_for s px b; Some (r, set_pool p b')).
Proof.
  unfold level_for. change (tick_index px (set_pool p b)) with (tick_index px b).
  destruct (tick_index px b) as [t|]; [|done]. rewrite !obind_Some. by case_match.
Qed.

Lemma load_set_pool r p b : load r (set_pool p b) = load r b.
Proof. by destruct r. Qed.

Lemma store_frame r lvl b :
  pool_ (store r lvl b) = pool_ b /\ index_ (store r lvl b) = index_ b /\
  free_ (store r lvl b) = free_ b /\ next_match_id_ (store r lvl b) = next_match_id_ b /\
  listener_ (store r lvl b) = listener_ b /\ bid_cursor_ (store r lvl b) = bid_cursor_ b /\
  ask_cursor_ (store r lvl b) = ask_cursor_ b.
Proof. by destruct r. Qed.

Lemma own_store r lvl b : own (store r lvl b) = own b.
Proof. by destruct r. Qed.

Lemma reduce_core b Q s px os1 o os2 idx x keep :
  core b Q clean -> valid_side s -> Q s px = os1 ++ o :: os2 ->
  own b !! so_id o = Some idx -> pool_ b !z! idx = Some x -> 0 <= keep <= so_qty o ->
  let b1 := set_pool (<z[idx := set_open keep x]> (pool_ b)) b in
  exists lvl, level_for s px b1 = Some (ref_for s px b, b1) /\
    load (ref_for s px b) b1 = Some lvl /\
    core (store (ref_for s px b)
            (mkLevel (u32 (l_total lvl - (so_qty o - keep))) (l_head lvl) (l_tail lvl)) b1)
      (upd Q s px (os1 ++ mkSnapOrder (so_id o) keep :: os2)) clean.
Proof.
  intros Hc Hs HQ Hi Hx Hk b1. assert (Q s px <> []) as Hne by (rewrite HQ; by destruct os1).
  pose proof (c_slots _ _ _ Hc) as Hso.
  destruct (load_queue _ _ _ _ _ Hc Hs Hne) as (lvl & Hl & He). exists lvl.
  assert (f_id x = so_id o) as Hid.
  { destruct (so_live _ Hso _ _ Hi) as (_ & y & Hy & ?). rewrite Hx in Hy. by simplify_eq. }
  assert (same_but [so_id o] (pool_ b) (pool_ b1)) as Hsb
    by (eapply same_but_insert; [done|rewrite Hid; set_solver|done]).
  split_and!.
  - unfold b1. rewrite level_for_set_pool. by rewrite (level_for_existing _ _ _ _ _ Hc Hs Hne).
  - unfold b1. by rewrite load_set_pool.
  - set (lvl' := mkLevel _ _ _). set (b2 := store _ _ _).
    destruct (store_frame (ref_for s px b) lvl' b1) as (Hp2 & Hix2 & Hf2 & _ & _ & Hb2 & Ha2).
    assert (own b2 = own b) as Ho2 by apply (own_store _ _ b1).
    eapply core_clean with (dirty := fun s' px' => clean s' px' \/ at_ s px s' px').
    + eapply core_update with (lvl := lvl'); try done.
      * by eapply queue_band.
      * eapply touch_store; [done|apply Hc|by constructor|apply Hc|done].
      * eapply slots_ok_pool; [done| |done|done]. unfold b2. rewrite Hp2. exact Hsb.
      * rewrite Ho2. unfold b2. rewrite Hp2. unfold b1. cbn [pool_ set_pool].
        apply encodes_set_open; [by rewrite <- HQ|done|done|done].
      * by eapply ref_for_opposite_empty.
      * by apply (c_prices _ _ _ Hc s).
      * rewrite HQ. split.
        -- intros id i y Hi' Hy Hni. rewrite Ho2. split; [done|]. unfold b2. rewrite Hp2.
           apply Hsb; [done|]. destruct (so_live _ Hso _ _ Hi') as (_ & z & Hz & Hzi).
           rewrite Hy in Hz. simplify_eq. rewrite list_elem_of_singleton. intros Heq.
           apply Hni. rewrite Heq, ids_of_app, ids_of_cons. set_solver.
        -- intros id Hid'. rewrite Ho2 in Hid'.
           destruct (decide (id ∈ ids_of (os1 ++ o :: os2))) as [Hin|Hin]; [left|by right].
           by rewrite ids_of_app, ids_of_cons in *.
      * by eapply cursors_keep.
    + intros s' px' _ [[]|[-> ->]]. rewrite upd_eq. by destruct os1.
Qed.

(** ** Resting an order *)

Lemma set_band_core b Q px :
  core b Q clean -> price_fits (cfg_ b) px ->
  exists b0, set_band px b = Some b0 /\ core b0 Q clean /\ band_set_ b0 = true /\
    pool_ b0 = pool_ b /\ index_ b0 = index_ b /\
    next_match_id_ b0 = next_match_id_ b /\ listener_ b0 = listener_ b /\ cfg_ b0 = cfg_ b.
Proof.
  intros Hc Hfit. unfold set_band. destruct (band_set_ b) eqn:Hb; [by exists b|].
  pose proof (c_fits _ _ _ Hc) as Hbf0. pose proof (half_band_nonneg b Hbf0) as Hnn.
  pose proof (bf_width _ Hbf0) as Hw. destruct Hfit as [Hp1 Hp2]. fold (half_band (cfg_ b)).
  rewrite int64_Some, obind_Some by lia. rewrite int64_Some, obind_Some by lia.
  eexists. split; [done|]. split_and!; try done.
  assert (forall s px, valid_side s -> Q s px = []) as HQ.
  { intros s p Hs. destruct (decide (Q s p = [])); [done|].
    by rewrite (queue_band _ _ _ s p Hc) in Hb. }
  destruct (c_band _ _ _ Hc Hb) as [Hl Hf].
  destruct Hc as [Ht Hh Hso Ho _ Hsort _ _ _ _ _ _ _].
  constructor; try done; cbn.
  - by destruct Hso.
  - intros t Hr. exists Buy, new_level. rewrite !HQ by (auto with nsq; by left).
    unfold lengthZ in Hr. rewrite length_replicate in Hr.
    split_and!; [by left|apply lookupZ_replicate; lia|apply encodes_nil|done].
  - intros s p Hs _. pose proof (Hf s Hs) as He. unfold fallback in *. cbn in *. by rewrite He.
  - intros s p Hs _. pose proof (Hf s Hs) as He. unfold fallback in *. cbn in *. rewrite He. cbn.
    by apply HQ.
  - intros t _ Hne. by rewrite HQ in Hne by by left.
  - intros t _ Hne. by rewrite HQ in Hne by by right.
  - constructor; cbn; try done. intros _. rewrite Z.sub_add. split; [done|].
    unfold lengthZ. rewrite length_replicate. lia.
  - intros s p Hs Hne. by rewrite HQ in Hne.
Qed.

(** The fields [level_for] leaves alone. *)
Record same_store b b' : Prop := mkSameStore {
  ss_pool : pool_ b' = pool_ b;
  ss_index : index_ b' = index_ b;
  ss_free : free_ b' = free_ b;
  ss_match : next_match_id_ b' = next_match_id_ b;
  ss_log : listener_ b' = listener_ b;
  ss_bid : bid_cursor_ b' = bid_cursor_ b;
  ss_ask : ask_cursor_ b' = ask_cursor_ b;
  ss_cfg : cfg_ b' = cfg_ b;
  ss_band : band_set_ b' = band_set_ b;
  ss_base : base_ b' = base_ b;
  ss_ladder : ladder_ b' = ladder_ b }.

Lemma core_same b Q s px :
  core b Q clean -> core b Q (at_ s px).
Proof. apply core_dirty. intros ?? []. Qed.

Lemma level_for_core b Q s px :
  core b Q clean -> band_set_ b = true -> valid_side s ->
  Q (opposite s) px = [] -> price_fits (cfg_ b) px ->
  exists b1 lvl, level_for s px b = Some (ref_for s px b, b1) /\ core b1 Q (at_ s px) /\
    load (ref_for s px b) b1 = Some lvl /\
    encodes (pool_ b1) (own b1) lvl s px (Q s px) /\ same_store b b1.
Proof.
  intros Hc Hb Hs Hopp Hfit. destruct (decide (Q s px = [])) as [Hq|Hne].
  2:{ destruct (load_queue _ _ _ _ _ Hc Hs Hne) as (lvl & Hl & He). exists b, lvl.
      rewrite (level_for_existing _ _ _ _ _ Hc Hs Hne).
      split_and!; [done|by apply core_same|done|done|by constructor]. }
  unfold level_for, ref_for. rewrite tick_index_ok, obind_Some by (done || by eapply c_fits).
  destruct (Z.leb_spec 0 (tick_of px b)) as [Hge|Hlt].
  - destruct (tick_of_spec px b (c_tick _ _ _ Hc) Hge) as (_ & Hr & Hp).
    destruct (c_in _ _ _ Hc (tick_of px b)) as (s' & lvl & Hs' & Hl & He & _); [lia|].
    rewrite Hp in He. assert (Q s' px = []) as Hq'.
    { destruct (valid_side_cases s s' Hs Hs') as [-> | ->]; [done|exact Hopp]. }
    rewrite Hq' in He. destruct He as [-> _ _ _]. exists b, new_level. rewrite Hq.
    split_and!; [done|by apply core_same|done|apply encodes_nil|by constructor].
  - pose proof (c_out _ _ _ Hc s px Hs Hlt) as Ho.
    destruct (StdMap.find px (fallback s b)) as [lvl|] eqn:Hf;
      [by destruct Ho as [_ Hx]; destruct (Hx Hq)|].
    set (b1 := set_fallback _ _ _). exists b1, new_level. rewrite Hq.
    assert (StdMap.find px (fallback s b1) = Some new_level) as Hn.
    { unfold b1. rewrite fallback_set, decide_True by done.
      rewrite (StdMap.sm_find_upsert_eq (before s)) by (by apply Hc). by rewrite Hf. }
    assert (touch b b1 s px new_level) as Ht.
    { constructor; try done; unfold ref_for; replace (0 <=? tick_of px b) with false by lia.
      - exact Hn.
      - intros s' px' Hs' Hne. unfold b1. rewrite fallback_set by done. case_decide; [subst|done].
        apply (StdMap.sm_find_upsert_ne (before s)). congruence.
      - intros s' Hs'. unfold b1. rewrite fallback_set by done. case_decide; [subst|by apply Hc].
        apply StdMap.sm_sorted_upsert; [apply _|by apply Hc]. }
    split_and!; [done| |exact Hn|apply encodes_nil|by constructor].
    apply (core_ext _ (upd Q s px [])).
    { intros s' px' _. unfold upd. case_decide as Hd; [|done]. by destruct Hd as [-> ->]. }
    eapply core_dirty; [|eapply core_update with (lvl := new_level)]; try done.
    + intros s' px' [[]|]; done.
    + destruct (c_slots _ _ _ Hc). by constructor.
    + apply encodes_nil.
    + rewrite Hq. split; [done|]. intros id Hid. right. split; [done|]. set_solver.
Qed.

(** [alloc_order] hands out a slot no order owns and writes only there. *)
Lemma alloc_spec b id s px qty :
  slots_ok b -> Z.of_nat (size (own b)) < kNil ->
  exists idx b', alloc_order id s px qty b = Some (idx, b') /\
    pool_ b' !z! idx = Some (mkFOrder id px qty kNil kNil s) /\
    (forall j x, pool_ b !z! j = Some x -> j <> idx -> pool_ b' !z! j = Some x) /\
    (forall id', own b !! id' <> Some idx) /\
    idx ∉ free_ b' /\ NoDup (free_ b') /\ (forall j, j ∈ free_ b' -> j ∈ free_ b) /\
    lengthZ (pool_ b) <= lengthZ (pool_ b') <= kNil /\
    lengthZ (pool_ b') - lengthZ (free_ b') = lengthZ (pool_ b) - lengthZ (free_ b) + 1 /\
    same_frame b b' /\ index_ b' = index_ b /\
    next_match_id_ b' = next_match_id_ b /\ listener_ b' = listener_ b.
Proof.
  intros [Hx Hk Hnd Hr Hct Hl] Hlt. unfold alloc_order. destruct (free_ b) as [|idx fr] eqn:Hf.
  - change (lengthZ []) with 0 in Hct. pose proof (lengthZ_nonneg (pool_ b)) as Hnn.
    rewrite wrap_small by (unfold fits, kNil in *; lia).
    set (x0 := mkFOrder 0 0 0 0 0 (RawSide 0)). set (idx := lengthZ (pool_ b)).
    assert (lengthZ (pool_ b ++ [x0]) = idx + 1) as Hlen by (rewrite lengthZ_app; done).
    assert ((pool_ b ++ [x0]) !z! idx = Some x0) as Hlast by apply lookupZ_app_last.
    unfold modify_pool. cbn [pool_ set_pool]. rewrite Hlast, !obind_Some.
    eexists _, _. split; [done|]. cbn [pool_ set_pool free_ own index_].
    rewrite lengthZ_insertZ, Hlen. split_and!; try done.
    + apply lookupZ_insertZ_eq. lia.
    + intros j x Hj Hne. rewrite lookupZ_insertZ_ne by done.
      rewrite lookupZ_app_l; [done|]. apply lookupZ_Some_bounds in Hj. lia.
    + intros id' Hid. destruct (Hl _ _ Hid) as (_ & x & Hx' & _).
      apply lookupZ_Some_bounds in Hx'. lia.
    + rewrite Hf. set_solver.
    + by rewrite Hf.
    + by rewrite Hf.
    + lia.
    + lia.
    + rewrite Hf. change (lengthZ []) with 0. lia.
  - apply NoDup_cons in Hnd as [Hni Hnd].
    assert (0 <= idx < lengthZ (pool_ b)) as Hir by (apply Hr; set_solver).
    destruct (lookupZ_is_Some _ _ Hir) as [x Hpx].
    unfold modify_pool. cbn [pool_ set_free]. rewrite Hpx, !obind_Some.
    eexists _, _. split; [done|]. cbn [pool_ set_pool set_free free_ own index_].
    rewrite lengthZ_insertZ. split_and!; try done; try lia.
    + by apply lookupZ_insertZ_eq.
    + intros j y Hj Hne. by rewrite lookupZ_insertZ_ne by done.
    + intros id' Hid. destruct (Hl _ _ Hid) as (Hnf & _). set_solver.
    + set_solver.
    + unfold lengthZ. cbn [length]. lia.
Qed.

(** Linking a fresh slot behind the last order of a level. *)
Lemma append_spec pool own s px os id qty idx lvl :
  lengthZ pool <= kNil -> seg pool own s px kNil os kNil -> NoDup (ids_of os) ->
  lvl = mkLevel (u32 (sum_by so_qty os)) (first_slot own os kNil) (last_slot own kNil os) ->
  pool !z! idx = Some (mkFOrder id px qty kNil kNil s) -> id ∉ ids_of os ->
  exists lvl1 pool1 pool2,
    modify_pool idx (set_prev (l_tail lvl)) pool = Some pool1 /\
    (if negb (l_tail lvl =? kNil) then
       p ← modify_pool (l_tail lvl) (set_next idx) pool1; Some (lvl, p)
     else Some (mkLevel (l_total lvl) idx (l_tail lvl), pool1)) = Some (lvl1, pool2) /\
    let own' := <[id := idx]> own in
    let os' := os ++ [mkSnapOrder id qty] in
    mkLevel (u32 (l_total lvl1 + qty)) (l_head lvl1) idx
      = mkLevel (u32 (sum_by so_qty os')) (first_slot own' os' kNil) (last_slot own' kNil os') /\
    seg pool2 own' s px kNil os' kNil /\ same_but (id :: ids_of os) pool pool2.
Proof.
  intros Hk Hs Hnd Hlvl Hp Hni. pose proof (lookupZ_Some_bounds _ _ _ Hp) as Hir.
  unfold modify_pool at 1. rewrite Hp, obind_Some. set (tl := l_tail lvl).
  assert (tl = last_slot own kNil os) as Htl by (unfold tl; by rewrite Hlvl).
  eexists _. set (pool1 := <z[idx := _]> pool).
  assert (same_but [id] pool pool1) as Hb1 by (eapply same_but_insert; [done|cbn; set_solver|done]).
  assert (seg pool1 own s px kNil os kNil) as Hs1.
  { eapply seg_same_but; [done|exact Hb1|]. by intros ? ->%list_elem_of_singleton. }
  assert (lengthZ pool1 = lengthZ pool) as Hl1 by apply Hb1.
  destruct (relink_next s px pool1 own os kNil idx (l_total lvl) (l_head lvl) tl)
    as (pool2 & Hlink & Hs2 & Hb2); [lia|done|done| |].
  { rewrite Hlvl. cbn. by destruct os. }
  rewrite <- Htl in Hlink. assert (mkLevel (l_total lvl) (l_head lvl) tl = lvl) as Hlv by by destruct lvl.
  rewrite Hlv in Hlink. exists pool1, pool2. split; [done|]. split; [exact Hlink|].
  assert (forall o, o ∈ os -> (<[id := idx]> own) !! so_id o = own !! so_id o) as Hown.
  { intros o Ho. apply lookup_insert_ne. intros ->. apply Hni, list_elem_of_fmap. eauto. }
  assert (slot_of (<[id := idx]> own) (mkSnapOrder id qty) = idx) as Hsl
    by (apply slot_of_Some, lookup_insert_eq).
  cbn zeta. cbn [l_total l_head]. split_and!.
  - rewrite first_slot_app, last_slot_app, sum_by_app. cbn [first_slot last_slot sum_by so_qty].
    rewrite Hsl, (first_slot_frame own (<[id := idx]> own)) by done. f_equal. rewrite Hlvl. cbn. wrap_eq.
  - apply seg_app. cbn [first_slot]. rewrite Hsl, (last_slot_frame own (<[id := idx]> own)) by done. split.
    + eapply seg_frame; [done|]. intros o i Ho Hi. by rewrite Hown.
    + exists idx. cbn. rewrite lookup_insert_eq. split_and!; [done| |done].
      rewrite <- Htl. apply Hb2; [|done]. unfold pool1. rewrite lookupZ_insertZ_eq by done. done.
  - eapply same_but_trans; (eapply same_but_mono; [done|set_solver]).
Qed.

(** What [bump_cursors] does to a book whose band fits. *)
Definition bumped (s : Side) (px : Price) b : FastBook M :=
  let t := tick_of px b in
  if 0 <=? t then
    set_cursors
      (if bool_decide (s = Buy) && (bid_cursor_ b <? t) then t else bid_cursor_ b)
      (if bool_decide (s = Sell) && (t <? ask_cursor_ b) then t else ask_cursor_ b) b
  else b.

Lemma bump_cursors_ok s px b :
  band_fits b -> price_fits (cfg_ b) px -> bump_cursors s px b = Some (bumped s px b).
Proof. intros Hb Hp. unfold bump_cursors. by rewrite tick_index_ok, obind_Some. Qed.

Lemma bump_frame s px b :
  cfg_ (bumped s px b) = cfg_ b /\ band_set_ (bumped s px b) = band_set_ b /\
  base_ (bumped s px b) = base_ b /\ ladder_ (bumped s px b) = ladder_ b /\
  fb_bids_ (bumped s px b) = fb_bids_ b /\ fb_asks_ (bumped s px b) = fb_asks_ b /\
  pool_ (bumped s px b) = pool_ b /\ free_ (bumped s px b) = free_ b /\
  index_ (bumped s px b) = index_ b /\
  next_match_id_ (bumped s px b) = next_match_id_ b /\
  listener_ (bumped s px b) = listener_ b.
Proof. unfold bumped. by case_match. Qed.

Lemma bumped_ok s px b b' os' :
  bid_cursor_ b' = bid_cursor_ b -> ask_cursor_ b' = ask_cursor_ b ->
  tick_of px b' = tick_of px b ->
  cursors_ok b (bumped s px b') s px os'.
Proof.
  intros Hb Ha Ht. unfold cursors_ok, bumped. rewrite Ht.
  destruct (Z.leb_spec 0 (tick_of px b));
    cbn [set_cursors bid_cursor_ ask_cursor_]; rewrite ?Hb, ?Ha; [|split_and!; intros; lia].
  repeat case_bool_decide; cbn [andb];
    repeat match goal with |- context [?x <? ?y] => destruct (Z.ltb_spec x y) end;
    split_and!; intros; (done || lia).
Qed.

Lemma touch_frame b b' b'' s px lvl :
  touch b b' s px lvl -> cfg_ b'' = cfg_ b' -> band_set_ b'' = band_set_ b' ->
  base_ b'' = base_ b' -> ladder_ b'' = ladder_ b' -> fb_bids_ b'' = fb_bids_ b' ->
  fb_asks_ b'' = fb_asks_ b' -> touch b b'' s px lvl.
Proof.
  intros [H1 H2 H3 H4 H5 H6 H7 H8] E1 E2 E3 E4 E5 E6.
  assert (forall s', fallback s' b'' = fallback s' b') as Hf by (intros; by apply fallback_frame).
  constructor; rewrite ?E1, ?E2, ?E3, ?E4; try done.
  - rewrite <- H5. destruct (ref_for s px b); cbn; [by rewrite E4|by rewrite Hf].
  - intros s' px' Hs' Hne. rewrite Hf. by apply H7.
  - intros s' Hs'. rewrite Hf. by apply H8.
Qed.

Lemma slots_ok_new b b2 b' id idx os x :
  slots_ok b -> own b !! id = None ->
  (forall j x, pool_ b !z! j = Some x -> j <> idx -> pool_ b2 !z! j = Some x) ->
  (forall id', own b !! id' <> Some idx) -> pool_ b2 !z! idx = Some x -> f_id x = id ->
  idx ∉ free_ b2 -> NoDup (free_ b2) -> (forall j, j ∈ free_ b2 -> j ∈ free_ b) ->
  lengthZ (pool_ b) <= lengthZ (pool_ b2) <= kNil ->
  lengthZ (pool_ b2) - lengthZ (free_ b2) = lengthZ (pool_ b) - lengthZ (free_ b) + 1 ->
  same_but os (pool_ b2) (pool_ b') -> free_ b' = free_ b2 ->
  oi_ok (index_ b') -> own b' = <[id := idx]> (own b) -> slots_ok b'.
Proof.
  intros [Hx Hk Hnd Hr Hct Hl] Hid Hp Hidx Hpx Hxid Hni Hnd2 Hsub Hlen Hbal (Hlen' & Hids & _) Hf Hix Ho.
  constructor; rewrite ?Hf, ?Hlen'; try done; try lia.
  - intros i Hi. apply Hsub, Hr in Hi. lia.
  - rewrite Ho, map_size_insert, Hid. lia.
  - intros id' i. rewrite Ho. intros [[-> ->]|[Hne Hi]]%lookup_insert_Some.
    + split; [done|]. destruct (Hids _ _ Hpx) as (y & Hy & Heq). exists y. split; [done|congruence].
    + destruct (Hl _ _ Hi) as (Hnf & y & Hy & <-). split; [by intros Hi'%Hsub|].
      assert (i <> idx) as Hni' by (intros ->; by eapply Hidx). by apply Hids, Hp.
Qed.

Lemma rest_core b Q s px id qty :
  core b Q clean -> valid_side s -> own b !! id = None -> fits 32 qty ->
  Z.of_nat (size (own b)) < kNil ->
  Q (opposite s) px = [] -> price_fits (cfg_ b) px ->
  exists b', rest id s px qty b = Some b' /\
    core b' (upd Q s px (Q s px ++ [mkSnapOrder id qty])) clean /\
    next_match_id_ b' = next_match_id_ b /\ listener_ b' = listener_ b /\ cfg_ b' = cfg_ b.
Proof.
  intros Hc Hs Hid Hq Hroom Hopp Hfit. unfold rest.
  destruct (set_band_core b Q px Hc Hfit) as (b0 & -> & Hc0 & Hb0 & Hp0 & Hi0 & Hm0 & Hlg0 & Hcf0).
  rewrite obind_Some. rewrite <- Hcf0 in Hfit.
  destruct (level_for_core b0 Q s px Hc0 Hb0 Hs Hopp Hfit) as (b1 & lvl & Hlf & Hc1 & Hl1 & He1 & Hss).
  rewrite Hlf, obind_Some. destruct Hss as [Sp Si Sf Sm Sl Sb Sa Scfg Sband Sbase Slad].
  assert (tick_of px b1 = tick_of px b0) as Ht1
    by (apply tick_of_frame; congruence).
  assert (ref_for s px b0 = ref_for s px b1) as Href by (unfold ref_for; by rewrite Ht1).
  rewrite Href in Hl1 |- *.
  assert (own b1 !! id = None) as Hid1 by (unfold own in *; by rewrite Si, Hi0).
  destruct (alloc_spec b1 id s px qty (c_slots _ _ _ Hc1)) as
    (idx & b2 & -> & Hpi & Hpo & Hidx & Hnf & Hnd & Hsub & Hlen & Hbal & Hsf & Hix & Hm & Hlg);
    [unfold own in *; congruence|]. rewrite obind_Some.
  assert (load (ref_for s px b1) b2 = Some lvl) as ->.
  { rewrite <- Hl1. destruct Hsf. destruct (ref_for s px b1); cbn; [congruence|].
    f_equal. by apply fallback_frame. }
  rewrite obind_Some.
  assert (encodes (pool_ b2) (own b1) lvl s px (Q s px)) as [Hlv Hsg Hnd' Hqs].
  { eapply encodes_frame; [exact He1|]. intros o i Ho Hi. split; [done|].
    destruct (seg_slot _ _ _ _ _ _ _ _ (en_seg _ _ _ _ _ _ He1) Ho) as (j & p & n & Hj & Hp).
    rewrite Hi in Hj. injection Hj as <-. rewrite Hp. apply Hpo; [done|].
    intros ->. by eapply Hidx. }
  assert (id ∉ ids_of (Q s px)) as Hnew.
  { intros (o & -> & Ho)%list_elem_of_fmap.
    destruct (seg_slot _ _ _ _ _ _ _ _ Hsg Ho) as (j & p & n & Hj & _). congruence. }
  assert (lengthZ (pool_ b2) <= kNil) as Hk2 by lia.
  destruct (append_spec (pool_ b2) (own b1) s px (Q s px) id qty idx lvl Hk2 Hsg Hnd' Hlv Hpi Hnew)
    as (lvl1 & pool1 & pool2 & Hm1 & Hm2 & Hlv2 & Hsg2 & Hsb).
  rewrite Hm1, obind_Some, Hm2, obind_Some. cbn zeta in Hlv2, Hsg2.
  set (lvl2 := mkLevel (u32 (l_total lvl1 + qty)) (l_head lvl1) idx) in *.
  set (b3 := store (ref_for s px b1) lvl2 (set_pool pool2 b2)).
  destruct (store_frame (ref_for s px b1) lvl2 (set_pool pool2 b2))
    as (F1 & F2 & F3 & F4 & F5 & F6 & F7). fold b3 in F1, F2, F3, F4, F5, F6, F7.
  cbn [pool_ set_pool index_ free_ next_match_id_ listener_ bid_cursor_ ask_cursor_] in *.
  destruct (oi_insert_spec (index_ b3) id idx) as (ix & Hixi & Hixok & Hixm).
  { rewrite F2, Hix. apply (c_slots _ _ _ Hc1). }
  rewrite Hixi, obind_Some. set (b4 := set_index ix b3).
  set (b5 := bumped s px b4).
  destruct (bump_frame s px b4) as (B1 & B2 & B3 & B4 & B5 & B6 & B7 & B8 & B9 & B10 & B11).
  fold b5 in B1, B2, B3, B4, B5, B6, B7, B8, B9, B10, B11.
  assert (own b5 = <[id := idx]> (own b1)) as Ho5.
  { unfold own. rewrite B9. cbn. by rewrite Hixm, F2, Hix. }
  assert (pool_ b5 = pool2) as Hp5 by (rewrite B7; exact F1).
  assert (touch b1 b5 s px lvl2) as Ht5.
  { eapply touch_frame; [|exact B1|exact B2|exact B3|exact B4|exact B5|exact B6].
    eapply (touch_frame _ b3); try done.
    eapply touch_store; [done|apply Hc1|by destruct Hsf; constructor|apply Hc1|done]. }
  assert (tick_of px b4 = tick_of px b1) as Ht4.
  { apply tick_of_frame; destruct Ht5; congruence. }
  exists b5. split.
  { destruct Ht5 as [E1 E2 E3 E4 _ _ _ _]. apply bump_cursors_ok; [|congruence].
    apply (band_fits_frame b1); [congruence..|]. by eapply c_fits. }
  split; [|split_and!].
  - eapply core_clean with (dirty := fun s' px' => at_ s px s' px' \/ (s' = s /\ px' = px)).
    + eapply core_update with (lvl := lvl2); try done; [congruence|..].
      * eapply (slots_ok_new b1 b2 b5 id idx); try done; [apply Hc1| |rewrite B8; exact F3|].
        -- rewrite Hp5. exact Hsb.
        -- by rewrite B9.
      * rewrite Hp5, Ho5. constructor; [done|done| |].
        -- rewrite ids_of_app. apply NoDup_app. split_and!; [done| |apply NoDup_singleton].
           intros i Hi ->%list_elem_of_singleton. done.
        -- apply Forall_app. split; [done|]. by apply Forall_singleton.
      * congruence.
      * split.
        -- intros id' i x Hi Hx Hni. assert (id' <> id) as Hne by (intros ->; congruence).
           rewrite Ho5, lookup_insert_ne by done. split; [done|]. rewrite Hp5.
           assert (i <> idx) by (intros ->; by eapply Hidx).
           apply Hsb; [by apply Hpo|].
           destruct (so_live _ (c_slots _ _ _ Hc1) _ _ Hi) as (_ & y & Hy & Hyi).
           rewrite Hx in Hy. simplify_eq. set_solver.
        -- intros id' Hsome. rewrite Ho5 in Hsome. rewrite ids_of_app.
           destruct Hsome as [j [[<- _]|[Hne Hj]]%lookup_insert_Some]; [left; set_solver|].
           destruct (decide (id' ∈ ids_of (Q s px))); [left; set_solver|right; eauto].
      * destruct Hsf. apply bumped_ok; [| |exact Ht4].
        -- change (bid_cursor_ b4) with (bid_cursor_ b3). congruence.
        -- change (ask_cursor_ b4) with (ask_cursor_ b3). congruence.
    + intros s' px' _ Hd. assert (s' = s /\ px' = px) as [-> ->] by (destruct Hd; done).
      rewrite upd_eq. by destruct (Q s px).
  - rewrite B10. cbn. congruence.
  - rewrite B11. cbn. congruence.
  - destruct Ht5. congruence.
Qed.
End ops.
