(* ===== verification/LadderMatch.v ===== *)
(** Best-price selection and the matching loop of the fast book, against the
    abstract book. *)

From S2P Require Import Prelude StdMap BookTypes BookSpec OrderIndex LadderBook LadderLinks LadderInv LadderOps.

Import FastBook.

Section best.
Context {M : Type} `{OrderIndexLaws M}.
Implicit Types (b : FastBook M).

Lemma core_cursors b Q dirty bid ask :
  core b Q dirty ->
  (forall t, 0 <= t < lengthZ (ladder_ b) -> Q Buy (price_of t b) <> [] -> t <= bid) ->
  (forall t, 0 <= t < lengthZ (ladder_ b) -> Q Sell (price_of t b) <> [] -> ask <= t) ->
  core (set_cursors bid ask b) Q dirty.
Proof.
  intros [Ht Hh Hso Ho Hb Hsort Hin Hfb Hout Hbid Hask Hbf Hpr] H1 H2. constructor; try done.
  - by destruct Hso.
  - by destruct Hbf.
Qed.

Lemma set_cursors_same b : b = set_cursors (bid_cursor_ b) (ask_cursor_ b) b.
Proof. by destruct b. Qed.

Lemma level_has_spec b Q dirty s t :
  core b Q dirty -> valid_side s -> 0 <= t < lengthZ (ladder_ b) ->
  level_has s t b = Some (bool_decide (Q s (price_of t b) <> [])).
Proof.
  intros Hc Hs Ht. destruct (c_in _ _ _ Hc t Ht) as (s' & lvl & Hs' & Hl & He & Ho).
  unfold level_has. rewrite Hl, obind_Some.
  pose proof (encodes_head _ _ _ _ _ _ (so_pool _ (c_slots _ _ _ Hc)) He) as Hh.
  destruct (Z.eqb_spec (l_head lvl) kNil) as [Hk|Hk].
  - apply Hh in Hk. rewrite bool_decide_eq_false_2; [done|].
    destruct (valid_side_cases s' s Hs' Hs) as [-> | ->]; intros Hx; by apply Hx.
  - destruct (Q s' (price_of t b)) as [|o os] eqn:HQ; [by destruct Hk; apply Hh|].
    destruct He as [-> (i & Hi & Hp & _) _ _]. cbn [l_head first_slot].
    rewrite (slot_of_Some _ _ _ Hi), Hp, obind_Some. cbn [f_side]. f_equal.
    destruct (valid_side_cases s' s Hs' Hs) as [-> | ->].
    + rewrite HQ. by rewrite !bool_decide_eq_true_2.
    + rewrite !bool_decide_eq_false_2; [done| |].
      * intros Hx. by apply Hx.
      * by destruct Hs' as [-> | ->].
Qed.

(** What a scan of the ladder promises. *)
Definition ladder_best_at b (Q : Table) (s : Side) (t : Z) : Prop :=
  if 0 <=? t then
    t < lengthZ (ladder_ b) /\ Q s (price_of t b) <> [] /\
    forall t', 0 <= t' < lengthZ (ladder_ b) -> Q s (price_of t' b) <> [] ->
      t' = t \/ before s (price_of t b) (price_of t' b) = true
  else forall t', 0 <= t' < lengthZ (ladder_ b) -> Q s (price_of t' b) = [].

Lemma price_of_before s t t' b :
  0 < tick (cfg_ b) -> before s (price_of t b) (price_of t' b) = before s t t'.
Proof.
  intros Ht. unfold before, price_of. apply eq_bool_prop_intro. rewrite !Is_true_true.
  destruct (is_buy s); rewrite !Z.ltb_lt; nia.
Qed.

Lemma scan_bids_spec b Q dirty n :
  core b Q dirty -> Z.of_nat n <= lengthZ (ladder_ b) ->
  (forall t, Z.of_nat n <= t < lengthZ (ladder_ b) -> Q Buy (price_of t b) = []) ->
  exists t, scan_bids n b = Some t /\ -1 <= t /\ ladder_best_at b Q Buy t.
Proof.
  intros Hc. induction n as [|n IH]; intros Hn Hup.
  - exists (-1). split_and!; [done|lia|]. intros t Ht. apply Hup. lia.
  - cbn [scan_bids]. rewrite (level_has_spec b Q dirty Buy) by (done || by left || lia).
    rewrite obind_Some. case_bool_decide as Hq.
    + exists (Z.of_nat n). split_and!; [done|lia|]. unfold ladder_best_at.
      replace (0 <=? Z.of_nat n) with true by lia. split_and!; [lia|done|].
      intros t Ht Hne. rewrite price_of_before by apply Hc. unfold before. cbn.
      destruct (Z.lt_trichotomy t (Z.of_nat n)) as [|[->|]]; [right; lia|by left|].
      by rewrite Hup in Hne by lia.
    + apply IH; [lia|]. intros t Ht. destruct (decide (t = Z.of_nat n)) as [->|].
      * done.
      * apply Hup. lia.
Qed.

Lemma scan_asks_spec b Q dirty n t :
  core b Q dirty -> 0 <= t -> t + Z.of_nat n = Z.max t (lengthZ (ladder_ b)) ->
  (forall t', 0 <= t' < t -> t' < lengthZ (ladder_ b) -> Q Sell (price_of t' b) = []) ->
  exists t', scan_asks n t b = Some t' /\ 0 <= t' /\
    ladder_best_at b Q Sell (if t' <? lengthZ (ladder_ b) then t' else -1).
Proof.
  intros Hc. revert t. induction n as [|n IH]; intros t Ht Hn Hlow.
  - exists t. split_and!; [done|done|]. replace (t <? lengthZ (ladder_ b)) with false by lia.
    intros t' Ht'. apply Hlow; lia.
  - cbn [scan_asks]. rewrite (level_has_spec b Q dirty Sell) by (done || by right || lia).
    rewrite obind_Some. case_bool_decide as Hq.
    + exists t. split_and!; [done|done|]. replace (t <? lengthZ (ladder_ b)) with true by lia.
      unfold ladder_best_at. replace (0 <=? t) with true by lia. split_and!; [lia|done|].
      intros t' Ht' Hne. rewrite price_of_before by apply Hc. unfold before. cbn.
      destruct (Z.lt_trichotomy t' t) as [|[->|]]; [|by left|right; lia].
      by rewrite Hlow in Hne by lia.
    + apply IH; [lia|lia|]. intros t' Ht' Hl. destruct (decide (t' = t)) as [->|].
      * done.
      * apply Hlow; lia.
Qed.

Lemma ladder_best_bound_bid b Q t :
  0 < tick (cfg_ b) -> -1 <= t -> ladder_best_at b Q Buy t ->
  forall t', 0 <= t' < lengthZ (ladder_ b) -> Q Buy (price_of t' b) <> [] -> t' <= t.
Proof.
  unfold ladder_best_at. intros Hk Ht Hb t' Ht' Hne. destruct (Z.leb_spec 0 t).
  - destruct Hb as (_ & _ & Hb). destruct (Hb t' Ht' Hne) as [->|Hx]; [done|].
    rewrite price_of_before in Hx by done. unfold before in Hx. cbn in Hx. lia.
  - by rewrite Hb in Hne.
Qed.

Lemma ladder_best_bound_ask b Q t :
  0 < tick (cfg_ b) -> 0 <= t ->
  ladder_best_at b Q Sell (if t <? lengthZ (ladder_ b) then t else -1) ->
  forall t', 0 <= t' < lengthZ (ladder_ b) -> Q Sell (price_of t' b) <> [] -> t <= t'.
Proof.
  unfold ladder_best_at. intros Hk Ht Hb t' Ht' Hne.
  destruct (Z.ltb_spec t (lengthZ (ladder_ b))).
  - replace (0 <=? t) with true in Hb by lia.
    destruct Hb as (_ & _ & Hb). destruct (Hb t' Ht' Hne) as [->|Hx]; [done|].
    rewrite price_of_before in Hx by done. unfold before in Hx. cbn in Hx. lia.
  - change (0 <=? -1) with false in Hb. by rewrite Hb in Hne.
Qed.

Lemma ladder_best_spec b Q dirty s :
  core b Q dirty -> valid_side s ->
  exists t x y, ladder_best s b = Some (t, set_cursors x y b) /\
    core (set_cursors x y b) Q dirty /\ ladder_best_at b Q s t.
Proof.
  intros Hc [-> | ->]; unfold ladder_best; cbn.
  - unfold ladder_best_bid. set (t := Z.min _ _). destruct (Z.ltb_spec t 0) as [Hlt|Hge].
    + eexists _, _, _. split; [done|].
      assert (forall t', 0 <= t' < lengthZ (ladder_ b) -> Q Buy (price_of t' b) = []) as Hnone.
      { intros t' Ht'. apply dec_stable. intros Hne. pose proof (c_bid _ _ _ Hc t' Ht' Hne). lia. }
      split.
      * apply core_cursors; [done| |apply Hc]. intros t' Ht' Hne. by rewrite Hnone in Hne.
      * unfold ladder_best_at. by replace (0 <=? t) with false by lia.
    + destruct (scan_bids_spec b Q dirty (Z.to_nat (t + 1)) Hc) as (t' & Hs & Hr & Hb); [lia| |].
      { intros t' Ht'. apply dec_stable. intros Hne.
        assert (0 <= t' < lengthZ (ladder_ b)) as Hr by lia.
        pose proof (c_bid _ _ _ Hc t' Hr Hne). lia. }
      rewrite Hs, obind_Some. eexists _, _, _. split; [done|]. split; [|done].
      apply core_cursors; [done| |apply Hc].
      apply ladder_best_bound_bid; [apply Hc|lia|done].
  - unfold ladder_best_ask. set (n := lengthZ (ladder_ b)). set (t := Z.max _ 0).
    destruct (scan_asks_spec b Q dirty (Z.to_nat (n - t)) t Hc) as (t' & Hs & Hr & Hb); [lia|lia| |].
    { intros t' Ht' Hl. apply dec_stable. intros Hne.
      assert (0 <= t' < lengthZ (ladder_ b)) as Hr by lia.
      pose proof (c_ask _ _ _ Hc t' Hr Hne). lia. }
    rewrite Hs, obind_Some. eexists _, _, _. split; [done|]. split; [|done].
    apply core_cursors; [done|apply Hc|]. by apply ladder_best_bound_ask; [apply Hc|..].
Qed.

Lemma ladder_best_if_set_spec b Q dirty s :
  core b Q dirty -> valid_side s ->
  exists t x y, ladder_best_if_set s b = Some (t, set_cursors x y b) /\
    core (set_cursors x y b) Q dirty /\ ladder_best_at b Q s t.
Proof.
  intros Hc Hs. unfold ladder_best_if_set. destruct (band_set_ b) eqn:Hb.
  - by apply (ladder_best_spec b Q dirty).
  - eexists _, _, _. rewrite <- set_cursors_same. split; [done|]. split; [done|].
    intros t Ht. destruct (c_band _ _ _ Hc Hb) as [Hl _]. rewrite Hl in Ht. unfold lengthZ in Ht.
    cbn in Ht. lia.
Qed.

(** ** The best level of a side *)

Definition best_of (Q : Table) (s : Side) (p : Price) : Prop :=
  Q s p <> [] /\ forall q, Q s q <> [] -> q = p \/ before s p q = true.

Lemma fallback_head b Q s p lvl m :
  core b Q clean -> valid_side s -> fallback s b = (p, lvl) :: m ->
  tick_of p b < 0 /\ Q s p <> [] /\
  forall q, tick_of q b < 0 -> Q s q <> [] -> q = p \/ before s p q = true.
Proof.
  intros Hc Hs Hf. pose proof (c_sorted _ _ _ Hc s Hs) as Hsort.
  assert (StdMap.find p (fallback s b) = Some lvl) as Hp
    by (rewrite Hf; cbn; by rewrite Z.eqb_refl).
  assert (tick_of p b < 0) as Hlt.
  { destruct (Z.lt_ge_cases (tick_of p b) 0) as [|Hge]; [done|].
    by rewrite (c_infb _ _ _ Hc s p Hs Hge) in Hp. }
  pose proof (c_out _ _ _ Hc s p Hs Hlt) as Ho. rewrite Hp in Ho. destruct Ho as [_ Hd].
  split_and!; [done|by intros ?%Hd|]. intros q Hq Hne.
  pose proof (c_out _ _ _ Hc s q Hs Hq) as Hoq.
  destruct (StdMap.find q (fallback s b)) as [l|] eqn:Hfq; [|done].
  rewrite Hf in Hsort, Hfq. by eapply (StdMap.sm_find_head_lt (before s)).
Qed.

(** The price of the best ladder level is computed without overflow. *)
Lemma ladder_price_ok b Q s t :
  core b Q clean -> ladder_best_at b Q s t ->
  (if 0 <=? t then px ← price_at t b; Some (Some (px, InLadder t, false)) else Some None)
  = Some (if 0 <=? t then Some (price_of t b, InLadder t, false) else None).
Proof.
  unfold ladder_best_at. intros Hc Hb. destruct (Z.leb_spec 0 t) as [Hge|]; [|done].
  destruct Hb as (Ht & _ & _). assert (0 <= t < lengthZ (ladder_ b)) as Hr by lia.
  by rewrite (core_price_at _ _ _ _ Hc Hr), obind_Some.
Qed.

Lemma best_level_spec b Q s :
  core b Q clean -> valid_side s ->
  exists r x y, best_level s b = Some (r, set_cursors x y b) /\
    core (set_cursors x y b) Q clean /\
    match r with
    | None => forall p, Q s p = []
    | Some (p, ref, fb) =>
        best_of Q s p /\ ref = ref_for s p b /\ fb = negb (0 <=? tick_of p b)
    end.
Proof.
  intros Hc Hs. pose proof (c_tick _ _ _ Hc) as Htick.
  destruct (ladder_best_if_set_spec b Q clean s Hc Hs) as (t & x & y & Hl & Hc1 & Hb).
  unfold best_level. rewrite Hl, obind_Some.
  change (fallback s (set_cursors x y b)) with (fallback s b).
  change (price_at t (set_cursors x y b)) with (price_at t b).
  rewrite (ladder_price_ok b Q s t Hc Hb), obind_Some. eexists _, x, y. split; [done|]. split; [done|].
  assert (forall p, 0 <= tick_of p b -> 0 <= tick_of p b < lengthZ (ladder_ b) /\
            price_of (tick_of p b) b = p) as Hin.
  { intros p Hp. destruct (tick_of_spec p b Htick Hp) as (_ & ? & ?). split; [lia|done]. }
  assert (0 <= t -> 0 <= t < lengthZ (ladder_ b) -> tick_of (price_of t b) b = t) as Htt.
  { intros _ Hr. apply tick_of_price_of; [done| |done]. destruct (band_set_ b) eqn:Hbs; [done|].
    rewrite (proj1 (c_band _ _ _ Hc Hbs)) in Hr. unfold lengthZ in Hr. cbn in Hr. lia. }
  unfold ladder_best_at in Hb. destruct (Z.leb_spec 0 t) as [Hge|Hlt].
  - destruct Hb as (Htl & Hq & Hbest). specialize (Htt Hge ltac:(lia)).
    assert (forall q, 0 <= tick_of q b -> Q s q <> [] ->
              q = price_of t b \/ before s (price_of t b) q = true) as Hlad.
    { intros q Hq1 Hq2. destruct (Hin q Hq1) as [Hr Hp]. rewrite <- Hp in Hq2 |- *.
      destruct (Hbest _ Hr Hq2) as [->|]; [by left|by right]. }
    destruct (fallback s b) as [|[p lvl] m] eqn:Hf.
    + unfold ref_for. rewrite Htt. replace (0 <=? t) with true by lia. split_and!; try done. split; [done|].
      intros q Hne. destruct (Z.lt_ge_cases (tick_of q b) 0) as [Hx|Hx]; [|by apply Hlad; [lia|]].
      pose proof (c_out _ _ _ Hc s q Hs Hx) as Ho. by rewrite Hf in Ho.
    + destruct (fallback_head b Q s p lvl m Hc Hs Hf) as (Hp & Hpq & Hpb).
      assert (p <> price_of t b) as Hne by (intros ->; lia).
      destruct (before s p (price_of t b)) eqn:Hbf.
      * unfold ref_for. replace (0 <=? tick_of p b) with false by lia. split_and!; try done. split; [done|].
        intros q Hq'. destruct (Z.lt_ge_cases (tick_of q b) 0) as [Hx|Hx]; [by apply Hpb|].
        right. destruct (Hlad q) as [->|Hx']; [lia|done|done|]. by eapply lt_trans.
      * unfold ref_for. rewrite Htt. replace (0 <=? t) with true by lia. split_and!; try done. split; [done|].
        intros q Hq'. destruct (Z.lt_ge_cases (tick_of q b) 0) as [Hx|Hx]; [|by apply Hlad; [lia|]].
        right. assert (before s (price_of t b) p = true) as Hbp.
        { destruct (before s (price_of t b) p) eqn:Hy; [done|].
          by destruct Hne; apply (lt_total (lt := before s)). }
        destruct (Hpb q Hx Hq') as [->|Hy]; [done|]. by eapply lt_trans.
  - destruct (fallback s b) as [|[p lvl] m] eqn:Hf.
    + intros q. destruct (Z.lt_ge_cases (tick_of q b) 0) as [Hx|Hx].
      * pose proof (c_out _ _ _ Hc s q Hs Hx) as Ho. by rewrite Hf in Ho.
      * destruct (Hin q) as [Hr Hp]; [lia|]. rewrite <- Hp. by apply Hb.
    + destruct (fallback_head b Q s p lvl m Hc Hs Hf) as (Hp & Hpq & Hpb).
      unfold ref_for. replace (0 <=? tick_of p b) with false by lia. split_and!; try done. split; [done|].
      intros q Hq'. destruct (Z.lt_ge_cases (tick_of q b) 0) as [Hx|Hx]; [by apply Hpb|].
      destruct (Hin q) as [Hr Hp']; [lia|]. rewrite <- Hp' in Hq'. by rewrite Hb in Hq'.
Qed.
End best.

(** * The representation of the abstract book *)

Section rep.
Context {M : Type} `{OrderIndexLaws M}.
Implicit Types (b : FastBook M).

Definition table (sp : Spec.Book) : Table :=
  fun s px => default [] (StdMap.find px (Spec.levels s sp)).

Record Rep b (sp : Spec.Book) : Prop := mkRep {
  rep_core : core b (table sp) clean;
  rep_wf : Spec.wf sp;
  rep_match : next_match_id_ b = Spec.next_match sp }.

Lemma table_find sp s px os :
  Spec.wf sp -> table sp s px = os -> os <> [] -> StdMap.find px (Spec.levels s sp) = Some os.
Proof. unfold table. intros _ Ht Hne. destruct (StdMap.find px _); cbn in Ht; congruence. Qed.

Lemma table_elem sp s px os :
  Spec.wf sp -> (px, os) ∈ Spec.levels s sp -> table sp s px = os /\ os <> [].
Proof.
  intros Hwf Hin. destruct (Spec.wf_levels _ Hwf s) as [Hs Hall]. split.
  - unfold table. by rewrite (proj1 (Spec.wf_find s px os sp Hwf) Hin).
  - rewrite Forall_forall in Hall. by apply Hall in Hin as (_ & ? & _).
Qed.

Lemma table_ids sp s px id :
  Spec.wf sp -> id ∈ ids_of (table sp s px) -> id ∈ Spec.level_ids (Spec.levels s sp).
Proof.
  intros Hwf (o & -> & Ho)%list_elem_of_fmap. apply Spec.elem_of_level_ids.
  destruct (table sp s px) as [|o' os] eqn:Ht; [set_solver|].
  exists px, (o' :: os), o. split_and!; [|done|done].
  apply (Spec.wf_find s); [done|]. by apply table_find.
Qed.

Lemma rep_owned b sp id : Rep b sp -> is_Some (own b !! id) <-> id ∈ Spec.ids sp.
Proof.
  intros [Hc Hwf _]. split.
  - intros Hid. destruct (c_own _ _ _ Hc id Hid) as (s & px & Hs & Hin).
    apply table_ids in Hin; [|done]. rewrite (Spec.ids_levels s). set_solver.
  - intros Hin. unfold Spec.ids in Hin. apply elem_of_app in Hin.
    assert (exists s, valid_side s /\ id ∈ Spec.level_ids (Spec.levels s sp)) as (s & Hs & Hl).
    { destruct Hin; [exists Buy; split; [by left|done]|exists Sell; split; [by right|done]]. }
    apply Spec.elem_of_level_ids in Hl as (px & os & o & Hl & Ho & <-).
    destruct (table_elem _ _ _ _ Hwf Hl) as [Ht _]. rewrite <- Ht in Ho.
    destruct (core_slot _ _ _ _ _ _ Hc Hs Ho) as (i & _ & _ & Hi & _). eauto.
Qed.

(** The arena is large enough for what the index holds. *)
Lemma owned_length b (l : list OrderId) :
  slots_ok b -> NoDup l -> (forall id, id ∈ l -> is_Some (own b !! id)) ->
  (length l <= length (pool_ b))%nat.
Proof.
  intros Hso Hnd Hl. set (f := fun id => default 0 (own b !! id)).
  assert (f <$> l ⊆+ Z.of_nat <$> seq 0 (length (pool_ b))) as Hsub.
  { apply NoDup_submseteq.
    - apply NoDup_fmap_2_strong; [|done]. intros x y Hx Hy Hf. unfold f in Hf.
      destruct (Hl _ Hx) as [i Hi], (Hl _ Hy) as [j Hj]. rewrite Hi, Hj in Hf. cbn in Hf. subst j.
      destruct (so_live _ Hso _ _ Hi) as (_ & a & Ha & <-).
      destruct (so_live _ Hso _ _ Hj) as (_ & a' & Ha' & <-). congruence.
    - intros z (id & -> & Hid)%list_elem_of_fmap. destruct (Hl _ Hid) as [i Hi]. unfold f.
      rewrite Hi. cbn. destruct (so_live _ Hso _ _ Hi) as (_ & a & Ha & _).
      apply lookupZ_Some_bounds in Ha. unfold lengthZ in Ha.
      apply list_elem_of_fmap. exists (Z.to_nat i). split; [lia|]. apply elem_of_seq. lia. }
  apply submseteq_length in Hsub. by rewrite !length_fmap, length_seq in Hsub.
Qed.

Lemma queue_length b Q dirty s px :
  core b Q dirty -> valid_side s -> (length (Q s px) <= length (pool_ b))%nat.
Proof.
  intros Hc Hs. destruct (core_queue b Q dirty s px Hc Hs) as [lvl [_ Hsg Hnd _]].
  rewrite <- (length_map so_id). apply owned_length; [apply Hc|done|].
  intros id (o & -> & Ho)%list_elem_of_fmap.
  destruct (seg_slot _ _ _ _ _ _ _ _ Hsg Ho) as (i & _ & _ & Hi & _). eauto.
Qed.

Lemma levels_length s ls : Spec.levels_ok s ls -> (length ls <= length (Spec.level_ids ls))%nat.
Proof.
  induction ls as [|[p os] ls IH]; intros Hok; [cbn; lia|].
  apply Spec.levels_ok_cons in Hok as (_ & _ & [Hne _] & Hok).
  rewrite Spec.level_ids_cons, length_app, length_map. specialize (IH Hok).
  destruct os; [done|]. cbn in *. lia.
Qed.

Lemma rep_levels_length b sp s :
  Rep b sp -> (length (Spec.levels s sp) <= length (pool_ b))%nat.
Proof.
  intros HR. pose proof (rep_wf _ _ HR) as Hwf.
  pose proof (levels_length s _ (Spec.wf_levels _ Hwf s)).
  enough (length (Spec.level_ids (Spec.levels s sp)) <= length (pool_ b))%nat by lia.
  apply owned_length; [apply HR|by apply Spec.wf_side_NoDup|].
  intros id Hid. apply (rep_owned b sp id HR). rewrite (Spec.ids_levels s). set_solver.
Qed.

(** The best level of the table is the first of the sorted levels. *)
Lemma best_of_head sp s px os ls p :
  Spec.wf sp -> Spec.levels s sp = (px, os) :: ls -> best_of (table sp) s p -> p = px.
Proof.
  intros Hwf Hl [Hne Hbest]. destruct (Spec.wf_levels _ Hwf s) as [Hsort _].
  assert (table sp s px = os /\ os <> []) as [Hpx Hos]
    by (apply table_elem; [done|rewrite Hl; set_solver]).
  destruct (Hbest px) as [|Hb]; [congruence|done|].
  destruct (table sp s p) as [|o os'] eqn:Hp; [done|].
  apply table_find in Hp; [|done|done]. rewrite Hl in Hp, Hsort.
  destruct (StdMap.sm_find_head_lt (before s) _ _ _ _ _ Hsort Hp) as [|Hb']; [done|].
  pose proof (lt_trans _ _ _ Hb Hb') as Hc. by rewrite lt_irrefl in Hc.
Qed.

Lemma set_levels_same s sp :
  Spec.set_match (Spec.next_match sp) (Spec.set_levels s (Spec.levels s sp) sp) = sp.
Proof.
  unfold Spec.set_match, Spec.set_levels, Spec.levels. destruct sp, (is_buy s); done.
Qed.

Lemma set_levels_twice s ls ls' m m' sp :
  Spec.set_match m' (Spec.set_levels s ls' (Spec.set_match m (Spec.set_levels s ls sp)))
  = Spec.set_match m' (Spec.set_levels s ls' sp).
Proof.
  unfold Spec.set_match, Spec.set_levels. destruct sp, (is_buy s); done.
Qed.

(** The levels left when the first one has become the queue [os1]. *)
Definition keep_head (px : Price) (os1 : list SnapshotOrder) (ls : Spec.Levels) : Spec.Levels :=
  match os1 with [] => ls | _ => (px, os1) :: ls end.

Lemma table_keep_head sp s px os os1 ls m s' px' :
  Spec.wf sp -> valid_side s -> valid_side s' -> Spec.levels s sp = (px, os) :: ls ->
  table (Spec.set_match m (Spec.set_levels s (keep_head px os1 ls) sp)) s' px'
  = upd (table sp) s px os1 s' px'.
Proof.
  intros Hwf Hs Hs' Hl. unfold table, upd. autorewrite with spec.
  destruct (valid_side_cases s s' Hs Hs') as [-> | ->]; autorewrite with spec.
  - destruct (Spec.wf_levels _ Hwf s) as [Hsort _]. rewrite Hl in Hsort |- *.
    apply StdMap.sm_sorted_cons in Hsort as [Hall _].
    pose proof (StdMap.sm_find_above (before s) _ _ Hall) as Hnone.
    case_decide as Hd.
    + destruct Hd as [_ ->]. destruct os1 as [|o1 os1]; cbn; [by rewrite Hnone|].
      by rewrite Z.eqb_refl.
    + cbn. destruct (Z.eqb_spec px' px) as [->|Hne]; [by destruct Hd|].
      destruct os1; cbn; [done|]. destruct (Z.eqb_spec px' px); done.
  - rewrite decide_False; [done|]. intros [Hx _]. by destruct Hs as [-> | ->].
Qed.

Lemma wf_keep_head sp side px os ls agg qty os1 q1 m1 evs :
  Spec.wf sp -> Spec.levels (opposite side) sp = (px, os) :: ls -> 0 <= qty ->
  Spec.fill_queue agg side px qty (Spec.next_match sp) os = (os1, q1, m1, evs) ->
  Spec.wf (Spec.set_match m1 (Spec.set_levels (opposite side) (keep_head px os1 ls) sp)) /\
  0 <= q1 <= qty /\ (os1 <> [] -> q1 = 0).
Proof.
  intros Hwf Hl Hq Hf. pose proof (Spec.wf_levels _ Hwf (opposite side)) as Hok.
  rewrite Hl in Hok. pose proof Hok as Hok0.
  apply Spec.levels_ok_cons in Hok as (Hall & Hpx & [Hne Hpos] & Hok).
  apply Spec.fill_queue_facts in Hf as (Hr & Hpos1 & Hsuf & Hq0); [|done|done].
  split_and!; [|lia|lia|done]. apply Spec.wf_set_match, Spec.wf_shrink; [done|..].
  - destruct os1 as [|o1 os1]; [done|]. apply Spec.levels_ok_cons. split_and!; done.
  - rewrite Hl, Spec.level_ids_cons. destruct os1 as [|o1 os1].
    + by apply sublist_inserts_l.
    + unfold keep_head. rewrite Spec.level_ids_cons. apply sublist_app; [|done].
      destruct Hsuf as [k ->]. by apply sublist_inserts_l.
  - intros p. rewrite Hl. destruct os1; cbn; [|done]. rewrite elem_of_cons. auto.
Qed.

(** * Matching *)

Lemma erase_frame s px lvl b :
  let b' := drop_empty s px lvl b in
  next_match_id_ b' = next_match_id_ b /\ listener_ b' = listener_ b /\ pool_ b' = pool_ b /\
  cfg_ b' = cfg_ b.
Proof. unfold drop_empty. by case_match. Qed.

(** One iteration of the loop of [match]: consume the level and drop it from
    the fallback map when it is empty. *)
Lemma consume_core b Q s px agg side want lvl os1 q1 m1 evs :
  core b Q clean -> valid_side s -> Q s px <> [] -> fits 32 want ->
  load (ref_for s px b) b = Some lvl ->
  Spec.fill_queue agg side px want (next_match_id_ b) (Q s px) = (os1, q1, m1, evs) ->
  exists lvl' b2,
    consume_level (S (S (length (pool_ b)))) lvl px agg side want 0 b
      = Some (want - q1, lvl', b2) /\
    let b4 := drop_empty s px lvl' (store (ref_for s px b) lvl' b2) in
    core b4 (upd Q s px os1) clean /\ next_match_id_ b4 = m1 /\
    listener_ b4 = listener_ b ++ evs /\ lengthZ (pool_ b4) = lengthZ (pool_ b) /\
    cfg_ b4 = cfg_ b /\
    tick_of px (store (ref_for s px b) lvl' b2) = tick_of px b.
Proof.
  intros Hc Hs Hne Hw Hl Hfq. pose proof (c_slots _ _ _ Hc) as Hso.
  destruct (load_queue _ _ _ _ _ Hc Hs Hne) as (lvl0 & Hl0 & He). rewrite Hl in Hl0. injection Hl0 as <-.
  pose proof (queue_length _ _ _ s px Hc Hs) as Hlen. unfold fits in Hw.
  destruct (consume_level_spec agg side s px (Q s px) (S (S (length (pool_ b)))) lvl b want 0
              os1 q1 m1 evs) as
    (lvl' & b2 & Hcl & He2 & Hso2 & Hsf & Hsb & Hsub & Hout & Hin & Hm & Hlog);
    [done|done|lia|lia|lia|lia|done|].
  exists lvl', b2. split; [by rewrite Hcl|]. set (b3 := store (ref_for s px b) lvl' b2).
  destruct (store_frame (ref_for s px b) lvl' b2) as (F1 & F2 & F3 & F4 & F5 & F6 & F7).
  fold b3 in F1, F2, F3, F4, F5, F6, F7.
  assert (own b3 = own b2) as Ho3 by apply own_store.
  assert (touch b b3 s px lvl') as Ht
    by (eapply touch_store; [done|apply Hc|done|apply Hc|done]).
  destruct (erase_frame s px lvl' b3) as (G1 & G2 & G3 & G4).
  cbn zeta in G1, G2, G3, G4 |- *. rewrite G1, G2, G3, G4, F1, F4, F5. split_and!; [|done|done| | |].
  - apply erase_level_core; [|done|rewrite upd_eq, F1, Ho3; done].
    eapply core_dirty; [|eapply (core_update b b3 Q clean s px lvl' os1)]; try done.
    + intros s' px' [[]|]; done.
    + by eapply queue_band.
    + destruct Hso2. constructor; unfold own in *; rewrite ?F1, ?F2, ?F3; done.
    + by rewrite F1, Ho3.
    + by eapply ref_for_opposite_empty.
    + by apply (c_prices _ _ _ Hc s).
    + split.
      * intros id i x Hi Hx Hni. rewrite Ho3, Hout, F1 by done. split; [done|].
        apply Hsb; [done|]. destruct (so_live _ Hso _ _ Hi) as (_ & y & Hy & <-). by simplify_eq.
      * intros id Hid. rewrite Ho3 in Hid.
        destruct (decide (id ∈ ids_of (Q s px))) as [Hx|Hx]; [left; by apply Hin|right].
        by rewrite <- Hout.
    + destruct Hsf. eapply cursors_keep; [done|done|done|congruence|congruence].
  - apply Hsb.
  - apply Ht.
  - apply tick_of_frame; apply Ht.
Qed.

Lemma match_loop_step n id side limit qty filled b :
  match_loop (S n) id side limit qty filled b =
    if negb (0 <? qty) then Some (filled, b)
    else
      '(best, b1) ← best_level (opposite side) b;
      match best with
      | None => Some (filled, b1)
      | Some (best_price, r, from_fallback) =>
          if negb (crosses side limit best_price) then Some (filled, b1)
          else
            lvl ← load r b1;
            '(got, lvl', b2) ← consume_level (S (S (length (pool_ b1)))) lvl best_price
                                 id side qty 0 b1;
            let b3 := store r lvl' b2 in
            let b4 := if (l_head lvl' =? kNil) && from_fallback
                      then set_fallback (opposite side)
                             (StdMap.erase best_price (fallback (opposite side) b3)) b3
                      else b3 in
            match_loop n id side limit (u32 (qty - got)) (u32 (filled + got)) b4
      end.
Proof. done. Qed.

Lemma rep_cursors b sp x y :
  Rep b sp -> core (set_cursors x y b) (table sp) clean -> Rep (set_cursors x y b) sp.
Proof. intros [Hc Hwf Hm] Hc'. by constructor. Qed.

Lemma match_loop_spec id side limit ls : forall fuel b sp qty filled ls1 q1 m1 evs,
  Rep b sp -> valid_side side -> Spec.levels (opposite side) sp = ls -> (length ls < fuel)%nat ->
  0 <= qty -> 0 <= filled -> filled + qty < 2 ^ 32 ->
  Spec.fill_levels id side limit qty (Spec.next_match sp) ls = (ls1, q1, m1, evs) ->
  exists b', match_loop fuel id side limit qty filled b = Some (filled + (qty - q1), b') /\
    Rep b' (Spec.set_match m1 (Spec.set_levels (opposite side) ls1 sp)) /\
    listener_ b' = listener_ b ++ evs /\ lengthZ (pool_ b') = lengthZ (pool_ b) /\ cfg_ b' = cfg_ b.
Proof.
  induction ls as [|[px os] ls IH];
    intros fuel b sp qty filled ls1 q1 m1 evs HR Hside Hls Hfuel Hq Hfi Hsum Hfl;
    (destruct fuel as [|fuel]; [cbn in Hfuel; lia|]); rewrite match_loop_step;
    pose proof (rep_wf _ _ HR) as Hwf; pose proof (valid_side_opposite side) as Ho.
  all: destruct (best_level_spec b (table sp) (opposite side) (rep_core _ _ HR) Ho)
         as (r & x & y & Hbl & Hc1 & Hr).
  - cbn in Hfl. injection Hfl as <- <- <- <-. rewrite <- Hls, set_levels_same.
    rewrite app_nil_r, Z.sub_diag, Z.add_0_r.
    destruct (Z.ltb_spec 0 qty); cbn [negb]; [|by exists b].
    rewrite Hbl, obind_Some. destruct r as [[[p ref] fb]|].
    + destruct Hr as ([Hne _] & _). unfold table in Hne. by rewrite Hls in Hne.
    + eexists. split; [done|]. split; [by apply rep_cursors|done].
  - cbn [Spec.fill_levels] in Hfl.
    destruct (Z.ltb_spec 0 qty) as [Hq0|Hq0]; cbn [negb].
    2:{ assert (qty = 0) as -> by lia. cbn in Hfl. injection Hfl as <- <- <- <-.
        rewrite <- Hls, set_levels_same, app_nil_r, Z.sub_diag, Z.add_0_r. by exists b. }
    replace (qty =? 0) with false in Hfl by lia. cbn [orb] in Hfl.
    rewrite Hbl, obind_Some.
    assert (table sp (opposite side) px = os /\ os <> []) as [Htb Hos]
      by (apply table_elem; [done|rewrite Hls; set_solver]).
    destruct r as [[[p ref] fb]|]; [|by rewrite Hr in Htb].
    destruct Hr as (Hbest & Href & Hfb).
    assert (p = px) as -> by (by eapply best_of_head). set (b1 := set_cursors x y b) in *.
    destruct (crosses side limit px); cbn [negb] in Hfl |- *.
    2:{ injection Hfl as <- <- <- <-. rewrite <- Hls, set_levels_same, app_nil_r, Z.sub_diag, Z.add_0_r.
        eexists. split; [done|]. split; [by apply rep_cursors|done]. }
    change (ref_for (opposite side) px b) with (ref_for (opposite side) px b1) in Href. subst ref.
    change (tick_of px b) with (tick_of px b1) in Hfb.
    destruct (load_queue b1 (table sp) clean (opposite side) px Hc1 Ho) as (lvl & Hl & _); [by rewrite Htb|].
    rewrite Hl, obind_Some.
    destruct (Spec.fill_queue id side px qty (Spec.next_match sp) os) as [[[os1 q2] m2] ev1] eqn:Hfq.
    destruct (wf_keep_head sp side px os ls id qty os1 q2 m2 ev1 Hwf Hls Hq Hfq) as (Hwf1 & Hr2 & Hz).
    destruct (consume_core b1 (table sp) (opposite side) px id side qty lvl os1 q2 m2 ev1)
      as (lvl' & b2 & Hcl & Hc4 & Hm4 & Hlog4 & Hlen4 & Hcf4 & Ht4);
      [done|done|by rewrite Htb|unfold fits; lia|done| |].
    { rewrite Htb. change (next_match_id_ b1) with (next_match_id_ b). by rewrite (rep_match _ _ HR). }
    rewrite Hcl, obind_Some. cbn zeta.
    match goal with |- context [match_loop fuel _ _ _ _ _ ?bb] => set (b4 := bb) end.
    assert (b4 = drop_empty (opposite side) px lvl'
                   (store (ref_for (opposite side) px b1) lvl' b2)) as Hb4.
    { unfold b4, drop_empty. rewrite Hfb, Ht4.
      destruct (l_head lvl' =? kNil), (0 <=? tick_of px b1); done. }
    rewrite <- Hb4 in Hc4, Hm4, Hlog4, Hlen4, Hcf4. clearbody b4.
    set (sp1 := Spec.set_match m2 (Spec.set_levels (opposite side) (keep_head px os1 ls) sp)) in *.
    assert (Rep b4 sp1) as HR4.
    { constructor; [|done|done]. eapply core_ext; [|exact Hc4]. intros s' px' Hs'.
      symmetry. by apply (table_keep_head sp (opposite side) px os). }
    rewrite (wrap_small 32 (qty - (qty - q2))), (wrap_small 32 (filled + (qty - q2)))
      by (unfold fits; lia). replace (qty - (qty - q2)) with q2 by lia.
    destruct os1 as [|o1 os1].
    + destruct (Spec.fill_levels id side limit q2 m2 ls) as [[[ls2 q3] m3] ev2] eqn:Hfl2.
      injection Hfl as <- <- <- <-.
      destruct (IH fuel b4 sp1 q2 (filled + (qty - q2)) ls2 q3 m3 ev2)
        as (b' & Hml & HR' & Hlog' & Hlen' & Hcf'); try done; try lia.
      { unfold sp1. by autorewrite with spec. }
      { cbn in Hfuel. lia. }
      exists b'. split_and!.
      * rewrite Hml. do 2 f_equal. lia.
      * unfold sp1 in HR'. by rewrite set_levels_twice in HR'.
      * by rewrite Hlog', Hlog4, app_assoc.
      * by rewrite Hlen', Hlen4.
      * by rewrite Hcf', Hcf4.
    + injection Hfl as <- <- <- <-. rewrite (Hz ltac:(done)) in *.
      destruct fuel as [|fuel]; [cbn in Hfuel; lia|]. rewrite match_loop_step.
      exists b4. split_and!; [done|done|done|done|done].
Qed.

Lemma match_spec id side limit qty b sp sp' rem evs :
  Rep b sp -> valid_side side -> fits 32 qty ->
  Spec.match_ id side limit qty sp = (sp', rem, evs) ->
  exists b', match_ id side limit qty b = Some (qty - rem, b') /\ Rep b' sp' /\
    listener_ b' = listener_ b ++ evs /\ lengthZ (pool_ b') = lengthZ (pool_ b) /\ cfg_ b' = cfg_ b.
Proof.
  unfold Spec.match_, match_, fits. intros HR Hs Hq Hm.
  destruct (Spec.fill_levels _ _ _ _ _ _) as [[[ls1 q1] m1] ev] eqn:Hfl. injection Hm as <- <- <-.
  pose proof (rep_levels_length b sp (opposite side) HR).
  destruct (match_loop_spec id side limit (Spec.levels (opposite side) sp) (S (S (length (pool_ b)))) b sp qty 0 ls1 q1 m1 ev)
    as (b' & Hml & ?); [done|done|done|lia|lia|lia|lia|done|]. by exists b'.
Qed.
End rep.
