(* ===== verification/LadderBookRefines.v ===== *)
(** The fast book refines the abstract book: every operation returns, gives
    the specified result, calls the listener as specified and leaves a book
    that represents the specified one. *)

From S2P Require Import Prelude StdMap BookTypes BookSpec MatchingBook OrderIndex LadderBook LadderLinks LadderInv LadderOps LadderMatch.

Import FastBook.

Section refines.
Context {M : Type} `{OrderIndexLaws M}.
Implicit Types (b : FastBook M).

(** * Resting, removing, reducing *)

(** The arena has a slot for one more order. *)
Definition room (sp : Spec.Book) : Prop := Z.of_nat (length (Spec.ids sp)) < kNil.

Lemma own_size b sp : Rep b sp -> size (own b) = length (Spec.ids sp).
Proof.
  intros HR. rewrite <- size_dom.
  replace (dom (own b)) with (list_to_set (Spec.ids sp) : gset OrderId).
  - apply size_list_to_set, HR.
  - apply set_eq. intros id. rewrite elem_of_list_to_set, elem_of_dom. symmetry. by apply rep_owned.
Qed.

Lemma room_mono sp sp' :
  Spec.wf sp' -> (forall id, id ∈ Spec.ids sp' -> id ∈ Spec.ids sp) -> room sp -> room sp'.
Proof.
  unfold room. intros Hwf Hsub Hr.
  enough (length (Spec.ids sp') <= length (Spec.ids sp))%nat by lia.
  apply submseteq_length, NoDup_submseteq; [apply Hwf|done].
Qed.

Lemma table_rest sp s px id qty s' px' :
  Spec.wf sp -> valid_side s -> valid_side s' ->
  table (Spec.rest id s px qty sp) s' px'
  = upd (table sp) s px (table sp s px ++ [mkSnapOrder id qty]) s' px'.
Proof.
  intros Hwf Hs Hs'. unfold table, upd, Spec.rest.
  destruct (valid_side_cases s s' Hs Hs') as [-> | ->]; autorewrite with spec.
  - destruct (decide (px' = px)) as [->|Hne].
    + rewrite decide_True by done. destruct (Spec.wf_levels _ Hwf s) as [Hsort _].
      by rewrite (StdMap.sm_find_upsert_eq (before s)).
    + rewrite decide_False by tauto. by rewrite (StdMap.sm_find_upsert_ne (before s)).
  - rewrite decide_False; [done|]. intros [Hx _]. by destruct Hs as [-> | ->].
Qed.

Lemma table_cut sp s px f s' px' :
  Spec.wf sp -> valid_side s -> valid_side s' -> f [] = [] ->
  table (Spec.set_levels s (Spec.cut px f (Spec.levels s sp)) sp) s' px'
  = upd (table sp) s px (f (table sp s px)) s' px'.
Proof.
  intros Hwf Hs Hs' Hf. unfold table, upd.
  destruct (valid_side_cases s s' Hs Hs') as [-> | ->]; autorewrite with spec.
  - destruct (Spec.wf_levels _ Hwf s) as [Hsort _]. rewrite (Spec.cut_find s) by done.
    destruct (Z.eqb_spec px px') as [<-|Hne].
    + rewrite decide_True by done. destruct (StdMap.find px _) as [os|]; cbn; [by destruct (f os)|].
      by rewrite Hf.
    + by rewrite decide_False by (intros [_ ?]; congruence).
  - rewrite decide_False; [done|]. intros [Hx _]. by destruct Hs as [-> | ->].
Qed.

Lemma fast_rest_refines id s px qty b sp :
  Rep b sp -> valid_side s -> id ∉ Spec.ids sp -> fits 32 qty ->
  Spec.wf (Spec.rest id s px qty sp) -> room sp -> price_fits (cfg_ b) px ->
  exists b', rest id s px qty b = Some b' /\ Rep b' (Spec.rest id s px qty sp) /\
    listener_ b' = listener_ b /\ cfg_ b' = cfg_ b.
Proof.
  intros HR Hs Hid Hq Hwf' Hroom Hfit. pose proof (rep_wf _ _ HR) as Hwf.
  assert (own b !! id = None) as Hown.
  { apply eq_None_not_Some. rewrite (rep_owned b sp id HR). done. }
  unfold room in Hroom. rewrite <- (own_size b sp HR) in Hroom.
  destruct (rest_core b (table sp) s px id qty (rep_core _ _ HR) Hs Hown Hq Hroom)
    as (b' & Hr & Hc' & Hm & Hlog & Hcf); [|done|].
  { apply dec_stable. intros Hne.
    destruct (table sp (opposite s) px) as [|o os] eqn:Ht; [done|].
    apply table_find in Ht; [|done|done]. apply (StdMap.sm_find_elem (before s)) in Ht.
    assert (crosses s px px = false) as Hx.
    { apply (Spec.wf_no_cross _ Hwf' s).
      - unfold Spec.rest. autorewrite with spec. apply Spec.elem_of_keys.
        eexists. apply (StdMap.sm_find_elem (before s)).
        apply (StdMap.sm_find_upsert_eq (before s)). apply Hwf.
      - unfold Spec.rest. autorewrite with spec. apply Spec.elem_of_keys. eauto. }
    unfold crosses in Hx. destruct (is_buy s); lia. }
  exists b'. split_and!; [done| |done|done]. constructor; [|done|].
  - eapply core_ext; [|exact Hc']. intros s' px' Hs'. symmetry. by apply table_rest.
  - rewrite Hm, (rep_match _ _ HR). unfold Spec.rest. by autorewrite with spec.
Qed.

(** Where the fast book keeps a resting order. *)
Lemma locate id s px q b sp :
  Rep b sp -> Spec.find_order id sp = Some (s, px, q) ->
  exists idx p n os1 os2, valid_side s /\ own b !! id = Some idx /\
    pool_ b !z! idx = Some (mkFOrder id px q p n s) /\
    table sp s px = os1 ++ mkSnapOrder id q :: os2 /\
    id ∉ ids_of os1 /\ id ∉ ids_of os2.
Proof.
  intros HR Hf. pose proof (rep_wf _ _ HR) as Hwf.
  pose proof (Spec.find_order_side _ _ _ _ _ Hf) as Hs.
  apply Spec.find_order_spec in Hf as (os & Hl & Ho); [|apply Hwf|done].
  destruct (table_elem _ _ _ _ Hwf Hl) as [Ht _]. pose proof Ho as Ho'. rewrite <- Ht in Ho'.
  destruct (core_slot _ _ _ _ _ _ (rep_core _ _ HR) Hs Ho') as (i & p & n & Hi & Hp).
  apply list_elem_of_split in Ho as (os1 & os2 & ->).
  assert (NoDup (ids_of (os1 ++ mkSnapOrder id q :: os2))) as Hnd.
  { eapply Spec.level_NoDup; [|exact Hl]. by apply Spec.wf_side_NoDup. }
  rewrite ids_of_app, ids_of_cons in Hnd. apply NoDup_app in Hnd as (_ & Hd & Hnd2).
  apply NoDup_cons in Hnd2 as [Hn2 _].
  exists i, p, n, os1, os2. split_and!; try done. intros Hx. apply (Hd _ Hx). by left.
Qed.

Lemma drop_id_split id q os1 os2 :
  id ∉ ids_of os1 -> id ∉ ids_of os2 ->
  Spec.drop_id id (os1 ++ mkSnapOrder id q :: os2) = os1 ++ os2.
Proof.
  intros H1 H2. induction os1 as [|o os1 IH]; cbn [app].
  - rewrite Spec.drop_id_cons. cbn. rewrite Z.eqb_refl. by apply Spec.drop_id_notin.
  - rewrite ids_of_cons in H1. rewrite Spec.drop_id_cons.
    destruct (Z.eqb_spec (so_id o) id); [set_solver|]. rewrite IH by set_solver. done.
Qed.

Lemma set_qty_split id q k os1 os2 :
  id ∉ ids_of os1 -> id ∉ ids_of os2 ->
  Spec.set_qty id k (os1 ++ mkSnapOrder id q :: os2) = os1 ++ mkSnapOrder id k :: os2.
Proof.
  intros H1 H2. unfold Spec.set_qty. rewrite map_app. cbn. rewrite Z.eqb_refl.
  f_equal; [|f_equal]; by apply Spec.set_qty_notin.
Qed.

Lemma fast_remove_refines id s px q b sp :
  Rep b sp -> Spec.find_order id sp = Some (s, px, q) ->
  exists idx x b', own b !! id = Some idx /\ pool_ b !z! idx = Some x /\
    f_side x = s /\ f_open x = q /\
    remove_resting idx b = Some b' /\ Rep b' (Spec.remove s px id sp) /\
    listener_ b' = listener_ b /\ cfg_ b' = cfg_ b.
Proof.
  intros HR Hf. pose proof (rep_wf _ _ HR) as Hwf.
  destruct (locate _ _ _ _ _ _ HR Hf) as (idx & p & n & os1 & os2 & Hs & Hi & Hp & Ht & H1 & H2).
  destruct (remove_resting_core b (table sp) s px os1 (mkSnapOrder id q) os2 idx)
    as (b' & Hr & Hc & Hm & Hlog & _ & _ & Hcf); [apply HR|done|done|done|].
  eexists idx, _, b'. split_and!; try done. constructor; [|by apply Spec.remove_wf|].
  - eapply core_ext; [|exact Hc]. intros s' px' Hs'. symmetry.
    unfold Spec.remove. rewrite table_cut by done. by rewrite Ht, drop_id_split.
  - rewrite Hm, (rep_match _ _ HR). unfold Spec.remove. by autorewrite with spec.
Qed.

Lemma fast_reduce_refines id s px q keep b sp :
  Rep b sp -> Spec.find_order id sp = Some (s, px, q) -> 0 < keep < q ->
  exists idx x, own b !! id = Some idx /\ pool_ b !z! idx = Some x /\
    f_side x = s /\ f_price x = px /\ f_open x = q /\
    let b1 := set_pool (<z[idx := set_open keep x]> (pool_ b)) b in
    exists lvl, level_for s px b1 = Some (ref_for s px b, b1) /\
      load (ref_for s px b) b1 = Some lvl /\
      Rep (store (ref_for s px b)
             (mkLevel (u32 (l_total lvl - (q - keep))) (l_head lvl) (l_tail lvl)) b1)
        (Spec.reduce s px id keep sp).
Proof.
  intros HR Hf Hk. pose proof (rep_wf _ _ HR) as Hwf.
  pose proof (Spec.find_order_qty _ _ _ _ _ Hwf Hf) as [_ Hq].
  destruct (locate _ _ _ _ _ _ HR Hf) as (idx & p & n & os1 & os2 & Hs & Hi & Hp & Ht & H1 & H2).
  eexists idx, _. split_and!; try done. intros b1.
  destruct (reduce_core b (table sp) s px os1 (mkSnapOrder id q) os2 idx
              (mkFOrder id px q p n s) keep)
    as (lvl & Hlf & Hld & Hc); [apply HR|done|done|done|exact Hp|cbn; lia|].
  exists lvl. split_and!; [done|done|]. constructor; [|by apply Spec.reduce_wf; [|lia]|].
  - eapply core_ext; [|exact Hc]. intros s' px' Hs'. symmetry.
    unfold Spec.reduce. rewrite table_cut by done. by rewrite Ht, (set_qty_split id q).
  - destruct (store_frame (ref_for s px b)
      (mkLevel (u32 (l_total lvl - (q - keep))) (l_head lvl) (l_tail lvl)) b1) as (_ & _ & _ & -> & _).
    unfold Spec.reduce. autorewrite with spec. apply HR.
Qed.

(** * The operations *)

Lemma fast_log_emit e b : listener_ (emit e b) = listener_ b ++ [e].
Proof. done. Qed.

Lemma fast_Rep_emit e b sp : Rep b sp -> Rep (emit e b) sp.
Proof.
  intros [[Ht Hh Hso Ho Hb Hsort Hin Hfb Hout Hbid Hask Hbf Hpr] Hw Hm]. constructor; [|done|done].
  constructor; try done; [by destruct Hso|by destruct Hbf].
Qed.

Lemma fast_match_and_rest_refines id side px qty b sp sp' rem evs :
  Rep b sp -> valid_side side -> id ∉ Spec.ids sp -> 0 < px -> fits 32 qty ->
  room sp -> price_fits (cfg_ b) px ->
  Spec.enter id side px qty sp = (sp', rem, evs) ->
  exists b', match_and_rest id side px qty b = Some (qty - rem, rem, b') /\
    Rep b' sp' /\ listener_ b' = listener_ b ++ evs /\ cfg_ b' = cfg_ b.
Proof.
  intros HR Hs Hid Hpx Hq Hroom Hfit He. pose proof He as He0.
  apply Spec.enter_wf in He0 as [Hwf' Hrem]; [|by apply HR|done..].
  unfold Spec.enter in He.
  destruct (Spec.match_ _ _ _ _ _) as [[sp1 r] ev] eqn:Hm.
  destruct (match_spec _ _ _ _ _ _ _ _ _ HR Hs Hq Hm) as (b1 & Hmo & HR1 & Hlog & _ & Hcf).
  apply Spec.match_wf in Hm as (Hwf1 & Hr & _ & Hids & _); [|by apply HR|apply Hq].
  unfold match_and_rest. rewrite Hmo, obind_Some.
  replace (qty - (qty - r)) with r by lia.
  rewrite (wrap_small 32 r) by (unfold fits in *; lia).
  destruct (Z.eqb_spec r 0) as [->|Hr0].
  - simplify_eq. exists b1. split_and!; [by rewrite Z.sub_0_r|done|done|done].
  - replace (0 <? r) with true by lia. simplify_eq.
    destruct (fast_rest_refines id side px rem b1 sp1) as (b2 & Hb2 & HR2 & Hlog2 & Hcf2); try done.
    { intros Hin. by apply Hid, Hids. }
    { unfold fits in *; lia. }
    { by eapply room_mono. }
    { by rewrite Hcf. }
    rewrite Hb2, obind_Some. eexists. split_and!; [done|by apply fast_Rep_emit| |by rewrite <- Hcf].
    rewrite fast_log_emit, Hlog2, Hlog. by rewrite app_assoc.
Qed.

Lemma fast_contains_refines id b sp :
  Rep b sp -> contains id b = Some (Spec.contains id sp).
Proof.
  intros HR. unfold contains. rewrite oi_find_spec by apply HR. rewrite obind_Some. f_equal.
  apply eq_bool_prop_intro. rewrite !Is_true_true, bool_decide_eq_true, Spec.contains_spec.
  apply (rep_owned b sp id HR).
Qed.

Lemma fast_add_refines id side px qty b sp r sp' evs :
  Rep b sp -> valid_side side -> fits 32 qty -> room sp -> px + half_band (cfg_ b) < 2 ^ 63 ->
  Spec.add id side px qty sp = (r, sp', evs) ->
  exists b', add id side px qty b = Some (r, b') /\ Rep b' sp' /\
    listener_ b' = listener_ b ++ evs /\ cfg_ b' = cfg_ b.
Proof.
  unfold add, Spec.add. intros HR Hs Hq Hroom Hfit Ha.
  destruct (Z.leb_spec px 0); [simplify_eq; exists b; by rewrite app_nil_r|].
  destruct (Z.eqb_spec qty 0); [simplify_eq; exists b; by rewrite app_nil_r|].
  rewrite (fast_contains_refines id b sp HR), obind_Some.
  destruct (Spec.contains id sp) eqn:Hc.
  - simplify_eq. exists b. by rewrite app_nil_r.
  - destruct (Spec.enter _ _ _ _ _) as [[sp1 rem] ev] eqn:He. simplify_eq.
    assert (id ∉ Spec.ids sp) as Hid by (rewrite <- Spec.contains_spec; congruence).
    assert (0 < px) as Hpx by lia.
    destruct (fast_match_and_rest_refines _ _ _ _ _ _ _ _ _ HR Hs Hid Hpx Hq Hroom
                (conj Hpx Hfit) He) as (b' & Hm & HR' & Hlog & Hcf).
    rewrite Hm, obind_Some. eauto.
Qed.

Lemma fast_cancel_refines id keep b sp r sp' evs :
  Rep b sp -> fits 32 keep -> Spec.cancel id keep sp = (r, sp', evs) ->
  exists b', cancel id keep b = Some (r, b') /\ Rep b' sp' /\
    listener_ b' = listener_ b ++ evs /\ cfg_ b' = cfg_ b.
Proof.
  unfold cancel, Spec.cancel, fits. intros HR Hk Hc.
  rewrite oi_find_spec by apply HR. rewrite obind_Some. fold (own b).
  destruct (Spec.find_order id sp) as [[[s px] q]|] eqn:Hf.
  - pose proof (Spec.find_order_qty _ _ _ _ _ (rep_wf _ _ HR) Hf) as [_ Hq].
    destruct (fast_remove_refines _ _ _ _ _ _ HR Hf) as (idx & x & b1 & Hi & Hx & Hsx & Hox & Hr & HR1 & Hlog & Hcf).
    rewrite Hi, Hx, obind_Some, Hox.
    destruct (Z.leb_spec q keep); [simplify_eq; exists b; by rewrite app_nil_r|].
    destruct (Z.eqb_spec keep 0).
    + rewrite Hr, obind_Some. simplify_eq.
      eexists. split_and!; [done|by apply fast_Rep_emit| |done]. by rewrite fast_log_emit, Hlog.
    + assert (0 < keep < q) as Hkq by lia.
      destruct (fast_reduce_refines _ _ _ _ keep _ _ HR Hf Hkq)
        as (idx' & x' & Hi' & Hx' & Hs' & Hp' & Ho' & lvl & Hlf & Hld & HR2).
      rewrite Hi in Hi'. injection Hi' as <-. rewrite Hx in Hx'. injection Hx' as <-.
      rewrite Hs', Hp', Hlf, obind_Some, Hld, obind_Some. simplify_eq.
      rewrite (wrap_small 32 (f_open x - keep)) by (unfold fits; lia).
      eexists. split_and!; [done|by apply fast_Rep_emit| |by destruct (ref_for _ _ _)].
      rewrite fast_log_emit. by destruct (ref_for _ _ _).
  - assert (own b !! id = None) as ->.
    { apply eq_None_not_Some. rewrite (rep_owned b sp id HR). by apply Spec.find_order_None. }
    simplify_eq. exists b. by rewrite app_nil_r.
Qed.

Lemma fast_best_level_refines s b sp :
  Rep b sp -> valid_side s ->
  exists r x y, best_level s b = Some (r, set_cursors x y b) /\
    Rep (set_cursors x y b) sp /\ best_price r = Spec.best s sp.
Proof.
  intros HR Hs. destruct (best_level_spec b (table sp) s (rep_core _ _ HR) Hs)
    as (r & x & y & Hbl & Hc & Hr).
  exists r, x, y. split_and!; [done|by apply rep_cursors|].
  unfold Spec.best. destruct (Spec.levels s sp) as [|[px os] ls] eqn:Hl; cbn.
  - destruct r as [[[p ref] fb]|]; [|done]. destruct Hr as ([Hne _] & _).
    unfold table in Hne. by rewrite Hl in Hne.
  - assert (table sp s px = os /\ os <> []) as [Ht Hne]
      by (apply table_elem; [apply HR|rewrite Hl; set_solver]).
    destruct r as [[[p ref] fb]|]; [|by rewrite Hr in Ht].
    destruct Hr as (Hbest & _). cbn. f_equal. by eapply best_of_head; [apply HR|done|].
Qed.

Lemma fast_best_bid_refines b sp :
  Rep b sp -> exists x y, best_bid b = Some (Spec.best Buy sp, set_cursors x y b) /\
    Rep (set_cursors x y b) sp.
Proof.
  intros HR. destruct (fast_best_level_refines Buy b sp HR) as (r & x & y & Hb & HR' & <-); [by left|].
  exists x, y. unfold best_bid. by rewrite Hb.
Qed.

Lemma fast_best_ask_refines b sp :
  Rep b sp -> exists x y, best_ask b = Some (Spec.best Sell sp, set_cursors x y b) /\
    Rep (set_cursors x y b) sp.
Proof.
  intros HR. destruct (fast_best_level_refines Sell b sp HR) as (r & x & y & Hb & HR' & <-); [by right|].
  exists x, y. unfold best_ask. by rewrite Hb.
Qed.

Lemma fast_would_cross_refines side px b sp :
  Rep b sp -> valid_side side ->
  exists x y, would_cross side px b = Some (Spec.would_cross side px sp, set_cursors x y b) /\
    Rep (set_cursors x y b) sp.
Proof.
  intros HR [-> | ->]; unfold would_cross, Spec.would_cross; cbn [is_buy opposite].
  - destruct (fast_best_ask_refines b sp HR) as (x & y & -> & HR'). by exists x, y.
  - destruct (fast_best_bid_refines b sp HR) as (x & y & -> & HR'). by exists x, y.
Qed.

Lemma fast_replace_refines old new px qty b sp r sp' evs :
  Rep b sp -> fits 32 qty -> room sp -> px + half_band (cfg_ b) < 2 ^ 63 ->
  Spec.replace old new px qty sp = (r, sp', evs) ->
  exists b', replace old new px qty b = Some (r, b') /\ Rep b' sp' /\
    listener_ b' = listener_ b ++ evs /\ cfg_ b' = cfg_ b.
Proof.
  unfold replace, Spec.replace. intros HR Hq Hroom Hfit Hr.
  rewrite oi_find_spec by apply HR. rewrite obind_Some. fold (own b).
  destruct (Spec.find_order old sp) as [[[s opx] oq]|] eqn:Hf.
  2:{ assert (own b !! old = None) as ->.
      { apply eq_None_not_Some. rewrite (rep_owned b sp old HR). by apply Spec.find_order_None. }
      simplify_eq. exists b. by rewrite app_nil_r. }
  destruct (fast_remove_refines _ _ _ _ _ _ HR Hf) as (idx & x & b1 & Hi & Hx & Hsx & Hox & Hrm & HR1 & Hlog & Hcf).
  pose proof (Spec.find_order_side _ _ _ _ _ Hf) as Hvs.
  rewrite Hi, (fast_contains_refines new b sp HR), obind_Some.
  destruct ((new =? old) || Spec.contains new sp) eqn:Hnew;
    [simplify_eq; exists b; by rewrite app_nil_r|].
  destruct ((px <=? 0) || (qty =? 0)) eqn:Hv;
    [simplify_eq; exists b; by rewrite app_nil_r|].
  rewrite Hx, obind_Some, Hrm, obind_Some, Hsx, Hox.
  destruct (fast_would_cross_refines s px b1 _ HR1 Hvs) as (cx & cy & -> & HR2). rewrite obind_Some.
  assert (new ∉ Spec.ids (Spec.remove s opx old sp)) as Hni.
  { intros Hin%Spec.remove_ids%Spec.contains_spec. by rewrite Hin, orb_true_r in Hnew. }
  assert (0 < px) as Hpx by lia.
  assert (price_fits (cfg_ b1) px) as Hf1 by (rewrite Hcf; done).
  assert (room (Spec.remove s opx old sp)) as Hroom1.
  { eapply room_mono; [apply HR1| |done]. intros id. apply Spec.remove_ids. }
  destruct (Spec.would_cross s px _) eqn:Hw.
  - destruct (Spec.enter _ _ _ _ _) as [[sp2 rem] ev] eqn:He. injection Hr as <- <- <-.
    pose proof (fast_Rep_emit (on_canceled (mkCanceled old oq true)) _ _ HR2) as HR3.
    destruct (fast_match_and_rest_refines _ _ _ _ _ _ _ _ _ HR3 Hvs Hni Hpx Hq Hroom1 Hf1 He)
      as (b' & Hm & HR' & Hlog' & Hcf').
    rewrite Hm, obind_Some. eexists. split_and!; [done|done| |by rewrite <- Hcf].
    rewrite Hlog', fast_log_emit. cbn [listener_ set_cursors]. by rewrite Hlog, <- app_assoc.
  - injection Hr as <- <- <-.
    destruct (fast_rest_refines new s px qty (set_cursors cx cy b1) _ HR2 Hvs Hni Hq)
      as (b3 & Hb3 & HR3 & Hlog3 & Hcf3).
    { apply Spec.rest_wf; [apply HR2|done|lia|unfold fits in Hq; lia|].
      intros p. apply Spec.would_cross_false; [apply HR2|done]. }
    { done. }
    { done. }
    rewrite Hb3, obind_Some. eexists. split_and!; [done|by apply fast_Rep_emit| |by rewrite <- Hcf].
    rewrite fast_log_emit, Hlog3. cbn [listener_ set_cursors]. by rewrite Hlog.
Qed.

Lemma fast_execute_ioc_refines id side limit qty b sp filled sp' evs :
  Rep b sp -> valid_side side -> fits 32 qty ->
  Spec.execute_ioc id side limit qty sp = (filled, sp', evs) ->
  exists b', execute_ioc id side limit qty b = Some (filled, b') /\ Rep b' sp' /\
    listener_ b' = listener_ b ++ evs /\ lengthZ (pool_ b') = lengthZ (pool_ b) /\
    cfg_ b' = cfg_ b.
Proof.
  unfold Spec.execute_ioc, execute_ioc. intros HR Hs Hq Hx.
  destruct (Spec.match_ _ _ _ _ _) as [[sp1 rem] ev] eqn:Hm. injection Hx as <- <- <-.
  by apply match_spec with (sp := sp).
Qed.

(** A price the band arithmetic can take: at least half a band below
    [INT64_MAX], so that no difference with the base of a band overflows. *)
Definition op_fits (cfg : Config) (op : BookOp) : Prop :=
  match op with
  | OpAdd _ _ px _ => px + half_band cfg < 2 ^ 63
  | OpCancel _ _ => True
  | OpReplace _ _ px _ => px + half_band cfg < 2 ^ 63
  end.

Lemma fast_step_refines op b sp r sp' evs :
  Rep b sp -> op_ok op -> op_fits (cfg_ b) op -> room sp -> Spec.step op sp = (r, sp', evs) ->
  exists b', step op b = Some (r, b') /\ Rep b' sp' /\
    listener_ b' = listener_ b ++ evs /\ cfg_ b' = cfg_ b.
Proof.
  intros HR Hok Hfit Hroom Hs. destruct op as [id side px qty|id keep|old new px qty]; cbn in *.
  - destruct Hok as [Hside Hq].
    destruct (Spec.add id side px qty sp) as [[r1 sp1] ev] eqn:Ha. simplify_eq.
    destruct (fast_add_refines _ _ _ _ _ _ _ _ _ HR Hside Hq Hroom Hfit Ha) as (b' & -> & ? & ? & ?). eauto.
  - destruct (Spec.cancel id keep sp) as [[r1 sp1] ev] eqn:Ha. simplify_eq.
    destruct (fast_cancel_refines _ _ _ _ _ _ _ HR Hok Ha) as (b' & -> & ? & ? & ?). eauto.
  - destruct (Spec.replace old new px qty sp) as [[r1 sp1] ev] eqn:Ha. simplify_eq.
    destruct (fast_replace_refines _ _ _ _ _ _ _ _ _ HR Hok Hroom Hfit Ha) as (b' & -> & ? & ? & ?). eauto.
Qed.
End refines.
