(* ===== verification/LadderObserve.v ===== *)
(** What can be seen of the fast book: its snapshot, the shares an order could
    execute against, and the self check, each against the abstract book. *)

From S2P Require Import Prelude StdMap BookTypes BookSpec MatchingBook OrderIndex LadderBook LadderLinks LadderInv LadderOps LadderMatch LadderBookRefines.

Import FastBook.

(** * Generic facts *)

Lemma sum_by_perm {A} (f : A -> Z) (l k : list A) : l ≡ₚ k -> sum_by f l = sum_by f k.
Proof. induction 1; cbn; lia. Qed.

Lemma sum_by_filter {A} (f : A -> Z) (P : A -> Prop) `{forall x, Decision (P x)} (l : list A) :
  (forall x, ~ P x -> f x = 0) -> sum_by f (filter P l) = sum_by f l.
Proof.
  intros Hf. induction l as [|x l IH]; [done|].
  destruct (decide (P x)) as [Hp|Hp].
  - rewrite filter_cons_True by done. cbn. lia.
  - rewrite filter_cons_False by done. cbn. rewrite Hf by done. lia.
Qed.

Lemma sum_by_map {A B} (f : B -> Z) (g : A -> B) (l : list A) :
  sum_by f (map g l) = sum_by (fun x => f (g x)) l.
Proof. induction l; cbn; lia. Qed.

(** Strictly sorted lists with the same elements are equal. *)
Lemma before_sorted_unique s (l k : list Price) :
  StronglySorted (fun p q => before s p q = true) l ->
  StronglySorted (fun p q => before s p q = true) k ->
  l ≡ₚ k -> l = k.
Proof.
  revert k. induction l as [|x l IH]; intros k Hl Hk Hp.
  - by apply Permutation_nil_l in Hp.
  - destruct k as [|y k]; [by apply Permutation_nil_r in Hp|].
    apply StronglySorted_cons in Hl as [Hx Hl]. apply StronglySorted_cons in Hk as [Hy Hk].
    rewrite Forall_forall in Hx, Hy.
    assert (x = y) as ->.
    { assert (x ∈ y :: k) as Hxy by (rewrite <- Hp; by left).
      assert (y ∈ x :: l) as Hyx by (rewrite Hp; by left).
      apply elem_of_cons in Hxy as [|Hxy]; [done|]. apply elem_of_cons in Hyx as [|Hyx]; [done|].
      pose proof (lt_trans _ _ _ (Hy _ Hxy) (Hx _ Hyx)) as Hc. by rewrite lt_irrefl in Hc. }
    f_equal. apply IH; [done|done|]. by eapply Permutation_cons_inv.
Qed.

Section observe.
Context {M : Type} `{OrderIndexLaws M}.
Implicit Types (b : FastBook M).

(** * The prices of a side *)

Definition ladder_prices b : list Price :=
  map (fun t => price_of t b) (seqZ 0 (lengthZ (ladder_ b))).

Definition side_prices b (Q : Table) (s : Side) : list Price :=
  filter (fun p => Q s p <> []) (ladder_prices b) ++ (fallback s b).*1.

Lemma elem_of_ladder_prices b Q dirty p :
  core b Q dirty -> p ∈ ladder_prices b <-> 0 <= tick_of p b.
Proof.
  intros Hc. unfold ladder_prices. rewrite list_elem_of_fmap. split.
  - intros (t & -> & Ht%elem_of_seqZ). rewrite tick_of_price_of; [lia|apply Hc| |lia].
    destruct (band_set_ b) eqn:Hb; [done|]. rewrite (proj1 (c_band _ _ _ Hc Hb)) in Ht.
    unfold lengthZ in Ht. cbn in Ht. lia.
  - intros Hge. destruct (tick_of_spec p b (c_tick _ _ _ Hc) Hge) as (_ & Hr & Hp).
    exists (tick_of p b). split; [done|]. apply elem_of_seqZ. lia.
Qed.

Lemma ladder_prices_nodup b : 0 < tick (cfg_ b) -> NoDup (ladder_prices b).
Proof.
  intros Ht. unfold ladder_prices. apply NoDup_fmap_2_strong; [|apply NoDup_seqZ].
  intros x y _ _. unfold price_of. nia.
Qed.

Lemma fallback_key b Q s p :
  core b Q clean -> valid_side s ->
  p ∈ (fallback s b).*1 <-> tick_of p b < 0 /\ Q s p <> [].
Proof.
  intros Hc Hs. pose proof (c_sorted _ _ _ Hc s Hs) as Hsort. split.
  - intros ([p' lvl] & -> & Hin)%list_elem_of_fmap. cbn.
    apply (StdMap.sm_elem_find (before s)) in Hin; [|done].
    destruct (Z.lt_ge_cases (tick_of p' b) 0) as [Hlt|Hge].
    + pose proof (c_out _ _ _ Hc s p' Hs Hlt) as Ho. rewrite Hin in Ho.
      destruct Ho as [_ Hd]. split; [done|]. by intros ?%Hd.
    + by rewrite (c_infb _ _ _ Hc s p' Hs Hge) in Hin.
  - intros [Hlt Hne]. pose proof (c_out _ _ _ Hc s p Hs Hlt) as Ho.
    destruct (StdMap.find p (fallback s b)) as [lvl|] eqn:Hf; [|done].
    apply list_elem_of_fmap. exists (p, lvl). split; [done|]. by apply (StdMap.sm_find_elem (before s)).
Qed.

Lemma keys_sorted {V} s (m : list (Price * V)) :
  StdMap.sorted (before s) m -> StronglySorted (fun p q => before s p q = true) m.*1.
Proof.
  induction m as [|[k v] m IH]; intros Hs; [constructor|].
  apply StdMap.sm_sorted_cons in Hs as [Hall Hs]. cbn. apply StronglySorted_cons.
  split; [|by apply IH]. rewrite Forall_forall in Hall. apply Forall_forall.
  intros p (e & -> & He)%list_elem_of_fmap. by apply Hall.
Qed.

Lemma sorted_nodup s (l : list Price) :
  StronglySorted (fun p q => before s p q = true) l -> NoDup l.
Proof.
  induction 1 as [|x l Hl IH Hx]; constructor; [|done]. intros Hin.
  rewrite Forall_forall in Hx. apply Hx in Hin. by rewrite lt_irrefl in Hin.
Qed.

Lemma side_prices_perm b sp s :
  Rep b sp -> valid_side s -> side_prices b (table sp) s ≡ₚ (Spec.levels s sp).*1.
Proof.
  intros HR Hs. pose proof (rep_core _ _ HR) as Hc. pose proof (rep_wf _ _ HR) as Hwf.
  apply NoDup_Permutation.
  - unfold side_prices. apply NoDup_app. split_and!.
    + apply NoDup_filter, ladder_prices_nodup, Hc.
    + intros p [_ Hp]%list_elem_of_filter Hf.
      apply (elem_of_ladder_prices b _ _ p Hc) in Hp.
      apply (fallback_key b _ s p Hc Hs) in Hf as [? _]. lia.
    + eapply sorted_nodup, keys_sorted. by apply Hc.
  - eapply sorted_nodup, keys_sorted. apply Hwf.
  - intros p. unfold side_prices.
    rewrite elem_of_app, list_elem_of_filter, (elem_of_ladder_prices b _ _ p Hc),
      (fallback_key b _ s p Hc Hs).
    assert (p ∈ (Spec.levels s sp).*1 <-> table sp s p <> []) as ->.
    { rewrite list_elem_of_fmap. split.
      - intros ([p' os] & -> & Hin). cbn. by destruct (table_elem _ _ _ _ Hwf Hin) as [-> ?].
      - intros Hne. exists (p, table sp s p). split; [done|].
        apply (Spec.wf_find s); [done|]. by apply table_find. }
    split; [tauto|]. intros Hne. destruct (Z.lt_ge_cases (tick_of p b) 0); [tauto|].
    left. split; [done|lia].
Qed.

(** A sum over the levels of a side, level by level of the fast book. *)
Lemma side_sum b sp s (f : Price -> Z) :
  Rep b sp -> valid_side s -> (forall p, table sp s p = [] -> f p = 0) ->
  sum_by f (ladder_prices b) + sum_by (fun e => f e.1) (fallback s b)
  = sum_by (fun l => f l.1) (Spec.levels s sp).
Proof.
  intros HR Hs Hf. rewrite <- (sum_by_map f fst (fallback s b)), <- (sum_by_map f fst).
  change (map fst (Spec.levels s sp)) with (Spec.levels s sp).*1.
  rewrite <- (sum_by_perm f _ _ (side_prices_perm b sp s HR Hs)).
  unfold side_prices. rewrite sum_by_app, sum_by_filter; [done|].
  intros p Hp. apply Hf. by apply dec_stable.
Qed.

(** * Snapshot *)

Lemma walk_spec pool own s px os : forall fuel pv,
  lengthZ pool <= kNil -> seg pool own s px pv os kNil -> (length os < fuel)%nat ->
  exists l, walk fuel (first_slot own os kNil) pool = Some l /\
    map (fun io => mkSnapOrder (f_id io.2) (f_open io.2)) l = os.
Proof.
  induction os as [|o os IH]; intros fuel pv Hk Hs Hf;
    (destruct fuel as [|fuel]; [cbn in Hf; lia|]); cbn [walk first_slot].
  - by exists [].
  - destruct Hs as (i & Hi & Hp & Hs). rewrite (slot_of_Some _ _ _ Hi).
    pose proof (lookupZ_Some_bounds _ _ _ Hp). replace (i =? kNil) with false by lia.
    rewrite Hp, obind_Some. cbn [f_next].
    destruct (IH fuel i Hk Hs) as (l & -> & Hl); [cbn in Hf; lia|]. rewrite obind_Some.
    eexists. split; [done|]. cbn. rewrite Hl. by destruct o.
Qed.

Lemma snapshot_level_spec b Q s px lvl :
  slots_ok b -> encodes (pool_ b) (own b) lvl s px (Q s px) ->
  (length (Q s px) <= length (pool_ b))%nat ->
  snapshot_level b (px, lvl) = Some (mkSnapLevel px (Q s px)).
Proof.
  intros Hso [-> Hsg _ _] Hlen. unfold snapshot_level. cbn [snd l_head fst].
  destruct (walk_spec (pool_ b) (own b) s px (Q s px) (S (length (pool_ b))) kNil) as (l & -> & Hl);
    [apply Hso|done|lia|]. rewrite obind_Some. by rewrite Hl.
Qed.

Lemma collect_ladder_spec b Q s ls : forall i,
  core b Q clean -> valid_side s -> 0 <= i ->
  (forall k lvl, ls !! k = Some lvl -> ladder_ b !z! (i + Z.of_nat k) = Some lvl) ->
  exists out, collect_ladder (is_buy s) i ls b = Some out /\
    out.*1 = filter (fun p => Q s p <> []) (map (fun t => price_of t b) (seqZ i (lengthZ ls))) /\
    Forall (fun e => encodes (pool_ b) (own b) e.2 s e.1 (Q s e.1)) out.
Proof.
  induction ls as [|lvl ls IH]; intros i Hc Hs Hi Hls; [by exists []|].
  pose proof (Hls 0%nat lvl eq_refl) as Hl. rewrite Z.add_0_r in Hl.
  destruct (IH (i + 1)) as (out & Ho & Hk & Hall); [done|done|lia| |].
  { intros k l Hkl. replace (i + 1 + Z.of_nat k) with (i + Z.of_nat (S k)) by lia.
    by apply Hls. }
  destruct (c_in _ _ _ Hc i (lookupZ_Some_bounds _ _ _ Hl)) as (s' & lvl' & Hs' & Hl' & He & Hop).
  rewrite Hl in Hl'. injection Hl' as <-.
  pose proof (encodes_head _ _ _ _ _ _ (so_pool _ (c_slots _ _ _ Hc)) He) as Hh.
  replace (lengthZ (lvl :: ls)) with (lengthZ ls + 1) by (unfold lengthZ; cbn; lia).
  rewrite seqZ_cons by (pose proof (lengthZ_nonneg ls); lia).
  replace (Z.pred (lengthZ ls + 1)) with (lengthZ ls) by lia. replace (Z.succ i) with (i + 1) by lia.
  cbn [map collect_ladder]. destruct (Z.eqb_spec (l_head lvl) kNil) as [Hn|Hn].
  - apply Hh in Hn. exists out. split_and!; [done| |done]. rewrite filter_cons_False; [done|].
    intros Hx. apply Hx. by destruct (valid_side_cases s' s Hs' Hs) as [-> | ->].
  - destruct (Q s' (price_of i b)) as [|o os] eqn:HQ; [by destruct Hn; apply Hh|].
    pose proof He as [Hlv (j & Hj & Hp & _) _ _].
    assert (l_head lvl = j) as -> by (rewrite Hlv; cbn; by apply slot_of_Some).
    rewrite (core_price_at b Q clean i Hc (lookupZ_Some_bounds _ _ _ Hl)), obind_Some.
    rewrite Hp, obind_Some, Ho, obind_Some. cbn [f_side].
    eexists. split; [done|]. destruct (valid_side_cases s' s Hs' Hs) as [-> | ->].
    + rewrite Bool.eqb_reflx, filter_cons_True by (by rewrite HQ). cbn [fmap list_fmap fst].
      split; [by rewrite <- Hk|]. constructor; [|done]. cbn. by rewrite HQ.
    + replace (Bool.eqb (is_buy s') (is_buy (opposite s'))) with false
        by (by destruct Hs' as [-> | ->]).
      rewrite filter_cons_False; [done|]. intros Hx. by apply Hx.
Qed.

#[local] Instance sort_le_trans s : Transitive (sort_le s).
Proof. intros x y z. unfold sort_le, before. destruct (is_buy s); intros; lia. Qed.

#[local] Instance sort_le_total s : Total (sort_le s).
Proof. intros x y. unfold sort_le, before. destruct (is_buy s); lia. Qed.

Lemma sort_strict s (l : list (Price * Level)) :
  StronglySorted (sort_le s) l -> NoDup l.*1 ->
  StronglySorted (fun p q => before s p q = true) l.*1.
Proof.
  induction 1 as [|x l Hl IH Hx]; cbn; intros Hnd; [constructor|].
  apply NoDup_cons in Hnd as [Hni Hnd]. apply StronglySorted_cons. split; [|by apply IH].
  rewrite Forall_forall in Hx. apply Forall_forall.
  intros p (e & -> & He)%list_elem_of_fmap. specialize (Hx e He).
  unfold sort_le in Hx. destruct (before s x.1 e.1) eqn:Hb; [done|].
  destruct Hni. apply list_elem_of_fmap. exists e. split; [|done]. by apply (lt_total (lt := before s)).
Qed.

Lemma mapM_all {A B} (f : A -> option B) (g : A -> B) (l : list A) :
  Forall (fun x => f x = Some (g x)) l -> mapM f l = Some (map g l).
Proof. induction 1 as [|x l Hx _ IH]; [done|]. cbn. by rewrite Hx, IH. Qed.

Lemma snapshot_side_refines b sp s :
  Rep b sp -> valid_side s ->
  snapshot_side s b = Some (map (fun p => mkSnapLevel p.1 p.2) (Spec.levels s sp)).
Proof.
  intros HR Hs. pose proof (rep_core _ _ HR) as Hc. pose proof (rep_wf _ _ HR) as Hwf.
  destruct (collect_ladder_spec b (table sp) s (ladder_ b) 0) as (lad & Hl & Hk & Hall);
    [done|done|lia|intros k lvl Hk; by rewrite Z.add_0_l, lookupZ_of_nat|].
  unfold snapshot_side. rewrite Hl, obind_Some. set (L := lad ++ fallback s b).
  assert (Forall (fun e => encodes (pool_ b) (own b) e.2 s e.1 (table sp s e.1)) L) as HL.
  { apply Forall_app. split; [done|]. apply Forall_forall. intros [p lvl] Hin.
    pose proof Hin as Hf. apply (StdMap.sm_elem_find (before s)) in Hf; [|by apply Hc].
    assert (tick_of p b < 0) as Hlt.
    { apply (fallback_key b (table sp) s p Hc Hs). apply list_elem_of_fmap. by exists (p, lvl). }
    pose proof (c_out _ _ _ Hc s p Hs Hlt) as Ho. rewrite Hf in Ho. by destruct Ho. }
  pose proof (merge_sort_Permutation (sort_le s) L) as Hperm.
  set (L' := merge_sort (sort_le s) L) in *.
  assert (L'.*1 ≡ₚ (Spec.levels s sp).*1) as Hkp.
  { etrans; [by apply fmap_Permutation|]. unfold L. rewrite fmap_app, Hk.
    by apply (side_prices_perm b sp s). }
  assert (StronglySorted (fun p q => before s p q = true) (Spec.levels s sp).*1) as Hss
    by (apply keys_sorted, Hwf).
  assert (L'.*1 = (Spec.levels s sp).*1) as Hkeys.
  { apply (before_sorted_unique s); [|done|done]. apply sort_strict.
    - by apply StronglySorted_merge_sort; apply _.
    - rewrite Hkp. by eapply sorted_nodup. }
  rewrite (mapM_all _ (fun e => mkSnapLevel e.1 (table sp s e.1))).
  - f_equal. transitivity (map (fun p => mkSnapLevel p (table sp s p)) L'.*1);
      [by rewrite <- list_fmap_compose|].
    rewrite Hkeys, <- list_fmap_compose. apply list_fmap_ext. intros i [p os] Hi. cbn.
    apply list_elem_of_lookup_2 in Hi. by destruct (table_elem _ _ _ _ Hwf Hi) as [-> _].
  - rewrite Hperm. eapply Forall_impl; [exact HL|]. intros [p lvl] He. cbn in *.
    eapply snapshot_level_spec; [apply Hc|done|]. by eapply queue_length.
Qed.

Lemma fast_snapshot_refines b sp : Rep b sp -> snapshot b = Some (Spec.to_snapshot sp).
Proof.
  intros HR. unfold snapshot.
  rewrite (snapshot_side_refines b sp Buy HR) by (by left). rewrite obind_Some.
  by rewrite (snapshot_side_refines b sp Sell HR) by (by right).
Qed.

(** * Matchable quantity *)

Lemma sum_by_zero {A} (f : A -> Z) (l : list A) :
  (forall x, x ∈ l -> f x = 0) -> sum_by f l = 0.
Proof.
  induction l as [|x l IH]; cbn; intros Hf; [done|].
  rewrite Hf, IH; [done| |set_solver]. intros y Hy. apply Hf. set_solver.
Qed.

(** The shares [side]'s order at [limit] would take from the level at [p]. *)
Definition takes (Q : Table) (side : Side) (limit : Price) (p : Price) : Z :=
  if crosses side limit p then sum_by so_qty (Q (opposite side) p) else 0.

Lemma takes_nil Q side limit p : Q (opposite side) p = [] -> takes Q side limit p = 0.
Proof. unfold takes. intros ->. by destruct (crosses _ _ _). Qed.

Lemma level_total b Q t s lvl :
  core b Q clean -> valid_side s -> 0 <= t < lengthZ (ladder_ b) ->
  ladder_ b !z! t = Some lvl -> Q s (price_of t b) <> [] ->
  l_total lvl = u32 (sum_by so_qty (Q s (price_of t b))).
Proof.
  intros Hc Hs Ht Hl Hne. destruct (core_ladder_queue b Q clean t s Hc Hs Ht) as (lvl' & Hl' & He).
  rewrite Hl in Hl'. injection Hl' as <-. by destruct (He Hne) as [-> _ _ _].
Qed.

Lemma sum_asks_spec b Q limit n : forall t total,
  core b Q clean -> 0 <= t -> t + Z.of_nat n = lengthZ (ladder_ b) -> fits 32 total ->
  sum_asks n t limit total b
  = Some (u32 (total + sum_by (fun t => takes Q Buy limit (price_of t b)) (seqZ t (Z.of_nat n)))).
Proof.
  induction n as [|n IH]; intros t total Hc Ht Hn Hf; cbn [sum_asks].
  - cbn. by rewrite Z.add_0_r, wrap_small.
  - destruct (lookupZ_is_Some (ladder_ b) t ltac:(lia)) as [lvl Hl]. rewrite Hl, obind_Some.
    rewrite (level_has_spec b Q clean Sell) by (done || by right || lia). rewrite obind_Some.
    rewrite seqZ_cons by lia. replace (Z.pred (Z.of_nat (S n))) with (Z.of_nat n) by lia.
    replace (Z.succ t) with (t + 1) by lia. cbn [sum_by].
    case_bool_decide as Hq; cbn [negb].
    2:{ rewrite IH by (done || lia). rewrite takes_nil by done. by rewrite Z.add_0_l. }
    rewrite (core_price_at b Q clean) by (done || lia). rewrite obind_Some.
    destruct (Z.ltb_spec limit (price_of t b)) as [Hlt|Hle].
    + rewrite sum_by_zero.
      * unfold takes, crosses. cbn. replace (price_of t b <=? limit) with false by lia.
        by rewrite !Z.add_0_r, wrap_small.
      * intros t' Ht'%elem_of_seqZ. unfold takes, crosses. cbn.
        pose proof (c_tick _ _ _ Hc). unfold price_of in *.
        by replace (base_ b + t' * tick (cfg_ b) <=? limit) with false by nia.
    + rewrite IH by (done || lia || (apply wrap_fits; lia)). f_equal.
      rewrite (level_total b Q t Sell lvl) by (done || by right || lia).
      unfold takes at 2. unfold crosses. cbn.
      replace (price_of t b <=? limit) with true by lia. wrap_eq.
Qed.

Lemma sum_bids_spec b Q limit n : forall total,
  core b Q clean -> Z.of_nat n <= lengthZ (ladder_ b) -> fits 32 total ->
  sum_bids n limit total b
  = Some (u32 (total + sum_by (fun t => takes Q Sell limit (price_of t b)) (seqZ 0 (Z.of_nat n)))).
Proof.
  induction n as [|n IH]; intros total Hc Hn Hf; cbn [sum_bids].
  - cbn. by rewrite Z.add_0_r, wrap_small.
  - destruct (lookupZ_is_Some (ladder_ b) (Z.of_nat n) ltac:(lia)) as [lvl Hl]. rewrite Hl, obind_Some.
    rewrite (level_has_spec b Q clean Buy) by (done || by left || lia). rewrite obind_Some.
    rewrite seqZ_S, Z.add_0_l, sum_by_app. cbn [sum_by]. rewrite Z.add_0_r.
    case_bool_decide as Hq; cbn [negb].
    2:{ rewrite IH by (done || lia). rewrite (takes_nil _ _ _ (price_of (Z.of_nat n) b)) by done.
        by rewrite Z.add_0_r. }
    rewrite (core_price_at b Q clean) by (done || lia). rewrite obind_Some.
    destruct (Z.ltb_spec (price_of (Z.of_nat n) b) limit) as [Hlt|Hle].
    + rewrite sum_by_zero.
      * unfold takes, crosses. cbn. replace (limit <=? price_of (Z.of_nat n) b) with false by lia.
        by rewrite !Z.add_0_r, wrap_small.
      * intros t' Ht'%elem_of_seqZ. unfold takes, crosses. cbn.
        pose proof (c_tick _ _ _ Hc). unfold price_of in *.
        by replace (limit <=? base_ b + t' * tick (cfg_ b)) with false by nia.
    + rewrite IH by (done || lia || (apply wrap_fits; lia)). f_equal.
      rewrite (level_total b Q (Z.of_nat n) Buy lvl) by (done || by left || lia).
      unfold takes at 3. unfold crosses. cbn.
      replace (limit <=? price_of (Z.of_nat n) b) with true by lia. wrap_eq.
Qed.

Lemma sum_fallback_spec b Q side limit m : forall total,
  StdMap.sorted (before (opposite side)) m ->
  Forall (fun e => encodes (pool_ b) (own b) e.2 (opposite side) e.1 (Q (opposite side) e.1)) m ->
  fits 32 total ->
  sum_fallback side limit m total
  = u32 (total + sum_by (fun e => takes Q side limit e.1) m).
Proof.
  induction m as [|[p lvl] m IH]; intros total Hsort Hall Hf; cbn [sum_fallback sum_by].
  - by rewrite Z.add_0_r, wrap_small.
  - apply StdMap.sm_sorted_cons in Hsort as [Habove Hsort]. apply Forall_cons in Hall as [He Hall].
    cbn [fst snd] in *. unfold takes at 1. destruct (crosses side limit p) eqn:Hx; cbn [negb].
    + rewrite IH by (done || (apply wrap_fits; lia)). destruct He as [-> _ _ _]. cbn. wrap_eq.
    + rewrite sum_by_zero; [by rewrite !Z.add_0_r, wrap_small|]. intros [q l] Hin. cbn.
      unfold takes. rewrite Forall_forall in Habove. specialize (Habove _ Hin). cbn in Habove.
      destruct (crosses side limit q) eqn:Hq; [|done].
      by rewrite (crosses_before _ _ _ _ Hq Habove) in Hx.
Qed.

Lemma fallback_encodes b Q s :
  core b Q clean -> valid_side s ->
  Forall (fun e => encodes (pool_ b) (own b) e.2 s e.1 (Q s e.1)) (fallback s b).
Proof.
  intros Hc Hs. apply Forall_forall. intros [p lvl] Hin.
  pose proof Hin as Hf. apply (StdMap.sm_elem_find (before s)) in Hf; [|by apply Hc].
  assert (tick_of p b < 0) as Hlt.
  { apply (fallback_key b Q s p Hc Hs). apply list_elem_of_fmap. by exists (p, lvl). }
  pose proof (c_out _ _ _ Hc s p Hs Hlt) as Ho. rewrite Hf in Ho. by destruct Ho.
Qed.

Lemma available_takes sp side limit :
  Spec.wf sp -> Spec.available side limit sp
  = sum_by (fun l => takes (table sp) side limit l.1) (Spec.levels (opposite side) sp).
Proof.
  intros Hwf. unfold Spec.available. apply sum_by_ext, Forall_forall. intros [p os] Hin. cbn.
  unfold takes. by destruct (table_elem _ _ _ _ Hwf Hin) as [-> _].
Qed.

(** Outside the scanned part of the ladder there is nothing to take. *)
Lemma ladder_takes b Q side limit :
  0 <= lengthZ (ladder_ b) ->
  sum_by (takes Q side limit) (ladder_prices b)
  = sum_by (fun t => takes Q side limit (price_of t b)) (seqZ 0 (lengthZ (ladder_ b))).
Proof. intros _. unfold ladder_prices. apply sum_by_map. Qed.

Lemma matchable_refines side limit b sp :
  Rep b sp -> valid_side side ->
  exists x y, matchable side limit b
      = Some (u32 (Spec.available side limit sp), set_cursors x y b) /\
    Rep (set_cursors x y b) sp.
Proof.
  intros HR Hs. pose proof (valid_side_opposite side) as Ho.
  destruct (ladder_best_if_set_spec b (table sp) clean (opposite side) (rep_core _ _ HR) Ho)
    as (t & x & y & Hl & Hc & Hb).
  exists x, y. split; [|by apply rep_cursors]. set (b1 := set_cursors x y b) in *.
  assert (Rep b1 sp) as HR1 by (by apply rep_cursors).
  pose proof (side_sum b1 sp (opposite side) (takes (table sp) side limit) HR1 Ho
                (takes_nil _ side limit)) as Hsum.
  rewrite <- available_takes in Hsum by apply HR. rewrite ladder_takes in Hsum by apply lengthZ_nonneg.
  pose proof (sum_fallback_spec b1 (table sp) side limit (fallback (opposite side) b1)) as Hfb.
  change (ladder_best_at b (table sp) (opposite side) t)
    with (ladder_best_at b1 (table sp) (opposite side) t) in Hb.
  pose proof (lengthZ_nonneg (ladder_ b1)) as Hnn.
  assert (forall total, fits 32 total -> sum_fallback side limit (fallback (opposite side) b1) total
            = u32 (total + sum_by (fun e => takes (table sp) side limit e.1)
                             (fallback (opposite side) b1))) as Hfb'.
  { intros total Ht. apply Hfb; [by apply Hc|by apply fallback_encodes|done]. }
  unfold ladder_best_at in Hb. unfold matchable.
  destruct Hs as [-> | ->]; cbn [is_buy opposite] in *; rewrite Hl, obind_Some;
    destruct (Z.leb_spec 0 t) as [Hge|Hlt].
  - destruct Hb as (Htl & _ & Hbest).
    rewrite (sum_asks_spec b1 (table sp)); [|done|lia|lia|split; lia]. rewrite obind_Some.
    change (fb_asks_ b1) with (fallback Sell b1). rewrite Hfb' by (apply wrap_fits; lia).
    rewrite <- Hsum. replace (seqZ 0 (lengthZ (ladder_ b1)))
      with (seqZ 0 (t + (lengthZ (ladder_ b1) - t))) by (f_equal; lia).
    rewrite seqZ_app, sum_by_app, Z2Nat.id by lia. rewrite (sum_by_zero _ (seqZ 0 t)).
    + f_equal. f_equal. rewrite !Z.add_0_l. wrap_eq.
    + intros t' Ht'%elem_of_seqZ. apply takes_nil. cbn. apply dec_stable. intros Hne.
      destruct (Hbest t') as [->|Hx]; [lia|done|lia|].
      rewrite price_of_before in Hx by apply Hc. unfold before in Hx. cbn in Hx. lia.
  - rewrite obind_Some. change (fb_asks_ b1) with (fallback Sell b1). rewrite Hfb' by (split; lia).
    rewrite <- Hsum, (sum_by_zero _ (seqZ 0 _)); [done|].
    intros t' Ht'%elem_of_seqZ. apply takes_nil. apply Hb. lia.
  - destruct Hb as (Htl & _ & Hbest).
    rewrite (sum_bids_spec b1 (table sp)); [|done|lia|split; lia]. rewrite obind_Some.
    change (fb_bids_ b1) with (fallback Buy b1). rewrite Hfb' by (apply wrap_fits; lia).
    rewrite <- Hsum. replace (seqZ 0 (lengthZ (ladder_ b1)))
      with (seqZ 0 (t + 1 + (lengthZ (ladder_ b1) - t - 1))) by (f_equal; lia).
    rewrite seqZ_app, sum_by_app, Z2Nat.id by lia.
    rewrite (sum_by_zero _ (seqZ (0 + (t + 1)) _)).
    + f_equal. f_equal. rewrite !Z.add_0_l, Z.add_0_r. wrap_eq.
    + intros t' Ht'%elem_of_seqZ. apply takes_nil. cbn. apply dec_stable. intros Hne.
      destruct (Hbest t') as [->|Hx]; [lia|done|lia|].
      rewrite price_of_before in Hx by apply Hc. unfold before in Hx. cbn in Hx. lia.
  - rewrite obind_Some. change (fb_bids_ b1) with (fallback Buy b1). rewrite Hfb' by (split; lia).
    rewrite <- Hsum, (sum_by_zero _ (seqZ 0 _)); [done|].
    intros t' Ht'%elem_of_seqZ. apply takes_nil. apply Hb. lia.
Qed.
(** * The self check *)

Definition pos (os : list SnapshotOrder) : Prop := Forall (fun o => 0 < so_qty o < 2 ^ 32) os.

Lemma table_pos sp s px : Spec.wf sp -> pos (table sp s px).
Proof.
  intros Hwf. destruct (table sp s px) as [|o os] eqn:Ht; [constructor|].
  apply table_find in Ht; [|done|done]. apply (Spec.wf_find s) in Ht; [|done].
  destruct (Spec.wf_levels _ Hwf s) as [_ Hall]. rewrite Forall_forall in Hall.
  by apply Hall in Ht as (_ & _ & ?).
Qed.

Lemma fail_if_false what : fail_if false what = Ok tt.
Proof. done. Qed.

Lemma check_walk_spec b s px os : forall fuel pv sum count,
  slots_ok b -> seg (pool_ b) (own b) s px pv os kNil -> pos os -> (length os < fuel)%nat ->
  fits 32 sum ->
  check_walk fuel (first_slot (own b) os kNil) pv px s sum count b
  = Ok (u32 (sum + sum_by so_qty os), last_slot (own b) pv os, count + Z.of_nat (length os)).
Proof.
  induction os as [|o os IH]; intros fuel pv sum count Hso Hs Hp Hf Hsum;
    (destruct fuel as [|fuel]; [cbn in Hf; lia|]); cbn [check_walk first_slot last_slot].
  - cbn. by rewrite !Z.add_0_r, wrap_small.
  - destruct Hs as (i & Hi & Hpool & Hs). apply Forall_cons in Hp as [Ho Hp].
    rewrite (slot_of_Some _ _ _ Hi).
    pose proof (lookupZ_Some_bounds _ _ _ Hpool). pose proof (so_pool _ Hso).
    replace (i =? kNil) with false by lia. rewrite Hpool.
    cbn [deref]. rewrite outcome_bind_Ok. cbn [f_open f_price f_side f_prev f_id f_next].
    replace (so_qty o =? 0) with false by lia. rewrite !Z.eqb_refl. cbn [negb].
    rewrite bool_decide_eq_false_2 by tauto. rewrite !fail_if_false, !outcome_bind_Ok.
    rewrite oi_find_spec by apply Hso. fold (own b). rewrite Hi. cbn [deref].
    rewrite outcome_bind_Ok, bool_decide_eq_false_2 by tauto.
    rewrite fail_if_false, outcome_bind_Ok.
    rewrite IH by (done || (cbn in Hf; lia) || (apply wrap_fits; lia)).
    cbn [sum_by length]. do 2 f_equal; [f_equal; wrap_eq|lia].
Qed.

Lemma check_level_spec b Q s px lvl exp count :
  core b Q clean -> valid_side s -> encodes (pool_ b) (own b) lvl s px (Q s px) ->
  pos (Q s px) -> (exp = None \/ exp = Some s) ->
  check_level px lvl exp count b = Ok (count + Z.of_nat (length (Q s px))).
Proof.
  intros Hc Hs He Hp Hexp. pose proof (c_slots _ _ _ Hc) as Hso.
  pose proof (encodes_head _ _ _ _ _ _ (so_pool _ Hso) He) as Hh.
  pose proof (queue_length _ _ _ s px Hc Hs) as Hlen.
  unfold check_level. destruct (Z.eqb_spec (l_head lvl) kNil) as [Hn|Hn].
  - apply Hh in Hn. destruct He as [-> _ _ _]. rewrite Hn. cbn. by rewrite Z.add_0_r.
  - destruct (Q s px) as [|o os] eqn:HQ; [by destruct Hn; apply Hh|].
    destruct He as [-> Hsg _ _]. cbn [l_head l_tail l_total].
    pose proof Hsg as (i & Hi & Hpool & _).
    replace (first_slot (own b) (o :: os) kNil) with i at 1
      by (cbn; symmetry; by apply slot_of_Some).
    rewrite Hpool. cbn [deref]. rewrite outcome_bind_Ok. cbn [f_side].
    replace (match exp with Some e => bool_decide (s <> e) | None => false end) with false.
    2:{ destruct Hexp as [-> | ->]; [done|]. by rewrite bool_decide_eq_false_2 by tauto. }
    rewrite fail_if_false, outcome_bind_Ok.
    rewrite (check_walk_spec b s px (o :: os)) by (done || lia || (split; lia)).
    rewrite outcome_bind_Ok, !Z.eqb_refl. done.
Qed.

Definition orders_at (Q : Table) (p : Price) : Z :=
  Z.of_nat (length (Q Buy p)) + Z.of_nat (length (Q Sell p)).

Lemma check_ladder_spec b Q ls : forall i count,
  core b Q clean -> (forall s p, pos (Q s p)) -> 0 <= i ->
  (forall k lvl, ls !! k = Some lvl -> ladder_ b !z! (i + Z.of_nat k) = Some lvl) ->
  check_ladder i ls count b
  = Ok (count + sum_by (orders_at Q) (map (fun t => price_of t b) (seqZ i (lengthZ ls)))).
Proof.
  induction ls as [|lvl ls IH]; intros i count Hc Hpos Hi Hls; cbn [check_ladder].
  { cbn. by rewrite Z.add_0_r. }
  pose proof (Hls 0%nat lvl eq_refl) as Hl. rewrite Z.add_0_r in Hl.
  destruct (c_in _ _ _ Hc i (lookupZ_Some_bounds _ _ _ Hl)) as (s' & lvl' & Hs' & Hl' & He & Hop).
  rewrite Hl in Hl'. injection Hl' as <-.
  rewrite (core_price_at b Q clean i Hc (lookupZ_Some_bounds _ _ _ Hl)). cbn [deref]. rewrite outcome_bind_Ok.
  rewrite (check_level_spec b Q s') by (done || by left). rewrite outcome_bind_Ok.
  rewrite IH; [|done|done|lia|].
  2:{ intros k l Hkl. replace (i + 1 + Z.of_nat k) with (i + Z.of_nat (S k)) by lia. by apply Hls. }
  replace (lengthZ (lvl :: ls)) with (lengthZ ls + 1) by (unfold lengthZ; cbn; lia).
  rewrite (seqZ_cons i) by (pose proof (lengthZ_nonneg ls); lia).
  replace (Z.pred (lengthZ ls + 1)) with (lengthZ ls) by lia. replace (Z.succ i) with (i + 1) by lia.
  cbn [map sum_by]. f_equal. unfold orders_at at 2.
  destruct Hs' as [-> | ->]; cbn [opposite is_buy] in Hop; rewrite Hop; cbn [length]; lia.
Qed.

Lemma check_fallback_spec b Q s m : forall count,
  core b Q clean -> (forall s p, pos (Q s p)) -> valid_side s ->
  Forall (fun e => encodes (pool_ b) (own b) e.2 s e.1 (Q s e.1) /\ Q s e.1 <> []) m ->
  check_fallback s m count b
  = Ok (count + sum_by (fun e => Z.of_nat (length (Q s e.1))) m).
Proof.
  induction m as [|[p lvl] m IH]; intros count Hc Hpos Hs Hall; cbn [check_fallback].
  { cbn. by rewrite Z.add_0_r. }
  apply Forall_cons in Hall as [[He Hne] Hall]. cbn [fst snd] in *.
  pose proof (encodes_head _ _ _ _ _ _ (so_pool _ (c_slots _ _ _ Hc)) He) as Hh.
  destruct (Z.eqb_spec (l_head lvl) kNil) as [Hn|Hn]; [by apply Hh in Hn|].
  rewrite fail_if_false, outcome_bind_Ok, (check_level_spec b Q s) by (done || by right).
  rewrite outcome_bind_Ok, IH by done. cbn. f_equal. lia.
Qed.

Lemma level_ids_length sp s :
  Spec.wf sp ->
  sum_by (fun l => Z.of_nat (length (table sp s l.1))) (Spec.levels s sp)
  = Z.of_nat (length (Spec.level_ids (Spec.levels s sp))).
Proof.
  intros Hwf.
  rewrite (sum_by_ext _ (fun l => Z.of_nat (length l.2))).
  - induction (Spec.levels s sp) as [|[p os] ls IH]; [done|].
    rewrite Spec.level_ids_cons, length_app, length_map. cbn [sum_by snd]. lia.
  - apply Forall_forall. intros [p os] Hin. cbn. by destruct (table_elem _ _ _ _ Hwf Hin) as [-> _].
Qed.

Lemma fast_check_invariants_ok b sp :
  Rep b sp -> exists b', check_invariants b = Ok b' /\ Rep b' sp.
Proof.
  intros HR. pose proof (rep_core _ _ HR) as Hc. pose proof (rep_wf _ _ HR) as Hwf.
  assert (forall s p, pos (table sp s p)) as Hpos by (intros; by apply table_pos).
  assert (forall s, valid_side s -> Forall (fun e => encodes (pool_ b) (own b) e.2 s e.1
            (table sp s e.1) /\ table sp s e.1 <> []) (fallback s b)) as Hfb.
  { intros s Hs. apply Forall_and. split; [by apply fallback_encodes|]. apply Forall_forall.
    intros e He. apply (fallback_key b _ s e.1 Hc Hs). apply list_elem_of_fmap. by exists e. }
  unfold check_invariants.
  rewrite (check_ladder_spec b (table sp)); [|done|done|lia|].
  2:{ intros k lvl Hk. by rewrite Z.add_0_l, lookupZ_of_nat. }
  rewrite outcome_bind_Ok. change (fb_bids_ b) with (fallback Buy b).
  rewrite (check_fallback_spec b (table sp) Buy); [|done|done|by left|apply Hfb; by left].
  rewrite outcome_bind_Ok. change (fb_asks_ b) with (fallback Sell b).
  rewrite (check_fallback_spec b (table sp) Sell); [|done|done|by right|apply Hfb; by right].
  rewrite outcome_bind_Ok, oi_size_spec by apply Hc. fold (own b). rewrite (own_size b sp HR).
  fold (ladder_prices b).
  assert (0 + sum_by (orders_at (table sp)) (ladder_prices b)
     + sum_by (fun e => Z.of_nat (length (table sp Buy e.1))) (fallback Buy b)
     + sum_by (fun e => Z.of_nat (length (table sp Sell e.1))) (fallback Sell b)
     = Z.of_nat (length (Spec.ids sp))) as ->.
  { pose proof (side_sum b sp Buy (fun p => Z.of_nat (length (table sp Buy p))) HR) as H1.
    pose proof (side_sum b sp Sell (fun p => Z.of_nat (length (table sp Sell p))) HR) as H2.
    ospecialize (H1 _ _); [by left|by intros p ->|]. ospecialize (H2 _ _); [by right|by intros p ->|].
    cbv beta in H1, H2. rewrite level_ids_length in H1, H2 by done. unfold Spec.ids. rewrite length_app.
    change (Spec.bids sp) with (Spec.levels Buy sp). change (Spec.asks sp) with (Spec.levels Sell sp).
    assert (forall l, sum_by (orders_at (table sp)) l
      = sum_by (fun p => Z.of_nat (length (table sp Buy p))) l
        + sum_by (fun p => Z.of_nat (length (table sp Sell p))) l) as ->; [|lia].
    intros l. unfold orders_at. induction l as [|p l IH]; [done|]. cbn [sum_by]. rewrite IH. lia. }
  rewrite Z.eqb_refl. cbn [negb]. rewrite fail_if_false, outcome_bind_Ok.
  destruct (fast_best_bid_refines b sp HR) as (x & y & -> & HR1). cbn [deref]. rewrite outcome_bind_Ok.
  destruct (fast_best_ask_refines _ sp HR1) as (x' & y' & -> & HR2). cbn [deref]. rewrite outcome_bind_Ok.
  eexists. split; [|exact HR2]. pose proof (Spec.wf_uncrossed _ Hwf) as Hun.
  destruct (Spec.best Buy sp) as [pb|]; [|done]. destruct (Spec.best Sell sp) as [pa|]; [|done].
  specialize (Hun _ _ eq_refl eq_refl). by replace (pa <=? pb) with false by lia.
Qed.
End observe.

(** * The fast book implements the interface *)

Section instance.
Context {M : Type} `{OrderIndexLaws M}.

(** A positive tick, a ladder whose size is an [int], a band narrower than the
    range of a price, and room for the id index in memory. *)
Definition cfg_ok (cfg : Config) : Prop :=
  0 < tick cfg /\ 0 <= band_half_ticks cfg < 2 ^ 30 /\ half_band cfg < 2 ^ 62 /\
  0 <= expected_orders cfg < 2 ^ 58.

(** The calls a book of this configuration is defined for. *)
Definition call_ok (cfg : Config) (op : BookOp) : Prop := op_ok op /\ op_fits cfg op.

(** A 32-bit price is far below the prices a valid band cannot take. *)
Lemma narrow_fits cfg op : cfg_ok cfg -> op_narrow op -> op_fits cfg op.
Proof. intros (_ & _ & Hw & _). destruct op; cbn; lia. Qed.

Lemma narrow_calls cfg ops :
  cfg_ok cfg -> Forall op_ok ops -> Forall op_narrow ops -> Forall (call_ok cfg) ops.
Proof.
  intros Hc Hok Hn. apply Forall_and. split; [done|]. eapply Forall_impl; [exact Hn|].
  intros op. by apply narrow_fits.
Qed.

Lemma make_rep cfg (m : M) :
  cfg_ok cfg -> oi_ok m -> oi_model m = ∅ -> Rep (make cfg m) Spec.empty.
Proof.
  intros (Ht & Hh & Hw & _) Hok Hm.
  assert (forall s px, table Spec.empty s px = []) as Hq
    by (intros s px; unfold table, Spec.levels; by destruct (is_buy s)).
  assert (forall s, fallback s (make cfg m) = []) as Hf
    by (intros s; unfold fallback; by destruct (is_buy s)).
  constructor; [|apply Spec.empty_wf|done].
  constructor; cbn; try done; try lia.
  - constructor; cbn; unfold own; cbn; rewrite ?Hm; try done; try set_solver.
    constructor.
  - intros id. unfold own. cbn. rewrite Hm, lookup_empty. by intros [].
  - intros s _. rewrite Hf. constructor.
  - intros t Hr. unfold lengthZ in Hr. cbn in Hr. lia.
  - intros s px _ _. by rewrite Hf, Hq.
  - constructor; cbn; (done || lia).
  - intros s px _ Hne. by rewrite Hq in Hne.
Qed.

Definition FastBook_matching (e : FastBook M) : MatchingBook (FastBook M) := {|
  mb_empty := e; mb_step := step; mb_snapshot := snapshot; mb_log := listener_ |}.

Program Definition FastBook_refines (e : FastBook M)
    (He : Rep e Spec.empty) (Hl : listener_ e = [])
    : @RefinesSpec (FastBook M) (FastBook_matching e) := {|
  mb_rep := fun b sp => Rep b sp /\ cfg_ b = cfg_ e;
  mb_accepts := call_ok (cfg_ e); mb_capacity := Some kNil |}.
Next Obligation. done. Qed.
Next Obligation. done. Qed.
Next Obligation. intros e _ _ b sp [HR _]. apply HR. Qed.
Next Obligation.
  intros e _ _ op b sp r sp' evs [HR Hcf] [Hok Hfit] Hroom Hs. rewrite <- Hcf in Hfit.
  apply Z.ltb_lt in Hroom.
  destruct (fast_step_refines _ _ _ _ _ _ HR Hok Hfit Hroom Hs) as (b' & ? & ? & ? & ?).
  exists b'. split_and!; [done|done|congruence|done].
Qed.
Next Obligation. intros e _ _ b sp [HR _]. by apply fast_snapshot_refines. Qed.
End instance.
