(* ===== verification/BookClaims.v ===== *)
(** The two matching books, as wholes: the properties of command streams on
    the reference book and on the fast book with its hash index. *)

From S2P Require Import Prelude StdMap BookTypes BookSpec BookLaws MatchingBook ReferenceBook ReferenceBookRefines OrderIndex HashIndex HashIndexRefines LadderBook LadderLinks LadderInv LadderOps LadderMatch LadderBookRefines LadderObserve.

(** * Running the two books *)

(** [FastBook(listener, cfg)]: its index is built for twice the orders
    expected. *)
Definition fast_book (cfg : FastBook.Config) : option (FastBook.FastBook FlatMap.FlatMap) :=
  m ← FlatMap.make (u64 (FastBook.expected_orders cfg * 2));
  Some (FastBook.make cfg m).

Definition fast_run (cfg : FastBook.Config) (ops : list BookOp)
    : option (list OpResult * FastBook.FastBook FlatMap.FlatMap) :=
  b0 ← fast_book cfg; @run _ (FastBook_matching b0) ops b0.

Definition reference_run (ops : list BookOp)
    : option (list OpResult * OrderBook.OrderBook) :=
  run ops OrderBook.empty.

(** Fewer than 2^32 - 1 orders rest at once: the arena's slots are numbered by
    32-bit integers and [kNil] is not a slot. *)
Definition arena_suffices (ops : list BookOp) : bool :=
  within (Some FastBook.kNil) ops Spec.empty.

Lemma fast_book_make cfg :
  cfg_ok cfg -> exists b, fast_book cfg = Some b /\ LadderMatch.Rep b Spec.empty /\
    FastBook.listener_ b = [] /\ FastBook.cfg_ b = cfg.
Proof.
  intros Hc. pose proof Hc as (_ & _ & _ & He). unfold fast_book.
  rewrite (wrap_small 64) by (unfold fits; lia).
  destruct (make_model (FastBook.expected_orders cfg * 2)) as (m & -> & HI & Hm & _); [lia|].
  rewrite obind_Some. eexists. split; [done|]. split; [|done]. by apply make_rep.
Qed.

Lemma fast_run_spec cfg ops rs sp evs :
  cfg_ok cfg -> Forall (call_ok cfg) ops -> arena_suffices ops = true ->
  spec_run ops Spec.empty = (rs, sp, evs) ->
  exists b, fast_run cfg ops = Some (rs, b) /\ LadderMatch.Rep b sp /\
    FastBook.listener_ b = evs /\ FastBook.cfg_ b = cfg.
Proof.
  intros Hc Hok Hw Hs. destruct (fast_book_make cfg Hc) as (b0 & Hb0 & HR & Hl & Hcf).
  unfold fast_run. rewrite Hb0, obind_Some.
  destruct (@run_refines _ _ (FastBook_refines b0 HR Hl) ops b0 Spec.empty rs sp evs)
    as (b & Hb & [HRb Hcb] & Hlb); [done|cbn; by rewrite Hcf|exact Hw|done|].
  exists b. split_and!; [done|done| |congruence]. cbn in Hlb. by rewrite Hl in Hlb.
Qed.

Lemma reference_run_spec ops rs sp evs :
  Forall op_ok ops -> spec_run ops Spec.empty = (rs, sp, evs) ->
  exists b, reference_run ops = Some (rs, b) /\ ReferenceBookRefines.Rep b sp /\
    OrderBook.listener_ b = evs.
Proof.
  intros Hok Hs.
  destruct (run_refines (B := OrderBook.OrderBook) ops OrderBook.empty Spec.empty rs sp evs)
    as (b & Hb & HRb & Hlb); [exact mb_rep_empty|done|by apply within_unlimited|done|].
  by exists b.
Qed.

(** A book reached by a stream of commands represents some abstract book. *)
Lemma fast_reached cfg ops rs b :
  cfg_ok cfg -> Forall (call_ok cfg) ops -> arena_suffices ops = true ->
  fast_run cfg ops = Some (rs, b) ->
  exists sp, LadderMatch.Rep b sp /\ FastBook.cfg_ b = cfg.
Proof.
  intros Hc Hok Hw Hr. destruct (spec_run ops Spec.empty) as [[rs' sp] evs] eqn:Hs.
  destruct (fast_run_spec cfg ops _ _ _ Hc Hok Hw Hs) as (b' & Hb' & HR & _ & Hcf).
  rewrite Hr in Hb'. injection Hb' as _ <-. eauto.
Qed.

Lemma index_room (b : FastBook.FastBook FlatMap.FlatMap) sp :
  LadderMatch.Rep b sp -> FlatMap.size_ (FastBook.index_ b) < FastBook.kNil -> room sp.
Proof.
  intros HR Hsz. unfold room. rewrite <- (own_size b sp HR).
  change (FlatMap.size_ (FastBook.index_ b)) with (oi_size (FastBook.index_ b)) in Hsz.
  rewrite oi_size_spec in Hsz by apply HR. done.
Qed.

(** A concrete session used by the witnesses: bids inside and outside the
    band, a partly filled ask, a cancel and a replace. *)
Definition demo_cfg : FastBook.Config := FastBook.mkConfig 100 4 8.

Definition demo_ops : list BookOp :=
  [OpAdd 1 Buy 1000 10; OpAdd 2 Buy 1100 10; OpAdd 3 Buy 1100 20; OpAdd 4 Sell 1055 5;
   OpAdd 5 Sell 2050 7; OpAdd 6 Sell 1300 8; OpCancel 3 15; OpReplace 1 7 900 12].

Lemma demo_cfg_ok : cfg_ok demo_cfg.
Proof. unfold cfg_ok, half_band. cbn. lia. Qed.

Lemma demo_ops_ok : Forall op_ok demo_ops.
Proof.
  unfold demo_ops. repeat (constructor; [cbn; unfold valid_side, fits; lia || (split; [auto|lia])|]).
  constructor.
Qed.

Lemma demo_calls_ok : Forall (call_ok demo_cfg) demo_ops.
Proof.
  apply Forall_and. split; [exact demo_ops_ok|].
  unfold demo_ops. repeat (constructor; [unfold op_fits, half_band; cbn; (lia || exact I)|]). constructor.
Qed.

Lemma calls_ops_ok cfg ops : Forall (call_ok cfg) ops -> Forall op_ok ops.
Proof. intros Hok. by apply Forall_and in Hok as [Hok _]. Qed.

Lemma demo_fits : arena_suffices demo_ops = true.
Proof. vm_compute. reflexivity. Qed.

(** * Equivalence and refinement *)

(** C1: The fast book has the exact semantics of the reference book. For every
    valid configuration (a positive tick and a band narrower than 2^62 on each
    side) and every stream of commands that never holds more orders than the
    arena has slots and whose prices stay at least half a band below INT64_MAX,
    both books answer every command (in particular no price difference
    overflows), with the same results; they make the same calls on their
    listeners in the same order; and they end with the same snapshot and the
    same best prices. *)
Theorem fast_book_equals_reference cfg ops :
  cfg_ok cfg -> Forall (call_ok cfg) ops -> arena_suffices ops = true ->
  exists rs bf br sn bf1 bf2,
    fast_run cfg ops = Some (rs, bf) /\ reference_run ops = Some (rs, br) /\
    FastBook.listener_ bf = OrderBook.listener_ br /\
    FastBook.snapshot bf = Some sn /\ OrderBook.snapshot br = Some sn /\
    FastBook.best_bid bf = Some (OrderBook.best_bid br, bf1) /\
    FastBook.best_ask bf = Some (OrderBook.best_ask br, bf2).
Proof.
  intros Hc Hok Hw. destruct (spec_run ops Spec.empty) as [[rs sp] evs] eqn:Hs.
  destruct (fast_run_spec cfg ops rs sp evs Hc Hok Hw Hs) as (bf & Hbf & HRf & Hlf & _).
  destruct (reference_run_spec ops rs sp evs (calls_ops_ok _ _ Hok) Hs) as (br & Hbr & HRr & Hlr).
  destruct (fast_best_bid_refines bf sp HRf) as (x & y & Hbid & _).
  destruct (fast_best_ask_refines bf sp HRf) as (x' & y' & Hask & _).
  rewrite <- (best_rep br sp Buy HRr) in Hbid by (by left).
  rewrite <- (best_rep br sp Sell HRr) in Hask by (by right).
  eexists rs, bf, br, (Spec.to_snapshot sp), _, _. split_and!; [done|done|congruence| | | |].
  - by apply fast_snapshot_refines.
  - by apply snapshot_refines.
  - rewrite Hbid. cbn. do 2 f_equal. unfold OrderBook.best_bid. by destruct (OrderBook.bids_ br) as [|[]].
  - rewrite Hask. cbn. do 2 f_equal. unfold OrderBook.best_ask. by destruct (OrderBook.asks_ br) as [|[]].
Qed.

Lemma fast_book_equals_reference_witness :
  exists rs bf br, fast_run demo_cfg demo_ops = Some (rs, bf) /\
    reference_run demo_ops = Some (rs, br) /\
    FastBook.listener_ bf = OrderBook.listener_ br.
Proof.
  destruct (fast_book_equals_reference demo_cfg demo_ops demo_cfg_ok demo_calls_ok demo_fits)
    as (rs & bf & br & sn & bf1 & bf2 & H1 & H2 & H3 & _).
  exists rs, bf, br. split; [exact H1|]. split; [exact H2|exact H3].
Defined.

(** C15: Every command stream on the reference book returns, with the results,
    the listener calls and the final snapshot of the abstract book of
    price-sorted FIFO queues: no iterator dangles and no lookup fails. *)
Theorem reference_book_refines ops rs sp evs :
  Forall op_ok ops -> spec_run ops Spec.empty = (rs, sp, evs) ->
  exists b, reference_run ops = Some (rs, b) /\ OrderBook.listener_ b = evs /\
    OrderBook.snapshot b = Some (Spec.to_snapshot sp).
Proof.
  intros Hok Hs. destruct (reference_run_spec ops rs sp evs Hok Hs) as (b & Hb & HR & Hl).
  exists b. split_and!; [done|done|]. by apply snapshot_refines.
Qed.

Lemma reference_book_refines_witness :
  exists b, reference_run demo_ops = Some ((spec_run demo_ops Spec.empty).1.1, b) /\
    OrderBook.listener_ b = (spec_run demo_ops Spec.empty).2.
Proof.
  destruct (reference_book_refines demo_ops (spec_run demo_ops Spec.empty).1.1
              (spec_run demo_ops Spec.empty).1.2 (spec_run demo_ops Spec.empty).2
              demo_ops_ok) as (b & H1 & H2 & _); [vm_compute; reflexivity|].
  exists b. split; [exact H1|exact H2].
Defined.

(** * Self checks *)

(** On every reachable state of the reference book [check_invariants]
    returns without throwing: totals, index, sides and prices agree and the
    book is not crossed or locked. *)
Theorem reference_self_check_passes ops rs b :
  Forall op_ok ops -> reference_run ops = Some (rs, b) ->
  OrderBook.check_invariants b = Ok tt.
Proof.
  intros Hok Hr. destruct (spec_run ops Spec.empty) as [[rs' sp] evs] eqn:Hs.
  destruct (reference_run_spec ops _ _ _ Hok Hs) as (b' & Hb' & HR & _).
  rewrite Hr in Hb'. injection Hb' as _ <-. by eapply check_invariants_ok.
Qed.

Definition demo_reference : OrderBook.OrderBook :=
  match reference_run demo_ops with Some (_, b) => b | None => OrderBook.empty end.

Lemma reference_self_check_passes_witness :
  OrderBook.check_invariants demo_reference = Ok tt.
Proof.
  apply (reference_self_check_passes demo_ops (spec_run demo_ops Spec.empty).1.1);
    [exact demo_ops_ok|vm_compute; reflexivity].
Defined.

(** On every reachable state of the fast book [check_invariants] returns
    without throwing and without reading outside the arena: links, totals,
    index, fallback maps and cursors agree and the book is not crossed. *)
Theorem fast_self_check_passes cfg ops rs b :
  cfg_ok cfg -> Forall (call_ok cfg) ops -> arena_suffices ops = true ->
  fast_run cfg ops = Some (rs, b) ->
  exists b', FastBook.check_invariants b = Ok b'.
Proof.
  intros Hc Hok Hw Hr. destruct (fast_reached cfg ops rs b Hc Hok Hw Hr) as (sp & HR & Hcf).
  destruct (fast_check_invariants_ok b sp HR) as (b' & Hb' & _). eauto.
Qed.

Definition fast_demo (cfg : FastBook.Config) (ops : list BookOp)
    : list OpResult * FastBook.FastBook FlatMap.FlatMap :=
  match fast_run cfg ops with
  | Some r => r
  | None => ([], FastBook.make cfg (FlatMap.mkMap [] 0))
  end.

Lemma demo_runs : fast_run demo_cfg demo_ops
  = Some ((fast_demo demo_cfg demo_ops).1, (fast_demo demo_cfg demo_ops).2).
Proof. vm_compute. reflexivity. Qed.

Lemma fast_self_check_passes_witness :
  exists b', FastBook.check_invariants (fast_demo demo_cfg demo_ops).2 = Ok b'.
Proof.
  apply (fast_self_check_passes demo_cfg demo_ops (fast_demo demo_cfg demo_ops).1);
    [exact demo_cfg_ok|exact demo_calls_ok|exact demo_fits|exact demo_runs].
Defined.

(** * Market rules, seen through the fast book's interface *)

(** The levels of one side of a snapshot, best price first. *)
Definition snap_levels (s : Side) (sn : BookSnapshot) : Spec.Levels :=
  map (fun l => (sl_price l, sl_orders l)) (if is_buy s then bs_bids sn else bs_asks sn).

Lemma snap_levels_spec s sp : snap_levels s (Spec.to_snapshot sp) = Spec.levels s sp.
Proof.
  unfold snap_levels, Spec.to_snapshot, Spec.levels. destruct (is_buy s); cbn;
    rewrite map_map; cbn; rewrite <- (map_id (_ sp)) at 2; apply map_ext; by intros [].
Qed.

(** Open shares shown by a snapshot. *)
Definition snap_shares (sn : BookSnapshot) : Z :=
  side_shares (snap_levels Buy sn) + side_shares (snap_levels Sell sn).

Lemma snap_shares_spec sp : snap_shares (Spec.to_snapshot sp) = open_shares sp.
Proof. unfold snap_shares. by rewrite !snap_levels_spec. Qed.

(** After any stream of commands the fast book is neither crossed nor
    locked: its best bid is below its best ask. *)
Theorem fast_book_never_crossed cfg ops rs b bid ask b1 b2 :
  cfg_ok cfg -> Forall (call_ok cfg) ops -> arena_suffices ops = true ->
  fast_run cfg ops = Some (rs, b) ->
  FastBook.best_bid b = Some (Some bid, b1) -> FastBook.best_ask b = Some (Some ask, b2) ->
  bid < ask.
Proof.
  intros Hc Hok Hw Hr Hbid Hask. destruct (fast_reached cfg ops rs b Hc Hok Hw Hr) as (sp & HR & Hcf).
  destruct (fast_best_bid_refines b sp HR) as (x & y & Hb & _).
  destruct (fast_best_ask_refines b sp HR) as (x' & y' & Ha & _).
  rewrite Hbid in Hb. rewrite Hask in Ha. injection Hb as Hb _. injection Ha as Ha _.
  by apply (Spec.wf_uncrossed _ (LadderMatch.rep_wf _ _ HR)).
Qed.

Lemma fast_book_never_crossed_witness : 1100 < 1300.
Proof.
  apply (fast_book_never_crossed demo_cfg demo_ops (fast_demo demo_cfg demo_ops).1
           (fast_demo demo_cfg demo_ops).2 1100 1300
           (match FastBook.best_bid (fast_demo demo_cfg demo_ops).2 with
            | Some (_, b) => b | None => (fast_demo demo_cfg demo_ops).2 end)
           (match FastBook.best_ask (fast_demo demo_cfg demo_ops).2 with
            | Some (_, b) => b | None => (fast_demo demo_cfg demo_ops).2 end));
    [exact demo_cfg_ok|exact demo_calls_ok|exact demo_fits|exact demo_runs
    |vm_compute; reflexivity|vm_compute; reflexivity].
Defined.

(** What an accepted order does, in terms of the snapshot before it: the
    shares filled, the listener calls, and the opposite queue afterwards. *)
Definition accepted_effect (id : OrderId) (side : Side) (px : Price) (qty : Qty) (mid : Z)
    (sn sn' : BookSnapshot) (r : AddResult) (evs : list BookEvent) : Prop :=
  let queue := priority side px (snap_levels (opposite side) sn) in
  let filled := Z.min qty (queue_shares queue) in
  r = mkAddResult AddOk filled (qty - filled) /\
  evs = allocate id side qty mid queue ++
        (if qty - filled =? 0 then [] else [on_added (mkAdded id side px (qty - filled))]) /\
  priority side px (snap_levels (opposite side) sn') = drop_shares qty queue.

Lemma accepted_spec id side px qty sp r sp' evs :
  Spec.wf sp -> valid_side side -> 0 < px -> 0 < qty -> Spec.contains id sp = false ->
  Spec.add id side px qty sp = (r, sp', evs) ->
  accepted_effect id side px qty (Spec.next_match sp) (Spec.to_snapshot sp)
    (Spec.to_snapshot sp') r evs.
Proof.
  intros Hwf Hs Hpx Hq Hc Ha. unfold accepted_effect. rewrite !snap_levels_spec.
  unfold Spec.add, Spec.enter in Ha. rewrite Hc in Ha.
  replace (px <=? 0) with false in Ha by lia. replace (qty =? 0) with false in Ha by lia.
  destruct (Spec.match_ _ _ _ _ _) as [[sp1 rem] ev] eqn:Hm.
  apply match_priority in Hm as (-> & -> & Hd & _); [|done|lia].
  rewrite <- available_priority. set (avail := Spec.available side px sp) in *.
  replace (qty - (qty - Z.min qty avail)) with (Z.min qty avail) in * by lia.
  destruct (Z.eqb_spec (qty - Z.min qty avail) 0); simplify_eq; cbn zeta.
  - rewrite app_nil_r. split_and!; [do 2 f_equal; lia|done|done].
  - split_and!; [do 2 f_equal; lia|done|].
    unfold Spec.rest. autorewrite with spec. done.
Qed.

(** C6: Price-time priority. On every reachable fast book, an order with a
    fresh id, a positive quantity and a positive price that is at least half a
    band below INT64_MAX is accepted; it trades exactly with the crossing orders of the opposite side, best price first
    and first come first served, each one filled completely before the next
    is touched, at the resting order's price and with consecutive match
    numbers; the unfilled rest and only that is added to the book; and what
    remains of the opposite queue is that queue without the traded shares. *)
Theorem fast_price_time_priority cfg ops rs b id side px qty :
  cfg_ok cfg -> Forall (call_ok cfg) ops -> arena_suffices ops = true ->
  fast_run cfg ops = Some (rs, b) ->
  valid_side side -> 0 < px -> px + half_band cfg < 2 ^ 63 -> 0 < qty < 2 ^ 32 ->
  FastBook.contains id b = Some false ->
  FlatMap.size_ (FastBook.index_ b) < FastBook.kNil ->
  exists r b' sn sn' evs,
    FastBook.add id side px qty b = Some (r, b') /\
    FastBook.snapshot b = Some sn /\ FastBook.snapshot b' = Some sn' /\
    FastBook.listener_ b' = FastBook.listener_ b ++ evs /\
    accepted_effect id side px qty (FastBook.next_match_id_ b) sn sn' r evs.
Proof.
  intros Hc Hok Hw Hr Hs Hpx Hfit Hq Hcon Hroom.
  destruct (fast_reached cfg ops rs b Hc Hok Hw Hr) as (sp & HR & Hcf).
  rewrite (fast_contains_refines id b sp HR) in Hcon. injection Hcon as Hcon.
  destruct (Spec.add id side px qty sp) as [[r sp'] evs] eqn:Ha.
  pose proof (index_room b sp HR Hroom) as Hrm.
  destruct (fast_add_refines id side px qty b sp r sp' evs) as (b' & Hb' & HR' & Hl & _);
    [done|done|unfold fits; lia|done|by rewrite Hcf|done|].
  exists r, b', (Spec.to_snapshot sp), (Spec.to_snapshot sp'), evs.
  split_and!; [done|by apply fast_snapshot_refines|by apply fast_snapshot_refines|done|].
  rewrite (LadderMatch.rep_match _ _ HR). apply accepted_spec; try done; [apply HR|lia].
Qed.

Lemma fast_price_time_priority_witness :
  exists r b' sn sn' evs,
    FastBook.add 20 Sell 950 30 (fast_demo demo_cfg demo_ops).2 = Some (r, b') /\
    FastBook.snapshot (fast_demo demo_cfg demo_ops).2 = Some sn /\
    FastBook.snapshot b' = Some sn' /\
    FastBook.listener_ b' = FastBook.listener_ (fast_demo demo_cfg demo_ops).2 ++ evs /\
    accepted_effect 20 Sell 950 30
      (FastBook.next_match_id_ (fast_demo demo_cfg demo_ops).2) sn sn' r evs.
Proof.
  apply (fast_price_time_priority demo_cfg demo_ops (fast_demo demo_cfg demo_ops).1);
    [exact demo_cfg_ok|exact demo_calls_ok|exact demo_fits|exact demo_runs
    |right; reflexivity|lia|vm_compute; reflexivity|lia|vm_compute; reflexivity|vm_compute; reflexivity].
Defined.

(** C18: Shares are conserved. On a reachable fast book [add] answers, for
    every id, price at least half a band below INT64_MAX and quantity; the
    executed quantities it reports to the listener sum to [filled]; an
    accepted order is split into what filled and what rests, and the open
    shares shown by the snapshot fall by the former and rise by the latter; a
    rejected order changes nothing. *)
Theorem fast_add_conserves_shares cfg ops rs b id side px qty :
  cfg_ok cfg -> Forall (call_ok cfg) ops -> arena_suffices ops = true ->
  fast_run cfg ops = Some (rs, b) -> valid_side side -> fits 32 qty ->
  px + half_band cfg < 2 ^ 63 -> FlatMap.size_ (FastBook.index_ b) < FastBook.kNil ->
  exists r b' sn sn' evs,
    FastBook.add id side px qty b = Some (r, b') /\
    FastBook.snapshot b = Some sn /\ FastBook.snapshot b' = Some sn' /\
    FastBook.listener_ b' = FastBook.listener_ b ++ evs /\
    sum_by executed evs = ar_filled r /\
    snap_shares sn' = snap_shares sn - ar_filled r + ar_resting r /\
    match ar_status r with
    | AddOk => ar_filled r + ar_resting r = qty
    | _ => ar_filled r = 0 /\ ar_resting r = 0 /\ evs = [] /\ sn' = sn
    end.
Proof.
  intros Hc Hok Hw Hr Hs Hq Hfit Hroom.
  destruct (fast_reached cfg ops rs b Hc Hok Hw Hr) as (sp & HR & Hcf).
  pose proof (index_room b sp HR Hroom) as Hrm.
  destruct (Spec.add id side px qty sp) as [[r1 sp'] evs] eqn:Ha.
  rewrite <- Hcf in Hfit.
  destruct (fast_add_refines id side px qty b sp r1 sp' evs HR Hs Hq Hrm Hfit Ha) as (b1 & Hb1 & HR' & Hl & _).
  exists r1, b1, (Spec.to_snapshot sp), (Spec.to_snapshot sp'), evs. rewrite !snap_shares_spec.
  do 4 (split; [first [by apply fast_snapshot_refines|done]|]).
  unfold Spec.add in Ha. repeat case_match; simplify_eq; cbn; try (split_and!; (done || lia)).
  match goal with H : Spec.enter _ _ _ _ _ = _ |- _ =>
    apply enter_conserves in H as [-> ->]; [|apply HR|apply Hq] end.
  split_and!; lia.
Qed.

Lemma fast_add_conserves_shares_witness :
  exists r b' sn sn' evs,
    FastBook.add 20 Sell 1100 23 (fast_demo demo_cfg demo_ops).2 = Some (r, b') /\
    FastBook.snapshot (fast_demo demo_cfg demo_ops).2 = Some sn /\
    sum_by executed evs = ar_filled r /\
    snap_shares sn' = snap_shares sn - ar_filled r + ar_resting r.
Proof.
  destruct (fast_add_conserves_shares demo_cfg demo_ops (fast_demo demo_cfg demo_ops).1
              (fast_demo demo_cfg demo_ops).2 20 Sell 1100 23)
    as (r & b' & sn & sn' & evs & H0 & H1 & _ & _ & H2 & H3 & _);
    [exact demo_cfg_ok|exact demo_calls_ok|exact demo_fits|exact demo_runs
    |right; reflexivity|split; lia|vm_compute; reflexivity|vm_compute; reflexivity|].
  exists r, b', sn, sn', evs. split; [exact H0|]. split; [exact H1|]. split; [exact H2|exact H3].
Defined.

(** ** The range of prices *)

(** A price beyond the reach of the band is above every bid. *)
Lemma no_bid_crosses (b : FastBook.FastBook FlatMap.FlatMap) sp px p :
  LadderMatch.Rep b sp -> FastBook.band_set_ b = true -> 2 ^ 63 + FastBook.base_ b <= px ->
  LadderMatch.table sp Buy p <> [] -> p < px.
Proof.
  intros HR Hb Hpx Hne. pose proof (LadderMatch.rep_core _ _ HR) as Hc.
  destruct (c_prices _ _ _ Hc Buy p (or_introl eq_refl) Hne) as [_ Hp].
  destruct (bf_base _ (c_fits _ _ _ Hc) Hb) as [[Hb1 _] _]. lia.
Qed.

Lemma match_no_cross (b : FastBook.FastBook FlatMap.FlatMap) sp id px qty :
  LadderMatch.Rep b sp -> 0 < qty < 2 ^ 32 ->
  (forall p, LadderMatch.table sp Buy p <> [] -> p < px) ->
  exists x y, FastBook.match_ id Sell px qty b = Some (0, FastBook.set_cursors x y b).
Proof.
  intros HR Hq Hx. unfold FastBook.match_. rewrite match_loop_step.
  replace (0 <? qty) with true by lia. cbn [negb opposite is_buy].
  destruct (best_level_spec b (LadderMatch.table sp) Buy (LadderMatch.rep_core _ _ HR))
    as (r & x & y & Hbl & _ & Hr); [by left|].
  rewrite Hbl, obind_Some. exists x, y. destruct r as [[[p ref] fb]|]; [|done].
  destruct Hr as ([Hne _] & _). specialize (Hx p Hne). unfold crosses. cbn [is_buy].
  by replace (px <=? p) with false by lia.
Qed.

Lemma spec_match_no_cross sp id px qty :
  Spec.wf sp -> (forall p, LadderMatch.table sp Buy p <> [] -> p < px) ->
  Spec.match_ id Sell px qty sp = (sp, qty, []).
Proof.
  intros Hwf Hx. unfold Spec.match_. cbn [opposite is_buy].
  destruct (Spec.levels Buy sp) as [|[p os] ls] eqn:Hl; cbn [Spec.fill_levels].
  - by rewrite <- Hl, set_levels_same.
  - destruct (table_elem sp Buy p os Hwf) as [Ht Hne]; [rewrite Hl; set_solver|].
    assert (p < px) as Hp by (apply Hx; by rewrite Ht).
    unfold crosses. cbn [is_buy]. replace (px <=? p) with false by lia. cbn [negb].
    rewrite orb_true_r. by rewrite <- Hl, set_levels_same.
Qed.

(** Prices near INT64_MAX overflow. On every reachable fast book whose band
    is set, a sell order with a fresh id, a positive quantity and a price of
    at least 2^63 plus the base of the band (such prices exist whenever the
    first order rested within half a band of zero) has no defined behaviour:
    it does not cross, so [rest] subtracts the negative base from the price
    and the int64 difference overflows. The reference book accepts the same
    order after the same commands. *)
Theorem fast_price_overflow cfg ops rs b id px qty :
  cfg_ok cfg -> Forall (call_ok cfg) ops -> arena_suffices ops = true ->
  fast_run cfg ops = Some (rs, b) -> FastBook.band_set_ b = true ->
  2 ^ 63 + FastBook.base_ b <= px < 2 ^ 63 -> 0 < qty < 2 ^ 32 ->
  FastBook.contains id b = Some false ->
  FastBook.add id Sell px qty b = None /\
  exists br, reference_run (ops ++ [OpAdd id Sell px qty])
    = Some (rs ++ [RAdd (mkAddResult AddOk 0 qty)], br).
Proof.
  intros Hc Hok Hw Hr Hb Hpx Hq Hcon.
  destruct (spec_run ops Spec.empty) as [[rs' sp] evs] eqn:Hs.
  destruct (fast_run_spec cfg ops _ _ _ Hc Hok Hw Hs) as (b' & Hb' & HR & _ & Hcf).
  rewrite Hr in Hb'. injection Hb' as -> <-.
  pose proof (fun p => no_bid_crosses b sp px p HR Hb (proj1 Hpx)) as Hx.
  assert (0 < px) as Hpos.
  { destruct (bf_base _ (c_fits _ _ _ (LadderMatch.rep_core _ _ HR)) Hb) as [[? _] _].
    pose proof (bf_width _ (c_fits _ _ _ (LadderMatch.rep_core _ _ HR))). lia. }
  split.
  - unfold FastBook.add. replace (px <=? 0) with false by lia. replace (qty =? 0) with false by lia.
    rewrite Hcon, obind_Some. destruct (match_no_cross b sp id px qty HR Hq Hx) as (x & y & Hm).
    unfold FastBook.match_and_rest. rewrite Hm, obind_Some, Z.sub_0_r, wrap_small by (unfold fits; lia).
    replace (0 <? qty) with true by lia. unfold FastBook.rest, FastBook.set_band, FastBook.level_for, FastBook.tick_index.
    cbn [FastBook.band_set_ FastBook.set_cursors FastBook.base_]. rewrite Hb, obind_Some. cbn [negb FastBook.band_set_ FastBook.set_cursors].
    rewrite Hb. cbn [negb]. change (FastBook.base_ (FastBook.set_cursors x y b)) with (FastBook.base_ b).
    by rewrite int64_overflow by lia.
  - rewrite (fast_contains_refines id b sp HR) in Hcon. injection Hcon as Hcon.
    assert (Spec.match_ id Sell px qty sp = (sp, qty, [])) as Hm by (apply spec_match_no_cross; [apply HR|done]).
    destruct (reference_run_spec (ops ++ [OpAdd id Sell px qty]) (rs' ++ [RAdd (mkAddResult AddOk 0 qty)])
      (Spec.rest id Sell px qty sp) (evs ++ [on_added (mkAdded id Sell px qty)])) as (br & Hbr & _).
    + apply Forall_app. split; [by apply (calls_ops_ok cfg)|]. constructor; [|constructor].
      split; [by right|unfold fits; lia].
    + eapply spec_run_app; [exact Hs|]. cbn. unfold Spec.add, Spec.enter. replace (px <=? 0) with false by lia.
      replace (qty =? 0) with false by lia. rewrite Hcon, Hm. cbn. replace (qty =? 0) with false by lia.
      by rewrite Z.sub_diag, app_nil_r.
    + eauto.
Qed.

(** The first order rests at 100, so the band starts below zero. *)
Definition low_ops : list BookOp := [OpAdd 1 Buy 100 1].

Lemma low_calls_ok : Forall (call_ok demo_cfg) low_ops.
Proof.
  constructor; [|constructor]. split; [split; [left; reflexivity|split; lia]|].
  unfold op_fits, half_band. cbn. lia.
Qed.

Lemma fast_price_overflow_witness :
  FastBook.add 2 Sell (2 ^ 63 - 1) 1 (fast_demo demo_cfg low_ops).2 = None.
Proof.
  refine (proj1 (fast_price_overflow demo_cfg low_ops (fast_demo demo_cfg low_ops).1
    (fast_demo demo_cfg low_ops).2 2 (2 ^ 63 - 1) 1 demo_cfg_ok low_calls_ok _ _ _ _ _ _));
    [vm_compute; reflexivity|vm_compute; reflexivity|vm_compute; reflexivity| |lia|vm_compute; reflexivity].
  replace (FastBook.base_ (fast_demo demo_cfg low_ops).2) with (-300) by (vm_compute; reflexivity). lia.
Defined.

(** * Fill-or-kill gating *)

(** The shares on the crossing levels of a snapshot. *)
Definition snap_available (side : Side) (limit : Price) (sn : BookSnapshot) : Z :=
  queue_shares (priority side limit (snap_levels (opposite side) sn)).

Lemma snap_available_spec side limit sp :
  snap_available side limit (Spec.to_snapshot sp) = Spec.available side limit sp.
Proof. unfold snap_available. by rewrite snap_levels_spec, available_priority. Qed.

Lemma available_nonneg side limit sp : Spec.wf sp -> 0 <= Spec.available side limit sp.
Proof.
  intros Hwf. rewrite available_priority. apply priority_shares_nonneg, Hwf.
Qed.

(** [matchable] is the crossing quantity of the snapshot reduced modulo
    2^32, and reading it changes nothing but the cursors: the snapshot and
    the listener calls stay as they were. *)
Theorem fast_matchable_modulo cfg ops rs b side limit :
  cfg_ok cfg -> Forall (call_ok cfg) ops -> arena_suffices ops = true ->
  fast_run cfg ops = Some (rs, b) -> valid_side side ->
  exists sn b', FastBook.snapshot b = Some sn /\
    FastBook.matchable side limit b = Some (snap_available side limit sn mod 2 ^ 32, b') /\
    FastBook.snapshot b' = Some sn /\ FastBook.listener_ b' = FastBook.listener_ b.
Proof.
  intros Hc Hok Hw Hr Hs. destruct (fast_reached cfg ops rs b Hc Hok Hw Hr) as (sp & HR & Hcf).
  destruct (matchable_refines side limit b sp HR Hs) as (x & y & Hm & HR').
  eexists (Spec.to_snapshot sp), _. rewrite snap_available_spec.
  split_and!; [by apply fast_snapshot_refines|exact Hm|by apply fast_snapshot_refines|done].
Qed.

Lemma fast_matchable_modulo_witness :
  exists sn b', FastBook.snapshot (fast_demo demo_cfg demo_ops).2 = Some sn /\
    FastBook.matchable Buy 1300 (fast_demo demo_cfg demo_ops).2
      = Some (snap_available Buy 1300 sn mod 2 ^ 32, b').
Proof.
  destruct (fast_matchable_modulo demo_cfg demo_ops (fast_demo demo_cfg demo_ops).1
              (fast_demo demo_cfg demo_ops).2 Buy 1300)
    as (sn & b' & H1 & H2 & _);
    [exact demo_cfg_ok|exact demo_calls_ok|exact demo_fits|exact demo_runs|left; reflexivity|].
  exists sn, b'. split; [exact H1|exact H2].
Defined.

(** Immediate-or-cancel. [execute_ioc] fills the smaller of the quantity
    and the crossing shares, by strict priority, and never rests anything:
    the order's own side of the snapshot is unchanged and the listener only
    hears executions. When [matchable] admits the quantity, the fill is
    complete, so the gate for minimum-quantity and fill-or-kill orders never
    lets an order through that then falls short. *)
Theorem fast_ioc_fills_without_resting cfg ops rs b id side limit qty :
  cfg_ok cfg -> Forall (call_ok cfg) ops -> arena_suffices ops = true ->
  fast_run cfg ops = Some (rs, b) -> valid_side side -> fits 32 qty ->
  exists sn filled b' sn' gate bm,
    FastBook.snapshot b = Some sn /\
    FastBook.execute_ioc id side limit qty b = Some (filled, b') /\
    FastBook.snapshot b' = Some sn' /\
    filled = Z.min qty (snap_available side limit sn) /\
    FastBook.listener_ b' = FastBook.listener_ b ++
      allocate id side qty (FastBook.next_match_id_ b)
        (priority side limit (snap_levels (opposite side) sn)) /\
    snap_levels side sn' = snap_levels side sn /\
    FastBook.matchable side limit b = Some (gate, bm) /\ (qty <= gate -> filled = qty).
Proof.
  intros Hc Hok Hw Hr Hs Hq. destruct (fast_reached cfg ops rs b Hc Hok Hw Hr) as (sp & HR & Hcf).
  pose proof (LadderMatch.rep_wf _ _ HR) as Hwf.
  destruct (matchable_refines side limit b sp HR Hs) as (x & y & Hm & _).
  destruct (Spec.execute_ioc id side limit qty sp) as [[filled sp'] evs] eqn:Hx.
  destruct (fast_execute_ioc_refines _ _ _ _ _ _ _ _ _ HR Hs Hq Hx) as (b' & Hb' & HR' & Hl & _).
  unfold Spec.execute_ioc in Hx. destruct (Spec.match_ _ _ _ _ _) as [[sp1 rem] ev] eqn:Hmt.
  injection Hx as <- <- <-.
  apply match_priority in Hmt as (-> & -> & _ & Hlv); [|done|apply Hq].
  eexists (Spec.to_snapshot sp), _, b', (Spec.to_snapshot sp1), _, _.
  rewrite snap_available_spec, !snap_levels_spec, (LadderMatch.rep_match _ _ HR).
  split_and!; [by apply fast_snapshot_refines|exact Hb'|by apply fast_snapshot_refines| |done|done|exact Hm|].
  - lia.
  - intros Hle. pose proof (available_nonneg side limit sp Hwf) as Hnn. unfold fits in Hq.
    pose proof (Z.mod_le (Spec.available side limit sp) (2 ^ 32) Hnn ltac:(lia)).
    unfold wrap in Hle. lia.
Qed.

Lemma fast_ioc_fills_without_resting_witness :
  exists sn filled b', FastBook.snapshot (fast_demo demo_cfg demo_ops).2 = Some sn /\
    FastBook.execute_ioc 30 Sell 1000 40 (fast_demo demo_cfg demo_ops).2 = Some (filled, b') /\
    filled = Z.min 40 (snap_available Sell 1000 sn).
Proof.
  destruct (fast_ioc_fills_without_resting demo_cfg demo_ops (fast_demo demo_cfg demo_ops).1
              (fast_demo demo_cfg demo_ops).2 30 Sell 1000 40)
    as (sn & filled & b' & sn' & gate & bm & H1 & H2 & _ & H3 & _);
    [exact demo_cfg_ok|exact demo_calls_ok|exact demo_fits|exact demo_runs|right; reflexivity
    |split; lia|].
  exists sn, filled, b'. split; [exact H1|]. split; [exact H2|exact H3].
Defined.

(** * Cancels and the queue *)

(** A snapshot with the open quantity of order [id] set to [q], all orders in
    their places. *)
Definition snap_set_qty (id : OrderId) (q : Qty) (sn : BookSnapshot) : BookSnapshot :=
  let f l := mkSnapLevel (sl_price l) (Spec.set_qty id q (sl_orders l)) in
  mkSnapshot (map f (bs_bids sn)) (map f (bs_asks sn)).

(** A snapshot without order [id] and without the level it leaves empty. *)
Definition snap_drop (id : OrderId) (sn : BookSnapshot) : BookSnapshot :=
  let f ls := filter (fun l => sl_orders l <> [])
                (map (fun l => mkSnapLevel (sl_price l) (Spec.drop_id id (sl_orders l))) ls) in
  mkSnapshot (f (bs_bids sn)) (f (bs_asks sn)).

(** The open quantity a snapshot shows for an order. *)
Definition snap_find (id : OrderId) (sn : BookSnapshot) : option Qty :=
  Spec.find_queue id (concat (map sl_orders (bs_bids sn ++ bs_asks sn))).

Lemma find_queue_app id os1 os2 :
  Spec.find_queue id (os1 ++ os2)
  = match Spec.find_queue id os1 with Some q => Some q | None => Spec.find_queue id os2 end.
Proof. induction os1 as [|o os1 IH]; cbn; [done|]. destruct (so_id o =? id); [done|apply IH]. Qed.

Lemma find_queue_levels id ls :
  Spec.find_queue id (concat (map (fun p : Price * list SnapshotOrder => p.2) ls))
  = snd <$> Spec.find_levels id ls.
Proof.
  induction ls as [|[p os] ls IH]; [done|]. cbn. rewrite find_queue_app.
  destruct (Spec.find_queue id os); [done|]. apply IH.
Qed.

Lemma snap_find_spec id sp :
  snap_find id (Spec.to_snapshot sp) = snd <$> Spec.find_order id sp.
Proof.
  unfold snap_find, Spec.to_snapshot, Spec.find_order. cbn [bs_bids bs_asks].
  rewrite map_app, !map_map, concat_app, find_queue_app. cbn [sl_orders].
  change (fun x : Price * list SnapshotOrder => x.2) with
    (fun p : Price * list SnapshotOrder => p.2). rewrite !find_queue_levels.
  destruct (Spec.find_levels id (Spec.bids sp)) as [[p q]|]; [done|].
  by destruct (Spec.find_levels id (Spec.asks sp)) as [[p q]|].
Qed.

Lemma levels_unchanged s id f ls :
  (forall os, id ∉ ids_of os -> f os = os) -> Spec.levels_ok s ls -> id ∉ Spec.level_ids ls ->
  filter (fun l => l.2 <> []) (map (fun l => (l.1, f l.2)) ls) = ls.
Proof.
  intros Hf. induction ls as [|[p os] ls IH]; intros Hok Hid; [done|].
  apply Spec.levels_ok_cons in Hok as (_ & _ & [Hne _] & Hok).
  rewrite Spec.level_ids_cons in Hid. cbn [map fst snd]. rewrite Hf by set_solver.
  rewrite filter_cons_True by done. rewrite IH by set_solver. done.
Qed.

(** Changing the queue that holds [id] is changing every queue by a function
    that leaves the queues without [id] alone. *)
Lemma cut_everywhere s id px q f ls :
  (forall os, id ∉ ids_of os -> f os = os) ->
  Spec.levels_ok s ls -> NoDup (Spec.level_ids ls) -> Spec.find_levels id ls = Some (px, q) ->
  Spec.cut px f ls
  = filter (fun l => l.2 <> []) (map (fun l => (l.1, f l.2)) ls).
Proof.
  intros Hf. induction ls as [|[p os] ls IH]; intros Hok Hnd Hfind; [done|].
  rewrite Spec.level_ids_cons in Hnd. apply NoDup_app in Hnd as (Hnd1 & Hd & Hnd2).
  apply Spec.levels_ok_cons in Hok as (Hall & _ & [Hne _] & Hok). cbn [Spec.find_levels] in Hfind.
  cbn [Spec.cut map fst snd].
  destruct (Spec.find_queue id os) as [q'|] eqn:Hq.
  - injection Hfind as -> <-. rewrite Z.eqb_refl.
    assert (id ∉ Spec.level_ids ls) as Hid.
    { intros Hin. apply (Hd id); [|done]. apply Spec.find_queue_elem in Hq.
      apply list_elem_of_fmap. by exists (mkSnapOrder id q'). }
    pose proof (levels_unchanged s id f ls Hf Hok Hid) as Hk.
    destruct (f os) as [|o os'] eqn:Hfo.
    + rewrite filter_cons_False by (intros Hx; by apply Hx). by rewrite Hk.
    + rewrite filter_cons_True by done. by rewrite Hk.
  - apply Spec.find_queue_None in Hq. rewrite Hf by done.
    assert (px <> p) as Hpp.
    { intros ->. apply Spec.find_levels_elem in Hfind as (os' & Hin & _).
      rewrite Forall_forall in Hall. apply Hall in Hin. cbn in Hin. by rewrite lt_irrefl in Hin. }
    destruct (Z.eqb_spec px p); [done|]. rewrite filter_cons_True by done. f_equal. by apply IH.
Qed.


(** Both sides of the book after a change to the queue of [id]. *)
Lemma cut_both s id px q f sp :
  (forall os, id ∉ ids_of os -> f os = os) -> Spec.wf sp ->
  Spec.find_order id sp = Some (s, px, q) -> forall s', valid_side s' ->
  Spec.levels s' (Spec.set_levels s (Spec.cut px f (Spec.levels s sp)) sp)
  = filter (fun l => l.2 <> []) (map (fun l => (l.1, f l.2)) (Spec.levels s' sp)).
Proof.
  intros Hf Hwf Hfind s' Hs'. pose proof (Spec.find_order_side _ _ _ _ _ Hfind) as Hs.
  pose proof Hfind as Hfl. apply Spec.find_order_spec in Hfl as (os & Hl & Ho); [|apply Hwf|done].
  pose proof (Spec.wf_side_NoDup s sp Hwf) as Hnd.
  assert (Spec.find_levels id (Spec.levels s sp) = Some (px, q)) as Hfl
    by (by eapply Spec.find_levels_NoDup).
  destruct (valid_side_cases s s' Hs Hs') as [-> | ->]; autorewrite with spec.
  - eapply cut_everywhere; [done|apply Hwf|done|done].
  - symmetry. eapply levels_unchanged; [done|apply Hwf|]. intros Hin.
    pose proof (Spec.wf_ids _ Hwf) as Hall. rewrite (Spec.ids_levels s) in Hall.
    apply NoDup_app in Hall as (_ & Hd & _). apply (Hd id); [|done].
    apply Spec.elem_of_level_ids. by exists px, os, (mkSnapOrder id q).
Qed.

Lemma filter_all {A} (P : A -> Prop) `{forall x, Decision (P x)} (l : list A) :
  Forall P l -> filter P l = l.
Proof.
  induction 1 as [|x l Hx _ IH]; [done|]. rewrite filter_cons_True by done. by rewrite IH.
Qed.

Lemma snap_reduce s id px q k sp :
  Spec.wf sp -> Spec.find_order id sp = Some (s, px, q) ->
  Spec.to_snapshot (Spec.reduce s px id k sp) = snap_set_qty id k (Spec.to_snapshot sp).
Proof.
  intros Hwf Hf. unfold Spec.to_snapshot, snap_set_qty. cbn [bs_bids bs_asks].
  pose proof (cut_both s id px q (Spec.set_qty id k) sp (Spec.set_qty_notin id k) Hwf Hf) as Hc.
  pose proof (Hc Buy (or_introl eq_refl)) as Hb. pose proof (Hc Sell (or_intror eq_refl)) as Ha.
  assert (forall s', Forall (fun l : Price * list SnapshotOrder => l.2 <> [])
            (map (fun l => (l.1, Spec.set_qty id k l.2)) (Spec.levels s' sp))) as Hne.
  { intros s'. apply Forall_fmap. destruct (Spec.wf_levels _ Hwf s') as [_ Hall].
    eapply Forall_impl; [exact Hall|]. intros [p os] (_ & Hne & _). cbn. by destruct os. }
  rewrite filter_all in Hb, Ha by apply Hne.
  cbn in Hb, Ha. unfold Spec.reduce. rewrite Hb, Ha, !map_map. done.
Qed.

Lemma snap_remove s id px q sp :
  Spec.wf sp -> Spec.find_order id sp = Some (s, px, q) ->
  Spec.to_snapshot (Spec.remove s px id sp) = snap_drop id (Spec.to_snapshot sp).
Proof.
  intros Hwf Hf. unfold Spec.to_snapshot, snap_drop. cbn [bs_bids bs_asks].
  pose proof (cut_both s id px q (Spec.drop_id id) sp (Spec.drop_id_notin id) Hwf Hf) as Hc.
  pose proof (Hc Buy (or_introl eq_refl)) as Hb. pose proof (Hc Sell (or_intror eq_refl)) as Ha.
  cbn in Hb, Ha. unfold Spec.remove. rewrite Hb, Ha, !map_map.
  assert (forall ls : Spec.Levels,
    map (fun p => mkSnapLevel p.1 p.2) (filter (fun l => l.2 <> [])
      (map (fun l => (l.1, Spec.drop_id id l.2)) ls))
    = filter (fun l => sl_orders l <> [])
        (map (fun p => mkSnapLevel p.1 (Spec.drop_id id p.2)) ls)) as Hm.
  { induction ls as [|[p os] ls IH]; [done|]. cbn [map fst snd].
    destruct (Spec.drop_id id os) as [|o os'] eqn:Hd.
    - rewrite !filter_cons_False by (intros Hx; by apply Hx). apply IH.
    - rewrite !filter_cons_True by done. cbn [map]. by rewrite IH. }
  by rewrite !Hm.
Qed.

(** A cancel never costs an order its place in the queue. On a reachable
    fast book, cancelling order [id] down to [keep] is refused, with no effect
    and no listener call, when [id] does not rest there or has no more than
    [keep] shares open; with [keep] positive it changes the open quantity of
    that order in place and nothing else in the snapshot; with [keep] zero it
    removes exactly that order, and its level when that was the last one. The
    one listener call reports the difference. *)
Theorem fast_cancel_in_place cfg ops rs b id keep :
  cfg_ok cfg -> Forall (call_ok cfg) ops -> arena_suffices ops = true ->
  fast_run cfg ops = Some (rs, b) -> fits 32 keep ->
  exists sn ok b' sn' evs,
    FastBook.snapshot b = Some sn /\ FastBook.cancel id keep b = Some (ok, b') /\
    FastBook.snapshot b' = Some sn' /\ FastBook.listener_ b' = FastBook.listener_ b ++ evs /\
    match snap_find id sn with
    | Some q =>
        if q <=? keep then ok = false /\ sn' = sn /\ evs = []
        else ok = true /\
          sn' = (if keep =? 0 then snap_drop id sn else snap_set_qty id keep sn) /\
          evs = [on_canceled (mkCanceled id (q - keep) (keep =? 0))]
    | None => ok = false /\ sn' = sn /\ evs = []
    end.
Proof.
  intros Hc Hok Hw Hr Hk. destruct (fast_reached cfg ops rs b Hc Hok Hw Hr) as (sp & HR & Hcf).
  pose proof (LadderMatch.rep_wf _ _ HR) as Hwf.
  destruct (Spec.cancel id keep sp) as [[ok sp'] evs] eqn:Hcan.
  destruct (fast_cancel_refines _ _ _ _ _ _ _ HR Hk Hcan) as (b' & Hb' & HR' & Hl & _).
  exists (Spec.to_snapshot sp), ok, b', (Spec.to_snapshot sp'), evs. rewrite snap_find_spec.
  do 4 (split; [first [by apply fast_snapshot_refines|done]|]).
  unfold Spec.cancel in Hcan. destruct (Spec.find_order id sp) as [[[s px] q]|] eqn:Hf; cbn;
    [|by simplify_eq].
  destruct (Z.leb_spec q keep); [by simplify_eq|].
  destruct (Z.eqb_spec keep 0) as [->|]; simplify_eq; split_and!; try done.
  - by eapply snap_remove.
  - by rewrite Z.sub_0_r.
  - by eapply snap_reduce.
Qed.

Lemma fast_cancel_in_place_witness :
  exists sn ok b', FastBook.snapshot (fast_demo demo_cfg demo_ops).2 = Some sn /\
    FastBook.cancel 3 5 (fast_demo demo_cfg demo_ops).2 = Some (ok, b').
Proof.
  destruct (fast_cancel_in_place demo_cfg demo_ops (fast_demo demo_cfg demo_ops).1
              (fast_demo demo_cfg demo_ops).2 3 5) as (sn & ok & b' & sn' & evs & H1 & H2 & _);
    [exact demo_cfg_ok|exact demo_calls_ok|exact demo_fits|exact demo_runs|split; lia|].
  exists sn, ok, b'. split; [exact H1|exact H2].
Defined.
