(* ===== verification/Endian.v ===== *)
(** Byte buffers and the big-endian accessors of [common/endian.hpp], the only
    byte-level primitives of the wire codecs.

    A buffer is the list of its bytes, a byte a [Z] between 0 and 255. A
    pointer [p + off] into it is the pair of the buffer and the offset. An
    access outside the buffer is [Undefined], so a codec that is proved to
    return [Ok] never reads or writes out of bounds. *)

From S2P Require Import Prelude.
From Stdlib Require Import Ascii.

Abbreviation bytes := (list Z).

Definition is_byte (b : Z) : Prop := 0 <= b < 256.

(** A character constant of the source as the byte it is. *)
Definition chr (a : ascii) : Z := Z.of_N (N_of_ascii a).
Arguments chr a%_char_scope.

(** [p[i] = b] and [p[i]]. *)
Definition poke (p : bytes) (i : nat) (b : Z) : outcome bytes :=
  match p !! i with
  | Some _ => Ok (<[i := b]> p)
  | None => Undefined
  end.

Definition peek (p : bytes) (i : nat) : outcome Z := deref (p !! i).

(** [std::memcpy(p + i, s, n)] with [s] the source bytes. *)
Fixpoint poke_all (p : bytes) (i : nat) (s : bytes) : outcome bytes :=
  match s with
  | [] => Ok p
  | b :: s' => p ← poke p i b; poke_all p (S i) s'
  end.

(** The [n] bytes at [p + i]. *)
Fixpoint peek_all (p : bytes) (i n : nat) : outcome bytes :=
  match n with
  | O => Ok []
  | S n' => b ← peek p i; s ← peek_all p (S i) n'; Ok (b :: s)
  end.

(** Storing the first [n] characters of an array [s], by [std::memcpy] or by a
    loop over its indices. *)
Definition poke_n (p : bytes) (i : nat) (s : bytes) (n : nat) : outcome bytes :=
  if (n <=? length s)%nat then poke_all p i (take n s) else Undefined.

(** ** The accessors *)

Definition put_be16 (p : bytes) (o : nat) (v : Z) : outcome bytes :=
  p ← poke p o (u8 (Z.shiftr v 8));
  poke p (o + 1) (u8 v).

Definition get_be16 (p : bytes) (o : nat) : outcome Z :=
  p0 ← peek p o;
  p1 ← peek p (o + 1);
  Ok (u16 (Z.lor (Z.shiftl p0 8) p1)).

Definition put_be32 (p : bytes) (o : nat) (v : Z) : outcome bytes :=
  p ← poke p o (u8 (Z.shiftr v 24));
  p ← poke p (o + 1) (u8 (Z.shiftr v 16));
  p ← poke p (o + 2) (u8 (Z.shiftr v 8));
  poke p (o + 3) (u8 v).

Definition get_be32 (p : bytes) (o : nat) : outcome Z :=
  p0 ← peek p o;
  p1 ← peek p (o + 1);
  p2 ← peek p (o + 2);
  p3 ← peek p (o + 3);
  Ok (Z.lor (Z.lor (Z.lor (u32 (Z.shiftl p0 24)) (u32 (Z.shiftl p1 16)))
                   (u32 (Z.shiftl p2 8))) p3).

Definition put_be48 (p : bytes) (o : nat) (v : Z) : outcome bytes :=
  p ← poke p o (u8 (Z.shiftr v 40));
  p ← poke p (o + 1) (u8 (Z.shiftr v 32));
  p ← poke p (o + 2) (u8 (Z.shiftr v 24));
  p ← poke p (o + 3) (u8 (Z.shiftr v 16));
  p ← poke p (o + 4) (u8 (Z.shiftr v 8));
  poke p (o + 5) (u8 v).

Definition get_be48 (p : bytes) (o : nat) : outcome Z :=
  p0 ← peek p o;
  p1 ← peek p (o + 1);
  p2 ← peek p (o + 2);
  p3 ← peek p (o + 3);
  p4 ← peek p (o + 4);
  p5 ← peek p (o + 5);
  Ok (Z.lor (Z.lor (Z.lor (Z.lor (Z.lor
       (u64 (Z.shiftl p0 40)) (u64 (Z.shiftl p1 32)))
       (u64 (Z.shiftl p2 24))) (u64 (Z.shiftl p3 16)))
       (u64 (Z.shiftl p4 8))) p5).

Definition put_be64 (p : bytes) (o : nat) (v : Z) : outcome bytes :=
  p ← put_be32 p o (u32 (Z.shiftr v 32));
  put_be32 p (o + 4) (u32 v).

Definition get_be64 (p : bytes) (o : nat) : outcome Z :=
  h ← get_be32 p o;
  l ← get_be32 p (o + 4);
  Ok (Z.lor (u64 (Z.shiftl h 32)) l).

(** ** Serialised integers

    The bytes the writers produce and the value the readers compute, as plain
    functions of the bytes. *)

Fixpoint be_bytes (n : nat) (v : Z) : bytes :=
  match n with
  | O => []
  | S n' => u8 (v / 2 ^ (8 * Z.of_nat n')) :: be_bytes n' v
  end.

Fixpoint be_value (s : bytes) : Z :=
  match s with
  | [] => 0
  | b :: s' => b * 2 ^ (8 * Z.of_nat (length s')) + be_value s'
  end.

Lemma length_be_bytes n v : length (be_bytes n v) = n.
Proof. induction n; cbn [be_bytes length]; congruence. Qed.

Lemma be_bytes_are_bytes n v : Forall is_byte (be_bytes n v).
Proof.
  induction n; cbn [be_bytes]; constructor; [|done].
  unfold is_byte, wrap. change (2 ^ 8) with 256. apply Z.mod_pos_bound. lia.
Qed.

Lemma be_value_bound s : Forall is_byte s ->
  0 <= be_value s < 2 ^ (8 * Z.of_nat (length s)).
Proof.
  induction 1 as [|b s Hb _ IH]; cbn [be_value length]; [lia|].
  unfold is_byte in Hb.
  replace (8 * Z.of_nat (S (length s))) with (8 * Z.of_nat (length s) + 8) by lia.
  rewrite Z.pow_add_r by lia. change (2 ^ 8) with 256. nia.
Qed.

Lemma be_value_be_bytes n v : be_value (be_bytes n v) = v mod 2 ^ (8 * Z.of_nat n).
Proof.
  induction n as [|n IH]; cbn [be_bytes be_value].
  { cbn. by rewrite Z.mod_1_r. }
  rewrite length_be_bytes, IH. unfold wrap.
  replace (8 * Z.of_nat (S n)) with (8 * Z.of_nat n + 8) by lia.
  rewrite (Z.pow_add_r 2 (8 * Z.of_nat n)) by lia.
  rewrite Z.rem_mul_r by lia. lia.
Qed.

Lemma be_bytes_be_value s : Forall is_byte s -> be_bytes (length s) (be_value s) = s.
Proof.
  intros Hs. assert (forall k, be_bytes (length s)
    (k * 2 ^ (8 * Z.of_nat (length s)) + be_value s) = s) as H.
  { induction Hs as [|b s Hb Hs IH]; intros k; cbn [length be_bytes be_value]; [done|].
    unfold is_byte in Hb. pose proof (be_value_bound s Hs) as Hbd.
    set (M := 2 ^ (8 * Z.of_nat (length s))) in *.
    replace (2 ^ (8 * Z.of_nat (S (length s)))) with (256 * M).
    2:{ unfold M. rewrite <- (Z.pow_add_r 2 8) by lia. f_equal. lia. }
    f_equal.
    - replace (k * (256 * M) + (b * M + be_value s))
        with (be_value s + (k * 256 + b) * M) by lia.
      rewrite Z.div_add, (Z.div_small (be_value s)) by lia.
      unfold wrap. change (2 ^ 8) with 256.
      rewrite Z.add_0_l, Z.add_comm, Z.mod_add, Z.mod_small by lia. done.
    - replace (k * (256 * M) + (b * M + be_value s))
        with ((k * 256 + b) * M + be_value s) by lia. apply IH. }
  specialize (H 0). rewrite Z.mul_0_l, Z.add_0_l in H. exact H.
Qed.

(** Disjoint bit fields: [|] is [+]. *)
Lemma lor_shifted a b k : 0 <= k -> 0 <= b < 2 ^ k ->
  Z.lor (Z.shiftl a k) b = a * 2 ^ k + b.
Proof.
  intros Hk Hb. rewrite <- Z.shiftl_mul_pow2 by done.
  assert (Z.land (Z.shiftl a k) b = 0) as Hd.
  { apply Z.bits_inj'. intros n Hn. rewrite Z.land_spec, Z.bits_0.
    destruct (Z.lt_ge_cases n k).
    - by rewrite Z.shiftl_spec_low.
    - rewrite andb_false_iff. right.
      destruct (Z.eq_dec b 0) as [->|]; [apply Z.bits_0|].
      apply Z.bits_above_log2; [lia|]. apply Z.log2_lt_pow2; [lia|].
      assert (2 ^ k <= 2 ^ n) by (apply Z.pow_le_mono_r; lia). lia. }
  pose proof (Z.add_lor_land (Z.shiftl a k) b). lia.
Qed.

(** ** The accessors in terms of block reads and writes *)

(** Evaluate the shift amounts [8 * k] of a field of at most eight bytes. *)
Ltac be_offsets :=
  change (2 ^ (8 * Z.of_nat 0)) with 1 in *; change (8 * Z.of_nat 1) with 8 in *;
  change (8 * Z.of_nat 2) with 16 in *; change (8 * Z.of_nat 3) with 24 in *;
  change (8 * Z.of_nat 4) with 32 in *; change (8 * Z.of_nat 5) with 40 in *.

Lemma poke_all_app p o s t :
  poke_all p o (s ++ t) = (p' ← poke_all p o s; poke_all p' (o + length s) t).
Proof.
  revert p o. induction s as [|b s IH]; intros p o; cbn [app poke_all length].
  - by rewrite Nat.add_0_r.
  - unfold mbind, outcome_bind. destruct (poke p o b) as [p'| |]; [|done..].
    rewrite IH. unfold mbind, outcome_bind.
    by replace (o + S (length s))%nat with (S o + length s)%nat by lia.
Qed.

Lemma poke_poke_all p o b : poke p o b = poke_all p o [b].
Proof. cbn [poke_all]. unfold mbind, outcome_bind. by destruct (poke p o b). Qed.

Lemma poke_n_all p o s n : length s = n -> poke_n p o s n = poke_all p o s.
Proof. intros <-. unfold poke_n. by rewrite Nat.leb_refl, firstn_all. Qed.

(** Rewriting the first byte of a block just written. *)
Lemma poke_all_cons a q o s :
  poke_all (a :: q) (S o) s = (q' ← poke_all q o s; Ok (a :: q')).
Proof.
  revert q o. induction s as [|b s IH]; intros q o; [done|].
  cbn [poke_all]. unfold poke at 1 2. cbn [lookup list_lookup].
  destruct (q !! o); [|done]. apply IH.
Qed.

Lemma poke_all_retag p a b s :
  (p' ← poke_all p 0 (a :: s); poke p' 0 b) = poke_all p 0 (b :: s).
Proof.
  destruct p as [|x p]; [done|]. cbn [poke_all].
  change (poke (x :: p) 0 a) with (Ok (a :: p)).
  change (poke (x :: p) 0 b) with (Ok (b :: p)).
  unfold mbind, outcome_bind. rewrite !poke_all_cons. unfold mbind, outcome_bind.
  by destruct (poke_all p 0 s).
Qed.

Lemma put_be16_all p o v : put_be16 p o v = poke_all p o (be_bytes 2 v).
Proof.
  unfold put_be16. cbn [be_bytes poke_all].
  rewrite Z.shiftr_div_pow2, Nat.add_1_r by lia.
  be_offsets. rewrite Z.div_1_r.
  unfold mbind, outcome_bind. repeat case_match; congruence.
Qed.

Lemma put_be32_all p o v : put_be32 p o v = poke_all p o (be_bytes 4 v).
Proof.
  unfold put_be32. cbn [be_bytes poke_all].
  rewrite !Z.shiftr_div_pow2 by lia.
  be_offsets. rewrite Z.div_1_r.
  replace (o + 1)%nat with (S o) by lia. replace (o + 2)%nat with (S (S o)) by lia.
  replace (o + 3)%nat with (S (S (S o))) by lia.
  unfold mbind, outcome_bind. repeat case_match; congruence.
Qed.

Lemma put_be48_all p o v : put_be48 p o v = poke_all p o (be_bytes 6 v).
Proof.
  unfold put_be48. cbn [be_bytes poke_all].
  rewrite !Z.shiftr_div_pow2 by lia.
  be_offsets. rewrite Z.div_1_r.
  replace (o + 1)%nat with (S o) by lia. replace (o + 2)%nat with (S (S o)) by lia.
  replace (o + 3)%nat with (S (S (S o))) by lia.
  replace (o + 4)%nat with (S (S (S (S o)))) by lia.
  replace (o + 5)%nat with (S (S (S (S (S o))))) by lia.
  unfold mbind, outcome_bind. repeat case_match; congruence.
Qed.

(** Only the low [8 * n] bits of the value reach the wire. *)
Lemma be_bytes_wrap n w v :
  8 * Z.of_nat n <= w -> be_bytes n (wrap w v) = be_bytes n v.
Proof.
  intros Hw. induction n as [|n IH]; [done|]. cbn [be_bytes]. f_equal; [|apply IH; lia].
  unfold wrap. set (k := 8 * Z.of_nat n).
  rewrite <- !Z.shiftr_div_pow2 by lia. apply Z.bits_inj'. intros i Hi.
  destruct (Z.lt_ge_cases i 8).
  - rewrite !Z.mod_pow2_bits_low, !Z.shiftr_spec by lia.
    rewrite Z.mod_pow2_bits_low by lia. done.
  - by rewrite !Z.mod_pow2_bits_high by lia.
Qed.

Lemma be_bytes_app n m v :
  be_bytes (n + m) v = be_bytes n (Z.shiftr v (8 * Z.of_nat m)) ++ be_bytes m v.
Proof.
  induction n as [|n IH]; [done|]. cbn [Nat.add be_bytes app]. f_equal; [|done].
  rewrite Z.shiftr_div_pow2, Z.div_div by lia. rewrite <- Z.pow_add_r by lia.
  do 3 f_equal. lia.
Qed.

Lemma put_be64_all p o v : put_be64 p o v = poke_all p o (be_bytes 8 v).
Proof.
  unfold put_be64. rewrite (be_bytes_app 4 4), poke_all_app, length_be_bytes.
  rewrite put_be32_all, be_bytes_wrap by lia.
  change (8 * Z.of_nat 4) with 32. unfold mbind, outcome_bind.
  case_match; [|done..]. by rewrite put_be32_all, be_bytes_wrap by lia.
Qed.

(** Block reads are slices. *)
Definition slice (o n : nat) (p : bytes) : bytes := take n (drop o p).

Lemma peek_all_slice p o n :
  (o + n <= length p)%nat -> peek_all p o n = Ok (slice o n p).
Proof.
  unfold slice. revert o. induction n as [|n IH]; intros o Hn; cbn [peek_all]; [done|].
  unfold peek. destruct (lookup_lt_is_Some_2 p o ltac:(lia)) as [b Hb].
  rewrite Hb. cbn [deref]. unfold mbind at 1, outcome_bind at 1.
  rewrite IH by lia. unfold mbind, outcome_bind.
  by rewrite (drop_S p b o Hb).
Qed.

Lemma length_slice o n p : (o + n <= length p)%nat -> length (slice o n p) = n.
Proof. unfold slice. rewrite length_take, length_drop. lia. Qed.

Lemma slice_bytes o n p : Forall is_byte p -> Forall is_byte (slice o n p).
Proof. intros. by apply Forall_take, Forall_drop. Qed.

Lemma peek_slice p o : (o < length p)%nat -> peek p o = Ok (be_value (slice o 1 p)).
Proof.
  intros Ho. pose proof (peek_all_slice p o 1 ltac:(lia)) as H. revert H.
  cbn [peek_all]. unfold mbind, outcome_bind. destruct (peek p o) as [b| |]; intros [= <-].
  cbn [be_value length]. f_equal. lia.
Qed.

(** The readers, once the bytes are known to be there. *)
Lemma get_be16_slice p o :
  Forall is_byte p -> (o + 2 <= length p)%nat ->
  get_be16 p o = Ok (be_value (slice o 2 p)).
Proof.
  intros Hp Ho. pose proof (peek_all_slice p o 2 Ho) as H.
  pose proof (slice_bytes o 2 p Hp) as Hb. revert H Hb.
  unfold get_be16. replace (o + 1)%nat with (S o) by lia.
  cbn [peek_all]. unfold mbind, outcome_bind.
  do 2 (destruct (peek p _) as [?b| |]; [|discriminate..]).
  intros [= <-]. rewrite !Forall_cons. unfold is_byte. intros (? & ? & _).
  f_equal. rewrite lor_shifted by lia. unfold wrap. cbn [be_value length].
  be_offsets. change (2 ^ 8) with 256. change (2 ^ 16) with 65536. rewrite Z.mod_small by lia. lia.
Qed.

Lemma get_be32_slice p o :
  Forall is_byte p -> (o + 4 <= length p)%nat ->
  get_be32 p o = Ok (be_value (slice o 4 p)).
Proof.
  intros Hp Ho. pose proof (peek_all_slice p o 4 Ho) as H.
  pose proof (slice_bytes o 4 p Hp) as Hb. revert H Hb.
  unfold get_be32. replace (o + 1)%nat with (S o) by lia.
  replace (o + 2)%nat with (S (S o)) by lia. replace (o + 3)%nat with (S (S (S o))) by lia.
  cbn [peek_all]. unfold mbind, outcome_bind.
  do 4 (destruct (peek p _) as [?b| |]; [|discriminate..]).
  intros [= <-]. rewrite !Forall_cons. unfold is_byte. intros (? & ? & ? & ? & _).
  f_equal. rewrite !wrap_small; cycle 1;
    [unfold fits; rewrite Z.shiftl_mul_pow2; lia..|].
  rewrite <- !Z.lor_assoc.
  rewrite (lor_shifted b1), (lor_shifted b0), (lor_shifted b) by lia.
  cbn [be_value length].
  be_offsets. lia.
Qed.

Lemma get_be48_slice p o :
  Forall is_byte p -> (o + 6 <= length p)%nat ->
  get_be48 p o = Ok (be_value (slice o 6 p)).
Proof.
  intros Hp Ho. pose proof (peek_all_slice p o 6 Ho) as H.
  pose proof (slice_bytes o 6 p Hp) as Hb. revert H Hb.
  unfold get_be48. replace (o + 1)%nat with (S o) by lia.
  replace (o + 2)%nat with (S (S o)) by lia. replace (o + 3)%nat with (S (S (S o))) by lia.
  replace (o + 4)%nat with (S (S (S (S o)))) by lia.
  replace (o + 5)%nat with (S (S (S (S (S o))))) by lia.
  cbn [peek_all]. unfold mbind, outcome_bind.
  do 6 (destruct (peek p _) as [?b| |]; [|discriminate..]).
  intros [= <-]. rewrite !Forall_cons. unfold is_byte. intros (? & ? & ? & ? & ? & ? & _).
  f_equal. rewrite !wrap_small; cycle 1;
    [unfold fits; rewrite Z.shiftl_mul_pow2; lia..|].
  rewrite <- !Z.lor_assoc.
  rewrite (lor_shifted b3), (lor_shifted b2), (lor_shifted b1), (lor_shifted b0),
    (lor_shifted b) by lia.
  cbn [be_value length]. be_offsets. lia.
Qed.

Lemma be_value_app s t :
  be_value (s ++ t) = be_value s * 2 ^ (8 * Z.of_nat (length t)) + be_value t.
Proof.
  induction s as [|b s IH]; cbn [app be_value]; [lia|].
  rewrite IH, length_app, Nat2Z.inj_add, Z.mul_add_distr_l, Z.pow_add_r by lia. lia.
Qed.

Lemma slice_app o n m p : slice o (n + m) p = slice o n p ++ slice (o + n) m p.
Proof.
  unfold slice. by rewrite <- drop_drop, take_take_drop.
Qed.

Lemma get_be64_slice p o :
  Forall is_byte p -> (o + 8 <= length p)%nat ->
  get_be64 p o = Ok (be_value (slice o 8 p)).
Proof.
  intros Hp Ho. unfold get_be64. rewrite !get_be32_slice by (done || lia).
  unfold mbind, outcome_bind. f_equal.
  rewrite (slice_app o 4 4), be_value_app, length_slice by lia.
  pose proof (be_value_bound _ (slice_bytes o 4 p Hp)) as H1.
  pose proof (be_value_bound _ (slice_bytes (o + 4) 4 p Hp)) as H2.
  rewrite length_slice in H1, H2 by lia. be_offsets.
  rewrite wrap_small, lor_shifted by
    (unfold fits; rewrite ?Z.shiftl_mul_pow2 by lia; lia). done.
Qed.

(** A store stays inside the buffer or is undefined. *)
Lemma poke_all_cases p o s :
  poke_all p o s = Undefined \/ exists q, poke_all p o s = Ok q /\ length q = length p.
Proof.
  revert p o. induction s as [|b s IH]; intros p o; cbn [poke_all]; [right; eauto|].
  unfold poke. destruct (p !! o); [|by left]. rewrite outcome_bind_Ok.
  destruct (IH (<[o := b]> p) (S o)) as [->|(q & -> & Hq)]; [by left|right].
  exists q. by rewrite length_insert in Hq.
Qed.

Lemma poke_all_overrun p o s :
  (length p < o + length s)%nat -> s <> [] -> poke_all p o s = Undefined.
Proof.
  revert p o. induction s as [|b s IH]; intros p o Hlen Hne; [done|]. cbn [poke_all length] in *.
  unfold poke. destruct (p !! o) as [x|] eqn:Hx; [|done]. rewrite outcome_bind_Ok.
  apply lookup_lt_Some in Hx. destruct s as [|b' s]; [cbn in Hlen; lia|].
  apply IH; [rewrite length_insert; lia|done].
Qed.

Lemma get_be64_overrun p o :
  Forall is_byte p -> length p = (o + 4)%nat -> get_be64 p o = Undefined.
Proof.
  intros Hp Hlen. unfold get_be64. rewrite (get_be32_slice p o), outcome_bind_Ok by (done || lia).
  unfold get_be32. replace (peek p (o + 4)) with (@Undefined Z); [done|].
  unfold peek. by rewrite lookup_ge_None_2 by lia.
Qed.

(** A block write into a buffer that is long enough replaces exactly its own
    bytes. *)
Lemma poke_all_spec p o s :
  (o + length s <= length p)%nat ->
  poke_all p o s = Ok (take o p ++ s ++ drop (o + length s) p).
Proof.
  revert p o. induction s as [|b s IH]; intros p o Ho; cbn [poke_all length app] in *.
  { by rewrite Nat.add_0_r, take_drop. }
  unfold poke. destruct (lookup_lt_is_Some_2 p o ltac:(lia)) as [x Hx]. rewrite Hx.
  unfold mbind, outcome_bind. rewrite IH by (rewrite length_insert; lia). f_equal.
  rewrite (take_S_r _ _ b), take_insert_ge by
    (rewrite ?list_lookup_insert_eq by lia; done || lia).
  rewrite <- app_assoc. do 3 f_equal.
  rewrite drop_insert_lt by lia. f_equal. lia.
Qed.

Lemma poke_all_prefix p s :
  (length s <= length p)%nat -> poke_all p 0 s = Ok (s ++ drop (length s) p).
Proof. intros. by rewrite poke_all_spec by lia. Qed.
