(* ===== verification/Wire.v ===== *)
(** Wire formats: the layout tables of the protocol specifications as values,
    and what it means for an encoder and a decoder written with explicit
    offsets to implement such a table.

    A [format] describes a block of fixed size: which values fit it, the bytes
    of a value and the value of the bytes. Formats are built from fields with
    [+++]; the laws of a composite format follow from the laws of its fields by
    instance resolution. *)

From S2P Require Import Prelude Endian BookTypes.

Record format (A : Type) := mkFormat {
  f_size : nat;
  f_ok : A -> Prop;
  f_put : A -> bytes;
  f_get : bytes -> A }.
Arguments mkFormat {A}.
Arguments f_size {A}.
Arguments f_ok {A}.
Arguments f_put {A}.
Arguments f_get {A}.

(** A format is a bijection between the values that fit and the byte strings
    of its size. *)
Class FormatLaws {A} (f : format A) : Prop := {
  f_put_size : forall a, f_ok f a -> length (f_put f a) = f_size f;
  f_put_bytes : forall a, f_ok f a -> Forall is_byte (f_put f a);
  f_get_put : forall a, f_ok f a -> f_get f (f_put f a) = a;
  f_get_ok : forall s, Forall is_byte s -> length s = f_size f -> f_ok f (f_get f s);
  f_put_get : forall s, Forall is_byte s -> length s = f_size f ->
    f_put f (f_get f s) = s }.

(** ** Fields *)

(** A big-endian unsigned integer of [n] bytes. *)
Definition be (n : nat) : format Z := {|
  f_size := n; f_ok := fits (8 * Z.of_nat n);
  f_put := be_bytes n; f_get := be_value |}.

(** A block of [n] characters. *)
Definition chars (n : nat) : format bytes := {|
  f_size := n; f_ok s := length s = n /\ Forall is_byte s;
  f_put s := s; f_get s := s |}.

(** [static_cast<Side>] of a byte, and back. *)
Definition side_of_byte (b : Z) : Side :=
  if b =? 66 then Buy else if b =? 83 then Sell else RawSide b.

Definition byte_of_side (s : Side) : Z :=
  match s with Buy => 66 | Sell => 83 | RawSide c => c end.

(** The representations of [Side] that a cast produces. *)
Definition side_ok (s : Side) : Prop :=
  match s with RawSide c => is_byte c /\ c <> 66 /\ c <> 83 | _ => True end.

Definition side : format Side := {|
  f_size := 1; f_ok := side_ok;
  f_put s := [byte_of_side s]; f_get s := side_of_byte (be_value s) |}.

(** A single [char]. *)
Abbreviation char := (be 1).

Definition fnil : format unit := {|
  f_size := 0; f_ok _ := True; f_put _ := []; f_get _ := tt |}.

Definition fcons {A B} (f : format A) (g : format B) : format (A * B) := {|
  f_size := f_size f + f_size g;
  f_ok ab := f_ok f ab.1 /\ f_ok g ab.2;
  f_put ab := f_put f ab.1 ++ f_put g ab.2;
  f_get s := (f_get f (take (f_size f) s), f_get g (drop (f_size f) s)) |}.
Infix "+++" := fcons (at level 60, right associativity) : nsq_scope.

(** The same bytes read as another type. *)
Definition fiso {A B} (f : format A) (to : B -> A) (from : A -> B) : format B := {|
  f_size := f_size f; f_ok b := f_ok f (to b);
  f_put b := f_put f (to b); f_get s := from (f_get f s) |}.

Lemma bytes_be_value n s : Forall is_byte s -> length s = n ->
  fits (8 * Z.of_nat n) (be_value s).
Proof. intros Hs <-. by apply be_value_bound. Qed.

#[export] Instance be_laws n : FormatLaws (be n).
Proof.
  split; cbn [f_size f_ok f_put f_get be].
  - intros. apply length_be_bytes.
  - intros. apply be_bytes_are_bytes.
  - intros a Ha. rewrite be_value_be_bytes. by apply Z.mod_small.
  - intros. by apply bytes_be_value.
  - intros s Hs <-. by apply be_bytes_be_value.
Qed.

#[export] Instance chars_laws n : FormatLaws (chars n).
Proof. split; cbn [f_size f_ok f_put f_get chars]; naive_solver. Qed.

Lemma side_of_byte_of_side s : side_ok s -> side_of_byte (byte_of_side s) = s.
Proof.
  destruct s as [| |c]; [done..|]. cbn [side_ok byte_of_side]. intros (_ & H1 & H2).
  unfold side_of_byte. by rewrite (proj2 (Z.eqb_neq _ _) H1), (proj2 (Z.eqb_neq _ _) H2).
Qed.

Lemma byte_of_side_of_byte b : byte_of_side (side_of_byte b) = b.
Proof.
  unfold side_of_byte. destruct (Z.eqb_spec b 66); [done|].
  by destruct (Z.eqb_spec b 83).
Qed.

Lemma side_of_byte_ok b : is_byte b -> side_ok (side_of_byte b).
Proof.
  intros Hb. unfold side_of_byte. destruct (Z.eqb_spec b 66); [done|].
  by destruct (Z.eqb_spec b 83).
Qed.

Lemma byte_of_side_byte s : side_ok s -> is_byte (byte_of_side s).
Proof. unfold is_byte. destruct s; cbn [side_ok byte_of_side]; [lia..|]. by intros [H _]. Qed.

Lemma be_value_singleton b : be_value [b] = b.
Proof. cbn [be_value length]. be_offsets. lia. Qed.

Lemma side_ok_valid s : valid_side s -> side_ok s.
Proof. by intros [-> | ->]. Qed.

#[export] Instance side_laws : FormatLaws side.
Proof.
  split; cbn [f_size f_ok f_put f_get side].
  - done.
  - intros a Ha. repeat constructor; by apply byte_of_side_byte.
  - intros a Ha. rewrite be_value_singleton. by apply side_of_byte_of_side.
  - intros [|b [|? ?]] Hs [=]. rewrite be_value_singleton.
    apply side_of_byte_ok. by inversion Hs.
  - intros [|b [|? ?]] Hs [=]. by rewrite be_value_singleton, byte_of_side_of_byte.
Qed.

#[export] Instance fnil_laws : FormatLaws fnil.
Proof.
  split; cbn [f_size f_ok f_put f_get fnil]; try done.
  - by intros [].
  - by intros [|??] _ [=].
Qed.

#[export] Instance fcons_laws {A B} (f : format A) (g : format B) :
  FormatLaws f -> FormatLaws g -> FormatLaws (f +++ g).
Proof.
  intros Hf Hg. split; cbn [f_size f_ok f_put f_get fcons fst snd].
  - intros [a b] [Ha Hb]. rewrite length_app. by rewrite !f_put_size.
  - intros [a b] [Ha Hb]. apply Forall_app. split; by apply f_put_bytes.
  - intros [a b] [Ha Hb]. cbn [fst snd] in *. rewrite take_app_length', drop_app_length'
      by by rewrite f_put_size. by rewrite !f_get_put.
  - intros s Hs Hn. split; apply f_get_ok; rewrite ?length_take, ?length_drop;
      (lia || by apply Forall_take || by apply Forall_drop).
  - intros s Hs Hn. rewrite !f_put_get; rewrite ?length_take, ?length_drop;
      (lia || by apply Forall_take || by apply Forall_drop || by apply take_drop).
Qed.

Lemma fiso_laws {A B} (f : format A) (to : B -> A) (from : A -> B) :
  FormatLaws f -> (forall b, from (to b) = b) -> (forall a, to (from a) = a) ->
  FormatLaws (fiso f to from).
Proof.
  intros Hf Hfrom Hto. split; cbn [f_size f_ok f_put f_get fiso].
  - intros. by apply f_put_size.
  - intros. by apply f_put_bytes.
  - intros. by rewrite f_get_put.
  - intros. rewrite Hto. by apply f_get_ok.
  - intros. rewrite Hto. by apply f_put_get.
Qed.

(** ** Messages

    A message is a type byte followed by a body in a given format. *)

Record Codec (M : Type) := mkCodec {
  c_tag : Z;
  c_body : format M;
  c_encode : M -> bytes -> outcome bytes;
  c_decode : bytes -> outcome (option M) }.
Arguments mkCodec {M}.
Arguments c_tag {M}.
Arguments c_body {M}.
Arguments c_encode {M}.
Arguments c_decode {M}.

Definition c_size {M} (c : Codec M) : nat := S (f_size (c_body c)).
Definition c_wire {M} (c : Codec M) (m : M) : bytes := c_tag c :: f_put (c_body c) m.

(** What the two functions of a message type promise:

    - encoding a message whose fields fit writes the bytes of the layout, all
      of them and nothing beyond, whatever the buffer held;
    - decoding never reads outside the string it is given; it accepts exactly
      the strings of the message's length that begin with its type byte, and
      returns the message those bytes are the layout of. *)
Record codec_correct {M} (c : Codec M) : Prop := {
  cc_encode : forall m p, f_ok (c_body c) m -> (c_size c <= length p)%nat ->
    c_encode c m p = Ok (c_wire c m ++ drop (c_size c) p);
  cc_decode : forall m, f_ok (c_body c) m -> c_decode c (c_wire c m) = Ok (Some m);
  cc_accepts : forall p, Forall is_byte p ->
    (exists m, c_decode c p = Ok (Some m) /\ f_ok (c_body c) m /\ c_wire c m = p) \/
    (c_decode c p = Ok None /\ ~ (length p = c_size c /\ p !! 0%nat = Some (c_tag c))) }.

Section Correct.
Context {M : Type} (c : Codec M).

(** The obligations an implementation discharges: its writes are one block
    write of the layout, its reads are the fields of the layout. *)
Record codec_implements : Prop := {
  ci_laws : FormatLaws (c_body c);
  ci_tag : is_byte (c_tag c);
  ci_encode : forall m p, f_ok (c_body c) m -> c_encode c m p = poke_all p 0 (c_wire c m);
  ci_refuse : forall p, Forall is_byte p ->
    length p <> c_size c \/ p !! 0%nat <> Some (c_tag c) -> c_decode c p = Ok None;
  ci_decode : forall p, Forall is_byte p -> length p = c_size c ->
    p !! 0%nat = Some (c_tag c) -> c_decode c p = Ok (Some (f_get (c_body c) (drop 1 p))) }.

Lemma implements_correct : codec_implements -> codec_correct c.
Proof.
  intros [Hl Ht He Hr Hd]. split.
  - intros m p Hm Hp. rewrite He by done. unfold c_size in Hp.
    rewrite poke_all_prefix; unfold c_wire, c_size; cbn [length]; by rewrite f_put_size.
  - intros m Hm. rewrite Hd.
    + change (drop 1 (c_wire c m)) with (f_put (c_body c) m). by rewrite f_get_put.
    + constructor; [done|]. by apply f_put_bytes.
    + unfold c_wire, c_size. cbn [length]. by rewrite f_put_size.
    + done.
  - intros p Hp.
    destruct (decide (length p = c_size c)) as [Hn|Hn]; [|right; split; [auto|tauto]].
    destruct (decide (p !! 0%nat = Some (c_tag c))) as [H0|H0]; [|right; split; [auto|tauto]].
    left. eexists. split; [by apply Hd|]. unfold c_size in Hn.
    destruct p as [|b p]; [done|]. injection H0 as ->. cbn [length drop] in *.
    inversion Hp; subst. split; [apply f_get_ok; auto|].
    unfold c_wire. rewrite f_put_get; auto.
Qed.
End Correct.

(** ** Proof automation for codecs *)

Lemma outcome_bind_assoc {A B C} (m : outcome A) (f : A -> outcome B) (g : B -> outcome C) :
  ((m ≫= f) ≫= g) = (m ≫= fun a => f a ≫= g).
Proof. by destruct m. Qed.

Lemma outcome_bind_ext {A B} (m m' : outcome A) (f g : A -> outcome B) :
  m = m' -> (forall a, f a = g a) -> (m ≫= f) = (m' ≫= g).
Proof. intros <- H. by destruct m; cbn [mbind outcome_bind]. Qed.

Lemma poke_side p o s : poke p o (byte_of_side s) = poke_all p o [byte_of_side s].
Proof. apply poke_poke_all. Qed.

Lemma poke_char p o v : fits 8 v -> poke p o v = poke_all p o (be_bytes 1 v).
Proof.
  intros Hv. rewrite poke_poke_all. cbn [be_bytes]. be_offsets.
  by rewrite Z.div_1_r, wrap_small.
Qed.

(** Writers as block writes. *)
Create HintDb wire_put.
#[export] Hint Resolve poke_poke_all put_be16_all put_be32_all put_be48_all
  put_be64_all poke_char : wire_put.

(** Readers as slices. *)
Create Rewrite HintDb wire_get.

(** Reduce the formats of a layout table. *)
Ltac fmt_simpl :=
  cbn [c_tag c_body c_encode c_decode f_size f_ok f_put f_get fcons fiso fnil
       be chars side fst snd Nat.add] in *.

(** A chain of field writes is one block write of the layout: peel the first
    field off both sides. *)
Ltac put_step :=
  rewrite ?outcome_bind_assoc, poke_all_app; apply outcome_bind_ext;
  [solve [auto with wire_put]|intros ?p];
  rewrite ?length_be_bytes;
  repeat match goal with H : length _ = _ |- _ => rewrite H end;
  cbn [length Nat.add].

Ltac put_last :=
  rewrite app_nil_r; solve [auto with wire_put].

Ltac get_steps :=
  autorewrite with wire_get;
  rewrite ?peek_slice, ?get_be16_slice, ?get_be32_slice, ?get_be48_slice,
    ?get_be64_slice, ?peek_all_slice by (done || lia);
  rewrite ?outcome_bind_Ok.

(** The guard every decoder opens with: the exact length and the type byte. *)
Section Guard.
Context {M : Type} (p : bytes) (size : nat) (tag : Z) (k : outcome (option M)).

Lemma guard_refuses :
  (0 < size)%nat -> length p <> size \/ p !! 0%nat <> Some tag ->
  (if negb (length p =? size)%nat then Ok None else
   t ← peek p 0; if negb (t =? tag) then Ok None else k) = Ok None.
Proof.
  intros Hs Hr. destruct (Nat.eqb_spec (length p) size) as [Hn|Hn]; [|done].
  destruct Hr as [|H0]; [done|]. cbn [negb]. destruct p as [|b p']; [cbn in Hn; lia|].
  change (peek (b :: p') 0) with (Ok b). rewrite outcome_bind_Ok.
  destruct (Z.eqb_spec b tag); [|done]. by subst.
Qed.

Lemma guard_accepts :
  length p = size -> p !! 0%nat = Some tag ->
  (if negb (length p =? size)%nat then Ok None else
   t ← peek p 0; if negb (t =? tag) then Ok None else k) = k.
Proof.
  intros Hn H0. rewrite Hn, Nat.eqb_refl. unfold peek. rewrite H0. cbn [negb deref].
  by rewrite outcome_bind_Ok, Z.eqb_refl.
Qed.
End Guard.

(** The proof that a codec implements its layout table. [unfold_codec] opens
    the codec, its layout and its constants; [more] the helpers it calls. *)
Ltac implements unfold_codec more :=
  split;
  [ unfold_codec tt; fmt_simpl; apply fiso_laws;
    [ apply _ | by intros []
    | intros; repeat match goal with x : (_ * _)%type |- _ => destruct x end;
      by repeat match goal with x : unit |- _ => destruct x end ]
  | by vm_compute
  | intros m p Hok; unfold c_wire; unfold_codec tt; fmt_simpl;
    repeat match goal with H : _ /\ _ |- _ => destruct H end;
    match goal with |- _ = poke_all _ _ (?t :: ?l) => change (t :: l) with ([t] ++ l) end;
    lazymatch goal with |- ?e _ _ = _ => unfold e end;
    more tt; rewrite ?outcome_bind_assoc; repeat put_step; put_last
  | intros p Hp Hr; unfold c_size in *; unfold_codec tt; fmt_simpl;
    lazymatch goal with |- ?e _ = _ => unfold e end;
    apply guard_refuses; [unfold_codec tt; lia|exact Hr]
  | intros p Hp Hn H0; unfold c_size in Hn; unfold_codec tt; fmt_simpl;
    lazymatch goal with |- ?e _ = _ => unfold e end;
    rewrite guard_accepts by assumption; more tt;
    rewrite ?outcome_bind_assoc; get_steps;
    rewrite ?drop_drop; cbn [Nat.add]; reflexivity ].

(** ** Length-prefixed blocks

    A 16-bit length and the bytes: the framing of raw ITCH files and of the
    message blocks of a MoldUDP64 packet. *)
Definition framed (m : bytes) : bytes := be_bytes 2 (lengthZ m) ++ m.

Lemma length_framed m : length (framed m) = (2 + length m)%nat.
Proof. unfold framed. by rewrite length_app, length_be_bytes. Qed.

Lemma be16_value n : fits 16 n -> get_be16 (be_bytes 2 n) 0 = Ok n.
Proof.
  intros Hn. rewrite get_be16_slice by (apply be_bytes_are_bytes || by rewrite length_be_bytes).
  f_equal. unfold slice. change (drop 0 ?l) with l.
  rewrite take_ge by (by rewrite length_be_bytes).
  rewrite be_value_be_bytes. by apply Z.mod_small.
Qed.

Lemma get_be16_framed m rest :
  lengthZ m < 2 ^ 16 ->
  take 2 (framed m ++ rest) = be_bytes 2 (lengthZ m) /\
  drop 2 (framed m ++ rest) = m ++ rest /\
  get_be16 (be_bytes 2 (lengthZ m)) 0 = Ok (lengthZ m).
Proof.
  intros Hm. pose proof (lengthZ_nonneg m). unfold framed. rewrite <- app_assoc.
  rewrite take_app_length', drop_app_length' by (by rewrite length_be_bytes).
  split_and!; [done..|]. by apply be16_value.
Qed.
