(* ===== verification/Symbols.v ===== *)
(** The fixed-width, space-padded strings of the protocols: [Symbol] of
    [common/types.hpp] (8 characters) and [Token] of [ouch/ouch.hpp] (14). *)

From S2P Require Import Prelude Endian.

(** [for (i = 0; i < sv.size() && i < s.size(); ++i) s[i] = sv[i];] *)
Fixpoint copy_chars (s sv : bytes) : bytes :=
  match s, sv with
  | _ :: s', c :: sv' => c :: copy_chars s' sv'
  | _, _ => s
  end.

(** [while (len > 0 && s[len - 1] == ' ') --len;] from [len] down. *)
Fixpoint trimmed_size (s : bytes) (len : nat) : nat :=
  match len with
  | O => O
  | S k =>
      match s !! k with
      | Some 32 => trimmed_size s k
      | _ => len
      end
  end.

Definition make_symbol (sv : bytes) : bytes :=
  copy_chars [32; 32; 32; 32; 32; 32; 32; 32] sv.

Definition symbol_view (s : bytes) : bytes := take (trimmed_size s (length s)) s.

Definition make_token (sv : bytes) : bytes := copy_chars (replicate 14 32) sv.

Definition token_view (t : bytes) : bytes := take (trimmed_size t (length t)) t.

Lemma length_copy_chars s sv : length (copy_chars s sv) = length s.
Proof.
  revert sv. induction s as [|x s IH]; intros [|c sv]; cbn [copy_chars length]; congruence.
Qed.

Lemma copy_chars_bytes s sv :
  Forall is_byte s -> Forall is_byte sv -> Forall is_byte (copy_chars s sv).
Proof.
  intros Hs. revert sv. induction Hs as [|x s Hx Hs IH]; intros [|c sv] Hsv;
    cbn [copy_chars]; [constructor..| |].
  - by constructor.
  - inversion Hsv; subst. constructor; auto.
Qed.

Lemma copy_chars_spaces n sv :
  (length sv <= n)%nat ->
  copy_chars (replicate n 32) sv = sv ++ replicate (n - length sv) 32.
Proof.
  revert n. induction sv as [|c sv IH]; intros n Hn; cbn [length app] in *.
  - rewrite Nat.sub_0_r. by destruct n.
  - destruct n as [|n]; [lia|]. cbn [replicate copy_chars Nat.sub]. f_equal. apply IH. lia.
Qed.

Lemma trimmed_size_spaces s k :
  last s <> Some 32 -> trimmed_size (s ++ replicate k 32) (length s + k) = length s.
Proof.
  intros Hs. induction k as [|k IH].
  - rewrite Nat.add_0_r. cbn [replicate]. rewrite app_nil_r.
    destruct s as [|x s _] using rev_ind; [done|].
    rewrite length_app. cbn [length]. rewrite Nat.add_1_r. cbn [trimmed_size].
    rewrite lookup_app_r, Nat.sub_diag by lia. cbn [lookup list_lookup].
    rewrite last_snoc in Hs. destruct x as [|[]|]; try done.
    repeat case_match; congruence.
  - rewrite Nat.add_succ_r. cbn [trimmed_size].
    rewrite lookup_app_r, lookup_replicate_2 by lia.
    replace (s ++ replicate (S k) 32%Z) with ((s ++ replicate k 32%Z) ++ [32%Z]).
    2:{ rewrite <- app_assoc. f_equal. by rewrite <- replicate_S_end. }
    transitivity (trimmed_size (s ++ replicate k 32) (length s + k)); [|done].
    clear IH. assert (length s + k <= length (s ++ replicate k 32%Z))%nat as Hl
      by (rewrite length_app, length_replicate; lia).
    induction (length s + k)%nat as [|j IHj]; [done|]. cbn [trimmed_size].
    rewrite lookup_app_l by lia. destruct (_ !! j) as [[|[]|]|]; try done.
    repeat case_match; try done. apply IHj. lia.
Qed.

Lemma length_make_symbol sv : length (make_symbol sv) = 8%nat.
Proof. apply length_copy_chars. Qed.

Lemma length_make_token sv : length (make_token sv) = 14%nat.
Proof. apply length_copy_chars. Qed.

Lemma padded_view n sv :
  (length sv <= n)%nat -> last sv <> Some 32 ->
  let s := copy_chars (replicate n 32) sv in take (trimmed_size s (length s)) s = sv.
Proof.
  intros Hn Hl s. unfold s. rewrite copy_chars_spaces by done.
  rewrite length_app, length_replicate, trimmed_size_spaces by done.
  by rewrite take_app_length.
Qed.

(** Padding a symbol of at most eight characters that does not end in a
    space and trimming it again gives the symbol back; the same for tokens of
    at most fourteen characters. *)
Theorem symbols_round_trip sv :
  last sv <> Some 32 ->
  ((length sv <= 8)%nat -> symbol_view (make_symbol sv) = sv) /\
  ((length sv <= 14)%nat -> token_view (make_token sv) = sv).
Proof.
  intros Hl. split; intros Hn; [by apply (padded_view 8)|by apply (padded_view 14)].
Qed.

Lemma symbols_round_trip_witness :
  symbol_view (make_symbol [65; 32; 66]) = [65; 32; 66] /\
  token_view (make_token [65; 32; 66]) = [65; 32; 66].
Proof.
  destruct (symbols_round_trip [65; 32; 66]) as [Hs Ht]; [done|].
  split; [apply Hs|apply Ht]; cbn; lia.
Defined.
