(* ===== verification/Ouch.v ===== *)
(** The OUCH 4.2 codec of [ouch/ouch.hpp]: the nine message types, their
    encoders and decoders with the offsets of the source, and the layout
    tables they implement. *)

From S2P Require Import Prelude Endian BookTypes Wire Symbols.
From Stdlib Require Import Ascii.

Module Ouch.
Local Open Scope char_scope.
Local Open Scope Z_scope.

Abbreviation Token := bytes.
Abbreviation Symbol := bytes.
Abbreviation Firm := bytes.

Definition kTifIOC : Z := 0.
Definition kTifDay : Z := 99999.
Definition kMarketPrice : Price := 0x7FFFFFFF.

(** ** Helpers of the [detail] namespace *)

(** [std::memcpy] of the first [n] characters of [s]. *)
Definition put_chars (p : bytes) (o : nat) (s : bytes) (n : nat) : outcome bytes :=
  poke_n p o s n.

Definition get_chars (p : bytes) (o n : nat) : outcome bytes := peek_all p o n.

Definition put_price (p : bytes) (o : nat) (v : Price) : outcome bytes :=
  put_be32 p o (u32 v).

Definition get_price (p : bytes) (o : nat) : outcome Price := get_be32 p o.

(** ** Messages *)

Record EnterOrder := mkEnterOrder {
  eo_token : Token;
  eo_side : Side;
  eo_shares : Z;
  eo_stock : Symbol;
  eo_price : Price;
  eo_tif : Z;
  eo_firm : Firm;
  eo_display : Z;
  eo_capacity : Z;
  eo_intermarket_sweep : Z;
  eo_min_qty : Z;
  eo_cross_type : Z;
  eo_customer_type : Z }.
Definition kEnterOrderSize : nat := 49.

Definition encode_EnterOrder (m : EnterOrder) (p : bytes) : outcome bytes :=
  p ← poke p 0 (chr "O");
  p ← put_chars p 1 (eo_token m) 14;
  p ← poke p 15 (byte_of_side (eo_side m));
  p ← put_be32 p 16 (eo_shares m);
  p ← put_chars p 20 (eo_stock m) 8;
  p ← put_price p 28 (eo_price m);
  p ← put_be32 p 32 (eo_tif m);
  p ← put_chars p 36 (eo_firm m) 4;
  p ← poke p 40 (eo_display m);
  p ← poke p 41 (eo_capacity m);
  p ← poke p 42 (eo_intermarket_sweep m);
  p ← put_be32 p 43 (eo_min_qty m);
  p ← poke p 47 (eo_cross_type m);
  poke p 48 (eo_customer_type m).

Definition decode_enter_order (p : bytes) : outcome (option EnterOrder) :=
  if negb (length p =? kEnterOrderSize)%nat then Ok None else
  t ← peek p 0;
  if negb (t =? chr "O") then Ok None else
  token ← get_chars p 1 14;
  side ← peek p 15;
  shares ← get_be32 p 16;
  stock ← get_chars p 20 8;
  price ← get_price p 28;
  tif ← get_be32 p 32;
  firm ← get_chars p 36 4;
  display ← peek p 40;
  capacity ← peek p 41;
  intermarket_sweep ← peek p 42;
  min_qty ← get_be32 p 43;
  cross_type ← peek p 47;
  customer_type ← peek p 48;
  Ok (Some (mkEnterOrder token (side_of_byte side) shares stock price tif firm display
      capacity intermarket_sweep min_qty cross_type customer_type)).

Record CancelOrder := mkCancelOrder {
  co_token : Token;
  co_shares : Z }.
Definition kCancelOrderSize : nat := 19.

Definition encode_CancelOrder (m : CancelOrder) (p : bytes) : outcome bytes :=
  p ← poke p 0 (chr "X");
  p ← put_chars p 1 (co_token m) 14;
  put_be32 p 15 (co_shares m).

Definition decode_cancel_order (p : bytes) : outcome (option CancelOrder) :=
  if negb (length p =? kCancelOrderSize)%nat then Ok None else
  t ← peek p 0;
  if negb (t =? chr "X") then Ok None else
  token ← get_chars p 1 14;
  shares ← get_be32 p 15;
  Ok (Some (mkCancelOrder token shares)).

Record ReplaceOrder := mkReplaceOrder {
  ro_existing_token : Token;
  ro_replacement_token : Token;
  ro_shares : Z;
  ro_price : Price;
  ro_tif : Z;
  ro_display : Z;
  ro_intermarket_sweep : Z;
  ro_min_qty : Z }.
Definition kReplaceOrderSize : nat := 47.

Definition encode_ReplaceOrder (m : ReplaceOrder) (p : bytes) : outcome bytes :=
  p ← poke p 0 (chr "U");
  p ← put_chars p 1 (ro_existing_token m) 14;
  p ← put_chars p 15 (ro_replacement_token m) 14;
  p ← put_be32 p 29 (ro_shares m);
  p ← put_price p 33 (ro_price m);
  p ← put_be32 p 37 (ro_tif m);
  p ← poke p 41 (ro_display m);
  p ← poke p 42 (ro_intermarket_sweep m);
  put_be32 p 43 (ro_min_qty m).

Definition decode_replace_order (p : bytes) : outcome (option ReplaceOrder) :=
  if negb (length p =? kReplaceOrderSize)%nat then Ok None else
  t ← peek p 0;
  if negb (t =? chr "U") then Ok None else
  existing_token ← get_chars p 1 14;
  replacement_token ← get_chars p 15 14;
  shares ← get_be32 p 29;
  price ← get_price p 33;
  tif ← get_be32 p 37;
  display ← peek p 41;
  intermarket_sweep ← peek p 42;
  min_qty ← get_be32 p 43;
  Ok (Some (mkReplaceOrder existing_token replacement_token shares price tif display
      intermarket_sweep min_qty)).

Record SystemEvent := mkSystemEvent {
  se_timestamp : Z;
  se_event_code : Z }.
Definition kSystemEventSize : nat := 10.

Definition encode_SystemEvent (m : SystemEvent) (p : bytes) : outcome bytes :=
  p ← poke p 0 (chr "S");
  p ← put_be64 p 1 (se_timestamp m);
  poke p 9 (se_event_code m).

Definition decode_system_event (p : bytes) : outcome (option SystemEvent) :=
  if negb (length p =? kSystemEventSize)%nat then Ok None else
  t ← peek p 0;
  if negb (t =? chr "S") then Ok None else
  timestamp ← get_be64 p 1;
  event_code ← peek p 9;
  Ok (Some (mkSystemEvent timestamp event_code)).

Record Accepted := mkAccepted {
  ac_timestamp : Z;
  ac_token : Token;
  ac_side : Side;
  ac_shares : Z;
  ac_stock : Symbol;
  ac_price : Price;
  ac_tif : Z;
  ac_firm : Firm;
  ac_display : Z;
  ac_order_ref : Z;
  ac_capacity : Z;
  ac_intermarket_sweep : Z;
  ac_min_qty : Z;
  ac_cross_type : Z;
  ac_order_state : Z;
  ac_bbo_weight_indicator : Z }.
Definition kAcceptedSize : nat := 66.

(** Accepted and Replaced share this 66-byte body (the type byte differs). *)
Definition put_accepted_body (m : Accepted) (p : bytes) : outcome bytes :=
  p ← put_be64 p 1 (ac_timestamp m);
  p ← put_chars p 9 (ac_token m) 14;
  p ← poke p 23 (byte_of_side (ac_side m));
  p ← put_be32 p 24 (ac_shares m);
  p ← put_chars p 28 (ac_stock m) 8;
  p ← put_price p 36 (ac_price m);
  p ← put_be32 p 40 (ac_tif m);
  p ← put_chars p 44 (ac_firm m) 4;
  p ← poke p 48 (ac_display m);
  p ← put_be64 p 49 (ac_order_ref m);
  p ← poke p 57 (ac_capacity m);
  p ← poke p 58 (ac_intermarket_sweep m);
  p ← put_be32 p 59 (ac_min_qty m);
  p ← poke p 63 (ac_cross_type m);
  p ← poke p 64 (ac_order_state m);
  poke p 65 (ac_bbo_weight_indicator m).

Definition get_accepted_body (p : bytes) : outcome Accepted :=
  timestamp ← get_be64 p 1;
  token ← get_chars p 9 14;
  side ← peek p 23;
  shares ← get_be32 p 24;
  stock ← get_chars p 28 8;
  price ← get_price p 36;
  tif ← get_be32 p 40;
  firm ← get_chars p 44 4;
  display ← peek p 48;
  order_ref ← get_be64 p 49;
  capacity ← peek p 57;
  intermarket_sweep ← peek p 58;
  min_qty ← get_be32 p 59;
  cross_type ← peek p 63;
  order_state ← peek p 64;
  bbo_weight_indicator ← peek p 65;
  Ok (mkAccepted timestamp token (side_of_byte side) shares stock price tif firm display
      order_ref capacity intermarket_sweep min_qty cross_type order_state
      bbo_weight_indicator).

Definition encode_Accepted (m : Accepted) (p : bytes) : outcome bytes :=
  p ← poke p 0 (chr "A");
  put_accepted_body m p.

Definition decode_accepted (p : bytes) : outcome (option Accepted) :=
  if negb (length p =? kAcceptedSize)%nat then Ok None else
  t ← peek p 0;
  if negb (t =? chr "A") then Ok None else
  m ← get_accepted_body p;
  Ok (Some m).

Record Replaced := mkReplaced {
  rp_timestamp : Z;
  rp_replacement_token : Token;
  rp_side : Side;
  rp_shares : Z;
  rp_stock : Symbol;
  rp_price : Price;
  rp_tif : Z;
  rp_firm : Firm;
  rp_display : Z;
  rp_order_ref : Z;
  rp_capacity : Z;
  rp_intermarket_sweep : Z;
  rp_min_qty : Z;
  rp_cross_type : Z;
  rp_order_state : Z;
  rp_bbo_weight_indicator : Z;
  rp_previous_token : Token }.
Definition kReplacedSize : nat := 80.

Definition encode_Replaced (m : Replaced) (p : bytes) : outcome bytes :=
  p ← poke p 0 (chr "U");
  let body := mkAccepted (rp_timestamp m) (rp_replacement_token m) (rp_side m)
      (rp_shares m) (rp_stock m) (rp_price m) (rp_tif m) (rp_firm m) (rp_display m)
      (rp_order_ref m) (rp_capacity m) (rp_intermarket_sweep m) (rp_min_qty m)
      (rp_cross_type m) (rp_order_state m) (rp_bbo_weight_indicator m) in
  p ← put_accepted_body body p;
  put_chars p 66 (rp_previous_token m) 14.

Definition decode_replaced (p : bytes) : outcome (option Replaced) :=
  if negb (length p =? kReplacedSize)%nat then Ok None else
  t ← peek p 0;
  if negb (t =? chr "U") then Ok None else
  body ← get_accepted_body p;
  previous_token ← get_chars p 66 14;
  Ok (Some (mkReplaced (ac_timestamp body) (ac_token body) (ac_side body) (ac_shares
      body) (ac_stock body) (ac_price body) (ac_tif body) (ac_firm body) (ac_display
      body) (ac_order_ref body) (ac_capacity body) (ac_intermarket_sweep body)
      (ac_min_qty body) (ac_cross_type body) (ac_order_state body)
      (ac_bbo_weight_indicator body)
    previous_token)).

Record Executed := mkExecuted {
  xc_timestamp : Z;
  xc_token : Token;
  xc_executed_shares : Z;
  xc_execution_price : Price;
  xc_liquidity_flag : Z;
  xc_match_number : Z }.
Definition kExecutedSize : nat := 40.

Definition encode_Executed (m : Executed) (p : bytes) : outcome bytes :=
  p ← poke p 0 (chr "E");
  p ← put_be64 p 1 (xc_timestamp m);
  p ← put_chars p 9 (xc_token m) 14;
  p ← put_be32 p 23 (xc_executed_shares m);
  p ← put_price p 27 (xc_execution_price m);
  p ← poke p 31 (xc_liquidity_flag m);
  put_be64 p 32 (xc_match_number m).

Definition decode_executed (p : bytes) : outcome (option Executed) :=
  if negb (length p =? kExecutedSize)%nat then Ok None else
  t ← peek p 0;
  if negb (t =? chr "E") then Ok None else
  timestamp ← get_be64 p 1;
  token ← get_chars p 9 14;
  executed_shares ← get_be32 p 23;
  execution_price ← get_price p 27;
  liquidity_flag ← peek p 31;
  match_number ← get_be64 p 32;
  Ok (Some (mkExecuted timestamp token executed_shares execution_price liquidity_flag
      match_number)).

Record Canceled := mkCanceled {
  cn_timestamp : Z;
  cn_token : Token;
  cn_decrement_shares : Z;
  cn_reason : Z }.
Definition kCanceledSize : nat := 28.

Definition encode_Canceled (m : Canceled) (p : bytes) : outcome bytes :=
  p ← poke p 0 (chr "C");
  p ← put_be64 p 1 (cn_timestamp m);
  p ← put_chars p 9 (cn_token m) 14;
  p ← put_be32 p 23 (cn_decrement_shares m);
  poke p 27 (cn_reason m).

Definition decode_canceled (p : bytes) : outcome (option Canceled) :=
  if negb (length p =? kCanceledSize)%nat then Ok None else
  t ← peek p 0;
  if negb (t =? chr "C") then Ok None else
  timestamp ← get_be64 p 1;
  token ← get_chars p 9 14;
  decrement_shares ← get_be32 p 23;
  reason ← peek p 27;
  Ok (Some (mkCanceled timestamp token decrement_shares reason)).

Record Rejected := mkRejected {
  rj_timestamp : Z;
  rj_token : Token;
  rj_reason : Z }.
Definition kRejectedSize : nat := 24.

Definition encode_Rejected (m : Rejected) (p : bytes) : outcome bytes :=
  p ← poke p 0 (chr "J");
  p ← put_be64 p 1 (rj_timestamp m);
  p ← put_chars p 9 (rj_token m) 14;
  poke p 23 (rj_reason m).

Definition decode_rejected (p : bytes) : outcome (option Rejected) :=
  if negb (length p =? kRejectedSize)%nat then Ok None else
  t ← peek p 0;
  if negb (t =? chr "J") then Ok None else
  timestamp ← get_be64 p 1;
  token ← get_chars p 9 14;
  reason ← peek p 23;
  Ok (Some (mkRejected timestamp token reason)).
(** ** Layout tables *)

Definition EnterOrder_body : format EnterOrder := fiso
  (chars 14 +++ side +++ be 4 +++ chars 8 +++ be 4 +++ be 4 +++ chars 4 +++ char +++
      char +++ char +++ be 4 +++ char +++ char +++ fnil)
  (fun m => (eo_token m, (eo_side m, (eo_shares m, (eo_stock m, (eo_price m, (eo_tif m,
      (eo_firm m, (eo_display m, (eo_capacity m, (eo_intermarket_sweep m, (eo_min_qty m,
      (eo_cross_type m, (eo_customer_type m, tt))))))))))))))
  (fun '(x0, (x1, (x2, (x3, (x4, (x5, (x6, (x7, (x8, (x9, (x10, (x11, (x12,
      _))))))))))))) => mkEnterOrder x0 x1 x2 x3 x4 x5 x6 x7 x8 x9 x10 x11 x12).
Definition EnterOrder_codec : Codec EnterOrder := mkCodec (chr "O") EnterOrder_body
    encode_EnterOrder decode_enter_order.

Definition CancelOrder_body : format CancelOrder := fiso
  (chars 14 +++ be 4 +++ fnil)
  (fun m => (co_token m, (co_shares m, tt)))
  (fun '(x0, (x1, _)) => mkCancelOrder x0 x1).
Definition CancelOrder_codec : Codec CancelOrder := mkCodec (chr "X") CancelOrder_body
    encode_CancelOrder decode_cancel_order.

Definition ReplaceOrder_body : format ReplaceOrder := fiso
  (chars 14 +++ chars 14 +++ be 4 +++ be 4 +++ be 4 +++ char +++ char +++ be 4 +++ fnil)
  (fun m => (ro_existing_token m, (ro_replacement_token m, (ro_shares m, (ro_price m,
      (ro_tif m, (ro_display m, (ro_intermarket_sweep m, (ro_min_qty m, tt)))))))))
  (fun '(x0, (x1, (x2, (x3, (x4, (x5, (x6, (x7, _)))))))) => mkReplaceOrder x0 x1 x2 x3
      x4 x5 x6 x7).
Definition ReplaceOrder_codec : Codec ReplaceOrder := mkCodec (chr "U")
    ReplaceOrder_body encode_ReplaceOrder decode_replace_order.

Definition SystemEvent_body : format SystemEvent := fiso
  (be 8 +++ char +++ fnil)
  (fun m => (se_timestamp m, (se_event_code m, tt)))
  (fun '(x0, (x1, _)) => mkSystemEvent x0 x1).
Definition SystemEvent_codec : Codec SystemEvent := mkCodec (chr "S") SystemEvent_body
    encode_SystemEvent decode_system_event.

Definition Accepted_body : format Accepted := fiso
  (be 8 +++ chars 14 +++ side +++ be 4 +++ chars 8 +++ be 4 +++ be 4 +++ chars 4 +++
      char +++ be 8 +++ char +++ char +++ be 4 +++ char +++ char +++ char +++ fnil)
  (fun m => (ac_timestamp m, (ac_token m, (ac_side m, (ac_shares m, (ac_stock m,
      (ac_price m, (ac_tif m, (ac_firm m, (ac_display m, (ac_order_ref m, (ac_capacity
      m, (ac_intermarket_sweep m, (ac_min_qty m, (ac_cross_type m, (ac_order_state m,
      (ac_bbo_weight_indicator m, tt)))))))))))))))))
  (fun '(x0, (x1, (x2, (x3, (x4, (x5, (x6, (x7, (x8, (x9, (x10, (x11, (x12, (x13, (x14,
      (x15, _)))))))))))))))) => mkAccepted x0 x1 x2 x3 x4 x5 x6 x7 x8 x9 x10 x11 x12
      x13 x14 x15).
Definition Accepted_codec : Codec Accepted := mkCodec (chr "A") Accepted_body
    encode_Accepted decode_accepted.

Definition Replaced_body : format Replaced := fiso
  (be 8 +++ chars 14 +++ side +++ be 4 +++ chars 8 +++ be 4 +++ be 4 +++ chars 4 +++
      char +++ be 8 +++ char +++ char +++ be 4 +++ char +++ char +++ char +++ chars 14
      +++ fnil)
  (fun m => (rp_timestamp m, (rp_replacement_token m, (rp_side m, (rp_shares m,
      (rp_stock m, (rp_price m, (rp_tif m, (rp_firm m, (rp_display m, (rp_order_ref m,
      (rp_capacity m, (rp_intermarket_sweep m, (rp_min_qty m, (rp_cross_type m,
      (rp_order_state m, (rp_bbo_weight_indicator m, (rp_previous_token m,
      tt))))))))))))))))))
  (fun '(x0, (x1, (x2, (x3, (x4, (x5, (x6, (x7, (x8, (x9, (x10, (x11, (x12, (x13, (x14,
      (x15, (x16, _))))))))))))))))) => mkReplaced x0 x1 x2 x3 x4 x5 x6 x7 x8 x9 x10 x11
      x12 x13 x14 x15 x16).
Definition Replaced_codec : Codec Replaced := mkCodec (chr "U") Replaced_body
    encode_Replaced decode_replaced.

Definition Executed_body : format Executed := fiso
  (be 8 +++ chars 14 +++ be 4 +++ be 4 +++ char +++ be 8 +++ fnil)
  (fun m => (xc_timestamp m, (xc_token m, (xc_executed_shares m, (xc_execution_price m,
      (xc_liquidity_flag m, (xc_match_number m, tt)))))))
  (fun '(x0, (x1, (x2, (x3, (x4, (x5, _)))))) => mkExecuted x0 x1 x2 x3 x4 x5).
Definition Executed_codec : Codec Executed := mkCodec (chr "E") Executed_body
    encode_Executed decode_executed.

Definition Canceled_body : format Canceled := fiso
  (be 8 +++ chars 14 +++ be 4 +++ char +++ fnil)
  (fun m => (cn_timestamp m, (cn_token m, (cn_decrement_shares m, (cn_reason m, tt)))))
  (fun '(x0, (x1, (x2, (x3, _)))) => mkCanceled x0 x1 x2 x3).
Definition Canceled_codec : Codec Canceled := mkCodec (chr "C") Canceled_body
    encode_Canceled decode_canceled.

Definition Rejected_body : format Rejected := fiso
  (be 8 +++ chars 14 +++ char +++ fnil)
  (fun m => (rj_timestamp m, (rj_token m, (rj_reason m, tt))))
  (fun '(x0, (x1, (x2, _))) => mkRejected x0 x1 x2).
Definition Rejected_codec : Codec Rejected := mkCodec (chr "J") Rejected_body
    encode_Rejected decode_rejected.
(** ** Correctness *)

Lemma put_chars_all p o s n : length s = n -> put_chars p o s n = poke_all p o s.
Proof. apply poke_n_all. Qed.

Lemma put_price_all p o v : put_price p o v = poke_all p o (be_bytes 4 v).
Proof. unfold put_price. by rewrite put_be32_all, be_bytes_wrap. Qed.

#[local] Hint Resolve put_chars_all put_price_all : wire_put.

Lemma get_chars_slice p o n :
  (o + n <= length p)%nat -> get_chars p o n = Ok (slice o n p).
Proof. apply peek_all_slice. Qed.

Ltac ouch_helpers _ :=
  cbv zeta; unfold get_chars, get_price, put_accepted_body, get_accepted_body;
  cbn [ac_timestamp ac_token ac_side ac_shares ac_stock ac_price ac_tif ac_firm
       ac_display ac_order_ref ac_capacity ac_intermarket_sweep ac_min_qty
       ac_cross_type ac_order_state ac_bbo_weight_indicator].

Lemma EnterOrder_implements : codec_implements EnterOrder_codec.
Proof.
  implements ltac:(fun _ => unfold EnterOrder_codec, EnterOrder_body, kEnterOrderSize in * ) ouch_helpers.
Qed.

Lemma CancelOrder_implements : codec_implements CancelOrder_codec.
Proof.
  implements ltac:(fun _ => unfold CancelOrder_codec, CancelOrder_body, kCancelOrderSize in * ) ouch_helpers.
Qed.

Lemma ReplaceOrder_implements : codec_implements ReplaceOrder_codec.
Proof.
  implements ltac:(fun _ => unfold ReplaceOrder_codec, ReplaceOrder_body, kReplaceOrderSize in * ) ouch_helpers.
Qed.

Lemma SystemEvent_implements : codec_implements SystemEvent_codec.
Proof.
  implements ltac:(fun _ => unfold SystemEvent_codec, SystemEvent_body, kSystemEventSize in * ) ouch_helpers.
Qed.

Lemma Accepted_implements : codec_implements Accepted_codec.
Proof.
  implements ltac:(fun _ => unfold Accepted_codec, Accepted_body, kAcceptedSize in * ) ouch_helpers.
Qed.

Lemma Replaced_implements : codec_implements Replaced_codec.
Proof.
  implements ltac:(fun _ => unfold Replaced_codec, Replaced_body, kReplacedSize in * ) ouch_helpers.
Qed.

Lemma Executed_implements : codec_implements Executed_codec.
Proof.
  implements ltac:(fun _ => unfold Executed_codec, Executed_body, kExecutedSize in * ) ouch_helpers.
Qed.

Lemma Canceled_implements : codec_implements Canceled_codec.
Proof.
  implements ltac:(fun _ => unfold Canceled_codec, Canceled_body, kCanceledSize in * ) ouch_helpers.
Qed.

Lemma Rejected_implements : codec_implements Rejected_codec.
Proof.
  implements ltac:(fun _ => unfold Rejected_codec, Rejected_body, kRejectedSize in * ) ouch_helpers.
Qed.

(** The nine message types of the protocol, as one statement. *)
Definition all_codecs_correct : Prop :=
  codec_correct EnterOrder_codec /\ codec_correct CancelOrder_codec /\
  codec_correct ReplaceOrder_codec /\ codec_correct SystemEvent_codec /\
  codec_correct Accepted_codec /\ codec_correct Replaced_codec /\
  codec_correct Executed_codec /\ codec_correct Canceled_codec /\
  codec_correct Rejected_codec.

(** C34: every OUCH message type has a correct codec: encoding a message whose
    fields fit their widths fills exactly the bytes of the layout table and
    decoding them gives the message back; decoding an arbitrary byte string
    never reads out of bounds, accepts exactly the strings of the right length
    and type byte, and returns a message that encodes to that same string. *)
Theorem ouch_codecs_correct : all_codecs_correct.
Proof.
  unfold all_codecs_correct. split_and!; apply implements_correct;
  auto using EnterOrder_implements, CancelOrder_implements, ReplaceOrder_implements,
    SystemEvent_implements, Accepted_implements, Replaced_implements,
    Executed_implements, Canceled_implements, Rejected_implements.
Qed.
End Ouch.
