(* ===== verification/Itch.v ===== *)
(** The ITCH 5.0 codec of [itch/itch.hpp]: the eleven message types, their
    encoders and the decoder with the offsets of the source, and the layout
    tables they implement. The encoder and the decoder of a Trade access its
    match number at offset 40 of a 44-byte message, past its end, so a Trade
    has no layout here. *)

From S2P Require Import Prelude Endian BookTypes Wire.
From Stdlib Require Import Ascii.

Module Itch.
Local Open Scope char_scope.
Local Open Scope Z_scope.

Abbreviation Symbol := bytes.

Record Header := mkHeader {
  h_stock_locate : Z;
  h_tracking : Z;
  h_timestamp : Z }.

(** ** Helpers of the [detail] namespace *)

Definition put_header (p : bytes) (type : Z) (h : Header) : outcome bytes :=
  p ← poke p 0 type;
  p ← put_be16 p 1 (h_stock_locate h);
  p ← put_be16 p 3 (h_tracking h);
  put_be48 p 5 (h_timestamp h).

Definition get_header (p : bytes) : outcome Header :=
  stock_locate ← get_be16 p 1;
  tracking ← get_be16 p 3;
  timestamp ← get_be48 p 5;
  Ok (mkHeader stock_locate tracking timestamp).

Definition put_price (p : bytes) (o : nat) (v : Price) : outcome bytes :=
  put_be32 p o (u32 v).

Definition get_price (p : bytes) (o : nat) : outcome Price := get_be32 p o.

Definition put_symbol (p : bytes) (o : nat) (s : Symbol) : outcome bytes :=
  poke_n p o s 8.

Definition get_symbol (p : bytes) (o : nat) : outcome Symbol := peek_all p o 8.

Definition header : format Header := fiso
  (be 2 +++ be 2 +++ be 6 +++ fnil)
  (fun h => (h_stock_locate h, (h_tracking h, (h_timestamp h, tt))))
  (fun '(a, (b, (c, _))) => mkHeader a b c).

(** ** Messages *)

Record SystemEvent := mkSystemEvent {
  se_header : Header;
  se_event_code : Z }.

Record StockDirectory := mkStockDirectory {
  sd_header : Header;
  sd_stock : Symbol;
  sd_market_category : Z;
  sd_financial_status : Z;
  sd_round_lot_size : Z;
  sd_round_lots_only : Z;
  sd_issue_classification : Z;
  sd_issue_subtype : bytes;
  sd_authenticity : Z;
  sd_short_sale_threshold : Z;
  sd_ipo_flag : Z;
  sd_luld_tier : Z;
  sd_etp_flag : Z;
  sd_etp_leverage : Z;
  sd_inverse_indicator : Z }.

Record TradingAction := mkTradingAction {
  ta_header : Header;
  ta_stock : Symbol;
  ta_trading_state : Z;
  ta_reserved : Z;
  ta_reason : bytes }.

Record AddOrder := mkAddOrder {
  ao_header : Header;
  ao_order_ref : Z;
  ao_side : Side;
  ao_shares : Z;
  ao_stock : Symbol;
  ao_price : Price }.

Record AddOrderMpid := mkAddOrderMpid {
  am_add : AddOrder;
  am_attribution : bytes }.

Record OrderExecuted := mkOrderExecuted {
  oe_header : Header;
  oe_order_ref : Z;
  oe_executed_shares : Z;
  oe_match_number : Z }.

Record OrderExecutedWithPrice := mkOrderExecutedWithPrice {
  op_exec : OrderExecuted;
  op_printable : Z;
  op_execution_price : Price }.

Record OrderCancel := mkOrderCancel {
  oc_header : Header;
  oc_order_ref : Z;
  oc_canceled_shares : Z }.

Record OrderDelete := mkOrderDelete {
  od_header : Header;
  od_order_ref : Z }.

Record OrderReplace := mkOrderReplace {
  ou_header : Header;
  ou_original_ref : Z;
  ou_new_ref : Z;
  ou_shares : Z;
  ou_price : Price }.

Record Trade := mkTrade {
  tr_header : Header;
  tr_order_ref : Z;
  tr_side : Side;
  tr_shares : Z;
  tr_stock : Symbol;
  tr_price : Price;
  tr_match_number : Z }.

(** ** Encoders *)

Definition encode_SystemEvent (m : SystemEvent) (p : bytes) : outcome bytes :=
  p ← put_header p (chr "S") (se_header m);
  poke p 11 (se_event_code m).

Definition encode_StockDirectory (m : StockDirectory) (p : bytes) : outcome bytes :=
  p ← put_header p (chr "R") (sd_header m);
  p ← put_symbol p 11 (sd_stock m);
  p ← poke p 19 (sd_market_category m);
  p ← poke p 20 (sd_financial_status m);
  p ← put_be32 p 21 (sd_round_lot_size m);
  p ← poke p 25 (sd_round_lots_only m);
  p ← poke p 26 (sd_issue_classification m);
  p ← poke_n p 27 (sd_issue_subtype m) 2;
  p ← poke p 29 (sd_authenticity m);
  p ← poke p 30 (sd_short_sale_threshold m);
  p ← poke p 31 (sd_ipo_flag m);
  p ← poke p 32 (sd_luld_tier m);
  p ← poke p 33 (sd_etp_flag m);
  p ← put_be32 p 34 (sd_etp_leverage m);
  poke p 38 (sd_inverse_indicator m).

Definition encode_TradingAction (m : TradingAction) (p : bytes) : outcome bytes :=
  p ← put_header p (chr "H") (ta_header m);
  p ← put_symbol p 11 (ta_stock m);
  p ← poke p 19 (ta_trading_state m);
  p ← poke p 20 (ta_reserved m);
  poke_n p 21 (ta_reason m) 4.

Definition encode_AddOrder (m : AddOrder) (p : bytes) : outcome bytes :=
  p ← put_header p (chr "A") (ao_header m);
  p ← put_be64 p 11 (ao_order_ref m);
  p ← poke p 19 (byte_of_side (ao_side m));
  p ← put_be32 p 20 (ao_shares m);
  p ← put_symbol p 24 (ao_stock m);
  put_price p 32 (ao_price m).

Definition encode_AddOrderMpid (m : AddOrderMpid) (p : bytes) : outcome bytes :=
  p ← encode_AddOrder (am_add m) p;
  p ← poke p 0 (chr "F");
  poke_n p 36 (am_attribution m) 4.

Definition encode_OrderExecuted (m : OrderExecuted) (p : bytes) : outcome bytes :=
  p ← put_header p (chr "E") (oe_header m);
  p ← put_be64 p 11 (oe_order_ref m);
  p ← put_be32 p 19 (oe_executed_shares m);
  put_be64 p 23 (oe_match_number m).

Definition encode_OrderExecutedWithPrice (m : OrderExecutedWithPrice) (p : bytes) :
    outcome bytes :=
  p ← encode_OrderExecuted (op_exec m) p;
  p ← poke p 0 (chr "C");
  p ← poke p 31 (op_printable m);
  put_price p 32 (op_execution_price m).

Definition encode_OrderCancel (m : OrderCancel) (p : bytes) : outcome bytes :=
  p ← put_header p (chr "X") (oc_header m);
  p ← put_be64 p 11 (oc_order_ref m);
  put_be32 p 19 (oc_canceled_shares m).

Definition encode_OrderDelete (m : OrderDelete) (p : bytes) : outcome bytes :=
  p ← put_header p (chr "D") (od_header m);
  put_be64 p 11 (od_order_ref m).

Definition encode_OrderReplace (m : OrderReplace) (p : bytes) : outcome bytes :=
  p ← put_header p (chr "U") (ou_header m);
  p ← put_be64 p 11 (ou_original_ref m);
  p ← put_be64 p 19 (ou_new_ref m);
  p ← put_be32 p 27 (ou_shares m);
  put_price p 31 (ou_price m).

Definition encode_Trade (m : Trade) (p : bytes) : outcome bytes :=
  p ← put_header p (chr "P") (tr_header m);
  p ← put_be64 p 11 (tr_order_ref m);
  p ← poke p 19 (byte_of_side (tr_side m));
  p ← put_be32 p 20 (tr_shares m);
  p ← put_symbol p 24 (tr_stock m);
  p ← put_price p 32 (tr_price m);
  put_be64 p 40 (tr_match_number m).

(** ** The decoder

    [get_X] is the body of the case of [decode] for type [X], after the length
    check. *)

Definition get_SystemEvent (p : bytes) : outcome SystemEvent :=
  hdr ← get_header p;
  event_code ← peek p 11;
  Ok (mkSystemEvent hdr event_code).

Definition get_StockDirectory (p : bytes) : outcome StockDirectory :=
  hdr ← get_header p;
  stock ← get_symbol p 11;
  market_category ← peek p 19;
  financial_status ← peek p 20;
  round_lot_size ← get_be32 p 21;
  round_lots_only ← peek p 25;
  issue_classification ← peek p 26;
  issue_subtype ← peek_all p 27 2;
  authenticity ← peek p 29;
  short_sale_threshold ← peek p 30;
  ipo_flag ← peek p 31;
  luld_tier ← peek p 32;
  etp_flag ← peek p 33;
  etp_leverage ← get_be32 p 34;
  inverse_indicator ← peek p 38;
  Ok (mkStockDirectory hdr stock market_category financial_status round_lot_size
      round_lots_only issue_classification issue_subtype authenticity
      short_sale_threshold ipo_flag luld_tier etp_flag etp_leverage inverse_indicator).

Definition get_TradingAction (p : bytes) : outcome TradingAction :=
  hdr ← get_header p;
  stock ← get_symbol p 11;
  trading_state ← peek p 19;
  reserved ← peek p 20;
  reason ← peek_all p 21 4;
  Ok (mkTradingAction hdr stock trading_state reserved reason).

Definition get_AddOrder (p : bytes) : outcome AddOrder :=
  hdr ← get_header p;
  order_ref ← get_be64 p 11;
  side ← peek p 19;
  shares ← get_be32 p 20;
  stock ← get_symbol p 24;
  price ← get_price p 32;
  Ok (mkAddOrder hdr order_ref (side_of_byte side) shares stock price).

Definition get_AddOrderMpid (p : bytes) : outcome AddOrderMpid :=
  hdr ← get_header p;
  order_ref ← get_be64 p 11;
  side ← peek p 19;
  shares ← get_be32 p 20;
  stock ← get_symbol p 24;
  price ← get_price p 32;
  attribution ← peek_all p 36 4;
  Ok (mkAddOrderMpid (mkAddOrder hdr order_ref (side_of_byte side) shares stock price)
      attribution).

Definition get_OrderExecuted (p : bytes) : outcome OrderExecuted :=
  hdr ← get_header p;
  order_ref ← get_be64 p 11;
  executed_shares ← get_be32 p 19;
  match_number ← get_be64 p 23;
  Ok (mkOrderExecuted hdr order_ref executed_shares match_number).

Definition get_OrderExecutedWithPrice (p : bytes) : outcome OrderExecutedWithPrice :=
  hdr ← get_header p;
  order_ref ← get_be64 p 11;
  executed_shares ← get_be32 p 19;
  match_number ← get_be64 p 23;
  printable ← peek p 31;
  execution_price ← get_price p 32;
  Ok (mkOrderExecutedWithPrice (mkOrderExecuted hdr order_ref executed_shares
      match_number) printable execution_price).

Definition get_OrderCancel (p : bytes) : outcome OrderCancel :=
  hdr ← get_header p;
  order_ref ← get_be64 p 11;
  canceled_shares ← get_be32 p 19;
  Ok (mkOrderCancel hdr order_ref canceled_shares).

Definition get_OrderDelete (p : bytes) : outcome OrderDelete :=
  hdr ← get_header p;
  order_ref ← get_be64 p 11;
  Ok (mkOrderDelete hdr order_ref).

Definition get_OrderReplace (p : bytes) : outcome OrderReplace :=
  hdr ← get_header p;
  original_ref ← get_be64 p 11;
  new_ref ← get_be64 p 19;
  shares ← get_be32 p 27;
  price ← get_price p 31;
  Ok (mkOrderReplace hdr original_ref new_ref shares price).

Definition get_Trade (p : bytes) : outcome Trade :=
  hdr ← get_header p;
  order_ref ← get_be64 p 11;
  side ← peek p 19;
  shares ← get_be32 p 20;
  stock ← get_symbol p 24;
  price ← get_price p 32;
  match_number ← get_be64 p 40;
  Ok (mkTrade hdr order_ref (side_of_byte side) shares stock price match_number).

Inductive Message :=
  | MSystemEvent (m : SystemEvent)
  | MStockDirectory (m : StockDirectory)
  | MTradingAction (m : TradingAction)
  | MAddOrder (m : AddOrder)
  | MAddOrderMpid (m : AddOrderMpid)
  | MOrderExecuted (m : OrderExecuted)
  | MOrderExecutedWithPrice (m : OrderExecutedWithPrice)
  | MOrderCancel (m : OrderCancel)
  | MOrderDelete (m : OrderDelete)
  | MOrderReplace (m : OrderReplace)
  | MTrade (m : Trade).

(** [if (n != T::kSize) return nullopt; ... return m;] *)
Definition sized {A} (p : bytes) (kSize : nat) (get : bytes -> outcome A)
    (wrap_as : A -> Message) : outcome (option Message) :=
  if negb (length p =? kSize)%nat then Ok None else
  m ← get p;
  Ok (Some (wrap_as m)).

Definition decode (p : bytes) : outcome (option Message) :=
  if (length p =? 0)%nat then Ok None else
  t ← peek p 0;
  if t =? chr "S" then sized p 12 get_SystemEvent MSystemEvent else
  if t =? chr "R" then sized p 39 get_StockDirectory MStockDirectory else
  if t =? chr "H" then sized p 25 get_TradingAction MTradingAction else
  if t =? chr "A" then sized p 36 get_AddOrder MAddOrder else
  if t =? chr "F" then sized p 40 get_AddOrderMpid MAddOrderMpid else
  if t =? chr "E" then sized p 31 get_OrderExecuted MOrderExecuted else
  if t =? chr "C" then sized p 36 get_OrderExecutedWithPrice MOrderExecutedWithPrice
      else
  if t =? chr "X" then sized p 23 get_OrderCancel MOrderCancel else
  if t =? chr "D" then sized p 19 get_OrderDelete MOrderDelete else
  if t =? chr "U" then sized p 35 get_OrderReplace MOrderReplace else
  if t =? chr "P" then sized p 44 get_Trade MTrade else
  Ok None.

(** The overload set [encode(const T&, uint8_t* )]. *)
Definition encode (m : Message) (p : bytes) : outcome bytes :=
  match m with
  | MSystemEvent m => encode_SystemEvent m p
  | MStockDirectory m => encode_StockDirectory m p
  | MTradingAction m => encode_TradingAction m p
  | MAddOrder m => encode_AddOrder m p
  | MAddOrderMpid m => encode_AddOrderMpid m p
  | MOrderExecuted m => encode_OrderExecuted m p
  | MOrderExecutedWithPrice m => encode_OrderExecutedWithPrice m p
  | MOrderCancel m => encode_OrderCancel m p
  | MOrderDelete m => encode_OrderDelete m p
  | MOrderReplace m => encode_OrderReplace m p
  | MTrade m => encode_Trade m p
  end.

Definition message_size (type : Z) : nat :=
  if type =? chr "S" then 12%nat else
  if type =? chr "R" then 39%nat else
  if type =? chr "H" then 25%nat else
  if type =? chr "A" then 36%nat else
  if type =? chr "F" then 40%nat else
  if type =? chr "E" then 31%nat else
  if type =? chr "C" then 36%nat else
  if type =? chr "X" then 23%nat else
  if type =? chr "D" then 19%nat else
  if type =? chr "U" then 35%nat else
  if type =? chr "P" then 44%nat else
  if type =? chr "Y" then 20%nat else
  if type =? chr "L" then 26%nat else
  if type =? chr "V" then 35%nat else
  if type =? chr "W" then 12%nat else
  if type =? chr "K" then 28%nat else
  if type =? chr "J" then 35%nat else
  if type =? chr "h" then 21%nat else
  if type =? chr "Q" then 40%nat else
  if type =? chr "B" then 19%nat else
  if type =? chr "I" then 50%nat else
  if type =? chr "N" then 20%nat else
  if type =? chr "O" then 48%nat else
  0%nat.

(** ** Layout tables *)

Definition SystemEvent_body : format SystemEvent := fiso
  (header +++ char +++ fnil)
  (fun m => (se_header m, (se_event_code m, tt)))
  (fun '(x0, (x1, _)) => mkSystemEvent x0 x1).

Definition StockDirectory_body : format StockDirectory := fiso
  (header +++ chars 8 +++ char +++ char +++ be 4 +++ char +++ char +++ chars 2 +++ char
      +++ char +++ char +++ char +++ char +++ be 4 +++ char +++ fnil)
  (fun m => (sd_header m, (sd_stock m, (sd_market_category m, (sd_financial_status m,
      (sd_round_lot_size m, (sd_round_lots_only m, (sd_issue_classification m,
      (sd_issue_subtype m, (sd_authenticity m, (sd_short_sale_threshold m, (sd_ipo_flag
      m, (sd_luld_tier m, (sd_etp_flag m, (sd_etp_leverage m, (sd_inverse_indicator m,
      tt))))))))))))))))
  (fun '(x0, (x1, (x2, (x3, (x4, (x5, (x6, (x7, (x8, (x9, (x10, (x11, (x12, (x13, (x14,
      _))))))))))))))) => mkStockDirectory x0 x1 x2 x3 x4 x5 x6 x7 x8 x9 x10 x11 x12 x13
      x14).

Definition TradingAction_body : format TradingAction := fiso
  (header +++ chars 8 +++ char +++ char +++ chars 4 +++ fnil)
  (fun m => (ta_header m, (ta_stock m, (ta_trading_state m, (ta_reserved m, (ta_reason
      m, tt))))))
  (fun '(x0, (x1, (x2, (x3, (x4, _))))) => mkTradingAction x0 x1 x2 x3 x4).

Definition AddOrder_body : format AddOrder := fiso
  (header +++ be 8 +++ side +++ be 4 +++ chars 8 +++ be 4 +++ fnil)
  (fun m => (ao_header m, (ao_order_ref m, (ao_side m, (ao_shares m, (ao_stock m,
      (ao_price m, tt)))))))
  (fun '(x0, (x1, (x2, (x3, (x4, (x5, _)))))) => mkAddOrder x0 x1 x2 x3 x4 x5).

Definition AddOrderMpid_body : format AddOrderMpid := fiso
  (header +++ be 8 +++ side +++ be 4 +++ chars 8 +++ be 4 +++ chars 4 +++ fnil)
  (fun m => (ao_header (am_add m), (ao_order_ref (am_add m), (ao_side (am_add m),
      (ao_shares (am_add m), (ao_stock (am_add m), (ao_price (am_add m), (am_attribution
      m, tt))))))))
  (fun '(x0, (x1, (x2, (x3, (x4, (x5, (x6, _))))))) => mkAddOrderMpid (mkAddOrder x0 x1
      x2 x3 x4 x5) x6).

Definition OrderExecuted_body : format OrderExecuted := fiso
  (header +++ be 8 +++ be 4 +++ be 8 +++ fnil)
  (fun m => (oe_header m, (oe_order_ref m, (oe_executed_shares m, (oe_match_number m,
      tt)))))
  (fun '(x0, (x1, (x2, (x3, _)))) => mkOrderExecuted x0 x1 x2 x3).

Definition OrderExecutedWithPrice_body : format OrderExecutedWithPrice := fiso
  (header +++ be 8 +++ be 4 +++ be 8 +++ char +++ be 4 +++ fnil)
  (fun m => (oe_header (op_exec m), (oe_order_ref (op_exec m), (oe_executed_shares
      (op_exec m), (oe_match_number (op_exec m), (op_printable m, (op_execution_price m,
      tt)))))))
  (fun '(x0, (x1, (x2, (x3, (x4, (x5, _)))))) => mkOrderExecutedWithPrice
      (mkOrderExecuted x0 x1 x2 x3) x4 x5).

Definition OrderCancel_body : format OrderCancel := fiso
  (header +++ be 8 +++ be 4 +++ fnil)
  (fun m => (oc_header m, (oc_order_ref m, (oc_canceled_shares m, tt))))
  (fun '(x0, (x1, (x2, _))) => mkOrderCancel x0 x1 x2).

Definition OrderDelete_body : format OrderDelete := fiso
  (header +++ be 8 +++ fnil)
  (fun m => (od_header m, (od_order_ref m, tt)))
  (fun '(x0, (x1, _)) => mkOrderDelete x0 x1).

Definition OrderReplace_body : format OrderReplace := fiso
  (header +++ be 8 +++ be 8 +++ be 4 +++ be 4 +++ fnil)
  (fun m => (ou_header m, (ou_original_ref m, (ou_new_ref m, (ou_shares m, (ou_price m,
      tt))))))
  (fun '(x0, (x1, (x2, (x3, (x4, _))))) => mkOrderReplace x0 x1 x2 x3 x4).

(** The messages that can be coded: the fields fit their widths, and the message
    is not a Trade, whose match number does not fit in the message. *)
Definition message_ok (m : Message) : Prop :=
  match m with
  | MSystemEvent m => f_ok SystemEvent_body m
  | MStockDirectory m => f_ok StockDirectory_body m
  | MTradingAction m => f_ok TradingAction_body m
  | MAddOrder m => f_ok AddOrder_body m
  | MAddOrderMpid m => f_ok AddOrderMpid_body m
  | MOrderExecuted m => f_ok OrderExecuted_body m
  | MOrderExecutedWithPrice m => f_ok OrderExecutedWithPrice_body m
  | MOrderCancel m => f_ok OrderCancel_body m
  | MOrderDelete m => f_ok OrderDelete_body m
  | MOrderReplace m => f_ok OrderReplace_body m
  | MTrade _ => False
  end.

Definition message_type (m : Message) : Z :=
  match m with
  | MSystemEvent _ => chr "S"
  | MStockDirectory _ => chr "R"
  | MTradingAction _ => chr "H"
  | MAddOrder _ => chr "A"
  | MAddOrderMpid _ => chr "F"
  | MOrderExecuted _ => chr "E"
  | MOrderExecutedWithPrice _ => chr "C"
  | MOrderCancel _ => chr "X"
  | MOrderDelete _ => chr "D"
  | MOrderReplace _ => chr "U"
  | MTrade _ => chr "P"
  end.

(** The bytes of a message that can be coded. *)
Definition wire (m : Message) : bytes :=
  message_type m ::
  match m with
  | MSystemEvent m => f_put SystemEvent_body m
  | MStockDirectory m => f_put StockDirectory_body m
  | MTradingAction m => f_put TradingAction_body m
  | MAddOrder m => f_put AddOrder_body m
  | MAddOrderMpid m => f_put AddOrderMpid_body m
  | MOrderExecuted m => f_put OrderExecuted_body m
  | MOrderExecutedWithPrice m => f_put OrderExecutedWithPrice_body m
  | MOrderCancel m => f_put OrderCancel_body m
  | MOrderDelete m => f_put OrderDelete_body m
  | MOrderReplace m => f_put OrderReplace_body m
  | MTrade _ => []
  end.
(** ** Correctness of the codec *)

#[export] Instance header_laws : FormatLaws header.
Proof. apply fiso_laws; [apply _|by intros []|by intros (?&?&?&[])]. Qed.

Lemma length_itch_header h : length (f_put header h) = 10%nat.
Proof. unfold header. fmt_simpl. by rewrite !length_app, !length_be_bytes. Qed.

Lemma put_header_all p t h : put_header p t h = poke_all p 0 (t :: f_put header h).
Proof.
  unfold put_header, header. fmt_simpl.
  match goal with |- _ = poke_all _ _ (?t :: ?l) => change (t :: l) with ([t] ++ l) end.
  repeat put_step. put_last.
Qed.

Lemma get_header_slice p :
  Forall is_byte p -> (11 <= length p)%nat ->
  get_header p = Ok (f_get header (slice 1 10 p)).
Proof.
  intros Hp Hn. unfold get_header. get_steps. unfold header. fmt_simpl. unfold slice.
  by rewrite !drop_drop, !skipn_firstn_comm, !take_take, !drop_drop.
Qed.

Lemma put_symbol_all p o s : length s = 8%nat -> put_symbol p o s = poke_all p o s.
Proof. apply poke_n_all. Qed.

Lemma put_itch_price_all p o v : put_price p o v = poke_all p o (be_bytes 4 v).
Proof. unfold put_price. by rewrite put_be32_all, be_bytes_wrap. Qed.

#[local] Hint Resolve put_header_all put_symbol_all put_itch_price_all poke_n_all : wire_put.

(** A layout table obeys the format laws. *)
Ltac body_laws :=
  apply fiso_laws; [apply _|first [by intros []|by intros [[]]]|
    intros; repeat match goal with x : (_ * _)%type |- _ => destruct x end;
    by repeat match goal with x : unit |- _ => destruct x end].

(** An encoder writes its layout in one block, header first. *)
Ltac encode_body body :=
  intros Hok; unfold body in *; fmt_simpl;
  repeat match goal with H : _ /\ _ |- _ => destruct H end;
  match goal with |- _ = poke_all _ _ (?t :: ?h ++ ?l) =>
    change (t :: h ++ l) with ((t :: h) ++ l) end;
  lazymatch goal with |- ?e _ _ = _ => unfold e end;
  repeat (put_step; rewrite ?length_itch_header; cbn [Nat.add]); put_last.

(** The body of a case reads the fields of its layout. *)
Ltac get_body body :=
  intros Hp Hn; lazymatch goal with |- ?e _ = _ => unfold e end;
  rewrite get_header_slice by (done || lia); unfold get_price, get_symbol;
  get_steps; unfold body; fmt_simpl; rewrite ?drop_drop; cbn [Nat.add]; reflexivity.

#[export] Instance SystemEvent_laws : FormatLaws SystemEvent_body.
Proof. body_laws. Qed.

Lemma encode_SystemEvent_all m p : f_ok SystemEvent_body m ->
  encode_SystemEvent m p = poke_all p 0 (chr "S" :: f_put SystemEvent_body m).
Proof. encode_body SystemEvent_body. Qed.

Lemma get_SystemEvent_all p : Forall is_byte p -> length p = 12%nat ->
  get_SystemEvent p = Ok (f_get SystemEvent_body (drop 1 p)).
Proof. get_body SystemEvent_body. Qed.

#[export] Instance StockDirectory_laws : FormatLaws StockDirectory_body.
Proof. body_laws. Qed.

Lemma encode_StockDirectory_all m p : f_ok StockDirectory_body m ->
  encode_StockDirectory m p = poke_all p 0 (chr "R" :: f_put StockDirectory_body m).
Proof. encode_body StockDirectory_body. Qed.

Lemma get_StockDirectory_all p : Forall is_byte p -> length p = 39%nat ->
  get_StockDirectory p = Ok (f_get StockDirectory_body (drop 1 p)).
Proof. get_body StockDirectory_body. Qed.

#[export] Instance TradingAction_laws : FormatLaws TradingAction_body.
Proof. body_laws. Qed.

Lemma encode_TradingAction_all m p : f_ok TradingAction_body m ->
  encode_TradingAction m p = poke_all p 0 (chr "H" :: f_put TradingAction_body m).
Proof. encode_body TradingAction_body. Qed.

Lemma get_TradingAction_all p : Forall is_byte p -> length p = 25%nat ->
  get_TradingAction p = Ok (f_get TradingAction_body (drop 1 p)).
Proof. get_body TradingAction_body. Qed.

#[export] Instance AddOrder_laws : FormatLaws AddOrder_body.
Proof. body_laws. Qed.

Lemma encode_AddOrder_all m p : f_ok AddOrder_body m ->
  encode_AddOrder m p = poke_all p 0 (chr "A" :: f_put AddOrder_body m).
Proof. encode_body AddOrder_body. Qed.

Lemma get_AddOrder_all p : Forall is_byte p -> length p = 36%nat ->
  get_AddOrder p = Ok (f_get AddOrder_body (drop 1 p)).
Proof. get_body AddOrder_body. Qed.

#[export] Instance AddOrderMpid_laws : FormatLaws AddOrderMpid_body.
Proof. body_laws. Qed.

Lemma encode_AddOrderMpid_all m p : f_ok AddOrderMpid_body m ->
  encode_AddOrderMpid m p = poke_all p 0 (chr "F" :: f_put AddOrderMpid_body m).
Proof.
  intros Hok. assert (f_ok AddOrder_body (am_add m)) as Hb
    by (unfold AddOrderMpid_body, AddOrder_body in *; fmt_simpl; tauto).
  unfold encode_AddOrderMpid. rewrite encode_AddOrder_all by done.
  rewrite <- outcome_bind_assoc, poke_all_retag.
  replace (chr "F" :: f_put AddOrderMpid_body m)
    with ((chr "F" :: f_put AddOrder_body (am_add m)) ++
          f_put (chars 4 +++ fnil) (am_attribution m, tt)).
  2:{ unfold AddOrderMpid_body, AddOrder_body. fmt_simpl.
      repeat (rewrite <- app_assoc || cbn [app]).
      reflexivity. }
  rewrite poke_all_app. apply outcome_bind_ext; [done|]. intros q.
  cbn [length]. rewrite (f_put_size (f := AddOrder_body)) by done.
  unfold AddOrderMpid_body in Hok. fmt_simpl.
  repeat match goal with H : _ /\ _ |- _ => destruct H end.
  repeat (put_step; cbn [Nat.add f_size AddOrder_body header be chars side fcons fiso
      fnil]); put_last.
Qed.

Lemma get_AddOrderMpid_all p : Forall is_byte p -> length p = 40%nat ->
  get_AddOrderMpid p = Ok (f_get AddOrderMpid_body (drop 1 p)).
Proof. get_body AddOrderMpid_body. Qed.

#[export] Instance OrderExecuted_laws : FormatLaws OrderExecuted_body.
Proof. body_laws. Qed.

Lemma encode_OrderExecuted_all m p : f_ok OrderExecuted_body m ->
  encode_OrderExecuted m p = poke_all p 0 (chr "E" :: f_put OrderExecuted_body m).
Proof. encode_body OrderExecuted_body. Qed.

Lemma get_OrderExecuted_all p : Forall is_byte p -> length p = 31%nat ->
  get_OrderExecuted p = Ok (f_get OrderExecuted_body (drop 1 p)).
Proof. get_body OrderExecuted_body. Qed.

#[export] Instance OrderExecutedWithPrice_laws : FormatLaws OrderExecutedWithPrice_body.
Proof. body_laws. Qed.

Lemma encode_OrderExecutedWithPrice_all m p : f_ok OrderExecutedWithPrice_body m ->
  encode_OrderExecutedWithPrice m p = poke_all p 0 (chr "C" :: f_put
      OrderExecutedWithPrice_body m).
Proof.
  intros Hok. assert (f_ok OrderExecuted_body (op_exec m)) as Hb
    by (unfold OrderExecutedWithPrice_body, OrderExecuted_body in *; fmt_simpl; tauto).
  unfold encode_OrderExecutedWithPrice. rewrite encode_OrderExecuted_all by done.
  rewrite <- outcome_bind_assoc, poke_all_retag.
  replace (chr "C" :: f_put OrderExecutedWithPrice_body m)
    with ((chr "C" :: f_put OrderExecuted_body (op_exec m)) ++
          f_put (char +++ be 4 +++ fnil) (op_printable m, (op_execution_price m, tt))).
  2:{ unfold OrderExecutedWithPrice_body, OrderExecuted_body. fmt_simpl.
      repeat (rewrite <- app_assoc || cbn [app]).
      reflexivity. }
  rewrite poke_all_app. apply outcome_bind_ext; [done|]. intros q.
  cbn [length]. rewrite (f_put_size (f := OrderExecuted_body)) by done.
  unfold OrderExecutedWithPrice_body in Hok. fmt_simpl.
  repeat match goal with H : _ /\ _ |- _ => destruct H end.
  repeat (put_step; cbn [Nat.add f_size OrderExecuted_body header be chars side fcons
      fiso fnil]); put_last.
Qed.

Lemma get_OrderExecutedWithPrice_all p : Forall is_byte p -> length p = 36%nat ->
  get_OrderExecutedWithPrice p = Ok (f_get OrderExecutedWithPrice_body (drop 1 p)).
Proof. get_body OrderExecutedWithPrice_body. Qed.

#[export] Instance OrderCancel_laws : FormatLaws OrderCancel_body.
Proof. body_laws. Qed.

Lemma encode_OrderCancel_all m p : f_ok OrderCancel_body m ->
  encode_OrderCancel m p = poke_all p 0 (chr "X" :: f_put OrderCancel_body m).
Proof. encode_body OrderCancel_body. Qed.

Lemma get_OrderCancel_all p : Forall is_byte p -> length p = 23%nat ->
  get_OrderCancel p = Ok (f_get OrderCancel_body (drop 1 p)).
Proof. get_body OrderCancel_body. Qed.

#[export] Instance OrderDelete_laws : FormatLaws OrderDelete_body.
Proof. body_laws. Qed.

Lemma encode_OrderDelete_all m p : f_ok OrderDelete_body m ->
  encode_OrderDelete m p = poke_all p 0 (chr "D" :: f_put OrderDelete_body m).
Proof. encode_body OrderDelete_body. Qed.

Lemma get_OrderDelete_all p : Forall is_byte p -> length p = 19%nat ->
  get_OrderDelete p = Ok (f_get OrderDelete_body (drop 1 p)).
Proof. get_body OrderDelete_body. Qed.

#[export] Instance OrderReplace_laws : FormatLaws OrderReplace_body.
Proof. body_laws. Qed.

Lemma encode_OrderReplace_all m p : f_ok OrderReplace_body m ->
  encode_OrderReplace m p = poke_all p 0 (chr "U" :: f_put OrderReplace_body m).
Proof. encode_body OrderReplace_body. Qed.

Lemma get_OrderReplace_all p : Forall is_byte p -> length p = 35%nat ->
  get_OrderReplace p = Ok (f_get OrderReplace_body (drop 1 p)).
Proof. get_body OrderReplace_body. Qed.

(** *** The match number of a Trade *)

(** One store of the encoder. *)
Ltac store_step :=
  match goal with |- mbind _ (poke_all ?p ?o ?s) = _ =>
    destruct (poke_all_cases p o s) as [->|(? & -> & ?)]; [done|rewrite outcome_bind_Ok] end.

Lemma encode_Trade_overrun m p : (length p < 48)%nat -> encode_Trade m p = Undefined.
Proof.
  intros Hp. unfold encode_Trade, put_price, put_symbol. rewrite put_header_all.
  store_step. rewrite put_be64_all. store_step. rewrite poke_poke_all. store_step.
  rewrite put_be32_all. store_step. unfold poke_n.
  destruct (8 <=? length (tr_stock m))%nat; [|done]. store_step.
  rewrite put_be32_all. store_step.
  rewrite put_be64_all. apply poke_all_overrun; [rewrite length_be_bytes; lia|done].
Qed.

Lemma get_Trade_overrun p :
  Forall is_byte p -> length p = 44%nat -> get_Trade p = Undefined.
Proof.
  intros Hp Hl. unfold get_Trade, get_symbol, get_price.
  rewrite get_header_slice, outcome_bind_Ok by (done || lia).
  rewrite (get_be64_slice p 11), outcome_bind_Ok by (done || lia).
  rewrite (peek_slice p 19), outcome_bind_Ok by lia.
  rewrite (get_be32_slice p 20), outcome_bind_Ok by (done || lia).
  rewrite (peek_all_slice p 24 8), outcome_bind_Ok by lia.
  rewrite (get_be32_slice p 32), outcome_bind_Ok by (done || lia).
  by rewrite (get_be64_overrun p 40) by (done || lia).
Qed.

(** The types [decode] knows. *)
Definition decoded_types : list Z :=
  [chr "S"; chr "R"; chr "H"; chr "A"; chr "F"; chr "E"; chr "C"; chr "X"; chr "D"; chr
      "U"; chr "P"].

Lemma encode_all m p : message_ok m -> encode m p = poke_all p 0 (wire m).
Proof.
  destruct m; cbn [message_ok encode wire message_type];
  auto using encode_SystemEvent_all, encode_StockDirectory_all,
      encode_TradingAction_all, encode_AddOrder_all, encode_AddOrderMpid_all,
      encode_OrderExecuted_all, encode_OrderExecutedWithPrice_all,
      encode_OrderCancel_all, encode_OrderDelete_all, encode_OrderReplace_all.
  done.
Qed.

Lemma length_wire m : message_ok m -> length (wire m) = message_size (message_type m).
Proof.
  destruct m; cbn [message_ok]; intros Hm; cbn [wire length];
  (rewrite f_put_size by done; reflexivity) || done.
Qed.

Lemma itch_wire_bytes m : message_ok m -> Forall is_byte (wire m).
Proof.
  destruct m; cbn [message_ok]; intros Hm; cbn [wire message_type]; constructor;
  (by apply f_put_bytes) || (by vm_compute) || done.
Qed.

Section Case.
Context {A : Type} (body : format A) (tag : Z) (size : nat) (get : bytes -> outcome A)
  (W : A -> Message) `{FormatLaws A body}.
Hypothesis Hsize : size = S (f_size body).
Hypothesis Hget : forall p, Forall is_byte p -> length p = size ->
  get p = Ok (f_get body (drop 1 p)).

Lemma sized_wire a : is_byte tag -> f_ok body a ->
  sized (tag :: f_put body a) size get W = Ok (Some (W a)).
Proof.
  intros Ht Ha. assert (length (tag :: f_put body a) = size) as Hn
    by (cbn [length]; by rewrite f_put_size).
  unfold sized. rewrite Hn, Nat.eqb_refl. cbn [negb].
  rewrite Hget by (done || (constructor; [done|by apply f_put_bytes])).
  change (drop 1 (tag :: f_put body a)) with (f_put body a).
  by rewrite outcome_bind_Ok, f_get_put.
Qed.

Lemma sized_cases q : Forall is_byte (tag :: q) ->
  (exists a, sized (tag :: q) size get W = Ok (Some (W a)) /\ f_ok body a /\
     tag :: f_put body a = tag :: q) \/
  (sized (tag :: q) size get W = Ok None /\ length (tag :: q) <> size).
Proof.
  intros Hp. unfold sized. destruct (Nat.eqb_spec (length (tag :: q)) size) as [Hn|Hn];
    [|by right]. left. rewrite Hget by done. inversion Hp; subst.
  assert (length q = f_size body) by (cbn [length] in Hn; lia).
  eexists. cbn [negb]. rewrite outcome_bind_Ok. split; [done|].
  change (drop 1 (tag :: q)) with q. split; [by apply f_get_ok|].
  by rewrite f_put_get.
Qed.
End Case.

(** One case of the switch, by evaluation of the type byte. *)
Ltac decode_case size get W lemma :=
  match goal with |- decode ?p = _ =>
    transitivity (sized p size get W); [reflexivity|] end;
  cbn [wire message_type]; apply sized_wire; [apply _|done|apply lemma|by
      vm_compute|done].

Lemma decode_wire m : message_ok m -> decode (wire m) = Ok (Some m).
Proof.
  destruct m; cbn [message_ok]; intros Hm.
  - decode_case 12%nat get_SystemEvent MSystemEvent get_SystemEvent_all.
  - decode_case 39%nat get_StockDirectory MStockDirectory get_StockDirectory_all.
  - decode_case 25%nat get_TradingAction MTradingAction get_TradingAction_all.
  - decode_case 36%nat get_AddOrder MAddOrder get_AddOrder_all.
  - decode_case 40%nat get_AddOrderMpid MAddOrderMpid get_AddOrderMpid_all.
  - decode_case 31%nat get_OrderExecuted MOrderExecuted get_OrderExecuted_all.
  - decode_case 36%nat get_OrderExecutedWithPrice MOrderExecutedWithPrice
      get_OrderExecutedWithPrice_all.
  - decode_case 23%nat get_OrderCancel MOrderCancel get_OrderCancel_all.
  - decode_case 19%nat get_OrderDelete MOrderDelete get_OrderDelete_all.
  - decode_case 35%nat get_OrderReplace MOrderReplace get_OrderReplace_all.
  - done.
Qed.

(** One case of the switch when the type byte is the one tested. *)
Ltac decode_cases_step lemma :=
  let E := fresh "E" in let Ha := fresh "Ha" in let Hw := fresh "Hw" in
  let Hn := fresh "Hn" in let Hn' := fresh "Hn" in
  match goal with |- context [if ?t =? ?c then _ else _] =>
    destruct (Z.eqb_spec t c) as [->|] end;
  [ match goal with Hp : Forall is_byte (_ :: ?q) |- context [sized _ ?n ?g ?W] =>
      destruct ((fun e => sized_cases _ _ n g W e lemma q Hp) eq_refl) as [(? & E & Ha &
          Hw)|(E & Hn)]
    end; rewrite E;
    [ left; eexists; split; [reflexivity|]; cbn [message_ok wire message_type]; by split
    | right; left; split; [done|]; intros (? & [= <-] & _ & Hn'); by apply Hn ]
  | ].

Lemma decode_cases p : Forall is_byte p ->
  (exists m, decode p = Ok (Some m) /\ message_ok m /\ wire m = p) \/
  (decode p = Ok None /\
   ~ exists t, p !! 0%nat = Some t /\ t ∈ decoded_types /\ length p = message_size t) \/
  (decode p = Undefined /\ p !! 0%nat = Some (chr "P") /\ length p = 44%nat).
Proof.
  intros Hp. destruct p as [|t q].
  { right. left. split; [done|]. by intros (? & [=] & _). }
  change (decode (t :: q)) with
    (if t =? chr "S" then sized (t :: q) 12 get_SystemEvent MSystemEvent else
     if t =? chr "R" then sized (t :: q) 39 get_StockDirectory MStockDirectory else
     if t =? chr "H" then sized (t :: q) 25 get_TradingAction MTradingAction else
     if t =? chr "A" then sized (t :: q) 36 get_AddOrder MAddOrder else
     if t =? chr "F" then sized (t :: q) 40 get_AddOrderMpid MAddOrderMpid else
     if t =? chr "E" then sized (t :: q) 31 get_OrderExecuted MOrderExecuted else
     if t =? chr "C" then sized (t :: q) 36 get_OrderExecutedWithPrice
         MOrderExecutedWithPrice else
     if t =? chr "X" then sized (t :: q) 23 get_OrderCancel MOrderCancel else
     if t =? chr "D" then sized (t :: q) 19 get_OrderDelete MOrderDelete else
     if t =? chr "U" then sized (t :: q) 35 get_OrderReplace MOrderReplace else
     if t =? chr "P" then sized (t :: q) 44 get_Trade MTrade else
     Ok None).
  decode_cases_step get_SystemEvent_all.
  decode_cases_step get_StockDirectory_all.
  decode_cases_step get_TradingAction_all.
  decode_cases_step get_AddOrder_all.
  decode_cases_step get_AddOrderMpid_all.
  decode_cases_step get_OrderExecuted_all.
  decode_cases_step get_OrderExecutedWithPrice_all.
  decode_cases_step get_OrderCancel_all.
  decode_cases_step get_OrderDelete_all.
  decode_cases_step get_OrderReplace_all.
  destruct (Z.eqb_spec t (chr "P")) as [->|].
  { right. unfold sized. destruct (Nat.eqb_spec (length (chr "P" :: q)) 44) as [Hn|Hn]; cbn [negb].
    - right. by rewrite get_Trade_overrun by done.
    - left. split; [done|]. intros (? & [= <-] & _ & Hn'). by apply Hn. }
  right. left. split; [done|]. intros (? & [= <-] & Ht & _).
  unfold decoded_types in Ht. rewrite !elem_of_cons, elem_of_nil in Ht. tauto.
Qed.

(** C33: the ITCH codec. Encoding a message of one of the ten types other than
    Trade, whose fields fit their widths, fills exactly the [message_size]
    bytes of its layout, and [decode] gives the message back. Encoding a Trade
    writes its match number past the 44 bytes of the message: it is undefined
    in any buffer of fewer than 48 bytes. On an arbitrary byte string [decode]
    accepts a message that encodes to that same string, or refuses it, exactly
    when the first byte is none of the eleven types or the length is not
    [message_size] of it, or reads out of bounds, exactly when the string is a
    Trade of the right size. *)
Theorem itch_codec_correct :
  (forall m p, message_ok m -> (message_size (message_type m) <= length p)%nat ->
     encode m p = Ok (wire m ++ drop (message_size (message_type m)) p)) /\
  (forall m, message_ok m ->
     length (wire m) = message_size (message_type m) /\ decode (wire m) = Ok (Some m)) /\
  (forall t p, (length p < 48)%nat -> encode (MTrade t) p = Undefined) /\
  (forall p, Forall is_byte p ->
     (exists m, decode p = Ok (Some m) /\ message_ok m /\ wire m = p) \/
     (decode p = Ok None /\
      ~ exists t, p !! 0%nat = Some t /\ t ∈ decoded_types /\ length p = message_size t) \/
     (decode p = Undefined /\ p !! 0%nat = Some (chr "P") /\ length p = 44%nat)).
Proof.
  split; [|split; [|split]].
  - intros m p Hm Hp. rewrite encode_all by done.
    rewrite <- length_wire in * by done. by apply poke_all_prefix.
  - intros m Hm. split; [by apply length_wire|by apply decode_wire].
  - intros t p. apply encode_Trade_overrun.
  - apply decode_cases.
Qed.
End Itch.
