(* ===== verification/RawItch.v ===== *)
(** The length-prefixed ITCH files of [itch/raw_itch.hpp]: [append_raw] and
    [RawItchReader].

    A file is the list of bytes not yet read. [next] returns the message, if
    any, and the reader after the call. *)

From S2P Require Import Prelude Endian BookTypes Wire Itch.

Module RawItch.

(** The two framing errors the reader reports, with the values that appear in
    the text of the message. *)
Inductive RawError :=
  | ZeroLength (offset : Z)
  | WrongLength (type : Z) (len expect : Z) (offset : Z).

Record RawItchReader := mkReader {
  f_ : bytes;
  offset_ : Z;
  error_ : option RawError }.

Definition open_reader (f : bytes) : RawItchReader := mkReader f 0 None.

(** [std::fread(buf, 1, n, f)]: up to [n] bytes, and what is left. *)
Definition fread (n : nat) (f : bytes) : bytes * bytes := (take n f, drop n f).

Definition append_raw (out msg : bytes) : outcome bytes :=
  let at_ := length out in
  let out := out ++ [0; 0] in
  out ← put_be16 out at_ (u16 (lengthZ msg));
  Ok (out ++ msg).

Definition next (r : RawItchReader) : outcome (option bytes * RawItchReader) :=
  let '(hdr, f) := fread 2 (f_ r) in
  if negb (length hdr =? 2)%nat then Ok (None, mkReader f (offset_ r) (error_ r)) else
  len ← get_be16 hdr 0;
  if len =? 0 then
    Ok (None, mkReader f (offset_ r) (Some (ZeroLength (offset_ r))))
  else
  let '(msg, f) := fread (Z.to_nat len) f in
  if negb (lengthZ msg =? len) then Ok (None, mkReader f (offset_ r) (error_ r)) else
  t ← peek msg 0;
  let expect := Z.of_nat (Itch.message_size t) in
  if negb (expect =? 0) && negb (expect =? len) then
    Ok (None, mkReader f (offset_ r) (Some (WrongLength t len expect (offset_ r))))
  else
  Ok (Some msg, mkReader f (u64 (offset_ r + (2 + len))) (error_ r)).

(** [while (auto m = r.next())]: every message up to the first [nullopt]. Each
    successful call consumes at least three bytes, so the length of the file
    is enough fuel. *)
Fixpoint read_loop (fuel : nat) (r : RawItchReader) : outcome (list bytes * RawItchReader) :=
  match fuel with
  | O => Undefined
  | S fuel' =>
      '(m, r) ← next r;
      match m with
      | None => Ok ([], r)
      | Some msg => '(ms, r) ← read_loop fuel' r; Ok (msg :: ms, r)
      end
  end.

Definition read_all (f : bytes) : outcome (list bytes * RawItchReader) :=
  read_loop (S (length f)) (open_reader f).

(** A sequence of [append_raw] calls on an empty vector. *)
Fixpoint write_all (out : bytes) (msgs : list bytes) : outcome bytes :=
  match msgs with
  | [] => Ok out
  | m :: ms => out ← append_raw out m; write_all out ms
  end.

(** The messages the format can carry: not empty, a length of 16 bits, and the
    length their type requires when the type is a known one. *)
Definition framable (m : bytes) : Prop :=
  Forall is_byte m /\ 0 < lengthZ m < 2 ^ 16 /\
  forall t, m !! 0%nat = Some t ->
    Itch.message_size t = 0%nat \/ Itch.message_size t = length m.

Lemma append_raw_spec out m : append_raw out m = Ok (out ++ framed m).
Proof.
  unfold append_raw. rewrite put_be16_all, poke_all_spec.
  2:{ rewrite length_app, length_be_bytes. cbn. lia. }
  rewrite outcome_bind_Ok, length_be_bytes, take_app_length.
  rewrite drop_ge by (rewrite length_app; cbn; lia).
  unfold framed. rewrite be_bytes_wrap by done.
  by rewrite app_nil_r, <- app_assoc.
Qed.

Lemma write_all_spec ms : forall out, write_all out ms = Ok (out ++ concat (map framed ms)).
Proof.
  induction ms as [|m ms IH]; intros out; cbn [write_all map concat].
  - by rewrite app_nil_r.
  - by rewrite append_raw_spec, outcome_bind_Ok, IH, app_assoc.
Qed.

(** One framed message at the front of the file is read whole. *)
Lemma next_framed m rest off err :
  framable m ->
  next (mkReader (framed m ++ rest) off err)
  = Ok (Some m, mkReader rest (u64 (off + (2 + lengthZ m))) err).
Proof.
  intros (Hb & Hl & Ht). destruct (get_be16_framed m rest) as (H1 & H2 & H3); [lia|].
  unfold next, fread. cbn [f_ offset_ error_]. rewrite H1, H2, H3.
  rewrite length_be_bytes, outcome_bind_Ok. cbn [Nat.eqb negb].
  replace (lengthZ m =? 0) with false by lia.
  replace (Z.to_nat (lengthZ m)) with (length m) by (unfold lengthZ; lia).
  rewrite take_app_length, drop_app_length, Z.eqb_refl. cbn [negb].
  destruct m as [|t m]; [unfold lengthZ in Hl; cbn in Hl; lia|].
  change (peek (t :: m) 0) with (Ok t). rewrite outcome_bind_Ok.
  destruct (Ht t eq_refl) as [->| ->]; [done|].
  unfold lengthZ. rewrite Z.eqb_refl. by rewrite andb_false_r.
Qed.

(** At a strict prefix of a framed message the reader stops without error. *)
Lemma next_truncated m k off err :
  framable m -> (k < length (framed m))%nat ->
  exists r, next (mkReader (take k (framed m)) off err) = Ok (None, r) /\
    error_ r = err /\ offset_ r = off.
Proof.
  intros (Hb & Hl & Ht) Hk. unfold framed in *. rewrite length_app, length_be_bytes in Hk.
  unfold next, fread. cbn [f_ offset_ error_].
  destruct (Nat.lt_ge_cases k 2) as [Hk2|Hk2].
  { rewrite take_take, length_take, length_app, length_be_bytes.
    destruct (Nat.eqb_spec (Nat.min (Nat.min 2 k) (2 + length m)) 2); [lia|]. cbn [negb]. eauto. }
  rewrite take_take, Nat.min_l by lia. rewrite take_app_length' by (by rewrite length_be_bytes).
  rewrite length_be_bytes. cbn [Nat.eqb negb].
  destruct (get_be16_framed m []) as (_ & _ & ->); [lia|]. rewrite outcome_bind_Ok.
  replace (lengthZ m =? 0) with false by lia.
  rewrite skipn_firstn_comm, drop_app_length' by (by rewrite length_be_bytes).
  destruct (Z.eqb_spec (lengthZ (take (Z.to_nat (lengthZ m)) (take (k - 2) m))) (lengthZ m))
    as [Hn|Hn]; [|cbn [negb]; eauto].
  unfold lengthZ in Hn. rewrite !length_take in Hn. lia.
Qed.

Lemma read_loop_prefix ms : forall k fuel off err,
  Forall framable ms -> (k < fuel)%nat ->
  exists n r, read_loop fuel (mkReader (take k (concat (map framed ms))) off err)
    = Ok (take n ms, r) /\ error_ r = err /\
    (length (concat (map framed ms)) <= k -> n = length ms)%nat.
Proof.
  induction ms as [|m ms IH]; intros k fuel off err Hms Hf; destruct fuel as [|fuel]; try lia.
  { exists 0%nat. cbn [map concat]. rewrite take_nil. eexists. split; [reflexivity|].
    split; [done|]. done. }
  apply Forall_cons in Hms as [Hm Hms]. cbn [map concat read_loop].
  destruct (Nat.lt_ge_cases k (length (framed m))) as [Hk|Hk].
  - rewrite take_app_le by lia.
    destruct (next_truncated m k off err Hm Hk) as (r & -> & Hr & _).
    exists 0%nat, r. rewrite outcome_bind_Ok. split_and!; [done|done|].
    rewrite length_app. lia.
  - rewrite take_app_ge by lia. rewrite next_framed by done. rewrite outcome_bind_Ok.
    assert (2 <= length (framed m))%nat as Hlm
      by (unfold framed; rewrite length_app, length_be_bytes; lia).
    destruct (IH (k - length (framed m))%nat fuel (u64 (off + (2 + lengthZ m))) err)
      as (n & r & -> & Hr & Hn); [done|lia|].
    exists (S n), r. rewrite outcome_bind_Ok. split_and!; [done|done|].
    rewrite length_app. cbn [length]. intros. rewrite Hn; lia.
Qed.

(** Raw ITCH files. Reading back a file written by [append_raw] gives the
    messages in order, with no error; and when the file is cut off after an
    arbitrary byte the reader returns a prefix of the messages, again with no
    error: a truncated tail never becomes a message or a framing error. *)
Theorem raw_file_round_trip ms :
  Forall framable ms ->
  exists f, write_all [] ms = Ok f /\
    (exists r, read_all f = Ok (ms, r) /\ error_ r = None) /\
    (forall k, exists n r, read_all (take k f) = Ok (take n ms, r) /\ error_ r = None).
Proof.
  intros Hms. exists (concat (map framed ms)). split; [apply write_all_spec|].
  set (f := concat (map framed ms)).
  assert (forall k, exists n r, read_all (take k f) = Ok (take n ms, r) /\ error_ r = None /\
    (length f <= k -> n = length ms)%nat) as H.
  { intros k. unfold read_all, open_reader.
    destruct (read_loop_prefix ms (Nat.min k (length f)) (S (length (take k f))) 0 None)
      as (n & r & Hr & He & Hn); [done|rewrite length_take; lia|].
    rewrite <- take_take, (take_ge _ (length f)) in Hr by done.
    exists n, r. split_and!; [done|done|]. intros. apply Hn. fold f. lia. }
  split.
  - destruct (H (length f)) as (n & r & Hr & He & Hn). rewrite Hn in Hr by done.
    rewrite !take_ge in Hr by done. eauto.
  - intros k. destruct (H k) as (n & r & Hr & He & _). eauto.
Qed.

Lemma raw_file_round_trip_witness :
  exists f, write_all [] [[83; 0; 0; 0; 0; 0; 0; 0; 0; 0; 0; 79]; [122; 1]] = Ok f /\
    exists n r, read_all (take 17 f)
      = Ok (take n [[83; 0; 0; 0; 0; 0; 0; 0; 0; 0; 0; 79]; [122; 1]], r) /\ error_ r = None.
Proof.
  destruct (raw_file_round_trip [[83; 0; 0; 0; 0; 0; 0; 0; 0; 0; 0; 79]; [122; 1]])
    as (f & Hf & _ & Hk).
  { unfold framable, lengthZ. apply Forall_cons. split; [|apply Forall_singleton];
      (split; [repeat (constructor; [unfold is_byte; lia|]); constructor|];
       split; [cbn [length]; lia|]; intros t [= <-]).
    - right. reflexivity.
    - left. reflexivity. }
  exists f. split; [exact Hf|apply Hk].
Defined.
End RawItch.
