(* ===== verification/Mold.v ===== *)
(** MoldUDP64 of [mold/mold.hpp] and [mold/mold.cpp]: the packetizer, the
    packet parser and the gap detector. *)

From S2P Require Import Prelude Endian BookTypes Wire Symbols.

Module Mold.

Abbreviation Session := bytes.

Definition kHeaderSize : nat := 20.
Definition kEndOfSessionCount : Z := 65535.

Definition make_session (sv : bytes) : Session := copy_chars (replicate 10 32) sv.

Definition make_header (session : Session) (seq count : Z) : outcome bytes :=
  let p := replicate kHeaderSize 0 in
  p ← poke_n p 0 session 10;
  p ← put_be64 p 10 seq;
  put_be16 p 18 count.

(** ** The packetizer *)

(** An empty [current_] means that no packet is open. *)
Record Packetizer := mkPacketizer {
  session_ : Session;
  mtu_ : Z;
  next_seq_ : Z;
  current_ : bytes;
  current_count_ : Z;
  ready_ : list bytes }.

Definition make (session : Session) (mtu : Z) : Packetizer :=
  mkPacketizer session mtu 1 [] 0 [].

Definition is_empty {A} (l : list A) : bool := match l with [] => true | _ => false end.

Definition begin_packet (k : Packetizer) : outcome Packetizer :=
  h ← make_header (session_ k) (next_seq_ k) 0;
  Ok (mkPacketizer (session_ k) (mtu_ k) (next_seq_ k) h 0 (ready_ k)).

Definition flush (k : Packetizer) : outcome Packetizer :=
  if is_empty (current_ k) then Ok k else
  c ← put_be16 (current_ k) 18 (current_count_ k);
  Ok (mkPacketizer (session_ k) (mtu_ k) (next_seq_ k) [] 0 (ready_ k ++ [c])).

Definition add_message (data : bytes) (k : Packetizer) : outcome Packetizer :=
  let n := lengthZ data in
  let block := 2 + n in
  k ← (if negb (is_empty (current_ k)) && (mtu_ k <? lengthZ (current_ k) + block)
       then flush k else Ok k);
  k ← (if is_empty (current_ k) then begin_packet k else Ok k);
  let at_ := length (current_ k) in
  let c := current_ k ++ replicate (2 + length data) 0 in
  c ← put_be16 c at_ (u16 n);
  c ← (if 0 <? n then poke_all c (at_ + 2) data else Ok c);
  Ok (mkPacketizer (session_ k) (mtu_ k) (u64 (next_seq_ k + 1)) c
        (u16 (current_count_ k + 1)) (ready_ k)).

Definition take_packets (k : Packetizer) : list bytes * Packetizer :=
  (ready_ k, mkPacketizer (session_ k) (mtu_ k) (next_seq_ k) (current_ k)
               (current_count_ k) []).

Definition heartbeat (k : Packetizer) : outcome bytes :=
  make_header (session_ k) (next_seq_ k) 0.

Definition end_of_session (k : Packetizer) : outcome bytes :=
  make_header (session_ k) (next_seq_ k) kEndOfSessionCount.

(** ** The parser *)

Record DownstreamPacket := mkPacket {
  pk_session : Session;
  pk_seq : Z;
  pk_end_of_session : bool;
  pk_messages : list bytes }.

(** The loop over the message blocks from offset [at_]; the result also has
    the offset after the last block. *)
Fixpoint parse_messages (count : nat) (p : bytes) (at_ : nat)
    : outcome (option (list bytes * nat)) :=
  match count with
  | O => Ok (Some ([], at_))
  | S count' =>
      if (length p <? at_ + 2)%nat then Ok None else
      len ← get_be16 p at_;
      let at_ := (at_ + 2)%nat in
      if lengthZ p <? Z.of_nat at_ + len then Ok None else
      m ← peek_all p at_ (Z.to_nat len);
      rest ← parse_messages count' p (at_ + Z.to_nat len);
      Ok (match rest with
          | None => None
          | Some (ms, at_) => Some (m :: ms, at_)
          end)
  end.

Definition parse (p : bytes) : outcome (option DownstreamPacket) :=
  if (length p <? kHeaderSize)%nat then Ok None else
  session ← peek_all p 0 10;
  seq ← get_be64 p 10;
  count ← get_be16 p 18;
  let eos := count =? kEndOfSessionCount in
  r ← (if eos then Ok (Some ([], kHeaderSize))
       else parse_messages (Z.to_nat count) p kHeaderSize);
  match r with
  | None => Ok None
  | Some (ms, at_) =>
      if negb (at_ =? length p)%nat then Ok None
      else Ok (Some (mkPacket session seq eos ms))
  end.

(** ** The gap detector *)

Record GapDetector := mkGap {
  expected_ : Z;
  had_gap_ : bool }.

Definition gap_init : GapDetector := mkGap 1 false.

Definition on_packet (seq : Z) (message_count : Z) (g : GapDetector)
    : bool * GapDetector :=
  let gap := expected_ g <? seq in
  let had := if gap then true else had_gap_ g in
  let after := u64 (seq + message_count) in
  let e := if (0 <? message_count) && (expected_ g <? after) then after else expected_ g in
  let e := if gap && (message_count =? 0) && (e <? seq) then seq else e in
  (gap, mkGap e had).

(** * Packets as byte strings *)

(** The header and the message blocks. *)
Definition header_bytes (session : Session) (seq count : Z) : bytes :=
  session ++ be_bytes 8 seq ++ be_bytes 2 count.

Definition blocks (ms : list bytes) : bytes := concat (map framed ms).

Definition packet_bytes (session : Session) (seq : Z) (ms : list bytes) : bytes :=
  header_bytes session seq (lengthZ ms) ++ blocks ms.

(** A message a block can carry. *)
Definition fits_block (m : bytes) : Prop := Forall is_byte m /\ lengthZ m < 2 ^ 16.

Lemma make_header_bytes session seq count :
  length session = 10%nat ->
  make_header session seq count = Ok (header_bytes session seq count).
Proof.
  intros Hs. unfold make_header. rewrite poke_n_all by done.
  transitivity (poke_all (replicate kHeaderSize 0) 0 (header_bytes session seq count)).
  - unfold header_bytes. rewrite poke_all_app, Hs.
    apply outcome_bind_ext; [done|]. intros p. rewrite put_be64_all, poke_all_app, length_be_bytes.
    apply outcome_bind_ext; [done|]. intros q. apply put_be16_all.
  - rewrite poke_all_prefix; unfold header_bytes;
      rewrite !length_app, !length_be_bytes, Hs; [by rewrite app_nil_r|done].
Qed.

Lemma length_header session seq count :
  length session = 10%nat -> length (header_bytes session seq count) = 20%nat.
Proof. intros Hs. unfold header_bytes. by rewrite !length_app, !length_be_bytes, Hs. Qed.

Lemma blocks_app ms ms' : blocks (ms ++ ms') = blocks ms ++ blocks ms'.
Proof. unfold blocks. by rewrite map_app, concat_app. Qed.

Lemma blocks_bytes ms : Forall fits_block ms -> Forall is_byte (blocks ms).
Proof.
  induction 1 as [|m ms [Hm _] _ IH]; [constructor|].
  unfold blocks. cbn [map concat]. apply Forall_app. split; [|done].
  apply Forall_app. split; [apply be_bytes_are_bytes|done].
Qed.

Lemma blocks_length ms : (2 * length ms <= length (blocks ms))%nat.
Proof.
  induction ms as [|m ms IH]; [done|]. unfold blocks in *. cbn [map concat length].
  rewrite length_app, length_framed. lia.
Qed.

(** ** The parser reads packets *)

Lemma drop_at {A} (pre s : list A) n : length pre = n -> drop n (pre ++ s) = s.
Proof. intros <-. apply drop_app_length. Qed.

Lemma parse_messages_blocks ms : forall pre rest,
  Forall is_byte (pre ++ blocks ms ++ rest) -> Forall fits_block ms ->
  parse_messages (length ms) (pre ++ blocks ms ++ rest) (length pre)
  = Ok (Some (ms, length (pre ++ blocks ms))).
Proof.
  induction ms as [|m ms IH]; intros pre rest Hb Hms; cbn [length parse_messages].
  { unfold blocks. cbn. by rewrite app_nil_r. }
  apply Forall_cons in Hms as [[Hm Hl] Hms]. pose proof (lengthZ_nonneg m) as Hnn.
  unfold blocks in *. cbn [map concat] in *. fold (blocks ms) in *.
  rewrite <- app_assoc in Hb |- *.
  set (p := pre ++ framed m ++ blocks ms ++ rest) in *.
  assert (length p = length pre + (2 + length m) + length (blocks ms ++ rest))%nat as Hp
    by (unfold p; rewrite !length_app, length_framed; lia).
  destruct (Nat.ltb_spec (length p) (length pre + 2)); [lia|].
  destruct (get_be16_framed m (blocks ms ++ rest) Hl) as (H1 & H2 & _).
  assert (slice (length pre) 2 p = be_bytes 2 (lengthZ m)) as Hlen
    by (unfold slice, p; by rewrite drop_at).
  assert (slice (length pre + 2) (length m) p = m) as Hbody
    by (unfold slice, p; by rewrite <- drop_drop, drop_at, H2, take_app_length).
  rewrite get_be16_slice, Hlen by (done || lia).
  rewrite outcome_bind_Ok, be_value_be_bytes, Z.mod_small by done. cbv zeta.
  destruct (Z.ltb_spec (lengthZ p) (Z.of_nat (length pre + 2) + lengthZ m));
    [unfold lengthZ in *; lia|].
  replace (Z.to_nat (lengthZ m)) with (length m) by (unfold lengthZ; lia).
  rewrite peek_all_slice, Hbody, outcome_bind_Ok by lia.
  replace p with ((pre ++ framed m) ++ blocks ms ++ rest) by (unfold p; by rewrite <- app_assoc).
  replace (length pre + 2 + length m)%nat with (length (pre ++ framed m))
    by (rewrite length_app, length_framed; lia).
  rewrite IH by (rewrite <- ?app_assoc; done). by rewrite outcome_bind_Ok, <- app_assoc.
Qed.

(** What a successful run of the loop has read. *)
Lemma parse_messages_sound count : forall p at_,
  Forall is_byte p -> (at_ <= length p)%nat ->
  exists r, parse_messages count p at_ = Ok r /\
    forall ms at', r = Some (ms, at') ->
      length ms = count /\ Forall fits_block ms /\ (at' <= length p)%nat /\
      drop at_ p = blocks ms ++ drop at' p.
Proof.
  induction count as [|count IH]; intros p at_ Hp Hat; cbn [parse_messages].
  { eexists. split; [done|]. intros ms at' [= <- <-]. done. }
  destruct (Nat.ltb_spec (length p) (at_ + 2)); [by eexists|].
  rewrite get_be16_slice by (done || lia). rewrite outcome_bind_Ok. cbv zeta.
  set (len := be_value (slice at_ 2 p)).
  assert (0 <= len < 2 ^ 16) as Hlen.
  { pose proof (be_value_bound _ (slice_bytes at_ 2 p Hp)) as H'.
    rewrite length_slice in H' by lia. exact H'. }
  destruct (Z.ltb_spec (lengthZ p) (Z.of_nat (at_ + 2) + len)) as [|Hl]; [by eexists|].
  unfold lengthZ in Hl. rewrite peek_all_slice by lia. rewrite outcome_bind_Ok.
  set (m := slice (at_ + 2) (Z.to_nat len) p).
  assert (length m = Z.to_nat len) as Hm by (unfold m; rewrite length_slice; lia).
  destruct (IH p (at_ + 2 + Z.to_nat len)%nat Hp) as (r & -> & Hr); [lia|].
  rewrite outcome_bind_Ok. eexists. split; [done|]. intros ms at' Heq.
  destruct r as [[ms' at'']|]; [|done]. injection Heq as <- <-.
  destruct (Hr ms' at'' eq_refl) as (Hc & Hms & Hat' & Hd).
  assert (lengthZ m = len) as Hml by (unfold lengthZ; lia).
  split_and!; [by cbn; f_equal| |done|].
  { constructor; [|done]. split; [by apply slice_bytes|lia]. }
  unfold blocks in *. cbn [map concat]. rewrite <- app_assoc, <- Hd. unfold framed.
  rewrite Hml. unfold len. rewrite <- (length_slice at_ 2 p) at 1 by lia.
  rewrite be_bytes_be_value by (by apply slice_bytes).
  rewrite <- app_assoc, <- !drop_drop. unfold m, slice.
  by rewrite <- drop_drop, !take_drop.
Qed.

(** A packet as the receiver sees it: fewer than 65535 messages, or the
    end-of-session marker without messages. *)
Definition packet_ok (k : DownstreamPacket) : Prop :=
  length (pk_session k) = 10%nat /\ Forall is_byte (pk_session k) /\ fits 64 (pk_seq k) /\
  Forall fits_block (pk_messages k) /\
  if pk_end_of_session k then pk_messages k = [] else lengthZ (pk_messages k) < 65535.

Definition wire (k : DownstreamPacket) : bytes :=
  header_bytes (pk_session k) (pk_seq k)
    (if pk_end_of_session k then kEndOfSessionCount else lengthZ (pk_messages k)) ++
  blocks (pk_messages k).

Definition header_fields (p : bytes) : Session * Z * Z :=
  (slice 0 10 p, be_value (slice 10 8 p), be_value (slice 18 2 p)).

Lemma parse_header p :
  Forall is_byte p -> (20 <= length p)%nat ->
  let '(session, seq, count) := header_fields p in
  parse p =
    (r ← (if count =? kEndOfSessionCount then Ok (Some ([], kHeaderSize))
          else parse_messages (Z.to_nat count) p kHeaderSize);
     match r with
     | None => Ok None
     | Some (ms, at_) =>
         if negb (at_ =? length p)%nat then Ok None
         else Ok (Some (mkPacket session seq (count =? kEndOfSessionCount) ms))
     end).
Proof.
  intros Hp Hn. unfold header_fields, parse.
  destruct (Nat.ltb_spec (length p) kHeaderSize) as [Hlt|]; [unfold kHeaderSize in Hlt; lia|].
  rewrite peek_all_slice, get_be64_slice, get_be16_slice by (done || lia).
  by rewrite !outcome_bind_Ok.
Qed.

Lemma header_fields_bytes session seq count rest :
  length session = 10%nat -> fits 64 seq -> fits 16 count ->
  header_fields (header_bytes session seq count ++ rest) = (session, seq, count).
Proof.
  intros Hs Hq Hc. unfold header_fields, header_bytes, slice.
  rewrite <- !app_assoc. change (drop 0 ?l) with l. rewrite take_app_length' by done.
  rewrite drop_at by done. rewrite take_app_length' by (by rewrite length_be_bytes).
  change 18%nat with (10 + 8)%nat. rewrite <- drop_drop, drop_at by done.
  rewrite drop_at by (by rewrite length_be_bytes).
  rewrite take_app_length' by (by rewrite length_be_bytes).
  rewrite !be_value_be_bytes, !Z.mod_small by done. done.
Qed.

Lemma header_bytes_fields p :
  Forall is_byte p -> (20 <= length p)%nat ->
  let '(session, seq, count) := header_fields p in
  length session = 10%nat /\ Forall is_byte session /\ fits 64 seq /\ fits 16 count /\
  p = header_bytes session seq count ++ drop 20 p.
Proof.
  intros Hp Hn. unfold header_fields.
  assert (forall o n, (o + n <= length p)%nat ->
    fits (8 * Z.of_nat n) (be_value (slice o n p)) /\
    be_bytes n (be_value (slice o n p)) = slice o n p) as H.
  { intros o n Hon. split.
    - apply bytes_be_value; [by apply slice_bytes|by apply length_slice].
    - rewrite <- (length_slice o n p Hon) at 1. apply be_bytes_be_value. by apply slice_bytes. }
  destruct (H 10%nat 8%nat ltac:(lia)) as [H1 H2]. destruct (H 18%nat 2%nat ltac:(lia)) as [H3 H4].
  split_and!; [by apply length_slice; lia|by apply slice_bytes|done|done|].
  unfold header_bytes. rewrite H2, H4, <- !slice_app. cbn [Nat.add].
  change (p = take 20 p ++ drop 20 p). by rewrite take_drop.
Qed.

Definition count_of (k : DownstreamPacket) : Z :=
  if pk_end_of_session k then kEndOfSessionCount else lengthZ (pk_messages k).

Lemma wire_bytes k : packet_ok k -> Forall is_byte (wire k).
Proof.
  intros (_ & Hs & _ & Hm & _). unfold wire, header_bytes.
  rewrite !Forall_app. split_and!; [done|apply be_bytes_are_bytes..|by apply blocks_bytes].
Qed.

Lemma count_of_fits k : packet_ok k -> fits 16 (count_of k).
Proof.
  intros (_ & _ & _ & _ & Hc). pose proof (lengthZ_nonneg (pk_messages k)).
  unfold fits, count_of, kEndOfSessionCount. destruct (pk_end_of_session k); lia.
Qed.

(** Every encoded packet is parsed, to itself. *)
Lemma parse_wire k : packet_ok k -> parse (wire k) = Ok (Some k).
Proof.
  intros Hk. pose proof (wire_bytes k Hk) as Hb. pose proof (count_of_fits k Hk) as Hcf.
  destruct k as [session seq eos ms]. pose proof Hk as (Hs & _ & Hq & Hm & Hc).
  unfold wire in *. fold (count_of (mkPacket session seq eos ms)) in *.
  cbn [pk_session pk_seq pk_end_of_session pk_messages] in *.
  set (count := count_of _) in *.
  assert (length (header_bytes session seq count) = 20%nat) as Hh by by apply length_header.
  pose proof (parse_header _ Hb ltac:(rewrite length_app; lia)) as Hp.
  rewrite header_fields_bytes in Hp by done. rewrite Hp.
  assert (count = if eos then kEndOfSessionCount else lengthZ ms) as Hce by done.
  clearbody count. destruct eos.
  - subst ms. rewrite Hce, Z.eqb_refl, outcome_bind_Ok, app_nil_r.
    by rewrite length_header.
  - rewrite (proj2 (Z.eqb_neq _ _)) by (unfold kEndOfSessionCount; lia).
    replace (Z.to_nat count) with (length ms) by (unfold lengthZ in *; lia).
    pose proof (parse_messages_blocks ms (header_bytes session seq count) []) as Hpm.
    rewrite app_nil_r, Hh in Hpm. change kHeaderSize with 20%nat.
    rewrite Hpm by done. by rewrite outcome_bind_Ok, Nat.eqb_refl.
Qed.

(** Whatever is parsed was an encoded packet. *)
Lemma parse_sound p :
  Forall is_byte p ->
  exists r, parse p = Ok r /\ forall k, r = Some k -> packet_ok k /\ wire k = p.
Proof.
  intros Hp. destruct (Nat.lt_ge_cases (length p) 20) as [Hn|Hn].
  { exists None. unfold parse. by rewrite (proj2 (Nat.ltb_lt (length p) kHeaderSize)). }
  pose proof (parse_header p Hp Hn) as Hpar. pose proof (header_bytes_fields p Hp Hn) as Hhdr.
  destruct (header_fields p) as [[session seq] count].
  destruct Hhdr as (Hs & Hsb & Hq & Hc & Heq). rewrite Hpar. clear Hpar.
  unfold packet_ok, wire.
  destruct (Z.eqb_spec count kEndOfSessionCount) as [He|He].
  - rewrite outcome_bind_Ok. destruct (Nat.eqb_spec kHeaderSize (length p)) as [Hl|Hl];
      cbn [negb]; [|by eexists].
    eexists. split; [done|]. rewrite drop_ge, app_nil_r in Heq by (unfold kHeaderSize in Hl; lia).
    intros k [= <-]. cbn [pk_session pk_seq pk_end_of_session pk_messages].
    rewrite app_nil_r, <- He. split_and!; auto.
  - destruct (parse_messages_sound (Z.to_nat count) p kHeaderSize Hp Hn) as (r & -> & Hsound).
    rewrite outcome_bind_Ok. destruct r as [[ms at_]|]; [|by eexists].
    destruct (Nat.eqb_spec at_ (length p)) as [Hat|Hat]; cbn [negb]; [|by eexists].
    eexists. split; [done|]. destruct (Hsound ms at_ eq_refl) as (Hcnt & Hms & _ & Hd).
    rewrite Hat, drop_all, app_nil_r in Hd. unfold fits in Hc.
    assert (lengthZ ms = count) as Hml by (unfold lengthZ; lia).
    intros k [= <-]. cbn [pk_session pk_seq pk_end_of_session pk_messages].
    rewrite Hml, <- Hd. unfold kEndOfSessionCount in He. split_and!; auto with lia.
Qed.

(** The packet parser. For every byte string [parse] returns without
    reading out of bounds. It returns a packet exactly when the string is the
    encoding of that packet: truncated blocks, wrong counts and trailing bytes
    are all refused, and the decoded session, sequence number and messages
    determine the bytes. *)
Theorem mold_parse_correct p :
  Forall is_byte p ->
  exists r, parse p = Ok r /\ forall k, r = Some k <-> packet_ok k /\ wire k = p.
Proof.
  intros Hp. destruct (parse_sound p Hp) as (r & Hr & Hs). exists r. split; [done|].
  intros k. split; [apply Hs|]. intros [Hk Hw]. pose proof (parse_wire k Hk) as H.
  rewrite Hw, Hr in H. by injection H.
Qed.

Lemma mold_parse_correct_witness :
  exists r, parse (replicate 10 32 ++ [0; 0; 0; 0; 0; 0; 0; 7; 0; 1; 0; 2; 65; 66]) = Ok r /\
    forall k, r = Some k <-> packet_ok k /\
      wire k = replicate 10 32 ++ [0; 0; 0; 0; 0; 0; 0; 7; 0; 1; 0; 2; 65; 66].
Proof.
  apply mold_parse_correct. cbn [replicate app].
  repeat (constructor; [unfold is_byte; lia|]). constructor.
Defined.
(** * The packetizer *)

(** The packets that carry the given groups of messages, numbered from [s]. *)
Fixpoint packets_from (session : Session) (s : Z) (groups : list (list bytes)) : list bytes :=
  match groups with
  | [] => []
  | g :: gs => packet_bytes session s g :: packets_from session (s + lengthZ g) gs
  end.

Definition group_ok (mtu : Z) (session : Session) (g : list bytes) : Prop :=
  g <> [] /\ Forall fits_block g /\
  (lengthZ g = 1 \/ Z.of_nat (length (header_bytes session 0 0 ++ blocks g)) <= mtu).

(** The state of a packetizer that has closed [groups], the first of them
    numbered [s], and has [cur] in its open packet. *)
Record pk_inv (k : Packetizer) (s : Z) (groups : list (list bytes)) (cur : list bytes)
    : Prop := {
  pi_session : length (session_ k) = 10%nat /\ Forall is_byte (session_ k);
  pi_mtu : mtu_ k < 2 ^ 16;
  pi_ready : ready_ k = packets_from (session_ k) s groups;
  pi_groups : Forall (group_ok (mtu_ k) (session_ k)) groups;
  pi_cur : cur = [] \/ group_ok (mtu_ k) (session_ k) cur;
  pi_next : 0 <= s /\ next_seq_ k = s + lengthZ (concat groups) + lengthZ cur /\
            next_seq_ k < 2 ^ 64;
  pi_open : current_ k = match cur with
    | [] => []
    | _ => header_bytes (session_ k) (s + lengthZ (concat groups)) 0 ++ blocks cur
    end;
  pi_count : current_count_ k = lengthZ cur }.

(** A group never has as many messages as the end-of-session marker. *)
Lemma group_count mtu session g :
  length session = 10%nat -> mtu < 2 ^ 16 -> group_ok mtu session g -> 0 < lengthZ g < 2 ^ 15.
Proof.
  intros Hs Hm (Hne & _ & Hg). destruct g as [|m g]; [done|]. unfold lengthZ in *.
  rewrite length_app, length_header in Hg by done.
  pose proof (blocks_length (m :: g)). cbn [length] in *. lia.
Qed.

Lemma packets_from_snoc session s groups g :
  packets_from session s (groups ++ [g])
  = packets_from session s groups ++ [packet_bytes session (s + lengthZ (concat groups)) g].
Proof.
  revert s. induction groups as [|h gs IH]; intros s; cbn [app packets_from concat].
  - change (lengthZ (@nil bytes)) with 0. by rewrite Z.add_0_r.
  - rewrite IH, lengthZ_app. do 4 f_equal. lia.
Qed.

Lemma put_count session s c c' rest :
  length session = 10%nat ->
  put_be16 (header_bytes session s c ++ rest) 18 c' = Ok (header_bytes session s c' ++ rest).
Proof.
  intros Hs. unfold header_bytes. rewrite put_be16_all, poke_all_spec;
    rewrite ?length_app, ?length_be_bytes; [|rewrite Hs; lia]. f_equal.
  rewrite <- !app_assoc, (app_assoc session (be_bytes 8 s)).
  assert (length (session ++ be_bytes 8 s) = 18%nat) as H18
    by by rewrite length_app, length_be_bytes, Hs.
  rewrite take_app_length' by done. rewrite <- drop_drop, drop_at by done.
  rewrite drop_at by (by rewrite length_be_bytes). by rewrite <- app_assoc.
Qed.

Lemma flush_inv k s groups cur :
  pk_inv k s groups cur ->
  exists k', flush k = Ok k' /\ session_ k' = session_ k /\ mtu_ k' = mtu_ k /\
    pk_inv k' s (match cur with [] => groups | _ => groups ++ [cur] end) [].
Proof.
  intros Hk. pose proof (pi_session _ _ _ _ Hk) as [Hs Hsb]. unfold flush.
  rewrite (pi_open _ _ _ _ Hk). destruct cur as [|m cur].
  { exists k. split_and!; try done. }
  assert (is_empty (header_bytes (session_ k) (s + lengthZ (concat groups)) 0 ++ blocks (m :: cur))
    = false) as ->.
  { unfold header_bytes. by destruct (session_ k). }
  rewrite put_count, outcome_bind_Ok by done. eexists. split; [done|].
  split; [done|]. split; [done|].
  destruct Hk as [_ Hm Hr Hg Hc Hn _ Hcnt]. destruct Hc as [|Hc]; [done|].
  constructor; cbn [session_ mtu_ next_seq_ current_ current_count_ ready_]; try done.
  - by rewrite Hr, packets_from_snoc, Hcnt.
  - apply Forall_app. split; [done|]. by constructor.
  - by left.
  - rewrite concat_app, lengthZ_app. cbn [concat]. rewrite app_nil_r.
    change (lengthZ (@nil bytes)) with 0. lia.
Qed.

(** Appending a block to the open packet. *)
Lemma append_block c m :
  (c' ← put_be16 (c ++ replicate (2 + length m) 0) (length c) (u16 (lengthZ m));
   if 0 <? lengthZ m then poke_all c' (length c + 2) m else Ok c') = Ok (c ++ framed m).
Proof.
  rewrite put_be16_all, be_bytes_wrap, poke_all_spec by
    (rewrite ?length_app, ?length_replicate, ?length_be_bytes; lia).
  rewrite outcome_bind_Ok, take_app_length, length_be_bytes.
  rewrite <- drop_drop, drop_app_length. change (drop 2 (replicate (2 + ?n) 0)) with (replicate n 0).
  unfold framed. destruct (Z.ltb_spec 0 (lengthZ m)) as [Hm|Hm].
  - rewrite app_assoc, poke_all_spec by
      (rewrite !length_app, length_replicate, length_be_bytes; lia).
    rewrite take_app_length' by (by rewrite length_app, length_be_bytes).
    rewrite drop_ge by (rewrite !length_app, length_replicate, length_be_bytes; lia).
    by rewrite app_nil_r, app_assoc.
  - destruct m; [done|]. unfold lengthZ in Hm. cbn in Hm. lia.
Qed.

Definition open_packet (k : Packetizer) : outcome Packetizer :=
  if is_empty (current_ k) then begin_packet k else Ok k.

(** Adding a message to a packetizer whose open packet has room for it. *)
Lemma add_to_open k s groups cur m :
  pk_inv k s groups cur -> fits_block m -> next_seq_ k + 1 < 2 ^ 64 ->
  cur = [] \/ lengthZ (current_ k) + (2 + lengthZ m) <= mtu_ k ->
  exists k', (k ← open_packet k;
    let at_ := length (current_ k) in
    let c := current_ k ++ replicate (2 + length m) 0 in
    c ← put_be16 c at_ (u16 (lengthZ m));
    c ← (if 0 <? lengthZ m then poke_all c (at_ + 2) m else Ok c);
    Ok (mkPacketizer (session_ k) (mtu_ k) (u64 (next_seq_ k + 1)) c
          (u16 (current_count_ k + 1)) (ready_ k))) = Ok k' /\
    session_ k' = session_ k /\ mtu_ k' = mtu_ k /\ pk_inv k' s groups (cur ++ [m]).
Proof.
  intros Hk Hm Hn Hroom. pose proof Hk as [[Hs Hsb] Hmtu Hr Hg Hc Hnx Ho Hcnt].
  assert (open_packet k = Ok (mkPacketizer (session_ k) (mtu_ k) (next_seq_ k)
    (header_bytes (session_ k) (s + lengthZ (concat groups)) 0 ++ blocks cur)
    (lengthZ cur) (ready_ k))) as ->.
  { unfold open_packet, begin_packet. destruct k as [ses mtu nx c ct rd].
    cbn [session_ mtu_ next_seq_ current_ current_count_ ready_] in *. subst c ct.
    destruct cur as [|m' cur].
    - cbn [is_empty]. rewrite make_header_bytes, outcome_bind_Ok by done.
      unfold blocks. cbn [map concat]. rewrite app_nil_r.
      change (lengthZ (@nil bytes)) with 0 in *. do 3 f_equal. lia.
    - unfold header_bytes. by destruct ses. }
  rewrite outcome_bind_Ok. cbn [session_ mtu_ next_seq_ current_ current_count_ ready_]. cbv zeta.
  rewrite <- outcome_bind_assoc, append_block, outcome_bind_Ok.
  eexists. split; [done|]. split; [done|]. split; [done|].
  assert (group_ok (mtu_ k) (session_ k) (cur ++ [m])) as Hgrp.
  { split; [by destruct cur|]. split.
    - apply Forall_app. split; [|by constructor]. destruct Hc as [->|(_ & ? & _)]; [constructor|done].
    - destruct Hroom as [->|Hroom]; [by left|]. destruct cur as [|m' cur]; [by left|]. right.
      rewrite Ho in Hroom. unfold lengthZ in *. rewrite blocks_app.
      rewrite !length_app, !length_header in Hroom by done.
      rewrite !length_app, !length_header by done. unfold blocks at 2. cbn [map concat].
      rewrite app_nil_r, length_framed. lia. }
  pose proof (group_count _ _ _ Hs Hmtu Hgrp) as Hcount. rewrite lengthZ_app in Hcount.
  change (lengthZ [m]) with 1 in *. pose proof (lengthZ_nonneg (concat groups)).
  pose proof (lengthZ_nonneg cur).
  constructor; cbn [session_ mtu_ next_seq_ current_ current_count_ ready_]; try done.
  - by right.
  - rewrite wrap_small by (unfold fits; lia). rewrite lengthZ_app. change (lengthZ [m]) with 1. lia.
  - destruct (cur ++ [m]) as [|x l] eqn:E; [by destruct cur|]. rewrite <- E, blocks_app.
    unfold blocks at 3. cbn [map concat]. by rewrite app_nil_r, app_assoc.
  - rewrite wrap_small by (unfold fits; lia). by rewrite lengthZ_app.
Qed.

Lemma add_message_inv k s groups cur m :
  pk_inv k s groups cur -> fits_block m -> next_seq_ k + 1 < 2 ^ 64 ->
  exists k' groups' cur', add_message m k = Ok k' /\ session_ k' = session_ k /\
    mtu_ k' = mtu_ k /\ pk_inv k' s groups' cur' /\
    concat groups' ++ cur' = concat groups ++ cur ++ [m].
Proof.
  intros Hk Hm Hn. unfold add_message. fold (open_packet k).
  pose proof (pi_open _ _ _ _ Hk) as Ho.
  destruct (negb (is_empty (current_ k)) && (mtu_ k <? lengthZ (current_ k) + (2 + lengthZ m))) eqn:E.
  - destruct (flush_inv _ _ _ _ Hk) as (k1 & -> & Hs1 & Hm1 & Hk1).
    destruct cur as [|x cur]; [by rewrite Ho in E|]. rewrite outcome_bind_Ok.
    assert (next_seq_ k1 = next_seq_ k) as Hnx.
    { destruct (pi_next _ _ _ _ Hk1) as (_ & -> & _), (pi_next _ _ _ _ Hk) as (_ & -> & _).
      rewrite concat_app, lengthZ_app. cbn [concat]. rewrite app_nil_r.
      change (lengthZ (@nil bytes)) with 0. lia. }
    destruct (add_to_open k1 s (groups ++ [x :: cur]) [] m Hk1 Hm) as (k' & Hk' & Hs' & Hm' & Hi);
      [by rewrite Hnx|by left|]. unfold open_packet in Hk'. rewrite Hk'.
    eexists _, _, _. split_and!; [done|congruence|congruence|exact Hi|].
    rewrite concat_app. cbn [concat]. by rewrite app_nil_r, <- app_assoc.
  - rewrite outcome_bind_Ok.
    destruct (add_to_open k s groups cur m Hk Hm Hn) as (k' & Hk' & Hs' & Hm' & Hi).
    { destruct cur as [|x cur]; [by left|]. right. rewrite Ho in E |- *.
      apply andb_false_iff in E as [E|E]; [|apply Z.ltb_ge in E; done].
      unfold header_bytes in E. by destruct (session_ k) eqn:Hses;
        [destruct (pi_session _ _ _ _ Hk) as [Hl _]; rewrite Hses in Hl|]. }
    unfold open_packet in Hk'. rewrite Hk'. eexists _, _, _. split_and!; [done..|exact Hi|done].
Qed.

(** * Streams of packets *)

(** [add_message] for each message. *)
Fixpoint add_messages (ms : list bytes) (k : Packetizer) : outcome Packetizer :=
  match ms with
  | [] => Ok k
  | m :: ms => k ← add_message m k; add_messages ms k
  end.

(** What a receiver makes of a sequence of datagrams: the messages of those
    that parse, and the gap detector. *)
Fixpoint receive (pkts : list bytes) (g : GapDetector) : outcome (list bytes * GapDetector) :=
  match pkts with
  | [] => Ok ([], g)
  | p :: pkts =>
      r ← parse p;
      match r with
      | None => receive pkts g
      | Some k =>
          let '(_, g) := on_packet (pk_seq k) (lengthZ (pk_messages k)) g in
          '(ms, g) ← receive pkts g;
          Ok (pk_messages k ++ ms, g)
      end
  end.

Lemma add_messages_inv ms : forall k s groups cur,
  pk_inv k s groups cur -> Forall fits_block ms -> next_seq_ k + lengthZ ms < 2 ^ 64 ->
  exists k' groups' cur', add_messages ms k = Ok k' /\ session_ k' = session_ k /\
    mtu_ k' = mtu_ k /\ pk_inv k' s groups' cur' /\
    concat groups' ++ cur' = concat groups ++ cur ++ ms.
Proof.
  induction ms as [|m ms IH]; intros k s groups cur Hk Hms Hn; cbn [add_messages].
  { exists k, groups, cur. by rewrite app_nil_r. }
  apply Forall_cons in Hms as [Hm Hms]. pose proof (lengthZ_nonneg ms).
  assert (lengthZ (m :: ms) = 1 + lengthZ ms) as Hl by (unfold lengthZ; cbn [length]; lia).
  destruct (add_message_inv k s groups cur m Hk Hm) as (k1 & g1 & c1 & -> & Hs1 & Hm1 & Hk1 & E1);
    [lia|]. rewrite outcome_bind_Ok.
  assert (next_seq_ k1 = next_seq_ k + 1) as Hnx.
  { destruct (pi_next _ _ _ _ Hk1) as (_ & -> & _), (pi_next _ _ _ _ Hk) as (_ & -> & _).
    apply (f_equal lengthZ) in E1. rewrite !lengthZ_app in E1. change (lengthZ [m]) with 1 in E1. lia. }
  destruct (IH k1 s g1 c1 Hk1 Hms) as (k' & g' & c' & -> & Hs' & Hm' & Hk' & E'); [lia|].
  exists k', g', c'. split_and!; [done|congruence|congruence|done|].
  by rewrite E', app_assoc, E1, <- !app_assoc.
Qed.

(** The packets of a group parse to that group. *)
Lemma parse_group session mtu s g :
  length session = 10%nat -> Forall is_byte session -> mtu < 2 ^ 16 -> fits 64 s ->
  group_ok mtu session g ->
  parse (packet_bytes session s g) = Ok (Some (mkPacket session s false g)).
Proof.
  intros Hs Hsb Hm Hq Hg. pose proof (group_count _ _ _ Hs Hm Hg) as Hc.
  apply (parse_wire (mkPacket session s false g)).
  destruct Hg as (_ & Hfit & _). unfold packet_ok. cbn [pk_session pk_seq pk_end_of_session pk_messages].
  split_and!; try done. lia.
Qed.

Lemma parse_heartbeat session s :
  length session = 10%nat -> Forall is_byte session -> fits 64 s ->
  parse (header_bytes session s 0) = Ok (Some (mkPacket session s false [])).
Proof.
  intros Hs Hsb Hq. pose proof (parse_wire (mkPacket session s false [])) as H.
  unfold wire in H. cbn in H. rewrite app_nil_r in H. apply H. by repeat split; try apply Hq.
Qed.

(** ** Losing packets *)

(** A packet in sequence keeps the detector quiet; one beyond the expected
    number raises the flag, which stays. *)
Lemma on_packet_in_sequence s n :
  0 < n -> 0 <= s -> s + n < 2 ^ 64 -> on_packet s n (mkGap s false) = (false, mkGap (s + n) false).
Proof.
  intros. unfold on_packet. cbn [expected_ had_gap_]. rewrite Z.ltb_irrefl.
  rewrite wrap_small by (unfold fits; lia). cbn [andb].
  replace (0 <? n) with true by lia. by replace (s <? s + n) with true by lia.
Qed.

Lemma on_packet_flag_stays s n g : had_gap_ g = true -> had_gap_ (on_packet s n g).2 = true.
Proof. intros H. unfold on_packet. cbn. by destruct (expected_ g <? s). Qed.

Lemma on_packet_flags s n g : expected_ g < s -> had_gap_ (on_packet s n g).2 = true.
Proof. intros H. unfold on_packet. cbn. by rewrite (proj2 (Z.ltb_lt _ _) H). Qed.

Section Receive.
Context (session : Session) (mtu : Z).
Hypothesis Hs : length session = 10%nat.
Hypothesis Hsb : Forall is_byte session.
Hypothesis Hmtu : mtu < 2 ^ 16.

(** Messages of a subsequence of the packets, and whether it is all of them. *)
Inductive delivers : Z -> list (list bytes) -> list bytes -> list bytes -> bool -> Prop :=
  | dl_nil s : delivers s [] [] [] true
  | dl_keep s g gs ps ms c : delivers (s + lengthZ g) gs ps ms c ->
      delivers s (g :: gs) (packet_bytes session s g :: ps) (g ++ ms) c
  | dl_lose s g gs ps ms c : delivers (s + lengthZ g) gs ps ms c ->
      delivers s (g :: gs) ps ms false.

Lemma sublist_delivers gs : forall s ps,
  ps `sublist_of` packets_from session s gs -> exists ms c, delivers s gs ps ms c.
Proof.
  induction gs as [|g gs IH]; intros s ps Hp; cbn [packets_from] in Hp.
  { apply sublist_nil_r in Hp as ->. eexists _, _. constructor. }
  apply sublist_cons_r in Hp as [Hp|(ps' & -> & Hp)]; destruct (IH _ _ Hp) as (ms & c & H).
  - exists ms, false. by econstructor.
  - exists (g ++ ms), c. by constructor.
Qed.

Lemma delivers_all gs : forall s ms c,
  delivers s gs (packets_from session s gs) ms c -> ms = concat gs /\ c = true.
Proof.
  assert (forall s gs ps ms c, delivers s gs ps ms c -> (length ps <= length gs)%nat) as Hlen.
  { induction 1; cbn [length]; lia. }
  assert (forall s gs, length (packets_from session s gs) = length gs) as Hp.
  { intros s gs'. revert s. induction gs' as [|g gs' IH]; intros s; cbn; by f_equal. }
  induction gs as [|g gs IH]; intros s ms c H; cbn [packets_from concat] in *.
  - by inversion H.
  - inversion H as [|? ? ? ? ms' ? H1|? ? ? ? ? ? H1]; subst.
    + destruct (IH _ _ _ H1) as [-> ->]. done.
    + apply Hlen in H1. cbn in H1. rewrite Hp in H1. lia.
Qed.

(** Losing a packet loses messages. *)
Lemma delivers_length s gs ps ms c :
  delivers s gs ps ms c -> Forall (group_ok mtu session) gs ->
  lengthZ ms <= lengthZ (concat gs) /\
  (c = false -> lengthZ ms < lengthZ (concat gs)) /\ (c = true -> ms = concat gs).
Proof.
  induction 1 as [|s g gs ps ms c _ IH|s g gs ps ms c _ IH]; cbn [concat].
  - done.
  - intros [_ Hg]%Forall_cons. destruct (IH Hg) as (H1 & H2 & H3).
    rewrite !lengthZ_app. split_and!; [lia|intros ->; specialize (H2 eq_refl); lia|].
    intros ->. by rewrite H3.
  - intros [Hg0 Hg]%Forall_cons. destruct (IH Hg) as (H1 & _).
    pose proof (group_count _ _ _ Hs Hmtu Hg0). rewrite lengthZ_app. split_and!; [lia|lia|done].
Qed.

Definition heartbeat_at (s : Z) : bytes := header_bytes session s 0.

Lemma receive_group s g ps gd :
  fits 64 s -> group_ok mtu session g ->
  receive (packet_bytes session s g :: ps) gd
  = ('(ms, g') ← receive ps (on_packet s (lengthZ g) gd).2; Ok (g ++ ms, g')).
Proof.
  intros Hq Hg. cbn [receive]. rewrite (parse_group session mtu) by done.
  rewrite outcome_bind_Ok. cbn [pk_seq pk_messages]. by destruct (on_packet s _ gd).
Qed.

Lemma receive_heartbeat s gd :
  fits 64 s -> receive [heartbeat_at s] gd = Ok ([], (on_packet s 0 gd).2).
Proof.
  intros Hq. cbn [receive]. unfold heartbeat_at. rewrite parse_heartbeat by done.
  rewrite outcome_bind_Ok. cbn [pk_seq pk_messages]. change (lengthZ (@nil bytes)) with 0.
  by destruct (on_packet s 0 gd).
Qed.

(** Once something is missing, the flag is up after the next heartbeat. *)
Lemma receive_flagged s gs ps ms c :
  delivers s gs ps ms c -> forall gd, Forall (group_ok mtu session) gs ->
  0 <= s -> s + lengthZ (concat gs) < 2 ^ 64 ->
  had_gap_ gd = true \/ expected_ gd < s ->
  exists g, receive (ps ++ [heartbeat_at (s + lengthZ (concat gs))]) gd = Ok (ms, g) /\
    had_gap_ g = true.
Proof.
  induction 1 as [s|s g gs ps ms c _ IH|s g gs ps ms c _ IH]; intros gd Hg Hs0 Hb Hgd;
    cbn [concat app] in *.
  - change (lengthZ (@nil bytes)) with 0 in *.
    rewrite Z.add_0_r, receive_heartbeat by (unfold fits; lia).
    eexists. split; [done|]. destruct Hgd; auto using on_packet_flag_stays, on_packet_flags.
  - apply Forall_cons in Hg as [Hg0 Hg]. rewrite lengthZ_app in Hb |- *.
    pose proof (group_count _ _ _ Hs Hmtu Hg0). pose proof (lengthZ_nonneg (concat gs)).
    rewrite receive_group by (done || unfold fits; lia).
    destruct (IH (on_packet s (lengthZ g) gd).2 Hg) as (g' & Hr & Hh); [lia|lia| |].
    { left. destruct Hgd; auto using on_packet_flag_stays, on_packet_flags. }
    rewrite Z.add_assoc, Hr, outcome_bind_Ok. eauto.
  - apply Forall_cons in Hg as [Hg0 Hg]. rewrite lengthZ_app in Hb |- *.
    pose proof (group_count _ _ _ Hs Hmtu Hg0). pose proof (lengthZ_nonneg (concat gs)).
    rewrite Z.add_assoc. apply IH; [done|lia|lia|]. destruct Hgd; [by left|right; lia].
Qed.

Lemma receive_delivered s gs ps ms c :
  delivers s gs ps ms c -> Forall (group_ok mtu session) gs ->
  0 <= s -> s + lengthZ (concat gs) < 2 ^ 64 ->
  exists g, receive (ps ++ [heartbeat_at (s + lengthZ (concat gs))]) (mkGap s false) = Ok (ms, g) /\
    had_gap_ g = negb c.
Proof.
  induction 1 as [s|s g gs ps ms c _ IH|s g gs ps ms c Hd IH]; intros Hg Hs0 Hb;
    cbn [concat app] in *.
  - change (lengthZ (@nil bytes)) with 0 in *.
    rewrite Z.add_0_r, receive_heartbeat by (unfold fits; lia).
    eexists. split; [done|]. unfold on_packet. cbn. by rewrite Z.ltb_irrefl.
  - apply Forall_cons in Hg as [Hg0 Hg]. rewrite lengthZ_app in Hb |- *.
    pose proof (group_count _ _ _ Hs Hmtu Hg0). pose proof (lengthZ_nonneg (concat gs)).
    rewrite receive_group by (done || unfold fits; lia).
    rewrite on_packet_in_sequence by lia. cbn [snd].
    destruct (IH Hg) as (g' & Hr & Hh); [lia|lia|].
    rewrite Z.add_assoc, Hr, outcome_bind_Ok. eauto.
  - apply Forall_cons in Hg as [Hg0 Hg]. rewrite lengthZ_app in Hb |- *.
    pose proof (group_count _ _ _ Hs Hmtu Hg0). pose proof (lengthZ_nonneg (concat gs)).
    rewrite Z.add_assoc. apply (receive_flagged _ _ _ _ _ Hd); [done|lia|lia|]. right. cbn. lia.
Qed.
End Receive.

(** The whole sending side: a fresh packetizer is given the messages, flushed
    and emptied; the packets and the heartbeat that follows them. *)
Definition send_all (session : Session) (mtu : Z) (ms : list bytes)
    : outcome (list bytes * bytes) :=
  k ← add_messages ms (make session mtu);
  k ← flush k;
  let '(pkts, k) := take_packets k in
  h ← heartbeat k;
  Ok (pkts, h).

Lemma send_all_groups session mtu ms :
  length session = 10%nat -> Forall is_byte session -> mtu < 2 ^ 16 ->
  Forall fits_block ms -> lengthZ ms < 2 ^ 63 ->
  exists groups, concat groups = ms /\ Forall (group_ok mtu session) groups /\
    send_all session mtu ms
    = Ok (packets_from session 1 groups, header_bytes session (1 + lengthZ ms) 0).
Proof.
  intros Hs Hsb Hm Hms Hl. pose proof (lengthZ_nonneg ms).
  assert (pk_inv (make session mtu) 1 [] []) as H0 by (constructor; cbn; auto; unfold lengthZ; cbn; lia).
  destruct (add_messages_inv ms _ _ _ _ H0 Hms) as (k1 & g1 & c1 & H1 & Hs1 & Hm1 & Hk1 & E1);
    [cbn; lia|].
  destruct (flush_inv _ _ _ _ Hk1) as (k2 & H2 & Hs2 & Hm2 & Hk2).
  unfold send_all. rewrite H1, outcome_bind_Ok, H2, outcome_bind_Ok. unfold take_packets.
  set (groups := match c1 with [] => g1 | _ => g1 ++ [c1] end) in *.
  assert (concat groups = ms) as Hg.
  { cbn in E1. subst groups. destruct c1; [by rewrite app_nil_r in E1|].
    rewrite concat_app. cbn [concat]. by rewrite app_nil_r. }
  destruct Hk2 as [_ _ Hr Hgs _ (_ & Hnx & _) _ _]. rewrite Hg in Hnx.
  change (lengthZ (@nil bytes)) with 0 in Hnx. cbn in Hs1, Hm1.
  assert (session_ k2 = session) as Es by congruence. assert (mtu_ k2 = mtu) as Em by congruence.
  rewrite Es, Em in Hgs. exists groups. split_and!; [done|done|].
  unfold heartbeat. cbn [session_ next_seq_]. rewrite Es, make_header_bytes, outcome_bind_Ok by done.
  rewrite Hr, Es, Hnx. do 3 f_equal. lia.
Qed.

(** C24: the feed transport. Whatever list of messages is given to a fresh
    packetizer, as long as each message's length fits the 16-bit length of its
    block, the size limit fits 16 bits and there are fewer than 2^63 messages:
    its packets, delivered in order, give the receiver exactly
    those messages and no gap. And loss detection is exact: when only some of
    the packets arrive, in order and followed by a heartbeat, the gap flag is
    up if and only if a message is missing. *)
Theorem mold_delivery session mtu ms :
  length session = 10%nat -> Forall is_byte session -> mtu < 2 ^ 16 ->
  Forall fits_block ms -> lengthZ ms < 2 ^ 63 ->
  exists pkts h, send_all session mtu ms = Ok (pkts, h) /\
    (exists g, receive (pkts ++ [h]) gap_init = Ok (ms, g) /\ had_gap_ g = false) /\
    (forall ps, ps `sublist_of` pkts ->
       exists ms' g, receive (ps ++ [h]) gap_init = Ok (ms', g) /\
         (had_gap_ g = true <-> ms' <> ms)) /\
    Forall (fun p => Z.of_nat (length p) <= mtu \/
                     exists s m, p = packet_bytes session s [m]) pkts.
Proof.
  intros Hs Hsb Hm Hms Hl.
  destruct (send_all_groups session mtu ms Hs Hsb Hm Hms Hl) as (gs & Hg & Hok & ->).
  eexists _, _. split; [done|].
  assert (forall ps, ps `sublist_of` packets_from session 1 gs ->
    exists ms' c g, delivers session 1 gs ps ms' c /\
      receive (ps ++ [header_bytes session (1 + lengthZ ms) 0]) gap_init = Ok (ms', g) /\
      had_gap_ g = negb c) as Hrec.
  { intros ps Hps. destruct (sublist_delivers session gs 1 ps Hps) as (ms' & c & Hd).
    destruct (receive_delivered session mtu Hs Hsb Hm _ _ _ _ _ Hd Hok) as (g & Hr & Hh);
      [lia|rewrite Hg; lia|]. rewrite Hg in Hr. eauto 10. }
  split_and!.
  - destruct (Hrec _ (reflexivity _)) as (ms' & c & g & Hd & Hr & Hh).
    apply delivers_all in Hd as [-> ->]; [|done..]. exists g. rewrite Hg in Hr. done.
  - intros ps Hps. destruct (Hrec ps Hps) as (ms' & c & g & Hd & Hr & Hh).
    exists ms', g. split; [done|]. rewrite Hh.
    destruct (delivers_length session mtu Hs Hm _ _ _ _ _ Hd Hok) as (_ & Hf & Ht).
    rewrite Hg in Hf, Ht. destruct c; cbn [negb].
    + rewrite Ht by done. naive_solver.
    + split; [|done]. intros _ ->. specialize (Hf eq_refl). lia.
  - clear -Hok Hs. generalize 1. induction Hok as [|g gs (Hne & _ & Hg) _ IH]; intros s;
      cbn [packets_from]; constructor; [|apply IH].
    destruct Hg as [Hg|Hg].
    + right. destruct g as [|m [|m' g]]; [done|by eexists _, _|]. unfold lengthZ in Hg. cbn in Hg. lia.
    + left. unfold packet_bytes. rewrite length_app, length_header in * by done. lia.
Qed.

Lemma mold_delivery_witness :
  exists pkts h, send_all (replicate 10 32) 30 [[1; 2; 3]; [4]; []; [5; 6; 7; 8; 9]] = Ok (pkts, h) /\
    exists g, receive (pkts ++ [h]) gap_init = Ok ([[1; 2; 3]; [4]; []; [5; 6; 7; 8; 9]], g) /\
      had_gap_ g = false.
Proof.
  destruct (mold_delivery (replicate 10 32) 30 [[1; 2; 3]; [4]; []; [5; 6; 7; 8; 9]])
    as (pkts & h & H1 & H2 & _);
    [reflexivity|repeat (constructor; [unfold is_byte; lia|]); constructor|lia| |by vm_compute|
     exists pkts, h; split; [exact H1|exact H2]].
  repeat (constructor;
    [split; [repeat (constructor; [unfold is_byte; lia|]); constructor|by vm_compute]|]).
  constructor.
Defined.
End Mold.
