(* ===== verification/BookReplay.v ===== *)
(** The listener calls determine the book.

    [replay] applies one listener call to an abstract book the way a consumer
    of the calls does: an added order joins its queue, an execution or a
    partial cancel takes shares off a resting order, a full cancel removes it,
    a replace removes the old order and rests the new one. The theorems say
    that replaying the calls an operation made gives the book the operation
    returned, through well-formed books only. The engine's order table and the
    market-data client are both proved against this. *)

From S2P Require Import Prelude StdMap BookTypes BookSpec BookLaws MatchingBook.
Import Spec.

Definition drop_order (id : OrderId) (b : Book) : Book :=
  match find_order id b with
  | Some (s, px, _) => remove s px id b
  | None => b
  end.

Definition take_shares (id : OrderId) (by_ : Qty) (b : Book) : Book :=
  match find_order id b with
  | Some (s, px, q) =>
      if q <=? by_ then remove s px id b else reduce s px id (q - by_) b
  | None => b
  end.

Definition replay (e : BookEvent) (b : Book) : Book :=
  match e with
  | on_added e => rest (ad_id e) (ad_side e) (ad_price e) (ad_qty e) b
  | on_executed e =>
      set_match (u64 (ex_match_id e + 1)) (take_shares (ex_resting_id e) (ex_qty e) b)
  | on_canceled e =>
      if ca_removed e then drop_order (ca_id e) b
      else take_shares (ca_id e) (ca_canceled_qty e) b
  | on_replaced e =>
      match find_order (re_old_id e) b with
      | Some (s, px, _) =>
          rest (re_new_id e) s (re_price e) (re_qty e) (remove s px (re_old_id e) b)
      | None => b
      end
  end.

(** The call is one a book in this state can make. *)
Definition ev_ok (e : BookEvent) (b : Book) : Prop :=
  match e with
  | on_added e =>
      ad_id e ∉ ids b /\ valid_side (ad_side e) /\ 0 < ad_price e /\ 0 < ad_qty e < 2 ^ 32
  | on_executed e =>
      exists q, find_order (ex_resting_id e) b = Some (opposite (ex_aggressor_side e), ex_price e, q) /\
        0 < ex_qty e <= q /\ ex_match_id e = next_match b
  | on_canceled e =>
      exists s px q, find_order (ca_id e) b = Some (s, px, q) /\
        if ca_removed e then ca_canceled_qty e = q else 0 < ca_canceled_qty e < q
  | on_replaced e =>
      re_new_id e ∉ ids b /\ 0 < re_price e /\ 0 < re_qty e < 2 ^ 32 /\
      exists px q, find_order (re_old_id e) b = Some (re_side e, px, q)
  end.

(** A run of listener calls through well-formed books. *)
Inductive trace : Book -> list BookEvent -> Book -> Prop :=
  | tr_nil b : wf b -> trace b [] b
  | tr_cons e es b b' :
      wf b -> ev_ok e b -> trace (replay e b) es b' -> trace b (e :: es) b'.

Lemma trace_wf b es b' : trace b es b' -> wf b /\ wf b'.
Proof. induction 1; naive_solver. Qed.

Lemma trace_app b es b1 es' b2 : trace b es b1 -> trace b1 es' b2 -> trace b (es ++ es') b2.
Proof. induction 1; cbn [app]; [done|]. intros. constructor; auto. Qed.

Lemma trace_one e b : wf b -> ev_ok e b -> wf (replay e b) -> trace b [e] (replay e b).
Proof. intros. constructor; [done|done|]. by constructor. Qed.

(** ** What the three updates do to the orders found in the book *)

Definition resting (id : OrderId) (s : Side) (px : Price) (q : Qty) (b : Book) : Prop :=
  exists os, (px, os) ∈ levels s b /\ mkSnapOrder id q ∈ os.

Lemma cut_resting o px f ls p :
  (forall os, o ∈ f os <-> o ∈ os) ->
  (exists os, (p, os) ∈ cut px f ls /\ o ∈ os) <-> (exists os, (p, os) ∈ ls /\ o ∈ os).
Proof.
  intros Hf. induction ls as [|[p' os'] ls IH]; cbn [cut]; [done|].
  specialize (Hf os'). destruct (px =? p').
  - assert ((exists os, (p, os) ∈ (p', f os') :: ls /\ o ∈ os) <->
            (exists os, (p, os) ∈ (p', os') :: ls /\ o ∈ os)) as H.
    { split; intros (os & [Heq|Hin]%elem_of_cons & Ho); simplify_eq;
        (eexists; split; [apply elem_of_cons; by eauto|]); try done; by apply Hf. }
    destruct (f os') as [|x l] eqn:E; [|done]. rewrite <- H. split.
    + intros (os & Hin & Ho). exists os. split; [by apply elem_of_cons; right|done].
    + intros (os & [Heq|Hin]%elem_of_cons & Ho); [simplify_eq; by apply elem_of_nil in Ho|eauto].
  - setoid_rewrite elem_of_cons. split.
    + intros (os & [Heq|Hin] & Ho); [eauto|]. destruct IH as [IH _].
      destruct IH as (os2 & H1 & H2); eauto.
    + intros (os & [Heq|Hin] & Ho); [eauto|]. destruct IH as [_ IH].
      destruct IH as (os2 & H1 & H2); eauto.
Qed.

Lemma upsert_resting id q o s px ls p :
  (exists os, (p, os) ∈ StdMap.upsert (before s) [] px
     (fun os => os ++ [mkSnapOrder id q]) ls /\ o ∈ os) <->
  (exists os, (p, os) ∈ ls /\ o ∈ os) \/ (p = px /\ o = mkSnapOrder id q).
Proof.
  induction ls as [|[p' os'] ls IH]; cbn [StdMap.upsert].
  - setoid_rewrite list_elem_of_singleton. setoid_rewrite elem_of_nil. split.
    + intros (os & Heq & Ho). simplify_eq. apply list_elem_of_singleton in Ho. naive_solver.
    + intros [(os & [] & _)|[-> ->]]. eexists. split; [done|]. by apply list_elem_of_singleton.
  - destruct (Z.eqb_spec px p') as [->|].
    + setoid_rewrite elem_of_cons. split.
      * intros (os & [Heq|Hin] & Ho); [|by eauto]. simplify_eq.
        apply elem_of_app in Ho as [Ho|Ho%list_elem_of_singleton]; eauto.
      * intros [(os & [Heq|Hin] & Ho)|[-> ->]]; simplify_eq; [| by eauto|].
        -- eexists. split; [by left|]. set_solver.
        -- eexists. split; [by left|]. set_solver.
    + destruct (before s px p').
      * setoid_rewrite elem_of_cons. setoid_rewrite elem_of_cons. split.
        -- intros (os & [Heq|[Heq|Hin]] & Ho); simplify_eq; [|by eauto..].
           apply list_elem_of_singleton in Ho. eauto.
        -- intros [(os & [Heq|Hin] & Ho)|[-> ->]]; simplify_eq; [by eauto..|].
           eexists. split; [by left|]. by apply list_elem_of_singleton.
      * setoid_rewrite elem_of_cons. split.
        -- intros (os & [Heq|Hin] & Ho); [by eauto|].
           destruct IH as [IH _]. destruct IH as [(os2 & ? & ?)|?]; eauto.
        -- intros [(os & [Heq|Hin] & Ho)|Heq]; [by eauto|..];
             destruct IH as [_ IH]; destruct IH as (os2 & ? & ?); eauto.
Qed.

Lemma find_order_ext b b' i :
  NoDup (ids b) -> NoDup (ids b') ->
  (forall s px q, valid_side s -> resting i s px q b' <-> resting i s px q b) ->
  find_order i b' = find_order i b.
Proof.
  intros Hb Hb' H. apply option_eq. intros [[s px] q]. split; intros Hf;
    pose proof (find_order_side _ _ _ _ _ Hf) as Hs;
    apply find_order_spec in Hf; try done; apply find_order_spec; try done; by apply H.
Qed.

Lemma drop_id_elem id o os : so_id o <> id -> o ∈ drop_id id os <-> o ∈ os.
Proof. intros Hne. unfold drop_id. rewrite list_elem_of_filter. naive_solver. Qed.

Lemma set_qty_elem id k o os : so_id o <> id -> o ∈ set_qty id k os <-> o ∈ os.
Proof.
  intros Hne. unfold set_qty. rewrite list_elem_of_fmap. split.
  - intros (o' & -> & Ho). destruct (Z.eqb_spec (so_id o') id); [done|]. done.
  - intros Ho. exists o. destruct (Z.eqb_spec (so_id o) id); done.
Qed.

Lemma resting_set s s' ls b i px q :
  valid_side s -> valid_side s' ->
  ((exists os, (px, os) ∈ ls /\ mkSnapOrder i q ∈ os) <-> resting i s px q b) ->
  (resting i s' px q (set_levels s ls b) <-> resting i s' px q b).
Proof.
  intros Hs Hs' H. unfold resting. destruct (valid_side_cases s s' Hs Hs') as [-> | ->].
  - by rewrite levels_set_eq.
  - by rewrite levels_set_opp.
Qed.

Section Updates.
Context (b : Book) (Hwf : wf b).

(** Removing or reducing one order leaves the others alone. *)
Lemma find_cut_other s px f id i :
  valid_side s -> i <> id -> wf (set_levels s (cut px f (levels s b)) b) ->
  (forall o os, so_id o <> id -> o ∈ f os <-> o ∈ os) ->
  find_order i (set_levels s (cut px f (levels s b)) b) = find_order i b.
Proof.
  intros Hs Hne Hwf' Hf. apply find_order_ext; [apply Hwf|apply Hwf'|].
  intros s' p q Hs'. apply resting_set; [done|done|]. apply cut_resting.
  intros os. by apply Hf.
Qed.

Lemma find_remove_other s px id i :
  valid_side s -> i <> id -> find_order i (remove s px id b) = find_order i b.
Proof.
  intros Hs Hne. apply (find_cut_other s px _ id); [done|done|by apply remove_wf|].
  intros. by apply drop_id_elem.
Qed.

Lemma find_reduce_other s px id q i :
  valid_side s -> i <> id -> 0 < q < 2 ^ 32 ->
  find_order i (reduce s px id q b) = find_order i b.
Proof.
  intros Hs Hne Hq. apply (find_cut_other s px _ id); [done|done|by apply reduce_wf|].
  intros. by apply set_qty_elem.
Qed.

(** The level an order rests in, after a cut of that level. *)
Lemma cut_level s px f os :
  (px, os) ∈ levels s b -> f os <> [] -> (px, f os) ∈ cut px f (levels s b).
Proof.
  intros Hl Hne. apply (wf_find s) in Hl; [|done].
  pose proof (cut_find s px f (levels s b) px (proj1 (wf_levels _ Hwf s))) as H.
  rewrite Z.eqb_refl, Hl in H. apply (StdMap.sm_find_elem (before s)).
  by destruct (f os).
Qed.

Lemma find_remove_same s px q id :
  find_order id b = Some (s, px, q) -> id ∉ ids (remove s px id b).
Proof.
  intros Hf. pose proof (find_order_side _ _ _ _ _ Hf) as Hs.
  pose proof (remove_wf s px id b Hwf) as Hwf'. rewrite <- find_order_None.
  destruct (find_order id (remove s px id b)) as [[[s' p] q']|] eqn:Hf'; [exfalso|done].
  pose proof (find_order_side _ _ _ _ _ Hf') as Hs'.
  apply find_order_spec in Hf' as (os' & Hl' & Ho'); [|apply Hwf'|done].
  assert (exists os, (p, os) ∈ levels s' b /\ mkSnapOrder id q' ∈ os) as (os & Hl & Ho).
  { unfold remove in Hl'. destruct (valid_side_cases s s' Hs Hs') as [-> | ->].
    - rewrite levels_set_eq in Hl'. revert Hl'. generalize (levels s b). intros ls.
      induction ls as [|[p0 o0] ls IH]; cbn [cut]; [intros []%elem_of_nil|].
      destruct (px =? p0); [destruct (drop_id id o0) eqn:Hd|]; rewrite ?elem_of_cons.
      + intros Hin. exists os'. by rewrite elem_of_cons; auto.
      + intros [Heq|Hin]; simplify_eq; [|exists os'; by rewrite elem_of_cons; auto].
        exists o0. rewrite elem_of_cons. split; [auto|]. rewrite <- Hd in Ho'.
        unfold drop_id in Ho'. by apply list_elem_of_filter in Ho' as [_ ?].
      + intros [Heq|Hin]; simplify_eq; [exists o0; by rewrite elem_of_cons; auto|].
        destruct (IH Hin) as (os & ? & ?). exists os. by rewrite elem_of_cons; auto.
    - rewrite levels_set_opp in Hl'. eauto. }
  assert (find_order id b = Some (s', p, q')) as Heq
    by (apply find_order_spec; [apply Hwf|done|eauto]).
  rewrite Hf in Heq. injection Heq as <- <- <-.
  unfold remove in Hl'. rewrite levels_set_eq in Hl'.
  destruct (wf_levels _ Hwf s) as [Hsort _].
  apply (StdMap.sm_elem_find (before s)) in Hl'; [|by apply cut_sorted].
  rewrite (cut_find s), Z.eqb_refl in Hl' by done.
  destruct (StdMap.find px (levels s b)) as [o0|]; [|done].
  destruct (drop_id id o0) as [|x l] eqn:Hd; [done|]. injection Hl' as <-.
  rewrite <- Hd in Ho'. unfold drop_id in Ho'. by apply list_elem_of_filter in Ho' as [Hx _].
Qed.

Lemma find_reduce_same s px q id k :
  find_order id b = Some (s, px, q) -> 0 < k < 2 ^ 32 ->
  find_order id (reduce s px id k b) = Some (s, px, k).
Proof.
  intros Hf Hk. pose proof (find_order_side _ _ _ _ _ Hf) as Hs.
  apply find_order_spec in Hf as (os & Hl & Ho); [|apply Hwf|done].
  apply find_order_spec; [by apply reduce_wf|done|].
  assert (mkSnapOrder id k ∈ set_qty id k os) as Hin.
  { unfold set_qty. apply list_elem_of_fmap. exists (mkSnapOrder id q). cbn.
    by rewrite Z.eqb_refl. }
  exists (set_qty id k os). split; [|done]. unfold reduce. rewrite levels_set_eq.
  apply cut_level; [done|]. intros E. rewrite E in Hin. by apply elem_of_nil in Hin.
Qed.

Lemma find_rest_same id s px q :
  valid_side s -> wf (rest id s px q b) -> find_order id (rest id s px q b) = Some (s, px, q).
Proof.
  intros Hs Hwf'. apply find_order_spec; [apply Hwf'|done|].
  unfold rest. rewrite levels_set_eq. apply upsert_resting. by right.
Qed.

Lemma find_rest_other id s px q i :
  valid_side s -> wf (rest id s px q b) -> i <> id ->
  find_order i (rest id s px q b) = find_order i b.
Proof.
  intros Hs Hwf' Hne. apply find_order_ext; [apply Hwf|apply Hwf'|].
  intros s' p q' Hs'. apply resting_set; [done|done|].
  rewrite upsert_resting. unfold resting. naive_solver.
Qed.

Lemma take_shares_wf id k : 0 < k -> wf (take_shares id k b).
Proof.
  intros Hk. unfold take_shares. destruct (find_order id b) as [[[s px] q]|] eqn:Hf; [|done].
  destruct (find_order_qty _ _ _ _ _ Hwf Hf) as [_ Hq].
  destruct (Z.leb_spec q k); [by apply remove_wf|]. apply reduce_wf; [done|lia].
Qed.

Lemma drop_order_wf id : wf (drop_order id b).
Proof. unfold drop_order. repeat case_match; by try apply remove_wf. Qed.

(** The order table after taking shares. *)
Lemma find_take_shares id k i :
  0 < k ->
  find_order i (take_shares id k b) =
    if i =? id then
      match find_order id b with
      | Some (s, px, q) => if q <=? k then None else Some (s, px, q - k)
      | None => None
      end
    else find_order i b.
Proof.
  intros Hk. unfold take_shares.
  destruct (find_order id b) as [[[s px] q]|] eqn:Hf.
  - pose proof (find_order_side _ _ _ _ _ Hf) as Hs.
    destruct (find_order_qty _ _ _ _ _ Hwf Hf) as [_ Hq].
    destruct (Z.leb_spec q k), (Z.eqb_spec i id) as [->|Hne].
    + apply find_order_None. by eapply find_remove_same.
    + by apply find_remove_other.
    + apply (find_reduce_same s px q); [done|lia].
    + apply find_reduce_other; [done|done|lia].
  - by destruct (Z.eqb_spec i id) as [->|].
Qed.

Lemma find_drop_order id i :
  find_order i (drop_order id b) = if i =? id then None else find_order i b.
Proof.
  unfold drop_order. destruct (find_order id b) as [[[s px] q]|] eqn:Hf.
  - pose proof (find_order_side _ _ _ _ _ Hf) as Hs.
    destruct (Z.eqb_spec i id) as [->|Hne].
    + apply find_order_None. by eapply find_remove_same.
    + by apply find_remove_other.
  - by destruct (Z.eqb_spec i id) as [->|].
Qed.
End Updates.

(** ** The calls of each operation *)

Definition with_level (px : Price) (os : list SnapshotOrder) (ls : Levels) : Levels :=
  match os with [] => ls | _ => (px, os) :: ls end.

Lemma replay_levels_same s b : set_levels s (levels s b) b = b.
Proof. unfold set_levels, levels. by destruct b, (is_buy s). Qed.

Lemma set_match_same b : set_match (next_match b) b = b.
Proof. by destruct b. Qed.

Lemma replay_levels_twice s ls ls' m b :
  set_levels s ls (set_match m (set_levels s ls' b)) = set_match m (set_levels s ls b).
Proof. unfold set_levels, set_match. by destruct (is_buy s). Qed.

Lemma set_match_twice m m' b : set_match m (set_match m' b) = set_match m b.
Proof. done. Qed.

Lemma set_match_levels m s ls b :
  set_match m (set_levels s ls b) = set_levels s ls (set_match m b).
Proof. unfold set_levels, set_match. by destruct (is_buy s). Qed.

(** One execution against the first order of the best queue. *)
Lemma replay_front b s px o os ls mid k :
  wf b -> valid_side s -> levels s b = (px, o :: os) :: ls -> 0 < k <= so_qty o ->
  find_order (so_id o) b = Some (s, px, so_qty o) /\
  set_match mid (take_shares (so_id o) k b)
  = set_match mid (set_levels s
      (if so_qty o =? k then with_level px os ls
       else (px, mkSnapOrder (so_id o) (so_qty o - k) :: os) :: ls) b).
Proof.
  intros Hwf Hs Hl Hk.
  assert (find_order (so_id o) b = Some (s, px, so_qty o)) as Hf.
  { apply find_order_spec; [apply Hwf|done|]. exists (o :: os). rewrite Hl.
    split; [apply elem_of_cons; by left|]. apply elem_of_cons. left. by destruct o. }
  split; [done|]. unfold take_shares. rewrite Hf.
  assert (so_id o ∉ map so_id os) as Hni.
  { pose proof (wf_side_NoDup s b Hwf) as Hnd. rewrite Hl, level_ids_cons in Hnd.
    apply NoDup_app in Hnd as (Hnd & _). cbn [map] in Hnd. by apply NoDup_cons in Hnd as [? _]. }
  destruct (Z.leb_spec (so_qty o) k), (Z.eqb_spec (so_qty o) k); try lia; f_equal.
  - unfold remove. rewrite Hl. cbn [cut]. rewrite Z.eqb_refl, drop_id_cons, Z.eqb_refl.
    rewrite drop_id_notin by done. by destruct os.
  - unfold reduce. rewrite Hl. cbn [cut]. rewrite Z.eqb_refl. cbn [set_qty map].
    rewrite Z.eqb_refl. fold (set_qty (so_id o) (so_qty o - k) os). by rewrite set_qty_notin.
Qed.

Lemma fill_queue_trace agg side px os : forall qty b ls os1 q1 m1 evs,
  wf b -> valid_side side -> 0 <= qty ->
  levels (opposite side) b = with_level px os ls ->
  fill_queue agg side px qty (next_match b) os = (os1, q1, m1, evs) ->
  trace b evs (set_match m1 (set_levels (opposite side) (with_level px os1 ls) b)).
Proof.
  pose proof (valid_side_opposite side) as Hso.
  induction os as [|o os IH]; intros qty b ls os1 q1 m1 evs Hwf Hs Hq Hl H;
    cbn [fill_queue] in H.
  { injection H as <- _ <- <-. rewrite <- Hl, replay_levels_same, set_match_same. by constructor. }
  destruct (Z.eqb_spec qty 0) as [->|Hq0].
  { injection H as <- _ <- <-. rewrite <- Hl, replay_levels_same, set_match_same. by constructor. }
  cbn [with_level] in Hl. destruct (wf_levels _ Hwf (opposite side)) as [_ Hpos].
  rewrite Hl in Hpos. apply Forall_cons in Hpos as [(_ & _ & Hpos) _].
  apply Forall_cons in Hpos as [Ho _]. set (k := Z.min qty (so_qty o)) in *.
  destruct (replay_front b _ px o os ls (u64 (next_match b + 1)) k Hwf Hso Hl) as [Hf Hr]; [lia|].
  set (e := on_executed (mkExecuted (so_id o) agg side px k (next_match b))) in *.
  assert (ev_ok e b) as Hev by (exists (so_qty o); cbn; split; [done|lia]).
  assert (replay e b = set_match (u64 (next_match b + 1)) (take_shares (so_id o) k b)) as Hrep by done.
  rewrite Hr in Hrep.
  assert (wf (replay e b)) as Hwf1 by (cbn; apply wf_set_match, take_shares_wf; [done|lia]).
  destruct (Z.eqb_spec (so_qty o) k) as [Hk|Hk].
  - destruct (fill_queue agg side px (qty - k) _ os) as [[[os2 q2] m2] evs2] eqn:Hrec.
    injection H as <- <- <- <-. constructor; [done|done|].
    rewrite Hrep in Hwf1 |- *.
    pose proof (IH (qty - k) _ ls os2 q2 m2 evs2 Hwf1 Hs ltac:(lia)
      ltac:(by rewrite levels_set_match, levels_set_eq) Hrec) as Ht.
    rewrite replay_levels_twice, set_match_twice in Ht. exact Ht.
  - injection H as <- <- <- <-. cbn [with_level]. rewrite <- Hrep. by apply trace_one.
Qed.

Lemma fill_levels_trace agg side limit ls : forall qty b ls1 q1 m1 evs,
  wf b -> valid_side side -> 0 <= qty -> levels (opposite side) b = ls ->
  fill_levels agg side limit qty (next_match b) ls = (ls1, q1, m1, evs) ->
  trace b evs (set_match m1 (set_levels (opposite side) ls1 b)).
Proof.
  induction ls as [|[px os] ls IH]; intros qty b ls1 q1 m1 evs Hwf Hs Hq Hl H;
    cbn [fill_levels] in H.
  { injection H as <- _ <- <-. rewrite <- Hl, replay_levels_same, set_match_same. by constructor. }
  destruct ((qty =? 0) || negb (crosses side limit px)).
  { injection H as <- _ <- <-. rewrite <- Hl, replay_levels_same, set_match_same. by constructor. }
  destruct (fill_queue agg side px qty (next_match b) os) as [[[os1 q'] m'] ev1] eqn:Hf.
  destruct (wf_levels _ Hwf (opposite side)) as [_ Hpos].
  rewrite Hl in Hpos. apply Forall_cons in Hpos as [(_ & Hne & Hpos) _].
  assert (levels (opposite side) b = with_level px os ls) as Hl' by (by destruct os).
  pose proof (fill_queue_trace _ _ _ _ _ _ _ _ _ _ _ Hwf Hs Hq Hl' Hf) as Ht.
  destruct (fill_queue_facts _ _ _ _ _ _ _ _ _ _ Hq Hpos Hf) as (Hq' & _).
  destruct os1 as [|o1 os1].
  - destruct (fill_levels agg side limit q' m' ls) as [[[ls2 q2] m2] ev2] eqn:Hrec.
    injection H as <- <- <- <-. cbn [with_level] in Ht.
    set (b1 := set_match m' (set_levels (opposite side) ls b)) in *.
    assert (next_match b1 = m') as Hn by done. rewrite <- Hn in Hrec.
    eapply IH in Hrec; [|by apply trace_wf in Ht as [_ ?]|done|lia|].
    + eapply trace_app; [exact Ht|]. unfold b1 in Hrec.
      by rewrite replay_levels_twice, set_match_twice in Hrec.
    + unfold b1. by rewrite levels_set_match, levels_set_eq.
  - injection H as <- <- <- <-. exact Ht.
Qed.

Lemma match_trace agg side limit qty b b1 rem evs :
  wf b -> valid_side side -> 0 <= qty ->
  match_ agg side limit qty b = (b1, rem, evs) -> trace b evs b1.
Proof.
  unfold match_. intros Hwf Hs Hq H.
  destruct (fill_levels _ _ _ _ _ _) as [[[ls q1] m1] ev] eqn:Hf. injection H as <- <- <-.
  by eapply fill_levels_trace.
Qed.

Lemma enter_trace id side px qty b b' rem evs :
  wf b -> valid_side side -> id ∉ ids b -> 0 < px -> fits 32 qty ->
  enter id side px qty b = (b', rem, evs) -> trace b evs b'.
Proof.
  intros Hwf Hs Hid Hpx Hq H. pose proof H as H0.
  apply enter_wf in H0 as [Hwf' Hrem]; [|done..]. unfold enter in H.
  destruct (match_ _ _ _ _ _) as [[b1 r] ev] eqn:Hm. unfold fits in Hq.
  assert (0 <= qty) as Hq0 by lia.
  pose proof (match_trace _ _ _ _ _ _ _ _ Hwf Hs Hq0 Hm) as Ht.
  destruct (match_wf _ _ _ _ _ _ _ _ Hwf Hq0 Hm) as (Hwf1 & Hr & _ & Hids & _).
  destruct (Z.eqb_spec r 0); injection H as <- <- <-; [done|].
  eapply trace_app; [exact Ht|]. apply (trace_one (on_added (mkAdded id side px r))); [done| |done].
  cbn. split_and!; try done; [|lia..]. auto.
Qed.

Lemma execute_ioc_trace id side limit qty b filled b' evs :
  wf b -> valid_side side -> 0 <= qty ->
  execute_ioc id side limit qty b = (filled, b', evs) -> trace b evs b'.
Proof.
  unfold execute_ioc. intros Hwf Hs Hq H.
  destruct (match_ _ _ _ _ _) as [[b1 r] ev] eqn:Hm. injection H as <- <- <-.
  by eapply match_trace.
Qed.

Lemma add_trace id side px qty b r b' evs :
  wf b -> valid_side side -> fits 32 qty ->
  add id side px qty b = (r, b', evs) -> trace b evs b'.
Proof.
  unfold add. intros Hwf Hs Hq H.
  destruct (Z.leb_spec px 0); [injection H as <- <- <-; by constructor|].
  destruct (Z.eqb_spec qty 0); [injection H as <- <- <-; by constructor|].
  destruct (contains id b) eqn:Hc; [injection H as <- <- <-; by constructor|].
  destruct (enter _ _ _ _ _) as [[b1 rem] ev] eqn:He. injection H as <- <- <-.
  eapply enter_trace; [done|done| |done|done|done].
  rewrite <- contains_spec. congruence.
Qed.

Lemma cancel_trace id keep b r b' evs :
  wf b -> fits 32 keep -> cancel id keep b = (r, b', evs) -> trace b evs b'.
Proof.
  intros Hwf Hk H. pose proof (cancel_wf _ _ _ _ _ _ Hwf Hk H) as Hwf'.
  unfold cancel, fits in *.
  destruct (find_order id b) as [[[s px] q]|] eqn:Hf; [|injection H as <- <- <-; by constructor].
  destruct (Z.leb_spec q keep); [injection H as <- <- <-; by constructor|].
  destruct (Z.eqb_spec keep 0); injection H as <- <- <-.
  - replace (remove s px id b) with (replay (on_canceled (mkCanceled id q true)) b) in *
      by (cbn; unfold drop_order; by rewrite Hf).
    apply trace_one; [done| |done]. exists s, px, q. by cbn.
  - replace (reduce s px id keep b)
      with (replay (on_canceled (mkCanceled id (q - keep) false)) b) in *.
    + apply trace_one; [done| |done]. exists s, px, q. cbn. split; [done|lia].
    + cbn. unfold take_shares. rewrite Hf. destruct (Z.leb_spec q (q - keep)); [lia|].
      f_equal. lia.
Qed.

Lemma replace_trace old new px qty b r b' evs :
  wf b -> fits 32 qty -> replace old new px qty b = (r, b', evs) -> trace b evs b'.
Proof.
  intros Hwf Hq H. pose proof (replace_wf _ _ _ _ _ _ _ _ Hwf Hq H) as Hwf'.
  unfold replace in H.
  destruct (find_order old b) as [[[s opx] oq]|] eqn:Hf; [|injection H as <- <- <-; by constructor].
  destruct ((new =? old) || contains new b) eqn:Hn; [injection H as <- <- <-; by constructor|].
  destruct ((px <=? 0) || (qty =? 0)) eqn:Hv; [injection H as <- <- <-; by constructor|].
  pose proof (find_order_side _ _ _ _ _ Hf) as Hs.
  assert (new ∉ ids b) as Hnb.
  { rewrite <- contains_spec. apply orb_false_iff in Hn as [_ Hn]. congruence. }
  destruct (would_cross s px _) eqn:Hw.
  - destruct (enter _ _ _ _ _) as [[b2 rem] ev] eqn:He. injection H as <- <- <-.
    pose proof (remove_wf s opx old b Hwf) as Hwf1.
    constructor; [done| |].
    + exists s, opx, oq. by cbn.
    + replace (replay (on_canceled (mkCanceled old oq true)) b) with (remove s opx old b)
        by (cbn; unfold drop_order; by rewrite Hf).
      apply (enter_trace new s px qty _ _ rem); [done|done| |lia|done|done]. intros Hin. by apply remove_ids in Hin.
  - injection H as <- <- <-.
    replace (rest new s px qty (remove s opx old b))
      with (replay (on_replaced (mkReplaced old new s px qty)) b) in *
      by (cbn; by rewrite Hf).
    apply trace_one; [done| |done]. unfold fits in Hq. cbn. split_and!; [done|lia..|]. eauto.
Qed.

(** Every operation's calls replay to its result. *)
Lemma step_trace op b r b' evs :
  wf b -> op_ok op -> step op b = (r, b', evs) -> trace b evs b'.
Proof.
  intros Hwf Hok H. destruct op; cbn [step op_ok] in *.
  - destruct (add _ _ _ _ _) as [[r0 b0] ev] eqn:E. injection H as <- <- <-.
    destruct Hok. by eapply add_trace.
  - destruct (cancel _ _ _) as [[r0 b0] ev] eqn:E. injection H as <- <- <-.
    by eapply cancel_trace.
  - destruct (replace _ _ _ _ _) as [[r0 b0] ev] eqn:E. injection H as <- <- <-.
    by eapply replace_trace.
Qed.

(** A consumer that replays the calls of a book from its empty start. *)
Lemma trace_replay b evs b' : trace b evs b' -> fold_left (fun b e => replay e b) evs b = b'.
Proof. induction 1; [done|]. done. Qed.
