(* ===== verification/BookEvents.v ===== *)
(** How often an operation calls the listener. Filled orders leave the book and
    at most one call reports a partial fill, so the calls an operation makes
    and the orders it leaves exceed the orders it found by two at most. *)

From S2P Require Import Prelude StdMap BookTypes BookSpec BookReplay.
Import Spec.

(** The number of resting orders. *)
Definition order_count (b : Book) : nat := length (ids b).

(** One call more than the orders that left, when nothing is left to fill. *)
Definition last_fill (rem : Qty) : nat := if rem =? 0 then 1 else 0.

Lemma fill_queue_count agg side px qty mid os os1 q1 m1 evs :
  fill_queue agg side px qty mid os = (os1, q1, m1, evs) ->
  (length evs + length os1 <= length os + last_fill q1)%nat.
Proof.
  unfold last_fill. revert qty mid os1 q1 m1 evs. induction os as [|o os IH]; cbn; intros qty mid os1 q1 m1 evs H.
  - simplify_eq. cbn. lia.
  - destruct (Z.eqb_spec qty 0) as [->|]; [simplify_eq; cbn; lia|].
    destruct (Z.eqb_spec (so_qty o) (Z.min qty (so_qty o))).
    + destruct (fill_queue _ _ _ _ _ os) as [[[os2 q2] m2] ev2] eqn:Hf. simplify_eq.
      apply IH in Hf. cbn [length]. lia.
    + simplify_eq. replace (qty - Z.min qty (so_qty o)) with 0 by lia. cbn [length Z.eqb]. lia.
Qed.

Lemma fill_levels_count agg side limit qty mid ls ls1 q1 m1 evs :
  fill_levels agg side limit qty mid ls = (ls1, q1, m1, evs) ->
  (length evs + length (level_ids ls1) <= length (level_ids ls) + last_fill q1)%nat.
Proof.
  revert qty mid ls1 q1 m1 evs. induction ls as [|[px os] ls IH]; cbn [fill_levels]; intros qty mid ls1 q1 m1 evs H.
  - simplify_eq. cbn. lia.
  - destruct (_ || _); [simplify_eq; cbn [length]; lia|].
    destruct (fill_queue _ _ _ _ _ os) as [[[os2 q2] m2] ev2] eqn:Hf.
    pose proof (fill_queue_count _ _ _ _ _ _ _ _ _ _ Hf) as Hc.
    destruct os2 as [|o2 os2].
    + destruct (fill_levels _ _ _ _ _ ls) as [[[ls3 q3] m3] ev3] eqn:Hg. simplify_eq.
      rewrite length_app, level_ids_cons, length_app, length_map.
      assert (q2 = 0 -> ev3 = [] /\ ls1 = ls /\ q1 = 0) as Hz.
      { intros ->. destruct ls as [|[p o] ls]; cbn in Hg; by simplify_eq. }
      pose proof (IH _ _ _ _ _ _ Hg) as Hd. unfold last_fill in *. cbn [length] in *.
      destruct (Z.eqb_spec q2 0) as [E|]; [|lia].
      destruct (Hz E) as (-> & -> & ->). cbn [length Z.eqb] in *. lia.
    + simplify_eq. rewrite !level_ids_cons, !length_app, !length_map. lia.
Qed.

Lemma resting_levels s b :
  order_count b = (length (level_ids (levels s b)) + length (level_ids (levels (opposite s) b)))%nat.
Proof. unfold order_count. by rewrite (ids_levels s), length_app. Qed.

Lemma match_count agg side limit qty b b' rem evs :
  match_ agg side limit qty b = (b', rem, evs) ->
  (length evs + order_count b' <= order_count b + last_fill rem)%nat.
Proof.
  unfold match_. destruct (fill_levels _ _ _ _ _ _) as [[[ls q] m] ev] eqn:Hf. intros H. simplify_eq.
  apply fill_levels_count in Hf. rewrite !(resting_levels side). autorewrite with spec. lia.
Qed.

Lemma rest_count id side px qty b : order_count (rest id side px qty b) = S (order_count b).
Proof. unfold order_count. by rewrite ids_rest. Qed.

Lemma enter_count id side px qty b b' rem evs :
  enter id side px qty b = (b', rem, evs) -> (length evs + order_count b' <= order_count b + 2)%nat.
Proof.
  unfold enter. destruct (match_ _ _ _ _ _) as [[b1 r] ev] eqn:Hm. intros H.
  apply match_count in Hm. unfold last_fill in Hm. destruct (r =? 0); simplify_eq; [lia|].
  rewrite rest_count, length_app. cbn [length]. lia.
Qed.

Lemma remove_count s px q id b :
  wf b -> find_order id b = Some (s, px, q) -> (order_count (remove s px id b) < order_count b)%nat.
Proof.
  intros Hwf Hf. unfold order_count.
  assert (id :: ids (remove s px id b) ⊆+ ids b) as Hs.
  { apply NoDup_submseteq.
    - constructor; [by eapply find_remove_same|]. by apply remove_wf.
    - intros i. rewrite elem_of_cons. intros [->|Hi]; [|by eapply remove_ids].
      apply contains_spec. unfold contains. by rewrite Hf. }
  apply submseteq_length in Hs. cbn [length] in Hs. lia.
Qed.

Lemma reduce_count s px id q b : order_count (reduce s px id q b) = order_count b.
Proof.
  unfold reduce. rewrite !(resting_levels s). autorewrite with spec. by rewrite cut_ids_eq by apply set_qty_ids.
Qed.

Lemma cancel_count id keep b r b' evs :
  wf b -> cancel id keep b = (r, b', evs) -> (length evs + order_count b' <= order_count b + 1)%nat.
Proof.
  unfold cancel. intros Hwf H. destruct (find_order id b) as [[[s px] q]|] eqn:Hf; [|simplify_eq; cbn; lia].
  destruct (q <=? keep); [simplify_eq; cbn; lia|]. destruct (keep =? 0); simplify_eq; cbn [length].
  - pose proof (remove_count _ _ _ _ _ Hwf Hf). lia.
  - rewrite reduce_count. lia.
Qed.

Lemma replace_count old new px qty b r b' evs :
  wf b -> replace old new px qty b = (r, b', evs) -> (length evs + order_count b' <= order_count b + 2)%nat.
Proof.
  unfold replace. intros Hwf H. destruct (find_order old b) as [[[s opx] oq]|] eqn:Hf; [|simplify_eq; cbn; lia].
  destruct (_ || contains _ _); [simplify_eq; cbn; lia|]. destruct (_ || (qty =? 0)); [simplify_eq; cbn; lia|].
  pose proof (remove_count _ _ _ _ _ Hwf Hf) as Hr. destruct (would_cross _ _ _).
  - destruct (enter _ _ _ _ _) as [[b2 rem] ev] eqn:He. simplify_eq.
    apply enter_count in He. cbn [length]. lia.
  - simplify_eq. rewrite rest_count. cbn [length]. lia.
Qed.

(** Any operation. *)
Lemma step_count op b r b' evs :
  wf b -> step op b = (r, b', evs) -> (length evs + order_count b' <= order_count b + 2)%nat.
Proof.
  intros Hwf. destruct op as [id side px qty|id keep|o n px qty]; cbn [step].
  - unfold add. intros H. repeat (case_match; simplify_eq; try (cbn; lia)). by eapply enter_count.
  - destruct (cancel _ _ _) as [[x b1] ev] eqn:E. intros H. simplify_eq.
    apply cancel_count in E; [lia|done].
  - destruct (replace _ _ _ _ _) as [[x b1] ev] eqn:E. intros H. simplify_eq. by apply replace_count in E.
Qed.

Lemma execute_ioc_count id side limit qty b filled b' evs :
  execute_ioc id side limit qty b = (filled, b', evs) -> (length evs + order_count b' <= order_count b + 1)%nat.
Proof.
  unfold execute_ioc. destruct (match_ _ _ _ _ _) as [[b1 r] ev] eqn:Hm. intros H. simplify_eq.
  apply match_count in Hm. unfold last_fill in Hm. case_match; lia.
Qed.
