(* ===== verification/EngineBook.v ===== *)
(** The book as the engine uses it: the commands of [MatchingBook] together
    with [execute_ioc] and [matchable], the calls made on the listener, and
    what the engine relies on. [FastBook] discharges the interface. *)

From S2P Require Import Prelude StdMap BookTypes BookSpec BookLaws MatchingBook OrderIndex HashIndex HashIndexRefines LadderBook LadderLinks LadderInv LadderOps LadderMatch LadderBookRefines LadderObserve BookClaims.

(** [eb_new] is the constructor the engine calls for a new symbol. *)
Class EngineBook (B : Type) := {
  eb_new : option B;
  eb_step : BookOp -> B -> option (OpResult * B);
  eb_execute_ioc : OrderId -> Side -> Price -> Qty -> B -> option (Qty * B);
  eb_matchable : Side -> Price -> B -> option (Qty * B);
  eb_snapshot : B -> option BookSnapshot;
  eb_log : B -> list BookEvent }.

(** The promises: every operation returns and does what the abstract book
    does, as long as the book holds fewer orders than its capacity and the
    price of the order comes from an order-entry message. *)
Class EngineBookLaws (B : Type) `{EngineBook B} := {
  eb_rep : B -> Spec.Book -> Prop;
  eb_capacity : option Z;
  eb_new_spec : exists b, eb_new = Some b /\ eb_rep b Spec.empty /\ eb_log b = [];
  eb_rep_wf : forall b sp, eb_rep b sp -> Spec.wf sp;
  eb_step_spec : forall op b sp r sp' evs,
    eb_rep b sp -> op_ok op -> op_narrow op -> below eb_capacity sp = true ->
    Spec.step op sp = (r, sp', evs) ->
    exists b', eb_step op b = Some (r, b') /\ eb_rep b' sp' /\ eb_log b' = eb_log b ++ evs;
  eb_ioc_spec : forall id side limit qty b sp filled sp' evs,
    eb_rep b sp -> valid_side side -> fits 32 qty ->
    Spec.execute_ioc id side limit qty sp = (filled, sp', evs) ->
    exists b', eb_execute_ioc id side limit qty b = Some (filled, b') /\
      eb_rep b' sp' /\ eb_log b' = eb_log b ++ evs;
  eb_matchable_spec : forall side limit b sp,
    eb_rep b sp -> valid_side side ->
    exists b', eb_matchable side limit b = Some (u32 (Spec.available side limit sp), b') /\
      eb_rep b' sp /\ eb_log b' = eb_log b;
  eb_snapshot_spec : forall b sp,
    eb_rep b sp -> eb_snapshot b = Some (Spec.to_snapshot sp) }.

(** ** The fast book *)

Abbreviation Fast := (FastBook.FastBook FlatMap.FlatMap).

Definition fast_engine_book (cfg : FastBook.Config) : EngineBook Fast := {|
  eb_new := fast_book cfg;
  eb_step := FastBook.step;
  eb_execute_ioc := FastBook.execute_ioc;
  eb_matchable := FastBook.matchable;
  eb_snapshot := FastBook.snapshot;
  eb_log := FastBook.listener_ |}.

Program Definition fast_engine_book_laws (cfg : FastBook.Config) (Hc : cfg_ok cfg)
    : @EngineBookLaws Fast (fast_engine_book cfg) := {|
  eb_rep := fun b sp => LadderMatch.Rep b sp /\ FastBook.cfg_ b = cfg;
  eb_capacity := Some FastBook.kNil |}.
Next Obligation.
  intros cfg Hc. destruct (fast_book_make cfg Hc) as (b & ? & ? & ? & ?). by exists b.
Qed.
Next Obligation. intros cfg Hc b sp [HR _]. apply HR. Qed.
Next Obligation.
  intros cfg Hc op b sp r sp' evs [HR Hcf] Hok Hn Hroom Hs. apply Z.ltb_lt in Hroom.
  pose proof (narrow_fits cfg op Hc Hn) as Hfit. rewrite <- Hcf in Hfit.
  destruct (fast_step_refines _ _ _ _ _ _ HR Hok Hfit Hroom Hs) as (b' & ? & ? & ? & ?).
  exists b'. split_and!; [done|done|congruence|done].
Qed.
Next Obligation.
  intros cfg Hc id side limit qty b sp filled sp' evs [HR Hcf] Hs Hq Hx.
  destruct (fast_execute_ioc_refines _ _ _ _ _ _ _ _ _ HR Hs Hq Hx) as (b' & ? & ? & ? & _ & ?).
  exists b'. split_and!; [done|done|congruence|done].
Qed.
Next Obligation.
  intros cfg Hc side limit b sp [HR Hcf] Hs.
  destruct (matchable_refines side limit b sp HR Hs) as (x & y & ? & ?). eauto.
Qed.
Next Obligation. intros cfg Hc b sp [HR _]. by apply fast_snapshot_refines. Qed.

(** The configuration [FastBook] has by default. *)
Definition default_cfg : FastBook.Config := FastBook.mkConfig 100 20000 65536.

Lemma default_cfg_ok : cfg_ok default_cfg.
Proof. unfold cfg_ok, half_band. cbn. lia. Qed.
