(* ===== verification/Engine.v ===== *)
(** The matching engine of [engine/engine.hpp] and [engine/engine.cpp], class
    [Engine], over any [EngineBook].

    The two output queues are the lists of everything pushed so far. The
    clock read at the start of [process] is an argument. The book calls its
    listener while it works; the handlers of the calls change only engine
    state, which the book never reads, so the model runs the book operation
    first and then the handlers on the calls it made, in order. [None] is a
    book operation that does not return; the theorems show that it does not
    happen. *)

From S2P Require Import Prelude Endian BookTypes Symbols Ouch EngineBook.
From Stdlib Require Import Ascii.

Module Engine.

Abbreviation Symbol := bytes.
Abbreviation Token := bytes.

(** ** Messages of the service *)

Inductive CommandMsg :=
  | CEnter (m : Ouch.EnterOrder)
  | CCancel (m : Ouch.CancelOrder)
  | CReplace (m : Ouch.ReplaceOrder).

Record Command := mkCommand { cmd_client_id : Z; cmd_msg : CommandMsg }.

Inductive ResponseMsg :=
  | RSystemEvent (m : Ouch.SystemEvent)
  | RAccepted (m : Ouch.Accepted)
  | RExecuted (m : Ouch.Executed)
  | RCanceled (m : Ouch.Canceled)
  | RReplaced (m : Ouch.Replaced)
  | RRejected (m : Ouch.Rejected).

Record ClientResponse := mkResponse { rsp_client_id : Z; rsp_msg : ResponseMsg }.

Record MarketEvent := mkMarket { me_ts : Z; me_symbol : Symbol; me_ev : BookEvent }.

(** ** State *)

Record OrderInfo := mkInfo {
  i_client_id : Z; i_token : Token; i_symbol : Symbol; i_side : Side; i_open : Qty }.

Record Engine (B : Type) := mkEngine {
  to_gateway_ : list ClientResponse;
  to_feed_ : list MarketEvent;
  books_ : gmap Symbol B;
  orders_ : gmap OrderId OrderInfo;
  live_tokens_ : gmap (Z * bytes) OrderId;
  used_tokens_ : gset (Z * bytes);
  next_ref_ : OrderId;
  current_symbol_ : Symbol;
  now_ : Z;
  suppress_ouch_cancel_ : bool }.
Arguments mkEngine {B}. Arguments to_gateway_ {B}. Arguments to_feed_ {B}.
Arguments books_ {B}. Arguments orders_ {B}. Arguments live_tokens_ {B}.
Arguments used_tokens_ {B}. Arguments next_ref_ {B}. Arguments current_symbol_ {B}.
Arguments now_ {B}. Arguments suppress_ouch_cancel_ {B}.

Definition token_str (t : Token) : bytes := token_view t.

Section Ops.
Context {B : Type} `{EngineBook B}.
Implicit Types (e : Engine B).

Definition init : Engine B :=
  mkEngine [] [] ∅ ∅ ∅ ∅ 1 (replicate 8 0) 0 false.

(** Assignments to single members. *)
Definition push_gateway (c : Z) (m : ResponseMsg) e : Engine B :=
  mkEngine (to_gateway_ e ++ [mkResponse c m]) (to_feed_ e) (books_ e) (orders_ e)
    (live_tokens_ e) (used_tokens_ e) (next_ref_ e) (current_symbol_ e) (now_ e)
    (suppress_ouch_cancel_ e).
Definition push_feed (ev : BookEvent) e : Engine B :=
  mkEngine (to_gateway_ e) (to_feed_ e ++ [mkMarket (now_ e) (current_symbol_ e) ev])
    (books_ e) (orders_ e) (live_tokens_ e) (used_tokens_ e) (next_ref_ e)
    (current_symbol_ e) (now_ e) (suppress_ouch_cancel_ e).
Definition set_books (v : gmap Symbol B) e : Engine B :=
  mkEngine (to_gateway_ e) (to_feed_ e) v (orders_ e) (live_tokens_ e) (used_tokens_ e)
    (next_ref_ e) (current_symbol_ e) (now_ e) (suppress_ouch_cancel_ e).
Definition set_orders (v : gmap OrderId OrderInfo) e : Engine B :=
  mkEngine (to_gateway_ e) (to_feed_ e) (books_ e) v (live_tokens_ e) (used_tokens_ e)
    (next_ref_ e) (current_symbol_ e) (now_ e) (suppress_ouch_cancel_ e).
Definition set_live (v : gmap (Z * bytes) OrderId) e : Engine B :=
  mkEngine (to_gateway_ e) (to_feed_ e) (books_ e) (orders_ e) v (used_tokens_ e)
    (next_ref_ e) (current_symbol_ e) (now_ e) (suppress_ouch_cancel_ e).
Definition set_used (v : gset (Z * bytes)) e : Engine B :=
  mkEngine (to_gateway_ e) (to_feed_ e) (books_ e) (orders_ e) (live_tokens_ e) v
    (next_ref_ e) (current_symbol_ e) (now_ e) (suppress_ouch_cancel_ e).
Definition set_next_ref (v : OrderId) e : Engine B :=
  mkEngine (to_gateway_ e) (to_feed_ e) (books_ e) (orders_ e) (live_tokens_ e)
    (used_tokens_ e) v (current_symbol_ e) (now_ e) (suppress_ouch_cancel_ e).
Definition set_symbol (v : Symbol) e : Engine B :=
  mkEngine (to_gateway_ e) (to_feed_ e) (books_ e) (orders_ e) (live_tokens_ e)
    (used_tokens_ e) (next_ref_ e) v (now_ e) (suppress_ouch_cancel_ e).
Definition set_now (v : Z) e : Engine B :=
  mkEngine (to_gateway_ e) (to_feed_ e) (books_ e) (orders_ e) (live_tokens_ e)
    (used_tokens_ e) (next_ref_ e) (current_symbol_ e) v (suppress_ouch_cancel_ e).
Definition set_suppress (v : bool) e : Engine B :=
  mkEngine (to_gateway_ e) (to_feed_ e) (books_ e) (orders_ e) (live_tokens_ e)
    (used_tokens_ e) (next_ref_ e) (current_symbol_ e) (now_ e) v.

(** ** Helpers *)

Definition book_snapshot (symbol : Symbol) e : option BookSnapshot :=
  match books_ e !! symbol with
  | None => Some (mkSnapshot [] [])
  | Some b => eb_snapshot b
  end.

Definition book_for (symbol : Symbol) e : option (B * Engine B) :=
  match books_ e !! symbol with
  | Some b => Some (b, e)
  | None =>
      b ← eb_new;
      Some (b, set_books (<[symbol := b]> (books_ e)) e)
  end.

Definition token_used (client : Z) (token : Token) e : bool :=
  bool_decide ((client, token_str token) ∈ used_tokens_ e).

Definition reject (client : Z) (token : Token) (reason : Z) e : Engine B :=
  push_gateway client (RRejected (Ouch.mkRejected (now_ e) token reason)) e.

Definition set_open (q : Qty) (i : OrderInfo) : OrderInfo :=
  mkInfo (i_client_id i) (i_token i) (i_symbol i) (i_side i) q.

Definition reduce_open (id : OrderId) (by_ : Qty) e : Engine B :=
  match orders_ e !! id with
  | None => e
  | Some info =>
      let info := set_open (u32 (i_open info - by_)) info in
      let e := set_orders (<[id := info]> (orders_ e)) e in
      if i_open info =? 0 then
        let e := set_live (delete (i_client_id info, token_str (i_token info))
                             (live_tokens_ e)) e in
        set_orders (delete id (orders_ e)) e
      else e
  end.

Definition cancel_unrested (client : Z) (ref : OrderId) (token : Token) (qty : Qty)
    (reason : Z) e : Engine B :=
  let e := push_gateway client (RCanceled (Ouch.mkCanceled (now_ e) token qty reason)) e in
  let e := set_live (delete (client, token_str token) (live_tokens_ e)) e in
  set_orders (delete ref (orders_ e)) e.

(** ** The listener *)

Definition notify (id : OrderId) (liquidity : Z) (x : ExecutedEvent) e : Engine B :=
  match orders_ e !! id with
  | None => e
  | Some info =>
      push_gateway (i_client_id info)
        (RExecuted (Ouch.mkExecuted (now_ e) (i_token info) (ex_qty x) (ex_price x)
                      liquidity (ex_match_id x))) e
  end.

Definition handle_added (x : AddedEvent) e : Engine B := push_feed (on_added x) e.

Definition handle_executed (x : ExecutedEvent) e : Engine B :=
  let e := push_feed (on_executed x) e in
  let e := notify (ex_resting_id x) (chr "A") x e in
  let e := notify (ex_aggressor_id x) (chr "R") x e in
  let e := reduce_open (ex_resting_id x) (ex_qty x) e in
  reduce_open (ex_aggressor_id x) (ex_qty x) e.

Definition handle_canceled (x : CanceledEvent) e : Engine B :=
  let e := push_feed (on_canceled x) e in
  let e :=
    if negb (suppress_ouch_cancel_ e) then
      match orders_ e !! ca_id x with
      | Some info =>
          push_gateway (i_client_id info)
            (RCanceled (Ouch.mkCanceled (now_ e) (i_token info) (ca_canceled_qty x) (chr "U"))) e
      | None => e
      end
    else e in
  if ca_removed x then reduce_open (ca_id x) (ca_canceled_qty x) e
  else
    match orders_ e !! ca_id x with
    | Some info =>
        set_orders (<[ca_id x := set_open (u32 (i_open info - ca_canceled_qty x)) info]>
                      (orders_ e)) e
    | None => e
    end.

Definition handle_replaced (x : ReplacedEvent) e : Engine B := push_feed (on_replaced x) e.

Definition on_event e (ev : BookEvent) : Engine B :=
  match ev with
  | on_added x => handle_added x e
  | on_executed x => handle_executed x e
  | on_canceled x => handle_canceled x e
  | on_replaced x => handle_replaced x e
  end.

(** [book.op(...)] on the book [b] of [symbol], with the listener calls it
    makes. *)
Definition call_book {R} (symbol : Symbol) (op : B -> option (R * B)) (b : B) e
    : option (R * Engine B) :=
  '(r, b') ← op b;
  let e := set_books (<[symbol := b']> (books_ e)) e in
  Some (r, fold_left on_event (drop (length (eb_log b)) (eb_log b')) e).

(** ** Command handlers *)

Definition int64_max : Price := 2 ^ 63 - 1.

(** The order's limit and whether it is immediate-or-cancel. *)
Definition limit_of (m : Ouch.EnterOrder) : Price :=
  if Ouch.eo_price m =? Ouch.kMarketPrice
  then (if is_buy (Ouch.eo_side m) then int64_max else 1)
  else Ouch.eo_price m.

Definition is_ioc (m : Ouch.EnterOrder) : bool :=
  (Ouch.eo_price m =? Ouch.kMarketPrice) || (Ouch.eo_tif m =? Ouch.kTifIOC).

Definition accepted_of (m : Ouch.EnterOrder) (now ref : Z) : Ouch.Accepted :=
  Ouch.mkAccepted now (Ouch.eo_token m) (Ouch.eo_side m) (Ouch.eo_shares m)
    (Ouch.eo_stock m) (Ouch.eo_price m) (Ouch.eo_tif m) (Ouch.eo_firm m)
    (Ouch.eo_display m) ref (Ouch.eo_capacity m) (Ouch.eo_intermarket_sweep m)
    (Ouch.eo_min_qty m) (Ouch.eo_cross_type m) (chr "L") 0.

(** The part of [handle(EnterOrder)] after the order is accepted and its book
    has been found. *)
Definition trade (client ref : Z) (m : Ouch.EnterOrder) (b : B) e : option (Engine B) :=
  let stock := Ouch.eo_stock m in
  let limit := limit_of m in
  '(enough, b) ←
    (if 0 <? Ouch.eo_min_qty m then
       '(q, b) ← eb_matchable (Ouch.eo_side m) limit b;
       Some (negb (q <? Ouch.eo_min_qty m), b)
     else Some (true, b));
  let e := set_books (<[stock := b]> (books_ e)) e in
  if negb enough then
    Some (cancel_unrested client ref (Ouch.eo_token m) (Ouch.eo_shares m) (chr "D") e)
  else if is_ioc m then
    '(filled, e) ←
      call_book stock (eb_execute_ioc ref (Ouch.eo_side m) limit (Ouch.eo_shares m)) b e;
    let remainder := u32 (Ouch.eo_shares m - filled) in
    Some (if 0 <? remainder
          then cancel_unrested client ref (Ouch.eo_token m) remainder (chr "I") e else e)
  else
    '(_, e) ←
      call_book stock
        (eb_step (OpAdd ref (Ouch.eo_side m) (Ouch.eo_price m) (Ouch.eo_shares m))) b e;
    Some e.

Definition handle_enter (client : Z) (m : Ouch.EnterOrder) e : option (Engine B) :=
  let market := Ouch.eo_price m =? Ouch.kMarketPrice in
  if token_used client (Ouch.eo_token m) e then
    Some (reject client (Ouch.eo_token m) (chr "T") e)
  else if negb market && (Ouch.eo_price m <=? 0) then
    Some (reject client (Ouch.eo_token m) (chr "X") e)
  else if Ouch.eo_shares m =? 0 then
    Some (reject client (Ouch.eo_token m) (chr "Z") e)
  else if bool_decide (Ouch.eo_side m <> Buy) && bool_decide (Ouch.eo_side m <> Sell) then
    Some (reject client (Ouch.eo_token m) (chr "S") e)
  else
  let ref := next_ref_ e in
  let e := set_next_ref (u64 (ref + 1)) e in
  let key := (client, token_str (Ouch.eo_token m)) in
  let e := set_used ({[key]} ∪ used_tokens_ e) e in
  let e := set_live (<[key := ref]> (live_tokens_ e)) e in
  let e := set_orders (<[ref := mkInfo client (Ouch.eo_token m) (Ouch.eo_stock m)
                                  (Ouch.eo_side m) (Ouch.eo_shares m)]> (orders_ e)) e in
  let e := set_symbol (Ouch.eo_stock m) e in
  let e := push_gateway client (RAccepted (accepted_of m (now_ e) ref)) e in
  '(b, e) ← book_for (Ouch.eo_stock m) e;
  trade client ref m b e.

Definition handle_cancel (client : Z) (m : Ouch.CancelOrder) e : option (Engine B) :=
  match live_tokens_ e !! (client, token_str (Ouch.co_token m)) with
  | None => Some e
  | Some ref =>
      match orders_ e !! ref with
      | None => Some e
      | Some info =>
          let e := set_symbol (i_symbol info) e in
          '(b, e) ← book_for (i_symbol info) e;
          '(_, e) ← call_book (i_symbol info) (eb_step (OpCancel ref (Ouch.co_shares m))) b e;
          Some e
      end
  end.

Definition replaced_of (m : Ouch.ReplaceOrder) (info : OrderInfo) (now new_ref : Z)
    : Ouch.Replaced :=
  Ouch.mkReplaced now (Ouch.ro_replacement_token m) (i_side info) (Ouch.ro_shares m)
    (i_symbol info) (Ouch.ro_price m) (Ouch.ro_tif m) (replicate 4 0) (Ouch.ro_display m)
    new_ref 0 (Ouch.ro_intermarket_sweep m) (Ouch.ro_min_qty m) 0 (chr "L") 0
    (i_token info).

(** The bookkeeping of a replace before the book is called: the symbol, the new
    reference and token, the Replaced response, and the swap of the entries of
    the two maps. *)
Definition swap_order (client : Z) (m : Ouch.ReplaceOrder) (old_ref : OrderId)
    (old_info : OrderInfo) e : Engine B :=
  let old_key := (client, token_str (Ouch.ro_existing_token m)) in
  let new_key := (client, token_str (Ouch.ro_replacement_token m)) in
  let symbol := i_symbol old_info in
  let e := set_symbol symbol e in
  let new_ref := next_ref_ e in
  let e := set_next_ref (u64 (new_ref + 1)) e in
  let e := set_used ({[new_key]} ∪ used_tokens_ e) e in
  let e := push_gateway client (RReplaced (replaced_of m old_info (now_ e) new_ref)) e in
  let e := set_live (delete old_key (live_tokens_ e)) e in
  let e := set_orders (delete old_ref (orders_ e)) e in
  let e := set_live (<[new_key := new_ref]> (live_tokens_ e)) e in
  let e := set_orders (<[new_ref := mkInfo client (Ouch.ro_replacement_token m) symbol
                          (i_side old_info) (Ouch.ro_shares m)]> (orders_ e)) e in
  set_suppress true e.

Definition handle_replace (client : Z) (m : Ouch.ReplaceOrder) e : option (Engine B) :=
  match live_tokens_ e !! (client, token_str (Ouch.ro_existing_token m)) with
  | None => Some e
  | Some old_ref =>
      if token_used client (Ouch.ro_replacement_token m) e then Some e
      else if (Ouch.ro_price m <=? 0) || (Ouch.ro_shares m =? 0) then Some e
      else
      match orders_ e !! old_ref with
      | None => Some e
      | Some old_info =>
          let symbol := i_symbol old_info in
          let new_ref := next_ref_ e in
          let e := swap_order client m old_ref old_info e in
          '(b, e) ← book_for symbol e;
          '(_, e) ← call_book symbol
            (eb_step (OpReplace old_ref new_ref (Ouch.ro_price m) (Ouch.ro_shares m))) b e;
          Some (set_suppress false e)
      end
  end.

Definition handle (client : Z) (m : CommandMsg) e : option (Engine B) :=
  match m with
  | CEnter m => handle_enter client m e
  | CCancel m => handle_cancel client m e
  | CReplace m => handle_replace client m e
  end.

Definition process (now : Z) (cmd : Command) e : option (Engine B) :=
  handle (cmd_client_id cmd) (cmd_msg cmd) (set_now now e).

(** The commands the engine thread takes off its queue, each with the clock
    at that moment. *)
Fixpoint process_all (cmds : list (Z * Command)) e : option (Engine B) :=
  match cmds with
  | [] => Some e
  | (now, cmd) :: cmds => e ← process now cmd e; process_all cmds e
  end.
End Ops.
End Engine.
