(* ===== verification/EngineInv.v ===== *)
(** The engine's bookkeeping agrees with its books.

    [inv e S]: the books represent the abstract books [S]; an order is in the
    order table exactly when it rests in the book of its symbol, with the side
    and the open shares recorded; live tokens and the order table are inverse
    to each other; every live token is used. The lemmas follow a command
    through its listener calls; between the calls one order (the aggressor) or
    two (a replace) may be in the table and not in a book, so the table
    invariant excepts a set of ids. *)

From S2P Require Import Prelude StdMap Endian BookTypes BookSpec BookLaws MatchingBook BookReplay Symbols Ouch EngineBook Engine.
From Stdlib Require Import Ascii.
Import Engine.

Abbreviation Books := (gmap Symbol Spec.Book).

Definition book_find (S : Books) (sym : Symbol) (id : OrderId)
    : option (Side * Price * Qty) :=
  S !! sym ≫= Spec.find_order id.

(** An entry of the order table and what the book of [sym] says of that id. *)
Definition holds (o : option OrderInfo) (sym : Symbol) (r : option (Side * Price * Qty))
    : Prop :=
  match r with
  | Some (s, _, q) =>
      exists info, o = Some info /\ i_symbol info = sym /\ i_side info = s /\ i_open info = q
  | None => forall info, o = Some info -> i_symbol info <> sym
  end.

(** What a client can tell of its orders from the responses alone: the open
    shares of every order, by client and token. An order appears with its
    Accepted or Replaced response, every Executed and Canceled response takes
    shares off it, and it disappears when none are left or when it is
    replaced. *)
Abbreviation View := (gmap (Z * bytes) Qty).

Definition take_open (n : Qty) (o : option Qty) : option Qty :=
  q ← o; if q <=? n then None else Some (q - n).

Definition view_step (v : View) (r : ClientResponse) : View :=
  let c := rsp_client_id r in
  match rsp_msg r with
  | RAccepted m => <[(c, token_str (Ouch.ac_token m)) := Ouch.ac_shares m]> v
  | RExecuted m =>
      partial_alter (take_open (Ouch.xc_executed_shares m)) (c, token_str (Ouch.xc_token m)) v
  | RCanceled m =>
      partial_alter (take_open (Ouch.cn_decrement_shares m)) (c, token_str (Ouch.cn_token m)) v
  | RReplaced m =>
      <[(c, token_str (Ouch.rp_replacement_token m)) := Ouch.rp_shares m]>
        (delete (c, token_str (Ouch.rp_previous_token m)) v)
  | RRejected _ | RSystemEvent _ => v
  end.

Definition view (rs : list ClientResponse) : View := fold_left view_step rs ∅.

Lemma view_app rs rs' : view (rs ++ rs') = fold_left view_step rs' (view rs).
Proof. apply fold_left_app. Qed.

Definition key_of (info : OrderInfo) : Z * bytes :=
  (i_client_id info, token_str (i_token info)).

Section Inv.
Context {B : Type} `{EngineBookLaws B}.
Implicit Types (e : Engine B) (S : Books) (sp : Spec.Book) (X : gset OrderId).

Record tokens_ok e : Prop := {
  tk_live : forall c t id, live_tokens_ e !! (c, t) = Some id <->
    exists info, orders_ e !! id = Some info /\ i_client_id info = c /\
      token_str (i_token info) = t;
  tk_used : forall k id, live_tokens_ e !! k = Some id -> k ∈ used_tokens_ e;
  tk_refs : forall id info, orders_ e !! id = Some info -> 1 <= id < next_ref_ e;
  tk_next : 1 <= next_ref_ e < 2 ^ 64 }.

(** The open shares the engine has on record for a client's token. *)
Definition open_of e (k : Z * bytes) : option Qty :=
  id ← live_tokens_ e !! k; i_open <$> orders_ e !! id.

(** The token maps are consistent and the responses account for them. *)
Record ledger e : Prop := {
  lg_tokens :> tokens_ok e;
  lg_view : forall k, view (to_gateway_ e) !! k = open_of e k }.

#[local] Hint Extern 0 (tokens_ok _) => apply lg_tokens; assumption : core.

Definition table_ok X e S : Prop :=
  forall id sym, id ∉ X -> holds (orders_ e !! id) sym (book_find S sym id).

Definition books_ok e S : Prop :=
  forall sym, match books_ e !! sym, S !! sym with
  | Some b, Some sp => eb_rep b sp
  | None, None => True
  | _, _ => False
  end.

Record inv e S : Prop := {
  inv_books : books_ok e S;
  inv_tokens : ledger e;
  inv_table : table_ok ∅ e S;
  inv_suppress : suppress_ouch_cancel_ e = false }.

(** An id that no book knows. *)
Definition nowhere (id : OrderId) S : Prop := forall sym, book_find S sym id = None.

(** ** Steps that touch neither the books nor the table *)

(** What a listener call leaves alone. *)
Record frame e e' : Prop := {
  fr_books : books_ e' = books_ e;
  fr_used : used_tokens_ e' = used_tokens_ e;
  fr_next : next_ref_ e' = next_ref_ e;
  fr_symbol : current_symbol_ e' = current_symbol_ e;
  fr_now : now_ e' = now_ e;
  fr_suppress : suppress_ouch_cancel_ e' = suppress_ouch_cancel_ e }.

#[export] Instance frame_refl : Reflexive frame.
Proof. by split. Qed.

#[export] Instance frame_trans : Transitive frame.
Proof. intros e1 e2 e3 [] []. split; congruence. Qed.

Lemma notify_fields id l x e :
  let e' := notify id l x e in
  frame e e' /\ orders_ e' = orders_ e /\ live_tokens_ e' = live_tokens_ e /\
  to_feed_ e' = to_feed_ e.
Proof. unfold notify. cbn zeta. by destruct (orders_ e !! id). Qed.

Lemma reduce_open_frame id k e :
  let e' := reduce_open id k e in frame e e' /\ to_feed_ e' = to_feed_ e.
Proof. unfold reduce_open. cbn zeta. repeat case_match; done. Qed.

(** Every listener call is published to the feed, stamped with the engine's
    time and symbol. *)
Lemma on_event_frame e ev :
  frame e (on_event e ev) /\
  to_feed_ (on_event e ev) = to_feed_ e ++ [mkMarket (now_ e) (current_symbol_ e) ev].
Proof.
  destruct ev as [x|x|x|x]; cbn [on_event]; [by split| | |by split].
  - unfold handle_executed. cbv zeta.
    set (e0 := push_feed _ e). set (e1 := notify _ _ _ e0). set (e2 := notify _ _ _ e1).
    set (e3 := reduce_open _ _ e2).
    destruct (notify_fields (ex_resting_id x) (chr "A") x e0) as (F1 & _ & _ & T1).
    destruct (notify_fields (ex_aggressor_id x) (chr "R") x e1) as (F2 & _ & _ & T2).
    destruct (reduce_open_frame (ex_resting_id x) (ex_qty x) e2) as (F3 & T3).
    destruct (reduce_open_frame (ex_aggressor_id x) (ex_qty x) e3) as (F4 & T4).
    fold e1 in F1, T1. fold e2 in F2, T2. fold e3 in F3, T3.
    split; [|by rewrite T4, T3, T2, T1].
    assert (frame e e0) as F0 by done.
    do 4 (etrans; [eassumption|]). exact F4.
  - unfold handle_canceled. cbv zeta. set (e0 := push_feed _ e).
    assert (frame e e0) as F0 by done.
    set (e1 := if negb (suppress_ouch_cancel_ e0) then _ else _).
    assert (frame e e1 /\ to_feed_ e1 = to_feed_ e0) as [F1 T1].
    { unfold e1. repeat case_match; done. }
    destruct (ca_removed x).
    + destruct (reduce_open_frame (ca_id x) (ca_canceled_qty x) e1) as (F2 & T2).
      rewrite T2, T1. split; [|done]. by etrans.
    + destruct (orders_ e1 !! ca_id x); (split; [|exact T1]); [|exact F1].
      by destruct F1.
Qed.

Lemma on_events_frame evs : forall e,
  frame e (fold_left on_event evs e) /\
  to_feed_ (fold_left on_event evs e)
  = to_feed_ e ++ map (mkMarket (now_ e) (current_symbol_ e)) evs.
Proof.
  induction evs as [|ev evs IH]; intros e; cbn [fold_left map]; [by rewrite app_nil_r|].
  destruct (on_event_frame e ev) as [F T]. destruct (IH (on_event e ev)) as [F' T'].
  split; [by etrans|]. rewrite T', T, (fr_now _ _ F), (fr_symbol _ _ F).
  by rewrite <- app_assoc.
Qed.

(** ** The token maps *)

(** The tokens only depend on three members. *)
Lemma tokens_ok_ext e e' :
  orders_ e' = orders_ e -> live_tokens_ e' = live_tokens_ e ->
  used_tokens_ e' = used_tokens_ e -> next_ref_ e' = next_ref_ e ->
  tokens_ok e -> tokens_ok e'.
Proof. intros Ho Hl Hu Hn [H1 H2 H3 H4]. split; rewrite ?Ho, ?Hl, ?Hu, ?Hn; done. Qed.

(** Changing the open shares of an order keeps its token. *)
Lemma tokens_ok_open e id info q :
  tokens_ok e -> orders_ e !! id = Some info ->
  tokens_ok (set_orders (<[id := set_open q info]> (orders_ e)) e).
Proof.
  intros [Hl Hu Hr Hn] Hid. split; cbn [orders_ live_tokens_ used_tokens_ next_ref_ set_orders].
  - intros c t j. rewrite Hl. destruct (decide (j = id)) as [->|Hne].
    + rewrite lookup_insert_eq, Hid. split; intros (i & Hi & Hc & Ht); simplify_eq; eauto.
    + by rewrite lookup_insert_ne.
  - exact Hu.
  - intros j i. destruct (decide (j = id)) as [->|Hne]; [eauto|]. rewrite lookup_insert_ne by done.
    apply Hr.
  - exact Hn.
Qed.

(** Dropping an order and its token. *)
Lemma tokens_ok_delete e id info :
  tokens_ok e -> orders_ e !! id = Some info ->
  tokens_ok (set_orders (delete id (orders_ e))
    (set_live (delete (i_client_id info, token_str (i_token info)) (live_tokens_ e)) e)).
Proof.
  intros [Hl Hu Hr Hn] Hid.
  split; cbn [orders_ live_tokens_ used_tokens_ next_ref_ set_orders set_live].
  - intros c t j. destruct (decide ((i_client_id info, token_str (i_token info)) = (c, t))) as [E|E].
    + rewrite E, lookup_delete_eq. split; [done|]. intros (i & Hi & Hc & Ht).
      apply lookup_delete_Some in Hi as [Hne Hi].
      assert (live_tokens_ e !! (c, t) = Some j) as Hj by (apply Hl; eauto).
      assert (live_tokens_ e !! (c, t) = Some id) as Hj'
        by (apply Hl; exists info; injection E as <- <-; done).
      congruence.
    + rewrite lookup_delete_ne, Hl by done. split; intros (i & Hi & Hc & Ht).
      * exists i. split; [|done]. apply lookup_delete_Some. split; [|done].
        intros ->. destruct E. rewrite Hid in Hi. injection Hi as <-. by subst.
      * apply lookup_delete_Some in Hi as [_ Hi]. eauto.
  - intros k j [_ Hj]%lookup_delete_Some. eauto.
  - intros j i [_ Hj]%lookup_delete_Some. eauto.
  - exact Hn.
Qed.

(** A new order under a token not used before. *)
Lemma tokens_ok_insert e c tok info :
  tokens_ok e -> next_ref_ e + 1 < 2 ^ 64 ->
  (c, token_str tok) ∉ used_tokens_ e -> i_client_id info = c -> i_token info = tok ->
  tokens_ok (set_orders (<[next_ref_ e := info]> (orders_ e))
    (set_live (<[(c, token_str tok) := next_ref_ e]> (live_tokens_ e))
      (set_used ({[(c, token_str tok)]} ∪ used_tokens_ e)
        (set_next_ref (u64 (next_ref_ e + 1)) e)))).
Proof.
  intros [Hl Hu Hr Hn] Hb Hnew Hc Ht.
  assert (orders_ e !! next_ref_ e = None) as Hfresh.
  { destruct (orders_ e !! next_ref_ e) eqn:E; [|done]. apply Hr in E. lia. }
  rewrite (wrap_small 64) by (unfold fits; lia).
  split; cbn [orders_ live_tokens_ used_tokens_ next_ref_ set_orders set_live set_used set_next_ref].
  - intros c' t' j. destruct (decide ((c, token_str tok) = (c', t'))) as [E|E].
    + rewrite E, lookup_insert_eq. injection E as <- <-. split.
      * intros [= <-]. exists info. rewrite lookup_insert_eq. by subst.
      * intros (i & Hi & Hci & Hti). destruct (decide (j = next_ref_ e)) as [->|Hne]; [done|].
        rewrite lookup_insert_ne in Hi by done. destruct Hnew. apply (Hu _ j), Hl. eauto.
    + rewrite lookup_insert_ne, Hl by done. split; intros (i & Hi & Hci & Hti).
      * exists i. rewrite lookup_insert_ne; [done|]. intros <-. by rewrite Hi in Hfresh.
      * destruct (decide (j = next_ref_ e)) as [->|Hne].
        -- rewrite lookup_insert_eq in Hi. injection Hi as <-. destruct E. by subst.
        -- rewrite lookup_insert_ne in Hi by done. eauto.
  - intros k j Hk. destruct (decide (k = (c, token_str tok))) as [->|Hne]; [set_solver|].
    rewrite lookup_insert_ne in Hk by done. apply Hu in Hk. set_solver.
  - intros j i Hj. destruct (decide (j = next_ref_ e)) as [->|Hne]; [lia|].
    rewrite lookup_insert_ne in Hj by done. apply Hr in Hj. lia.
  - lia.
Qed.

(** Filling or cancelling part of an order. *)
Lemma reduce_open_spec e id k info :
  tokens_ok e -> orders_ e !! id = Some info -> 0 < k <= i_open info -> i_open info < 2 ^ 32 ->
  tokens_ok (reduce_open id k e) /\
  orders_ (reduce_open id k e) !! id
    = (if i_open info =? k then None else Some (set_open (i_open info - k) info)) /\
  (forall j, j <> id -> orders_ (reduce_open id k e) !! j = orders_ e !! j).
Proof.
  intros Ht Hid Hk Hb. unfold reduce_open. rewrite Hid.
  rewrite (wrap_small 32) by (unfold fits; lia). cbv zeta. cbn [i_open set_open].
  pose proof (tokens_ok_open e id info (i_open info - k) Ht Hid) as Ht1.
  set (info' := set_open (i_open info - k) info) in *.
  set (e1 := set_orders (<[id := info']> (orders_ e)) e) in *.
  destruct (Z.eqb_spec (i_open info) k) as [Heq|Hne].
  - replace (i_open info - k =? 0) with true by lia.
    assert (orders_ e1 !! id = Some info') as H1 by apply lookup_insert_eq.
    pose proof (tokens_ok_delete e1 id info' Ht1 H1) as Ht2. split; [exact Ht2|].
    cbn [orders_ set_orders set_live e1]. split; [apply lookup_delete_eq|].
    intros j Hj. by rewrite lookup_delete_ne, lookup_insert_ne.
  - replace (i_open info - k =? 0) with false by lia. split; [exact Ht1|].
    cbn [orders_ set_orders e1]. split; [apply lookup_insert_eq|].
    intros j Hj. by rewrite lookup_insert_ne.
Qed.

(** ** The responses *)

Lemma ledger_ext e e' :
  orders_ e' = orders_ e -> live_tokens_ e' = live_tokens_ e ->
  used_tokens_ e' = used_tokens_ e -> next_ref_ e' = next_ref_ e ->
  view (to_gateway_ e') = view (to_gateway_ e) -> ledger e -> ledger e'.
Proof.
  intros Ho Hl Hu Hn Hg [Ht Hv]. split; [by apply (tokens_ok_ext e)|].
  intros k. unfold open_of. rewrite Hg, Hl, Ho. apply Hv.
Qed.

Lemma live_key e id info :
  tokens_ok e -> orders_ e !! id = Some info -> live_tokens_ e !! key_of info = Some id.
Proof. intros Ht Hi. apply (tk_live _ Ht). eauto. Qed.

Lemma open_of_key e id info :
  tokens_ok e -> orders_ e !! id = Some info -> open_of e (key_of info) = Some (i_open info).
Proof. intros Ht Hi. unfold open_of. by rewrite (live_key e id info), obind_Some, Hi. Qed.

(** Another token belongs to another order. *)
Lemma live_other e id info k id' :
  tokens_ok e -> orders_ e !! id = Some info -> live_tokens_ e !! k = Some id' ->
  k <> key_of info -> id' <> id.
Proof.
  intros Ht Hi Hl Hk ->. destruct k as [c t]. apply (tk_live _ Ht) in Hl as (i & Hi' & <- & <-).
  rewrite Hi in Hi'. injection Hi' as <-. by destruct Hk.
Qed.

(** Changing the open shares of one order, or dropping it, is seen under its
    key only. *)
Lemma open_of_change e e' id info o :
  tokens_ok e -> orders_ e !! id = Some info ->
  (forall k, k <> key_of info -> live_tokens_ e' !! k = live_tokens_ e !! k) ->
  (forall j, j <> id -> orders_ e' !! j = orders_ e !! j) ->
  open_of e' (key_of info) = o ->
  forall k, open_of e' k = if decide (k = key_of info) then o else open_of e k.
Proof.
  intros Ht Hi Hl Ho Hk k. destruct (decide (k = key_of info)) as [->|Hne]; [done|].
  unfold open_of. rewrite Hl by done. destruct (live_tokens_ e !! k) as [id'|] eqn:El; [|done].
  rewrite !obind_Some. rewrite Ho; [done|]. by eapply live_other.
Qed.

Lemma take_open_Some n q : take_open n (Some q) = if q <=? n then None else Some (q - n).
Proof. done. Qed.

Lemma open_of_reduce e id n info :
  tokens_ok e -> orders_ e !! id = Some info -> 0 < n <= i_open info -> i_open info < 2 ^ 32 ->
  forall k, open_of (reduce_open id n e) k
    = if decide (k = key_of info) then take_open n (open_of e k) else open_of e k.
Proof.
  intros Ht Hi Hn Hb k. pose proof (live_key e id info Ht Hi) as Hl.
  rewrite (open_of_change e (reduce_open id n e) id info (take_open n (Some (i_open info))));
    [|done|done|..].
  { destruct (decide (k = key_of info)) as [->|]; [|done]. by rewrite (open_of_key e id info). }
  all: unfold reduce_open, open_of; rewrite Hi, (wrap_small 32) by (unfold fits; lia); cbv zeta;
    cbn [i_open set_open i_client_id i_token]; destruct (Z.eqb_spec (i_open info - n) 0) as [E|E];
    cbn [orders_ live_tokens_ set_orders set_live].
  - intros j Hj. by rewrite lookup_delete_ne.
  - done.
  - intros j Hj. by rewrite lookup_delete_ne, lookup_insert_ne.
  - intros j Hj. by rewrite lookup_insert_ne.
  - rewrite lookup_delete_eq, take_open_Some. by replace (i_open info <=? n) with true by lia.
  - rewrite Hl, obind_Some, lookup_insert_eq, take_open_Some.
    by replace (i_open info <=? n) with false by lia.
Qed.

(** A response that takes shares off an order, followed by the same change of
    the record. *)
Lemma ledger_take e e' info n :
  ledger e -> tokens_ok e' ->
  view (to_gateway_ e') = partial_alter (take_open n) (key_of info) (view (to_gateway_ e)) ->
  (forall k, open_of e' k
     = if decide (k = key_of info) then take_open n (open_of e k) else open_of e k) ->
  ledger e'.
Proof.
  intros [Ht Hv] Ht' Hg Ho. split; [done|]. intros k. rewrite Hg, Ho.
  destruct (decide (k = key_of info)) as [->|Hne].
  - by rewrite lookup_partial_alter_eq, Hv.
  - by rewrite lookup_partial_alter_ne.
Qed.

(** Recording a new order, and dropping one. *)
Lemma open_of_insert (v : View) e e' k id info :
  tokens_ok e -> (forall k, v !! k = open_of e k) -> orders_ e !! id = None ->
  orders_ e' = <[id := info]> (orders_ e) ->
  live_tokens_ e' = <[k := id]> (live_tokens_ e) ->
  forall j, <[k := i_open info]> v !! j = open_of e' j.
Proof.
  intros Ht Hv Hid Ho Hl j. unfold open_of. rewrite Ho, Hl.
  destruct (decide (k = j)) as [<-|Hne].
  - by rewrite !lookup_insert_eq, obind_Some, lookup_insert_eq.
  - rewrite !(lookup_insert_ne _ k), Hv by done. unfold open_of.
    destruct (live_tokens_ e !! j) as [id'|] eqn:El; [|done]. rewrite !obind_Some.
    destruct j as [c t]. apply (tk_live _ Ht) in El as (i & Hi & _).
    rewrite lookup_insert_ne; [done|]. intros ->. by rewrite Hi in Hid.
Qed.

Lemma open_of_delete (v : View) e e' id info :
  tokens_ok e -> (forall k, v !! k = open_of e k) -> orders_ e !! id = Some info ->
  orders_ e' = delete id (orders_ e) ->
  live_tokens_ e' = delete (key_of info) (live_tokens_ e) ->
  forall j, delete (key_of info) v !! j = open_of e' j.
Proof.
  intros Ht Hv Hid Ho Hl j. rewrite (open_of_change e e' id info None).
  - destruct (decide (j = key_of info)) as [->|Hne]; [by rewrite lookup_delete_eq|].
    by rewrite lookup_delete_ne.
  - done.
  - done.
  - intros k Hk. by rewrite Hl, lookup_delete_ne.
  - intros i Hi. by rewrite Ho, lookup_delete_ne.
  - unfold open_of. by rewrite Hl, lookup_delete_eq.
Qed.

Lemma reduce_open_gateway id n e : to_gateway_ (reduce_open id n e) = to_gateway_ e.
Proof. unfold reduce_open. cbv zeta. by repeat case_match. Qed.

Lemma notify_view id l x e info :
  orders_ e !! id = Some info ->
  view (to_gateway_ (notify id l x e))
  = partial_alter (take_open (ex_qty x)) (key_of info) (view (to_gateway_ e)).
Proof. intros Hi. unfold notify. rewrite Hi. cbn [to_gateway_ push_gateway]. by rewrite view_app. Qed.

(** ** The order table *)

Lemma book_find_insert S sym sp sym' id :
  book_find (<[sym := sp]> S) sym' id
  = if decide (sym = sym') then Spec.find_order id sp else book_find S sym' id.
Proof.
  unfold book_find. destruct (decide (sym = sym')) as [<-|Hne].
  - by rewrite lookup_insert_eq.
  - by rewrite lookup_insert_ne.
Qed.

Lemma book_find_Some S sym sp id : S !! sym = Some sp -> book_find S sym id = Spec.find_order id sp.
Proof. unfold book_find. by intros ->. Qed.

Lemma table_update X e S e' sym sp sp' id :
  table_ok X e S -> S !! sym = Some sp ->
  (forall j, j ∉ X -> j <> id -> orders_ e' !! j = orders_ e !! j) ->
  (forall j, j ∉ X -> j <> id -> Spec.find_order j sp' = Spec.find_order j sp) ->
  (id ∉ X -> forall sym', holds (orders_ e' !! id) sym' (book_find (<[sym := sp']> S) sym' id)) ->
  table_ok X e' (<[sym := sp']> S).
Proof.
  intros Ht HS Ho Hf Hid j sym' Hj. destruct (decide (j = id)) as [->|Hne]; [by apply Hid|].
  specialize (Ht j sym' Hj). rewrite Ho by done. rewrite book_find_insert.
  destruct (decide (sym = sym')) as [<-|]; [|done].
  rewrite Hf by done. by rewrite (book_find_Some S sym sp) in Ht.
Qed.

Lemma holds_gone S sym sp' id :
  (forall sym', sym' <> sym -> book_find S sym' id = None) -> Spec.find_order id sp' = None ->
  forall sym', holds None sym' (book_find (<[sym := sp']> S) sym' id).
Proof.
  intros He Hf sym'. rewrite book_find_insert. destruct (decide (sym = sym')) as [<-|].
  - by rewrite Hf.
  - by rewrite He.
Qed.

Lemma holds_here S sym sp' id info px :
  (forall sym', sym' <> sym -> book_find S sym' id = None) -> i_symbol info = sym ->
  Spec.find_order id sp' = Some (i_side info, px, i_open info) ->
  forall sym', holds (Some info) sym' (book_find (<[sym := sp']> S) sym' id).
Proof.
  intros He Hs Hf sym'. rewrite book_find_insert. destruct (decide (sym = sym')) as [<-|Hne].
  - rewrite Hf. by exists info.
  - rewrite He by done. intros i [= <-]. congruence.
Qed.

Lemma table_entry X e S id info :
  table_ok X e S -> id ∉ X -> orders_ e !! id = Some info ->
  (exists px, book_find S (i_symbol info) id = Some (i_side info, px, i_open info)) /\
  (forall sym, sym <> i_symbol info -> book_find S sym id = None).
Proof.
  intros Ht Hx Hid. split.
  - specialize (Ht id (i_symbol info) Hx). rewrite Hid in Ht.
    destruct (book_find S (i_symbol info) id) as [[[s px] q]|]; cbn in Ht.
    + destruct Ht as (i & [= <-] & _ & <- & <-). by exists px.
    + by destruct (Ht info eq_refl).
  - intros sym Hne. specialize (Ht id sym Hx). rewrite Hid in Ht.
    destruct (book_find S sym id) as [[[s px] q]|]; [|done].
    destruct Ht as (i & [= <-] & Hs & _). congruence.
Qed.

Lemma order_table_find X e S sym sp id s px q :
  table_ok X e S -> id ∉ X -> S !! sym = Some sp ->
  Spec.find_order id sp = Some (s, px, q) ->
  exists info, orders_ e !! id = Some info /\ i_symbol info = sym /\ i_side info = s /\
    i_open info = q /\ (forall sym', sym' <> sym -> book_find S sym' id = None).
Proof.
  intros Ht Hx HS Hf. pose proof (Ht id sym Hx) as Hh.
  rewrite (book_find_Some S sym sp), Hf in Hh by done. destruct Hh as (info & Hi & <- & <- & <-).
  exists info. split_and!; [done..|]. by eapply table_entry.
Qed.

Lemma table_ok_ext X e e' S : orders_ e' = orders_ e -> table_ok X e S -> table_ok X e' S.
Proof. intros Ho Ht id sym Hx. rewrite Ho. by apply Ht. Qed.

(** ** Listener calls *)

(** Two fills, one response each. *)
Lemma executed_ledger e x ri ai :
  ledger e -> ex_resting_id x <> ex_aggressor_id x ->
  orders_ e !! ex_resting_id x = Some ri -> orders_ e !! ex_aggressor_id x = Some ai ->
  0 < ex_qty x -> ex_qty x <= i_open ri < 2 ^ 32 -> ex_qty x <= i_open ai < 2 ^ 32 ->
  ledger (handle_executed x e).
Proof.
  intros Hk Hne Hr Ha Hq Hqr Hqa. unfold handle_executed. cbv zeta.
  set (e0 := push_feed _ e). set (e1 := notify _ _ _ e0). set (e2 := notify _ _ _ e1).
  destruct (notify_fields (ex_resting_id x) (chr "A") x e0) as (F1 & O1 & L1 & _).
  destruct (notify_fields (ex_aggressor_id x) (chr "R") x e1) as (F2 & O2 & L2 & _).
  fold e1 in F1, O1, L1. fold e2 in F2, O2, L2.
  assert (orders_ e2 = orders_ e) as O by (by rewrite O2, O1).
  assert (live_tokens_ e2 = live_tokens_ e) as L by (by rewrite L2, L1).
  assert (tokens_ok e2) as Hk2.
  { apply (tokens_ok_ext e); [done|done| | |apply Hk].
    - by rewrite (fr_used _ _ F2), (fr_used _ _ F1).
    - by rewrite (fr_next _ _ F2), (fr_next _ _ F1). }
  assert (forall k, open_of e2 k = open_of e k) as Ho2 by (intros k; unfold open_of; by rewrite O, L).
  assert (view (to_gateway_ e2) = partial_alter (take_open (ex_qty x)) (key_of ai)
    (partial_alter (take_open (ex_qty x)) (key_of ri) (view (to_gateway_ e)))) as Hv.
  { unfold e2. rewrite (notify_view _ _ _ _ ai) by by rewrite O1. f_equal.
    exact (notify_view _ _ _ e0 ri Hr). }
  rewrite <- O in Hr, Ha. clearbody e2. clear e0 e1 F1 O1 L1 F2 O2 L2.
  destruct (reduce_open_spec e2 (ex_resting_id x) (ex_qty x) ri Hk2 Hr) as (Hk3 & _ & N3); [lia|lia|].
  pose proof (open_of_reduce e2 (ex_resting_id x) (ex_qty x) ri Hk2 Hr) as Ho3.
  set (e3 := reduce_open (ex_resting_id x) (ex_qty x) e2) in *.
  assert (to_gateway_ e3 = to_gateway_ e2) as G3 by apply reduce_open_gateway.
  rewrite <- N3 in Ha by done.
  destruct (reduce_open_spec e3 (ex_aggressor_id x) (ex_qty x) ai Hk3 Ha) as (Hk4 & _ & _); [lia|lia|].
  split; [done|]. intros k. rewrite reduce_open_gateway, G3, Hv.
  rewrite (open_of_reduce e3 (ex_aggressor_id x) (ex_qty x) ai Hk3 Ha) by lia.
  assert (view (to_gateway_ e) !! k = open_of e k) as Hvk by apply Hk.
  rewrite Ho3, Ho2 by lia.
  destruct (decide (k = key_of ai)) as [->|Hka].
  - rewrite lookup_partial_alter_eq. f_equal. destruct (decide (key_of ai = key_of ri)) as [E|E].
    + rewrite E, lookup_partial_alter_eq, <- E. by rewrite Hvk.
    + by rewrite lookup_partial_alter_ne.
  - rewrite lookup_partial_alter_ne by done. destruct (decide (k = key_of ri)) as [->|Hkr].
    + by rewrite lookup_partial_alter_eq, Hvk.
    + by rewrite lookup_partial_alter_ne.
Qed.

(** An execution by an aggressor that rests in no book. *)
Lemma handle_executed_spec e S sym sp x ai :
  ledger e -> table_ok {[ex_aggressor_id x]} e S -> S !! sym = Some sp -> Spec.wf sp ->
  ev_ok (on_executed x) sp -> nowhere (ex_aggressor_id x) S ->
  orders_ e !! ex_aggressor_id x = Some ai -> ex_qty x <= i_open ai < 2 ^ 32 ->
  let e' := handle_executed x e in
  let S' := <[sym := replay (on_executed x) sp]> S in
  ledger e' /\ table_ok {[ex_aggressor_id x]} e' S' /\ nowhere (ex_aggressor_id x) S' /\
  orders_ e' !! ex_aggressor_id x
    = (if i_open ai =? ex_qty x then None else Some (set_open (i_open ai - ex_qty x) ai)).
Proof.
  intros Hk Ht HS Hwf (q & Hf & Hq) Hn Ha Hqa. cbv zeta.
  set (agg := ex_aggressor_id x) in *. set (r := ex_resting_id x) in *.
  assert (r <> agg) as Hne.
  { intros E. specialize (Hn sym). rewrite (book_find_Some S sym sp), <- E, Hf in Hn by done. done. }
  assert (r ∉ ({[agg]} : gset OrderId)) as Hrx by set_solver.
  destruct (order_table_find _ _ _ _ _ _ _ _ _ Ht Hrx HS Hf)
    as (ri & Hri & Hrs & Hrside & Hro & Hre).
  destruct (Spec.find_order_qty _ _ _ _ _ Hwf Hf) as [_ Hqb].
  assert (ledger (handle_executed x e)) as Hk5.
  { apply (executed_ledger e x ri ai); try done; lia. }
  unfold handle_executed in Hk5 |- *. cbv zeta in Hk5 |- *. fold agg r in Hk5 |- *.
  set (e0 := push_feed _ e) in *. set (e1 := notify _ _ _ e0) in *. set (e2 := notify _ _ _ e1) in *.
  destruct (notify_fields r (chr "A") x e0) as (F1 & O1 & L1 & _).
  destruct (notify_fields agg (chr "R") x e1) as (F2 & O2 & L2 & _). fold e1 in F1, O1, L1.
  fold e2 in F2, O2, L2.
  assert (orders_ e2 = orders_ e) as O by (by rewrite O2, O1).
  assert (tokens_ok e2) as Hk2.
  { apply (tokens_ok_ext e); [done|by rewrite L2, L1| | |apply Hk].
    - by rewrite (fr_used _ _ F2), (fr_used _ _ F1).
    - by rewrite (fr_next _ _ F2), (fr_next _ _ F1). }
  rewrite <- O in Hri, Ha.
  destruct (reduce_open_spec e2 r (ex_qty x) ri Hk2 Hri) as (Hk3 & R3 & N3); [lia|lia|].
  set (e3 := reduce_open r (ex_qty x) e2) in *. rewrite <- N3 in Ha by done.
  destruct (reduce_open_spec e3 agg (ex_qty x) ai Hk3 Ha) as (Hk4 & R4 & N4); [lia|lia|].
  set (e4 := reduce_open agg (ex_qty x) e3) in *.
  assert (forall i, Spec.find_order i (replay (on_executed x) sp)
    = Spec.find_order i (take_shares r (ex_qty x) sp)) as Hrep by done.
  split_and!; [exact Hk5| | |done].
  - apply (table_update _ e _ _ _ sp _ r); [done|done| | |].
    + intros j Hj Hjr. rewrite N4 by set_solver. by rewrite N3, O.
    + intros j Hj Hjr. rewrite Hrep, find_take_shares by (done || lia).
      by rewrite (proj2 (Z.eqb_neq _ _) Hjr).
    + intros _. rewrite N4, R3 by done. rewrite Hro.
      destruct (Z.eqb_spec q (ex_qty x)) as [E|E].
      * apply holds_gone; [done|]. rewrite Hrep, find_take_shares, Z.eqb_refl, Hf by (done || lia).
        by replace (q <=? ex_qty x) with true by lia.
      * apply (holds_here S sym _ r _ (ex_price x)); [done|done|].
        rewrite Hrep, find_take_shares, Z.eqb_refl, Hf by (done || lia).
        replace (q <=? ex_qty x) with false by lia. by cbn; rewrite Hrside.
  - intros sym'. rewrite book_find_insert. destruct (decide (sym = sym')); [|apply Hn].
    rewrite Hrep, find_take_shares by (done || lia).
    rewrite (proj2 (Z.eqb_neq agg r)) by done. rewrite <- (book_find_Some S sym sp) by done. apply Hn.
Qed.

Definition executes (agg : OrderId) (ev : BookEvent) : Prop :=
  match ev with on_executed x => ex_aggressor_id x = agg | _ => False end.

(** The entry of an order with [q] shares left. *)
Definition remaining (ai : OrderInfo) (q : Qty) : option OrderInfo :=
  if q =? 0 then None else Some (set_open q ai).

Lemma trace_executed b evs b' : trace b evs b' -> 0 <= sum_by executed evs.
Proof.
  induction 1 as [|ev es b b' _ Hev _ IH]; [done|]. cbn [sum_by].
  destruct ev as [|x| |]; cbn [executed]; try lia. destruct Hev as (q & _ & Hq). lia.
Qed.

Lemma trace_executes_zero agg b evs b' :
  trace b evs b' -> Forall (executes agg) evs -> sum_by executed evs = 0 -> evs = [].
Proof.
  intros [|ev es b0 b0' _ Hev Htr] Hex Hs; [done|]. exfalso.
  apply Forall_cons in Hex as [He _]. apply trace_executed in Htr. cbn [sum_by] in Hs.
  destruct ev as [|x| |]; try done. destruct Hev as (q & _ & Hq). cbn [executed] in Hs. lia.
Qed.

Lemma executions_spec agg evs : forall e S sym sp sp' ai,
  trace sp evs sp' -> Forall (executes agg) evs ->
  ledger e -> table_ok {[agg]} e S -> S !! sym = Some sp -> nowhere agg S ->
  orders_ e !! agg = Some ai -> 0 < i_open ai < 2 ^ 32 -> sum_by executed evs <= i_open ai ->
  let e' := fold_left on_event evs e in
  let S' := <[sym := sp']> S in
  ledger e' /\ table_ok {[agg]} e' S' /\ nowhere agg S' /\
  orders_ e' !! agg = remaining ai (i_open ai - sum_by executed evs).
Proof.
  induction evs as [|ev evs IH]; intros e S sym sp sp' ai Htr Hex Hk Ht HS Hn Ha Ho Hsum;
    cbn [fold_left]; cbv zeta.
  { inversion Htr; subst. rewrite insert_id by done. split_and!; [done..|].
    cbn. rewrite Z.sub_0_r. unfold remaining. replace (i_open ai =? 0) with false by lia.
    rewrite Ha. by destruct ai. }
  inversion Htr as [|? ? ? ? Hwf Hev Htr']; subst. apply Forall_cons in Hex as [He Hex].
  destruct ev as [|x| |]; try done. cbn [executes] in He. subst agg.
  pose proof (trace_executed _ _ _ Htr') as Hnn.
  cbn [sum_by executed] in Hsum |- *.
  destruct (handle_executed_spec e S sym sp x ai) as (Hk1 & Ht1 & Hn1 & Ha1); try done; [lia|].
  pose proof Hev as (q & _ & Hq).
  set (e1 := handle_executed x e) in *. change (on_event e (on_executed x)) with e1.
  set (S1 := <[sym := replay (on_executed x) sp]> S) in *.
  assert (<[sym := sp']> S1 = <[sym := sp']> S) as HSS by (unfold S1; by rewrite insert_insert_eq).
  destruct (Z.eqb_spec (i_open ai) (ex_qty x)) as [E|E].
  - assert (evs = []) as -> by (eapply trace_executes_zero; [done|done|lia]).
    inversion Htr'; subst. cbn [fold_left sum_by]. rewrite <- HSS.
    unfold S1. rewrite insert_insert_eq. fold S1. split_and!; [done..|]. rewrite Ha1.
    unfold remaining. by replace (i_open ai - (ex_qty x + 0) =? 0) with true by lia.
  - specialize (IH e1 S1 sym (replay (on_executed x) sp) sp'
      (set_open (i_open ai - ex_qty x) ai) Htr' Hex Hk1 Ht1).
    cbn [i_open set_open] in IH. rewrite HSS in IH.
    destruct IH as (H1 & H2 & H3 & H4); [apply lookup_insert_eq|done|done|lia|lia|].
    split_and!; [done..|]. rewrite H4. unfold remaining.
    replace (i_open ai - ex_qty x - sum_by executed evs)
      with (i_open ai - (ex_qty x + sum_by executed evs)) by lia. done.
Qed.

(** ** The listener calls of one book operation *)

Lemma allocate_executes agg side qty mid q : Forall (executes agg) (allocate agg side qty mid q).
Proof.
  revert qty mid. induction q as [|[px o] q IH]; intros qty mid; cbn [allocate]; [constructor|].
  destruct (qty =? 0); constructor; [done|apply IH].
Qed.

Lemma match_executes agg side limit qty sp sp' rem evs :
  Spec.wf sp -> 0 <= qty -> Spec.match_ agg side limit qty sp = (sp', rem, evs) ->
  Forall (executes agg) evs /\ sum_by executed evs = qty - rem /\ 0 <= rem <= qty.
Proof.
  intros Hwf Hq Hm. pose proof (Spec.match_wf _ _ _ _ _ _ _ _ Hwf Hq Hm) as (_ & Hr & _).
  apply match_priority in Hm as (-> & -> & _); [|done|done].
  split; [apply allocate_executes|].
  rewrite allocate_sum by (done || apply priority_pos, Hwf).
  rewrite <- available_priority. lia.
Qed.

Lemma table_settle id e S :
  table_ok {[id]} e S -> (forall sym, holds (orders_ e !! id) sym (book_find S sym id)) ->
  table_ok ∅ e S.
Proof.
  intros Ht Hid j sym _. destruct (decide (j = id)) as [->|Hne]; [done|]. apply Ht. set_solver.
Qed.

Lemma nowhere_ids id S sym sp : nowhere id S -> S !! sym = Some sp -> id ∉ Spec.ids sp.
Proof. intros Hn HS. apply Spec.find_order_None. rewrite <- (book_find_Some S sym sp); auto. Qed.

Section Aggressor.
Context (e : Engine B) (S : Books) (sym : Symbol) (sp : Spec.Book) (agg : OrderId)
  (side : Side) (ai : OrderInfo).
Hypothesis (Hwf : Spec.wf sp) (Hside : valid_side side).
Hypothesis (Hk : ledger e) (Ht : table_ok {[agg]} e S) (HS : S !! sym = Some sp).
Hypothesis (Hn : nowhere agg S) (Ha : orders_ e !! agg = Some ai).
Hypothesis (Hsym : i_symbol ai = sym) (His : i_side ai = side) (Hopen : 0 < i_open ai < 2 ^ 32).

(** Matching leaves the aggressor with its remainder. *)
Lemma match_events_spec limit sp' rem evs :
  Spec.match_ agg side limit (i_open ai) sp = (sp', rem, evs) ->
  let e' := fold_left on_event evs e in
  let S' := <[sym := sp']> S in
  ledger e' /\ table_ok {[agg]} e' S' /\ nowhere agg S' /\
  orders_ e' !! agg = remaining ai rem.
Proof.
  intros Hm. assert (0 <= i_open ai) as Hq0 by lia.
  destruct (match_executes _ _ _ _ _ _ _ _ Hwf Hq0 Hm) as (Hex & Hsum & Hr).
  pose proof (match_trace _ _ _ _ _ _ _ _ Hwf Hside Hq0 Hm) as Htr.
  destruct (executions_spec agg evs e S sym sp sp' ai) as (H1 & H2 & H3 & H4); try done; [lia|].
  split_and!; [done..|]. rewrite H4. f_equal. lia.
Qed.

(** Matching and resting the remainder restores the table. *)
Lemma enter_events_spec px sp' rem evs :
  0 < px -> Spec.enter agg side px (i_open ai) sp = (sp', rem, evs) ->
  let e' := fold_left on_event evs e in
  let S' := <[sym := sp']> S in
  ledger e' /\ table_ok ∅ e' S'.
Proof.
  intros Hpx He. pose proof He as Hwf'. apply Spec.enter_wf in Hwf' as [Hwf' _];
    [|done|by eapply nowhere_ids|done|unfold fits; lia].
  unfold Spec.enter in He. destruct (Spec.match_ _ _ _ _ _) as [[sp1 r] ev] eqn:Hm.
  assert (0 <= i_open ai) as Hq0 by lia.
  pose proof (Spec.match_wf _ _ _ _ _ _ _ _ Hwf Hq0 Hm) as (Hwf1 & _).
  destruct (match_events_spec px sp1 r ev Hm) as (Hk1 & Ht1 & Hn1 & Ha1).
  unfold remaining in Ha1. destruct (Z.eqb_spec r 0); injection He as <- <- <-.
  - split; [done|]. apply (table_settle agg); [done|]. intros sym'. rewrite Ha1, Hn1. done.
  - rewrite fold_left_app. cbn [fold_left on_event]. set (e1 := fold_left on_event ev e) in *.
    split; [by apply (ledger_ext e1)|]. apply (table_settle agg).
    + replace (<[sym := Spec.rest agg side px r sp1]> S)
        with (<[sym := Spec.rest agg side px r sp1]> (<[sym := sp1]> S)) by by rewrite insert_insert_eq.
      apply (table_update _ e1 _ _ _ sp1 _ agg); [done|apply lookup_insert_eq|done| |set_solver].
      intros j Hj Hne. by apply find_rest_other.
    + cbn [handle_added orders_ push_feed]. rewrite Ha1.
      apply (holds_here S sym _ agg _ px); [by intros; apply Hn|done|].
      rewrite find_rest_same by done. cbn. by rewrite His.
Qed.
End Aggressor.

(** A cancel response for a resting order. *)
Lemma canceled_ledger e x info :
  ledger e -> suppress_ouch_cancel_ e = false -> orders_ e !! ca_id x = Some info ->
  i_open info < 2 ^ 32 ->
  (if ca_removed x then ca_canceled_qty x = i_open info /\ 0 < i_open info
   else 0 < ca_canceled_qty x < i_open info) ->
  ledger (handle_canceled x e).
Proof.
  intros Hk Hs Hi Hb Hx. unfold handle_canceled. cbv zeta. set (e0 := push_feed _ e).
  change (suppress_ouch_cancel_ e0) with (suppress_ouch_cancel_ e).
  change (orders_ e0) with (orders_ e). rewrite Hs, Hi. cbn [negb].
  match goal with |- context [push_gateway ?c ?m e0] => set (e1 := push_gateway c m e0) end.
  assert (orders_ e1 = orders_ e) as O by reflexivity.
  assert (tokens_ok e1) as Hk1 by (apply (tokens_ok_ext e); try done; apply Hk).
  assert (forall k, open_of e1 k = open_of e k) as Hop by done.
  assert (view (to_gateway_ e1)
    = partial_alter (take_open (ca_canceled_qty x)) (key_of info) (view (to_gateway_ e))) as Hv
    by (cbn [to_gateway_ e1 push_gateway]; by rewrite view_app).
  rewrite <- O in Hi. clearbody e1. destruct (ca_removed x).
  - destruct (reduce_open_spec e1 (ca_id x) (ca_canceled_qty x) info Hk1 Hi) as (Hk2 & _); [lia|lia|].
    apply (ledger_take e _ info (ca_canceled_qty x)); [done|done|by rewrite reduce_open_gateway|].
    intros k. rewrite (open_of_reduce e1 _ _ info) by (done || lia). by rewrite Hop.
  - rewrite Hi. rewrite (wrap_small 32) by (unfold fits; lia).
    apply (ledger_take e _ info (ca_canceled_qty x)); [done|by apply tokens_ok_open|done|].
    intros k. rewrite (open_of_change e1 _ (ca_id x) info (Some (i_open info - ca_canceled_qty x)));
      [|done|done|done| |].
    + destruct (decide (k = key_of info)) as [->|]; [|by rewrite Hop].
      rewrite <- Hop, (open_of_key e1 (ca_id x) info), take_open_Some by done.
      by replace (i_open info <=? ca_canceled_qty x) with false by lia.
    + intros j Hj. cbn [orders_ set_orders]. by rewrite lookup_insert_ne.
    + unfold open_of. cbn [live_tokens_ orders_ set_orders].
      by rewrite (live_key e1 (ca_id x) info), obind_Some, lookup_insert_eq.
Qed.

(** Cancelling shares of a resting order. *)
Lemma canceled_event_spec e S sym sp x :
  Spec.wf sp -> ev_ok (on_canceled x) sp ->
  ledger e -> table_ok ∅ e S -> S !! sym = Some sp -> suppress_ouch_cancel_ e = false ->
  let e' := on_event e (on_canceled x) in
  let S' := <[sym := replay (on_canceled x) sp]> S in
  ledger e' /\ table_ok ∅ e' S'.
Proof.
  intros Hwf (s & px & q & Hf & Hx) Hk Ht HS Hsup. cbv zeta. cbn [on_event].
  destruct (order_table_find _ _ _ _ _ _ _ _ _ Ht (not_elem_of_empty _) HS Hf)
    as (info & Hi & Hs & Hside & Ho & Hel).
  destruct (Spec.find_order_qty _ _ _ _ _ Hwf Hf) as [_ Hqb].
  split; [apply (canceled_ledger e x info); try done; destruct (ca_removed x); lia|].
  unfold handle_canceled. cbv zeta. set (e1 := if negb (suppress_ouch_cancel_ (push_feed (on_canceled x) e)) then _ else _).
  assert (orders_ e1 = orders_ e /\ live_tokens_ e1 = live_tokens_ e /\ frame e e1) as (O1 & L1 & F1).
  { unfold e1. repeat case_match; done. }
  assert (tokens_ok e1) as Hk1
    by (apply (tokens_ok_ext e); [done|done|apply F1|apply F1|apply Hk]).
  rewrite <- O1 in Hi. cbn [replay]. destruct (ca_removed x) eqn:Hrm.
  - destruct (reduce_open_spec e1 (ca_id x) (ca_canceled_qty x) info Hk1 Hi) as (Hk2 & R2 & N2); [lia|lia|].
    apply (table_update _ e _ _ _ sp _ (ca_id x)); [done|done| | |].
    + intros j _ Hj. by rewrite N2, O1.
    + intros j _ Hj. rewrite find_drop_order by done. by rewrite (proj2 (Z.eqb_neq _ _) Hj).
    + intros _. rewrite R2. replace (i_open info =? ca_canceled_qty x) with true by lia.
      apply holds_gone; [done|]. by rewrite find_drop_order, Z.eqb_refl.
  - rewrite Hi. rewrite (wrap_small 32) by (unfold fits; lia).
    apply (table_update _ e _ _ _ sp _ (ca_id x)); [done|done| | |]; cbn [orders_ set_orders].
    + intros j _ Hj. by rewrite lookup_insert_ne, O1.
    + intros j _ Hj. rewrite find_take_shares by (done || lia). by rewrite (proj2 (Z.eqb_neq _ _) Hj).
    + intros _. rewrite lookup_insert_eq. apply (holds_here S sym _ _ _ px); [done|done|].
      rewrite find_take_shares, Z.eqb_refl, Hf by (done || lia).
      replace (q <=? ca_canceled_qty x) with false by lia. cbn. by rewrite Hside, Ho.
Qed.

(** The two ways a replace can go. Before its listener calls the table has the
    new order and no longer the old one, which still rests. *)
Lemma replace_events_spec e S sym sp old new px qty info r sp' evs :
  Spec.wf sp -> ledger e -> table_ok {[old; new]} e S -> S !! sym = Some sp ->
  nowhere new S -> old <> new -> 0 < px -> 0 < qty < 2 ^ 32 ->
  orders_ e !! old = None -> orders_ e !! new = Some info -> i_open info = qty ->
  i_symbol info = sym -> suppress_ouch_cancel_ e = true ->
  (exists opx oq, Spec.find_order old sp = Some (i_side info, opx, oq)) ->
  (forall sym', sym' <> sym -> book_find S sym' old = None) ->
  Spec.replace old new px qty sp = (r, sp', evs) ->
  let e' := fold_left on_event evs e in
  let S' := <[sym := sp']> S in
  r = true /\ ledger e' /\ table_ok ∅ e' S'.
Proof.
  intros Hwf Hk Ht HS Hn Hne Hpx Hq Hold Hnew Hopen Hsym Hsup (opx & oq & Hf) Hel Hr.
  pose proof (Spec.replace_wf old new px qty _ _ _ _ Hwf ltac:(unfold fits; lia) Hr) as Hwf'.
  pose proof (Spec.find_order_side _ _ _ _ _ Hf) as Hs.
  pose proof (nowhere_ids _ _ _ _ Hn HS) as Hni. unfold Spec.replace in Hr. rewrite Hf in Hr.
  replace (new =? old) with false in Hr by lia.
  assert (Spec.contains new sp = false) as Hc.
  { destruct (Spec.contains new sp) eqn:E; [|done]. by apply Spec.contains_spec in E. }
  rewrite Hc in Hr. cbn [orb] in Hr. replace (px <=? 0) with false in Hr by lia.
  replace (qty =? 0) with false in Hr by lia. cbn [orb] in Hr.
  set (sp1 := Spec.remove (i_side info) opx old sp) in *.
  assert (Spec.wf sp1) as Hwf1 by by apply Spec.remove_wf.
  assert (Spec.find_order old sp1 = None) as Hgone
    by (apply Spec.find_order_None; by eapply find_remove_same).
  assert (forall j, j <> old -> Spec.find_order j sp1 = Spec.find_order j sp) as Hsame
    by (intros; by apply find_remove_other).
  destruct (Spec.would_cross _ _ _).
  - destruct (Spec.enter _ _ _ _ _) as [[sp2 rem] ev] eqn:He. injection Hr as <- <- <-.
    split; [done|]. cbn [fold_left on_event]. unfold handle_canceled. cbv zeta.
    set (e1 := push_feed _ e). change (suppress_ouch_cancel_ e1) with (suppress_ouch_cancel_ e).
    rewrite Hsup. cbn [negb ca_removed ca_id]. unfold reduce_open.
    change (orders_ e1) with (orders_ e). rewrite Hold.
    assert (table_ok {[new]} e1 (<[sym := sp1]> S)) as Ht1.
    { intros j sym' Hj. change (orders_ e1) with (orders_ e).
      destruct (decide (j = old)) as [->|Hjo].
      - rewrite Hold. by apply holds_gone.
      - rewrite book_find_insert. destruct (decide (sym = sym')) as [<-|].
        + rewrite Hsame, <- (book_find_Some S sym sp) by done. apply Ht. set_solver.
        + apply Ht. set_solver. }
    assert (nowhere new (<[sym := sp1]> S)) as Hn1.
    { intros sym'. rewrite book_find_insert. destruct (decide (sym = sym')); [|apply Hn].
      rewrite Hsame, <- (book_find_Some S sym sp) by (done || lia). apply Hn. }
    rewrite <- Hopen in He.
    destruct (enter_events_spec e1 (<[sym := sp1]> S) sym sp1 new (i_side info) info Hwf1 Hs
      ltac:(by apply (ledger_ext e)) Ht1 (lookup_insert_eq _ _ _) Hn1 Hnew Hsym eq_refl
      ltac:(lia) px sp2 rem ev Hpx He) as [H1 H2].
    rewrite insert_insert_eq in H2. by split.
  - injection Hr as <- <- <-. split; [done|]. cbn [fold_left on_event handle_replaced].
    split; [by apply (ledger_ext e)|].
    intros j sym' _. unfold handle_replaced. cbn [orders_ push_feed].
    destruct (decide (j = new)) as [->|Hjn].
    + rewrite Hnew. apply (holds_here S sym _ new _ px); [by intros; apply Hn|done|].
      rewrite find_rest_same by done. by rewrite Hopen.
    + destruct (decide (j = old)) as [->|Hjo].
      * rewrite Hold. apply holds_gone; [done|]. by rewrite find_rest_other.
      * rewrite book_find_insert. destruct (decide (sym = sym')) as [<-|].
        -- rewrite find_rest_other, Hsame, <- (book_find_Some S sym sp) by done. apply Ht. set_solver.
        -- apply Ht. set_solver.
Qed.
End Inv.
