(* ===== verification/EngineRuns.v ===== *)
(** Commands: every command on an engine that satisfies the invariant returns,
    keeps the invariant, and publishes listener calls that replay to the new
    book. *)

From S2P Require Import Prelude StdMap Endian BookTypes BookSpec BookLaws MatchingBook BookReplay BookEvents Wire Symbols Ouch EngineBook Engine EngineInv.
From Stdlib Require Import Ascii.
Import Engine.

(** The commands a decoder can produce. *)
Definition command_ok (c : Command) : Prop :=
  match cmd_msg c with
  | CEnter m => f_ok Ouch.EnterOrder_body m
  | CCancel m => f_ok Ouch.CancelOrder_body m
  | CReplace m => f_ok Ouch.ReplaceOrder_body m
  end.

(** The parts of it the engine relies on. *)
Lemma enter_ok m : f_ok Ouch.EnterOrder_body m ->
  fits 32 (Ouch.eo_shares m) /\ fits 32 (Ouch.eo_price m) /\
  length (Ouch.eo_stock m) = 8%nat /\ Forall is_byte (Ouch.eo_stock m).
Proof. unfold Ouch.EnterOrder_body. fmt_simpl. tauto. Qed.

Lemma cancel_ok m : f_ok Ouch.CancelOrder_body m -> fits 32 (Ouch.co_shares m).
Proof. unfold Ouch.CancelOrder_body. fmt_simpl. tauto. Qed.

Lemma replace_ok m : f_ok Ouch.ReplaceOrder_body m ->
  fits 32 (Ouch.ro_shares m) /\ fits 32 (Ouch.ro_price m).
Proof. unfold Ouch.ReplaceOrder_body. fmt_simpl. tauto. Qed.

(** The fields of a call that a command chooses: a new order rests under the
    reference [ref] given to the command, at a price of the wire's width. *)
Definition new_ok (ref : OrderId) (ev : BookEvent) : Prop :=
  match ev with
  | on_added x => ad_id x = ref /\ fits 32 (ad_price x)
  | on_replaced x => re_new_id x = ref /\ fits 32 (re_price x)
  | _ => True
  end.

(** The id under which an event rests a new order. *)
Definition rests_as (ev : BookEvent) : option OrderId :=
  match ev with
  | on_added x => Some (ad_id x)
  | on_replaced x => Some (re_new_id x)
  | _ => None
  end.

Definition symbol_ok (sym : Symbol) : Prop := length sym = 8%nat /\ Forall is_byte sym.

Section Runs.
Context {B : Type} `{EngineBookLaws B}.
Implicit Types (e : Engine B) (S : Books) (sp : Spec.Book).

#[local] Hint Extern 0 (tokens_ok _) => apply lg_tokens; assumption : core.

Definition spec_book S (sym : Symbol) : Spec.Book := default Spec.empty (S !! sym).

(** The resting orders of all books. *)
Definition resting_orders S : nat := map_fold (fun _ sp n => (order_count sp + n)%nat) 0%nat S.

Lemma resting_orders_insert S sym sp :
  (resting_orders (<[sym := sp]> S) + order_count (spec_book S sym) = resting_orders S + order_count sp)%nat.
Proof.
  assert (forall T, T !! sym = None -> resting_orders (<[sym := sp]> T) = (order_count sp + resting_orders T)%nat)
    as Hadd by (intros T HT; unfold resting_orders; rewrite map_fold_insert_L; [done|intros; lia|done]).
  unfold spec_book. destruct (S !! sym) as [old|] eqn:E; cbn [default].
  - rewrite <- (insert_delete_eq S). rewrite Hadd by apply lookup_delete_eq.
    unfold resting_orders at 2. rewrite (map_fold_delete_L _ _ sym old); [|intros; lia|done].
    fold (resting_orders (delete sym S)). unfold id. lia.
  - rewrite Hadd by done. change (order_count Spec.empty) with 0%nat. lia.
Qed.

(** One command's worth of progress: the calls [evs] of the book of [sym],
    published with the time [now]. *)
Record advances (now : Z) (sym : Symbol) (evs : list BookEvent) e S e' S' : Prop := {
  ad_feed : to_feed_ e' = to_feed_ e ++ map (mkMarket now sym) evs;
  ad_books : (evs = [] /\ S' = S) \/
             (exists sp', trace (spec_book S sym) evs sp' /\ S' = <[sym := sp']> S /\
                (is_Some (S !! sym) \/ symbol_ok sym));
  ad_new : Forall (new_ok (next_ref_ e)) evs;
  ad_next : next_ref_ e <= next_ref_ e' <= next_ref_ e + 1;
  ad_rests : (length (omap rests_as evs) <= Z.to_nat (next_ref_ e' - next_ref_ e))%nat;
  ad_count : (length evs + resting_orders S' <= resting_orders S + 2)%nat }.

(** There is a number left for one more order, and room in every book. *)
Definition has_room e : Prop :=
  next_ref_ e + 1 < 2 ^ 64 /\
  match eb_capacity with None => True | Some c => next_ref_ e <= c end.

(** ** Calling a book *)

Lemma set_books_same e sym b :
  books_ e !! sym = Some b -> set_books (<[sym := b]> (books_ e)) e = e.
Proof. intros Hb. rewrite insert_id by done. by destruct e. Qed.

Lemma set_books_twice e sym b b' :
  set_books (<[sym := b']> (books_ (set_books (<[sym := b]> (books_ e)) e)))
    (set_books (<[sym := b]> (books_ e)) e) = set_books (<[sym := b']> (books_ e)) e.
Proof. unfold set_books. cbn. by rewrite insert_insert_eq. Qed.

Lemma book_for_spec sym e S :
  books_ok e S ->
  exists b, book_for sym e = Some (b, set_books (<[sym := b]> (books_ e)) e) /\
    eb_rep b (spec_book S sym).
Proof.
  intros Hb. specialize (Hb sym). unfold book_for, spec_book.
  destruct (books_ e !! sym) as [b|] eqn:E, (S !! sym) as [sp|]; try done; cbn [default].
  - exists b. by rewrite set_books_same.
  - destruct eb_new_spec as (b & -> & Hr & _). exists b. by rewrite obind_Some.
Qed.

Lemma call_book_spec {R} sym (op : B -> option (R * B)) b e r b' evs :
  op b = Some (r, b') -> eb_log b' = eb_log b ++ evs ->
  call_book sym op b e
  = Some (r, fold_left on_event evs (set_books (<[sym := b']> (books_ e)) e)).
Proof.
  intros Ho Hl. unfold call_book. rewrite Ho, obind_Some, Hl. by rewrite drop_app_length.
Qed.

Lemma books_ok_insert e e' S sym b sp :
  books_ok e S -> eb_rep b sp -> books_ e' = <[sym := b]> (books_ e) ->
  books_ok e' (<[sym := sp]> S).
Proof.
  intros Hb Hr He sym'. rewrite He. destruct (decide (sym = sym')) as [<-|Hne].
  - by rewrite !lookup_insert_eq.
  - rewrite !lookup_insert_ne by done. apply Hb.
Qed.

Lemma find_empty id : Spec.find_order id Spec.empty = None.
Proof. done. Qed.

(** Opening an empty book for a new symbol changes nothing. *)
Lemma book_find_open S sym sym' id :
  book_find (<[sym := spec_book S sym]> S) sym' id = book_find S sym' id.
Proof.
  rewrite book_find_insert. destruct (decide (sym = sym')) as [<-|]; [|done].
  unfold book_find, spec_book. by destruct (S !! sym).
Qed.

Lemma table_ok_open X e S sym :
  table_ok X e S -> table_ok X e (<[sym := spec_book S sym]> S).
Proof. intros Ht id sym' Hx. rewrite book_find_open. by apply Ht. Qed.

(** The symbol of a resting order has a book. *)
Lemma book_find_is_Some S sym id r : book_find S sym id = Some r -> is_Some (S !! sym).
Proof. unfold book_find. destruct (S !! sym); [eauto|done]. Qed.

(** The side of an order in the table is one of the two. *)
Lemma table_side e S id info :
  inv e S -> orders_ e !! id = Some info -> valid_side (i_side info).
Proof.
  intros Hi Ho.
  destruct (table_entry ∅ e S id info (inv_table _ _ Hi) (not_elem_of_empty _) Ho) as [(px & Hf) _].
  unfold book_find in Hf. destruct (S !! i_symbol info); [|done]. by eapply Spec.find_order_side.
Qed.

(** Ids in a book are those of orders in the table. *)
Lemma inv_ids e S sym id :
  tokens_ok e -> table_ok ∅ e S -> id ∈ Spec.ids (spec_book S sym) -> 1 <= id < next_ref_ e.
Proof.
  intros Hk Ht Hid. destruct (Spec.find_order id (spec_book S sym)) as [[[s px] q]|] eqn:Hf.
  - specialize (Ht id sym (not_elem_of_empty _)). rewrite <- (book_find_open S sym) in Ht.
    rewrite book_find_insert, decide_True, Hf in Ht by done.
    destruct Ht as (info & Hi & _). by eapply tk_refs.
  - by apply Spec.find_order_None in Hf.
Qed.

Lemma next_fresh e : tokens_ok e -> orders_ e !! next_ref_ e = None.
Proof.
  intros Hk. destruct (orders_ e !! next_ref_ e) eqn:E; [|done]. apply (tk_refs _ Hk) in E. lia.
Qed.

Lemma nowhere_next e S : tokens_ok e -> table_ok ∅ e S -> nowhere (next_ref_ e) S.
Proof.
  intros Hk Ht sym. destruct (book_find S sym (next_ref_ e)) as [[[s px] q]|] eqn:E; [|done].
  specialize (Ht (next_ref_ e) sym (not_elem_of_empty _)). rewrite E in Ht.
  destruct Ht as (info & Hi & _). apply (tk_refs _ Hk) in Hi. lia.
Qed.

Lemma inv_room e S sym :
  tokens_ok e -> table_ok ∅ e S -> Spec.wf (spec_book S sym) -> has_room e ->
  below eb_capacity (spec_book S sym) = true.
Proof.
  intros Hk Ht Hwf [_ Hc]. unfold below. destruct eb_capacity as [c|]; [|done].
  pose proof (tk_next _ Hk).
  assert (Spec.ids (spec_book S sym) ⊆+ seqZ 1 (next_ref_ e - 1)) as Hsub.
  { apply NoDup_submseteq; [apply Hwf|]. intros id Hid. apply elem_of_seqZ.
    apply (inv_ids e) in Hid; [lia|done|done]. }
  apply submseteq_length in Hsub. rewrite length_seqZ in Hsub. lia.
Qed.

Lemma nowhere_open id S sym : nowhere id S -> nowhere id (<[sym := spec_book S sym]> S).
Proof. intros Hn sym'. by rewrite book_find_open. Qed.

(** Putting the pieces of the invariant back together after a book call. *)
Lemma inv_after_call e0 S sym b' sp' evs :
  books_ok e0 S -> eb_rep b' sp' -> suppress_ouch_cancel_ e0 = false ->
  let e1 := fold_left on_event evs (set_books (<[sym := b']> (books_ e0)) e0) in
  ledger e1 -> table_ok ∅ e1 (<[sym := sp']> S) -> inv e1 (<[sym := sp']> S).
Proof.
  intros Hb Hr Hs e1 Hk Ht.
  destruct (on_events_frame evs (set_books (<[sym := b']> (books_ e0)) e0)) as [F _]. fold e1 in F.
  split; [|done|done|].
  - apply (books_ok_insert e0 e1 S sym b'); [done|done|]. by rewrite (fr_books _ _ F).
  - by rewrite (fr_suppress _ _ F).
Qed.

Lemma advances_nothing sym e S : advances (now_ e) sym [] e S e S.
Proof. split; [by rewrite app_nil_r|by left|constructor|lia|cbn [omap list_omap length]; lia|cbn [length]; lia]. Qed.

(** ** Cancel *)

Lemma cancel_shape id keep sp r sp' evs :
  Spec.cancel id keep sp = (r, sp', evs) ->
  (evs = [] /\ sp' = sp) \/ exists x, evs = [on_canceled x].
Proof.
  unfold Spec.cancel. intros Hc. repeat case_match; simplify_eq; eauto.
Qed.

Lemma inv_frame e e' S :
  inv e S -> books_ e' = books_ e -> orders_ e' = orders_ e -> live_tokens_ e' = live_tokens_ e ->
  used_tokens_ e' = used_tokens_ e -> next_ref_ e' = next_ref_ e ->
  suppress_ouch_cancel_ e' = suppress_ouch_cancel_ e ->
  view (to_gateway_ e') = view (to_gateway_ e) -> inv e' S.
Proof.
  intros [Hb Hk Ht Hs] Eb Eo El Eu En Es Ev. split.
  - intros sym. rewrite Eb. apply Hb.
  - by apply (ledger_ext e).
  - by apply (table_ok_ext _ e).
  - by rewrite Es.
Qed.

Lemma handle_cancel_spec client m e S :
  inv e S -> has_room e -> fits 32 (Ouch.co_shares m) ->
  exists e' S' sym evs, handle_cancel client m e = Some e' /\ inv e' S' /\
    advances (now_ e) sym evs e S e' S'.
Proof.
  intros Hinv Hroom Hq. pose proof Hinv as [Hb Hk Ht Hs]. unfold handle_cancel.
  destruct (live_tokens_ e !! _) as [ref|] eqn:Hl.
  2:{ exists e, S, [], []. split_and!; [done|done|apply advances_nothing]. }
  destruct (orders_ e !! ref) as [info|] eqn:Hi.
  2:{ exists e, S, [], []. split_and!; [done|done|apply advances_nothing]. }
  cbv zeta. set (sym := i_symbol info). set (e1 := set_symbol sym e).
  destruct (book_for_spec sym e1 S Hb) as (b & -> & Hr). rewrite obind_Some.
  destruct (Spec.cancel ref (Ouch.co_shares m) (spec_book S sym)) as [[r sp'] evs] eqn:Hc.
  pose proof (eb_rep_wf _ _ Hr) as Hwf.
  destruct (eb_step_spec (OpCancel ref (Ouch.co_shares m)) b (spec_book S sym) (RBool r) sp' evs)
    as (b' & Hb' & Hr' & Hlog); [done|done|done|by apply (inv_room e)|cbn; by rewrite Hc|].
  erewrite call_book_spec by done. rewrite obind_Some, set_books_twice.
  pose proof (cancel_trace _ _ _ _ _ _ Hwf Hq Hc) as Htr.
  set (e2 := set_books (<[sym := b']> (books_ e1)) e1).
  destruct (on_events_frame evs e2) as [F T].
  eexists _, (<[sym := sp']> S), sym, evs. split; [done|].
  assert (ledger (fold_left on_event evs e2) /\
          table_ok ∅ (fold_left on_event evs e2) (<[sym := sp']> S)) as [Hk' Ht'].
  { assert (ledger e2) as Hk2 by by apply (ledger_ext e).
    assert (table_ok ∅ e2 (<[sym := spec_book S sym]> S)) as Ht2.
    { apply table_ok_open. by apply (table_ok_ext _ e). }
    destruct (cancel_shape _ _ _ _ _ _ Hc) as [[-> ->]|(x & ->)]; [done|].
    inversion Htr as [|? ? ? ? _ Hev Htr']; subst. inversion Htr'; subst.
    destruct (canceled_event_spec e2 _ sym (spec_book S sym) x Hwf Hev Hk2 Ht2
      (lookup_insert_eq _ _ _) Hs) as [Hk3 Ht3]. rewrite insert_insert_eq in Ht3. by split. }
  split.
  - by apply (inv_after_call e1 S sym b').
  - split; [exact T|right; exists sp'; split_and!; [done|done|left]| | | |].
    { destruct (table_entry ∅ e S ref info Ht (not_elem_of_empty _) Hi) as [(opx & Hf) _].
      by eapply book_find_is_Some. }
    + destruct (cancel_shape _ _ _ _ _ _ Hc) as [[-> _]|(x & ->)]; by repeat constructor.
    + rewrite (fr_next _ _ F). cbn. lia.
    + destruct (cancel_shape _ _ _ _ _ _ Hc) as [[-> _]|(x & ->)]; cbn [omap list_omap rests_as length]; lia.
    + pose proof (cancel_count _ _ _ _ _ _ Hwf Hc). pose proof (resting_orders_insert S sym sp'). lia.
Qed.

(** The response to a user cancel, sent by the listener. *)
Lemma canceled_event_reply e ref info q removed :
  suppress_ouch_cancel_ e = false -> orders_ e !! ref = Some info ->
  to_gateway_ (on_event e (on_canceled (mkCanceled ref q removed)))
  = to_gateway_ e ++ [mkResponse (i_client_id info)
      (RCanceled (Ouch.mkCanceled (now_ e) (i_token info) q (chr "U")))].
Proof.
  intros Hs Hi. cbn [on_event]. unfold handle_canceled. cbv zeta. cbn [ca_id ca_canceled_qty ca_removed].
  change (suppress_ouch_cancel_ (push_feed _ e)) with (suppress_ouch_cancel_ e). rewrite Hs. cbn [negb].
  change (orders_ (push_feed _ e)) with (orders_ e). rewrite Hi.
  destruct removed; [by rewrite reduce_open_gateway|].
  change (orders_ (push_gateway _ _ (push_feed _ e))) with (orders_ e). by rewrite Hi.
Qed.

(** A cancel answers its client, with the shares it took off the order. *)
Lemma handle_cancel_replies client m e S :
  inv e S -> has_room e -> fits 32 (Ouch.co_shares m) ->
  exists e' rs, handle_cancel client m e = Some e' /\ to_gateway_ e' = to_gateway_ e ++ rs /\
    match view (to_gateway_ e) !! (client, token_str (Ouch.co_token m)) with
    | Some open =>
        if Ouch.co_shares m <? open then
          exists tok, token_str tok = token_str (Ouch.co_token m) /\
            rs = [mkResponse client (RCanceled (Ouch.mkCanceled (now_ e) tok
                    (open - Ouch.co_shares m) (chr "U")))]
        else rs = []
    | None => rs = []
    end.
Proof.
  intros Hinv Hroom Hq. pose proof Hinv as [Hb Hk Ht Hs]. unfold handle_cancel.
  rewrite (lg_view _ Hk). unfold open_of.
  destruct (live_tokens_ e !! _) as [ref|] eqn:Hl; [|exists e, []; by rewrite app_nil_r].
  destruct (proj1 (tk_live _ (lg_tokens _ Hk) _ _ _) Hl) as (info & Hi & Hcl & Htok).
  rewrite obind_Some, Hi. cbn [fmap option_fmap option_map]. cbv zeta.
  set (sym := i_symbol info). set (e1 := set_symbol sym e).
  destruct (book_for_spec sym e1 S Hb) as (b & -> & Hr). rewrite obind_Some.
  destruct (Spec.cancel ref (Ouch.co_shares m) (spec_book S sym)) as [[r sp'] evs] eqn:Hc.
  pose proof (eb_rep_wf _ _ Hr) as Hwf.
  destruct (eb_step_spec (OpCancel ref (Ouch.co_shares m)) b (spec_book S sym) (RBool r) sp' evs)
    as (b' & Hb' & Hr' & Hlog); [done|done|done|by apply (inv_room e)|cbn; by rewrite Hc|].
  erewrite call_book_spec by done. rewrite obind_Some, set_books_twice.
  destruct (table_entry ∅ e S ref info Ht (not_elem_of_empty _) Hi) as [(opx & Hf) _]. fold sym in Hf.
  unfold book_find in Hf. unfold spec_book in Hc. destruct (S !! sym) as [sp|]; [|done].
  rewrite obind_Some in Hf. change (default Spec.empty (Some sp)) with sp in Hc. unfold Spec.cancel in Hc. rewrite Hf in Hc.
  rewrite Z.ltb_antisym. destruct (i_open info <=? Ouch.co_shares m); cbn [negb].
  { injection Hc as _ _ <-. eexists _, []. split; [reflexivity|]. by rewrite app_nil_r. }
  set (e2 := set_books (<[sym := b']> (books_ e1)) e1).
  assert (exists removed, evs = [on_canceled (mkCanceled ref (i_open info - Ouch.co_shares m) removed)])
    as [removed ->].
  { destruct (Z.eqb_spec (Ouch.co_shares m) 0) as [->|]; injection Hc as _ _ <-; [rewrite Z.sub_0_r|]; eauto. }
  eexists _, _. split; [reflexivity|]. cbn [fold_left].
  rewrite (canceled_event_reply e2 ref info) by done. split; [reflexivity|]. exists (i_token info).
  split; [exact Htok|]. by rewrite Hcl.
Qed.

(** ** Enter *)

Lemma match_new_ok ref agg side limit qty sp sp' rem evs :
  Spec.wf sp -> 0 <= qty -> Spec.match_ agg side limit qty sp = (sp', rem, evs) ->
  Forall (new_ok ref) evs.
Proof.
  intros Hwf Hq Hm. destruct (match_executes _ _ _ _ _ _ _ _ Hwf Hq Hm) as (Hex & _).
  eapply Forall_impl; [exact Hex|]. by intros [].
Qed.

Lemma match_rests agg side limit qty sp sp' rem evs :
  Spec.wf sp -> 0 <= qty -> Spec.match_ agg side limit qty sp = (sp', rem, evs) ->
  omap rests_as evs = [].
Proof.
  intros Hwf Hq Hm. destruct (match_executes _ _ _ _ _ _ _ _ Hwf Hq Hm) as (Hex & _). clear Hm.
  induction Hex as [|[] evs Hx _ IH]; cbn in *; done.
Qed.

Lemma enter_rests id side px qty sp sp' rem evs :
  Spec.wf sp -> 0 <= qty -> Spec.enter id side px qty sp = (sp', rem, evs) ->
  (length (omap rests_as evs) <= 1)%nat.
Proof.
  unfold Spec.enter. intros Hwf Hq He.
  destruct (Spec.match_ _ _ _ _ _) as [[sp1 r] ev] eqn:Hm.
  pose proof (match_rests _ _ _ _ _ _ _ _ Hwf Hq Hm) as Hn.
  destruct (r =? 0); injection He as <- <- <-; rewrite ?omap_app, Hn; cbn; lia.
Qed.

Lemma enter_new_ok id side px qty sp sp' rem evs :
  Spec.wf sp -> 0 <= qty -> fits 32 px ->
  Spec.enter id side px qty sp = (sp', rem, evs) -> Forall (new_ok id) evs.
Proof.
  unfold Spec.enter. intros Hwf Hq Hpx He.
  destruct (Spec.match_ _ _ _ _ _) as [[sp1 r] ev] eqn:Hm.
  pose proof (match_new_ok id _ _ _ _ _ _ _ _ Hwf Hq Hm) as Hn.
  destruct (r =? 0); injection He as <- <- <-; [done|]. apply Forall_app. split; [done|]. by constructor.
Qed.

(** The state between accepting an order and trading it. *)
Record accepted e S client ref m : Prop := {
  ac_inv_books : books_ok e S;
  ac_tokens : ledger e;
  ac_table : table_ok {[ref]} e S;
  ac_nowhere : nowhere ref S;
  ac_order : orders_ e !! ref = Some (mkInfo client (Ouch.eo_token m) (Ouch.eo_stock m)
               (Ouch.eo_side m) (Ouch.eo_shares m));
  ac_suppress : suppress_ouch_cancel_ e = false;
  ac_side : valid_side (Ouch.eo_side m);
  ac_shares : 0 < Ouch.eo_shares m < 2 ^ 32;
  ac_price : Ouch.eo_price m = Ouch.kMarketPrice \/ 0 < Ouch.eo_price m;
  ac_price_fits : fits 32 (Ouch.eo_price m);
  ac_symbol : current_symbol_ e = Ouch.eo_stock m }.

(** Killing or cancelling the part of an order that does not rest. *)
Lemma cancel_unrested_spec client ref tok qty reason e S info :
  ledger e -> table_ok {[ref]} e S -> nowhere ref S ->
  orders_ e !! ref = Some info -> i_client_id info = client -> i_token info = tok ->
  i_open info = qty ->
  let e' := cancel_unrested client ref tok qty reason e in
  ledger e' /\ table_ok ∅ e' S /\ frame e e' /\ to_feed_ e' = to_feed_ e.
Proof.
  intros Hk Ht Hn Hi <- <- <-. unfold cancel_unrested. cbv zeta.
  set (e0 := push_gateway _ _ e).
  assert (tokens_ok e0) as Hk0 by (apply (tokens_ok_ext e); try done; apply Hk).
  assert (view (to_gateway_ e0)
    = partial_alter (take_open (i_open info)) (key_of info) (view (to_gateway_ e))) as Hv
    by (cbn [to_gateway_ e0 push_gateway]; by rewrite view_app).
  split; [|split; [|done]].
  { apply (ledger_take e _ info (i_open info)); [done|by apply (tokens_ok_delete e0 ref info)|exact Hv|].
    intros k. rewrite <- (open_of_delete (view (to_gateway_ e)) e _ ref info (lg_tokens _ Hk)
      (lg_view _ Hk) Hi) by reflexivity. destruct (decide (k = key_of info)) as [->|].
    - rewrite lookup_delete_eq, (open_of_key e ref info), take_open_Some by (done || apply Hk).
      by rewrite Z.leb_refl.
    - rewrite lookup_delete_ne by done. apply Hk. }
  apply (table_settle ref).
  - intros id sym Hx. cbn [orders_ set_orders]. rewrite lookup_delete_ne by set_solver. by apply Ht.
  - intros sym. cbn [orders_ set_orders]. rewrite lookup_delete_eq, Hn. done.
Qed.

Lemma frame_suppress e e' : frame e e' -> suppress_ouch_cancel_ e' = suppress_ouch_cancel_ e.
Proof. by intros []. Qed.

(** What trading an accepted order achieves. *)
Record traded e S (ref : OrderId) m e' (sp' : Spec.Book) (evs : list BookEvent) : Prop := {
  td_inv : inv e' (<[Ouch.eo_stock m := sp']> S);
  td_trace : trace (spec_book S (Ouch.eo_stock m)) evs sp';
  td_new : Forall (new_ok ref) evs;
  td_rests : (length (omap rests_as evs) <= 1)%nat;
  td_feed : to_feed_ e' = to_feed_ e ++ map (mkMarket (now_ e) (Ouch.eo_stock m)) evs;
  td_next : next_ref_ e' = next_ref_ e;
  td_ioc : is_ioc m = true -> orders_ e' !! ref = None;
  td_count : (length evs + order_count sp' <= order_count (spec_book S (Ouch.eo_stock m)) + 2)%nat }.

Section Trade.
Context (client ref : Z) (m : Ouch.EnterOrder) (e : Engine B) (S : Books).
Hypothesis (Hacc : accepted e S client ref m).
Let sym := Ouch.eo_stock m.
Let sp := spec_book S sym.
Let ai := mkInfo client (Ouch.eo_token m) sym (Ouch.eo_side m) (Ouch.eo_shares m).

(** Storing a book of the symbol back keeps the bookkeeping as it is. *)
Lemma accepted_store b1 :
  let e1 := set_books (<[sym := b1]> (books_ e)) e in
  ledger e1 /\ table_ok {[ref]} e1 (<[sym := sp]> S) /\ nowhere ref (<[sym := sp]> S) /\
  orders_ e1 !! ref = Some ai.
Proof.
  destruct Hacc as [Hb Hk Ht Hn Ho _ _ _ _ _ _ _]. split_and!.
  - by apply (ledger_ext e).
  - apply table_ok_open. by apply (table_ok_ext _ e).
  - by apply nowhere_open.
  - done.
Qed.

Lemma trade_kill b1 :
  eb_rep b1 sp ->
  traded e S ref m (cancel_unrested client ref (Ouch.eo_token m) (Ouch.eo_shares m) (chr "D")
                  (set_books (<[sym := b1]> (books_ e)) e)) sp [].
Proof.
  intros Hr. destruct (accepted_store b1) as (Hk1 & Ht1 & Hn1 & Ho1).
  set (e1 := set_books (<[sym := b1]> (books_ e)) e) in *.
  destruct (cancel_unrested_spec client ref (Ouch.eo_token m) (Ouch.eo_shares m) (chr "D") e1
    (<[sym := sp]> S) ai Hk1 Ht1 Hn1 Ho1 eq_refl eq_refl eq_refl) as (Hk2 & Ht2 & F2 & T2).
  split.
  - split; [|done|done|by rewrite (frame_suppress _ _ F2); apply Hacc].
    apply (books_ok_insert e _ S sym b1); [apply Hacc|done|]. by rewrite (fr_books _ _ F2).
  - constructor. by apply eb_rep_wf in Hr.
  - constructor.
  - cbn. lia.
  - by rewrite T2, app_nil_r.
  - by rewrite (fr_next _ _ F2).
  - intros _. apply lookup_delete_eq.
  - fold sym sp. cbn [length]. lia.
Qed.

Lemma trade_ioc b1 :
  eb_rep b1 sp ->
  exists e' sp' evs,
    ('(filled, e) ← call_book sym (eb_execute_ioc ref (Ouch.eo_side m) (limit_of m)
       (Ouch.eo_shares m)) b1 (set_books (<[sym := b1]> (books_ e)) e);
     let remainder := u32 (Ouch.eo_shares m - filled) in
     Some (if 0 <? remainder
           then cancel_unrested client ref (Ouch.eo_token m) remainder (chr "I") e else e))
    = Some e' /\ traded e S ref m e' sp' evs.
Proof.
  intros Hr. pose proof (eb_rep_wf _ _ Hr) as Hwf.
  pose proof (ac_side _ _ _ _ _ Hacc) as Hside. pose proof (ac_shares _ _ _ _ _ Hacc) as Hq.
  destruct (Spec.execute_ioc ref (Ouch.eo_side m) (limit_of m) (Ouch.eo_shares m) sp)
    as [[filled sp'] evs] eqn:Hx.
  assert (fits 32 (Ouch.eo_shares m)) as Hqf by (unfold fits; lia).
  destruct (eb_ioc_spec _ _ _ _ _ _ _ _ _ Hr Hside Hqf Hx) as (b' & Hb' & Hr' & Hlog).
  erewrite call_book_spec by done. rewrite obind_Some, set_books_twice. cbv zeta.
  destruct (accepted_store b') as (Hk2 & Ht2 & Hn2 & Ho2).
  set (e2 := set_books (<[sym := b']> (books_ e)) e) in *.
  assert (0 <= Ouch.eo_shares m) as Hq0 by lia.
  pose proof (execute_ioc_trace _ _ _ _ _ _ _ _ Hwf Hside Hq0 Hx) as Htr.
  pose proof (execute_ioc_count _ _ _ _ _ _ _ _ Hx) as Hcount.
  assert (length evs + order_count sp' <= order_count (spec_book S (Ouch.eo_stock m)) + 2)%nat as Hcount'
    by (fold sym sp; lia). clear Hcount.
  unfold Spec.execute_ioc in Hx. destruct (Spec.match_ _ _ _ _ _) as [[sp1 rem] ev] eqn:Hm.
  injection Hx as <- <- <-.
  destruct (match_executes _ _ _ _ _ _ _ _ Hwf Hq0 Hm) as (_ & _ & Hrem).
  pose proof (match_new_ok ref _ _ _ _ _ _ _ _ Hwf Hq0 Hm) as Hnew.
  assert (length (omap rests_as ev) <= 1)%nat as Hone
    by (rewrite (match_rests _ _ _ _ _ _ _ _ Hwf Hq0 Hm); cbn; lia).
  destruct (match_events_spec e2 (<[sym := sp]> S) sym sp ref (Ouch.eo_side m) ai Hwf Hside
    Hk2 Ht2 (lookup_insert_eq _ _ _) Hn2 Ho2 Hq (limit_of m) sp1 rem ev Hm)
    as (Hk3 & Ht3 & Hn3 & Ha3). rewrite insert_insert_eq in Ht3, Hn3.
  destruct (on_events_frame ev e2) as [F T]. set (e3 := fold_left on_event ev e2) in *.
  replace (Ouch.eo_shares m - (Ouch.eo_shares m - rem)) with rem by lia.
  rewrite (wrap_small 32) by (unfold fits; lia). unfold remaining in Ha3.
  assert (books_ok e3 (<[sym := sp1]> S)) as Hb3
    by (apply (books_ok_insert e _ S sym b'); [apply Hacc|done|by rewrite (fr_books _ _ F)]).
  change (current_symbol_ e2) with (current_symbol_ e) in T.
  rewrite (ac_symbol _ _ _ _ _ Hacc) in T.
  assert (suppress_ouch_cancel_ e3 = false) as Hs3
    by (rewrite (frame_suppress _ _ F); apply Hacc).
  destruct (Z.ltb_spec 0 rem) as [Hpos|Hzero].
  - replace (rem =? 0) with false in Ha3 by lia.
    destruct (cancel_unrested_spec client ref (Ouch.eo_token m) rem (chr "I") e3
      (<[sym := sp1]> S) _ Hk3 Ht3 Hn3 Ha3 eq_refl eq_refl eq_refl) as (Hk4 & Ht4 & F4 & T4).
    eexists _, sp1, ev. split; [done|]. split; [|done|done|done|by rewrite T4, T| | |done];
      [| |intros _; apply lookup_delete_eq].
    + split; [|done|done|by rewrite (frame_suppress _ _ F4)].
      intros s. rewrite (fr_books _ _ F4). apply Hb3.
    + by rewrite (fr_next _ _ F4), (fr_next _ _ F).
  - replace (rem =? 0) with true in Ha3 by lia.
    eexists _, sp1, ev. split; [done|]. split; [|done|done|done|exact T|by rewrite (fr_next _ _ F)|done|done].
    split; [done|done| |done]. apply (table_settle ref); [done|]. intros s. by rewrite Ha3, Hn3.
Qed.

(** A limit order that is not immediate-or-cancel is always taken. *)
Lemma add_accepted :
  is_ioc m = false ->
  exists r sp' evs, Spec.enter ref (Ouch.eo_side m) (Ouch.eo_price m) (Ouch.eo_shares m) sp
      = (sp', r, evs) /\
    Spec.add ref (Ouch.eo_side m) (Ouch.eo_price m) (Ouch.eo_shares m) sp
      = (mkAddResult AddOk (Ouch.eo_shares m - r) r, sp', evs) /\
    0 < Ouch.eo_price m /\ ref ∉ Spec.ids sp.
Proof.
  intros Hioc. pose proof (ac_shares _ _ _ _ _ Hacc) as Hq.
  assert (0 < Ouch.eo_price m) as Hpx.
  { destruct (ac_price _ _ _ _ _ Hacc) as [Hp|]; [|done]. unfold is_ioc in Hioc.
    by rewrite Hp in Hioc. }
  assert (ref ∉ Spec.ids sp) as Hni.
  { eapply (nowhere_ids ref (<[sym := sp]> S)); [|apply lookup_insert_eq].
    apply nowhere_open, Hacc. }
  destruct (Spec.enter _ _ _ _ _) as [[sp' r] evs] eqn:He.
  exists r, sp', evs. split_and!; [done| |done|done].
  unfold Spec.add. replace (Ouch.eo_price m <=? 0) with false by lia.
  replace (Ouch.eo_shares m =? 0) with false by lia.
  destruct (Spec.contains ref sp) eqn:E; [by apply Spec.contains_spec in E|]. by rewrite He.
Qed.

Lemma trade_rest b1 :
  eb_rep b1 sp -> is_ioc m = false -> below eb_capacity sp = true ->
  exists e' sp' evs,
    ('(_, e) ← call_book sym (eb_step (OpAdd ref (Ouch.eo_side m) (Ouch.eo_price m)
       (Ouch.eo_shares m))) b1 (set_books (<[sym := b1]> (books_ e)) e); Some e)
    = Some e' /\ traded e S ref m e' sp' evs.
Proof.
  intros Hr Hioc Hroom. pose proof (eb_rep_wf _ _ Hr) as Hwf.
  pose proof (ac_side _ _ _ _ _ Hacc) as Hside. pose proof (ac_shares _ _ _ _ _ Hacc) as Hq.
  destruct (add_accepted Hioc) as (rem & sp' & evs & He & Hadd & Hpx & Hni).
  assert (fits 32 (Ouch.eo_shares m)) as Hqf by (unfold fits; lia).
  destruct (eb_step_spec (OpAdd ref (Ouch.eo_side m) (Ouch.eo_price m) (Ouch.eo_shares m)) b1 sp
    (RAdd (mkAddResult AddOk (Ouch.eo_shares m - rem) rem)) sp' evs)
    as (b' & Hb' & Hr' & Hlog); [done|done|apply (ac_price_fits _ _ _ _ _ Hacc)|done|cbn; by rewrite Hadd|].
  erewrite call_book_spec by done. rewrite obind_Some, set_books_twice.
  destruct (accepted_store b') as (Hk2 & Ht2 & Hn2 & Ho2).
  set (e2 := set_books (<[sym := b']> (books_ e)) e) in *.
  destruct (enter_events_spec e2 (<[sym := sp]> S) sym sp ref (Ouch.eo_side m) ai Hwf Hside
    Hk2 Ht2 (lookup_insert_eq _ _ _) Hn2 Ho2 eq_refl eq_refl Hq (Ouch.eo_price m) sp' rem evs
    Hpx He) as (Hk3 & Ht3).
  rewrite insert_insert_eq in Ht3. destruct (on_events_frame evs e2) as [F T].
  change (current_symbol_ e2) with (current_symbol_ e) in T.
  rewrite (ac_symbol _ _ _ _ _ Hacc) in T.
  eexists _, sp', evs. split; [done|]. split.
  - apply (inv_after_call e S sym b'); try done; apply Hacc.
  - by eapply enter_trace.
  - eapply (enter_new_ok ref); [done| |apply Hacc|done]. lia.
  - eapply enter_rests; [done| |done]. lia.
  - exact T.
  - by rewrite (fr_next _ _ F).
  - by rewrite Hioc.
  - by eapply enter_count.
Qed.

Lemma trade_spec b :
  eb_rep b sp -> below eb_capacity sp = true ->
  exists e' sp' evs, trade client ref m b e = Some e' /\ traded e S ref m e' sp' evs.
Proof.
  intros Hr Hroom. unfold trade. fold sym.
  assert (exists enough b1, (if 0 <? Ouch.eo_min_qty m then
       '(q, b) ← eb_matchable (Ouch.eo_side m) (limit_of m) b;
       Some (negb (q <? Ouch.eo_min_qty m), b)
     else Some (true, b)) = Some (enough, b1) /\ eb_rep b1 sp) as (enough & b1 & -> & Hr1).
  { destruct (0 <? Ouch.eo_min_qty m); [|eauto].
    destruct (eb_matchable_spec (Ouch.eo_side m) (limit_of m) b sp Hr) as (b1 & -> & Hr1 & _);
      [apply Hacc|]. rewrite obind_Some. eauto. }
  rewrite obind_Some. cbv zeta. destruct enough; cbn [negb].
  - destruct (is_ioc m) eqn:Hioc; [by apply trade_ioc|by apply trade_rest].
  - eexists _, sp, []. split; [done|]. by apply trade_kill.
Qed.
End Trade.

Lemma handle_enter_spec client m e S :
  inv e S -> has_room e -> f_ok Ouch.EnterOrder_body m ->
  exists e' S' sym evs, handle_enter client m e = Some e' /\ inv e' S' /\
    advances (now_ e) sym evs e S e' S' /\ (is_ioc m = true -> orders_ e' !! next_ref_ e = None).
Proof.
  intros Hinv Hroom Hm. pose proof Hinv as [Hb Hk Ht Hs].
  destruct (enter_ok m Hm) as (Hq & Hp & Hsymok). unfold handle_enter. cbv zeta.
  assert (forall reason, exists e' S' sym evs,
    Some (reject client (Ouch.eo_token m) reason e) = Some e' /\ inv e' S' /\
    advances (now_ e) sym evs e S e' S' /\ (is_ioc m = true -> orders_ e' !! next_ref_ e = None)) as Hrej.
  { intros reason. eexists _, S, [], []. split; [done|]. split.
    { apply (inv_frame e); try done. cbn [to_gateway_ reject push_gateway]. by rewrite view_app. }
    split; [split; [by rewrite app_nil_r|by left|constructor|cbn; lia|cbn; lia|cbn [length]; lia]|].
    intros _. apply (next_fresh e), Hk. }
  destruct (token_used client (Ouch.eo_token m) e) eqn:Hu; [apply Hrej|].
  destruct (negb _ && _) eqn:Hpx; [apply Hrej|].
  destruct (Z.eqb_spec (Ouch.eo_shares m) 0) as [|Hq0]; [apply Hrej|].
  destruct (bool_decide (Ouch.eo_side m <> Buy) && _) eqn:Hside; [apply Hrej|].
  apply bool_decide_eq_false in Hu. pose proof (proj1 Hroom) as Hnx.
  set (ref := next_ref_ e) in *. set (sym := Ouch.eo_stock m).
  set (info := mkInfo client (Ouch.eo_token m) sym (Ouch.eo_side m) (Ouch.eo_shares m)).
  pose proof (tokens_ok_insert e client (Ouch.eo_token m) info Hk Hnx Hu eq_refl eq_refl) as Hk1.
  match goal with |- context [book_for _ ?e0] => set (e1 := e0) end.
  assert (accepted e1 S client ref m) as Hacc.
  { split.
    - exact Hb.
    - split; [by eapply tokens_ok_ext; [..|exact Hk1]|]. intros k.
      cbn [to_gateway_ e1 push_gateway]. rewrite view_app.
      apply (open_of_insert (view (to_gateway_ e)) e e1 (client, token_str (Ouch.eo_token m)) ref info);
        [apply Hk|apply Hk|by apply (next_fresh e)|done|done].
    - intros id s Hx. cbn [orders_ e1 push_gateway set_symbol set_orders].
      rewrite lookup_insert_ne by set_solver. by apply Ht.
    - by apply (nowhere_next e).
    - apply lookup_insert_eq.
    - exact Hs.
    - apply andb_false_iff in Hside as [E|E]; apply bool_decide_eq_false in E;
        apply dec_stable in E; [by left|by right].
    - unfold fits in Hq. lia.
    - unfold fits in Hp. apply andb_false_iff in Hpx as [E|E]; [left|right; lia].
      apply negb_false_iff, Z.eqb_eq in E. done.
    - exact Hp.
    - done. }
  destruct (book_for_spec sym e1 S Hb) as (b & -> & Hr). rewrite obind_Some.
  assert (accepted (set_books (<[sym := b]> (books_ e1)) e1) (<[sym := spec_book S sym]> S)
    client ref m) as Hacc2.
  { destruct (accepted_store client ref m e1 S Hacc b) as (Ha & Hb2 & Hc & Hd).
    destruct Hacc. split; try done. by apply (books_ok_insert e1 _ S sym b). }
  assert (spec_book (<[sym := spec_book S sym]> S) sym = spec_book S sym) as Hsp
    by (unfold spec_book at 1; by rewrite lookup_insert_eq).
  destruct (trade_spec client ref m _ _ Hacc2 b) as (e' & sp' & evs & Htr & Htd).
  { fold sym. by rewrite Hsp. }
  { fold sym. rewrite Hsp. apply (inv_room e); try done. by apply eb_rep_wf in Hr. }
  destruct Htd as [Hi Htrc Hnew Hone Hfeed Hnext Hgone Hcount]. fold sym in Hi, Htrc, Hfeed, Hcount.
  rewrite Hsp in Htrc, Hcount. rewrite insert_insert_eq in Hi.
  exists e', (<[sym := sp']> S), sym, evs. split; [done|]. split; [done|]. split; [|exact Hgone].
  assert (next_ref_ e' = next_ref_ e + 1) as Hnx'.
  { rewrite Hnext. cbn [next_ref_ set_books e1].
    cbn. pose proof (tk_next _ Hk). rewrite (wrap_small 64) by (unfold fits; lia). done. }
  split; [exact Hfeed|right; exists sp'; by split_and!; [..|right]|done|lia|lia|].
  pose proof (resting_orders_insert S sym sp'). lia.
Qed.

(** ** Replace *)

Lemma replace_new_ok old new px qty sp r sp' evs :
  Spec.wf sp -> fits 32 qty -> fits 32 px ->
  Spec.replace old new px qty sp = (r, sp', evs) -> Forall (new_ok new) evs.
Proof.
  unfold Spec.replace. intros Hwf Hq Hp Hr. unfold fits in Hq.
  destruct (Spec.find_order old sp) as [[[s opx] oq]|]; [|injection Hr as <- <- <-; constructor].
  destruct (_ || Spec.contains new sp); [injection Hr as <- <- <-; constructor|].
  destruct (_ || (qty =? 0)); [injection Hr as <- <- <-; constructor|].
  destruct (Spec.would_cross _ _ _).
  - destruct (Spec.enter _ _ _ _ _) as [[sp2 rem] ev] eqn:He. injection Hr as <- <- <-.
    constructor; [done|]. eapply (enter_new_ok new); [by apply Spec.remove_wf| |done|done]. lia.
  - injection Hr as <- <- <-. by repeat constructor; try apply Hp.
Qed.

Lemma replace_rests old new px qty sp r sp' evs :
  Spec.wf sp -> fits 32 qty -> Spec.replace old new px qty sp = (r, sp', evs) ->
  (length (omap rests_as evs) <= 1)%nat.
Proof.
  unfold Spec.replace, fits. intros Hwf Hq Hr.
  destruct (Spec.find_order old sp) as [[[s opx] oq]|]; [|injection Hr as <- <- <-; cbn; lia].
  destruct (_ || Spec.contains new sp); [injection Hr as <- <- <-; cbn; lia|].
  destruct (_ || (qty =? 0)); [injection Hr as <- <- <-; cbn; lia|].
  destruct (Spec.would_cross _ _ _).
  - destruct (Spec.enter _ _ _ _ _) as [[sp2 rem] ev] eqn:He. injection Hr as <- <- <-.
    cbn [omap list_omap rests_as]. eapply enter_rests; [by apply Spec.remove_wf| |exact He]. lia.
  - injection Hr as <- <- <-. cbn. lia.
Qed.

(** The order table while a replace swaps its entries. *)
Lemma replace_table e S old new info ni :
  table_ok ∅ e S -> orders_ e !! old = Some info -> new <> old ->
  table_ok {[old; new]} (set_orders (<[new := ni]> (delete old (orders_ e))) e) S.
Proof.
  intros Ht Hi Hne id sym Hx. cbn [orders_ set_orders].
  rewrite lookup_insert_ne, lookup_delete_ne by set_solver. apply Ht. set_solver.
Qed.

(** The state between swapping the orders of a replace and calling the book. *)
Lemma swap_order_spec client m old info e S :
  inv e S -> next_ref_ e + 1 < 2 ^ 64 -> orders_ e !! old = Some info ->
  live_tokens_ e !! (client, token_str (Ouch.ro_existing_token m)) = Some old ->
  (client, token_str (Ouch.ro_replacement_token m)) ∉ used_tokens_ e ->
  let ni := mkInfo client (Ouch.ro_replacement_token m) (i_symbol info) (i_side info)
              (Ouch.ro_shares m) in
  let e1 := swap_order client m old info e in
  ledger e1 /\ table_ok {[old; next_ref_ e]} e1 S /\ books_ok e1 S /\
  orders_ e1 !! old = None /\ orders_ e1 !! next_ref_ e = Some ni /\
  suppress_ouch_cancel_ e1 = true /\ next_ref_ e1 = u64 (next_ref_ e + 1) /\
  to_feed_ e1 = to_feed_ e /\ now_ e1 = now_ e /\ current_symbol_ e1 = i_symbol info.
Proof.
  intros [Hb Hk Ht Hs] Hnx Hi Hl Hu ni e1. pose proof (tk_refs _ Hk _ _ Hi) as Hold.
  assert (i_client_id info = client /\
    token_str (i_token info) = token_str (Ouch.ro_existing_token m)) as [Hcl Htok].
  { apply (tk_live _ Hk) in Hl as (i & Hi' & ? & ?). rewrite Hi in Hi'. by injection Hi' as <-. }
  pose proof (tokens_ok_delete e old info Hk Hi) as Hk1. rewrite Hcl, Htok in Hk1.
  match type of Hk1 with tokens_ok ?x => set (e0 := x) in Hk1 end.
  pose proof (tokens_ok_insert e0 client (Ouch.ro_replacement_token m) ni Hk1 Hnx Hu eq_refl eq_refl)
    as Hk2.
  assert (orders_ e1 = <[next_ref_ e := ni]> (delete old (orders_ e))) as Ho by reflexivity.
  assert (table_ok {[old; next_ref_ e]} e1 S) as Ht1.
  { eapply table_ok_ext; [|apply (replace_table e S old (next_ref_ e) info ni Ht Hi)]; [exact Ho|lia]. }
  split_and!; [|exact Ht1|exact Hb| | |reflexivity..].
  - split; [eapply tokens_ok_ext; [..|exact Hk2]; reflexivity|]. intros k.
    assert (view (to_gateway_ e1) = <[(client, token_str (Ouch.ro_replacement_token m)) := i_open ni]>
      (delete (key_of info) (view (to_gateway_ e)))) as ->.
    { change (to_gateway_ e1) with (to_gateway_ e ++ [mkResponse client
        (RReplaced (replaced_of m info (now_ e) (next_ref_ e)))]).
      rewrite view_app. unfold key_of. by rewrite Hcl. }
    apply (open_of_insert (delete (key_of info) (view (to_gateway_ e))) e0 e1 _ (next_ref_ e) ni);
      [done| | |done|done];
      [|change (orders_ e0) with (delete old (orders_ e));
        rewrite lookup_delete_ne by lia; by apply (next_fresh e)].
    apply (open_of_delete (view (to_gateway_ e)) e e0 old info); [apply Hk|apply Hk|done|done|].
    unfold key_of. by rewrite Hcl, Htok.
  - rewrite Ho, lookup_insert_ne by lia. apply lookup_delete_eq.
  - rewrite Ho. apply lookup_insert_eq.
Qed.

(** The calls of the book after the swap. *)
Lemma replace_calls e S sym b' old new px qty info opx oq r sp' evs :
  ledger e -> table_ok {[old; new]} e S -> nowhere new S -> old <> new ->
  0 < px -> 0 < qty < 2 ^ 32 ->
  orders_ e !! old = None -> orders_ e !! new = Some info -> i_open info = qty ->
  i_symbol info = sym -> suppress_ouch_cancel_ e = true -> Spec.wf (spec_book S sym) ->
  book_find S sym old = Some (i_side info, opx, oq) ->
  (forall sym', sym' <> sym -> book_find S sym' old = None) ->
  Spec.replace old new px qty (spec_book S sym) = (r, sp', evs) ->
  let e' := fold_left on_event evs (set_books (<[sym := b']> (books_ e)) e) in
  ledger e' /\ table_ok ∅ e' (<[sym := sp']> S).
Proof.
  intros Hk Ht Hn Hne Hpx Hq Hold Hnew Hopen Hsym Hsup Hwf Hf Hel Hr.
  set (e2 := set_books _ e).
  assert (orders_ e2 = orders_ e) as Ho by reflexivity. rewrite <- Ho in Hold, Hnew.
  assert (suppress_ouch_cancel_ e2 = suppress_ouch_cancel_ e) as Es by reflexivity.
  rewrite <- Es in Hsup.
  assert (ledger e2) as Hk2 by by apply (ledger_ext e).
  assert (table_ok {[old; new]} e2 (<[sym := spec_book S sym]> S)) as Ht2
    by by apply table_ok_open, (table_ok_ext _ e).
  clearbody e2. clear Ho Es.
  assert (exists px0 q0, Spec.find_order old (spec_book S sym) = Some (i_side info, px0, q0)) as Hf2.
  { exists opx, oq. rewrite <- (book_find_open S sym) in Hf.
    by rewrite book_find_insert, decide_True in Hf. }
  assert (forall sym', sym' <> sym ->
    book_find (<[sym := spec_book S sym]> S) sym' old = None) as Hel2.
  { intros sym' Hs. rewrite book_find_open. by apply Hel. }
  destruct (replace_events_spec e2 (<[sym := spec_book S sym]> S) sym (spec_book S sym) old new
    px qty info r sp' evs Hwf Hk2 Ht2 (lookup_insert_eq _ _ _) (nowhere_open _ _ _ Hn) Hne Hpx Hq
    Hold Hnew Hopen Hsym Hsup Hf2 Hel2 Hr) as (_ & Hk3 & Ht3).
  rewrite insert_insert_eq in Ht3. by split.
Qed.

(** Calling the book of a swapped order. *)
Lemma replace_call_spec e S old new px qty info opx oq :
  ledger e -> table_ok {[old; new]} e S -> books_ok e S -> nowhere new S -> old <> new ->
  0 < px -> fits 32 px -> 0 < qty < 2 ^ 32 ->
  orders_ e !! old = None -> orders_ e !! new = Some info -> i_open info = qty ->
  suppress_ouch_cancel_ e = true -> current_symbol_ e = i_symbol info ->
  below eb_capacity (spec_book S (i_symbol info)) = true ->
  book_find S (i_symbol info) old = Some (i_side info, opx, oq) ->
  (forall sym', sym' <> i_symbol info -> book_find S sym' old = None) ->
  exists e' sp' evs,
    ('(b, e) ← book_for (i_symbol info) e;
     '(_, e) ← call_book (i_symbol info) (eb_step (OpReplace old new px qty)) b e;
     Some (set_suppress false e)) = Some e' /\
    inv e' (<[i_symbol info := sp']> S) /\
    to_feed_ e' = to_feed_ e ++ map (mkMarket (now_ e) (i_symbol info)) evs /\
    next_ref_ e' = next_ref_ e /\
    trace (spec_book S (i_symbol info)) evs sp' /\ Forall (new_ok new) evs /\
    (length (omap rests_as evs) <= 1)%nat /\
    (length evs + order_count sp' <= order_count (spec_book S (i_symbol info)) + 2)%nat.
Proof.
  intros Hk Ht Hb Hn Hne Hpx Hpf Hq Hold Hnew Hopen Hsup Hcs Hroom Hf Hel.
  set (sym := i_symbol info) in *.
  assert (fits 32 qty) as Hqf by (unfold fits; lia).
  destruct (book_for_spec sym e S Hb) as (b & -> & Hr). rewrite obind_Some.
  pose proof (eb_rep_wf _ _ Hr) as Hwf.
  destruct (Spec.replace old new px qty (spec_book S sym)) as [[r sp'] evs] eqn:Hrep.
  destruct (eb_step_spec (OpReplace old new px qty) b (spec_book S sym) (RBool r) sp' evs)
    as (b' & Hb' & Hr' & Hlog); [exact Hr|exact Hqf|apply Hpf|exact Hroom|cbn; by rewrite Hrep|].
  erewrite call_book_spec by done. rewrite obind_Some, set_books_twice.
  destruct (replace_calls e S sym b' old new _ _ info opx oq r sp' evs Hk Ht Hn Hne
    Hpx Hq Hold Hnew Hopen eq_refl Hsup Hwf Hf Hel Hrep) as [Hk4 Ht4].
  set (e2 := set_books (<[sym := b']> (books_ e)) e) in *.
  destruct (on_events_frame evs e2) as [F T]. set (e3 := fold_left on_event evs e2) in *.
  clearbody e3. eexists _, sp', evs. split; [reflexivity|]. split_and!.
  - split; [|by apply (ledger_ext e3)|by apply (table_ok_ext _ e3)|done].
    apply (books_ok_insert e _ S sym b'); [done|done|].
    cbn [books_ set_suppress]. by rewrite (fr_books _ _ F).
  - cbn [to_feed_ set_suppress]. rewrite T. cbn [now_ current_symbol_ to_feed_ e2 set_books].
    by rewrite Hcs.
  - cbn [next_ref_ set_suppress]. by rewrite (fr_next _ _ F).
  - exact (replace_trace _ _ _ _ _ _ _ _ Hwf Hqf Hrep).
  - exact (replace_new_ok old new _ _ _ _ _ _ Hwf Hqf Hpf Hrep).
  - exact (replace_rests old new _ _ _ _ _ _ Hwf Hqf Hrep).
  - exact (replace_count _ _ _ _ _ _ _ _ Hwf Hrep).
Qed.

Lemma handle_replace_spec client m e S :
  inv e S -> has_room e -> f_ok Ouch.ReplaceOrder_body m ->
  exists e' S' sym evs, handle_replace client m e = Some e' /\ inv e' S' /\
    advances (now_ e) sym evs e S e' S'.
Proof.
  intros Hinv Hroom Hm. pose proof Hinv as [Hb Hk Ht Hs].
  destruct (replace_ok m Hm) as (Hq & Hp). unfold handle_replace.
  assert (exists e' S' sym evs, Some e = Some e' /\ inv e' S' /\
    advances (now_ e) sym evs e S e' S') as Hnop.
  { exists e, S, [], []. split_and!; [done|done|apply advances_nothing]. }
  destruct (live_tokens_ e !! _) as [old|] eqn:Hl; [|exact Hnop].
  destruct (token_used client (Ouch.ro_replacement_token m) e) eqn:Hu; [exact Hnop|].
  destruct (_ || _) eqn:Hv; [exact Hnop|].
  destruct (orders_ e !! old) as [info|] eqn:Hi; [|exact Hnop].
  apply bool_decide_eq_false in Hu. pose proof (proj1 Hroom) as Hnx.
  pose proof (tk_refs _ Hk _ _ Hi) as Hold. cbv zeta.
  destruct (swap_order_spec client m old info e S Hinv Hnx Hi Hl Hu)
    as (Hk3 & Ht1 & Hb1 & Ho_old & Ho_new & Hsup & Hnext & Hfeed & Hnow & Hcs).
  destruct (table_entry ∅ e S old info Ht (not_elem_of_empty _) Hi) as [(opx & Hf) Hel].
  assert (nowhere (next_ref_ e) S) as Hnw by by apply (nowhere_next e).
  assert (old <> next_ref_ e) as Hne by lia.
  assert (0 < Ouch.ro_price m /\ 0 < Ouch.ro_shares m < 2 ^ 32) as [Hp0 Hq0]
    by (unfold fits in Hq; lia).
  assert (Spec.wf (spec_book S (i_symbol info))) as Hwf.
  { destruct (book_for_spec (i_symbol info) e S Hb) as (b & _ & Hr). by apply eb_rep_wf in Hr. }
  pose proof (inv_room e S (i_symbol info) Hk Ht Hwf Hroom) as Hrm.
  generalize dependent (swap_order client m old info e). intros e1 Hk3 Ht1 Hb1 Ho_old Ho_new Hsup Hnext Hfeed Hnow Hcs.
  edestruct (replace_call_spec e1 S old (next_ref_ e) (Ouch.ro_price m) (Ouch.ro_shares m))
    as (e' & sp' & evs & Heq & Hi' & T & Hn' & Htr & Hnew & Hone & Hcount);
    [exact Hk3|exact Ht1|exact Hb1|exact Hnw|exact Hne|exact Hp0|exact Hp|exact Hq0
    |exact Ho_old|exact Ho_new|reflexivity|exact Hsup|exact Hcs|exact Hrm|exact Hf|exact Hel|].
  exists e', (<[i_symbol info := sp']> S), (i_symbol info), evs.
  split; [exact Heq|]. split; [exact Hi'|]. split.
  - by rewrite T, Hfeed, Hnow.
  - right. exists sp'. split_and!; [done|done|left]. by eapply book_find_is_Some.
  - exact Hnew.
  - rewrite Hn', Hnext, (wrap_small 64) by (unfold fits; lia). lia.
  - rewrite Hn', Hnext, (wrap_small 64) by (unfold fits; lia). lia.
  - cbn [i_symbol] in Hcount. pose proof (resting_orders_insert S (i_symbol info) sp'). lia.
Qed.

(** ** Any command *)

Lemma process_spec now cmd e S :
  inv e S -> has_room e -> command_ok cmd ->
  exists e' S' sym evs, process now cmd e = Some e' /\ inv e' S' /\
    advances now sym evs e S e' S'.
Proof.
  intros Hinv Hroom Hc. unfold process. set (e0 := set_now now e).
  assert (inv e0 S) as Hinv0 by by apply (inv_frame e).
  destruct cmd as [client [m|m|m]]; cbn [handle cmd_msg cmd_client_id command_ok] in *.
  - by destruct (handle_enter_spec client m e0 S Hinv0 Hroom Hc)
      as (e' & S' & sym & evs & ? & ? & [] & _); exists e', S', sym, evs.
  - apply cancel_ok in Hc.
    by destruct (handle_cancel_spec client m e0 S Hinv0 Hroom Hc) as (e' & S' & sym & evs & ? & ? & []);
      exists e', S', sym, evs.
  - by destruct (handle_replace_spec client m e0 S Hinv0 Hroom Hc) as (e' & S' & sym & evs & ? & ? & []);
      exists e', S', sym, evs.
Qed.

Lemma init_inv : inv (@init B) ∅.
Proof.
  split.
  - intros sym. by rewrite !lookup_empty.
  - split; [split; cbn|].
    + intros c t id. rewrite !lookup_empty. split; [done|]. by intros (i & [=] & _).
    + intros k id. by rewrite lookup_empty.
    + intros id info. by rewrite lookup_empty.
    + lia.
    + intros k. unfold view, open_of. cbn. by rewrite !lookup_empty.
  - intros id sym _. unfold book_find, holds. cbn. by rewrite !lookup_empty.
  - done.
Qed.
End Runs.
