(* ===== verification/MarketReplay.v ===== *)
(** The published event stream of all symbols.

    [market f ms f'] says that the events [ms], applied in order to the books
    [f] (one abstract book per symbol), are calls that the books can make, that
    every field of them has a value the ITCH messages can carry, that a new
    order has an id no book knows, and that the books afterwards are [f']. The
    engine is shown to publish such streams and the market-data client to
    follow them. Books of all symbols are compared pointwise. *)

From S2P Require Import Prelude StdMap Endian BookTypes BookSpec BookReplay Engine EngineInv EngineRuns.
Import Engine.

Abbreviation Market := (Symbol -> Spec.Book).

Definition same_books (f g : Market) : Prop := forall sym, f sym = g sym.

#[export] Instance same_books_equiv : Equivalence same_books.
Proof.
  split; [by intros f sym|by intros f g H sym|]. intros f g h H1 H2 sym. by rewrite H1, H2.
Qed.

Definition upd (f : Market) (sym : Symbol) (sp : Spec.Book) : Market :=
  fun s => if decide (s = sym) then sp else f s.

Lemma upd_book_eq f sym sp : upd f sym sp sym = sp.
Proof. unfold upd. by rewrite decide_True. Qed.

Lemma upd_book_ne f sym sp s : s <> sym -> upd f sym sp s = f s.
Proof. intros Hs. unfold upd. by rewrite decide_False. Qed.

#[export] Instance upd_proper : Proper (same_books ==> eq ==> eq ==> same_books) upd.
Proof.
  intros f g H sym _ <- sp _ <- s. unfold upd. by destruct (decide (s = sym)).
Qed.

Definition market_step (f : Market) (m : MarketEvent) : Market :=
  upd f (me_symbol m) (replay (me_ev m) (f (me_symbol m))).

#[export] Instance market_step_proper : Proper (same_books ==> eq ==> same_books) market_step.
Proof. intros f g H m _ <-. unfold market_step. by rewrite (H (me_symbol m)), H. Qed.

(** The integer fields of an event that its ITCH message carries, and the
    price of an execution, which the OUCH response carries. *)
Definition ev_fits (ev : BookEvent) : Prop :=
  match ev with
  | on_added x => fits 64 (ad_id x) /\ fits 32 (ad_price x) /\ fits 32 (ad_qty x)
  | on_executed x => fits 64 (ex_resting_id x) /\ fits 32 (ex_qty x) /\ fits 64 (ex_match_id x) /\
      fits 32 (ex_price x)
  | on_canceled x => fits 64 (ca_id x) /\ fits 32 (ca_canceled_qty x)
  | on_replaced x =>
      fits 64 (re_old_id x) /\ fits 64 (re_new_id x) /\ fits 32 (re_price x) /\ fits 32 (re_qty x)
  end.

Record step_ok (f : Market) (m : MarketEvent) : Prop := {
  st_wf : forall sym, Spec.wf (f sym);
  st_ev : ev_ok (me_ev m) (f (me_symbol m));
  st_after : Spec.wf (replay (me_ev m) (f (me_symbol m)));
  st_fresh : forall id sym, rests_as (me_ev m) = Some id -> id ∉ Spec.ids (f sym);
  st_symbol : symbol_ok (me_symbol m);
  st_fits : ev_fits (me_ev m) }.

#[export] Instance step_ok_proper : Proper (same_books ==> eq ==> impl) step_ok.
Proof.
  intros f g H m _ <- [H1 H2 H3 H4 H5 H6]. split; [intros sym|..|intros id sym|done|done];
    rewrite <- ?H; auto.
Qed.

Inductive market : Market -> list MarketEvent -> Market -> Prop :=
  | mk_nil f f' : same_books f f' -> market f [] f'
  | mk_cons f m ms f' : step_ok f m -> market (market_step f m) ms f' -> market f (m :: ms) f'.

#[export] Instance market_proper : Proper (same_books ==> eq ==> same_books ==> impl) market.
Proof.
  intros f g Hfg ms _ <- f' g' Hfg' Hm. revert g g' Hfg Hfg'.
  induction Hm as [f f' Hff|f m ms f' Hs _ IH]; intros g g' Hfg Hfg'; constructor.
  - by rewrite <- Hfg, Hff.
  - by rewrite <- Hfg.
  - apply IH; [by rewrite Hfg|done].
Qed.

Lemma market_app f ms g ms' h : market f ms g -> market g ms' h -> market f (ms ++ ms') h.
Proof.
  induction 1 as [f f' Hff|f m ms f' Hs _ IH]; intros Hm; cbn [app]; [by rewrite Hff|].
  constructor; auto.
Qed.

(** ** Orders of a book after an event *)

Lemma find_replay ev b i :
  Spec.wf b -> ev_ok ev b -> Spec.wf (replay ev b) ->
  Spec.find_order i (replay ev b) =
    match ev with
    | on_added x =>
        if i =? ad_id x then Some (ad_side x, ad_price x, ad_qty x) else Spec.find_order i b
    | on_executed x => Spec.find_order i (take_shares (ex_resting_id x) (ex_qty x) b)
    | on_canceled x =>
        if ca_removed x then if i =? ca_id x then None else Spec.find_order i b
        else Spec.find_order i (take_shares (ca_id x) (ca_canceled_qty x) b)
    | on_replaced x =>
        if i =? re_new_id x then Some (re_side x, re_price x, re_qty x)
        else if i =? re_old_id x then None else Spec.find_order i b
    end.
Proof.
  intros Hwf Hev Hwf'. destruct ev as [x|x|x|x]; cbn [replay ev_ok] in *.
  - destruct Hev as (_ & Hs & _). destruct (Z.eqb_spec i (ad_id x)) as [->|].
    + by apply find_rest_same.
    + by apply find_rest_other.
  - done.
  - destruct (ca_removed x); [|done]. by apply find_drop_order.
  - destruct Hev as (_ & _ & _ & px & q & Hf). rewrite Hf in *.
    pose proof (Spec.find_order_side _ _ _ _ _ Hf) as Hs.
    set (b1 := Spec.remove (re_side x) px (re_old_id x) b) in *.
    assert (Spec.wf b1) as Hwf1 by by apply Spec.remove_wf.
    destruct (Z.eqb_spec i (re_new_id x)) as [->|].
    + by apply find_rest_same.
    + rewrite find_rest_other by done. destruct (Z.eqb_spec i (re_old_id x)) as [->|].
      * apply Spec.find_order_None. by eapply find_remove_same.
      * by apply find_remove_other.
Qed.

(** An order found after an event was there before, on the same side and price,
    or is the one the event rests. *)
Lemma find_replay_inv ev b i s px q :
  Spec.wf b -> ev_ok ev b -> Spec.wf (replay ev b) ->
  Spec.find_order i (replay ev b) = Some (s, px, q) ->
  (exists q', Spec.find_order i b = Some (s, px, q')) \/
  (rests_as ev = Some i /\ match ev with
     | on_added x => px = ad_price x | on_replaced x => px = re_price x | _ => False end).
Proof.
  intros Hwf Hev Hwf'. rewrite find_replay by done.
  assert (forall id k, 0 < k ->
    Spec.find_order i (take_shares id k b) = Some (s, px, q) ->
    exists q', Spec.find_order i b = Some (s, px, q')) as Htake.
  { intros id k Hk. rewrite find_take_shares by done. destruct (Z.eqb_spec i id) as [->|]; [|eauto].
    destruct (Spec.find_order id b) as [[[s1 px1] q1]|]; [|done].
    destruct (q1 <=? k); [done|]. intros [= <- <- <-]. eauto. }
  destruct ev as [x|x|x|x]; cbn [ev_ok rests_as] in *.
  - destruct (Z.eqb_spec i (ad_id x)) as [->|]; [|eauto]. intros [= <- <- <-]. by right.
  - destruct Hev as (q0 & _ & Hq & _). left. eapply Htake; [|done]. lia.
  - destruct Hev as (s0 & px0 & q0 & _ & Hq). destruct (ca_removed x).
    + destruct (i =? ca_id x); [done|eauto].
    + left. eapply Htake; [|done]. lia.
  - destruct (Z.eqb_spec i (re_new_id x)) as [->|].
    + intros [= <- <- <-]. by right.
    + destruct (i =? re_old_id x); [done|eauto].
Qed.

(** ** Books whose fields a message can carry *)

Record book_fits (b : Spec.Book) : Prop := {
  bf_match : fits 64 (Spec.next_match b);
  bf_orders : forall id s px q, Spec.find_order id b = Some (s, px, q) ->
    fits 64 id /\ fits 32 px }.

Lemma empty_fits : book_fits Spec.empty.
Proof. split; [unfold fits; cbn; lia|]. done. Qed.

Lemma replay_next_match ev b :
  Spec.next_match (replay ev b) =
    match ev with on_executed x => u64 (ex_match_id x + 1) | _ => Spec.next_match b end.
Proof.
  destruct ev as [x|x|x|x]; cbn [replay]; unfold drop_order, take_shares, Spec.rest, Spec.remove, Spec.reduce;
    repeat case_match; by rewrite ?Spec.next_match_set_levels.
Qed.

Lemma book_fits_replay ref ev b :
  Spec.wf b -> ev_ok ev b -> Spec.wf (replay ev b) -> fits 64 ref -> new_ok ref ev ->
  book_fits b -> book_fits (replay ev b).
Proof.
  intros Hwf Hev Hwf' Href Hnew [Hm Ho]. split.
  - rewrite replay_next_match. destruct ev; try done. by apply wrap_fits.
  - intros id s px q Hf. destruct (find_replay_inv ev b id s px q) as [[q' Hq]|[Hid Hpx]]; try done.
    + by eapply Ho.
    + destruct ev as [x|x|x|x]; try done; cbn in *; injection Hid as <-; subst px; naive_solver.
Qed.

Lemma event_fits ref ev b :
  Spec.wf b -> ev_ok ev b -> fits 64 ref -> new_ok ref ev -> book_fits b -> ev_fits ev.
Proof.
  intros Hwf Hev Href Hnew [Hm Ho].
  destruct ev as [x|x|x|x]; cbn [ev_ok new_ok ev_fits] in *.
  - unfold fits in *. naive_solver lia.
  - destruct Hev as (q & Hf & Hq & Hid). destruct (Ho _ _ _ _ Hf) as [Hi Hpx].
    destruct (Spec.find_order_qty _ _ _ _ _ Hwf Hf) as [_ Hb]. unfold fits in *. rewrite Hid. lia.
  - destruct Hev as (s & px & q & Hf & Hq). destruct (Ho _ _ _ _ Hf) as [Hi _].
    destruct (Spec.find_order_qty _ _ _ _ _ Hwf Hf) as [_ Hb]. unfold fits in *.
    destruct (ca_removed x); lia.
  - destruct Hev as (_ & _ & Hq & px & q & Hf). destruct (Ho _ _ _ _ Hf) as [Hi _].
    destruct Hnew as [-> Hp]. unfold fits in *. lia.
Qed.
