(* ===== verification/EngineFeed.v ===== *)
(** Runs of the engine: any sequence of decodable commands, short enough for
    the reference counter and the books, is processed without failure, keeps
    the invariant, and publishes an event stream that replays to the books. *)

From S2P Require Import Prelude StdMap Endian BookTypes BookSpec BookReplay Ouch EngineBook Engine EngineInv EngineRuns MarketReplay.
Import Engine.

Lemma trace_market now sym ref evs : forall f b b',
  trace b evs b' -> f sym = b -> (forall s, Spec.wf (f s)) -> symbol_ok sym -> fits 64 ref ->
  Forall (new_ok ref) evs -> (forall s, s <> sym -> ref ∉ Spec.ids (f s)) -> book_fits b ->
  market f (map (mkMarket now sym) evs) (upd f sym b') /\ book_fits b'.
Proof.
  induction evs as [|ev evs IH]; intros f b b' Htr Hf Hwf Hsym Href Hnew Hfr Hfit;
    inversion Htr as [|? ? ? ? Hwfb Hev Htr']; subst; cbn [map].
  { split; [|done]. constructor. intros s. unfold upd. destruct (decide (s = sym)) as [->|]; done. }
  apply Forall_cons in Hnew as [Hn Hnew].
  pose proof (proj1 (trace_wf _ _ _ Htr')) as Hwf1.
  destruct (IH (market_step f (mkMarket now sym ev)) (replay ev (f sym)) b') as [Hm Hb'].
  - done.
  - apply (upd_book_eq f sym).
  - intros s. unfold market_step, upd. cbn [me_symbol me_ev].
    destruct (decide (s = sym)) as [->|]; done.
  - done.
  - done.
  - done.
  - intros s Hs. unfold market_step. rewrite upd_book_ne by done. by apply Hfr.
  - by eapply book_fits_replay.
  - split; [|done]. constructor.
    + split; cbn [me_symbol me_ev]; [done..| |done|exact (event_fits ref ev (f sym) Hwfb Hev Href Hn Hfit)].
      intros id s Hid. destruct (decide (s = sym)) as [->|Hs].
      * destruct ev; cbn in Hid; try done; injection Hid as <-; apply Hev.
      * assert (id = ref) as -> by (destruct ev; cbn in *; try done; injection Hid as <-; apply Hn).
        by apply Hfr.
    + eapply market_proper; [reflexivity|reflexivity| |exact Hm].
      intros s. unfold market_step, upd. cbn [me_symbol].
      by destruct (decide (s = sym)).
Qed.

Section Feed.
Context {B : Type} `{EngineBookLaws B}.
Implicit Types (e : Engine B) (S : Books).

(** The invariant of a run. *)
Record run_inv e S : Prop := {
  ri_inv : inv e S;
  ri_fits : forall sym, book_fits (spec_book S sym);
  ri_symbols : forall sym, is_Some (S !! sym) -> symbol_ok sym }.

Lemma spec_book_insert S sym sp : same_books (upd (spec_book S) sym sp) (spec_book (<[sym := sp]> S)).
Proof.
  intros s. unfold upd, spec_book. destruct (decide (s = sym)) as [->|Hs].
  - by rewrite lookup_insert_eq.
  - by rewrite lookup_insert_ne.
Qed.

Lemma spec_book_wf e S sym : inv e S -> Spec.wf (spec_book S sym).
Proof.
  intros Hi. destruct (book_for_spec sym e S) as (b & _ & Hr); [apply Hi|]. by apply eb_rep_wf in Hr.
Qed.

Lemma init_run_inv : run_inv (@init B) ∅.
Proof.
  split; [apply init_inv| |].
  - intros sym. unfold spec_book. rewrite lookup_empty. apply empty_fits.
  - intros sym. rewrite lookup_empty. by intros [].
Qed.

Lemma process_market now cmd e S :
  run_inv e S -> has_room e -> command_ok cmd ->
  exists e' S' ms, process now cmd e = Some e' /\ run_inv e' S' /\
    to_feed_ e' = to_feed_ e ++ ms /\ Forall (fun m => me_ts m = now) ms /\
    market (spec_book S) ms (spec_book S') /\
    next_ref_ e <= next_ref_ e' <= next_ref_ e + 1 /\
    (length ms + resting_orders S' <= resting_orders S + 2)%nat.
Proof.
  intros [Hi Hf Hs] Hroom Hc. pose proof (inv_tokens _ _ Hi) as Hk.
  destruct (process_spec now cmd e S Hi Hroom Hc) as (e' & S' & sym & evs & Hp & Hi' & [Hfd Hb Hn Hnx _ Hct]).
  exists e', S', (map (mkMarket now sym) evs). split; [done|].
  assert (Forall (fun m => me_ts m = now) (map (mkMarket now sym) evs)) as Hts
    by (apply Forall_map, Forall_true; done).
  destruct Hb as [[-> ->]|(sp' & Htr & -> & Hsym)].
  { split_and!; [by split|done|done|by constructor|lia|lia|done]. }
  assert (symbol_ok sym) as Hok by (destruct Hsym; [by apply Hs|done]).
  pose proof (tk_next _ Hk) as Hnext.
  destruct (trace_market now sym (next_ref_ e) evs (spec_book S) (spec_book S sym) sp') as [Hm Hfit];
    try done.
  - intros s. by eapply spec_book_wf.
  - unfold fits. lia.
  - intros s _. apply Spec.find_order_None.
    pose proof (nowhere_next e S Hk (inv_table _ _ Hi) s) as Hn0. unfold book_find, spec_book in *.
    by destruct (S !! s).
  - split_and!; [|done|done| |lia|lia|by rewrite length_map].
    + split; [done| |].
      * intros s. rewrite <- (spec_book_insert S sym sp' s). unfold upd.
        destruct (decide (s = sym)); [done|apply Hf].
      * intros s. destruct (decide (s = sym)) as [->|Hne]; [done|].
        rewrite lookup_insert_ne by done. apply Hs.
    + eapply market_proper; [reflexivity|reflexivity|apply spec_book_insert|exact Hm].
Qed.

(** Room for the commands still to come. *)
Definition room_for (n : Z) e : Prop :=
  next_ref_ e + n < 2 ^ 64 /\
  match eb_capacity with None => True | Some c => next_ref_ e + n <= c + 1 end.

Lemma process_all_market cmds : forall e S,
  run_inv e S -> room_for (lengthZ cmds) e -> Forall (fun c => command_ok c.2) cmds ->
  exists e' S' ms, process_all cmds e = Some e' /\ run_inv e' S' /\
    to_feed_ e' = to_feed_ e ++ ms /\ Forall (fun m => me_ts m ∈ cmds.*1) ms /\
    market (spec_book S) ms (spec_book S') /\
    next_ref_ e <= next_ref_ e' <= next_ref_ e + lengthZ cmds /\
    (length ms + resting_orders S' <= resting_orders S + 2 * length cmds)%nat.
Proof.
  induction cmds as [|[now cmd] cmds IH]; intros e S Hr Hroom Hok; cbn [process_all].
  { exists e, S, []. split_and!; [done|done|by rewrite app_nil_r|done|by constructor|lia| |cbn [length]; lia].
    change (lengthZ (@nil (Z * Command))) with 0. lia. }
  apply Forall_cons in Hok as [Hc Hok]. destruct Hroom as [Hr1 Hr2].
  assert (lengthZ ((now, cmd) :: cmds) = lengthZ cmds + 1) as Hl
    by (unfold lengthZ; cbn [length]; lia).
  pose proof (lengthZ_nonneg cmds).
  destruct (process_market now cmd e S) as (e1 & S1 & ms1 & -> & Hr' & Hf1 & Ht1 & Hm1 & Hn1); try done.
  { split; [lia|]. destruct eb_capacity; [lia|done]. }
  rewrite obind_Some.
  destruct (IH e1 S1 Hr') as (e' & S' & ms & -> & Hr2' & Hf & Ht & Hm & Hn2); [|done|].
  { split; [lia|]. destruct eb_capacity; [lia|done]. }
  exists e', S', (ms1 ++ ms).
  split_and!; [done|done| | | |lia|lia|rewrite length_app; cbn [length] in *; lia].
  - by rewrite Hf, Hf1, app_assoc.
  - cbn [fmap list_fmap fst]. apply Forall_app. split; eapply Forall_impl; try done; cbn;
      intros m Hm'; [rewrite Hm'; by constructor|by constructor].
  - by eapply market_app.
Qed.

(** ** Order references *)

(** The references under which a stream rests new orders. *)
Definition rested (ms : list MarketEvent) : list OrderId := omap (fun m => rests_as (me_ev m)) ms.

Lemma rested_app ms ms' : rested (ms ++ ms') = rested ms ++ rested ms'.
Proof. apply omap_app. Qed.

Lemma rested_map now sym evs : rested (map (mkMarket now sym) evs) = omap rests_as evs.
Proof.
  induction evs as [|ev evs IH]; [done|]. unfold rested in *. cbn.
  destruct (rests_as ev); [f_equal|]; exact IH.
Qed.

Lemma new_ok_rested ref evs : Forall (new_ok ref) evs -> Forall (fun id => id = ref) (omap rests_as evs).
Proof.
  induction 1 as [|ev evs Hev _ IH]; [constructor|]. cbn [omap list_omap].
  destruct ev; cbn in *; try done; constructor; try done; apply Hev.
Qed.

(** The references a command publishes new orders under are ones it takes from
    the counter. *)
Lemma process_rested now cmd e S :
  run_inv e S -> has_room e -> command_ok cmd ->
  exists e' ms, process now cmd e = Some e' /\ to_feed_ e' = to_feed_ e ++ ms /\
    NoDup (rested ms) /\ Forall (fun id => next_ref_ e <= id < next_ref_ e') (rested ms).
Proof.
  intros [Hi _ _] Hroom Hc.
  destruct (process_spec now cmd e S Hi Hroom Hc) as (e' & S' & sym & evs & Hp & _ & [Hfd _ Hn Hnx Hone _]).
  exists e', (map (mkMarket now sym) evs). split; [done|]. split; [done|]. rewrite rested_map.
  pose proof (new_ok_rested _ _ Hn) as Hids. destruct (omap rests_as evs) as [|i [|j l]]; cbn [length] in *.
  - split; constructor.
  - apply Forall_cons in Hids as [-> _]. split; [apply NoDup_singleton|]. constructor; [lia|constructor].
  - lia.
Qed.

(** Over a run every new order has its own reference. *)
Lemma process_all_rested cmds : forall e S,
  run_inv e S -> room_for (lengthZ cmds) e -> Forall (fun c => command_ok c.2) cmds ->
  exists e' ms, process_all cmds e = Some e' /\ to_feed_ e' = to_feed_ e ++ ms /\
    NoDup (rested ms) /\ Forall (fun id => next_ref_ e <= id < next_ref_ e') (rested ms).
Proof.
  induction cmds as [|[now cmd] cmds IH]; intros e S Hr [Hr1 Hr2] Hok; cbn [process_all].
  { exists e, []. split; [done|]. split; [by rewrite app_nil_r|]. split; constructor. }
  apply Forall_cons in Hok as [Hc Hok].
  assert (lengthZ ((now, cmd) :: cmds) = lengthZ cmds + 1) as Hl
    by (unfold lengthZ; cbn [length]; lia).
  pose proof (lengthZ_nonneg cmds).
  assert (has_room e) as Hroom by (split; [lia|]; destruct eb_capacity; [lia|done]).
  destruct (process_market now cmd e S Hr Hroom Hc) as (e1 & S1 & ms1 & Hp & Hr' & _ & _ & _ & Hn1 & _).
  destruct (process_rested now cmd e S Hr Hroom Hc) as (e1' & ms & Hp' & Hf1 & Hd1 & Hb1).
  rewrite Hp in Hp'. injection Hp' as <-. rewrite Hp, obind_Some.
  assert (room_for (lengthZ cmds) e1) as Hroom1 by (split; [lia|]; destruct eb_capacity; [lia|done]).
  destruct (IH e1 S1 Hr' Hroom1 Hok) as (e' & ms' & Ha & Hf & Hd & Hb).
  destruct (process_all_market cmds e1 S1 Hr' Hroom1 Hok) as (e2 & S2 & ms2 & Hp2 & _ & _ & _ & _ & Hn2 & _).
  rewrite Hp2 in Ha. injection Ha as <-.
  exists e2, (ms ++ ms'). split; [done|]. split; [by rewrite Hf, Hf1, app_assoc|]. rewrite rested_app.
  split.
  - apply NoDup_app. split_and!; [done| |done]. rewrite Forall_forall in Hb, Hb1.
    intros i Hx%Hb1 Hy%Hb. lia.
  - apply Forall_app. split; (eapply Forall_impl; [eassumption|]); cbn; intros; lia.
Qed.

(** The snapshot of a symbol is that of its abstract book. *)
Lemma book_snapshot_spec e S sym :
  inv e S -> book_snapshot sym e = Some (Spec.to_snapshot (spec_book S sym)).
Proof.
  intros [Hb _ _ _]. specialize (Hb sym). unfold book_snapshot, spec_book.
  destruct (books_ e !! sym) as [b|], (S !! sym) as [sp|]; try done. by apply eb_snapshot_spec.
Qed.
End Feed.
