(* ===== verification/EngineClaims.v ===== *)
(** What the engine promises to its clients, for every sequence of commands.

    [engine_run] is the engine as the service builds it: [FastBook] with its
    default configuration for every symbol, started empty. *)

From S2P Require Import Prelude StdMap Endian BookTypes BookSpec BookLaws MatchingBook BookReplay Wire Symbols Ouch LadderBook LadderInv BookClaims EngineBook Engine EngineInv EngineRuns MarketReplay EngineFeed.
From Stdlib Require Import Ascii.
Import Engine.

Definition engine_run (cmds : list (Z * Command)) : option (Engine Fast) :=
  @process_all Fast (fast_engine_book default_cfg) cmds (@init Fast).

(** Commands that come out of the decoder, fewer than the 2^32 - 1 orders a
    book's 32-bit links can address. *)
Definition session_ok (cmds : list (Z * Command)) : Prop :=
  Forall (fun c => command_ok c.2) cmds /\ lengthZ cmds < 2 ^ 32 - 1.

#[local] Instance default_book : EngineBook Fast := fast_engine_book default_cfg.
#[local] Instance default_book_laws : EngineBookLaws Fast := fast_engine_book_laws default_cfg default_cfg_ok.

Lemma engine_run_spec cmds :
  session_ok cmds ->
  exists e S, engine_run cmds = Some e /\ run_inv e S /\
    Forall (fun m => me_ts m ∈ cmds.*1) (to_feed_ e) /\
    market (fun _ => Spec.empty) (to_feed_ e) (spec_book S) /\
    next_ref_ e <= 1 + lengthZ cmds /\
    (length (to_feed_ e) + resting_orders S <= 2 * length cmds)%nat.
Proof.
  intros [Hok Hn].
  destruct (process_all_market cmds (@init Fast) ∅) as (e & S & ms & Hr & Hi & Hf & Ht & Hm & Hb & Hct).
  - apply init_run_inv.
  - unfold room_for. cbn [next_ref_ init eb_capacity default_book_laws fast_engine_book_laws].
    unfold FastBook.kNil. lia.
  - done.
  - exists e, S. cbn in Hf. subst ms. split_and!; [exact Hr|done|done| |cbn in Hb; lia|exact Hct].
    eapply market_proper; [|reflexivity|reflexivity|exact Hm].
    intros sym. unfold spec_book. by rewrite lookup_empty.
Qed.

(** Every new order of a session has a reference of its own. *)
Lemma session_rested cmds e :
  session_ok cmds -> engine_run cmds = Some e -> NoDup (rested (to_feed_ e)).
Proof.
  intros [Hok Hn] He. destruct (process_all_rested cmds (@init Fast) ∅) as (e' & ms & Hr & Hf & Hnd & _).
  - apply init_run_inv.
  - unfold room_for. cbn [next_ref_ init eb_capacity default_book_laws fast_engine_book_laws].
    unfold FastBook.kNil. lia.
  - done.
  - assert (engine_run cmds = Some e') as Hr' by exact Hr. rewrite He in Hr'. injection Hr' as <-.
    cbn in Hf. by rewrite Hf.
Qed.

(** The engine publishes at most two events per command, so a session never
    exhausts the 64-bit sequence numbers of the feed. *)
Lemma feed_bound cmds e :
  session_ok cmds -> engine_run cmds = Some e -> lengthZ (to_feed_ e) <= 2 * lengthZ cmds.
Proof.
  intros Hc He. destruct (engine_run_spec cmds Hc) as (e' & S & Hr & _ & _ & _ & _ & Hn).
  rewrite He in Hr. injection Hr as <-. unfold lengthZ. lia.
Qed.

Lemma feed_short cmds e :
  session_ok cmds -> engine_run cmds = Some e -> lengthZ (to_feed_ e) < 2 ^ 63.
Proof. intros Hc He. pose proof (feed_bound cmds e Hc He). destruct Hc as [_ Hn]. lia. Qed.

(** ** How much the engine says *)

Section Outputs.
Context {B : Type} `{EngineBook B}.
Implicit Types (e : Engine B).

(** Responses over twice the events: a fill is reported to two clients. *)
Definition balance e : Z := lengthZ (to_gateway_ e) - 2 * lengthZ (to_feed_ e).

Lemma push_gateway_balance c m e : balance (push_gateway c m e) = balance e + 1.
Proof. unfold balance. cbn [to_gateway_ to_feed_ push_gateway]. rewrite lengthZ_app. change (lengthZ [_]) with 1. lia. Qed.

Lemma push_feed_balance ev e : balance (push_feed ev e) = balance e - 2.
Proof. unfold balance. cbn [to_gateway_ to_feed_ push_feed]. rewrite lengthZ_app. change (lengthZ [_]) with 1. lia. Qed.

Lemma reduce_open_balance id by_ e : balance (reduce_open id by_ e) = balance e.
Proof. unfold reduce_open. by repeat case_match. Qed.

Lemma notify_balance id liq x e : balance (notify id liq x e) <= balance e + 1.
Proof. unfold notify. case_match; rewrite ?push_gateway_balance; lia. Qed.

Lemma on_event_balance e ev : balance (on_event e ev) <= balance e.
Proof.
  destruct ev as [x|x|x|x]; cbn [on_event].
  - unfold handle_added. rewrite push_feed_balance. lia.
  - unfold handle_executed. cbv zeta. rewrite !reduce_open_balance.
    etrans; [apply notify_balance|]. pose proof (notify_balance (ex_resting_id x) (chr "A") x (push_feed (on_executed x) e)).
    rewrite push_feed_balance in *. lia.
  - unfold handle_canceled. cbv zeta. set (e1 := push_feed _ e).
    assert (balance e1 = balance e - 2) as H1 by apply push_feed_balance.
    set (e2 := if negb _ then _ else e1).
    assert (balance e2 <= balance e - 1) as H2
      by (unfold e2; repeat case_match; rewrite ?push_gateway_balance; lia).
    clearbody e2. destruct (ca_removed x); [rewrite reduce_open_balance; lia|].
    case_match; unfold balance in *; cbn [to_gateway_ to_feed_ set_orders]; lia.
  - unfold handle_replaced. rewrite push_feed_balance. lia.
Qed.

Lemma on_events_balance evs : forall e, balance (fold_left on_event evs e) <= balance e.
Proof.
  induction evs as [|ev evs IH]; intros e; cbn [fold_left]; [lia|].
  etrans; [apply IH|apply on_event_balance].
Qed.

Lemma call_book_balance {R} sym (op : B -> option (R * B)) b e r e' :
  call_book sym op b e = Some (r, e') -> balance e' <= balance e.
Proof.
  unfold call_book. intros Hx. apply bind_Some in Hx as ([r' b'] & _ & Hx). injection Hx as <- <-.
  etrans; [apply on_events_balance|]. done.
Qed.

Lemma cancel_unrested_balance c ref t q reason e : balance (cancel_unrested c ref t q reason e) = balance e + 1.
Proof. unfold cancel_unrested. cbv zeta. rewrite <- (push_gateway_balance c (RCanceled (Ouch.mkCanceled (now_ e) t q reason)) e). done. Qed.

Lemma book_for_balance sym e b e' : book_for sym e = Some (b, e') -> balance e' = balance e.
Proof.
  unfold book_for. case_match; [by intros [= <- <-]|]. intros Hx. apply bind_Some in Hx as (b' & _ & Hx).
  by injection Hx as <- <-.
Qed.

Lemma trade_balance c ref m b e e' : trade c ref m b e = Some e' -> balance e' <= balance e + 1.
Proof.
  unfold trade. intros Hx. apply bind_Some in Hx as ([enough b1] & _ & Hx).
  set (e1 := set_books _ e) in Hx. assert (balance e1 = balance e) as E1 by done. clearbody e1.
  destruct (negb enough); [injection Hx as <-; rewrite cancel_unrested_balance; lia|].
  destruct (is_ioc m).
  - apply bind_Some in Hx as ([filled e2] & Hc & Hx). apply call_book_balance in Hc. injection Hx as <-.
    case_match; rewrite ?cancel_unrested_balance; lia.
  - apply bind_Some in Hx as ([r e2] & Hc & Hx). apply call_book_balance in Hc. injection Hx as <-. lia.
Qed.

Lemma handle_enter_balance c m e e' : handle_enter c m e = Some e' -> balance e' <= balance e + 2.
Proof.
  unfold handle_enter, reject. cbv zeta. intros Hx.
  repeat (case_match; [injection Hx as <-; rewrite push_gateway_balance; lia|]).
  apply bind_Some in Hx as ([b e1] & Hb & Hx). apply book_for_balance in Hb. apply trade_balance in Hx.
  rewrite push_gateway_balance in Hb.
  match type of Hb with _ = balance ?e0 + 1 => assert (balance e0 = balance e) as E0 by reflexivity end.
  rewrite E0 in Hb. lia.
Qed.

Lemma handle_cancel_balance c m e e' : handle_cancel c m e = Some e' -> balance e' <= balance e.
Proof.
  unfold handle_cancel. intros Hx. do 2 (case_match; [|injection Hx as <-; lia]). cbv zeta in Hx.
  apply bind_Some in Hx as ([b e1] & Hb & Hx). apply book_for_balance in Hb.
  apply bind_Some in Hx as ([r e2] & Hc & Hx). apply call_book_balance in Hc. injection Hx as <-.
  change (balance (set_symbol _ e)) with (balance e) in Hb. lia.
Qed.

Lemma swap_order_balance c m old info e : balance (swap_order c m old info e) = balance e + 1.
Proof.
  unfold balance. change (to_feed_ (swap_order c m old info e)) with (to_feed_ e).
  change (to_gateway_ (swap_order c m old info e)) with
    (to_gateway_ e ++ [mkResponse c (RReplaced (replaced_of m info (now_ e) (next_ref_ e)))]).
  rewrite lengthZ_app. change (lengthZ [_]) with 1. lia.
Qed.

Lemma handle_replace_balance c m e e' : handle_replace c m e = Some e' -> balance e' <= balance e + 1.
Proof.
  unfold handle_replace. intros Hx. case_match; [|injection Hx as <-; lia].
  do 2 (case_match; [injection Hx as <-; lia|]). case_match; [|injection Hx as <-; lia]. cbv zeta in Hx.
  apply bind_Some in Hx as ([b e1] & Hb & Hx). apply book_for_balance in Hb. rewrite swap_order_balance in Hb.
  apply bind_Some in Hx as ([r e2] & Hc & Hx). apply call_book_balance in Hc. injection Hx as <-.
  change (balance (set_suppress false e2)) with (balance e2). lia.
Qed.

(** A command has at most two responses of its own. *)
Lemma process_balance now cmd e e' : process now cmd e = Some e' -> balance e' <= balance e + 2.
Proof.
  unfold process. change (balance e) with (balance (set_now now e)). generalize (set_now now e). intros e0.
  destruct cmd as [c [m|m|m]]; cbn [handle cmd_msg cmd_client_id]; intros Hx.
  - by apply handle_enter_balance in Hx.
  - apply handle_cancel_balance in Hx. lia.
  - apply handle_replace_balance in Hx. lia.
Qed.

Lemma process_all_balance cmds : forall e e',
  process_all cmds e = Some e' -> balance e' <= balance e + 2 * lengthZ cmds.
Proof.
  induction cmds as [|[now cmd] cmds IH]; intros e e' Hx; cbn [process_all] in Hx.
  - injection Hx as <-. unfold lengthZ. cbn [length]. lia.
  - apply bind_Some in Hx as (e1 & H1 & Hx). apply process_balance in H1. apply IH in Hx.
    unfold lengthZ in *. cbn [length]. lia.
Qed.
End Outputs.

(** C17: the engine's output is bounded by its input, although one order can
    execute against any number of resting ones: over a whole session the engine
    publishes at most two market events per command, and queues at most two
    responses per command and two per event, so at most six per command. *)
Theorem engine_output_bounded cmds :
  session_ok cmds ->
  exists e, engine_run cmds = Some e /\
    lengthZ (to_feed_ e) <= 2 * lengthZ cmds /\
    lengthZ (to_gateway_ e) <= 2 * lengthZ (to_feed_ e) + 2 * lengthZ cmds /\
    lengthZ (to_gateway_ e) <= 6 * lengthZ cmds.
Proof.
  intros Hc. destruct (engine_run_spec cmds Hc) as (e & S & He & _). exists e. split; [done|].
  pose proof (feed_bound cmds e Hc He) as Hf. pose proof (process_all_balance cmds _ e He) as Hb.
  unfold balance in Hb. change (to_gateway_ init) with (@nil ClientResponse) in Hb.
  change (to_feed_ init) with (@nil MarketEvent) in Hb. unfold lengthZ in *. cbn [length] in Hb. lia.
Qed.

(** ** The order table and the books *)

(** An order as the snapshot of a symbol shows it. *)
Definition rests (e : Engine Fast) (sym : Symbol) (s : Side) (id : OrderId) (q : Qty) : Prop :=
  exists snap lvl, book_snapshot sym e = Some snap /\
    lvl ∈ (if is_buy s then bs_bids snap else bs_asks snap) /\ mkSnapOrder id q ∈ sl_orders lvl.

Lemma rests_find e S sym s id q :
  inv e S -> valid_side s ->
  rests e sym s id q <-> exists px, Spec.find_order id (spec_book S sym) = Some (s, px, q).
Proof.
  intros Hi Hs. pose proof (spec_book_wf e S sym Hi) as Hwf. unfold rests.
  rewrite (book_snapshot_spec e S sym Hi).
  assert (forall lvl, lvl ∈ (if is_buy s then bs_bids (Spec.to_snapshot (spec_book S sym))
      else bs_asks (Spec.to_snapshot (spec_book S sym))) <->
    exists px os, lvl = mkSnapLevel px os /\ (px, os) ∈ Spec.levels s (spec_book S sym)) as Hl.
  { intros lvl. unfold Spec.to_snapshot, Spec.levels. cbn [bs_bids bs_asks].
    destruct (is_buy s); rewrite list_elem_of_fmap; split.
    1, 3: intros ([px os] & -> & Hin); eauto.
    all: intros (px & os & -> & Hin); by exists (px, os). }
  split.
  - intros (snap & lvl & [= <-] & (px & os & -> & Hin)%Hl & Ho). exists px.
    apply Spec.find_order_spec; [apply Hwf|done|]. eauto.
  - intros (px & Hf). apply Spec.find_order_spec in Hf as (os & Hin & Ho); [|apply Hwf|done].
    exists (Spec.to_snapshot (spec_book S sym)), (mkSnapLevel px os). split_and!; [done| |done].
    apply Hl. eauto.
Qed.

Lemma rests_table e S sym s id q :
  inv e S -> valid_side s ->
  rests e sym s id q <-> exists info, orders_ e !! id = Some info /\ i_symbol info = sym /\
    i_side info = s /\ i_open info = q.
Proof.
  intros Hi Hs. rewrite (rests_find e S) by done.
  assert (forall r, Spec.find_order id (spec_book S sym) = Some r <-> book_find S sym id = Some r) as Hbf.
  { intros r. unfold spec_book, book_find. by destruct (S !! sym). }
  split.
  - intros (px & Hf%Hbf). pose proof (inv_table _ _ Hi id sym (not_elem_of_empty _)) as Hh.
    by rewrite Hf in Hh.
  - intros (info & Ho & <- & <- & <-).
    destruct (table_entry ∅ e S id info (inv_table _ _ Hi) (not_elem_of_empty _) Ho) as [(px & Hf) _].
    exists px. by apply Hbf.
Qed.

(** C16: bookkeeping. Any sequence of decodable commands is processed without
    failure, and then: an order rests in the book of a symbol, on a side and
    with a number of shares, exactly when the order table says so; the table
    of live tokens and the order table are inverse to each other; every live
    token has been used. *)
Theorem engine_table_matches_books cmds :
  session_ok cmds ->
  exists e, engine_run cmds = Some e /\
    (forall sym, is_Some (book_snapshot sym e)) /\
    (forall sym s id q, valid_side s ->
       rests e sym s id q <-> exists info, orders_ e !! id = Some info /\ i_symbol info = sym /\
         i_side info = s /\ i_open info = q) /\
    (forall c t id, live_tokens_ e !! (c, t) = Some id <->
       exists info, orders_ e !! id = Some info /\ i_client_id info = c /\
         token_str (i_token info) = t) /\
    (forall k id, live_tokens_ e !! k = Some id -> k ∈ used_tokens_ e).
Proof.
  intros Hc. destruct (engine_run_spec cmds Hc) as (e & S & Hr & [Hi _ _] & _).
  exists e. split_and!; [done|..].
  - intros sym. rewrite (book_snapshot_spec e S) by done. done.
  - intros sym s id q Hs. by apply (rests_table e S).
  - apply Hi.
  - apply Hi.
Qed.

(** The open shares by the responses are those in the books. *)
Lemma view_rests e S : inv e S -> forall c t q,
  view (to_gateway_ e) !! (c, t) = Some q <->
  exists id info, orders_ e !! id = Some info /\ i_client_id info = c /\
    token_str (i_token info) = t /\ rests e (i_symbol info) (i_side info) id q.
Proof.
  intros Hi c t q. destruct (inv_tokens _ _ Hi) as [Hk Hv].
  rewrite Hv. unfold open_of. split.
  - intros (id & Hl & Ho)%bind_Some. apply (tk_live _ Hk) in Hl as (info & Hi' & <- & <-).
    rewrite Hi' in Ho. injection Ho as <-. exists id, info. split_and!; [done..|].
    apply (rests_table e S); [done|by eapply table_side|]. eauto.
  - intros (id & info & Ho & <- & <- & Hrest).
    apply (rests_table e S) in Hrest as (i & Hi' & _ & _ & <-); [|done|by eapply table_side].
    pose proof (live_key e id info Hk Ho) as Hl. unfold key_of in Hl. rewrite Hl, obind_Some, Ho. rewrite Ho in Hi'. by injection Hi' as <-.
Qed.

(** C5: a client that follows its responses knows its orders. Adding up the
    responses sent to a client (shares accepted or replaced, less shares
    executed and cancelled) gives, for every token, exactly the shares that
    the order entered under that token has resting in a book, and nothing for
    tokens without a resting order. *)
Theorem responses_account_for_orders cmds :
  session_ok cmds ->
  exists e, engine_run cmds = Some e /\
    forall c t q, view (to_gateway_ e) !! (c, t) = Some q <->
      exists id info, orders_ e !! id = Some info /\ i_client_id info = c /\
        token_str (i_token info) = t /\ rests e (i_symbol info) (i_side info) id q.
Proof.
  intros Hc. destruct (engine_run_spec cmds Hc) as (e & S & Hr & [Hi _ _] & _).
  exists e. split; [done|]. by apply (view_rests e S).
Qed.

(** ** The responses of one command *)

Section Responses.
Context {B : Type} `{EngineBook B}.
Implicit Types (e : Engine B).

Definition fill_or_cancel (r : ClientResponse) : Prop :=
  match rsp_msg r with RExecuted _ | RCanceled _ => True | _ => False end.

(** The effect of a step that sends only fills and cancels and leaves tokens
    and references alone. *)
Record quiet e e' : Prop := {
  qt_responses : exists rs, to_gateway_ e' = to_gateway_ e ++ rs /\ Forall fill_or_cancel rs;
  qt_used : used_tokens_ e' = used_tokens_ e;
  qt_next : next_ref_ e' = next_ref_ e }.

#[local] Instance quiet_refl : Reflexive quiet.
Proof. intros e. split; [|done|done]. exists []. by rewrite app_nil_r. Qed.

#[local] Instance quiet_trans : Transitive quiet.
Proof.
  intros e1 e2 e3 [(rs1 & H1 & F1) U1 N1] [(rs2 & H2 & F2) U2 N2]. split; [|congruence|congruence].
  exists (rs1 ++ rs2). rewrite H2, H1, <- app_assoc. split; [done|]. by apply Forall_app.
Qed.

Lemma quiet_silent e e' :
  to_gateway_ e' = to_gateway_ e -> used_tokens_ e' = used_tokens_ e ->
  next_ref_ e' = next_ref_ e -> quiet e e'.
Proof. intros Hg Hu Hn. split; [|done|done]. exists []. by rewrite app_nil_r, Hg. Qed.

Lemma quiet_push c m e : fill_or_cancel (mkResponse c m) -> quiet e (push_gateway c m e).
Proof. intros Hf. split; [|done|done]. exists [mkResponse c m]. split; [done|]. by constructor. Qed.

Lemma reduce_open_quiet id n e : quiet e (reduce_open id n e).
Proof.
  apply quiet_silent; unfold reduce_open; cbv zeta; by repeat case_match.
Qed.

Lemma notify_quiet id l x e : quiet e (notify id l x e).
Proof. unfold notify. destruct (orders_ e !! id); [by apply quiet_push|done]. Qed.

Lemma on_event_quiet e ev : quiet e (on_event e ev).
Proof.
  destruct ev as [x|x|x|x]; cbn [on_event]; [by apply quiet_silent| | |by apply quiet_silent].
  - unfold handle_executed. cbv zeta. etrans; [|apply reduce_open_quiet].
    etrans; [|apply reduce_open_quiet]. etrans; [|apply notify_quiet].
    etrans; [|apply notify_quiet]. by apply quiet_silent.
  - unfold handle_canceled. cbv zeta. set (e0 := push_feed _ e).
    set (e1 := if negb (suppress_ouch_cancel_ e0) then _ else _).
    assert (quiet e e1) as Q1.
    { trans e0; [by apply quiet_silent|]. unfold e1. destruct (negb _); [|done].
      destruct (orders_ e0 !! ca_id x); [by apply quiet_push|done]. }
    destruct (ca_removed x); [etrans; [exact Q1|apply reduce_open_quiet]|].
    destruct (orders_ e1 !! ca_id x); [|done]. etrans; [exact Q1|by apply quiet_silent].
Qed.

Lemma on_events_quiet evs : forall e, quiet e (fold_left on_event evs e).
Proof.
  induction evs as [|ev evs IH]; intros e; cbn [fold_left]; [done|].
  etrans; [apply on_event_quiet|apply IH].
Qed.

Lemma call_book_quiet {R} sym (op : B -> option (R * B)) b e r e' :
  call_book sym op b e = Some (r, e') -> quiet e e'.
Proof.
  unfold call_book. intros ([r0 b'] & _ & [= <- <-])%bind_Some.
  etrans; [|apply on_events_quiet]. by apply quiet_silent.
Qed.

Lemma cancel_unrested_quiet c ref tok q reason e : quiet e (cancel_unrested c ref tok q reason e).
Proof.
  unfold cancel_unrested. cbv zeta.
  etrans; [by apply (quiet_push c (RCanceled (Ouch.mkCanceled (now_ e) tok q reason)))|].
  by apply quiet_silent.
Qed.

Lemma book_for_quiet sym e b e' : book_for sym e = Some (b, e') -> quiet e e'.
Proof.
  unfold book_for. destruct (books_ e !! sym); [by intros [= <- <-]|].
  intros (b0 & _ & [= <- <-])%bind_Some. by apply quiet_silent.
Qed.

Lemma trade_quiet c ref m b e e' : trade c ref m b e = Some e' -> quiet e e'.
Proof.
  unfold trade. cbv zeta. intros ([enough b1] & _ & Hr)%bind_Some.
  set (e1 := set_books _ e) in Hr. trans e1; [by apply quiet_silent|]. clearbody e1.
  destruct enough; cbn [negb] in Hr; [|injection Hr as <-; apply cancel_unrested_quiet].
  destruct (is_ioc m).
  - apply bind_Some in Hr as ([filled e2] & Hc & Hr). injection Hr as <-.
    etrans; [by eapply call_book_quiet|]. destruct (0 <? _); [apply cancel_unrested_quiet|done].
  - apply bind_Some in Hr as ([x e2] & Hc & Hr). injection Hr as <-. by eapply call_book_quiet.
Qed.

(** The reason an order entry is refused for, in the order of the checks. *)
Definition refusal (used : bool) (m : Ouch.EnterOrder) : option Z :=
  if used then Some (chr "T")
  else if negb (Ouch.eo_price m =? Ouch.kMarketPrice) && (Ouch.eo_price m <=? 0) then Some (chr "X")
  else if Ouch.eo_shares m =? 0 then Some (chr "Z")
  else match Ouch.eo_side m with Buy | Sell => None | RawSide _ => Some (chr "S") end.

Lemma handle_enter_responses client m e e' :
  handle_enter client m e = Some e' ->
  match refusal (token_used client (Ouch.eo_token m) e) m with
  | Some reason =>
      e' = push_gateway client (RRejected (Ouch.mkRejected (now_ e) (Ouch.eo_token m) reason)) e
  | None =>
      exists rs, to_gateway_ e' = to_gateway_ e ++
          mkResponse client (RAccepted (accepted_of m (now_ e) (next_ref_ e))) :: rs /\
        Forall fill_or_cancel rs /\
        used_tokens_ e' = {[(client, token_str (Ouch.eo_token m))]} ∪ used_tokens_ e /\
        next_ref_ e' = u64 (next_ref_ e + 1)
  end.
Proof.
  unfold handle_enter, refusal. cbv zeta.
  destruct (token_used client (Ouch.eo_token m) e); [by intros [= <-]|].
  destruct (negb _ && _); [by intros [= <-]|].
  destruct (Ouch.eo_shares m =? 0); [by intros [= <-]|].
  destruct (Ouch.eo_side m) eqn:Hs; cbn [bool_decide andb]; [| |by intros [= <-]];
    (intros ([b e1] & Hb & Ht)%bind_Some; apply book_for_quiet in Hb; apply trade_quiet in Ht;
     pose proof (transitivity Hb Ht) as [(rs & Hg & Hf) Hu Hn];
     exists rs; split_and!; [|done|by rewrite Hu|by rewrite Hn]; rewrite Hg; cbn [to_gateway_ push_gateway];
     rewrite <- app_assoc; done).
Qed.

Lemma handle_cancel_quiet client m e e' : handle_cancel client m e = Some e' -> quiet e e'.
Proof.
  unfold handle_cancel. destruct (live_tokens_ e !! _) as [ref|]; [|by intros [= <-]].
  destruct (orders_ e !! ref) as [info|]; [|by intros [= <-]]. cbv zeta.
  intros ([b e1] & Hb & ([x e2] & Hc & [= <-])%bind_Some)%bind_Some.
  apply book_for_quiet in Hb. apply call_book_quiet in Hc. etrans; [|exact Hc].
  etrans; [|exact Hb]. by apply quiet_silent.
Qed.

Lemma handle_replace_responses client m e e' :
  handle_replace client m e = Some e' ->
  e' = e \/
  exists old info rs, live_tokens_ e !! (client, token_str (Ouch.ro_existing_token m)) = Some old /\
    orders_ e !! old = Some info /\
    token_used client (Ouch.ro_replacement_token m) e = false /\
    to_gateway_ e' = to_gateway_ e ++
      mkResponse client (RReplaced (replaced_of m info (now_ e) (next_ref_ e))) :: rs /\
    Forall fill_or_cancel rs /\
    used_tokens_ e' = {[(client, token_str (Ouch.ro_replacement_token m))]} ∪ used_tokens_ e /\
    next_ref_ e' = u64 (next_ref_ e + 1).
Proof.
  unfold handle_replace. destruct (live_tokens_ e !! _) as [old|] eqn:Hl; [|intros [= <-]; by left].
  destruct (token_used _ _ _) eqn:Hu; [intros [= <-]; by left|].
  destruct (_ || _); [intros [= <-]; by left|].
  destruct (orders_ e !! old) as [info|] eqn:Ho; [|intros [= <-]; by left]. cbv zeta.
  intros ([b e1] & Hb & ([x e2] & Hc & [= <-])%bind_Some)%bind_Some. right.
  apply book_for_quiet in Hb. apply call_book_quiet in Hc.
  pose proof (transitivity Hb Hc) as [(rs & Hg & Hf) Hus Hn].
  exists old, info, rs. split_and!; [done..| |done|exact Hus|exact Hn].
  cbn [to_gateway_ set_suppress]. rewrite Hg.
  change (to_gateway_ (swap_order client m old info e)) with (to_gateway_ e ++ [mkResponse client
    (RReplaced (replaced_of m info (now_ e) (next_ref_ e)))]). by rewrite <- app_assoc.
Qed.

End Responses.

(** ** Tokens and references *)

(** The client, token and order reference that an Accepted or Replaced response
    acknowledges. *)
Definition acknowledges (r : ClientResponse) : option ((Z * bytes) * OrderId) :=
  match rsp_msg r with
  | RAccepted m =>
      Some ((rsp_client_id r, token_str (Ouch.ac_token m)), Ouch.ac_order_ref m)
  | RReplaced m =>
      Some ((rsp_client_id r, token_str (Ouch.rp_replacement_token m)), Ouch.rp_order_ref m)
  | _ => None
  end.

Definition acks (rs : list ClientResponse) : list ((Z * bytes) * OrderId) := omap acknowledges rs.

Lemma acks_app rs rs' : acks (rs ++ rs') = acks rs ++ acks rs'.
Proof. apply omap_app. Qed.

Lemma acks_fills rs : Forall fill_or_cancel rs -> acks rs = [].
Proof.
  induction 1 as [|[c m] rs Hr _ IH]; [done|]. unfold acks in *. cbn. by destruct m.
Qed.

Section Acks.
Context {B : Type} `{EngineBook B}.
Implicit Types (e : Engine B).

Record ack_inv e : Prop := {
  ai_tokens : NoDup (acks (to_gateway_ e)).*1;
  ai_used : forall k, k ∈ (acks (to_gateway_ e)).*1 -> k ∈ used_tokens_ e;
  ai_refs : (acks (to_gateway_ e)).*2 = seqZ 1 (next_ref_ e - 1);
  ai_next : 1 <= next_ref_ e }.

(** One more acknowledgement. *)
Lemma ack_inv_snoc e e' c m tok rs :
  ack_inv e -> next_ref_ e + 1 < 2 ^ 64 ->
  acknowledges (mkResponse c m) = Some ((c, token_str tok), next_ref_ e) ->
  token_used c tok e = false ->
  to_gateway_ e' = to_gateway_ e ++ mkResponse c m :: rs -> Forall fill_or_cancel rs ->
  used_tokens_ e' = {[(c, token_str tok)]} ∪ used_tokens_ e ->
  next_ref_ e' = u64 (next_ref_ e + 1) -> ack_inv e'.
Proof.
  intros [Ht Hu Hr Hn] Hb Ha Hf Hg Hfc Hus Hnx. apply bool_decide_eq_false in Hf.
  rewrite (wrap_small 64) in Hnx by (unfold fits; lia).
  assert (acks (to_gateway_ e') = acks (to_gateway_ e) ++ [((c, token_str tok), next_ref_ e)]) as Hac.
  { rewrite Hg, acks_app. f_equal. unfold acks. cbn [omap list_omap]. rewrite Ha.
    f_equal. by apply acks_fills. }
  split; rewrite ?Hac, ?fmap_app, ?Hus, ?Hnx; cbn [fmap list_fmap fst snd].
  - apply NoDup_app. split_and!; [done| |apply NoDup_singleton].
    intros k Hk ->%list_elem_of_singleton. by apply Hf, Hu.
  - intros k [Hk| ->%list_elem_of_singleton]%elem_of_app; [|set_solver]. apply Hu in Hk. set_solver.
  - rewrite Hr. replace (next_ref_ e + 1 - 1) with ((next_ref_ e - 1) + 1) by lia.
    rewrite seqZ_app by lia. f_equal. rewrite seqZ_cons by lia. f_equal. lia.
  - lia.
Qed.

Lemma ack_inv_quiet e e' : quiet e e' -> ack_inv e -> ack_inv e'.
Proof.
  intros [(rs & Hg & Hf) Hu Hn] [H1 H2 H3 H4].
  assert (acks (to_gateway_ e') = acks (to_gateway_ e)) as Hac.
  { rewrite Hg, acks_app, (acks_fills rs) by done. by rewrite app_nil_r. }
  split; by rewrite ?Hac, ?Hu, ?Hn.
Qed.

Lemma process_ack_inv now cmd e e' :
  process now cmd e = Some e' -> next_ref_ e + 1 < 2 ^ 64 -> ack_inv e ->
  ack_inv e' /\ next_ref_ e' <= next_ref_ e + 1.
Proof.
  intros Hp Hb Hi. unfold process in Hp. destruct cmd as [c m]. cbn [cmd_client_id cmd_msg] in Hp.
  assert (ack_inv (set_now now e)) as Hi0 by (destruct Hi; by split).
  pose proof (ai_next _ Hi) as Hn1. destruct m as [m|m|m]; cbn [handle] in Hp.
  - apply handle_enter_responses in Hp. destruct (refusal _ m) as [reason|] eqn:Hr.
    + subst e'. split; [|cbn; lia]. destruct Hi as [H1 H2 H3 H4].
      split; cbn [to_gateway_ push_gateway set_now used_tokens_ next_ref_];
        rewrite ?acks_app; cbn; rewrite ?app_nil_r; done.
    + destruct Hp as (rs & Hg & Hf & Hu & Hn). split; [|rewrite Hn, (wrap_small 64) by (unfold fits; cbn; lia); cbn; lia].
      eapply (ack_inv_snoc (set_now now e)); [done|done| | |exact Hg|done|exact Hu|exact Hn]; [done|].
      unfold refusal in Hr. by destruct (token_used c (Ouch.eo_token m) (set_now now e)).
  - apply handle_cancel_quiet in Hp. split; [by eapply ack_inv_quiet|]. rewrite (qt_next _ _ Hp). cbn. lia.
  - apply handle_replace_responses in Hp as [->|(old & info & rs & _ & _ & Hf & Hg & Hfc & Hu & Hn)].
    + split; [done|]. cbn. lia.
    + split; [|rewrite Hn, (wrap_small 64) by (unfold fits; cbn; lia); cbn; lia].
      eapply (ack_inv_snoc (set_now now e)); [done|done| |exact Hf|exact Hg|done|exact Hu|exact Hn]; done.
Qed.

Lemma process_all_ack_inv cmds : forall e e',
  process_all cmds e = Some e' -> next_ref_ e + lengthZ cmds < 2 ^ 64 -> ack_inv e -> ack_inv e'.
Proof.
  induction cmds as [|[now cmd] cmds IH]; intros e e'; cbn [process_all]; [by intros [= <-]|].
  intros (e1 & Hp & Hr)%bind_Some Hb Hi.
  assert (lengthZ ((now, cmd) :: cmds) = lengthZ cmds + 1) as Hl
    by (unfold lengthZ; cbn [length]; lia).
  pose proof (lengthZ_nonneg cmds).
  destruct (process_ack_inv now cmd e e1 Hp) as [Hi1 Hn]; [lia|done|]. apply (IH e1); [done|lia|done].
Qed.
End Acks.

(** ** Acknowledgements come first *)

(** The client and token that an Executed or Canceled response is about. *)
Definition settles (r : ClientResponse) : option (Z * bytes) :=
  match rsp_msg r with
  | RExecuted m => Some (rsp_client_id r, token_str (Ouch.xc_token m))
  | RCanceled m => Some (rsp_client_id r, token_str (Ouch.cn_token m))
  | _ => None
  end.

(** Every Executed and Canceled response comes after an Accepted or Replaced
    response for the same client and token. *)
Definition acked_first (rs : list ClientResponse) : Prop :=
  forall pre r post k, rs = pre ++ r :: post -> settles r = Some k -> k ∈ (acks pre).*1.

Lemma acked_first_snoc rs r :
  acked_first rs -> (forall k, settles r = Some k -> k ∈ (acks rs).*1) -> acked_first (rs ++ [r]).
Proof.
  intros Hrs Hr pre x post k Heq Hk. destruct post as [|y post _] using rev_ind.
  - apply app_inj_tail in Heq as [-> ->]. by apply Hr.
  - rewrite app_comm_cons, app_assoc in Heq. apply app_inj_tail in Heq as [-> _]. by eapply Hrs.
Qed.

Section Order.
Context {B : Type} `{EngineBook B}.
Implicit Types (e : Engine B).

(** The order table holds acknowledged orders only. *)
Record order_inv e : Prop := {
  or_table : forall id info, orders_ e !! id = Some info -> key_of info ∈ (acks (to_gateway_ e)).*1;
  or_first : acked_first (to_gateway_ e) }.

(** A step that respects the order and forgets no acknowledgement. *)
Definition orderly e e' : Prop :=
  order_inv e -> order_inv e' /\ (acks (to_gateway_ e)).*1 ⊆ (acks (to_gateway_ e')).*1.

#[local] Instance orderly_refl : Reflexive orderly.
Proof. intros e He. by split. Qed.

#[local] Instance orderly_trans : Transitive orderly.
Proof. intros e1 e2 e3 H1 H2 He. destruct (H1 He) as [He2 S1]. destruct (H2 He2) as [He3 S2]. set_solver. Qed.

Lemma orderly_silent e e' :
  to_gateway_ e' = to_gateway_ e ->
  (forall id info, orders_ e' !! id = Some info ->
     exists id' info', orders_ e !! id' = Some info' /\ key_of info' = key_of info) ->
  orderly e e'.
Proof.
  intros Hg Ho [Ht Hf]. rewrite Hg. split; [|done]. split; rewrite Hg; [|done].
  intros id info Hi. destruct (Ho id info Hi) as (id' & info' & Hi' & <-). by eapply Ht.
Qed.

Lemma orderly_push c m e :
  (order_inv e -> forall k, settles (mkResponse c m) = Some k -> k ∈ (acks (to_gateway_ e)).*1) ->
  orderly e (push_gateway c m e).
Proof.
  intros Hk He. specialize (Hk He). destruct He as [Ht Hf].
  assert ((acks (to_gateway_ e)).*1 ⊆ (acks (to_gateway_ (push_gateway c m e))).*1) as Hs.
  { cbn [to_gateway_ push_gateway]. rewrite acks_app, fmap_app. set_solver. }
  split; [|done]. split; [|by apply acked_first_snoc].
  intros id info Hi. apply Hs. by eapply Ht.
Qed.

(** A response about an order of the table. *)
Lemma orderly_push_entry id info c m e :
  orders_ e !! id = Some info -> settles (mkResponse c m) = Some (key_of info) ->
  orderly e (push_gateway c m e).
Proof.
  intros Hi Hk. apply orderly_push. intros He k. rewrite Hk. intros [= <-]. by eapply or_table.
Qed.

Lemma set_open_orderly id info q e :
  orders_ e !! id = Some info -> orderly e (set_orders (<[id := set_open q info]> (orders_ e)) e).
Proof.
  intros Hi. apply orderly_silent; [done|]. cbn [orders_ set_orders]. intros j i.
  intros [[<- <-]|[_ Hj]]%lookup_insert_Some; eauto.
Qed.

Lemma reduce_open_orderly id n e : orderly e (reduce_open id n e).
Proof.
  unfold reduce_open. destruct (orders_ e !! id) as [info|] eqn:Hi; [|done]. cbv zeta.
  etrans; [by apply (set_open_orderly id info (u32 (i_open info - n)))|].
  destruct (_ =? 0); [|done]. apply orderly_silent; [done|]. cbn [orders_ set_orders set_live].
  intros j i [_ Hj]%lookup_delete_Some. eauto.
Qed.

Lemma notify_orderly id l x e : orderly e (notify id l x e).
Proof.
  unfold notify. destruct (orders_ e !! id) as [info|] eqn:Hi; [|done].
  by eapply orderly_push_entry.
Qed.

Lemma push_feed_orderly ev e : orderly e (push_feed ev e).
Proof. apply orderly_silent; [done|]. cbn. eauto. Qed.

Lemma on_event_orderly e ev : orderly e (on_event e ev).
Proof.
  destruct ev as [x|x|x|x]; cbn [on_event]; [apply push_feed_orderly| | |apply push_feed_orderly].
  - unfold handle_executed. cbv zeta. etrans; [|apply reduce_open_orderly].
    etrans; [|apply reduce_open_orderly]. etrans; [|apply notify_orderly].
    etrans; [|apply notify_orderly]. apply push_feed_orderly.
  - unfold handle_canceled. cbv zeta. set (e0 := push_feed _ e).
    set (e1 := if negb (suppress_ouch_cancel_ e0) then _ else _).
    assert (orderly e e1) as Q1.
    { trans e0; [apply push_feed_orderly|]. unfold e1. destruct (negb _); [|done].
      destruct (orders_ e0 !! ca_id x) as [info|] eqn:Hi; [|done]. by eapply orderly_push_entry. }
    etrans; [exact Q1|]. destruct (ca_removed x); [apply reduce_open_orderly|].
    destruct (orders_ e1 !! ca_id x) eqn:Hi; [|done]. by apply set_open_orderly.
Qed.

Lemma on_events_orderly evs : forall e, orderly e (fold_left on_event evs e).
Proof.
  induction evs as [|ev evs IH]; intros e; cbn [fold_left]; [done|].
  etrans; [apply on_event_orderly|apply IH].
Qed.

Lemma call_book_orderly {R} sym (op : B -> option (R * B)) b e r e' :
  call_book sym op b e = Some (r, e') -> orderly e e'.
Proof.
  unfold call_book. intros ([r0 b'] & _ & [= <- <-])%bind_Some.
  etrans; [|apply on_events_orderly]. apply orderly_silent; [done|]. cbn. eauto.
Qed.

Lemma book_for_orderly sym e b e' : book_for sym e = Some (b, e') -> orderly e e'.
Proof.
  unfold book_for. destruct (books_ e !! sym); [by intros [= <- <-]|].
  intros (b0 & _ & [= <- <-])%bind_Some. apply orderly_silent; [done|]. cbn. eauto.
Qed.

Lemma cancel_unrested_orderly c ref tok q reason e :
  (c, token_str tok) ∈ (acks (to_gateway_ e)).*1 ->
  orderly e (cancel_unrested c ref tok q reason e).
Proof.
  intros Hk. unfold cancel_unrested. cbv zeta.
  etrans; [apply (orderly_push c (RCanceled (Ouch.mkCanceled (now_ e) tok q reason)))|].
  { intros _ k [= <-]. exact Hk. }
  apply orderly_silent; [done|]. cbn. intros j i [_ Hj]%lookup_delete_Some. eauto.
Qed.

Lemma trade_orderly c ref m b e e' :
  trade c ref m b e = Some e' -> (c, token_str (Ouch.eo_token m)) ∈ (acks (to_gateway_ e)).*1 ->
  orderly e e'.
Proof.
  unfold trade. cbv zeta. intros ([enough b1] & _ & Hr)%bind_Some Hk.
  set (e1 := set_books _ e) in Hr. change (to_gateway_ e) with (to_gateway_ e1) in Hk.
  trans e1; [apply orderly_silent; [done|]; cbn; eauto|]. clearbody e1.
  destruct enough; cbn [negb] in Hr; [|injection Hr as <-; by apply cancel_unrested_orderly].
  destruct (is_ioc m).
  - apply bind_Some in Hr as ([filled e2] & Hc & Hr). injection Hr as <-.
    apply call_book_orderly in Hc. intros He. destruct (Hc He) as [He2 Hs].
    destruct (0 <? _); [|done].
    destruct (cancel_unrested_orderly c ref (Ouch.eo_token m) (u32 (Ouch.eo_shares m - filled)) (chr "I") e2
      (Hs _ Hk) He2) as [He3 Hs3]. split; [exact He3|set_solver].
  - apply bind_Some in Hr as ([x e2] & Hc & Hr). injection Hr as <-. by eapply call_book_orderly.
Qed.

(** Entering an order in the table together with its acknowledgement. *)
Lemma orderly_ack e e' c m key id info :
  to_gateway_ e' = to_gateway_ e ++ [mkResponse c m] -> settles (mkResponse c m) = None ->
  acknowledges (mkResponse c m) = Some (key, id) -> key_of info = key ->
  (forall j i, orders_ e' !! j = Some i -> i = info \/ exists j', orders_ e !! j' = Some i) ->
  orderly e e' /\ key ∈ (acks (to_gateway_ e')).*1.
Proof.
  intros Hg Hs Ha Hkey Ho.
  assert (acks (to_gateway_ e') = acks (to_gateway_ e) ++ [(key, id)]) as Hac.
  { rewrite Hg, acks_app. f_equal. unfold acks. cbn [omap list_omap]. by rewrite Ha. }
  assert (key ∈ (acks (to_gateway_ e')).*1) as Hin by (rewrite Hac, fmap_app; cbn; set_solver).
  split; [|done]. intros [Ht Hf].
  assert ((acks (to_gateway_ e)).*1 ⊆ (acks (to_gateway_ e')).*1) as Hsub
    by (rewrite Hac, fmap_app; set_solver).
  split; [|done]. split.
  - intros j i Hj. destruct (Ho j i Hj) as [->|(j' & Hj')]; [by rewrite Hkey|]. apply Hsub. by eapply Ht.
  - rewrite Hg. apply acked_first_snoc; [done|]. by rewrite Hs.
Qed.

Lemma handle_enter_orderly c m e e' : handle_enter c m e = Some e' -> orderly e e'.
Proof.
  unfold handle_enter. cbv zeta.
  assert (forall reason, orderly e (reject c (Ouch.eo_token m) reason e)) as Hrej
    by (intros reason; apply orderly_push; done).
  destruct (token_used _ _ e); [intros [= <-]; apply Hrej|].
  destruct (negb _ && _); [intros [= <-]; apply Hrej|].
  destruct (_ =? 0); [intros [= <-]; apply Hrej|].
  destruct (_ && _); [intros [= <-]; apply Hrej|].
  match goal with |- (_ ← book_for _ ?x; _) = _ -> _ => set (e1 := x) end.
  intros ([b e2] & Hb & Ht)%bind_Some.
  destruct (orderly_ack e e1 c (RAccepted (accepted_of m (now_ e) (next_ref_ e)))
    (c, token_str (Ouch.eo_token m)) (next_ref_ e)
    (mkInfo c (Ouch.eo_token m) (Ouch.eo_stock m) (Ouch.eo_side m) (Ouch.eo_shares m)))
    as [H1 Hk]; [done..| |].
  { cbn. intros j i [[_ <-]|[_ Hj]]%lookup_insert_Some; eauto. }
  apply book_for_orderly in Hb. intros He. destruct (H1 He) as [He1 S1]. destruct (Hb He1) as [He2 S2].
  destruct (trade_orderly _ _ _ _ _ _ Ht (S2 _ Hk) He2) as [He3 S3]. split; [done|set_solver].
Qed.

Lemma handle_cancel_orderly c m e e' : handle_cancel c m e = Some e' -> orderly e e'.
Proof.
  unfold handle_cancel. destruct (live_tokens_ e !! _) as [ref|]; [|by intros [= <-]].
  destruct (orders_ e !! ref) as [info|]; [|by intros [= <-]]. cbv zeta.
  intros ([b e1] & Hb & ([x e2] & Hc & [= <-])%bind_Some)%bind_Some.
  apply book_for_orderly in Hb. apply call_book_orderly in Hc. etrans; [|exact Hc].
  etrans; [|exact Hb]. apply orderly_silent; [done|]. cbn. eauto.
Qed.

Lemma handle_replace_orderly c m e e' : handle_replace c m e = Some e' -> orderly e e'.
Proof.
  unfold handle_replace. destruct (live_tokens_ e !! _) as [old|] eqn:Hl; [|by intros [= <-]].
  destruct (token_used _ _ _); [by intros [= <-]|].
  destruct (_ || _); [by intros [= <-]|].
  destruct (orders_ e !! old) as [info|] eqn:Ho; [|by intros [= <-]]. cbv zeta.
  intros ([b e1] & Hb & ([x e2] & Hc & [= <-])%bind_Some)%bind_Some.
  apply book_for_orderly in Hb. apply call_book_orderly in Hc.
  destruct (orderly_ack e (swap_order c m old info e) c (RReplaced (replaced_of m info (now_ e) (next_ref_ e)))
    (c, token_str (Ouch.ro_replacement_token m)) (next_ref_ e)
    (mkInfo c (Ouch.ro_replacement_token m) (i_symbol info) (i_side info) (Ouch.ro_shares m)))
    as [H1 _]; [done..| |].
  { cbn. intros j i [[_ <-]|[_ Hj]]%lookup_insert_Some; [by left|right].
    apply lookup_delete_Some in Hj as [_ Hj]. eauto. }
  etrans; [exact H1|]. etrans; [exact Hb|]. etrans; [exact Hc|].
  apply orderly_silent; [done|]. cbn. eauto.
Qed.

Lemma process_all_orderly cmds : forall e e', process_all cmds e = Some e' -> orderly e e'.
Proof.
  induction cmds as [|[now [c m]] cmds IH]; intros e e'; cbn [process_all]; [by intros [= <-]|].
  intros (e1 & Hp & Hr)%bind_Some. etrans; [|by apply IH].
  unfold process in Hp. cbn [cmd_client_id cmd_msg] in Hp.
  trans (set_now now e); [apply orderly_silent; [done|]; cbn; eauto|].
  destruct m as [m|m|m]; cbn [handle] in Hp.
  - by apply (handle_enter_orderly c m).
  - by apply (handle_cancel_orderly c m).
  - by apply (handle_replace_orderly c m).
Qed.
End Order.

(** C22: tokens and references are given out once. Over a whole session no two
    Accepted or Replaced responses acknowledge the same token of the same
    client, and the order references they carry are 1, 2, 3, ... without a
    gap. *)
Theorem tokens_acknowledged_once cmds :
  session_ok cmds ->
  exists e, engine_run cmds = Some e /\ NoDup (acks (to_gateway_ e)).*1 /\
    (acks (to_gateway_ e)).*2 = seqZ 1 (next_ref_ e - 1).
Proof.
  intros Hc. destruct (engine_run_spec cmds Hc) as (e & S & Hr & _).
  destruct (process_all_ack_inv cmds (@init Fast) e Hr) as [H1 _ H3 _].
  - destruct Hc as [_ Hc]. cbn. lia.
  - split; cbn; [constructor|set_solver|done|lia].
  - by exists e.
Qed.

Lemma process_all_app {B} `{EngineBook B} cmds cmds' : forall (e : Engine B),
  process_all (cmds ++ cmds') e = (e ← process_all cmds e; process_all cmds' e).
Proof.
  induction cmds as [|[now cmd] cmds IH]; intros e; cbn [app process_all]; [done|].
  destruct (process now cmd e); [|done]. rewrite !obind_Some. apply IH.
Qed.

(** One more command of a session. *)
Lemma session_snoc cmds now cmd :
  session_ok (cmds ++ [(now, cmd)]) ->
  exists e S e', engine_run cmds = Some e /\ engine_run (cmds ++ [(now, cmd)]) = Some e' /\
    process now cmd e = Some e' /\ inv e S /\ has_room e /\ command_ok cmd.
Proof.
  intros [Hok Hn]. apply Forall_app in Hok as [Hok Hc]. apply Forall_cons in Hc as [Hc _]. cbn in Hc.
  assert (lengthZ (cmds ++ [(now, cmd)]) = lengthZ cmds + 1) as Hl by (rewrite lengthZ_app; done).
  destruct (engine_run_spec cmds) as (e & S & Hr & Hi & _ & _ & Hnx & _); [split; [done|lia]|].
  destruct (engine_run_spec (cmds ++ [(now, cmd)])) as (e' & _ & Hr' & _);
    [split; [apply Forall_app; by repeat constructor|lia]|].
  exists e, S, e'. split; [exact Hr|]. split; [exact Hr'|]. split; [|split; [apply Hi|split; [|done]]].
  - unfold engine_run in Hr, Hr'. rewrite process_all_app, Hr, obind_Some in Hr'. cbn [process_all] in Hr'.
    by apply bind_Some in Hr' as (e1 & Hp & [= <-]).
  - unfold has_room. cbn [eb_capacity default_book_laws fast_engine_book_laws]. unfold FastBook.kNil. lia.
Qed.

(** C21: response order. For every session and every next command, the command
    is processed, and in the whole stream of responses every Executed and
    Canceled response comes after the Accepted or Replaced response that
    acknowledged its client and token. An order entry is refused for the first
    of the four reasons that applies, and then nothing but that one Rejected
    response changes; otherwise its Accepted response comes first and only
    fills and cancels follow. A replace is ignored, or its Replaced response
    comes first and only fills and cancels follow. A cancel down to fewer
    shares than the client's order has open is answered to that client with
    exactly one Canceled response, of the difference; any other cancel sends
    nothing. *)
Theorem acknowledged_before_filled cmds now client msg :
  session_ok (cmds ++ [(now, mkCommand client msg)]) ->
  exists e e', engine_run cmds = Some e /\
    engine_run (cmds ++ [(now, mkCommand client msg)]) = Some e' /\
    acked_first (to_gateway_ e') /\
    match msg with
    | CEnter m =>
        match refusal (token_used client (Ouch.eo_token m) e) m with
        | Some reason =>
            e' = push_gateway client (RRejected (Ouch.mkRejected now (Ouch.eo_token m) reason))
                   (set_now now e)
        | None =>
            exists rs, to_gateway_ e' = to_gateway_ e ++
                mkResponse client (RAccepted (accepted_of m now (next_ref_ e))) :: rs /\
              Forall fill_or_cancel rs
        end
    | CCancel m =>
        exists rs, to_gateway_ e' = to_gateway_ e ++ rs /\
          match view (to_gateway_ e) !! (client, token_str (Ouch.co_token m)) with
          | Some open =>
              if Ouch.co_shares m <? open then
                exists tok, token_str tok = token_str (Ouch.co_token m) /\
                  rs = [mkResponse client (RCanceled (Ouch.mkCanceled now tok
                          (open - Ouch.co_shares m) (chr "U")))]
              else rs = []
          | None => rs = []
          end
    | CReplace m =>
        e' = set_now now e \/
        exists info rs, to_gateway_ e' = to_gateway_ e ++
            mkResponse client (RReplaced (replaced_of m info now (next_ref_ e))) :: rs /\
          Forall fill_or_cancel rs
    end.
Proof.
  intros Hok. destruct (session_snoc cmds now (mkCommand client msg) Hok)
    as (e & S & e' & Hr & Hr' & Hp & Hi & Hroom & Hcmd).
  exists e, e'. split; [exact Hr|]. split; [exact Hr'|]. split.
  { apply (process_all_orderly _ _ _ Hr'). split; [|by intros [|? ?] ? ? ? [=]].
    intros id info. cbn. by rewrite lookup_empty. }
  clear Hr Hr'. unfold process in Hp. cbn [cmd_client_id cmd_msg] in Hp.
  destruct msg as [m|m|m]; cbn [handle] in Hp.
  - apply handle_enter_responses in Hp.
    change (token_used client (Ouch.eo_token m) (set_now now e))
      with (token_used client (Ouch.eo_token m) e) in Hp.
    destruct (refusal _ m); [exact Hp|]. destruct Hp as (rs & Hg & Hf & _). exists rs. by split.
  - apply cancel_ok in Hcmd. assert (inv (set_now now e) S) as Hi0 by by apply (inv_frame e).
    destruct (handle_cancel_replies client m (set_now now e) S Hi0 Hroom Hcmd) as (e2 & rs & Hp2 & Hg & Hrs).
    rewrite Hp in Hp2. injection Hp2 as <-. exists rs. by split.
  - apply handle_replace_responses in Hp as [->|(old & info & rs & _ & _ & _ & Hg & Hf & _)];
      [by left|right]. exists info, rs. by split.
Qed.

(** ** The minimum-quantity gate *)

Section Gate.
Context {B : Type} `{EngineBookLaws B}.
Implicit Types (e : Engine B).

(** The gate of an order that asks for a minimum quantity: [matchable] counts
    the crossing shares modulo 2^32; below the minimum the order is killed,
    otherwise it trades as much as crosses. *)
Lemma trade_gate client ref m b e sp :
  eb_rep b sp -> below eb_capacity sp = true -> ref ∉ Spec.ids sp ->
  valid_side (Ouch.eo_side m) -> 0 < Ouch.eo_shares m < 2 ^ 32 -> fits 32 (Ouch.eo_price m) ->
  Ouch.eo_price m = Ouch.kMarketPrice \/ 0 < Ouch.eo_price m -> 0 < Ouch.eo_min_qty m ->
  let avail := Spec.available (Ouch.eo_side m) (limit_of m) sp in
  exists e', trade client ref m b e = Some e' /\
    if u32 avail <? Ouch.eo_min_qty m then
      to_gateway_ e' = to_gateway_ e ++ [mkResponse client
        (RCanceled (Ouch.mkCanceled (now_ e) (Ouch.eo_token m) (Ouch.eo_shares m) (chr "D")))] /\
      to_feed_ e' = to_feed_ e
    else exists evs,
      to_feed_ e' = to_feed_ e ++ map (mkMarket (now_ e) (current_symbol_ e)) evs /\
      sum_by executed evs = Z.min (Ouch.eo_shares m) avail.
Proof.
  intros Hr Hroom Hid Hs Hq Hp Hpx Hmin avail. unfold trade. cbv zeta.
  replace (0 <? Ouch.eo_min_qty m) with true by lia.
  destruct (eb_matchable_spec (Ouch.eo_side m) (limit_of m) b sp Hr Hs) as (b1 & -> & Hr1 & _).
  rewrite !obind_Some. fold avail. pose proof (eb_rep_wf _ _ Hr) as Hwf.
  destruct (u32 avail <? Ouch.eo_min_qty m); cbn [negb]; [by eexists|].
  set (e1 := set_books _ e). destruct (is_ioc m) eqn:Hioc.
  - destruct (Spec.execute_ioc ref (Ouch.eo_side m) (limit_of m) (Ouch.eo_shares m) sp)
      as [[filled sp'] evs] eqn:Hx.
    destruct (eb_ioc_spec ref (Ouch.eo_side m) (limit_of m) (Ouch.eo_shares m) b1 sp filled sp' evs)
      as (b2 & Hb2 & _ & Hlog); [done|done|unfold fits; lia|done|].
    erewrite call_book_spec by done. rewrite obind_Some.
    set (e2 := set_books _ e1). destruct (on_events_frame evs e2) as [_ Hf].
    eexists. split; [reflexivity|]. exists evs. split.
    + transitivity (to_feed_ (fold_left on_event evs e2)); [by destruct (0 <? _)|exact Hf].
    + unfold Spec.execute_ioc in Hx. destruct (Spec.match_ _ _ _ _ _) as [[sp1 rem] ev] eqn:Hm.
      injection Hx as _ _ <-. apply match_priority in Hm as (-> & _); [|done|lia].
      rewrite allocate_sum by (lia || apply (priority_pos _ _ _ (Spec.wf_levels _ Hwf _))).
      by rewrite <- available_priority.
  - assert (limit_of m = Ouch.eo_price m /\ 0 < Ouch.eo_price m) as [Hlim Hpos].
    { unfold is_ioc in Hioc. apply orb_false_iff in Hioc as [Hmk _]. unfold limit_of. rewrite Hmk.
      apply Z.eqb_neq in Hmk. split; [done|]. by destruct Hpx. }
    destruct (Spec.enter ref (Ouch.eo_side m) (Ouch.eo_price m) (Ouch.eo_shares m) sp)
      as [[sp' rem] evs] eqn:He.
    assert (Spec.add ref (Ouch.eo_side m) (Ouch.eo_price m) (Ouch.eo_shares m) sp
      = (mkAddResult AddOk (Ouch.eo_shares m - rem) rem, sp', evs)) as Hadd.
    { unfold Spec.add. replace (Ouch.eo_price m <=? 0) with false by lia.
      replace (Ouch.eo_shares m =? 0) with false by lia.
      destruct (Spec.contains ref sp) eqn:E; [by apply Spec.contains_spec in E|]. by rewrite He. }
    destruct (eb_step_spec (OpAdd ref (Ouch.eo_side m) (Ouch.eo_price m) (Ouch.eo_shares m)) b1 sp
      (RAdd (mkAddResult AddOk (Ouch.eo_shares m - rem) rem)) sp' evs)
      as (b2 & Hb2 & _ & Hlog); [done|by split; [|unfold fits; lia]|apply Hp|done|cbn; by rewrite Hadd|].
    erewrite call_book_spec by done. rewrite obind_Some.
    set (e2 := set_books _ e1). destruct (on_events_frame evs e2) as [_ Hf].
    eexists. split; [reflexivity|]. exists evs. split; [exact Hf|].
    pose proof (enter_conserves _ _ _ _ _ _ _ _ Hwf (Z.lt_le_incl _ _ (proj1 Hq)) He) as [-> _].
    unfold Spec.enter in He. destruct (Spec.match_ _ _ _ _ _) as [[sp1 r] ev] eqn:Hm.
    apply match_priority in Hm as (_ & -> & _); [|done|lia]. unfold avail. rewrite Hlim.
    destruct (_ =? 0); injection He as _ <- _; lia.
Qed.

Lemma handle_enter_gate client m e S :
  inv e S -> has_room e -> f_ok Ouch.EnterOrder_body m -> 0 < Ouch.eo_min_qty m ->
  refusal (token_used client (Ouch.eo_token m) e) m = None ->
  let avail := Spec.available (Ouch.eo_side m) (limit_of m) (spec_book S (Ouch.eo_stock m)) in
  exists e', handle_enter client m e = Some e' /\
    if u32 avail <? Ouch.eo_min_qty m then
      to_gateway_ e' = to_gateway_ e ++
        [mkResponse client (RAccepted (accepted_of m (now_ e) (next_ref_ e)));
         mkResponse client (RCanceled (Ouch.mkCanceled (now_ e) (Ouch.eo_token m) (Ouch.eo_shares m) (chr "D")))] /\
      to_feed_ e' = to_feed_ e
    else exists evs,
      to_feed_ e' = to_feed_ e ++ map (mkMarket (now_ e) (Ouch.eo_stock m)) evs /\
      sum_by executed evs = Z.min (Ouch.eo_shares m) avail.
Proof.
  intros Hinv Hroom Hm Hmin Href avail. pose proof Hinv as [Hb Hk Ht Hs].
  destruct (enter_ok m Hm) as (Hq & Hp & _). unfold handle_enter. cbv zeta.
  unfold refusal in Href. destruct (token_used client (Ouch.eo_token m) e); [done|].
  destruct (negb _ && _) eqn:Hpx; [done|].
  destruct (Z.eqb_spec (Ouch.eo_shares m) 0) as [|Hq0]; [done|].
  assert (valid_side (Ouch.eo_side m) /\
    bool_decide (Ouch.eo_side m <> Buy) && bool_decide (Ouch.eo_side m <> Sell) = false) as [Hside ->].
  { destruct (Ouch.eo_side m); [split; [by left|done]|split; [by right|done]|done]. }
  set (sym := Ouch.eo_stock m) in *.
  match goal with |- context [book_for _ ?e0] => set (e1 := e0) end.
  destruct (book_for_spec sym e1 S Hb) as (b & -> & Hr). rewrite obind_Some.
  set (e2 := set_books _ e1).
  destruct (trade_gate client (next_ref_ e) m b e2 (spec_book S sym) Hr) as (e' & Htr & He'); try done.
  - apply (inv_room e); try done; [apply Hk|by apply eb_rep_wf in Hr].
  - pose proof (nowhere_next e S Hk Ht sym) as Hn. unfold book_find, spec_book in *.
    destruct (S !! sym) as [sp|]; [|set_solver]. rewrite obind_Some in Hn. by apply Spec.find_order_None.
  - unfold fits in Hq. lia.
  - unfold fits in Hp. apply andb_false_iff in Hpx as [E|E]; [left|right; lia].
    by apply negb_false_iff, Z.eqb_eq in E.
  - exists e'. split; [exact Htr|]. fold avail in He'.
    destruct (u32 avail <? _); [|exact He']. destruct He' as [Hg Hf]. split; [|exact Hf].
    rewrite Hg. cbn [to_gateway_ e2 set_books e1 push_gateway]. by rewrite <- app_assoc.
Qed.
End Gate.

(** C35: the gate of minimum-quantity and fill-or-kill orders, and how it wraps.
    After any session, take an order entry that is not refused and asks for a
    minimum quantity, and count the shares its limit crosses in the snapshot of
    its symbol. The order is killed, with its Accepted and one Canceled
    response for all its shares and nothing published, exactly when that count
    modulo 2^32 is below the minimum. Otherwise at least the minimum is there
    to trade with, and the published executions of the order add up to the
    smaller of its shares and the crossing shares. So the gate never lets an
    order through that then falls short, but it kills an order although its
    minimum is there, whenever 2^32 or more shares cross and the remainder is
    small. *)
Theorem minimum_quantity_gate cmds now client m :
  session_ok (cmds ++ [(now, mkCommand client (CEnter m))]) -> 0 < Ouch.eo_min_qty m ->
  exists e e' sn, engine_run cmds = Some e /\
    engine_run (cmds ++ [(now, mkCommand client (CEnter m))]) = Some e' /\
    book_snapshot (Ouch.eo_stock m) e = Some sn /\
    (refusal (token_used client (Ouch.eo_token m) e) m = None ->
     let avail := snap_available (Ouch.eo_side m) (limit_of m) sn in
     if avail mod 2 ^ 32 <? Ouch.eo_min_qty m then
       to_gateway_ e' = to_gateway_ e ++
         [mkResponse client (RAccepted (accepted_of m now (next_ref_ e)));
          mkResponse client (RCanceled (Ouch.mkCanceled now (Ouch.eo_token m) (Ouch.eo_shares m) (chr "D")))] /\
       to_feed_ e' = to_feed_ e
     else
       Ouch.eo_min_qty m <= avail /\
       exists evs, to_feed_ e' = to_feed_ e ++ map (mkMarket now (Ouch.eo_stock m)) evs /\
         sum_by executed evs = Z.min (Ouch.eo_shares m) avail).
Proof.
  intros Hok Hmin. destruct (session_snoc cmds now (mkCommand client (CEnter m)) Hok)
    as (e & S & e' & Hr & Hr' & Hp & Hi & Hroom & Hcmd).
  exists e, e', (Spec.to_snapshot (spec_book S (Ouch.eo_stock m))). split; [exact Hr|]. split; [exact Hr'|].
  split; [by apply book_snapshot_spec|]. intros Href. rewrite snap_available_spec. cbv zeta.
  assert (inv (set_now now e) S) as Hi0 by by apply (inv_frame e).
  destruct (handle_enter_gate client m (set_now now e) S Hi0 Hroom Hcmd Hmin Href) as (e2 & Hp2 & Hg).
  unfold process in Hp. cbn [cmd_client_id cmd_msg handle] in Hp. rewrite Hp in Hp2. injection Hp2 as <-.
  cbv zeta in Hg. unfold wrap in Hg. destruct (Z.ltb_spec (Spec.available (Ouch.eo_side m) (limit_of m)
    (spec_book S (Ouch.eo_stock m)) mod 2 ^ 32) (Ouch.eo_min_qty m)) as [|Hge]; [exact Hg|].
  split; [|exact Hg].
  pose proof (available_nonneg (Ouch.eo_side m) (limit_of m) _ (spec_book_wf e S (Ouch.eo_stock m) Hi)) as Hnn.
  pose proof (Z.mod_le (Spec.available (Ouch.eo_side m) (limit_of m) (spec_book S (Ouch.eo_stock m)))
    (2 ^ 32) Hnn ltac:(lia)). lia.
Qed.

(** C23: immediate-or-cancel and market orders never rest. After such an order
    is entered, whatever the session so far, no book shows an order under the
    reference it was given. *)
Theorem ioc_never_rests cmds now client m :
  session_ok (cmds ++ [(now, mkCommand client (CEnter m))]) -> is_ioc m = true ->
  exists e e', engine_run cmds = Some e /\
    engine_run (cmds ++ [(now, mkCommand client (CEnter m))]) = Some e' /\
    forall sym s q, valid_side s -> ~ rests e' sym s (next_ref_ e) q.
Proof.
  intros [Hok Hn] Hioc. apply Forall_app in Hok as [Hok1 [Hm _]%Forall_cons].
  rewrite lengthZ_app in Hn. change (lengthZ [_]) with 1 in Hn. pose proof (lengthZ_nonneg cmds).
  assert (session_ok cmds) as Hc by (split; [done|lia]).
  destruct (engine_run_spec cmds Hc) as (e & S & Hr & [Hi _ _] & _ & _ & Hb).
  set (e0 := set_now now e). assert (inv e0 S) as Hi0 by by apply (inv_frame e).
  assert (has_room e0) as Hroom.
  { unfold has_room. cbn [e0 set_now next_ref_ eb_capacity default_book_laws fast_engine_book_laws].
    unfold FastBook.kNil. lia. }
  destruct (handle_enter_spec client m e0 S Hi0 Hroom Hm) as (e' & S' & sym & evs & Hp & Hi' & _ & Hg).
  exists e, e'. split; [done|]. split.
  - unfold engine_run in *. rewrite process_all_app, Hr, obind_Some. cbn [process_all].
    match goal with |- context [process ?t ?c e] =>
      change (process t c e) with (handle_enter client m e0) end. by rewrite Hp.
  - intros s1 s q Hs Hrest. apply (rests_table e' S') in Hrest as (info & Ho & _); [|done|done].
    change (next_ref_ e) with (next_ref_ e0) in Ho. by rewrite Hg in Ho.
Qed.

(** ** A session *)

Definition demo_enter (token : bytes) (side : Side) (shares price tif min_qty : Z)
    : Ouch.EnterOrder :=
  Ouch.mkEnterOrder (make_token token) side shares (make_symbol [65; 65; 80; 76]) price tif
    (replicate 4 32) (chr "Y") (chr "A") (chr "N") min_qty (chr "N") (chr "R").

(** Two resting sells, a buy through both, a replace, a partial cancel and an
    immediate-or-cancel order. *)
Definition demo_commands : list (Z * Command) :=
  [(100, mkCommand 1 (CEnter (demo_enter [97] Sell 100 1500000 99999 0)));
   (200, mkCommand 1 (CEnter (demo_enter [98] Sell 50 1500100 99999 0)));
   (300, mkCommand 2 (CEnter (demo_enter [97] Buy 120 1500100 99999 0)));
   (400, mkCommand 1 (CReplace (Ouch.mkReplaceOrder (make_token [98]) (make_token [99]) 80 1500200
           99999 (chr "Y") (chr "N") 0)));
   (500, mkCommand 1 (CCancel (Ouch.mkCancelOrder (make_token [99]) 60)))].

Definition demo_ioc : Ouch.EnterOrder := demo_enter [105] Buy 500 1500300 0 0.

Ltac concrete_ok :=
  repeat (split || constructor || (unfold fits, is_byte; cbn; lia)).

Lemma demo_session : session_ok (demo_commands ++ [(600, mkCommand 2 (CEnter demo_ioc))]).
Proof.
  split; [|by vm_compute].
  repeat (apply Forall_cons; split);
    [..|apply Forall_nil_2]; unfold command_ok, Ouch.EnterOrder_body, Ouch.ReplaceOrder_body,
      Ouch.CancelOrder_body; cbn [cmd_msg snd]; fmt_simpl; vm_compute; concrete_ok; try done.
Qed.

Lemma demo_commands_ok : session_ok demo_commands.
Proof.
  destruct demo_session as [Hok _]. apply Forall_app in Hok as [Hok _].
  split; [done|by vm_compute].
Qed.

Lemma engine_output_bounded_witness :
  exists e, engine_run demo_commands = Some e /\ lengthZ (to_feed_ e) <= 10 /\ lengthZ (to_gateway_ e) <= 30.
Proof.
  destruct (engine_output_bounded demo_commands demo_commands_ok) as (e & He & Hf & _ & Hg).
  exists e. split; [exact He|]. change (lengthZ demo_commands) with 5 in *. lia.
Defined.

Lemma engine_table_matches_books_witness :
  exists e, engine_run demo_commands = Some e /\ forall k id,
    live_tokens_ e !! k = Some id -> k ∈ used_tokens_ e.
Proof.
  destruct (engine_table_matches_books demo_commands demo_commands_ok) as (e & Hr & _ & _ & _ & Hu).
  exists e. split; [exact Hr|exact Hu].
Defined.

Lemma responses_account_for_orders_witness :
  exists e, engine_run demo_commands = Some e /\
    forall q, view (to_gateway_ e) !! (1, [99]) = Some q <->
      exists id info, orders_ e !! id = Some info /\ i_client_id info = 1 /\
        token_str (i_token info) = [99] /\ rests e (i_symbol info) (i_side info) id q.
Proof.
  destruct (responses_account_for_orders demo_commands demo_commands_ok) as (e & Hr & Hv).
  exists e. split; [exact Hr|]. intros q. exact (Hv 1 [99] q).
Defined.

Lemma tokens_acknowledged_once_witness :
  exists e, engine_run demo_commands = Some e /\ NoDup (acks (to_gateway_ e)).*1.
Proof.
  destruct (tokens_acknowledged_once demo_commands demo_commands_ok) as (e & Hr & Hn & _).
  exists e. split; [exact Hr|exact Hn].
Defined.

Lemma ioc_never_rests_witness :
  exists e e', engine_run demo_commands = Some e /\
    engine_run (demo_commands ++ [(600, mkCommand 2 (CEnter demo_ioc))]) = Some e' /\
    forall sym s q, valid_side s -> ~ rests e' sym s (next_ref_ e) q.
Proof. exact (ioc_never_rests demo_commands 600 2 demo_ioc demo_session eq_refl). Defined.

Lemma acknowledged_before_filled_witness :
  exists e e', engine_run demo_commands = Some e /\
    engine_run (demo_commands ++ [(600, mkCommand 2 (CEnter demo_ioc))]) = Some e' /\
    acked_first (to_gateway_ e').
Proof.
  destruct (acknowledged_before_filled demo_commands 600 2 (CEnter demo_ioc) demo_session)
    as (e & e' & H1 & H2 & H3 & _).
  exists e, e'. split; [exact H1|]. split; [exact H2|exact H3].
Defined.

(** Two resting sells of 2^31 shares each, and a buy that asks for one share. *)
Definition deep_commands : list (Z * Command) :=
  [(100, mkCommand 1 (CEnter (demo_enter [97] Sell 2147483648 1500000 99999 0)));
   (200, mkCommand 1 (CEnter (demo_enter [98] Sell 2147483648 1500000 99999 0)))].

Definition deep_buy : Ouch.EnterOrder := demo_enter [99] Buy 1 1500000 99999 1.

Lemma deep_session : session_ok (deep_commands ++ [(300, mkCommand 2 (CEnter deep_buy))]).
Proof.
  split; [|by vm_compute].
  repeat (apply Forall_cons; split);
    [..|apply Forall_nil_2]; unfold command_ok, Ouch.EnterOrder_body; cbn [cmd_msg snd];
    fmt_simpl; vm_compute; concrete_ok; try done.
Qed.

Lemma minimum_quantity_gate_witness :
  exists e e' sn, engine_run deep_commands = Some e /\
    engine_run (deep_commands ++ [(300, mkCommand 2 (CEnter deep_buy))]) = Some e' /\
    book_snapshot (Ouch.eo_stock deep_buy) e = Some sn.
Proof.
  destruct (minimum_quantity_gate deep_commands 300 2 deep_buy deep_session)
    as (e & e' & sn & H1 & H2 & H3 & _); [vm_compute; reflexivity|].
  exists e, e', sn. split; [exact H1|]. split; [exact H2|exact H3].
Defined.

(** A small book for evaluation. *)
Definition small_book : EngineBook Fast := fast_engine_book (FastBook.mkConfig 100 8 8).

(** The demonstration session, evaluated: what the client with id 1 sees. *)
Example demo_view :
  (e ← @process_all Fast small_book demo_commands (@init Fast);
   Some (view (to_gateway_ e) !! (1, [99]), view (to_gateway_ e) !! (1, [97]),
         length (to_gateway_ e), length (to_feed_ e)))
  = Some (Some 60, None, 9%nat, 6%nat).
Proof. vm_compute. reflexivity. Qed.

(** The wrapped gate, evaluated: 2^32 shares cross, the minimum is one share, and
    the order is accepted and killed. *)
Example deep_order_killed :
  (e ← @process_all Fast small_book (deep_commands ++ [(300, mkCommand 2 (CEnter deep_buy))]) (@init Fast);
   sn ← @book_snapshot Fast small_book (Ouch.eo_stock deep_buy) e;
   Some (snap_available Buy 1500000 sn, drop 2 (to_gateway_ e)))
  = Some (2 ^ 32,
      [mkResponse 2 (RAccepted (accepted_of deep_buy 300 3));
       mkResponse 2 (RCanceled (Ouch.mkCanceled 300 (Ouch.eo_token deep_buy) 1 (chr "D")))]).
Proof. vm_compute. reflexivity. Qed.
