(* ===== verification/Capture.v ===== *)
(** The capture files of [feed/capture.hpp] and [feed/capture.cpp]: the magic
    number, then records of an 8-byte timestamp, a 2-byte length and a
    datagram. A [FILE*] is the list of its bytes: those written so far for the
    writer, those not yet read for the reader; [None] is a null [f_]. *)

From S2P Require Import Prelude Endian BookTypes Wire RawItch.
From Stdlib Require Import Ascii.

Module Capture.

Definition kCaptureMagic : bytes :=
  [chr "N"; chr "S"; chr "Q"; chr "C"; chr "A"; chr "P"; chr "0"; chr "1"].

(** ** Writing *)

Record CaptureWriter := mkWriter { w_f : option bytes }.

(** The constructor; [opened] says whether [fopen] succeeded. *)
Definition open_writer (opened : bool) : CaptureWriter :=
  mkWriter (if opened then Some kCaptureMagic else None).

Definition write (ts_ns : Z) (data : bytes) (w : CaptureWriter) : outcome CaptureWriter :=
  match w_f w with
  | None => Ok w
  | Some f =>
      let hdr := replicate 10 0 in
      hdr ← put_be64 hdr 0 ts_ns;
      hdr ← put_be16 hdr 8 (u16 (lengthZ data));
      Ok (mkWriter (Some (f ++ hdr ++ data)))
  end.

(** ** Reading *)

Record CaptureRecord := mkRecord { ts_ns : Z; r_bytes : bytes }.

Record CaptureReader := mkReader { r_f : option bytes }.

(** The constructor on the file's contents, [None] when [fopen] failed. *)
Definition open_reader (file : option bytes) : CaptureReader :=
  match file with
  | None => mkReader None
  | Some f =>
      let '(magic, f) := RawItch.fread 8 f in
      if negb (length magic =? 8)%nat || negb (bool_decide (magic = kCaptureMagic))
      then mkReader None else mkReader (Some f)
  end.

Definition next (r : CaptureReader) : outcome (option CaptureRecord * CaptureReader) :=
  match r_f r with
  | None => Ok (None, r)
  | Some f =>
      let '(hdr, f) := RawItch.fread 10 f in
      if negb (length hdr =? 10)%nat then Ok (None, mkReader (Some f)) else
      ts ← get_be64 hdr 0;
      len ← get_be16 hdr 8;
      let '(data, f) := RawItch.fread (Z.to_nat len) f in
      if negb (lengthZ data =? len) then Ok (None, mkReader (Some f)) else
      Ok (Some (mkRecord ts data), mkReader (Some f))
  end.

(** [while (auto rec = reader.next())]; a record has at least ten bytes, so
    the length of the file is enough fuel. *)
Fixpoint read_loop (fuel : nat) (r : CaptureReader) : outcome (list CaptureRecord) :=
  match fuel with
  | O => Undefined
  | S fuel' =>
      '(rec, r) ← next r;
      match rec with
      | None => Ok []
      | Some rec => recs ← read_loop fuel' r; Ok (rec :: recs)
      end
  end.

Definition read_all (file : bytes) : outcome (list CaptureRecord) :=
  read_loop (S (length file)) (open_reader (Some file)).

Fixpoint write_all (recs : list CaptureRecord) (w : CaptureWriter) : outcome CaptureWriter :=
  match recs with
  | [] => Ok w
  | r :: recs => w ← write (ts_ns r) (r_bytes r) w; write_all recs w
  end.

(** * Round trip *)

Definition record_ok (r : CaptureRecord) : Prop :=
  fits 64 (ts_ns r) /\ lengthZ (r_bytes r) < 2 ^ 16.

Definition record_bytes (r : CaptureRecord) : bytes :=
  be_bytes 8 (ts_ns r) ++ framed (r_bytes r).

Lemma write_spec ts data f :
  write ts data (mkWriter (Some f)) = Ok (mkWriter (Some (f ++ record_bytes (mkRecord ts data)))).
Proof.
  unfold write. cbn [w_f]. rewrite put_be64_all, poke_all_spec by (rewrite length_be_bytes; cbn; lia).
  rewrite outcome_bind_Ok, length_be_bytes. cbn [take drop replicate app Nat.add].
  rewrite put_be16_all, poke_all_spec by (rewrite length_app, !length_be_bytes; cbn; lia).
  rewrite outcome_bind_Ok, length_be_bytes.
  rewrite take_app_length' by (by rewrite length_be_bytes).
  rewrite drop_ge by (rewrite length_app, !length_be_bytes; cbn; lia).
  unfold record_bytes, framed. cbn [ts_ns r_bytes]. rewrite be_bytes_wrap by done.
  by rewrite app_nil_r, <- !app_assoc.
Qed.

Lemma write_records_spec recs : forall f,
  write_all recs (mkWriter (Some f)) = Ok (mkWriter (Some (f ++ concat (map record_bytes recs)))).
Proof.
  induction recs as [|[ts data] recs IH]; intros f; cbn [write_all map concat].
  - by rewrite app_nil_r.
  - by rewrite write_spec, outcome_bind_Ok, IH, app_assoc.
Qed.

(** The header of a record, when it is there. *)
Lemma record_header r rest :
  record_ok r ->
  take 10 (record_bytes r ++ rest) = be_bytes 8 (ts_ns r) ++ be_bytes 2 (lengthZ (r_bytes r)) /\
  drop 10 (record_bytes r ++ rest) = r_bytes r ++ rest /\
  get_be64 (be_bytes 8 (ts_ns r) ++ be_bytes 2 (lengthZ (r_bytes r))) 0 = Ok (ts_ns r) /\
  get_be16 (be_bytes 8 (ts_ns r) ++ be_bytes 2 (lengthZ (r_bytes r))) 8 = Ok (lengthZ (r_bytes r)).
Proof.
  intros [Hts Hl]. pose proof (lengthZ_nonneg (r_bytes r)) as Hn. unfold record_bytes, framed.
  set (h := be_bytes 8 (ts_ns r) ++ be_bytes 2 (lengthZ (r_bytes r))).
  assert (length h = 10%nat) as Hh by (unfold h; by rewrite length_app, !length_be_bytes).
  assert (Forall is_byte h) as Hb by (apply Forall_app; split; apply be_bytes_are_bytes).
  rewrite (app_assoc (be_bytes 8 _)). fold h. rewrite <- app_assoc.
  rewrite take_app_length', drop_app_length' by done. split_and!; [done|done| |].
  - rewrite get_be64_slice by (done || lia). f_equal. unfold slice, h. change (drop 0 ?l) with l.
    rewrite take_app_length' by (by rewrite length_be_bytes). rewrite be_value_be_bytes.
    by apply Z.mod_small.
  - rewrite get_be16_slice by (done || lia). f_equal. unfold slice, h.
    rewrite drop_app_length' by (by rewrite length_be_bytes).
    rewrite take_ge by (by rewrite length_be_bytes). rewrite be_value_be_bytes. apply Z.mod_small.
    change (2 ^ (8 * Z.of_nat 2)) with (2 ^ 16). lia.
Qed.

Lemma length_record r : length (record_bytes r) = (10 + length (r_bytes r))%nat.
Proof. unfold record_bytes. rewrite length_app, length_be_bytes, length_framed. lia. Qed.

Lemma next_record r rest :
  record_ok r -> next (mkReader (Some (record_bytes r ++ rest))) = Ok (Some r, mkReader (Some rest)).
Proof.
  intros Hr. destruct (record_header r rest Hr) as (H1 & H2 & H3 & H4).
  unfold next, RawItch.fread. cbn [r_f]. rewrite H1, H2, length_app, !length_be_bytes.
  cbn [Nat.eqb Nat.add negb]. rewrite H3, outcome_bind_Ok, H4, outcome_bind_Ok.
  replace (Z.to_nat (lengthZ (r_bytes r))) with (length (r_bytes r)) by (unfold lengthZ; lia).
  rewrite take_app_length, drop_app_length, Z.eqb_refl. cbn [negb]. by destruct r.
Qed.

(** A record cut short is not a record. *)
Lemma next_cut r k :
  record_ok r -> (k < length (record_bytes r))%nat ->
  exists r', next (mkReader (Some (take k (record_bytes r)))) = Ok (None, r').
Proof.
  intros Hr Hk. rewrite length_record in Hk. unfold next, RawItch.fread. cbn [r_f].
  destruct (Nat.lt_ge_cases k 10) as [Hk2|Hk2].
  { rewrite take_take, length_take, length_record.
    destruct (Nat.eqb_spec (Nat.min (Nat.min 10 k) (10 + length (r_bytes r))) 10); [lia|].
    cbn [negb]. eauto. }
  destruct (record_header r [] Hr) as (H1 & H2 & H3 & H4). rewrite !app_nil_r in *.
  rewrite take_take, Nat.min_l, H1 by lia. rewrite length_app, !length_be_bytes.
  cbn [Nat.eqb Nat.add negb]. rewrite H3, outcome_bind_Ok, H4, outcome_bind_Ok.
  rewrite skipn_firstn_comm, H2.
  destruct (Z.eqb_spec (lengthZ (take (Z.to_nat (lengthZ (r_bytes r))) (take (k - 10) (r_bytes r))))
    (lengthZ (r_bytes r))) as [Hn|Hn]; [|cbn [negb]; eauto].
  unfold lengthZ in Hn. rewrite !length_take in Hn. lia.
Qed.

(** The number of whole records in the first [k] bytes. *)
Fixpoint whole (k : nat) (recs : list CaptureRecord) : nat :=
  match recs with
  | [] => 0
  | r :: recs =>
      if (length (record_bytes r) <=? k)%nat then S (whole (k - length (record_bytes r)) recs) else 0
  end.

Lemma read_records_prefix recs : forall k fuel,
  Forall record_ok recs -> (k < fuel)%nat ->
  read_loop fuel (mkReader (Some (take k (concat (map record_bytes recs)))))
  = Ok (take (whole k recs) recs).
Proof.
  induction recs as [|r recs IH]; intros k fuel Hok Hf; destruct fuel as [|fuel]; try lia.
  { cbn [map concat whole]. by rewrite take_nil. }
  apply Forall_cons in Hok as [Hr Hok]. cbn [map concat read_loop whole].
  destruct (Nat.leb_spec (length (record_bytes r)) k) as [Hk|Hk].
  - rewrite take_app_ge by lia. rewrite next_record, outcome_bind_Ok by done.
    pose proof (length_record r). rewrite IH by (done || lia). done.
  - rewrite take_app_le by lia. destruct (next_cut r k Hr Hk) as (r' & ->). done.
Qed.

Lemma whole_all recs k : (length (concat (map record_bytes recs)) <= k)%nat -> whole k recs = length recs.
Proof.
  revert k. induction recs as [|r recs IH]; intros k; [done|]. cbn [map concat whole length].
  rewrite length_app. intros Hk. destruct (Nat.leb_spec (length (record_bytes r)) k); [|lia].
  f_equal. apply IH. lia.
Qed.

Lemma whole_min recs k :
  whole (Nat.min k (length (concat (map record_bytes recs)))) recs = whole k recs.
Proof.
  revert k. induction recs as [|r recs IH]; intros k; [done|]. cbn [whole map concat].
  rewrite length_app. destruct (Nat.leb_spec (length (record_bytes r)) k),
    (Nat.leb_spec (length (record_bytes r))
      (Nat.min k (length (record_bytes r) + length (concat (map record_bytes recs)))));
    try lia. f_equal. rewrite <- (IH (k - _)%nat). f_equal. lia.
Qed.

(** Capture files. Reading back what a writer wrote gives the same
    records. When the file is cut after any byte past the magic number, the
    reader returns exactly the records that are whole in what is left; cut
    inside the magic number, it is not a capture file and has none. *)
Theorem capture_round_trip recs :
  Forall record_ok recs ->
  exists file, write_all recs (open_writer true) = Ok (mkWriter (Some file)) /\
    read_all file = Ok recs /\
    (forall k, read_all (take (8 + k) file) = Ok (take (whole k recs) recs)) /\
    (forall k, (k < 8)%nat -> read_all (take k file) = Ok []).
Proof.
  intros Hok. exists (kCaptureMagic ++ concat (map record_bytes recs)). unfold open_writer.
  split; [apply write_records_spec|].
  assert (forall k, read_all (take (8 + k) (kCaptureMagic ++ concat (map record_bytes recs)))
    = Ok (take (whole k recs) recs)) as H.
  { intros k. set (body := concat (map record_bytes recs)).
    rewrite (take_app_ge kCaptureMagic) by (cbn; lia).
    replace (8 + k - length kCaptureMagic)%nat with k by (cbn; lia).
    unfold read_all. rewrite length_app, length_take. cbn [length kCaptureMagic].
    change (open_reader (Some (kCaptureMagic ++ take k body))) with (mkReader (Some (take k body))).
    replace (take k body) with (take (Nat.min k (length body)) body)
      by (rewrite <- take_take, (take_ge _ (length body)); done).
    unfold body at 3. rewrite read_records_prefix by (done || lia). f_equal. f_equal.
    apply whole_min. }
  split_and!; [|done|].
  - specialize (H (length (concat (map record_bytes recs)))).
    rewrite whole_all, (take_ge recs) in H by done. rewrite <- H. f_equal.
    rewrite take_ge; [done|]. by rewrite length_app.
  - intros k Hk. rewrite take_app_le by (cbn; lia). unfold read_all.
    do 8 (destruct k as [|k]; [reflexivity|]). lia.
Qed.

Lemma capture_round_trip_witness :
  exists file,
    write_all [mkRecord 34200000000000 [1; 2; 3]; mkRecord 34200000000001 []] (open_writer true)
    = Ok (mkWriter (Some file)) /\
    read_all (take 22 file) = Ok [mkRecord 34200000000000 [1; 2; 3]].
Proof.
  destruct (capture_round_trip [mkRecord 34200000000000 [1; 2; 3]; mkRecord 34200000000001 []])
    as (file & Hw & _ & Hk & _).
  - repeat (constructor; [split; [unfold fits; cbn; lia|by vm_compute]|]). constructor.
  - exists file. split; [exact Hw|]. exact (Hk 14%nat).
Defined.
End Capture.
