(* ===== verification/Feed.v ===== *)
(** The market-data publisher of [feed/feed.hpp] and [feed/feed.cpp]: market
    events become ITCH messages, messages become MoldUDP64 packets.

    [sent] is the sequence of datagrams given to [sendto]. The clock that
    stamps capture records is a parameter, read once per datagram. The
    publisher's thread is modelled by what its calls of [wait_drain_for]
    return: a list of events, empty when half a second passed without any. *)

From S2P Require Import Prelude Endian BookTypes Wire Itch Mold Engine Capture.

Module Feed.
Import Engine.

(** ** ITCH messages *)

(** [T::kSize] of the message structs. *)
Definition kSize (m : Itch.Message) : nat :=
  match m with
  | Itch.MSystemEvent _ => 12
  | Itch.MStockDirectory _ => 39
  | Itch.MTradingAction _ => 25
  | Itch.MAddOrder _ => 36
  | Itch.MAddOrderMpid _ => 40
  | Itch.MOrderExecuted _ => 31
  | Itch.MOrderExecutedWithPrice _ => 36
  | Itch.MOrderCancel _ => 23
  | Itch.MOrderDelete _ => 19
  | Itch.MOrderReplace _ => 35
  | Itch.MTrade _ => 44
  end.

Definition encode_bytes (m : Itch.Message) : outcome bytes :=
  Itch.encode m (replicate (kSize m) 0).

(** The message of an event. *)
Definition itch_message (ev : MarketEvent) (stock_locate : Z) : Itch.Message :=
  let hdr := Itch.mkHeader stock_locate 0 (me_ts ev) in
  match me_ev ev with
  | on_added e =>
      Itch.MAddOrder (Itch.mkAddOrder hdr (ad_id e) (ad_side e) (ad_qty e) (me_symbol ev)
        (ad_price e))
  | on_executed e =>
      Itch.MOrderExecuted (Itch.mkOrderExecuted hdr (ex_resting_id e) (ex_qty e) (ex_match_id e))
  | on_canceled e =>
      if ca_removed e then Itch.MOrderDelete (Itch.mkOrderDelete hdr (ca_id e))
      else Itch.MOrderCancel (Itch.mkOrderCancel hdr (ca_id e) (ca_canceled_qty e))
  | on_replaced e =>
      Itch.MOrderReplace (Itch.mkOrderReplace hdr (re_old_id e) (re_new_id e) (re_qty e)
        (re_price e))
  end.

Definition to_itch (ev : MarketEvent) (stock_locate : Z) : outcome bytes :=
  encode_bytes (itch_message ev stock_locate).

(** ** The publisher *)

Record FeedPublisher := mkFeed {
  packetizer_ : Mold.Packetizer;
  locates_ : gmap Symbol Z;
  capture_ : option Capture.CaptureWriter;
  packets_sent_ : Z;
  sent : list bytes }.

Definition make (session : bytes) (mtu : Z) (capture : option Capture.CaptureWriter)
    : FeedPublisher :=
  mkFeed (Mold.make (Mold.make_session session) mtu) ∅ capture 0 [].

Definition set_packetizer v p := mkFeed v (locates_ p) (capture_ p) (packets_sent_ p) (sent p).
Definition set_locates v p := mkFeed (packetizer_ p) v (capture_ p) (packets_sent_ p) (sent p).

Definition locate_for (symbol : Symbol) (p : FeedPublisher) : Z * FeedPublisher :=
  match locates_ p !! symbol with
  | Some locate => (locate, p)
  | None =>
      let locate := u16 (Z.of_nat (size (locates_ p)) + 1) in
      (locate, set_locates (<[symbol := locate]> (locates_ p)) p)
  end.

Section Publish.
Context (ns_since_midnight : Z -> Z).

Definition send_datagram (data : bytes) (p : FeedPublisher) : outcome FeedPublisher :=
  c ← (match capture_ p with
       | Some w => w ← Capture.write (ns_since_midnight (packets_sent_ p)) data w; Ok (Some w)
       | None => Ok None
       end);
  Ok (mkFeed (packetizer_ p) (locates_ p) c (u64 (packets_sent_ p + 1)) (sent p ++ [data])).

Fixpoint send_datagrams (pkts : list bytes) (p : FeedPublisher) : outcome FeedPublisher :=
  match pkts with
  | [] => Ok p
  | pkt :: pkts => p ← send_datagram pkt p; send_datagrams pkts p
  end.

Definition send_ready (p : FeedPublisher) : outcome FeedPublisher :=
  let '(pkts, k) := Mold.take_packets (packetizer_ p) in
  send_datagrams pkts (set_packetizer k p).

Fixpoint add_events (evs : list MarketEvent) (p : FeedPublisher) : outcome FeedPublisher :=
  match evs with
  | [] => Ok p
  | ev :: evs =>
      let '(locate, p) := locate_for (me_symbol ev) p in
      data ← to_itch ev locate;
      k ← Mold.add_message data (packetizer_ p);
      add_events evs (set_packetizer k p)
  end.

Definition publish (evs : list MarketEvent) (p : FeedPublisher) : outcome FeedPublisher :=
  p ← add_events evs p;
  k ← Mold.flush (packetizer_ p);
  send_ready (set_packetizer k p).

(** The loop of [run]: [drains] are the results of [wait_drain_for] up to the
    one that ends the loop. *)
Fixpoint run_loop (drains : list (list MarketEvent)) (p : FeedPublisher)
    : outcome FeedPublisher :=
  match drains with
  | [] => Ok p
  | evs :: drains =>
      p ← (match evs with
           | [] => h ← Mold.heartbeat (packetizer_ p); send_datagram h p
           | _ => publish evs p
           end);
      run_loop drains p
  end.

(** [last] is what the final [drain()] finds. *)
Definition run (drains : list (list MarketEvent)) (last : list MarketEvent) (p : FeedPublisher)
    : outcome FeedPublisher :=
  p ← run_loop drains p;
  p ← publish last p;
  h ← Mold.end_of_session (packetizer_ p);
  send_datagram h p.
End Publish.
End Feed.
