(* ===== verification/FeedRefines.v ===== *)
(** The publisher: whatever way the event stream is cut into drains, with
    whatever idle ticks in between, the datagrams are one contiguous MoldUDP64
    stream of the events' ITCH messages, closed by the end-of-session packet;
    and a receiver of any part of it that ends with the closing packet knows
    from the gap flag whether it missed a message. *)

From S2P Require Import Prelude StdMap Endian BookTypes Wire Symbols Itch Mold Engine EngineInv EngineRuns BookReplay MarketReplay Capture Feed.
Import Engine Feed.

(** ** Messages *)

(** An event whose message can be encoded. *)
Definition encodable (m : MarketEvent) : Prop :=
  fits 48 (me_ts m) /\ symbol_ok (me_symbol m) /\ ev_fits (me_ev m) /\
  match me_ev m with on_added x => valid_side (ad_side x) | _ => True end.

Lemma step_encodable f m : step_ok f m -> fits 48 (me_ts m) -> encodable m.
Proof.
  intros [_ Hev _ _ Hs Hf] Ht. split_and!; [done..|]. by destruct (me_ev m); try apply Hev.
Qed.

Lemma itch_message_ok m locate :
  encodable m -> fits 16 locate -> Itch.message_ok (itch_message m locate).
Proof.
  intros (Ht & [Hs Hb] & Hf & Hside) Hl. unfold itch_message.
  assert (f_ok Itch.header (Itch.mkHeader locate 0 (me_ts m))) as Hh.
  { unfold Itch.header. fmt_simpl. by split_and!. }
  destruct (me_ev m) as [x|x|x|x]; cbn [ev_fits] in Hf; [| |destruct (ca_removed x)|];
    cbn [Itch.message_ok];
    unfold Itch.AddOrder_body, Itch.OrderExecuted_body, Itch.OrderDelete_body,
      Itch.OrderCancel_body, Itch.OrderReplace_body; fmt_simpl; split_and!; try done; try apply Hf.
  by destruct Hside as [-> | ->].
Qed.

Lemma to_itch_wire m locate :
  encodable m -> fits 16 locate -> to_itch m locate = Ok (Itch.wire (itch_message m locate)).
Proof.
  intros Hm Hl. pose proof (itch_message_ok m locate Hm Hl) as Hok.
  unfold to_itch, encode_bytes. rewrite Itch.encode_all by done.
  pose proof (Itch.length_wire _ Hok) as Hlen.
  assert (kSize (itch_message m locate) = length (Itch.wire (itch_message m locate))) as Hk.
  { rewrite Hlen. unfold itch_message. by destruct (me_ev m) as [x|x|x|x]; [| |destruct (ca_removed x)|]. }
  rewrite poke_all_prefix by (rewrite length_replicate; lia).
  rewrite drop_ge by (rewrite length_replicate; lia). by rewrite app_nil_r.
Qed.

(** The message of an event, under some locate code. *)
Definition message_of (m : MarketEvent) (data : bytes) : Prop :=
  exists locate, fits 16 locate /\ data = Itch.wire (itch_message m locate).

Lemma message_of_block m data : encodable m -> message_of m data -> Mold.fits_block data.
Proof.
  intros Hm (locate & Hl & ->). pose proof (itch_message_ok m locate Hm Hl) as Hok.
  split; [by apply Itch.itch_wire_bytes|]. unfold lengthZ. rewrite Itch.length_wire by done.
  unfold itch_message. destruct (me_ev m) as [x|x|x|x]; [| |destruct (ca_removed x)|]; by vm_compute.
Qed.

(** ** Receiving part of a stream *)

(** The packets of a stream carry groups of messages; an empty group is a
    heartbeat. *)
Definition stream_group (mtu : Z) (session : bytes) (g : list bytes) : Prop :=
  g = [] \/ Mold.group_ok mtu session g.

Section Stream.
Context (session : bytes) (mtu : Z).
Hypothesis (Hs : length session = 10%nat) (Hsb : Forall is_byte session) (Hmtu : mtu < 2 ^ 16).

Lemma parse_stream_group s g :
  stream_group mtu session g -> fits 64 s ->
  Mold.parse (Mold.packet_bytes session s g) = Ok (Some (Mold.mkPacket session s false g)).
Proof.
  intros [->|Hg] Hf; [|by eapply Mold.parse_group].
  unfold Mold.packet_bytes. change (Mold.blocks []) with (@nil Z). rewrite app_nil_r.
  by apply Mold.parse_heartbeat.
Qed.

Lemma parse_end s :
  fits 64 s ->
  Mold.parse (Mold.header_bytes session s Mold.kEndOfSessionCount)
  = Ok (Some (Mold.mkPacket session s true [])).
Proof.
  intros Hf. pose proof (Mold.parse_wire (Mold.mkPacket session s true [])) as H.
  unfold Mold.wire in H. cbn in H. rewrite app_nil_r in H. apply H.
  unfold Mold.packet_ok. cbn. split_and!; try done; apply Hf.
Qed.

(** The detector after one packet of the stream. *)
Lemma on_packet_stream s n e h :
  0 <= n -> 0 <= e <= s -> s + n < 2 ^ 64 ->
  Mold.on_packet s n (Mold.mkGap e h) = (e <? s, Mold.mkGap (s + n) (h || (e <? s))).
Proof.
  intros Hn He Hb. unfold Mold.on_packet. cbn [Mold.expected_ Mold.had_gap_].
  rewrite wrap_small by (unfold fits; lia). f_equal. f_equal.
  - destruct (Z.ltb_spec 0 n), (Z.ltb_spec e (s + n)), (Z.ltb_spec e s), (Z.eqb_spec n 0);
      cbn [andb]; try lia; destruct (Z.ltb_spec e s); lia.
  - destruct (Z.ltb_spec e s); [by rewrite orb_true_r|by rewrite orb_false_r].
Qed.

(** What the receiver has and knows after part of the stream and its end. *)
Lemma receive_stream groups : forall s ps e h,
  Forall (stream_group mtu session) groups -> 0 <= e <= s -> s + lengthZ (concat groups) < 2 ^ 64 ->
  ps `sublist_of` Mold.packets_from session s groups ->
  exists ms g,
    Mold.receive (ps ++ [Mold.header_bytes session (s + lengthZ (concat groups)) Mold.kEndOfSessionCount])
      (Mold.mkGap e h) = Ok (ms, g) /\ ms `sublist_of` concat groups /\
    (Mold.had_gap_ g = false -> h = false /\ e = s /\ ms = concat groups) /\
    (ps = Mold.packets_from session s groups -> h = false -> e = s ->
       Mold.had_gap_ g = false).
Proof.
  induction groups as [|g gs IH]; intros s ps e h Hg He Hb Hps; cbn [Mold.packets_from concat] in *.
  - apply sublist_nil_r in Hps as ->. change (lengthZ (@nil bytes)) with 0 in *.
    cbn [app Mold.receive]. rewrite parse_end, outcome_bind_Ok by (unfold fits; lia).
    cbn [Mold.pk_seq Mold.pk_messages]. change (lengthZ (@nil bytes)) with 0.
    rewrite on_packet_stream, outcome_bind_Ok by lia. eexists _, _. split; [done|]. split; [done|].
    cbn [Mold.had_gap_]. split.
    + intros [-> Hlt]%orb_false_iff. split_and!; [done|lia|done].
    + intros _ -> ->. rewrite Z.add_0_r, Z.ltb_irrefl. done.
  - apply Forall_cons in Hg as [Hg0 Hg]. rewrite lengthZ_app in Hb |- *.
    pose proof (lengthZ_nonneg g). pose proof (lengthZ_nonneg (concat gs)). rewrite Z.add_assoc.
    apply sublist_cons_r in Hps as [Hps|(ps' & -> & Hps)].
    + destruct (IH (s + lengthZ g) ps e h) as (ms & gd & Hr & Hsub & H1 & H2); try done; [lia|lia|].
      exists ms, gd. split; [done|]. split; [by apply sublist_inserts_l|]. split.
      * intros Hgap. destruct (H1 Hgap) as (-> & Heq & ->). assert (g = []) as ->.
        { destruct g; [done|]. unfold lengthZ in *. cbn [length] in *. lia. }
        change (lengthZ (@nil bytes)) with 0 in Heq. by split_and!; [|lia|].
      * intros -> _ _. apply sublist_length in Hps. cbn [length] in Hps. lia.
    + cbn [app Mold.receive]. rewrite parse_stream_group, outcome_bind_Ok by (done || unfold fits; lia).
      cbn [Mold.pk_seq Mold.pk_messages]. rewrite on_packet_stream by lia.
      destruct (IH (s + lengthZ g) ps' (s + lengthZ g) (h || (e <? s))) as (ms & gd & -> & Hsub & H1 & H2);
        try done; [lia|lia|]. rewrite outcome_bind_Ok. eexists _, _. split; [done|].
      split; [by apply sublist_app|]. split.
      * intros Hgap. destruct (H1 Hgap) as ([-> Hlt]%orb_false_iff & _ & ->).
        split_and!; [done|lia|done].
      * intros [= ->] -> ->. apply H2; [done| |done]. rewrite Z.ltb_irrefl. done.
Qed.

Lemma packets_from_app s gs gs' :
  Mold.packets_from session s (gs ++ gs')
  = Mold.packets_from session s gs ++ Mold.packets_from session (s + lengthZ (concat gs)) gs'.
Proof.
  revert s. induction gs as [|g gs IH]; intros s; cbn [app Mold.packets_from concat].
  - change (lengthZ (@nil bytes)) with 0. by rewrite Z.add_0_r.
  - rewrite IH, lengthZ_app, Z.add_assoc. done.
Qed.
End Stream.

(** ** Publishing *)

Section Publish.
Context (ns_since_midnight : Z -> Z) (session : bytes) (mtu : Z).
Hypothesis (Hs : length session = 10%nat) (Hsb : Forall is_byte session) (Hmtu : mtu < 2 ^ 16).

(** Between two drains: nothing is pending, and what was sent is the stream of
    [groups]. *)
Record pub_inv (p : FeedPublisher) (groups : list (list bytes)) : Prop := {
  pb_session : Mold.session_ (packetizer_ p) = session;
  pb_mtu : Mold.mtu_ (packetizer_ p) = mtu;
  pb_packetizer : Mold.pk_inv (packetizer_ p) (1 + lengthZ (concat groups)) [] [];
  pb_groups : Forall (stream_group mtu session) groups;
  pb_sent : sent p = Mold.packets_from session 1 groups;
  pb_locates : forall sym l, locates_ p !! sym = Some l -> fits 16 l }.

Lemma capture_write_ok ts data c :
  exists c', (match c with
              | Some w => w ← Capture.write ts data w; Ok (Some w)
              | None => Ok None
              end) = Ok c'.
Proof.
  destruct c as [[[f|]]|]; [|eexists; done..]. rewrite Capture.write_spec. eexists. done.
Qed.

Lemma send_datagram_spec data p :
  exists p', send_datagram ns_since_midnight data p = Ok p' /\ sent p' = sent p ++ [data] /\
    packetizer_ p' = packetizer_ p /\ locates_ p' = locates_ p.
Proof.
  unfold send_datagram.
  destruct (capture_write_ok (ns_since_midnight (packets_sent_ p)) data (capture_ p)) as (c & ->).
  rewrite outcome_bind_Ok. by eexists.
Qed.

Lemma send_datagrams_spec pkts : forall p,
  exists p', send_datagrams ns_since_midnight pkts p = Ok p' /\ sent p' = sent p ++ pkts /\
    packetizer_ p' = packetizer_ p /\ locates_ p' = locates_ p.
Proof.
  induction pkts as [|pkt pkts IH]; intros p; cbn [send_datagrams].
  - exists p. by rewrite app_nil_r.
  - destruct (send_datagram_spec pkt p) as (p1 & -> & Hs1 & Hp1 & Hl1). rewrite outcome_bind_Ok.
    destruct (IH p1) as (p2 & -> & Hs2 & Hp2 & Hl2). exists p2. split_and!; [done|..|congruence|congruence].
    by rewrite Hs2, Hs1, <- app_assoc.
Qed.

Lemma locate_for_spec sym p :
  (forall s l, locates_ p !! s = Some l -> fits 16 l) ->
  exists l p', locate_for sym p = (l, p') /\ fits 16 l /\ packetizer_ p' = packetizer_ p /\
    sent p' = sent p /\ (forall s l, locates_ p' !! s = Some l -> fits 16 l).
Proof.
  intros Hl. unfold locate_for. destruct (locates_ p !! sym) as [l|] eqn:E; [by eauto 10|].
  eexists _, _. split; [done|]. split; [by apply wrap_fits|]. split_and!; [done|done|].
  intros s l. cbn [locates_ set_locates]. destruct (decide (sym = s)) as [<-|Hne].
  - rewrite lookup_insert_eq. intros [= <-]. by apply wrap_fits.
  - rewrite lookup_insert_ne by done. apply Hl.
Qed.

Lemma add_events_spec evs : forall p,
  Forall encodable evs -> (forall s l, locates_ p !! s = Some l -> fits 16 l) ->
  exists datas, Forall2 message_of evs datas /\
  forall k', Mold.add_messages datas (packetizer_ p) = Ok k' ->
  exists p', add_events evs p = Ok p' /\ packetizer_ p' = k' /\ sent p' = sent p /\
    (forall s l, locates_ p' !! s = Some l -> fits 16 l).
Proof.
  induction evs as [|ev evs IH]; intros p Hok Hl.
  { exists []. split; [constructor|]. intros k' [= <-]. by exists p. }
  apply Forall_cons in Hok as [Hev Hok].
  destruct (locate_for_spec (me_symbol ev) p Hl) as (l & p1 & Hloc & Hfl & Hk1 & Hs1 & Hl1).
  cbn [add_events]. rewrite Hloc, to_itch_wire, outcome_bind_Ok by done.
  set (data := Itch.wire (itch_message ev l)).
  destruct (IH (set_packetizer (Mold.make [] 0) p1) Hok Hl1) as (datas & H2 & _).
  destruct (Mold.add_message data (packetizer_ p1)) as [k1|w|] eqn:Ha.
  - clear datas H2. destruct (IH (set_packetizer k1 p1) Hok Hl1) as (datas & H2 & Hd).
    exists (data :: datas). split; [constructor; [by exists l|done]|].
    intros k'. cbn [Mold.add_messages]. rewrite <- Hk1, Ha, !outcome_bind_Ok. intros Hk'.
    destruct (Hd k' Hk') as (p' & Hp' & Hpk & Hsp & Hlp). exists p'. by split_and!; [|done|rewrite Hsp|].
  - exists (data :: datas). split; [constructor; [by exists l|done]|].
    intros k'. cbn [Mold.add_messages]. by rewrite <- Hk1, Ha.
  - exists (data :: datas). split; [constructor; [by exists l|done]|].
    intros k'. cbn [Mold.add_messages]. by rewrite <- Hk1, Ha.
Qed.

Lemma publish_spec evs p groups :
  pub_inv p groups -> Forall encodable evs ->
  1 + lengthZ (concat groups) + lengthZ evs < 2 ^ 64 ->
  exists p' gs datas, publish ns_since_midnight evs p = Ok p' /\ pub_inv p' (groups ++ gs) /\
    concat gs = datas /\ Forall2 message_of evs datas.
Proof.
  intros [Hses Hm Hpk Hg Hsent Hl] Hok Hb.
  destruct (add_events_spec evs p Hok Hl) as (datas & H2 & Hadd).
  assert (Forall Mold.fits_block datas) as Hfit.
  { clear -H2 Hok. induction H2; [done|]. apply Forall_cons in Hok as [? ?].
    constructor; [by eapply message_of_block|auto]. }
  assert (lengthZ datas = lengthZ evs) as Hlen
    by (unfold lengthZ; by rewrite (Forall2_length _ _ _ H2)).
  destruct (Mold.pi_next _ _ _ _ Hpk) as (_ & Hnx & _). change (lengthZ (concat (@nil (list bytes)))) with 0 in Hnx.
  change (lengthZ (@nil bytes)) with 0 in Hnx.
  destruct (Mold.add_messages_inv datas _ _ _ _ Hpk Hfit) as (k1 & g1 & c1 & H1 & Hs1 & Hm1 & Hk1 & E1);
    [lia|].
  destruct (Hadd k1 H1) as (p1 & Hp1 & Hpk1 & Hsp1 & Hl1).
  unfold publish. rewrite Hp1, outcome_bind_Ok, Hpk1.
  destruct (Mold.flush_inv _ _ _ _ Hk1) as (k2 & -> & Hs2 & Hm2 & Hk2). rewrite outcome_bind_Ok.
  set (gs := match c1 with [] => g1 | _ => g1 ++ [c1] end) in *.
  assert (concat gs = datas) as Hgs.
  { cbn in E1. subst gs. destruct c1; [by rewrite app_nil_r in E1|].
    rewrite concat_app. cbn [concat]. by rewrite app_nil_r. }
  unfold send_ready, Mold.take_packets. cbn [packetizer_ set_packetizer].
  destruct (send_datagrams_spec (Mold.ready_ k2) (set_packetizer
    (Mold.mkPacketizer (Mold.session_ k2) (Mold.mtu_ k2) (Mold.next_seq_ k2) (Mold.current_ k2)
       (Mold.current_count_ k2) []) (set_packetizer k2 p1))) as (p2 & Hp2 & Hsp2 & Hpk2 & Hl2).
  exists p2, gs, datas. split; [exact Hp2|]. split; [|done].
  assert (Mold.session_ k2 = session) as Es by congruence.
  assert (Mold.mtu_ k2 = mtu) as Em by congruence.
  destruct Hk2 as [Hses2 Hmt2 Hr2 Hg2 _ (Hpos & Hnx2 & Hbd) Hcur Hcnt].
  assert (concat (groups ++ gs) = concat groups ++ datas) as Hcat by (by rewrite concat_app, Hgs).
  split; rewrite ?Hpk2; cbn [packetizer_ set_packetizer Mold.session_ Mold.mtu_]; try done.
  - constructor; cbn [Mold.session_ Mold.mtu_ Mold.next_seq_ Mold.current_ Mold.current_count_ Mold.ready_];
      try done; [by left|].
    pose proof (lengthZ_nonneg datas). rewrite Hcat, lengthZ_app. rewrite Hgs in Hnx2. change (lengthZ (concat (@nil (list bytes)))) with 0.
    change (lengthZ (@nil bytes)) with 0 in *. lia.
  - apply Forall_app. split; [done|]. rewrite Es, Em in Hg2. eapply Forall_impl; [exact Hg2|]. by right.
  - rewrite Hsp2. cbn [sent set_packetizer]. rewrite Hsp1, Hsent, packets_from_app, Hr2, Es. done.
  - rewrite Hl2. exact Hl1.
Qed.

Lemma header_spec p groups count :
  pub_inv p groups ->
  Mold.make_header (Mold.session_ (packetizer_ p)) (Mold.next_seq_ (packetizer_ p)) count
  = Ok (Mold.header_bytes session (1 + lengthZ (concat groups)) count).
Proof.
  intros [Hses Hm Hpk _ _ _]. destruct (Mold.pi_next _ _ _ _ Hpk) as (_ & Hnx & _).
  change (lengthZ (concat (@nil (list bytes)))) with 0 in Hnx. change (lengthZ (@nil bytes)) with 0 in Hnx.
  rewrite Mold.make_header_bytes by (by rewrite Hses). rewrite Hses. do 2 f_equal. lia.
Qed.

Lemma run_loop_spec drains : forall p groups,
  pub_inv p groups -> Forall encodable (concat drains) ->
  1 + lengthZ (concat groups) + lengthZ (concat drains) < 2 ^ 64 ->
  exists p' gs, run_loop ns_since_midnight drains p = Ok p' /\ pub_inv p' (groups ++ gs) /\
    Forall2 message_of (concat drains) (concat gs).
Proof.
  induction drains as [|evs drains IH]; intros p groups Hp Hok Hb; cbn [run_loop concat] in *.
  { exists p, []. rewrite app_nil_r. split_and!; [done|done|constructor]. }
  apply Forall_app in Hok as [Hev Hok]. rewrite lengthZ_app in Hb.
  pose proof (lengthZ_nonneg evs). pose proof (lengthZ_nonneg (concat drains)).
  assert (exists p1 gs1,
    (match evs with
     | [] => h ← Mold.heartbeat (packetizer_ p); send_datagram ns_since_midnight h p
     | _ => publish ns_since_midnight evs p end) = Ok p1 /\
    pub_inv p1 (groups ++ gs1) /\ Forall2 message_of evs (concat gs1)) as (p1 & gs1 & -> & Hp1 & H21).
  { destruct evs as [|ev evs].
    - unfold Mold.heartbeat. rewrite (header_spec p groups) by done. rewrite outcome_bind_Ok.
      match goal with |- context [send_datagram _ ?d p] =>
        destruct (send_datagram_spec d p) as (p1 & -> & Hs1 & Hk1 & Hl1) end.
      exists p1, [[]]. split; [done|]. split; [|constructor].
      destruct Hp as [Hses Hm Hpk Hg Hsent Hl].
      assert (concat (groups ++ [[]]) = concat groups) as Hcat
        by (rewrite concat_app; cbn [concat]; by rewrite !app_nil_r).
      split; rewrite ?Hk1, ?Hcat; try done.
      + apply Forall_app. split; [done|]. constructor; [by left|constructor].
      + rewrite Hs1, Hsent, packets_from_app. cbn [Mold.packets_from].
        unfold Mold.packet_bytes. change (Mold.blocks []) with (@nil Z). by rewrite app_nil_r.
      + by rewrite Hl1.
    - destruct (publish_spec (ev :: evs) p groups) as (p1 & gs1 & datas & Hpub & Hp1 & Hd & H2);
        [done|done|lia|]. exists p1, gs1. by rewrite Hd. }
  rewrite outcome_bind_Ok.
  destruct (IH p1 (groups ++ gs1) Hp1 Hok) as (p2 & gs2 & -> & Hp2 & H22).
  { rewrite concat_app, lengthZ_app.
    assert (lengthZ (concat gs1) = lengthZ evs) by (unfold lengthZ; by rewrite (Forall2_length _ _ _ H21)).
    lia. }
  exists p2, (gs1 ++ gs2). split_and!; [done|by rewrite app_assoc|].
  rewrite concat_app. by apply Forall2_app.
Qed.

Lemma make_pub_inv c sv :
  Mold.make_session sv = session -> pub_inv (make sv mtu c) [].
Proof.
  intros E. unfold make. rewrite E. split; try done.
  constructor; try done. by left.
Qed.

(** The datagrams of a whole run. *)
Lemma run_spec sv c drains last :
  Mold.make_session sv = session -> Forall encodable (concat drains ++ last) ->
  lengthZ (concat drains ++ last) < 2 ^ 63 ->
  exists p' groups, run ns_since_midnight drains last (make sv mtu c) = Ok p' /\
    Forall (stream_group mtu session) groups /\
    Forall2 message_of (concat drains ++ last) (concat groups) /\
    sent p' = Mold.packets_from session 1 groups ++
      [Mold.header_bytes session (1 + lengthZ (concat groups)) Mold.kEndOfSessionCount].
Proof.
  intros E Hok Hb. apply Forall_app in Hok as [Hok1 Hok2]. rewrite lengthZ_app in Hb.
  pose proof (lengthZ_nonneg last). pose proof (lengthZ_nonneg (concat drains)). unfold run.
  destruct (run_loop_spec drains _ [] (make_pub_inv c sv E) Hok1) as (p1 & gs1 & -> & Hp1 & H21).
  { change (lengthZ (concat (@nil (list bytes)))) with 0. lia. }
  rewrite outcome_bind_Ok. cbn [app] in Hp1.
  assert (lengthZ (concat gs1) = lengthZ (concat drains)) as Hl1
    by (unfold lengthZ; by rewrite (Forall2_length _ _ _ H21)).
  destruct (publish_spec last p1 gs1 Hp1 Hok2) as (p2 & gs2 & datas & -> & Hp2 & Hd & H22); [lia|].
  rewrite outcome_bind_Ok. unfold Mold.end_of_session.
  rewrite (header_spec p2 (gs1 ++ gs2)) by done. rewrite outcome_bind_Ok.
  match goal with |- context [send_datagram _ ?d p2] =>
    destruct (send_datagram_spec d p2) as (p3 & -> & Hs3 & _ & _) end.
  exists p3, (gs1 ++ gs2). split_and!; [done|apply Hp2| |by rewrite Hs3, (pb_sent _ _ Hp2)].
  rewrite concat_app, Hd. by apply Forall2_app.
Qed.
End Publish.
