(* ===== verification/ItchBook.v ===== *)
(** The market-data client: [ItchBookBuilder] of [client/itch_book.hpp] and
    [client/itch_book.cpp].

    [orders_] is an unordered map, [books_] a map from symbols to two ladders
    ([std::map], modelled by [StdMap]); a ladder's queue holds order references
    only, the quantities are in [orders_]. *)

From S2P Require Import Prelude StdMap Endian BookTypes Itch Mold.

Module ItchBook.

Abbreviation Symbol := bytes.

Record BuilderOrder := mkBuilderOrder {
  bo_symbol : Symbol; bo_side : Side; bo_price : Price; bo_qty : Qty }.

Record SymbolBook := mkSymbolBook {
  sb_bids : list (Price * list Z);
  sb_asks : list (Price * list Z) }.

Record ItchBookBuilder := mkBuilder {
  orders_ : gmap Z BuilderOrder;
  books_ : gmap Symbol SymbolBook;
  gaps_ : Mold.GapDetector;
  messages_ : Z;
  last_ts_ : Z;
  executed_shares_ : Z;
  last_trade_price_ : Price;
  last_trade_qty_ : Qty }.

Definition init : ItchBookBuilder := mkBuilder ∅ ∅ Mold.gap_init 0 0 0 0 0.

(** Assignments to members. *)
Definition set_orders v b := mkBuilder v (books_ b) (gaps_ b) (messages_ b) (last_ts_ b)
  (executed_shares_ b) (last_trade_price_ b) (last_trade_qty_ b).
Definition set_books v b := mkBuilder (orders_ b) v (gaps_ b) (messages_ b) (last_ts_ b)
  (executed_shares_ b) (last_trade_price_ b) (last_trade_qty_ b).
Definition set_gaps v b := mkBuilder (orders_ b) (books_ b) v (messages_ b) (last_ts_ b)
  (executed_shares_ b) (last_trade_price_ b) (last_trade_qty_ b).
Definition set_messages v b := mkBuilder (orders_ b) (books_ b) (gaps_ b) v (last_ts_ b)
  (executed_shares_ b) (last_trade_price_ b) (last_trade_qty_ b).
Definition set_ts v b := mkBuilder (orders_ b) (books_ b) (gaps_ b) (messages_ b) v
  (executed_shares_ b) (last_trade_price_ b) (last_trade_qty_ b).
Definition set_executed v b := mkBuilder (orders_ b) (books_ b) (gaps_ b) (messages_ b)
  (last_ts_ b) v (last_trade_price_ b) (last_trade_qty_ b).
Definition set_trade_price v b := mkBuilder (orders_ b) (books_ b) (gaps_ b) (messages_ b)
  (last_ts_ b) (executed_shares_ b) v (last_trade_qty_ b).
Definition set_trade_qty v b := mkBuilder (orders_ b) (books_ b) (gaps_ b) (messages_ b)
  (last_ts_ b) (executed_shares_ b) (last_trade_price_ b) v.

(** [books_[symbol]], which is default-constructed when absent. *)
Definition book_of (symbol : Symbol) b : SymbolBook :=
  default (mkSymbolBook [] []) (books_ b !! symbol).

(** The ladder chosen by [side == Side::Buy]. *)
Definition side_map (s : Side) (k : SymbolBook) : list (Price * list Z) :=
  if is_buy s then sb_bids k else sb_asks k.

Definition set_side_map (s : Side) (m : list (Price * list Z)) (k : SymbolBook) : SymbolBook :=
  if is_buy s then mkSymbolBook m (sb_asks k) else mkSymbolBook (sb_bids k) m.

(** ** Order updates *)

Definition add_order (ref : Z) (symbol : Symbol) (side : Side) (price : Price) (shares : Qty) b
    : ItchBookBuilder :=
  let b := set_orders (<[ref := mkBuilderOrder symbol side price shares]> (orders_ b)) b in
  let book := book_of symbol b in
  let m := StdMap.upsert (before side) [] price (fun refs => refs ++ [ref]) (side_map side book) in
  set_books (<[symbol := set_side_map side m book]> (books_ b)) b.

(** [erase_from] of [remove_order]. *)
Definition erase_from (price : Price) (ref : Z) (m : list (Price * list Z))
    : list (Price * list Z) :=
  match StdMap.find price m with
  | None => m
  | Some refs =>
      let refs := filter (fun r => r <> ref) refs in
      match refs with
      | [] => StdMap.erase price m
      | _ => StdMap.update price (fun _ => refs) m
      end
  end.

Definition remove_order (ref : Z) b : ItchBookBuilder :=
  match orders_ b !! ref with
  | None => b
  | Some o =>
      let book := book_of (bo_symbol o) b in
      let m := erase_from (bo_price o) ref (side_map (bo_side o) book) in
      let b := set_books (<[bo_symbol o := set_side_map (bo_side o) m book]> (books_ b)) b in
      set_orders (delete ref (orders_ b)) b
  end.

Definition reduce_order (ref : Z) (by_ : Qty) b : ItchBookBuilder :=
  match orders_ b !! ref with
  | None => b
  | Some o =>
      if bo_qty o <=? by_ then remove_order ref b
      else set_orders (<[ref := mkBuilderOrder (bo_symbol o) (bo_side o) (bo_price o)
                                  (u32 (bo_qty o - by_))]> (orders_ b)) b
  end.

(** ** Messages *)

Definition count_executed (shares : Qty) b : ItchBookBuilder :=
  set_executed (u64 (executed_shares_ b + shares)) (set_trade_qty shares b).

Definition on_message (msg : Itch.Message) b : ItchBookBuilder :=
  let b := set_messages (u64 (messages_ b + 1)) b in
  match msg with
  | Itch.MAddOrder m =>
      let b := set_ts (Itch.h_timestamp (Itch.ao_header m)) b in
      add_order (Itch.ao_order_ref m) (Itch.ao_stock m) (Itch.ao_side m) (Itch.ao_price m)
        (Itch.ao_shares m) b
  | Itch.MAddOrderMpid m =>
      let m := Itch.am_add m in
      let b := set_ts (Itch.h_timestamp (Itch.ao_header m)) b in
      add_order (Itch.ao_order_ref m) (Itch.ao_stock m) (Itch.ao_side m) (Itch.ao_price m)
        (Itch.ao_shares m) b
  | Itch.MOrderExecuted m =>
      let b := set_ts (Itch.h_timestamp (Itch.oe_header m)) b in
      let b := match orders_ b !! Itch.oe_order_ref m with
               | Some o => set_trade_price (bo_price o) b
               | None => b
               end in
      let b := count_executed (Itch.oe_executed_shares m) b in
      reduce_order (Itch.oe_order_ref m) (Itch.oe_executed_shares m) b
  | Itch.MOrderExecutedWithPrice m =>
      let x := Itch.op_exec m in
      let b := set_ts (Itch.h_timestamp (Itch.oe_header x)) b in
      let b := set_trade_price (Itch.op_execution_price m) b in
      let b := count_executed (Itch.oe_executed_shares x) b in
      reduce_order (Itch.oe_order_ref x) (Itch.oe_executed_shares x) b
  | Itch.MOrderCancel m =>
      let b := set_ts (Itch.h_timestamp (Itch.oc_header m)) b in
      reduce_order (Itch.oc_order_ref m) (Itch.oc_canceled_shares m) b
  | Itch.MOrderDelete m =>
      let b := set_ts (Itch.h_timestamp (Itch.od_header m)) b in
      remove_order (Itch.od_order_ref m) b
  | Itch.MOrderReplace m =>
      let b := set_ts (Itch.h_timestamp (Itch.ou_header m)) b in
      match orders_ b !! Itch.ou_original_ref m with
      | None => b
      | Some o =>
          let b := remove_order (Itch.ou_original_ref m) b in
          add_order (Itch.ou_new_ref m) (bo_symbol o) (bo_side o) (Itch.ou_price m)
            (Itch.ou_shares m) b
      end
  | Itch.MSystemEvent _ | Itch.MStockDirectory _ | Itch.MTradingAction _ | Itch.MTrade _ => b
  end.

(** The loop over the message blocks of a packet. *)
Fixpoint on_blocks (blocks : list bytes) b : outcome ItchBookBuilder :=
  match blocks with
  | [] => Ok b
  | bytes :: blocks =>
      msg ← Itch.decode bytes;
      on_blocks blocks (match msg with Some m => on_message m b | None => b end)
  end.

Definition on_mold_packet (data : bytes) b : outcome (bool * ItchBookBuilder) :=
  pkt ← Mold.parse data;
  match pkt with
  | None => Ok (false, b)
  | Some pkt =>
      let '(_, g) := Mold.on_packet (Mold.pk_seq pkt) (lengthZ (Mold.pk_messages pkt)) (gaps_ b) in
      b ← on_blocks (Mold.pk_messages pkt) (set_gaps g b);
      Ok (Mold.pk_end_of_session pkt, b)
  end.

(** ** Snapshots *)

(** [orders_.at(ref)] throws when the reference is unknown. *)
Definition fill_level (orders : gmap Z BuilderOrder) (l : Price * list Z)
    : outcome SnapshotLevel :=
  os ← mapM (fun ref => match orders !! ref with
                        | Some o => Ok (mkSnapOrder ref (bo_qty o))
                        | None => Throw "out_of_range"
                        end) l.2;
  Ok (mkSnapLevel l.1 os).

Definition fill (orders : gmap Z BuilderOrder) (m : list (Price * list Z))
    : outcome (list SnapshotLevel) := mapM (fill_level orders) m.

Definition snapshot (symbol : Symbol) b : outcome BookSnapshot :=
  match books_ b !! symbol with
  | None => Ok (mkSnapshot [] [])
  | Some k =>
      bids ← fill (orders_ b) (sb_bids k);
      asks ← fill (orders_ b) (sb_asks k);
      Ok (mkSnapshot bids asks)
  end.

(** ** Symbols *)

(** The value of a [char], which is a signed type on some platforms. *)
Definition char_value (is_signed : bool) (c : Z) : Z :=
  if is_signed && (128 <=? c) then c - 256 else c.

(** [operator<] of [std::array<char, 8>], as "not greater". *)
Fixpoint symbol_leb (is_signed : bool) (s t : Symbol) : bool :=
  match s, t with
  | [], _ => true
  | _, [] => false
  | c :: s, d :: t =>
      if char_value is_signed c <? char_value is_signed d then true
      else if char_value is_signed d <? char_value is_signed c then false
      else symbol_leb is_signed s t
  end.

(** The keys of [books_] in the map's order. *)
Definition symbols (is_signed : bool) b : list Symbol :=
  merge_sort (fun s t => symbol_leb is_signed s t) (map_to_list (books_ b)).*1.

Lemma elem_of_symbols is_signed b s : s ∈ symbols is_signed b <-> is_Some (books_ b !! s).
Proof.
  unfold symbols. rewrite merge_sort_Permutation, list_elem_of_fmap. split.
  - intros ([t k] & -> & Hk%elem_of_map_to_list). by eexists.
  - intros [k Hk]. exists (s, k). by rewrite elem_of_map_to_list.
Qed.

Lemma symbols_nodup is_signed b : NoDup (symbols is_signed b).
Proof. unfold symbols. rewrite merge_sort_Permutation. apply NoDup_fst_map_to_list. Qed.

Lemma symbol_leb_total is_signed : Total (fun s t => symbol_leb is_signed s t).
Proof.
  intros s. induction s as [|c s IH]; intros t; [by left|]. destruct t as [|d t]; [by right|].
  cbn [symbol_leb]. destruct (Z.ltb_spec (char_value is_signed c) (char_value is_signed d)); [by left|].
  destruct (Z.ltb_spec (char_value is_signed d) (char_value is_signed c)); [by right|]. apply IH.
Qed.

Lemma symbols_sorted is_signed b : Sorted (fun s t => symbol_leb is_signed s t) (symbols is_signed b).
Proof. apply Sorted_merge_sort. apply symbol_leb_total. Qed.
End ItchBook.
