(* ===== verification/ItchBookRefines.v ===== *)
(** The market-data client follows the published event stream: after the ITCH
    messages of the events of [market f ms f'] a client that represented the
    books [f] represents [f'], and its snapshots are those of the books. *)

From S2P Require Import Prelude StdMap Endian BookTypes BookSpec BookReplay Wire Itch Mold Engine EngineInv EngineRuns MarketReplay Capture Feed FeedRefines ItchBook.
Import ItchBook.

Abbreviation Market := (bytes -> Spec.Book).

(** A ladder of the client: the ids of the queues. *)
Definition skel (ls : list (Price * list SnapshotOrder)) : list (Price * list Z) :=
  map (fun p => (p.1, map so_id p.2)) ls.

Record Rep (b : ItchBookBuilder) (f : Market) : Prop := {
  rp_orders : forall id o, orders_ b !! id = Some o <->
    Spec.find_order id (f (bo_symbol o)) = Some (bo_side o, bo_price o, bo_qty o);
  rp_books : forall sym s, valid_side s -> side_map s (book_of sym b) = skel (Spec.levels s (f sym));
  rp_wf : forall sym, Spec.wf (f sym) }.

(** ** Ladders *)

Lemma skel_upsert s px id q ls :
  skel (StdMap.upsert (before s) [] px (fun os => os ++ [mkSnapOrder id q]) ls)
  = StdMap.upsert (before s) [] px (fun refs => refs ++ [id]) (skel ls).
Proof.
  induction ls as [|[p os] ls IH]; [done|]. cbn [StdMap.upsert skel map fst snd].
  destruct (px =? p); [cbn; by rewrite map_app|]. destruct (before s px p); [done|].
  cbn [map fst snd]. by f_equal.
Qed.

Lemma map_drop_id id os :
  map so_id (Spec.drop_id id os) = filter (fun r => r <> id) (map so_id os).
Proof.
  induction os as [|o os IH]; [done|]. rewrite Spec.drop_id_cons. cbn [map].
  rewrite filter_cons. destruct (Z.eqb_spec (so_id o) id) as [E|E].
  - rewrite decide_False by tauto. done.
  - rewrite decide_True by done. cbn [map]. by f_equal.
Qed.

Lemma skel_remove px id ls :
  erase_from px id (skel ls) = skel (Spec.cut px (Spec.drop_id id) ls).
Proof.
  unfold erase_from.
  induction ls as [|[p os] ls IH]; [done|]. cbn [StdMap.find skel map fst snd Spec.cut].
  destruct (Z.eqb_spec px p) as [->|Hne].
  - rewrite <- map_drop_id. cbv zeta. cbn [StdMap.erase StdMap.update fst snd map]. rewrite Z.eqb_refl.
    destruct (Spec.drop_id id os) as [|o os']; done.
  - cbn [StdMap.erase StdMap.update map fst snd]. rewrite (proj2 (Z.eqb_neq px p)) by done.
    fold (skel ls) (skel (Spec.cut px (Spec.drop_id id) ls)) in *. rewrite <- IH.
    destruct (StdMap.find px (skel ls)) as [refs|]; [|done].
    cbv zeta. by destruct (filter _ refs).
Qed.

Lemma skel_reduce px id q ls :
  Forall (fun p => p.2 <> []) ls -> skel (Spec.cut px (Spec.set_qty id q) ls) = skel ls.
Proof.
  induction 1 as [|[p os] ls Hne _ IH]; [done|]. cbn [Spec.cut].
  destruct (px =? p); [|cbn [skel map]; by f_equal].
  pose proof (Spec.set_qty_ids id q os) as Hids.
  destruct (Spec.set_qty id q os) as [|o os'] eqn:E; [by destruct os|].
  cbn [skel map fst snd]. cbn [map] in Hids. by rewrite Hids.
Qed.

(** ** The representation *)

Lemma rep_ext b b' f g :
  Rep b f -> same_books f g -> orders_ b' = orders_ b -> books_ b' = books_ b -> Rep b' g.
Proof.
  intros [H1 H2 H3] Hfg Ho Hb. split.
  - intros id o. by rewrite Ho, <- Hfg.
  - intros sym s Hs. unfold book_of. rewrite Hb, <- Hfg. by apply H2.
  - intros sym. by rewrite <- Hfg.
Qed.

Lemma rep_unique b f id s1 s2 r1 r2 :
  Rep b f -> Spec.find_order id (f s1) = Some r1 -> Spec.find_order id (f s2) = Some r2 -> s1 = s2.
Proof.
  intros HR H1 H2. destruct r1 as [[sd1 p1] q1], r2 as [[sd2 p2] q2].
  apply (rp_orders _ _ HR id (mkBuilderOrder s1 sd1 p1 q1)) in H1.
  apply (rp_orders _ _ HR id (mkBuilderOrder s2 sd2 p2 q2)) in H2. congruence.
Qed.

Lemma side_map_set s s' m k :
  valid_side s -> valid_side s' ->
  side_map s' (set_side_map s m k) = if decide (s' = s) then m else side_map s' k.
Proof. intros [-> | ->] [-> | ->]; done. Qed.

(** The ladders after one of them changed. *)
Lemma books_set b b' f sym s m ls :
  Rep b f -> valid_side s ->
  books_ b' = <[sym := set_side_map s m (book_of sym b)]> (books_ b) -> m = skel ls ->
  forall sym' s', valid_side s' ->
  side_map s' (book_of sym' b')
  = skel (Spec.levels s' (upd f sym (Spec.set_levels s ls (f sym)) sym')).
Proof.
  intros HR Hs Hb -> sym' s' Hs'. unfold book_of at 1. rewrite Hb. unfold upd.
  destruct (decide (sym' = sym)) as [->|Hne].
  - rewrite lookup_insert_eq. cbn [from_option id]. rewrite side_map_set by done.
    destruct (decide (s' = s)) as [->|Hss].
    + by rewrite Spec.levels_set_eq.
    + rewrite (rp_books _ _ HR) by done. f_equal.
      destruct Hs as [-> | ->], Hs' as [-> | ->]; done.
  - rewrite lookup_insert_ne by done. by apply (rp_books _ _ HR).
Qed.

(** The order map after the book of [sym] changed, where only [ref] did. *)
Lemma orders_set b b' f sym sp ref (o : option BuilderOrder) :
  Rep b f ->
  (forall i, i <> ref -> Spec.find_order i sp = Spec.find_order i (f sym)) ->
  orders_ b' = partial_alter (fun _ => o) ref (orders_ b) ->
  (forall s r, s <> sym -> Spec.find_order ref (f s) = Some r -> False) ->
  (forall x, o = Some x <-> bo_symbol x = sym /\
     Spec.find_order ref sp = Some (bo_side x, bo_price x, bo_qty x)) ->
  forall id x, orders_ b' !! id = Some x <->
    Spec.find_order id (upd f sym sp (bo_symbol x)) = Some (bo_side x, bo_price x, bo_qty x).
Proof.
  intros HR Hoth Ho Hel Href id x. rewrite Ho. unfold upd.
  destruct (decide (id = ref)) as [->|Hne].
  - rewrite lookup_partial_alter_eq, Href.
    destruct (decide (bo_symbol x = sym)) as [E|E]; [naive_solver|].
    split; [naive_solver|]. intros Hf. by destruct (Hel _ _ E Hf).
  - rewrite lookup_partial_alter_ne, (rp_orders _ _ HR) by done.
    destruct (decide (bo_symbol x = sym)) as [E|E]; [|done]. rewrite Hoth, E by done. done.
Qed.

Lemma order_eta x sym s px q :
  bo_symbol x = sym /\ Some (s, px, q) = Some (bo_side x, bo_price x, bo_qty x) <->
  Some (mkBuilderOrder sym s px q) = Some x.
Proof. destruct x; cbn. split; [intros [? ?]|intros ?]; simplify_eq; done. Qed.

Lemma add_order_rep b f ref sym s px q :
  Rep b f -> valid_side s -> (forall s', ref ∉ Spec.ids (f s')) ->
  Spec.wf (Spec.rest ref s px q (f sym)) ->
  Rep (add_order ref sym s px q b) (upd f sym (Spec.rest ref s px q (f sym))).
Proof.
  intros HR Hs Hfr Hwf. split.
  - apply (orders_set b _ f sym _ ref (Some (mkBuilderOrder sym s px q)) HR).
    + intros i Hi. apply find_rest_other; try done. apply HR.
    + done.
    + intros s' r _ Hf. by rewrite (proj2 (Spec.find_order_None _ _) (Hfr s')) in Hf.
    + intros x. rewrite find_rest_same by (done || apply HR). symmetry. apply order_eta.
  - eapply (books_set b); [done|done|reflexivity|].
    rewrite skel_upsert. f_equal. by apply (rp_books _ _ HR).
  - intros s'. unfold upd. destruct (decide (s' = sym)); [done|apply HR].
Qed.

Lemma remove_order_rep b f ref sym s px q :
  Rep b f -> Spec.find_order ref (f sym) = Some (s, px, q) ->
  Rep (remove_order ref b) (upd f sym (Spec.remove s px ref (f sym))).
Proof.
  intros HR Hf. pose proof (Spec.find_order_side _ _ _ _ _ Hf) as Hs.
  pose proof (proj2 (rp_orders _ _ HR ref (mkBuilderOrder sym s px q)) Hf) as Ho.
  unfold remove_order. rewrite Ho. cbn [bo_symbol bo_price bo_side]. cbv zeta. split.
  - apply (orders_set b _ f sym _ ref None HR).
    + intros i Hi. apply find_remove_other; try done. apply HR.
    + done.
    + intros s' r Hne Hf'. destruct Hne. by eapply rep_unique.
    + intros x. rewrite (proj2 (Spec.find_order_None _ _)); [naive_solver|].
      eapply find_remove_same; [apply HR|done].
  - eapply (books_set b); [done|done|reflexivity|].
    rewrite (rp_books _ _ HR) by done. apply skel_remove.
  - intros s'. unfold upd. destruct (decide (s' = sym)); [by apply Spec.remove_wf, HR|apply HR].
Qed.

Lemma reduce_order_rep b f ref sym s px q k :
  Rep b f -> Spec.find_order ref (f sym) = Some (s, px, q) -> 0 < k ->
  Rep (reduce_order ref k b) (upd f sym (take_shares ref k (f sym))).
Proof.
  intros HR Hf Hk. pose proof (Spec.find_order_side _ _ _ _ _ Hf) as Hs.
  pose proof (proj2 (rp_orders _ _ HR ref (mkBuilderOrder sym s px q)) Hf) as Ho.
  pose proof (rp_wf _ _ HR sym) as Hwf.
  destruct (Spec.find_order_qty _ _ _ _ _ Hwf Hf) as [_ Hq].
  unfold reduce_order, take_shares. rewrite Ho, Hf. cbn [bo_qty bo_symbol bo_side bo_price].
  destruct (Z.leb_spec q k) as [Hle|Hlt]; [by eapply remove_order_rep|].
  rewrite (wrap_small 32) by (unfold fits; lia). split.
  - apply (orders_set b _ f sym _ ref (Some (mkBuilderOrder sym s px (q - k))) HR).
    + intros i Hi. apply find_reduce_other; try done; lia.
    + done.
    + intros s' r Hne Hf'. destruct Hne. by eapply rep_unique.
    + intros x. rewrite (find_reduce_same _ Hwf s px q) by (done || lia). symmetry. apply order_eta.
  - intros sym' s' Hs'. unfold upd. rewrite (rp_books b f HR sym') by done.
    destruct (decide (sym' = sym)) as [->|]; [|done]. unfold Spec.reduce.
    destruct (decide (s' = s)) as [->|Hne].
    + rewrite Spec.levels_set_eq. symmetry. apply skel_reduce.
      eapply Forall_impl; [apply Hwf|]. by intros [p os] (_ & ? & _).
    + f_equal. destruct Hs as [-> | ->], Hs' as [-> | ->]; done.
  - intros s'. unfold upd. destruct (decide (s' = sym)); [|apply HR].
    apply Spec.reduce_wf; [done|lia].
Qed.

(** ** Events *)

(** The client does not keep the match number. *)
Lemma rep_levels b f g :
  Rep b f ->
  (forall sym, Spec.bids (g sym) = Spec.bids (f sym) /\ Spec.asks (g sym) = Spec.asks (f sym)) ->
  (forall sym, Spec.wf (g sym)) -> Rep b g.
Proof.
  intros [H1 H2 H3] Hfg Hwf. split; [|intros sym s Hs|done].
  - intros id o. rewrite H1. unfold Spec.find_order.
    destruct (Hfg (bo_symbol o)) as [-> ->]. done.
  - rewrite H2 by done. unfold Spec.levels. by destruct (Hfg sym) as [-> ->].
Qed.

(** The message of an event takes the client from the books before it to the
    books after it. *)
Lemma on_message_rep b f m locate :
  Rep b f -> step_ok f m ->
  Rep (on_message (Feed.itch_message m locate) b) (market_step f m).
Proof.
  intros HR Hm. destruct m as [ts sym ev]. destruct Hm as [Hwf Hev Haft Hfr _ _].
  cbn [Engine.me_symbol Engine.me_ev] in *. unfold market_step, Feed.itch_message.
  cbn [Engine.me_symbol Engine.me_ev Engine.me_ts].
  assert (forall (c : ItchBookBuilder), orders_ c = orders_ b -> books_ c = books_ b -> Rep c f)
    as Hext by (intros; by eapply rep_ext).
  destruct ev as [x|x|x|x]; cbn [replay ev_ok on_message rests_as] in *.
  - apply add_order_rep; [by apply Hext|apply Hev|intros s'; by apply Hfr|done].
  - destruct Hev as (q & Hf & Hq & _). assert (0 < ex_qty x) as Hq0 by lia.
    match goal with |- Rep ?r _ => assert (Rep r (upd f sym (take_shares (ex_resting_id x) (ex_qty x) (f sym)))) as HR' end.
    { eapply reduce_order_rep; [apply Hext; cbn; by destruct (orders_ b !! _)|exact Hf|exact Hq0]. }
    eapply rep_levels; [exact HR'| |]; intros s'; unfold upd; destruct (decide (s' = sym)); try done.
  - destruct Hev as (s & px & q & Hf & Hq). destruct (ca_removed x); cbn [on_message].
    + unfold drop_order. rewrite Hf. eapply remove_order_rep; [by apply Hext|exact Hf].
    + eapply reduce_order_rep; [by apply Hext|exact Hf|]. cbn. lia.
  - destruct Hev as (Hni & Hp & Hq & px & q & Hf). rewrite Hf in *.
    pose proof (proj2 (rp_orders _ _ HR (re_old_id x) (mkBuilderOrder sym (re_side x) px q)) Hf) as Ho.
    set (b0 := set_ts _ _). change (orders_ b0) with (orders_ b). cbn [Itch.ou_original_ref].
    rewrite Ho. cbn [bo_symbol bo_side Itch.ou_new_ref Itch.ou_price Itch.ou_shares].
    assert (Rep b0 f) as HR0 by by apply Hext.
    pose proof (remove_order_rep b0 f (re_old_id x) sym (re_side x) px q HR0 Hf) as HR1.
    pose proof (Spec.find_order_side _ _ _ _ _ Hf) as Hs.
    eapply rep_ext; [eapply (add_order_rep _ _ (re_new_id x) sym (re_side x));
      [exact HR1|exact Hs| |]| |done|done].
    + intros s' Hin. unfold upd in Hin. destruct (decide (s' = sym)) as [->|].
      * apply Spec.remove_ids in Hin. done.
      * by apply (Hfr _ s' eq_refl).
    + by rewrite upd_book_eq.
    + intros s'. destruct (decide (s' = sym)) as [->|Hne]; [by rewrite !upd_book_eq|by rewrite !upd_book_ne].
Qed.

(** ** Whole streams *)

Lemma on_message_messages m b : messages_ (on_message m b) = u64 (messages_ b + 1).
Proof.
  assert (forall r c, messages_ (remove_order r c) = messages_ c) as Hrem
    by (intros r c; unfold remove_order; by destruct (orders_ c !! r)).
  assert (forall r k c, messages_ (reduce_order r k c) = messages_ c) as Hred.
  { intros r k c. unfold reduce_order. destruct (orders_ c !! r); [|done].
    by destruct (_ <=? _); [apply Hrem|]. }
  destruct m as [| | | | | | | | | |]; cbn [on_message]; try done; rewrite ?Hred, ?Hrem; try done.
  - by destruct (orders_ _ !! _).
  - destruct (orders_ _ !! _); [|done]. cbn. by rewrite Hrem.
Qed.

(** The messages of a stream, one after the other. *)
Lemma on_blocks_rep ms : forall datas b f f',
  market f ms f' -> Forall2 message_of ms datas -> Forall encodable ms -> Rep b f ->
  exists b', on_blocks datas b = Ok b' /\ Rep b' f' /\
    wrap 64 (messages_ b') = wrap 64 (messages_ b + lengthZ ms).
Proof.
  induction ms as [|m ms IH]; intros datas b f f' Hm H2 Hok HR;
    inversion Hm as [? ? Hff|? ? ? ? Hs Hm']; subst; inversion H2 as [|? d ? ds Hd H2']; subst.
  { exists b. split; [done|]. split; [by eapply rep_ext|]. f_equal. unfold lengthZ. cbn. lia. }
  apply Forall_cons in Hok as [Hm0 Hok]. destruct Hd as (locate & Hl & ->). cbn [on_blocks].
  rewrite Itch.decode_wire, outcome_bind_Ok by (by apply itch_message_ok).
  destruct (IH ds (on_message (Feed.itch_message m locate) b) _ _ Hm' H2' Hok)
    as (b' & -> & HR' & Hn); [by apply on_message_rep|].
  exists b'. split_and!; [done|done|]. rewrite Hn, on_message_messages.
  rewrite wrap_add_l. f_equal. unfold lengthZ. cbn [length]. lia.
Qed.

(** ** Snapshots *)

Lemma mapM_map {A B C} (f : A -> outcome B) (g : C -> A) (h : C -> B) (l : list C) :
  Forall (fun x => f (g x) = Ok (h x)) l -> mapM f (map g l) = Ok (map h l).
Proof.
  induction 1 as [|x l Hx _ IH]; [done|]. cbn [map mapM]. by rewrite Hx, outcome_bind_Ok, IH.
Qed.

Lemma fill_rep b f sym s ls :
  Rep b f -> valid_side s -> Spec.levels s (f sym) = ls ->
  fill (orders_ b) (skel ls) = Ok (map (fun p => mkSnapLevel p.1 p.2) ls).
Proof.
  intros HR Hs Hls. apply mapM_map, Forall_forall. intros [px os] Hin. unfold fill_level.
  cbn [fst snd]. erewrite (mapM_map _ so_id (fun o => o)); [by rewrite map_id|].
  apply Forall_forall. intros [id q] Ho.
  cbn [so_id]. rewrite (proj2 (rp_orders _ _ HR id (mkBuilderOrder sym s px q))); [done|].
  apply Spec.find_order_spec; [apply HR|done|]. cbn. rewrite Hls. eauto.
Qed.

Lemma snapshot_rep b f sym :
  Rep b f -> snapshot sym b = Ok (Spec.to_snapshot (f sym)).
Proof.
  intros HR. pose proof (rp_books _ _ HR sym Buy (or_introl eq_refl)) as Hb.
  pose proof (rp_books _ _ HR sym Sell (or_intror eq_refl)) as Ha.
  pose proof (fill_rep b f sym Buy _ HR (or_introl eq_refl) eq_refl) as Fb.
  pose proof (fill_rep b f sym Sell _ HR (or_intror eq_refl) eq_refl) as Fa.
  rewrite <- Hb in Fb. rewrite <- Ha in Fa.
  unfold snapshot, book_of, side_map, Spec.levels in *. cbn [is_buy] in *.
  destruct (books_ b !! sym) as [k|]; cbn [from_option id] in *.
  - rewrite Fb, outcome_bind_Ok, Fa, outcome_bind_Ok. done.
  - injection Fb as Fb. injection Fa as Fa. unfold Spec.to_snapshot. by rewrite <- Fb, <- Fa.
Qed.

Lemma init_rep : Rep init (fun _ => Spec.empty).
Proof.
  split.
  - intros id o. cbn. rewrite lookup_empty. done.
  - intros sym s Hs. unfold book_of. cbn. rewrite lookup_empty. by destruct Hs as [-> | ->].
  - intros _. apply Spec.empty_wf.
Qed.

(** ** Packets *)

(** The datagrams a client receives, one after the other, with the answers of
    [on_mold_packet]. *)
Fixpoint on_packets (pkts : list bytes) (b : ItchBookBuilder)
    : outcome (list bool * ItchBookBuilder) :=
  match pkts with
  | [] => Ok ([], b)
  | p :: pkts =>
      '(eos, b) ← on_mold_packet p b;
      '(flags, b) ← on_packets pkts b;
      Ok (eos :: flags, b)
  end.

Lemma on_message_gaps m g b : on_message m (set_gaps g b) = set_gaps g (on_message m b).
Proof.
  assert (forall r c, remove_order r (set_gaps g c) = set_gaps g (remove_order r c)) as Hrem
    by (intros r c; unfold remove_order; cbn; by destruct (orders_ c !! r)).
  assert (forall r k c, reduce_order r k (set_gaps g c) = set_gaps g (reduce_order r k c)) as Hred.
  { intros r k c. unfold reduce_order. cbn. destruct (orders_ c !! r); [|done].
    destruct (_ <=? _); [apply Hrem|done]. }
  destruct m as [| | | | |m| | | |m|]; cbn [on_message]; try done.
  all: rewrite <- ?Hred, <- ?Hrem; try done.
  - cbn. by destruct (orders_ b !! _).
  - cbn. destruct (orders_ b !! _); [|done].
    match goal with |- add_order _ _ _ _ _ (remove_order ?r ?c) = _ =>
      change c with (set_gaps g (set_ts (Itch.h_timestamp (Itch.ou_header m))
        (set_messages (u64 (messages_ b + 1)) b))) end.
    by rewrite Hrem.
Qed.

Lemma on_blocks_gaps datas g : forall b b',
  on_blocks datas b = Ok b' -> on_blocks datas (set_gaps g b) = Ok (set_gaps g b').
Proof.
  induction datas as [|d ds IH]; intros b b'; cbn [on_blocks]; [by intros [= <-]|].
  destruct (Itch.decode d) as [[m|]| |]; try done; rewrite !outcome_bind_Ok; [|apply IH].
  rewrite on_message_gaps. apply IH.
Qed.

Lemma on_blocks_app ds ds' : forall b b',
  on_blocks (ds ++ ds') b = Ok b' -> exists b1, on_blocks ds b = Ok b1 /\ on_blocks ds' b1 = Ok b'.
Proof.
  induction ds as [|d ds IH]; intros b b'; cbn [app on_blocks]; [eauto|].
  destruct (Itch.decode d) as [r| |]; try done. rewrite !outcome_bind_Ok. apply IH.
Qed.

(** Handling the packets is receiving the messages and applying them. *)
Lemma on_packets_receive pkts : forall ms g b b',
  Mold.receive pkts (gaps_ b) = Ok (ms, g) -> on_blocks ms b = Ok b' ->
  exists flags, on_packets pkts b = Ok (flags, set_gaps g b').
Proof.
  induction pkts as [|p pkts IH]; intros ms g b b'; cbn [Mold.receive on_packets].
  { intros [= <- <-] [= <-]. exists []. by destruct b. }
  unfold on_mold_packet. destruct (Mold.parse p) as [[k|]| |]; try done; rewrite !outcome_bind_Ok.
  - destruct (Mold.on_packet _ _ _) as [gap g1]. destruct (Mold.receive pkts g1) as [[ms1 g2]| |] eqn:E;
      try done. rewrite outcome_bind_Ok. intros [= <- <-] Hb.
    apply on_blocks_app in Hb as (b1 & Hb1 & Hb2).
    rewrite (on_blocks_gaps _ g1 _ _ Hb1), !outcome_bind_Ok.
    destruct (IH ms1 g2 (set_gaps g1 b1) (set_gaps g1 b')) as (flags & ->);
      [exact E|by apply on_blocks_gaps|]. rewrite outcome_bind_Ok. by eexists.
  - intros Hr Hb. destruct (IH ms g b b' Hr Hb) as (flags & ->).
    rewrite outcome_bind_Ok. by eexists.
Qed.

(** The answers to the packets of a stream: only the closing packet ends the
    session. *)
Lemma on_packets_flags session mtu groups :
  length session = 10%nat -> Forall is_byte session -> mtu < 2 ^ 16 ->
  forall s ps fin flags b b',
  Forall (stream_group mtu session) groups -> 0 <= s -> s + lengthZ (concat groups) < 2 ^ 64 ->
  ps `sublist_of` Mold.packets_from session s groups ->
  fits 64 fin ->
  on_packets (ps ++ [Mold.header_bytes session fin Mold.kEndOfSessionCount]) b = Ok (flags, b') ->
  flags = replicate (length ps) false ++ [true].
Proof.
  intros Hs Hsb Hmtu. induction groups as [|g gs IH]; intros s ps fin flags b b' Hg H0 Hb Hps Hfin;
    cbn [Mold.packets_from concat] in *.
  - apply sublist_nil_r in Hps as ->. cbn [app on_packets]. unfold on_mold_packet.
    rewrite parse_end, outcome_bind_Ok by done. destruct (Mold.on_packet _ _ _) as [gap g].
    cbn [Mold.pk_messages on_blocks Mold.pk_end_of_session]. rewrite !outcome_bind_Ok.
    by intros [= <- _].
  - apply Forall_cons in Hg as [Hg0 Hg]. rewrite lengthZ_app in Hb.
    pose proof (lengthZ_nonneg g). pose proof (lengthZ_nonneg (concat gs)).
    apply sublist_cons_r in Hps as [Hps|(ps' & -> & Hps)].
    + intros Hr. eapply (IH (s + lengthZ g)); try done; lia.
    + cbn [app on_packets]. unfold on_mold_packet.
      rewrite (parse_stream_group _ mtu) by (done || unfold fits; lia). rewrite outcome_bind_Ok.
      destruct (Mold.on_packet _ _ _) as [gap g1]. cbn [Mold.pk_messages Mold.pk_end_of_session].
      destruct (on_blocks g (set_gaps g1 b)) as [b1| |]; try done. rewrite !outcome_bind_Ok.
      destruct (on_packets _ b1) as [[fl b2]| |] eqn:E; try done. rewrite outcome_bind_Ok.
      intros [= <- <-]. cbn [length replicate app]. f_equal.
      eapply (IH (s + lengthZ g)); try done; lia.
Qed.
