(* ===== verification/ItchBookSound.v ===== *)
(** The market-data client when messages are missing: whichever of a session's
    messages arrive, its tables stay consistent with each other (every
    reference queued in a ladder is that of an order of the table, with the
    symbol, side and price of the ladder), so that a snapshot never fails, and
    the prices it shows are prices of the wire. What may be wrong after a gap
    is which orders it knows. *)

From S2P Require Import Prelude StdMap Endian BookTypes BookSpec BookReplay Wire Itch Engine EngineInv EngineRuns MarketReplay EngineFeed Capture Feed FeedRefines ItchBook ItchBookRefines.
Import ItchBook.

Record sound (b : ItchBookBuilder) : Prop := {
  sd_sorted : forall sym s, valid_side s -> StdMap.sorted (before s) (side_map s (book_of sym b));
  sd_prices : forall sym s, valid_side s ->
    Forall (fun l => fits 32 l.1) (side_map s (book_of sym b));
  sd_known : forall sym s px refs ref, valid_side s ->
    StdMap.find px (side_map s (book_of sym b)) = Some refs -> ref ∈ refs ->
    exists q, orders_ b !! ref = Some (mkBuilderOrder sym s px q);
  sd_sides : forall ref o, orders_ b !! ref = Some o -> valid_side (bo_side o) }.

Lemma sound_ext b b' : sound b -> orders_ b' = orders_ b -> books_ b' = books_ b -> sound b'.
Proof.
  intros [H1 H2 H3 H4] Ho Hb. split; unfold book_of in *; rewrite ?Ho, ?Hb; auto.
Qed.

Lemma init_sound : sound init.
Proof.
  assert (forall sym s, valid_side s -> side_map s (book_of sym init) = []) as E
    by (intros sym s [-> | ->]; unfold book_of; cbn; by rewrite lookup_empty).
  split; [intros sym s Hs; rewrite E by done; constructor..| |].
  - intros sym s px refs ref Hs. by rewrite E.
  - intros ref o. cbn. by rewrite lookup_empty.
Qed.

(** ** Updates *)

Lemma side_map_store b b' sym s m sym' s' :
  valid_side s -> valid_side s' ->
  books_ b' = <[sym := set_side_map s m (book_of sym b)]> (books_ b) ->
  side_map s' (book_of sym' b') =
    if decide (sym' = sym /\ s' = s) then m else side_map s' (book_of sym' b).
Proof.
  intros Hs Hs' Hb. unfold book_of at 1. rewrite Hb. destruct (decide (sym' = sym)) as [->|Hne].
  - rewrite lookup_insert_eq. cbn [from_option id]. rewrite side_map_set by done. repeat case_decide; naive_solver.
  - rewrite lookup_insert_ne by done. rewrite decide_False by naive_solver. done.
Qed.

Lemma find_erase_from s px ref m px' refs :
  StdMap.sorted (before s) m -> StdMap.find px' (erase_from px ref m) = Some refs ->
  exists refs0, StdMap.find px' m = Some refs0 /\
    (forall r, r ∈ refs -> r ∈ refs0 /\ (px' = px -> r <> ref)).
Proof.
  intros Hm. unfold erase_from. destruct (StdMap.find px m) as [refs0|] eqn:E.
  2:{ intros Hf. exists refs. split; [done|]. intros r Hr. split; [done|]. intros ->. congruence. }
  assert (StdMap.find px' (StdMap.erase px m) = Some refs -> exists refs0', StdMap.find px' m = Some refs0' /\
    (forall r, r ∈ refs -> r ∈ refs0' /\ (px' = px -> r <> ref))) as Her.
  { rewrite (StdMap.sm_find_erase (before s)) by done. destruct (Z.eqb_spec px px'); [done|].
    intros Hf. exists refs. split; [done|]. intros r Hr. split; [done|]. by intros ->. }
  cbv zeta. destruct (filter _ refs0) as [|r0 l] eqn:Ef; [exact Her|].
  rewrite StdMap.sm_find_update. destruct (Z.eqb_spec px px') as [<-|Hne].
  - rewrite E. intros [= <-]. exists refs0. split; [done|]. intros r Hr. rewrite <- Ef in Hr.
    apply list_elem_of_filter in Hr as [Hr Hin]. done.
  - intros Hf. exists refs. split; [done|]. intros r Hr. split; [done|]. by intros ->.
Qed.

Lemma sorted_erase_from s px ref m :
  StdMap.sorted (before s) m -> StdMap.sorted (before s) (erase_from px ref m).
Proof.
  intros Hm. unfold erase_from. destruct (StdMap.find px m); [|done]. cbv zeta.
  destruct (filter _ _); [by apply StdMap.sm_sorted_erase|by apply StdMap.sm_sorted_update].
Qed.

Lemma erase_from_prices px ref m (P : Z -> Prop) :
  Forall (fun l => P l.1) m -> Forall (fun l => P l.1) (erase_from px ref m).
Proof.
  intros Hm. unfold erase_from. destruct (StdMap.find px m); [|done]. cbv zeta.
  destruct (filter _ _); [by apply StdMap.sm_erase_Forall|by apply StdMap.sm_update_Forall].
Qed.

Lemma remove_order_sound ref b : sound b -> sound (remove_order ref b).
Proof.
  intros [H1 H2 H3 H4]. unfold remove_order. destruct (orders_ b !! ref) as [o|] eqn:Ho; [|by split].
  cbv zeta. pose proof (H4 _ _ Ho) as Hs. set (m := erase_from _ _ _). set (b' := set_orders _ _).
  assert (forall sym' s', valid_side s' -> side_map s' (book_of sym' b') =
    if decide (sym' = bo_symbol o /\ s' = bo_side o) then m else side_map s' (book_of sym' b)) as E
    by (intros sym' s' Hs'; by apply (side_map_store b)).
  split.
  - intros sym s Hv. rewrite E by done. case_decide as Hd; [destruct Hd as [-> ->]; by apply sorted_erase_from, H1|by apply H1].
  - intros sym s Hv. rewrite E by done. case_decide; [by apply (erase_from_prices _ _ _ (fits 32)), H2|by apply H2].
  - intros sym s px refs r Hv Hf Hr. rewrite E in Hf by done. cbn [orders_ b' set_orders].
    assert (exists refs0, StdMap.find px (side_map s (book_of sym b)) = Some refs0 /\ r ∈ refs0 /\
      (sym = bo_symbol o -> s = bo_side o -> px = bo_price o -> r <> ref)) as (refs0 & Hf0 & Hr0 & Hne).
    { case_decide as Hd.
      - destruct Hd as [-> ->]. apply (find_erase_from (bo_side o)) in Hf as (refs0 & Hf0 & Hin); [|by apply H1].
        destruct (Hin r Hr). exists refs0. by split_and!.
      - exists refs. split_and!; [done|done|]. intros. by destruct Hd. }
    destruct (H3 _ _ _ _ _ Hv Hf0 Hr0) as (q & Hq). exists q. rewrite lookup_delete_ne; [done|].
    intros <-. rewrite Ho in Hq. injection Hq as ->. by apply Hne.
  - intros r x. cbn [orders_ b' set_orders]. intros [_ Hx]%lookup_delete_Some. by eapply H4.
Qed.

Lemma reduce_order_sound ref k b : sound b -> sound (reduce_order ref k b).
Proof.
  intros Hb. unfold reduce_order. destruct (orders_ b !! ref) as [o|] eqn:Ho; [|done].
  destruct (_ <=? _); [by apply remove_order_sound|]. destruct Hb as [H1 H2 H3 H4].
  split; [exact H1|exact H2| |].
  - intros sym s px refs r Hv Hf Hr. destruct (H3 _ _ _ _ _ Hv Hf Hr) as (q & Hq).
    cbn [orders_ set_orders]. destruct (decide (r = ref)) as [->|Hne].
    + rewrite Ho in Hq. injection Hq as ->. rewrite lookup_insert_eq. eauto.
    + rewrite lookup_insert_ne by done. eauto.
  - intros r x. cbn [orders_ set_orders]. intros [[<- <-]|[_ Hx]]%lookup_insert_Some; [cbn; by eapply H4|by eapply H4].
Qed.

Lemma add_order_sound ref sym s px q b :
  sound b -> orders_ b !! ref = None -> valid_side s -> fits 32 px ->
  sound (add_order ref sym s px q b).
Proof.
  intros [H1 H2 H3 H4] Hfr Hs Hpx. unfold add_order. cbv zeta. set (b0 := set_orders _ _).
  set (m := StdMap.upsert _ _ _ _ _). set (b' := set_books _ _).
  assert (forall sym' s', valid_side s' -> side_map s' (book_of sym' b') =
    if decide (sym' = sym /\ s' = s) then m else side_map s' (book_of sym' b)) as E
    by (intros sym' s' Hs'; by apply (side_map_store b)).
  split.
  - intros sym' s' Hv. rewrite E by done. case_decide as Hd; [destruct Hd as [-> ->]; apply StdMap.sm_sorted_upsert; [apply _|exact (H1 sym s Hv)]|by apply H1].
  - intros sym' s' Hv. rewrite E by done. case_decide; [|by apply H2].
    apply (StdMap.sm_upsert_Forall _ (fun l => fits 32 l.1)); [exact (H2 sym s Hs)|done|done].
  - intros sym' s' px' refs r Hv Hf Hr. rewrite E in Hf by done. cbn [orders_ b' b0 set_books set_orders].
    assert ((r = ref /\ sym' = sym /\ s' = s /\ px' = px) \/
      exists refs0, StdMap.find px' (side_map s' (book_of sym' b)) = Some refs0 /\ r ∈ refs0) as [(-> & -> & -> & ->)|(refs0 & Hf0 & Hr0)].
    { case_decide as Hd; [|eauto]. destruct Hd as [-> ->]. destruct (decide (px' = px)) as [->|Hne].
      - unfold m in Hf. rewrite (StdMap.sm_find_upsert_eq (before s)) in Hf by exact (H1 sym s Hs). injection Hf as <-.
        apply elem_of_app in Hr as [Hr|Hr]; [|left; set_solver].
        change (book_of sym b0) with (book_of sym b) in Hr.
        destruct (StdMap.find px _) as [refs0|]; [eauto|by apply elem_of_nil in Hr].
      - unfold m in Hf. rewrite StdMap.sm_find_upsert_ne in Hf by done. eauto. }
    + rewrite lookup_insert_eq. eauto.
    + destruct (H3 _ _ _ _ _ Hv Hf0 Hr0) as (q' & Hq'). exists q'.
      rewrite lookup_insert_ne; [done|]. intros <-. congruence.
  - intros r x. cbn [orders_ b' b0 set_books set_orders].
    intros [[<- <-]|[_ Hx]]%lookup_insert_Some; [done|by eapply H4].
Qed.

(** ** Messages *)

(** The orders known after an update. *)
Lemma remove_order_known ref b r : is_Some (orders_ (remove_order ref b) !! r) -> is_Some (orders_ b !! r).
Proof.
  unfold remove_order. destruct (orders_ b !! ref); [|done]. cbn. rewrite lookup_delete_is_Some. by intros [].
Qed.

Lemma reduce_order_known ref k b r : is_Some (orders_ (reduce_order ref k b) !! r) -> is_Some (orders_ b !! r).
Proof.
  unfold reduce_order. destruct (orders_ b !! ref) as [o|] eqn:Ho; [|done].
  destruct (_ <=? _); [apply remove_order_known|]. cbn [orders_ set_orders].
  rewrite lookup_insert_is_Some. intros [<-|[_ Hr]]; [by rewrite Ho|done].
Qed.

(** A message of the feed keeps the tables consistent, as long as the reference
    of a new order is not known yet. *)
Lemma on_message_sound m locate b :
  sound b -> encodable m -> (forall id, rests_as (Engine.me_ev m) = Some id -> orders_ b !! id = None) ->
  let b' := on_message (Feed.itch_message m locate) b in
  sound b' /\ forall r, is_Some (orders_ b' !! r) -> is_Some (orders_ b !! r) \/ rests_as (Engine.me_ev m) = Some r.
Proof.
  intros Hb (_ & _ & Hf & Hside) Hfr b'.
  assert (forall c, orders_ c = orders_ b -> books_ c = books_ b -> sound c) as Hext by (intros; by apply (sound_ext b)).
  unfold b', Feed.itch_message. destruct (Engine.me_ev m) as [x|x|x|x]; cbn [ev_fits rests_as] in *.
  - cbn [on_message]. split.
    + apply add_order_sound; [by apply Hext|by apply Hfr|done|apply Hf].
    + intros r. cbn. rewrite lookup_insert_is_Some. intros [<-|[_ Hr]]; [by right|by left].
  - cbn [on_message]. split.
    + apply reduce_order_sound, Hext; cbn; by destruct (orders_ b !! _).
    + intros r Hr%reduce_order_known. left. revert Hr. cbn. by destruct (orders_ b !! ex_resting_id x).
  - destruct (ca_removed x); cbn [on_message].
    + split; [by apply remove_order_sound, Hext|]. intros r Hr%remove_order_known. by left.
    + split; [by apply reduce_order_sound, Hext|]. intros r Hr%reduce_order_known. by left.
  - cbn [on_message]. set (b0 := set_ts _ _). cbn [Itch.ou_original_ref].
    assert (sound b0) as Hb0 by by apply Hext.
    destruct (orders_ b0 !! re_old_id x) as [o|] eqn:Ho; [|split; [done|by left]].
    assert (orders_ (remove_order (re_old_id x) b0) !! re_new_id x = None) as Hn.
    { apply eq_None_not_Some. intros Hr%remove_order_known. change (orders_ b0) with (orders_ b) in Hr.
      rewrite (Hfr _ eq_refl) in Hr. by destruct Hr. }
    split.
    + apply add_order_sound; [by apply remove_order_sound|done|by eapply sd_sides|apply Hf].
    + intros r. cbn [orders_ add_order set_books set_orders Itch.ou_new_ref].
      rewrite lookup_insert_is_Some. intros [<-|[_ Hr%remove_order_known]]; [by right|by left].
Qed.

(** Any part of a stream whose new orders have references of their own. *)
Lemma on_blocks_sound ms : forall datas b,
  Forall2 message_of ms datas -> Forall encodable ms -> NoDup (rested ms) ->
  (forall id, id ∈ rested ms -> orders_ b !! id = None) -> sound b ->
  exists b', on_blocks datas b = Ok b' /\ sound b'.
Proof.
  induction ms as [|m ms IH]; intros datas b H2 Hok Hnd Hfr Hb; inversion H2 as [|? d ? ds Hd H2']; subst;
    [by exists b|].
  apply Forall_cons in Hok as [Hm Hok]. destruct Hd as (locate & Hl & ->). cbn [on_blocks].
  rewrite Itch.decode_wire, outcome_bind_Ok by (by apply itch_message_ok).
  assert (forall id, rests_as (Engine.me_ev m) = Some id -> id ∈ rested (m :: ms)) as Hhd
    by (intros id Hid; unfold rested; cbn; rewrite Hid; by left).
  assert (forall id, id ∈ rested ms -> id ∈ rested (m :: ms) /\ rests_as (Engine.me_ev m) <> Some id) as Htl.
  { intros id Hid. unfold rested in *. cbn in *. destruct (rests_as (Engine.me_ev m)) as [i|]; [|done].
    apply NoDup_cons in Hnd as [Hni _]. split; [by right|]. by intros [= ->]. }
  destruct (on_message_sound m locate b Hb Hm) as [Hb' Hk]; [intros id Hid; by apply Hfr, Hhd|].
  apply IH; [done|done| | |done].
  - unfold rested in *. cbn in Hnd. destruct (rests_as (Engine.me_ev m)); [by apply NoDup_cons in Hnd as []|done].
  - intros id Hid. destruct (Htl id Hid) as [Hin Hne]. apply eq_None_not_Some. intros [Hs|Hs]%Hk; [|done].
    rewrite (Hfr id Hin) in Hs. by destruct Hs.
Qed.

Lemma rested_sublist ms ms' : ms `sublist_of` ms' -> rested ms `sublist_of` rested ms'.
Proof.
  induction 1 as [|m ms ms' _ IH|m ms ms' _ IH]; unfold rested in *; cbn; [constructor| |];
    destruct (rests_as (Engine.me_ev m)); try (by constructor); done.
Qed.

(** ** Snapshots *)

Lemma mapM_known {A B} (f : A -> outcome B) (l : list A) :
  (forall x, x ∈ l -> exists y, f x = Ok y) -> exists k, mapM f l = Ok k /\ Forall2 (fun x y => f x = Ok y) l k.
Proof.
  induction l as [|x l IH]; intros Hf; [by exists []|]. destruct (Hf x) as (y & Hy); [by left|].
  destruct IH as (k & Hk & H2); [intros; apply Hf; by right|].
  exists (y :: k). cbn [mapM]. rewrite Hy, outcome_bind_Ok, Hk. by split; [|constructor].
Qed.

Lemma fill_known (orders : gmap Z BuilderOrder) (m : list (Price * list Z)) :
  (forall px refs ref, (px, refs) ∈ m -> ref ∈ refs -> is_Some (orders !! ref)) ->
  exists ls, fill orders m = Ok ls /\ Forall2 (fun p l => sl_price l = p.1) m ls.
Proof.
  intros Hk. assert (forall p, p ∈ m -> exists l, fill_level orders p = Ok l /\ sl_price l = p.1) as Hl.
  { intros [px refs] Hp. unfold fill_level. cbn [fst snd].
    match goal with |- context [mapM ?f refs] => destruct (mapM_known f refs) as (os & -> & _) end;
      [|rewrite outcome_bind_Ok; by eexists].
    intros ref Hr. destruct (Hk _ _ _ Hp Hr) as [o ->]. eauto. }
  destruct (mapM_known (fill_level orders) m) as (ls & Hls & H2).
  { intros p Hp. destruct (Hl p Hp) as (l & Hl' & _). eauto. }
  exists ls. split; [done|]. apply Forall2_same_length_lookup_2; [by eapply Forall2_length|].
  intros i p l Hp Hi. destruct (Hl p) as (l' & Hl' & <-); [by eapply list_elem_of_lookup_2|].
  pose proof (Forall2_lookup_lr _ _ _ _ _ _ H2 Hp Hi) as E. cbn in E. congruence.
Qed.

(** A snapshot is always given, with prices of the wire. *)
Lemma snapshot_sound sym b :
  sound b -> exists snap, snapshot sym b = Ok snap /\
    Forall (fun l => fits 32 (sl_price l)) (bs_bids snap) /\ Forall (fun l => fits 32 (sl_price l)) (bs_asks snap).
Proof.
  intros Hb. unfold snapshot. destruct (books_ b !! sym) as [k|] eqn:E;
    [|by eexists; split; [done|]; split; constructor].
  assert (book_of sym b = k) as Hk by (unfold book_of; by rewrite E).
  assert (forall s, valid_side s -> exists ls, fill (orders_ b) (side_map s k) = Ok ls /\
    Forall (fun l => fits 32 (sl_price l)) ls) as H.
  { intros s Hs. destruct (fill_known (orders_ b) (side_map s k)) as (ls & Hls & Hp).
    - intros px refs ref Hin Hr. rewrite <- Hk in Hin.
      destruct (sd_known _ Hb sym s px refs ref Hs) as (q & ->); [|done|done].
      apply (StdMap.sm_elem_find (before s)); [by apply sd_sorted|done].
    - exists ls. split; [done|]. pose proof (sd_prices _ Hb sym s Hs) as Hpx. rewrite Hk in Hpx.
      clear - Hp Hpx. induction Hp as [|p l m ls E _ IH]; [constructor|].
      apply Forall_cons in Hpx as [Hx Hpx]. constructor; [by rewrite E|auto]. }
  destruct (H Buy (or_introl eq_refl)) as (bids & Hbids & Hp1), (H Sell (or_intror eq_refl)) as (asks & Hasks & Hp2).
  cbn [side_map is_buy] in Hbids, Hasks. unfold side_map in Hbids, Hasks. cbn in Hbids, Hasks.
  rewrite Hbids, outcome_bind_Ok, Hasks, outcome_bind_Ok. eexists. by split.
Qed.
