(* ===== verification/EndToEnd.v ===== *)
(** The whole path of market data: commands go through the engine, its events
    through the publisher, the datagrams through a network that may lose some
    of them, and the client rebuilds the books. *)

From S2P Require Import Prelude StdMap Endian BookTypes BookSpec BookReplay Wire Symbols Ouch Itch Mold EngineBook Engine EngineInv EngineRuns MarketReplay EngineFeed EngineClaims Capture Feed FeedRefines ItchBook ItchBookRefines ItchBookSound.
From Stdlib Require Import Ascii.

Lemma market_encodable f ms f' :
  market f ms f' -> Forall (fun m => fits 48 (Engine.me_ts m)) ms -> Forall encodable ms.
Proof.
  induction 1 as [|f m ms f' Hs _ IH]; intros Ht; [constructor|].
  apply Forall_cons in Ht as [Ht0 Ht]. constructor; [by eapply step_encodable|auto].
Qed.

Lemma session_encodable cmds e :
  session_ok cmds -> Forall (fun c => fits 48 c.1) cmds -> engine_run cmds = Some e ->
  Forall encodable (Engine.to_feed_ e).
Proof.
  intros Hc Hts He. destruct (engine_run_spec cmds Hc) as (e' & S & Hr & _ & Ht & Hm & _).
  rewrite He in Hr. injection Hr as <-. apply (market_encodable _ _ _ Hm). eapply Forall_impl; [exact Ht|]. cbn.
  intros m (c & -> & Hin)%list_elem_of_fmap. rewrite Forall_forall in Hts. by apply Hts.
Qed.

(** Decoding never fails on the messages of a stream, whichever arrive. *)
Lemma on_blocks_total datas : forall b,
  Forall (fun d => exists m, Itch.decode d = Ok (Some m)) datas ->
  exists b', ItchBook.on_blocks datas b = Ok b'.
Proof.
  induction datas as [|d ds IH]; intros b Hd; cbn [ItchBook.on_blocks]; [eauto|].
  apply Forall_cons in Hd as [(m & ->) Hd]. rewrite outcome_bind_Ok. by apply IH.
Qed.

Lemma message_of_decodes ms datas :
  Forall encodable ms -> Forall2 message_of ms datas ->
  Forall (fun d => exists m, Itch.decode d = Ok (Some m)) datas.
Proof.
  intros Hok H2. induction H2 as [|m d ms ds (l & Hl & ->) _ IH]; [constructor|].
  apply Forall_cons in Hok as [Hm Hok]. constructor; [|auto].
  eexists. apply Itch.decode_wire. by apply itch_message_ok.
Qed.

Lemma length_make_session sv : length (Mold.make_session sv) = 10%nat.
Proof. apply length_copy_chars. Qed.

Lemma message_of_sizes ms datas :
  Forall encodable ms -> Forall2 message_of ms datas -> Forall (fun d => lengthZ d <= 44) datas.
Proof.
  intros Hok H2. induction H2 as [|m d ms ds (l & Hl & ->) _ IH]; [constructor|].
  apply Forall_cons in Hok as [Hm Hok]. constructor; [|auto].
  unfold lengthZ. rewrite Itch.length_wire by (by apply itch_message_ok).
  unfold Feed.itch_message. destruct (Engine.me_ev m) as [x|x|x|x]; [| |destruct (ca_removed x)|]; by vm_compute.
Qed.

(** The events of each packet. *)
Lemma split_events groups : forall ms,
  Forall2 message_of ms (concat groups) ->
  exists evs, concat evs = ms /\ Forall2 (Forall2 message_of) evs groups.
Proof.
  induction groups as [|g gs IH]; intros ms H; cbn [concat] in H.
  - apply Forall2_nil_inv_r in H as ->. exists []. by split.
  - apply Forall2_app_inv_r in H as (m1 & m2 & H1 & H2 & ->). destruct (IH m2 H2) as (evs & <- & He).
    exists (m1 :: evs). split; [done|by constructor].
Qed.

Lemma packets_sizes session mtu : length session = 10%nat -> forall groups s,
  Forall (stream_group mtu session) groups -> Forall (fun d => lengthZ d <= 44) (concat groups) ->
  Forall (fun d => 20 <= lengthZ d <= Z.max mtu 66) (Mold.packets_from session s groups).
Proof.
  intros Hs. induction groups as [|g gs IH]; intros s Hg Hl; cbn [Mold.packets_from concat] in *; [constructor|].
  apply Forall_cons in Hg as [Hg Hgs]. apply Forall_app in Hl as [Hl Hls]. constructor; [|by apply IH].
  unfold Mold.packet_bytes. rewrite lengthZ_app.
  replace (lengthZ (Mold.header_bytes _ _ _)) with 20 by (unfold lengthZ; by rewrite Mold.length_header).
  pose proof (lengthZ_nonneg (Mold.blocks g)).
  destruct Hg as [->|(_ & _ & [H1|Hle])].
  - change (lengthZ (Mold.blocks [])) with 0. lia.
  - destruct g as [|d [|]]; try (unfold lengthZ in H1; cbn [length] in H1; lia).
    apply Forall_cons in Hl as [Hd _]. unfold Mold.blocks, lengthZ in *. cbn [map concat].
    rewrite app_nil_r, length_framed. lia.
  - rewrite length_app, Mold.length_header in Hle by done. unfold lengthZ in *. lia.
Qed.

(** The client's snapshot of every symbol is the engine's. *)
Definition client_agrees (e : Engine.Engine Fast) (b : ItchBook.ItchBookBuilder) : Prop :=
  forall sym, exists snap, @Engine.book_snapshot Fast (fast_engine_book default_cfg) sym e = Some snap /\
    ItchBook.snapshot sym b = Ok snap.

(** The publisher and the client, for the events of a session. *)
Lemma feed_delivers cmds sv mtu ns_since_midnight capture e :
  session_ok cmds -> Forall (fun c => fits 48 c.1) cmds ->
  Forall is_byte sv -> mtu < 2 ^ 16 -> engine_run cmds = Some e ->
  forall drains last, concat drains ++ last = Engine.to_feed_ e ->
  exists p pkts fin,
    Feed.run ns_since_midnight drains last (Feed.make sv mtu capture) = Ok p /\
    Feed.sent p = pkts ++ [fin] /\
    forall ps, ps `sublist_of` pkts ->
    exists b, on_packets (ps ++ [fin]) ItchBook.init
        = Ok (replicate (length ps) false ++ [true], b) /\
      (Mold.had_gap_ (ItchBook.gaps_ b) = false -> client_agrees e b) /\
      (ps = pkts -> Mold.had_gap_ (ItchBook.gaps_ b) = false).
Proof.
  intros Hc Hts Hsv Hmtu He drains last Hd. pose proof (feed_short _ _ Hc He) as Hlen.
  destruct (engine_run_spec cmds Hc) as (e' & S & Hr & [Hi _ _] & Ht & Hm & _).
  rewrite He in Hr. injection Hr as <-.
  set (session := Mold.make_session sv).
  assert (length session = 10%nat) as Hs by apply length_make_session.
  assert (Forall is_byte session) as Hsb 
    by (apply copy_chars_bytes; [|done]; by repeat (constructor; [done|])).
  assert (Forall encodable (Engine.to_feed_ e)) as Henc by (by apply (session_encodable cmds)).
  destruct (run_spec ns_since_midnight session mtu Hs Hsb Hmtu sv capture drains last)
    as (p & groups & Hrun & Hg & H2 & Hsent); [done|by rewrite Hd|by rewrite Hd|].
  rewrite Hd in H2.
  assert (lengthZ (concat groups) = lengthZ (Engine.to_feed_ e)) as Hgl
    by (unfold lengthZ; by rewrite (Forall2_length _ _ _ H2)).
  pose proof (lengthZ_nonneg (concat groups)).
  eexists p, _, _. split; [done|]. split; [exact Hsent|]. intros ps Hps.
  destruct (receive_stream session mtu Hs Hsb Hmtu groups 1 ps 1 false) as (ms & g & Hrec & Hsub & H1 & H3);
    [done|lia|lia|done|].
  assert (exists b, ItchBook.on_blocks ms ItchBook.init = Ok b) as (b & Hb).
  { apply on_blocks_total. eapply Forall_sublist; [exact Hsub|]. by eapply message_of_decodes. }
  destruct (on_packets_receive _ ms g ItchBook.init b Hrec Hb) as (flags & Hon).
  exists (ItchBook.set_gaps g b). split_and!.
  - rewrite Hon. do 2 f_equal.
    eapply (on_packets_flags session mtu groups Hs Hsb Hmtu 1 ps); [done|lia|lia|done| |exact Hon].
    unfold fits. lia.
  - intros Hgap. destruct (H1 Hgap) as (_ & _ & ->). intros sym.
    destruct (on_blocks_rep _ _ ItchBook.init _ _ Hm H2 Henc init_rep) as (b' & Hb' & HR & _).
    rewrite Hb in Hb'. injection Hb' as <-.
    eexists. split; [exact (book_snapshot_spec e S sym Hi)|].
    rewrite <- (snapshot_rep b _ sym HR). done.
  - intros Hall. by apply H3.
Qed.

(** The datagrams of a session are one contiguous stream of packets and its
    closing packet. *)
Lemma session_stream cmds sv mtu ns_since_midnight capture e drains last p :
  session_ok cmds -> Forall (fun c => fits 48 c.1) cmds ->
  Forall is_byte sv -> mtu < 2 ^ 16 -> engine_run cmds = Some e ->
  concat drains ++ last = Engine.to_feed_ e ->
  Feed.run ns_since_midnight drains last (Feed.make sv mtu capture) = Ok p ->
  exists groups,
    length (Mold.make_session sv) = 10%nat /\ Forall is_byte (Mold.make_session sv) /\
    Forall encodable (Engine.to_feed_ e) /\ Forall (stream_group mtu (Mold.make_session sv)) groups /\
    Forall2 message_of (Engine.to_feed_ e) (concat groups) /\
    Feed.sent p = Mold.packets_from (Mold.make_session sv) 1 groups ++
      [Mold.header_bytes (Mold.make_session sv) (1 + lengthZ (concat groups)) Mold.kEndOfSessionCount].
Proof.
  intros Hc Hts Hsv Hmtu He Hd Hrun. pose proof (feed_short _ _ Hc He) as Hlen.
  destruct (engine_run_spec cmds Hc) as (e' & S & Hr & _ & Ht & Hm & _).
  rewrite He in Hr. injection Hr as <-.
  assert (length (Mold.make_session sv) = 10%nat) as Hs by apply length_make_session.
  assert (Forall is_byte (Mold.make_session sv)) as Hsb
    by (apply copy_chars_bytes; [|done]; by repeat (constructor; [done|])).
  assert (Forall encodable (Engine.to_feed_ e)) as Henc by (by apply (session_encodable cmds)).
  destruct (run_spec ns_since_midnight _ mtu Hs Hsb Hmtu sv capture drains last)
    as (p' & groups & Hrun' & Hg & H2 & Hsent); [done|by rewrite Hd|by rewrite Hd|].
  rewrite Hrun in Hrun'. injection Hrun' as <-. rewrite Hd in H2. exists groups. by split_and!.
Qed.

(** They have at least a header, and at most the limit or, when the limit is
    smaller, one message. *)
Lemma feed_sizes cmds sv mtu ns_since_midnight capture e drains last p :
  session_ok cmds -> Forall (fun c => fits 48 c.1) cmds ->
  Forall is_byte sv -> mtu < 2 ^ 16 -> engine_run cmds = Some e ->
  concat drains ++ last = Engine.to_feed_ e ->
  Feed.run ns_since_midnight drains last (Feed.make sv mtu capture) = Ok p ->
  Forall (fun d => 20 <= lengthZ d <= Z.max mtu 66) (Feed.sent p).
Proof.
  intros Hc Hts Hsv Hmtu He Hd Hrun. pose proof (feed_short _ _ Hc He) as Hlen.
  destruct (session_stream cmds sv mtu ns_since_midnight capture e drains last p)
    as (groups & Hs & _ & Henc & Hg & H2 & ->); try assumption.
  apply Forall_app. split.
  - apply (packets_sizes _ _ Hs); [done|]. by eapply message_of_sizes.
  - constructor; [|constructor]. unfold lengthZ. rewrite Mold.length_header by done. lia.
Qed.

(** The events whose messages arrived. *)
Lemma received_events es datas ms :
  Forall2 message_of es datas -> ms `sublist_of` datas ->
  exists es', es' `sublist_of` es /\ Forall2 message_of es' ms.
Proof.
  intros H2. revert ms. induction H2 as [|m d es ds Hd _ IH]; intros ms Hsub.
  - apply sublist_nil_r in Hsub as ->. exists []. by split.
  - apply sublist_cons_r in Hsub as [Hsub|(ms' & -> & Hsub)]; destruct (IH _ Hsub) as (es' & H1 & H2).
    + exists es'. split; [by constructor|done].
    + exists (m :: es'). split; by constructor.
Qed.

Lemma on_blocks_count datas : forall c c',
  Forall (fun d => exists m, Itch.decode d = Ok (Some m)) datas -> ItchBook.on_blocks datas c = Ok c' ->
  ItchBook.messages_ c + lengthZ datas < 2 ^ 64 -> 0 <= ItchBook.messages_ c ->
  ItchBook.messages_ c' = ItchBook.messages_ c + lengthZ datas.
Proof.
  induction datas as [|d ds IH]; intros c c' Hd Hb Hn H0; cbn [ItchBook.on_blocks] in Hb.
  - injection Hb as <-. change (lengthZ (@nil bytes)) with 0. lia.
  - apply Forall_cons in Hd as [(m & Hm) Hd]. rewrite Hm, outcome_bind_Ok in Hb.
    assert (lengthZ (d :: ds) = lengthZ ds + 1) as Hl by (unfold lengthZ; cbn [length]; lia).
    pose proof (lengthZ_nonneg ds).
    rewrite (IH _ _ Hd Hb); rewrite on_message_messages, wrap_small by (unfold fits; lia); lia.
Qed.

(** Whichever messages a client received, its tables are consistent; and it
    counted every message when it has seen no gap. *)
Lemma feed_received cmds sv mtu ns_since_midnight capture e drains last p pkts fin ps flags b :
  session_ok cmds -> Forall (fun c => fits 48 c.1) cmds ->
  Forall is_byte sv -> mtu < 2 ^ 16 -> engine_run cmds = Some e ->
  concat drains ++ last = Engine.to_feed_ e ->
  Feed.run ns_since_midnight drains last (Feed.make sv mtu capture) = Ok p ->
  Feed.sent p = pkts ++ [fin] -> ps `sublist_of` pkts ->
  on_packets (ps ++ [fin]) ItchBook.init = Ok (flags, b) ->
  sound b /\ (Mold.had_gap_ (ItchBook.gaps_ b) = false ->
    ItchBook.messages_ b = lengthZ (Engine.to_feed_ e)).
Proof.
  intros Hc Hts Hsv Hmtu He Hd Hrun Hsent Hps Hon. pose proof (feed_short _ _ Hc He) as Hlen.
  destruct (session_stream cmds sv mtu ns_since_midnight capture e drains last p)
    as (groups & Hs & Hsb & Henc & Hg & H2 & Hsent'); try assumption.
  rewrite Hsent in Hsent'. apply app_inj_tail in Hsent' as [-> ->].
  assert (lengthZ (concat groups) = lengthZ (Engine.to_feed_ e)) as Hgl
    by (unfold lengthZ; by rewrite (Forall2_length _ _ _ H2)).
  pose proof (lengthZ_nonneg (concat groups)).
  destruct (receive_stream _ mtu Hs Hsb Hmtu groups 1 ps 1 false) as (ms & g & Hrec & Hsub & H1 & H3);
    [done|lia|lia|done|].
  destruct (received_events _ _ ms H2 Hsub) as (es & Hes & H2').
  destruct (on_blocks_sound es ms ItchBook.init H2') as (b1 & Hb1 & Hsound).
  - by eapply Forall_sublist.
  - eapply sublist_NoDup; [by eapply session_rested|by apply rested_sublist].
  - intros id _. apply lookup_empty.
  - apply init_sound.
  - destruct (on_packets_receive _ ms g ItchBook.init b1 Hrec Hb1) as (flags' & Hon').
    rewrite Hon in Hon'. injection Hon' as _ ->. split; [by apply (sound_ext b1)|].
    cbn [ItchBook.gaps_ ItchBook.set_gaps ItchBook.messages_]. intros Hgap. destruct (H1 Hgap) as (_ & _ & ->).
    rewrite <- Hgl, (on_blocks_count _ _ _ (message_of_decodes _ _ Henc H2) Hb1); cbn; lia.
Qed.

(** C2: feed integrity. Take any session of commands, with clock readings that
    fit the 48-bit ITCH timestamp. The engine processes it; the publisher,
    however its queue is drained and however often it ticks idle, sends a
    sequence of datagrams, the last of which ends the session. A client that
    receives any of them in order, the last one included, never fails and sees
    the end of the session exactly at the last packet. If its gap flag is down
    then, its snapshot of every symbol is the engine's. And if it received all
    of them the flag is down. *)
Theorem feed_integrity cmds sv mtu ns_since_midnight capture :
  session_ok cmds -> Forall (fun c => fits 48 c.1) cmds ->
  Forall is_byte sv -> mtu < 2 ^ 16 ->
  exists e, engine_run cmds = Some e /\
    forall drains last, concat drains ++ last = Engine.to_feed_ e ->
    exists p pkts fin,
      Feed.run ns_since_midnight drains last (Feed.make sv mtu capture) = Ok p /\
      Feed.sent p = pkts ++ [fin] /\
      forall ps, ps `sublist_of` pkts ->
      exists b, on_packets (ps ++ [fin]) ItchBook.init
          = Ok (replicate (length ps) false ++ [true], b) /\
        (Mold.had_gap_ (ItchBook.gaps_ b) = false -> client_agrees e b) /\
        (ps = pkts -> Mold.had_gap_ (ItchBook.gaps_ b) = false).
Proof.
  intros Hc Hts Hsv Hmtu. destruct (engine_run_spec cmds Hc) as (e & S & Hr & _).
  exists e. split; [done|]. by apply (feed_delivers cmds).
Qed.

Lemma feed_integrity_witness :
  exists e, engine_run demo_commands = Some e /\
    forall drains last, concat drains ++ last = Engine.to_feed_ e ->
    exists p pkts fin,
      Feed.run (fun n => n) drains last (Feed.make [78; 83; 81] 1400 None) = Ok p /\
      Feed.sent p = pkts ++ [fin] /\
      forall ps, ps `sublist_of` pkts ->
      exists b, on_packets (ps ++ [fin]) ItchBook.init
          = Ok (replicate (length ps) false ++ [true], b) /\
        (Mold.had_gap_ (ItchBook.gaps_ b) = false -> client_agrees e b) /\
        (ps = pkts -> Mold.had_gap_ (ItchBook.gaps_ b) = false).
Proof.
  apply (feed_integrity demo_commands [78; 83; 81] 1400 (fun n => n) None demo_commands_ok);
    [|repeat (constructor; [unfold is_byte; lia|]); constructor|lia].
  repeat (constructor; [unfold fits; cbn; lia|]). constructor.
Defined.

(** ** An example session *)

Lemma demo_times : Forall (fun c => fits 48 c.1) demo_commands.
Proof. repeat (constructor; [unfold fits; cbn; lia|]). constructor. Qed.

Lemma demo_published ns_since_midnight capture :
  exists e p, engine_run demo_commands = Some e /\
    Feed.run ns_since_midnight [[]; Engine.to_feed_ e] [] (Feed.make [78; 83; 81] 1400 capture) = Ok p.
Proof.
  destruct (engine_run_spec demo_commands demo_commands_ok) as (e & _ & He & _).
  destruct (feed_delivers demo_commands [78; 83; 81] 1400 ns_since_midnight capture e demo_commands_ok
    demo_times) with (drains := [[]; Engine.to_feed_ e]) (last := @nil Engine.MarketEvent)
    as (p & _ & _ & Hp & _); [|lia|exact He|cbn; by rewrite !app_nil_r|exists e, p; split; assumption].
  repeat (constructor; [unfold is_byte; lia|]). constructor.
Qed.
