(* ===== verification/SpscRing.v ===== *)
(** The lock-free ring of [common/spsc_ring.hpp], used by the low-latency
    command channel.

    First the two operations as functions on the ring, each run to its end,
    and that they are a bounded queue. Then the same operations as steps of two
    threads, interleaved in every way, with the loads of the other side's
    index free to return any value written since the last one observed (what
    the C++ memory model guarantees of an atomic variable). The invariant of
    the steps gives first-in-first-out delivery and that no slot is read while
    it is written.

    The slots themselves are read and written one step at a time, and a step
    sees the last write. That is what the acquire and release orders of the
    index accesses give the source: a thread that reads an index sees the slot
    writes made before that index was stored. So the orders are an assumption
    of the model (with relaxed index accesses it would not describe the code),
    while which index value a load returns is not. *)

From S2P Require Import Prelude.

Module SpscRing.

(** [N], a power of two. *)
Definition ring_size (k : Z) : Z := 2 ^ k.

Section Ring.
Context {T : Type} (k : Z).
Hypothesis Hk : 0 <= k.
#[local] Abbreviation N := (ring_size k).

(** A slot holds a value until it is moved out. *)
Record Ring := mkRing {
  head_ : Z;
  tail_ : Z;
  buf_ : list (option T) }.

Definition init : Ring := mkRing 0 0 (replicate (Z.to_nat N) None).

Definition try_push (v : T) (r : Ring) : bool * Ring :=
  let tail := tail_ r in
  let next := Z.land (tail + 1) (N - 1) in
  if next =? head_ r then (false, r)
  else (true, mkRing (head_ r) next (<z[tail := Some v]> (buf_ r))).

(** Taking a value out of a slot without one would use a moved-from object. *)
Definition try_pop (r : Ring) : outcome (option T * Ring) :=
  let head := head_ r in
  if head =? tail_ r then Ok (None, r) else
  slot ← deref (buf_ r !z! head);
  v ← deref slot;
  Ok (Some v, mkRing (Z.land (head + 1) (N - 1)) (tail_ r) (<z[head := None]> (buf_ r))).

(** ** Indices *)

Lemma N_pos : 0 < N.
Proof. unfold ring_size. apply Z.pow_pos_nonneg; lia. Qed.

Lemma ring_mask a : Z.land a (N - 1) = a mod N.
Proof.
  unfold ring_size. replace (2 ^ k - 1) with (Z.ones k) by (rewrite Z.ones_equiv; lia).
  by apply Z.land_ones.
Qed.

Lemma mod_range a : 0 <= a mod N < N.
Proof. apply Z.mod_pos_bound, N_pos. Qed.

Lemma mod_succ a : Z.land (a mod N + 1) (N - 1) = (a + 1) mod N.
Proof. rewrite ring_mask. apply Zplus_mod_idemp_l. Qed.

(** Within a window of [N] positions an index determines the position. *)
Lemma mod_inj a b : a <= b < a + N -> a mod N = b mod N -> a = b.
Proof.
  intros Hab Hm. pose proof N_pos.
  assert ((b - a) mod N = 0) as Hd by (rewrite Zminus_mod, Hm, Z.sub_diag; apply Z.mod_0_l; lia).
  rewrite Z.mod_small in Hd; lia.
Qed.

(** ** The ring as a bounded queue *)

(** [q] are the values from [head_] on; [h] is the number of values ever taken
    out. *)
Record Rep (r : Ring) (h : Z) (q : list T) : Prop := {
  rr_head : head_ r = h mod N;
  rr_tail : tail_ r = (h + lengthZ q) mod N;
  rr_room : lengthZ q <= N - 1;
  rr_len : lengthZ (buf_ r) = N;
  rr_slots : forall i v, q !z! i = Some v -> buf_ r !z! ((h + i) mod N) = Some (Some v) }.

Lemma init_Rep : Rep init 0 [].
Proof.
  pose proof N_pos. split; cbn.
  - by rewrite Z.mod_0_l by lia.
  - change (lengthZ (@nil T)) with 0. by rewrite Z.mod_0_l by lia.
  - change (lengthZ (@nil T)) with 0. lia.
  - unfold lengthZ. rewrite length_replicate. lia.
  - intros i v Hi. unfold lookupZ in Hi. by destruct (0 <=? i).
Qed.

Lemma try_push_Rep r h q v :
  Rep r h q ->
  exists r', try_push v r = (bool_decide (lengthZ q < N - 1), r') /\
    Rep r' h (if bool_decide (lengthZ q < N - 1) then q ++ [v] else q).
Proof.
  intros [Hh Ht Hr Hl Hs]. pose proof N_pos as HN. pose proof (lengthZ_nonneg q) as Hq.
  unfold try_push. rewrite Ht, mod_succ, Hh.
  destruct (bool_decide_reflect (lengthZ q < N - 1)) as [Hlt|Hge].
  + destruct (Z.eqb_spec ((h + lengthZ q + 1) mod N) (h mod N)) as [E|E].
    { symmetry in E. apply mod_inj in E; lia. }
    eexists. split; [done|]. split; cbn [head_ tail_ buf_]; [done|..].
    * rewrite lengthZ_app. change (lengthZ [v]) with 1. f_equal. lia.
    * rewrite lengthZ_app. change (lengthZ [v]) with 1. lia.
    * by rewrite lengthZ_insertZ.
    * intros i w Hi. pose proof (lookupZ_Some_bounds _ _ _ Hi) as Hib.
      rewrite lengthZ_app in Hib. change (lengthZ [v]) with 1 in Hib.
      rewrite lookupZ_insertZ by (rewrite Hl; apply mod_range).
      destruct (Z.eqb_spec ((h + lengthZ q) mod N) ((h + i) mod N)) as [E'|E'].
      -- symmetry in E'. apply mod_inj in E'; [|lia]. assert (i = lengthZ q) as -> by lia.
         rewrite lookupZ_app_last in Hi. by injection Hi as ->.
      -- apply Hs. rewrite lookupZ_app_l in Hi; [done|].
         destruct (decide (i = lengthZ q)) as [->|]; [by destruct E'|lia].
  + assert (lengthZ q = N - 1) as E by lia. rewrite E. replace (h + (N - 1) + 1) with (h + 1 * N) by lia.
    rewrite Z.mod_add, Z.eqb_refl by lia. eexists. split; [done|]. by split.
Qed.

Lemma try_pop_Rep r h q :
  Rep r h q ->
  match q with
  | [] => try_pop r = Ok (None, r)
  | x :: q' => exists r', try_pop r = Ok (Some x, r') /\ Rep r' (h + 1) q'
  end.
Proof.
  intros [Hh Ht Hr Hl Hs]. pose proof N_pos as HN. pose proof (lengthZ_nonneg q) as Hq.
  unfold try_pop. rewrite Hh, Ht. destruct q as [|x q'].
  + change (lengthZ (@nil T)) with 0. by rewrite Z.add_0_r, Z.eqb_refl.
  + assert (lengthZ (x :: q') = lengthZ q' + 1) as El by (unfold lengthZ; cbn [length]; lia).
    pose proof (lengthZ_nonneg q').
    destruct (Z.eqb_spec (h mod N) ((h + lengthZ (x :: q')) mod N)) as [E|E];
      [apply mod_inj in E; lia|].
    pose proof (Hs 0 x eq_refl) as H0. rewrite Z.add_0_r in H0. rewrite H0. cbn [deref].
    rewrite !outcome_bind_Ok. eexists. split; [done|]. rewrite mod_succ.
    split; cbn [head_ tail_ buf_]; [done| |lia|by rewrite lengthZ_insertZ|].
    * rewrite El. f_equal. lia.
    * intros i w Hi. pose proof (lookupZ_Some_bounds _ _ _ Hi).
      rewrite lookupZ_insertZ_ne.
      -- replace (h + 1 + i) with (h + (i + 1)) by lia. apply Hs.
         unfold lookupZ in Hi |- *. destruct (Z.leb_spec 0 i); [|done].
         destruct (Z.leb_spec 0 (i + 1)); [|lia]. replace (Z.to_nat (i + 1)) with (S (Z.to_nat i)) by lia.
         done.
      -- intros E2. apply mod_inj in E2; lia.
Qed.

(** Run one after the other, the ring's operations are those of a queue of
    at most [N - 1] elements: a push succeeds exactly when fewer are queued and
    then appends, a pop returns the oldest element and never an empty slot. *)
Theorem ring_is_bounded_queue r h q v :
  Rep r h q ->
  (exists r', try_push v r = (bool_decide (lengthZ q < N - 1), r') /\
     Rep r' h (if bool_decide (lengthZ q < N - 1) then q ++ [v] else q)) /\
  (match q with
   | [] => try_pop r = Ok (None, r)
   | x :: q' => exists r', try_pop r = Ok (Some x, r') /\ Rep r' (h + 1) q'
   end).
Proof.
  intros Hr. split; [by apply try_push_Rep|by apply try_pop_Rep].
Qed.

(** ** Two threads *)

(** An atomic variable is the list of the values stored in it, oldest first. *)
Inductive Producer :=
  | PIdle
  | PLoaded (v : T) (tail next : Z)
  | PWrite (v : T) (tail next : Z)
  | PPublish (v : T) (next : Z).

Inductive Consumer :=
  | CIdle
  | CLoaded (head : Z)
  | CRead (head : Z)
  | CPublish (v : T) (head : Z).

(** [pview] and [cview] are the stores of the other side's index that the
    producer and the consumer have observed; [pushed] and [popped] the values
    of the completed operations. *)
Record State := mkState {
  heads : list Z;
  tails : list Z;
  slots : list (option T);
  prod : Producer;
  cons : Consumer;
  pview : nat;
  cview : nat;
  pushed : list T;
  popped : list T }.

Definition start : State := mkState [0] [0] (replicate (Z.to_nat N) None) PIdle CIdle 0 0 [] [].

Definition set_prod p i st :=
  mkState (heads st) (tails st) (slots st) p (cons st) i (cview st) (pushed st) (popped st).
Definition set_cons c i st :=
  mkState (heads st) (tails st) (slots st) (prod st) c (pview st) i (pushed st) (popped st).
Definition set_slots b st :=
  mkState (heads st) (tails st) b (prod st) (cons st) (pview st) (cview st) (pushed st) (popped st).
Definition store_tail n v st :=
  mkState (heads st) (tails st ++ [n]) (slots st) (prod st) (cons st) (pview st) (cview st)
    (pushed st ++ [v]) (popped st).
Definition store_head n v st :=
  mkState (heads st ++ [n]) (tails st) (slots st) (prod st) (cons st) (pview st) (cview st)
    (pushed st) (popped st ++ [v]).

(** One step of either thread; the steps of [try_push] and of [try_pop] in the
    order of the source. *)
Inductive step : State -> State -> Prop :=
  | p_load v t st : prod st = PIdle -> last (tails st) = Some t ->
      step st (set_prod (PLoaded v t (Z.land (t + 1) (N - 1))) (pview st) st)
  | p_full v t n i st : prod st = PLoaded v t n -> (pview st <= i)%nat -> heads st !! i = Some n ->
      step st (set_prod PIdle i st)
  | p_room v t n i h st : prod st = PLoaded v t n -> (pview st <= i)%nat -> heads st !! i = Some h ->
      n <> h -> step st (set_prod (PWrite v t n) i st)
  | p_write v t n st : prod st = PWrite v t n ->
      step st (set_prod (PPublish v n) (pview st) (set_slots (<z[t := Some v]> (slots st)) st))
  | p_publish v n st : prod st = PPublish v n ->
      step st (set_prod PIdle (pview st) (store_tail n v st))
  | c_load h st : cons st = CIdle -> last (heads st) = Some h ->
      step st (set_cons (CLoaded h) (cview st) st)
  | c_empty h i st : cons st = CLoaded h -> (cview st <= i)%nat -> tails st !! i = Some h ->
      step st (set_cons CIdle i st)
  | c_some h i t st : cons st = CLoaded h -> (cview st <= i)%nat -> tails st !! i = Some t ->
      h <> t -> step st (set_cons (CRead h) i st)
  | c_take h v st : cons st = CRead h -> slots st !z! h = Some (Some v) ->
      step st (set_cons (CPublish v h) (cview st) (set_slots (<z[h := None]> (slots st)) st))
  | c_publish v h st : cons st = CPublish v h ->
      step st (set_cons CIdle (cview st) (store_head (Z.land (h + 1) (N - 1)) v st)).

(** The values taken out of the ring, counting the one in the consumer's hand. *)
Definition taken (st : State) : Z :=
  lengthZ (popped st) + match cons st with CPublish _ _ => 1 | _ => 0 end.

Lemma taken_ge st : lengthZ (popped st) <= taken st.
Proof. unfold taken. destruct (cons st); lia. Qed.

Definition history (l : list Z) (n : Z) : Prop :=
  lengthZ l = n + 1 /\ forall (i : nat) x, l !! i = Some x -> x = Z.of_nat i mod N.

Record sinv (st : State) : Prop := {
  iv_tails : history (tails st) (lengthZ (pushed st));
  iv_heads : history (heads st) (lengthZ (popped st));
  iv_fifo : popped st `prefix_of` pushed st;
  iv_pview : Z.of_nat (pview st) <= lengthZ (popped st);
  iv_cview : lengthZ (popped st) <= Z.of_nat (cview st) <= lengthZ (pushed st);
  iv_room : lengthZ (pushed st) - Z.of_nat (pview st) <= N - 1;
  iv_len : lengthZ (slots st) = N;
  iv_slots : forall i v, taken st <= i -> pushed st !z! i = Some v ->
    slots st !z! (i mod N) = Some (Some v);
  iv_prod : match prod st with
    | PIdle => True
    | PLoaded _ t n => t = lengthZ (pushed st) mod N /\ n = (lengthZ (pushed st) + 1) mod N
    | PWrite _ t n => t = lengthZ (pushed st) mod N /\ n = (lengthZ (pushed st) + 1) mod N /\
        lengthZ (pushed st) - Z.of_nat (pview st) < N - 1
    | PPublish v n => n = (lengthZ (pushed st) + 1) mod N /\
        lengthZ (pushed st) - Z.of_nat (pview st) < N - 1 /\
        slots st !z! (lengthZ (pushed st) mod N) = Some (Some v)
    end;
  iv_cons : match cons st with
    | CIdle => True
    | CLoaded h => h = lengthZ (popped st) mod N
    | CRead h => h = lengthZ (popped st) mod N /\ lengthZ (popped st) < Z.of_nat (cview st)
    | CPublish v h => h = lengthZ (popped st) mod N /\ lengthZ (popped st) < Z.of_nat (cview st) /\
        pushed st !z! lengthZ (popped st) = Some v
    end }.

Lemma history_last l n x : 0 <= n -> history l n -> last l = Some x -> x = n mod N.
Proof.
  intros Hn [Hl Hx] Hlast. rewrite last_lookup in Hlast. apply Hx in Hlast as ->. f_equal.
  unfold lengthZ in Hl. lia.
Qed.

Lemma history_snoc l n x : 0 <= n -> history l n -> x = (n + 1) mod N -> history (l ++ [x]) (n + 1).
Proof.
  intros Hn [Hl Hx] ->. split; [rewrite lengthZ_app; change (lengthZ [_]) with 1; lia|].
  intros i y Hi. apply lookup_app_Some in Hi as [Hi|[Hge Hi]]; [by apply Hx|].
  apply list_lookup_singleton_Some in Hi as [Hi <-]. f_equal. unfold lengthZ in Hl. lia.
Qed.

Lemma history_lookup l n i x :
  history l n -> l !! i = Some x -> x = Z.of_nat i mod N /\ Z.of_nat i <= n.
Proof.
  intros [Hl Hx] Hi. split; [by apply Hx|]. apply lookup_lt_Some in Hi. unfold lengthZ in Hl. lia.
Qed.

Lemma ring_start_inv : sinv start.
Proof.
  pose proof N_pos. split; cbn; try done; try (change (lengthZ (@nil T)) with 0; lia).
  - split; [done|]. intros i x Hi. apply list_lookup_singleton_Some in Hi as [-> <-]. by rewrite Z.mod_0_l by lia.
  - split; [done|]. intros i x Hi. apply list_lookup_singleton_Some in Hi as [-> <-]. by rewrite Z.mod_0_l by lia.
  - unfold lengthZ. rewrite length_replicate. lia.
  - intros i v _ Hi. unfold lookupZ in Hi. by destruct (0 <=? i).
Qed.

(** Steps that only move a thread's position. *)
Lemma set_prod_inv st p i :
  sinv st -> Z.of_nat (pview st) <= Z.of_nat i <= lengthZ (popped st) ->
  match p with
  | PIdle => True
  | PLoaded _ t n => t = lengthZ (pushed st) mod N /\ n = (lengthZ (pushed st) + 1) mod N
  | PWrite _ t n => t = lengthZ (pushed st) mod N /\ n = (lengthZ (pushed st) + 1) mod N /\
      lengthZ (pushed st) - Z.of_nat i < N - 1
  | PPublish _ _ => False
  end -> sinv (set_prod p i st).
Proof.
  intros [] Hi Hp. split; cbn [heads tails slots prod cons pview cview pushed popped set_prod]; try done.
  - lia.
  - lia.
  - by destruct p.
Qed.

Lemma set_cons_inv st c i :
  sinv st -> Z.of_nat (cview st) <= Z.of_nat i <= lengthZ (pushed st) ->
  match cons st with CPublish _ _ => False | _ => True end ->
  match c with
  | CIdle => True
  | CLoaded h => h = lengthZ (popped st) mod N
  | CRead h => h = lengthZ (popped st) mod N /\ lengthZ (popped st) < Z.of_nat i
  | CPublish _ _ => False
  end -> sinv (set_cons c i st).
Proof.
  intros [] Hi Hc0 Hc. split; cbn [heads tails slots prod cons pview cview pushed popped set_cons]; try done.
  - lia.
  - unfold taken in *. cbn [cons popped set_cons] in *. destruct (cons st), c; try done.
  - by destruct c.
Qed.

(** The producer fills the slot after the last value. *)
Lemma write_inv v t n st :
  sinv st -> prod st = PWrite v t n ->
  sinv (set_prod (PPublish v n) (pview st) (set_slots (<z[t := Some v]> (slots st)) st)).
Proof.
  intros [Ht Hh Hf Hpv Hcv Hrm Hl Hs Hp Hc] Hpr. rewrite Hpr in Hp. destruct Hp as (-> & -> & Hlt).
  split; cbn [heads tails slots prod cons pview cview pushed popped set_prod set_slots]; try done.
  - by rewrite lengthZ_insertZ.
  - intros i x Hi Hx. change (taken _) with (taken st) in Hi.
    pose proof (lookupZ_Some_bounds _ _ _ Hx) as Hb.
    rewrite lookupZ_insertZ_ne; [by apply Hs|]. intros E. symmetry in E.
    pose proof (taken_ge st). apply mod_inj in E; lia.
  - split_and!; [done|done|]. apply lookupZ_insertZ_eq. rewrite Hl. apply mod_range.
Qed.

Lemma publish_inv v n st :
  sinv st -> prod st = PPublish v n -> sinv (set_prod PIdle (pview st) (store_tail n v st)).
Proof.
  intros [Ht Hh Hf Hpv Hcv Hrm Hl Hs Hp Hc] Hpr. rewrite Hpr in Hp. destruct Hp as (-> & Hlt & Hv).
  pose proof (lengthZ_nonneg (pushed st)) as Hw.
  assert (lengthZ (pushed st ++ [v]) = lengthZ (pushed st) + 1) as El
    by (rewrite lengthZ_app; done).
  split; cbn [heads tails slots prod cons pview cview pushed popped set_prod store_tail];
    rewrite ?El; try done.
  - by apply history_snoc.
  - by apply prefix_app_r.
  - lia.
  - lia.
  - intros i x Hi Hx. change (taken _) with (taken st) in Hi.
    destruct (decide (i = lengthZ (pushed st))) as [->|Hne].
    + rewrite lookupZ_app_last in Hx. by injection Hx as <-.
    + pose proof (lookupZ_Some_bounds _ _ _ Hx) as Hb. rewrite El in Hb.
      rewrite lookupZ_app_l in Hx by lia. by apply Hs.
  - destruct (cons st) as [| | |x h]; try done. destruct Hc as (-> & Hlt' & Hx).
    split_and!; [done|done|]. pose proof (lookupZ_Some_bounds _ _ _ Hx). by rewrite lookupZ_app_l by lia.
Qed.

(** The consumer empties the slot of the oldest value. *)
Lemma take_inv h v st :
  sinv st -> cons st = CRead h -> slots st !z! h = Some (Some v) ->
  sinv (set_cons (CPublish v h) (cview st) (set_slots (<z[h := None]> (slots st)) st)).
Proof.
  intros [Ht Hh Hf Hpv Hcv Hrm Hl Hs Hp Hc] Hcr Hv. rewrite Hcr in Hc. destruct Hc as (-> & Hlt).
  pose proof (lengthZ_nonneg (popped st)) as Hr.
  destruct (lookupZ_is_Some (pushed st) (lengthZ (popped st))) as [x Hx]; [lia|].
  assert (x = v) as ->.
  { assert (taken st = lengthZ (popped st)) as Ek by (unfold taken; rewrite Hcr; lia).
    rewrite (Hs _ x) in Hv by (done || lia). by injection Hv. }
  split; cbn [heads tails slots prod cons pview cview pushed popped set_cons set_slots]; try done.
  - by rewrite lengthZ_insertZ.
  - intros i y Hi Hy. unfold taken in Hi. cbn [cons popped set_cons set_slots] in Hi.
    pose proof (lookupZ_Some_bounds _ _ _ Hy) as Hb.
    rewrite lookupZ_insertZ_ne.
    + apply Hs; [|done]. unfold taken. rewrite Hcr. lia.
    + intros E. apply mod_inj in E; lia.
  - destruct (prod st) as [| | |y n]; try done. destruct Hp as (-> & Hlt' & Hy). split_and!; [done|done|].
    rewrite lookupZ_insertZ_ne; [done|]. intros E. apply mod_inj in E; lia.
Qed.

Lemma release_inv v h st :
  sinv st -> cons st = CPublish v h ->
  sinv (set_cons CIdle (cview st) (store_head (Z.land (h + 1) (N - 1)) v st)).
Proof.
  intros [Ht Hh Hf Hpv Hcv Hrm Hl Hs Hp Hc] Hcr. rewrite Hcr in Hc. destruct Hc as (-> & Hlt & Hv).
  pose proof (lengthZ_nonneg (popped st)) as Hr. rewrite mod_succ.
  assert (lengthZ (popped st ++ [v]) = lengthZ (popped st) + 1) as El
    by (rewrite lengthZ_app; done).
  split; cbn [heads tails slots prod cons pview cview pushed popped set_cons store_head];
    rewrite ?El; try done.
  - by apply history_snoc.
  - destruct Hf as [l Hf]. destruct l as [|x l].
    { rewrite app_nil_r in Hf. rewrite Hf in Hv. rewrite lookupZ_None in Hv by lia. done. }
    rewrite Hf in Hv |- *. unfold lookupZ, lengthZ in Hv.
    destruct (Z.leb_spec 0 (Z.of_nat (length (popped st)))); [|lia].
    rewrite Nat2Z.id, lookup_app_r, Nat.sub_diag in Hv by done. injection Hv as ->.
    exists l. by rewrite <- app_assoc.
  - lia.
  - lia.
  - intros i x Hi. apply Hs. unfold taken in *. cbn [cons popped set_cons store_head] in Hi.
    rewrite El in Hi. rewrite Hcr. lia.
Qed.

Lemma step_inv st st' : step st st' -> sinv st -> sinv st'.
Proof.
  intros Hs Hi. pose proof N_pos. destruct Hs as
    [v t st Hp Hl|v t n i st Hp Hv Hh|v t n i h st Hp Hv Hh Hne|v t n st Hp|v n st Hp
    |h st Hc Hl|h i st Hc Hv Ht|h i t st Hc Hv Ht Hne|h v st Hc Hv|v h st Hc].
  - pose proof (lengthZ_nonneg (pushed st)) as Hw.
    rewrite (history_last _ _ _ Hw (iv_tails _ Hi) Hl), mod_succ.
    apply set_prod_inv; [done| |done]. pose proof (iv_pview _ Hi). lia.
  - apply history_lookup with (n := lengthZ (popped st)) in Hh as [_ Hle]; [|apply Hi].
    apply set_prod_inv; [done|lia|done].
  - apply history_lookup with (n := lengthZ (popped st)) in Hh as [-> Hle]; [|apply Hi].
    pose proof (iv_prod _ Hi) as Hpr. rewrite Hp in Hpr. destruct Hpr as [-> ->].
    apply set_prod_inv; [done|lia|]. split_and!; [done|done|]. pose proof (iv_room _ Hi).
    destruct (decide (lengthZ (pushed st) - Z.of_nat i = N - 1)) as [E|]; [|lia]. destruct Hne.
    replace (lengthZ (pushed st) + 1) with (Z.of_nat i + 1 * N) by lia. by rewrite Z.mod_add by lia.
  - by apply (write_inv v t n).
  - by apply publish_inv.
  - pose proof (lengthZ_nonneg (popped st)) as Hr.
    rewrite (history_last _ _ _ Hr (iv_heads _ Hi) Hl).
    apply set_cons_inv; [done| |by rewrite Hc|done]. pose proof (iv_cview _ Hi). lia.
  - apply history_lookup with (n := lengthZ (pushed st)) in Ht as [_ Hle]; [|apply Hi].
    apply set_cons_inv; [done|lia|by rewrite Hc|done].
  - apply history_lookup with (n := lengthZ (pushed st)) in Ht as [-> Hle]; [|apply Hi].
    pose proof (iv_cons _ Hi) as Hcr. rewrite Hc in Hcr. subst h. pose proof (iv_cview _ Hi).
    apply set_cons_inv; [done|lia|by rewrite Hc|]. split; [done|].
    destruct (decide (lengthZ (popped st) = Z.of_nat i)) as [E|]; [|lia]. by rewrite E in Hne.
  - by apply take_inv.
  - by apply release_inv.
Qed.

Definition reachable (st : State) : Prop := rtc step start st.

Lemma ring_reachable_inv st : reachable st -> sinv st.
Proof.
  intros Hr. enough (forall a b, rtc step a b -> sinv a -> sinv b) as H
    by (eapply H; [exact Hr|apply ring_start_inv]).
  induction 1 as [a|a b c Hs _ IH]; [done|]. intros Ha. apply IH. by eapply step_inv.
Qed.

(** C20: the ring under concurrency. In every interleaving of the producer and
    the consumer, whatever admissible stale value each reads of the other's
    index: what was popped is a prefix of what was pushed, in order (nothing is
    lost, duplicated or reordered); at most [N - 1] values are in flight; the
    consumer always finds a value in the slot it reads; the two threads never
    work on the same slot; and a push is refused only when [N - 1] values are
    unreleased as far as the producer has seen. *)
Theorem ring_fifo_and_race_free st :
  reachable st ->
  popped st `prefix_of` pushed st /\
  lengthZ (pushed st) - lengthZ (popped st) <= N - 1 /\
  (forall h, cons st = CRead h -> exists v, slots st !z! h = Some (Some v)) /\
  (forall v t n h, prod st = PWrite v t n -> cons st = CRead h -> t <> h) /\
  (forall v t n i, prod st = PLoaded v t n -> (pview st <= i)%nat -> heads st !! i = Some n ->
     lengthZ (pushed st) - Z.of_nat i = N - 1).
Proof.
  intros Hr%ring_reachable_inv. pose proof Hr as [Ht Hh Hf Hpv Hcv Hrm Hl Hs Hp Hc].
  pose proof N_pos. pose proof (lengthZ_nonneg (popped st)). split_and!; [done|lia|..].
  - intros h E. rewrite E in Hc. destruct Hc as [-> Hlt].
    destruct (lookupZ_is_Some (pushed st) (lengthZ (popped st))) as [x Hx]; [lia|].
    exists x. apply Hs; [|done]. unfold taken. rewrite E. lia.
  - intros v t n h Ep Ec. rewrite Ep in Hp. rewrite Ec in Hc. destruct Hp as (-> & _ & Hlt).
    destruct Hc as [-> Hlt']. intros E. symmetry in E. apply mod_inj in E; lia.
  - intros v t n i Ep Hi Hn. rewrite Ep in Hp. destruct Hp as [_ ->].
    apply history_lookup with (n := lengthZ (popped st)) in Hn as [E Hle]; [|done].
    destruct (decide (lengthZ (pushed st) + 1 - Z.of_nat i < N)) as [Hlt|]; [|lia].
    symmetry in E. apply mod_inj in E; lia.
Qed.
End Ring.

Lemma ring_is_bounded_queue_witness :
  exists r', try_push 2 7 (init 2) = (true, r') /\ Rep 2 r' 0 [7].
Proof.
  destruct (ring_is_bounded_queue 2 ltac:(lia) (init 2) 0 [] 7) as [(r' & H1 & H2) _].
  - apply init_Rep. lia.
  - exists r'. split; [exact H1|exact H2].
Defined.

(** A run of both threads: one value is pushed while the consumer, which looked
    too early, finds the ring empty, and then taken. *)
Lemma ring_fifo_and_race_free_witness :
  exists st : @State Z, reachable 2 st /\ pushed st = [7] /\ popped st = [] /\
    (exists h, cons st = CRead h) /\ popped st `prefix_of` pushed st.
Proof.
  assert (exists st : @State Z, reachable 2 st /\ pushed st = [7] /\ popped st = [] /\
    exists h, cons st = CRead h) as (st & Hr & H1 & H2 & H3).
  { eexists. split.
    - eapply rtc_l; [eapply (p_load 2 7 0); reflexivity|].
      eapply rtc_l; [eapply (c_load 2 0); reflexivity|].
      eapply rtc_l; [eapply (p_room 2 7 0 1 0%nat 0); [reflexivity|apply le_n|reflexivity|done]|].
      eapply rtc_l; [eapply (p_write 2 7 0 1); reflexivity|].
      eapply rtc_l; [eapply (c_empty 2 0 0%nat); [reflexivity|apply le_n|reflexivity]|].
      eapply rtc_l; [eapply (p_publish 2 7 1); reflexivity|].
      eapply rtc_l; [eapply (c_load 2 0); reflexivity|].
      eapply rtc_l; [eapply (c_some 2 0 1%nat 1); [reflexivity|cbn; lia|reflexivity|done]|].
      apply rtc_refl.
    - split; [reflexivity|]. split; [reflexivity|]. by eexists. }
  exists st. split; [exact Hr|]. split; [exact H1|]. split; [exact H2|]. split; [exact H3|].
  apply (ring_fifo_and_race_free 2 ltac:(lia) st Hr).
Defined.
End SpscRing.
