(* ===== verification/Channel.v ===== *)
(** The hand-over of commands to the engine thread: the mutex-guarded queue of
    [common/queue.hpp], the command channel of [engine/engine.hpp] with its two
    backings, and the engine's thread function ([Engine::run_loop]) as steps
    interleaved with a producer and with [stop].

    A critical section is one step, and waiting is a step that is not enabled
    (QueueWait shows the mutex and the condition variable to provide that). The
    ring's operations are one step each as well (SpscRing shows the
    interleaved ring to deliver in order), except that a poll may read an old
    [tail_] and find nothing although a push has completed. *)

From S2P Require Import Prelude StdMap Endian BookTypes BookSpec Wire Symbols Ouch LadderBook LadderInv BookClaims EngineBook Engine EngineInv EngineRuns MarketReplay EngineFeed EngineClaims SpscRing.
Import Engine.

Module Mpsc.
Section Queue.
Context {T : Type}.

Record Queue := mkQueue { items_ : list T; stopped_ : bool }.

Definition init : Queue := mkQueue [] false.

Definition push (v : T) (q : Queue) : Queue := mkQueue (items_ q ++ [v]) (stopped_ q).

Definition drain (q : Queue) : list T * Queue := (items_ q, mkQueue [] (stopped_ q)).

Definition is_empty (l : list T) : bool := match l with [] => true | _ => false end.

(** What the condition variable waits for. *)
Definition ready (q : Queue) : bool := negb (is_empty (items_ q)) || stopped_ q.

(** [None] while the caller sleeps. *)
Definition wait_drain (q : Queue) : option (list T * Queue) :=
  if ready q then Some (drain q) else None.

(** Returns when the queue is ready or the time is up, which [timed_out] says. *)
Definition wait_drain_for (timed_out : bool) (q : Queue) : option (list T * Queue) :=
  if ready q || timed_out then Some (drain q) else None.

Definition stop (q : Queue) : Queue := mkQueue (items_ q) true.

Definition stopped (q : Queue) : bool := stopped_ q.

(** An empty batch means shutdown, and a timed wait that is empty means
    shutdown or an idle tick. *)
Lemma wait_drain_empty q cmds q' :
  wait_drain q = Some (cmds, q') ->
  cmds = items_ q /\ items_ q' = [] /\ stopped q' = stopped q /\ (cmds = [] -> stopped q = true).
Proof.
  unfold wait_drain, ready. destruct (negb _ || _) eqn:E; [|done]. intros [= <- <-].
  split_and!; [done..|]. intros Hn. by rewrite Hn in E.
Qed.
End Queue.
Arguments Queue : clear implicits.
End Mpsc.

Module CommandChannel.

(** [SpscRing<Command, (1u << 16)>]. *)
Definition ring_bits : Z := 16.

Section Channel.
Context {T : Type}.

Record Channel := mkChannel {
  lock_free_ : bool;
  mq_ : Mpsc.Queue T;
  ring_ : @SpscRing.Ring T;
  stopped_ : bool }.

Definition make (lock_free : bool) : Channel :=
  mkChannel lock_free Mpsc.init (SpscRing.init ring_bits) false.

Definition set_mq (q : Mpsc.Queue T) (c : Channel) : Channel :=
  mkChannel (lock_free_ c) q (ring_ c) (stopped_ c).

Definition set_ring (r : @SpscRing.Ring T) (c : Channel) : Channel :=
  mkChannel (lock_free_ c) (mq_ c) r (stopped_ c).

(** One attempt; [None] while the ring is full and the caller spins. *)
Definition push (v : T) (c : Channel) : option Channel :=
  if lock_free_ c then
    let (ok, r) := SpscRing.try_push ring_bits v (ring_ c) in
    if ok then Some (set_ring r c) else None
  else Some (set_mq (Mpsc.push v (mq_ c)) c).

Definition try_pop (c : Channel) : outcome (option T * Channel) :=
  '(v, r) ← SpscRing.try_pop ring_bits (ring_ c); Ok (v, set_ring r c).

Definition wait_drain (c : Channel) : option (list T * Channel) :=
  '(l, q) ← Mpsc.wait_drain (mq_ c); Some (l, set_mq q c).

Definition stop (c : Channel) : Channel :=
  if lock_free_ c then mkChannel (lock_free_ c) (mq_ c) (ring_ c) true
  else set_mq (Mpsc.stop (mq_ c)) c.

Definition stopped (c : Channel) : bool := stopped_ c.

(** Whether [stop] was called, for either backing. *)
Definition closed (c : Channel) : bool :=
  if lock_free_ c then stopped_ c else Mpsc.stopped (mq_ c).

(** The values waiting in the channel. *)
Definition holds (c : Channel) (q : list T) : Prop :=
  if lock_free_ c then exists h, SpscRing.Rep ring_bits (ring_ c) h q
  else Mpsc.items_ (mq_ c) = q.

Lemma make_holds b : holds (make b) [].
Proof. destruct b; [|done]. exists 0. apply SpscRing.init_Rep. done. Qed.

Lemma push_holds v c q c' :
  holds c q -> push v c = Some c' ->
  holds c' (q ++ [v]) /\ lock_free_ c' = lock_free_ c /\ closed c' = closed c.
Proof.
  unfold push, holds, closed. destruct (lock_free_ c) eqn:Hl.
  - intros [h Hr]. destruct (SpscRing.try_push_Rep ring_bits ltac:(done) _ _ _ v Hr) as (r' & -> & Hr').
    case_bool_decide; [|done]. intros [= <-]. cbn. rewrite Hl. eauto.
  - intros <- [= <-]. cbn. by rewrite Hl.
Qed.

(** A blocked push means a full ring: 65535 commands wait. *)
Lemma push_blocks v c q :
  holds c q -> push v c = None -> lengthZ q = 2 ^ 16 - 1.
Proof.
  unfold push, holds. destruct (lock_free_ c); [|done]. intros [h Hr].
  destruct (SpscRing.try_push_Rep ring_bits ltac:(done) _ _ _ v Hr) as (r' & -> & _).
  case_bool_decide as Hn; [done|]. intros _. pose proof (SpscRing.rr_room _ _ _ _ Hr).
  change (SpscRing.ring_size ring_bits) with (2 ^ 16) in *. lia.
Qed.

Lemma try_pop_holds c q :
  lock_free_ c = true -> holds c q ->
  match q with
  | [] => try_pop c = Ok (None, set_ring (ring_ c) c)
  | x :: q' => exists c', try_pop c = Ok (Some x, c') /\ holds c' q' /\
      lock_free_ c' = true /\ closed c' = closed c
  end.
Proof.
  unfold holds, try_pop. intros Hl. rewrite Hl. intros [h Hr].
  pose proof (SpscRing.try_pop_Rep ring_bits ltac:(done) _ _ _ Hr) as Hp.
  destruct q as [|x q']; [by rewrite Hp|]. destruct Hp as (r' & -> & Hr').
  eexists. split; [done|]. unfold closed. cbn. rewrite Hl. eauto.
Qed.

Lemma stop_holds c q : holds c q -> holds (stop c) q.
Proof. unfold holds, stop. by destruct (lock_free_ c) eqn:Hl; cbn; rewrite ?Hl. Qed.

Lemma stop_closed c : closed (stop c) = true /\ lock_free_ (stop c) = lock_free_ c.
Proof. unfold closed, stop. by destruct (lock_free_ c) eqn:Hl; cbn; rewrite ?Hl. Qed.
End Channel.
Arguments Channel : clear implicits.
End CommandChannel.

Module RunLoop.
Import CommandChannel.
#[local] Arguments engine_run : simpl never.

(** Where the engine thread is: asleep in [wait_drain], going through a batch,
    about to poll, about to test the stop flag after an empty poll, or done. *)
Inductive Thread :=
  | AtWait
  | Handling (cmds : list Command)
  | AtPop
  | AtStopped
  | Returned.

(** [handled] and [sent] are histories: the commands processed, each with the
    clock at that moment, and the commands pushed; [mark] is what had been
    pushed when [stop] was called. *)
Record Run := mkRun {
  chan : Channel Command;
  thread : Thread;
  eng : Engine Fast;
  handled : list (Z * Command);
  sent : list Command;
  mark : option (list Command) }.

Definition service_book : EngineBook Fast := fast_engine_book default_cfg.

(** The head of the loop. *)
Definition loop (c : Channel Command) : Thread := if lock_free_ c then AtPop else AtWait.

Definition start (lock_free : bool) : Run :=
  mkRun (make lock_free) (loop (make (T := Command) lock_free)) (@init Fast) [] [] None.

Definition move (c : Channel Command) (t : Thread) (r : Run) : Run :=
  mkRun c t (eng r) (handled r) (sent r) (mark r).

(** The steps of [run_loop]. *)
Inductive engine_step : Run -> Run -> Prop :=
  | wait_returns cmds c r : thread r = AtWait -> wait_drain (chan r) = Some (cmds, c) ->
      engine_step r (move c (match cmds with [] => Returned | _ => Handling cmds end) r)
  | handle_one now cmd cmds e r : thread r = Handling (cmd :: cmds) ->
      @process Fast service_book now cmd (eng r) = Some e ->
      engine_step r (mkRun (chan r) (Handling cmds) e (handled r ++ [(now, cmd)]) (sent r) (mark r))
  | batch_done r : thread r = Handling [] -> engine_step r (move (chan r) (loop (chan r)) r)
  | pop_some cmd c r : thread r = AtPop -> try_pop (chan r) = Ok (Some cmd, c) ->
      engine_step r (move c (Handling [cmd]) r)
  | pop_none r : thread r = AtPop -> engine_step r (move (chan r) AtStopped r)
  | stop_seen r : thread r = AtStopped -> stopped (chan r) = true ->
      engine_step r (move (chan r) Returned r)
  | spin r : thread r = AtStopped -> stopped (chan r) = false ->
      engine_step r (move (chan r) AtPop r).

(** The gateway pushes; the service stops the engine. *)
Inductive outside_step : Run -> Run -> Prop :=
  | pushes cmd c r : push cmd (chan r) = Some c ->
      outside_step r (mkRun c (thread r) (eng r) (handled r) (sent r ++ [cmd]) (mark r))
  | stops r :
      outside_step r (mkRun (CommandChannel.stop (chan r)) (thread r) (eng r) (handled r) (sent r)
        (Some (default (sent r) (mark r)))).

Definition step (r r' : Run) : Prop := engine_step r r' \/ outside_step r r'.

Definition reachable (lock_free : bool) (r : Run) : Prop := rtc step (start lock_free) r.

(** The commands the thread has taken and not yet processed. *)
Definition in_hand (t : Thread) : list Command :=
  match t with Handling cmds => cmds | _ => [] end.

Definition thread_ok (r : Run) : Prop :=
  match thread r with
  | AtWait => lock_free_ (chan r) = false
  | AtPop | AtStopped => lock_free_ (chan r) = true
  | Handling _ => True
  | Returned => exists m, mark r = Some m /\
      (lock_free_ (chan r) = false -> m `prefix_of` (handled r).*2)
  end.

Record run_ok (b : bool) (q : list Command) (r : Run) : Prop := {
  ok_mode : lock_free_ (chan r) = b;
  ok_queue : holds (chan r) q;
  ok_order : (handled r).*2 ++ in_hand (thread r) ++ q = sent r;
  ok_engine : engine_run (handled r) = Some (eng r);
  ok_closed : closed (chan r) = bool_decide (is_Some (mark r));
  ok_mark : forall m, mark r = Some m -> m `prefix_of` sent r;
  ok_thread : thread_ok r }.

Lemma start_ok b : run_ok b [] (start b).
Proof. split; try done; [apply make_holds|by destruct b|by destruct b|by destruct b]. Qed.

Lemma engine_run_snoc cmds now cmd e :
  engine_run cmds = Some e ->
  engine_run (cmds ++ [(now, cmd)]) = @process Fast service_book now cmd e.
Proof.
  intros Hr. unfold engine_run in *. rewrite process_all_app, Hr, obind_Some. cbn [process_all].
  change (fast_engine_book default_cfg) with service_book. by destruct (process now cmd e).
Qed.

Lemma loop_in_hand c : in_hand (loop c) = [].
Proof. unfold loop. by destruct (lock_free_ c). Qed.

Lemma wait_drain_holds {T} (c : Channel T) q cmds c' :
  lock_free_ c = false -> holds c q -> wait_drain c = Some (cmds, c') ->
  cmds = q /\ holds c' [] /\ lock_free_ c' = false /\ closed c' = closed c /\
  (cmds = [] -> closed c = true).
Proof.
  unfold wait_drain, holds, closed. intros Hl. rewrite Hl. intros Hq ([l m] & Hw & [= <- <-])%bind_Some.
  apply Mpsc.wait_drain_empty in Hw as (-> & Hi & Hs & He). cbn. rewrite Hl. by rewrite Hs.
Qed.

Lemma engine_step_ok b q r r' :
  engine_step r r' -> run_ok b q r -> exists q', run_ok b q' r'.
Proof.
  intros Hs [Hm Hq Ho He Hc Hk Ht]. destruct Hs as
    [cmds c r E Hw|now cmd cmds e r E Hp|r E|cmd c r E Hp|r E|r E Hst|r E Hst];
    unfold thread_ok in Ht; rewrite E in Ht, Ho; cbn [in_hand] in Ho.
  - apply (wait_drain_holds _ q) in Hw as (-> & Hq' & Hl & Hcl & Hx); [|done|done].
    exists []. split; cbn; [congruence|done| |done|congruence|done|].
    + rewrite app_nil_r. by destruct q.
    + unfold thread_ok. cbn. destruct q; [|done]. rewrite Hx in Hc by done.
      symmetry in Hc. apply bool_decide_eq_true in Hc as [m Hm']. exists m. split; [done|].
      intros _. rewrite !app_nil_r in Ho. rewrite Ho. by apply Hk.
  - exists q. split; cbn; [done|done| |by rewrite (engine_run_snoc _ _ _ (eng r))|done|done|done].
    rewrite fmap_app, <- Ho, <- app_assoc. done.
  - exists q. split; cbn; try done; [by rewrite loop_in_hand|]. unfold thread_ok, loop. cbn.
    by destruct (lock_free_ (chan r)) eqn:?.
  - pose proof (try_pop_holds _ q Ht Hq) as Hpop. destruct q as [|x q]; [congruence|].
    destruct Hpop as (c' & Hp' & Hh & Hl & Hcl). rewrite Hp in Hp'. injection Hp' as -> ->.
    exists q. split; cbn; try done; congruence.
  - exists q. by split.
  - exists q. split; cbn; try done. unfold thread_ok. cbn. unfold closed in Hc. rewrite Ht in Hc.
    unfold stopped in Hst. rewrite Hst in Hc. symmetry in Hc.
    apply bool_decide_eq_true in Hc as [m Hm']. exists m. split; [done|congruence].
  - exists q. by split.
Qed.

Lemma outside_step_ok b q r r' :
  outside_step r r' -> run_ok b q r -> exists q', run_ok b q' r'.
Proof.
  intros Hs [Hm Hq Ho He Hc Hk Ht]. destruct Hs as [cmd c r Hp|r].
  - apply (push_holds cmd _ q) in Hp as (Hh & Hl & Hcl); [|done]. exists (q ++ [cmd]).
    split; cbn; [congruence|done| |done|congruence| |].
    + rewrite <- Ho, <- !app_assoc. done.
    + intros m Hm'. etrans; [by apply Hk|]. by apply prefix_app_r.
    + unfold thread_ok in *. cbn. by rewrite Hl.
  - exists q. destruct (stop_closed (chan r)) as [Hcl Hl].
    split; cbn; [congruence|by apply stop_holds|done|done|done| |].
    + intros m [= <-]. destruct (mark r) as [m|] eqn:E; [by apply Hk|done].
    + unfold thread_ok in *. cbn. rewrite Hl. destruct (thread r); try done.
      destruct Ht as (m & -> & Hp). by exists m.
Qed.

Lemma reachable_ok b r : reachable b r -> exists q, run_ok b q r.
Proof.
  enough (forall a c, rtc step a c -> (exists q, run_ok b q a) -> exists q, run_ok b q c) as H
    by (intros Hr; eapply H; [exact Hr|exists []; apply start_ok]).
  induction 1 as [a|a c d Hs _ IH]; [done|]. intros [q Hq]. apply IH.
  destruct Hs; [by eapply engine_step_ok|by eapply outside_step_ok].
Qed.

(** What the gateway forwards: decodable commands, fewer than a book's links
    can address. *)
Definition traffic_ok (r : Run) : Prop :=
  Forall command_ok (sent r) /\ lengthZ (sent r) < 2 ^ 32 - 1.

Lemma prefix_session (cmds : list (Z * Command)) (l : list Command) :
  cmds.*2 `prefix_of` l -> Forall command_ok l -> lengthZ l < 2 ^ 32 - 1 -> session_ok cmds.
Proof.
  intros [k ->] [Hok _]%Forall_app Hn. split; [exact (proj1 (Forall_fmap _ _ _) Hok)|].
  rewrite lengthZ_app in Hn. pose proof (lengthZ_nonneg k). unfold lengthZ in *.
  rewrite length_fmap in Hn. lia.
Qed.

Lemma next_processed b q r now cmd cmds :
  run_ok b q r -> traffic_ok r -> thread r = Handling (cmd :: cmds) ->
  is_Some (@process Fast service_book now cmd (eng r)).
Proof.
  intros Hok [Hf Hn] Ht. pose proof (ok_order _ _ _ Hok) as Ho. rewrite Ht in Ho. cbn [in_hand] in Ho.
  rewrite <- (engine_run_snoc _ _ _ _ (ok_engine _ _ _ Hok)).
  destruct (engine_run_spec (handled r ++ [(now, cmd)])) as (e & S & -> & _); [|done].
  apply (prefix_session _ (sent r)); [|done|done]. exists (cmds ++ q).
  rewrite fmap_app, <- Ho, <- app_assoc. done.
Qed.

(** An upper bound on the engine's steps once the channel is closed. *)
Definition remaining (q : list Command) (t : Thread) : nat :=
  match t with
  | AtWait | AtPop => 5 * length q + 2
  | Handling cmds => 3 * length cmds + 5 * length q + 3
  | AtStopped => 1
  | Returned => 0
  end.

Lemma engine_step_remaining b q r r' :
  engine_step r r' -> run_ok b q r -> closed (chan r) = true ->
  closed (chan r') = true /\ sent r' = sent r /\
  exists q', run_ok b q' r' /\ (remaining q' (thread r') < remaining q (thread r))%nat.
Proof.
  intros Hs Hok Hcl. destruct (engine_step_ok b q r r' Hs Hok) as [q' Hok'].
  assert (closed (chan r') = true /\ sent r' = sent r) as [Hcl' Hsent].
  { pose proof (ok_closed _ _ _ Hok) as H1. pose proof (ok_closed _ _ _ Hok') as H2.
    rewrite H2, <- Hcl, H1. by destruct Hs. }
  split; [done|]. split; [done|]. exists q'. split; [done|].
  pose proof (f_equal length (ok_order _ _ _ Hok)) as Ho.
  pose proof (f_equal length (ok_order _ _ _ Hok')) as Ho'. rewrite <- Hsent in Ho.
  destruct Hok as [Hm Hq _ _ Hc _ Ht]. unfold thread_ok in Ht. unfold closed in Hcl.
  destruct Hs as [cmds c r E Hw|now cmd cmds e r E Hp|r E|cmd c r E Hp|r E|r E Hst|r E Hst];
    rewrite E in *; cbn [thread move handled sent in_hand] in *;
    rewrite ?fmap_app, ?length_app in Ho'; rewrite ?length_app in Ho; cbn [length fmap list_fmap app] in *.
  - apply (wait_drain_holds _ q) in Hw as (-> & _); [|done|done]. destruct q as [|x q];
      cbn [in_hand remaining length] in *; lia.
  - cbn [remaining length]. lia.
  - rewrite loop_in_hand in Ho'. unfold loop. destruct (lock_free_ _); cbn [remaining length] in *; lia.
  - cbn [remaining length] in *. lia.
  - cbn [remaining length] in *. lia.
  - cbn [remaining]. lia.
  - rewrite Ht in Hcl. unfold stopped in Hst. congruence.
Qed.

(** C8: the engine thread, for either backing of the channel and however it
    is interleaved with the gateway: commands are processed in the order they
    were pushed, none twice and none skipped; the engine's state is exactly
    that of the sequential run over them; and the command at hand can always
    be processed. *)
Theorem engine_thread_in_order b r :
  reachable b r -> traffic_ok r ->
  (exists waiting, (handled r).*2 ++ in_hand (thread r) ++ waiting = sent r) /\
  engine_run (handled r) = Some (eng r) /\
  (forall now cmd cmds, thread r = Handling (cmd :: cmds) ->
     is_Some (@process Fast service_book now cmd (eng r))).
Proof.
  intros [q Hok]%reachable_ok Ht. split_and!.
  - exists q. apply Hok.
  - apply Hok.
  - intros now cmd cmds. by apply (next_processed b q).
Qed.

(** Shutting down the engine with the blocking queue loses nothing: the thread
    returns only after [stop], and by then every command pushed before [stop]
    has been processed. *)
Lemma blocking_stop_loses_nothing r :
  reachable false r -> thread r = Returned ->
  exists m, mark r = Some m /\ m `prefix_of` (handled r).*2.
Proof.
  intros [q Hok]%reachable_ok Ht. pose proof (ok_thread _ _ _ Hok) as Hr. unfold thread_ok in Hr.
  rewrite Ht in Hr. destruct Hr as (m & Hm & Hp). exists m. split; [done|]. apply Hp, Hok.
Qed.

(** Once the channel is closed: how many steps the thread can still make, and
    that it can make one until it has returned. *)
Lemma closed_steps_bound b q r n r' :
  run_ok b q r -> closed (chan r) = true -> nsteps engine_step n r r' ->
  (n <= 5 * length (sent r) + 3)%nat.
Proof.
  intros Hok Hcl Hn.
  assert (n <= remaining q (thread r))%nat as Hb.
  { revert q Hok Hcl. induction Hn as [x|n x y z Hs _ IH]; intros q Hok Hcl; [lia|].
    destruct (engine_step_remaining b q x y Hs Hok Hcl) as (Hcl' & _ & q' & Hok' & Hlt).
    specialize (IH q' Hok' Hcl'). lia. }
  pose proof (f_equal length (ok_order _ _ _ Hok)) as Ho. rewrite !length_app in Ho.
  destruct (thread r); cbn [remaining in_hand length] in *; lia.
Qed.

Lemma closed_progress now b q r :
  run_ok b q r -> traffic_ok r -> closed (chan r) = true ->
  thread r = Returned \/ exists r', engine_step r r' /\ (handled r' = handled r \/ exists cmd, handled r' = handled r ++ [(now, cmd)]).
Proof.
  intros Hok Ht Hcl. pose proof (ok_thread _ _ _ Hok) as Hth. unfold thread_ok in Hth.
  destruct (thread r) as [|cmds| | |] eqn:E; [right..|by left].
  - unfold closed in Hcl. rewrite Hth in Hcl. unfold Mpsc.stopped in Hcl.
    eexists. split; [eapply wait_returns; [done|]|by left]. unfold wait_drain, Mpsc.wait_drain, Mpsc.ready.
    rewrite Hcl, orb_true_r. done.
  - destruct cmds as [|cmd cmds]; [eexists; split; [by apply batch_done|by left]|].
    destruct (next_processed b q r now cmd cmds Hok Ht E) as [e He].
    eexists. split; [by eapply handle_one|]. right. by exists cmd.
  - eexists. split; [by apply pop_none|by left].
  - destruct (stopped (chan r)) eqn:Hs; eexists; (split; [first [by apply stop_seen | by apply spin]|by left]).
Qed.

(** The engine thread ends. Once [stop] has been called, the thread left
    to itself makes at most five steps per command plus three, and can always
    make one until it has returned. *)
Theorem stopped_engine_returns b r :
  reachable b r -> traffic_ok r -> is_Some (mark r) ->
  (forall n r', nsteps engine_step n r r' -> (n <= 5 * length (sent r) + 3)%nat) /\
  (forall r', rtc engine_step r r' -> thread r' = Returned \/ exists r'', engine_step r' r'').
Proof.
  intros [q Hok]%reachable_ok Ht Hm.
  assert (closed (chan r) = true) as Hcl by (rewrite (ok_closed _ _ _ Hok); by apply bool_decide_eq_true).
  split; [intros n r'; by apply (closed_steps_bound b q)|]. intros r' Hr.
  assert (exists q', run_ok b q' r' /\ closed (chan r') = true /\ traffic_ok r') as (q' & Hok' & Hcl' & Ht').
  { clear Hm. revert q Hok Hcl Ht. induction Hr as [x|x y z Hs _ IH]; intros q Hok Hcl Ht; [eauto|].
    destruct (engine_step_remaining b q x y Hs Hok Hcl) as (Hcl' & He & q' & Hok' & _).
    apply (IH q'); [done|done|]. unfold traffic_ok. by rewrite He. }
  destruct (closed_progress 0 b q' r' Hok' Ht' Hcl') as [?|(r'' & ? & _)]; [by left|right; eauto].
Qed.

(** ** Runs *)

Definition demo_command : Command := mkCommand 1 (CEnter (demo_enter [97] Sell 100 1500000 99999 0)).

Lemma demo_command_ok : command_ok demo_command.
Proof. destruct demo_commands_ok as [Hf _]. by apply Forall_cons in Hf as [Hc _]. Qed.

(** The blocking thread: woken by a push, stopped, through the batch, done. *)
Definition after_batch (e : Engine Fast) : Run :=
  move (set_mq (Mpsc.mkQueue [] true) (make false)) Returned
    (mkRun (make false) AtWait e [(100, demo_command)] [demo_command] (Some [demo_command])).

Lemma blocking_run : exists e, reachable false (after_batch e).
Proof.
  destruct (engine_run_spec [(100, demo_command)]) as (e & S & Hr & _).
  { split; [constructor; [apply demo_command_ok|done]|done]. }
  exists e.
  assert (@process Fast service_book 100 demo_command (@init Fast) = Some e) as Hp
    by (by rewrite <- (engine_run_snoc [] 100 demo_command (@init Fast))).
  unfold reachable.
  eapply rtc_l; [right; by apply (pushes demo_command)|].
  eapply rtc_l; [left; by eapply (wait_returns [demo_command])|].
  eapply rtc_l; [right; apply stops|].
  eapply rtc_l; [left; by eapply (handle_one 100 demo_command [])|].
  eapply rtc_l; [left; by apply batch_done|].
  eapply rtc_l; [left; by eapply (wait_returns [])|]. apply rtc_refl.
Qed.

Lemma after_batch_traffic e : traffic_ok (after_batch e).
Proof. split; [constructor; [apply demo_command_ok|done]|done]. Qed.

Lemma engine_thread_in_order_witness : exists e, engine_run [(100, demo_command)] = Some e.
Proof.
  destruct blocking_run as [e Hr]. exists e.
  exact (proj1 (proj2 (engine_thread_in_order false (after_batch e) Hr (after_batch_traffic e)))).
Defined.

Lemma stopped_engine_returns_witness :
  exists e, forall n r', nsteps engine_step n (after_batch e) r' -> (n <= 8)%nat.
Proof.
  destruct blocking_run as [e Hr]. exists e.
  exact (proj1 (stopped_engine_returns false (after_batch e) Hr (after_batch_traffic e)
    (ex_intro _ [demo_command] eq_refl))).
Defined.

(** The lock-free loop can lose a command at shutdown: the thread polls an
    empty ring; then a command is pushed and [stop] called, in this order; the
    thread sees the flag and returns with the command still in the ring. *)
Lemma lock_free_stop_loses_command :
  exists r, reachable true r /\ thread r = Returned /\ mark r = Some [demo_command] /\ handled r = [].
Proof.
  eexists. split.
  - eapply rtc_l; [left; by apply pop_none|].
    eapply rtc_l; [right; eapply (pushes demo_command); reflexivity|].
    eapply rtc_l; [right; apply stops|].
    eapply rtc_l; [left; by apply stop_seen|]. apply rtc_refl.
  - done.
Qed.

(** C36: shutdown. With the blocking queue the engine thread returns only after
    [stop] was called, and then every command pushed before [stop] has been
    processed. With the lock-free ring this fails: there is a run in which a
    command is pushed before [stop] and the thread returns without having
    processed it. *)
Theorem shutdown_completeness :
  (forall r, reachable false r -> thread r = Returned ->
     exists m, mark r = Some m /\ m `prefix_of` (handled r).*2) /\
  (exists r, reachable true r /\ thread r = Returned /\
     mark r = Some [demo_command] /\ handled r = []).
Proof. split; [apply blocking_stop_loses_nothing|apply lock_free_stop_loses_command]. Qed.
End RunLoop.
