(* ===== verification/QueueWait.v ===== *)
(** The queue of [common/queue.hpp] below the level of its operations: the mutex,
    the condition variable and the flag.

    [Mpsc] of Channel takes every operation as one step and a wait as a step that
    is not enabled while the queue is not ready. Here a push or a stop takes the
    mutex, stores, releases it and notifies afterwards; a waiting consumer tests
    its condition under the mutex, goes to sleep and releases it in one step, may
    wake up without a notification, and has to take the mutex again to test once
    more. One thread consumes, as everywhere in the program; any number of
    threads push. *)

From S2P Require Import Prelude Channel.

Module QueueWait.

(** The three ways to take what is queued. *)
Inductive Call := WaitDrain | WaitDrainFor | Drain.

(** Where the consumer is. [Testing c expired] holds the mutex; [expired] says
    that the time of a timed wait is up. *)
Inductive Consumer :=
  | Outside
  | Testing (c : Call) (expired : bool)
  | Asleep (c : Call)
  | Waking (c : Call) (expired : bool).

Inductive Mutex (T : Type) := Free | ByProducer (v : T) | ByStopper | ByConsumer.
Arguments Free {T}. Arguments ByProducer {T} v. Arguments ByStopper {T}. Arguments ByConsumer {T}.

(** [unnotified] and [unannounced] count the pushes and stops that have released
    the mutex and not notified yet; [stored] and [batches] are the values pushed
    and the lists returned so far. *)
Record State (T : Type) := mkState {
  mu_ : Mutex T;
  queue : Mpsc.Queue T;
  unnotified : nat;
  unannounced : nat;
  consumer : Consumer;
  stored : list T;
  batches : list (Call * list T) }.
Arguments mkState {T}. Arguments mu_ {T}. Arguments queue {T}. Arguments unnotified {T}.
Arguments unannounced {T}. Arguments consumer {T}. Arguments stored {T}. Arguments batches {T}.

Section Threads.
Context {T : Type}.
Implicit Types (s : State T).

Definition start : State T := mkState Free Mpsc.init 0 0 Outside [] [].

Definition woken (c : Consumer) : Consumer := match c with Asleep k => Waking k false | c => c end.

(** Holding the mutex, the consumer goes on to take the items: the condition is
    true, or it does not wait for it any longer. *)
Definition goes_on (c : Call) (expired : bool) (q : Mpsc.Queue T) : bool :=
  match c with
  | WaitDrain => Mpsc.ready q
  | WaitDrainFor => Mpsc.ready q || expired
  | Drain => true
  end.

Definition set_consumer (m : Mutex T) (c : Consumer) s : State T :=
  mkState m (queue s) (unnotified s) (unannounced s) c (stored s) (batches s).

(** [return std::exchange(items_, {});], which releases the mutex. *)
Definition returns (c : Call) s : State T :=
  let '(l, q) := Mpsc.drain (queue s) in
  mkState Free q (unnotified s) (unannounced s) Outside (stored s) (batches s ++ [(c, l)]).

Inductive step s : State T -> Prop :=
  | push_locks v : mu_ s = Free ->
      step s (mkState (ByProducer v) (queue s) (unnotified s) (unannounced s) (consumer s) (stored s) (batches s))
  | push_stores v : mu_ s = ByProducer v ->
      step s (mkState Free (Mpsc.push v (queue s)) (S (unnotified s)) (unannounced s) (consumer s)
        (stored s ++ [v]) (batches s))
  | push_notifies : (0 < unnotified s)%nat ->
      step s (mkState (mu_ s) (queue s) (pred (unnotified s)) (unannounced s) (woken (consumer s)) (stored s) (batches s))
  | stop_locks : mu_ s = Free ->
      step s (mkState ByStopper (queue s) (unnotified s) (unannounced s) (consumer s) (stored s) (batches s))
  | stop_stores : mu_ s = ByStopper ->
      step s (mkState Free (Mpsc.stop (queue s)) (unnotified s) (S (unannounced s)) (consumer s) (stored s) (batches s))
  | stop_notifies : (0 < unannounced s)%nat ->
      step s (mkState (mu_ s) (queue s) (unnotified s) (pred (unannounced s)) (woken (consumer s)) (stored s) (batches s))
  | consumer_calls c : consumer s = Outside -> mu_ s = Free -> step s (set_consumer ByConsumer (Testing c false) s)
  | consumer_returns c x : consumer s = Testing c x -> goes_on c x (queue s) = true -> step s (returns c s)
  | consumer_sleeps c x : consumer s = Testing c x -> goes_on c x (queue s) = false ->
      step s (set_consumer Free (Asleep c) s)
  | wakes_spuriously c : consumer s = Asleep c -> step s (set_consumer (mu_ s) (Waking c false) s)
  | time_is_up : consumer s = Asleep WaitDrainFor -> step s (set_consumer (mu_ s) (Waking WaitDrainFor true) s)
  | consumer_relocks c x : consumer s = Waking c x -> mu_ s = Free ->
      step s (set_consumer ByConsumer (Testing c x) s).

Definition reachable s : Prop := rtc step start s.

(** The steps of the consumer that no one else has to allow. *)
Inductive consumer_step s : State T -> Prop :=
  | own_return c x : consumer s = Testing c x -> goes_on c x (queue s) = true -> consumer_step s (returns c s)
  | own_sleep c x : consumer s = Testing c x -> goes_on c x (queue s) = false ->
      consumer_step s (set_consumer Free (Asleep c) s)
  | own_relock c x : consumer s = Waking c x -> mu_ s = Free ->
      consumer_step s (set_consumer ByConsumer (Testing c x) s).

(** What a step is to the queue as [Mpsc] sees it: nothing, a push, a stop, or
    the return of the call. *)
Inductive simulated s s' : Prop :=
  | sim_nothing : queue s' = queue s -> batches s' = batches s -> simulated s s'
  | sim_push v : queue s' = Mpsc.push v (queue s) -> batches s' = batches s -> simulated s s'
  | sim_stop : queue s' = Mpsc.stop (queue s) -> batches s' = batches s -> simulated s s'
  | sim_wait_drain l : batches s' = batches s ++ [(WaitDrain, l)] ->
      Mpsc.wait_drain (queue s) = Some (l, queue s') -> simulated s s'
  | sim_wait_drain_for expired l : batches s' = batches s ++ [(WaitDrainFor, l)] ->
      Mpsc.wait_drain_for expired (queue s) = Some (l, queue s') -> simulated s s'
  | sim_drain l : batches s' = batches s ++ [(Drain, l)] -> Mpsc.drain (queue s) = (l, queue s') -> simulated s s'.

(** ** The invariant *)

Definition holds_mutex (c : Consumer) : bool := match c with Testing _ _ => true | _ => false end.

Record ok s : Prop := {
  ok_mutex : holds_mutex (consumer s) = true <-> mu_ s = ByConsumer;
  ok_asleep : forall c, consumer s = Asleep c -> c <> Drain /\
    (Mpsc.ready (queue s) = true -> (0 < unnotified s)%nat \/ (0 < unannounced s)%nat);
  ok_fifo : concat (map snd (batches s)) ++ Mpsc.items_ (queue s) = stored s;
  ok_empty : Forall (fun b => b.1 = WaitDrain -> b.2 = [] -> Mpsc.stopped (queue s) = true) (batches s) }.

Lemma holds_woken c : holds_mutex (woken c) = holds_mutex c.
Proof. by destruct c. Qed.

Lemma woken_awake c k : woken c <> Asleep k.
Proof. by destruct c. Qed.

Lemma not_ready_drain c x q : goes_on c x q = false -> c <> Drain /\ Mpsc.ready q = false.
Proof. destruct c; cbn; [done| |done]. by intros [-> _]%orb_false_iff. Qed.

Lemma returns_ok c x s : ok s -> consumer s = Testing c x -> goes_on c x (queue s) = true -> ok (returns c s).
Proof.
  intros [H1 H2 H3 H4] Hc Hg. split; cbn; [done|done| |].
  - rewrite map_app, concat_app. cbn. by rewrite !app_nil_r.
  - apply Forall_app. split; [exact H4|]. constructor; [|constructor]. cbn. intros -> He. cbn in Hg.
    unfold Mpsc.ready in Hg. by rewrite He in Hg.
Qed.

Lemma step_ok s s' : ok s -> step s s' -> ok s'.
Proof.
  intros Hok Hs. destruct Hs as [v Hm|v Hm|Hn|Hm|Hm|Hn|c Hc Hm|c x Hc Hg|c x Hc Hg|c Hc|Hc|c x Hc Hm];
    try (by eapply returns_ok); destruct Hok as [H1 H2 H3 H4]; split; cbn;
    rewrite ?holds_woken, ?Hc in *; try done.
  - rewrite H1, Hm. done.
  - rewrite H1, Hm. done.
  - intros c Hc. destruct (H2 c Hc) as [? _]. split; [done|]. intros _. left. lia.
  - by rewrite app_assoc, H3.
  - intros c Hc. by apply woken_awake in Hc.
  - rewrite H1, Hm. done.
  - rewrite H1, Hm. done.
  - intros c Hc. destruct (H2 c Hc) as [? _]. split; [done|]. intros _. right. lia.
  - eapply Forall_impl; [exact H4|]. done.
  - intros c Hc. by apply woken_awake in Hc.
  - intros k [= <-]. apply not_ready_drain in Hg as [? Hr]. split; [done|]. by rewrite Hr.
Qed.

Lemma reachable_queue_ok s : reachable s -> ok s.
Proof.
  apply rtc_ind_r; [|intros x y _ Hs Hx; by eapply step_ok].
  split; cbn; [done|done|done|constructor].
Qed.

Lemma returns_simulated c x s : goes_on c x (queue s) = true -> simulated s (returns c s).
Proof.
  intros Hg. destruct c; cbn in Hg.
  - eapply sim_wait_drain; [reflexivity|]. unfold Mpsc.wait_drain. by rewrite Hg.
  - eapply (sim_wait_drain_for _ _ x); [reflexivity|]. unfold Mpsc.wait_drain_for. by rewrite Hg.
  - by eapply sim_drain.
Qed.

Lemma step_simulated s s' : step s s' -> simulated s s'.
Proof.
  destruct 1 as [v Hm|v Hm|Hn|Hm|Hm|Hn|c Hc Hm|c x Hc Hg|c x Hc Hg|c Hc|Hc|c x Hc Hm];
    try (by apply sim_nothing); [by eapply sim_push|by apply sim_stop|by eapply returns_simulated].
Qed.

(** A consumer that is awake takes the items of a ready queue. *)
Lemma awake_takes s c x :
  Mpsc.ready (queue s) = true ->
  consumer s = Testing c x \/ (consumer s = Waking c x /\ mu_ s = Free) ->
  exists s', rtc consumer_step s s' /\ consumer s' = Outside /\ Mpsc.items_ (queue s') = [] /\
    batches s' = batches s ++ [(c, Mpsc.items_ (queue s))].
Proof.
  intros Hr Hc. assert (goes_on c x (queue s) = true) as Hg by (destruct c; cbn; by rewrite ?Hr).
  destruct Hc as [Hc|[Hc Hm]].
  - exists (returns c s). split; [apply rtc_once; by eapply own_return|done].
  - eexists. split; [|split_and!].
    + eapply rtc_l; [by eapply own_relock|]. apply rtc_once. by eapply (own_return _ c x).
    + done.
    + done.
    + done.
Qed.

(** C12: the queue's waiting is the waiting of its abstraction. However pushes,
    stops and the consumer interleave, with spurious wake-ups and timeouts:
    every step is, to the queue, nothing or exactly one operation of [Mpsc], in
    which a blocking wait returns only when the queue is ready and a timed one
    also when its time is up; the lists returned and what is queued make up the
    values pushed, in order; a blocking wait has returned nothing only after a
    stop; a consumer that sleeps while there is something to take or a stop has
    been stored has a notification on its way; and one that is awake takes
    everything. Notifying after the mutex is released loses nothing. *)
Theorem queue_wait_refines s :
  reachable s ->
  (forall s', step s s' -> simulated s s') /\
  concat (map snd (batches s)) ++ Mpsc.items_ (queue s) = stored s /\
  Forall (fun b => b.1 = WaitDrain -> b.2 = [] -> Mpsc.stopped (queue s) = true) (batches s) /\
  (forall c, consumer s = Asleep c -> Mpsc.ready (queue s) = true ->
     (0 < unnotified s)%nat \/ (0 < unannounced s)%nat) /\
  (forall c x, Mpsc.ready (queue s) = true ->
     consumer s = Testing c x \/ (consumer s = Waking c x /\ mu_ s = Free) ->
     exists s', rtc consumer_step s s' /\ consumer s' = Outside /\ Mpsc.items_ (queue s') = [] /\
       batches s' = batches s ++ [(c, Mpsc.items_ (queue s))]).
Proof.
  intros Hr. pose proof (reachable_queue_ok s Hr) as [H1 H2 H3 H4]. split_and!; [|done|done|..].
  - intros s'. apply step_simulated.
  - intros c Hc. by apply H2 in Hc as [_ Hc].
  - intros c x. apply awake_takes.
Qed.
End Threads.

(** A consumer asleep, and a value stored whose notification is still to come. *)
Definition dozing : State Z := mkState Free (Mpsc.mkQueue [7] false) 1 0 (Asleep WaitDrain) [7] [].

Lemma dozing_reachable : reachable dozing.
Proof.
  eapply rtc_l; [by apply (consumer_calls _ WaitDrain)|]. eapply rtc_l; [by eapply consumer_sleeps|].
  eapply rtc_l; [by apply (push_locks _ 7)|]. eapply rtc_l; [by apply (push_stores _ 7)|]. apply rtc_refl.
Qed.

Lemma queue_wait_refines_witness : (0 < unnotified dozing)%nat \/ (0 < unannounced dozing)%nat.
Proof.
  destruct (queue_wait_refines dozing dozing_reachable) as (_ & _ & _ & H & _). by apply (H WaitDrain).
Defined.
End QueueWait.
