(* ===== verification/Soup.v ===== *)
(** SoupBinTCP ([soup/soup.hpp], [soup/soup.cpp]): packets on a byte stream
    and the login request. The stream parser is shown to recover the packets
    whatever the pieces in which the stream arrives. The server side of a
    session is in SoupSession. *)

From S2P Require Import Prelude Endian BookTypes Wire Symbols.
From Stdlib Require Import Ascii.

Module Soup.

(** ** Packets *)

Definition kLoginRequest : Z := chr "L".
Definition kLoginAccepted : Z := chr "A".
Definition kLoginRejected : Z := chr "J".
Definition kSequenced : Z := chr "S".
Definition kUnsequenced : Z := chr "U".
Definition kClientHeartbeat : Z := chr "R".
Definition kServerHeartbeat : Z := chr "H".
Definition kDebug : Z := chr "+".
Definition kLogoutRequest : Z := chr "O".
Definition kEndOfSession : Z := chr "Z".

Definition kHeartbeatIntervalNs : Z := 1000000000.
Definition kSessionTimeoutNs : Z := 15000000000.

Definition append_packet (out : bytes) (type : Z) (payload : bytes) : outcome bytes :=
  let len := u16 (lengthZ payload + 1) in
  let at_ := length out in
  out ← put_be16 (out ++ [0; 0]) at_ len;
  Ok (out ++ [type] ++ payload).

(** ** The login request *)

(** [std::to_string] of an unsigned 64-bit number: at most twenty digits. *)
Fixpoint digits (fuel : nat) (n : Z) (acc : bytes) : bytes :=
  match fuel with
  | O => acc
  | S fuel' =>
      let acc := (48 + n mod 10) :: acc in
      if n / 10 =? 0 then acc else digits fuel' (n / 10) acc
  end.

Definition to_string (n : Z) : bytes := digits 20 n [].

Definition append_alpha (out s : bytes) (width : nat) : bytes :=
  out ++ map (fun i => match s !! i with Some c => c | None => 32 end) (seq 0 width).

Definition append_seq (out : bytes) (seq : Z) (width : nat) : bytes :=
  let digits := to_string seq in
  out ++ replicate (width - length digits) 32 ++ digits.

(** [while (begin < end && p[begin] == ' ') ++begin;] *)
Fixpoint skip_spaces (s : bytes) : bytes :=
  match s with
  | c :: s' => if c =? 32 then skip_spaces s' else s
  | [] => []
  end.

(** The second loop only looks at what the first left over. *)
Definition trim_field (p : bytes) (o n : nat) : outcome bytes :=
  field ← peek_all p o n;
  let rest := skip_spaces field in
  Ok (take (trimmed_size rest (length rest)) rest).

Record LoginRequest := mkLoginRequest {
  username : bytes;
  password : bytes;
  requested_session : bytes;
  requested_seq : Z }.

Definition append_login_request (out username password requested_session : bytes)
    (requested_seq : Z) : outcome bytes :=
  let payload := append_alpha [] username 6 in
  let payload := append_alpha payload password 10 in
  let payload := append_alpha payload requested_session 10 in
  let payload := append_seq payload requested_seq 20 in
  append_packet out kLoginRequest payload.

(** [for (char c : seq)], from the value so far. *)
Fixpoint parse_seq (s : bytes) (acc : Z) : option Z :=
  match s with
  | [] => Some acc
  | c :: s' =>
      if (c <? 48) || (57 <? c) then None
      else parse_seq s' (u64 (u64 (acc * 10) + (c - 48)))
  end.

Definition decode_login_request (p : bytes) : outcome (option LoginRequest) :=
  if negb (length p =? 46)%nat then Ok None else
  username ← trim_field p 0 6;
  password ← trim_field p 6 10;
  requested_session ← trim_field p 16 10;
  seq ← trim_field p 26 20;
  Ok (match parse_seq seq 0 with
      | Some n => Some (mkLoginRequest username password requested_session n)
      | None => None
      end).

(** ** The stream parser *)

Record Packet := mkPacket { type : Z; payload : bytes }.

Record FrameParser := mkParser { buf_ : bytes; consumed_ : nat }.

Definition new_parser : FrameParser := mkParser [] 0.

Definition push (data : bytes) (p : FrameParser) : FrameParser :=
  mkParser (buf_ p ++ data) (consumed_ p).

(** Drop the consumed bytes once they dominate the buffer. *)
Definition compact (p : FrameParser) : FrameParser :=
  if (4096 <? consumed_ p)%nat && (length (buf_ p) <? consumed_ p * 2)%nat
  then mkParser (drop (consumed_ p) (buf_ p)) 0 else p.

Definition next (p : FrameParser) : outcome (option Packet * FrameParser) :=
  let avail := (length (buf_ p) - consumed_ p)%nat in
  if (avail <? 2)%nat then Ok (None, p) else
  len ← get_be16 (buf_ p) (consumed_ p);
  if (len <? 1) || (avail <? 2 + Z.to_nat len)%nat then Ok (None, p) else
  type ← peek (buf_ p) (consumed_ p + 2);
  payload ← peek_all (buf_ p) (consumed_ p + 3) (Z.to_nat len - 1);
  Ok (Some (mkPacket type payload),
      compact (mkParser (buf_ p) (consumed_ p + (2 + Z.to_nat len)))).

(** *** Facts about the parser *)

(** The bytes received and not yet handed out. *)
Definition pending (p : FrameParser) : bytes := drop (consumed_ p) (buf_ p).

Definition parser_ok (p : FrameParser) : Prop :=
  (consumed_ p <= length (buf_ p))%nat /\ Forall is_byte (buf_ p).

Definition packet_ok (k : Packet) : Prop :=
  is_byte (type k) /\ Forall is_byte (payload k) /\ lengthZ (payload k) < 2 ^ 16 - 1.

(** A packet as it is sent. *)
Definition wire (k : Packet) : bytes := framed (type k :: payload k).

Definition wires (ks : list Packet) : bytes := concat (map wire ks).

(** No complete packet, with a length that says so: the rest is not there yet
    (or, see below, never will be). *)
Definition incomplete (s : bytes) : Prop := forall k rest, packet_ok k -> s <> wire k ++ rest.

Lemma wires_app ks ks' : wires (ks ++ ks') = wires ks ++ wires ks'.
Proof. unfold wires. by rewrite map_app, concat_app. Qed.

Lemma append_packet_spec out k :
  packet_ok k -> append_packet out (type k) (payload k) = Ok (out ++ wire k).
Proof.
  intros (_ & _ & Hn). pose proof (lengthZ_nonneg (payload k)). unfold append_packet.
  rewrite put_be16_all, poke_all_spec by (rewrite length_app, length_be_bytes; cbn; lia).
  rewrite outcome_bind_Ok, take_app_length, wrap_small by (unfold fits; lia).
  rewrite drop_ge by (rewrite length_app, length_be_bytes; cbn; lia).
  unfold wire, framed. rewrite app_nil_r, <- !app_assoc. do 4 f_equal.
  unfold lengthZ. cbn [length]. lia.
Qed.

Lemma push_ok data p : parser_ok p -> Forall is_byte data ->
  parser_ok (push data p) /\ pending (push data p) = pending p ++ data.
Proof.
  intros [Hc Hb] Hd. split; [split; cbn; [rewrite length_app; lia|by apply Forall_app]|].
  unfold pending. cbn. by rewrite drop_app_le.
Qed.

Lemma compact_ok p : parser_ok p -> parser_ok (compact p) /\ pending (compact p) = pending p.
Proof.
  intros [Hc Hb]. unfold compact. destruct (_ && _); [|done].
  split; [split; cbn; [lia|by apply Forall_drop]|]. unfold pending. cbn. done.
Qed.

Lemma packet_bytes k : packet_ok k -> Forall is_byte (wire k).
Proof.
  intros (Ht & Hp & _). unfold wire, framed. apply Forall_app. split; [apply be_bytes_are_bytes|].
  by constructor.
Qed.

Lemma length_packet k : length (wire k) = (3 + length (payload k))%nat.
Proof. unfold wire. rewrite length_framed. done. Qed.

(** The length field at the front of the pending bytes. *)
Lemma get_be16_pending p :
  parser_ok p -> (2 <= length (pending p))%nat ->
  get_be16 (buf_ p) (consumed_ p) = Ok (be_value (take 2 (pending p))).
Proof.
  intros [Hc Hb] Hl. unfold pending in *. rewrite length_drop in Hl.
  rewrite get_be16_slice by (done || lia). done.
Qed.

(** A stream that starts with a length is a packet as soon as the bytes are
    there. *)
Lemma wire_split s len :
  Forall is_byte s -> (2 <= length s)%nat -> len = be_value (take 2 s) -> 1 <= len ->
  (2 + Z.to_nat len <= length s)%nat ->
  exists t pl, packet_ok (mkPacket t pl) /\ s !! 2%nat = Some t /\
    slice 3 (Z.to_nat len - 1) s = pl /\
    s = wire (mkPacket t pl) ++ drop (2 + Z.to_nat len) s.
Proof.
  intros Hb H2 Hlen H1 Hn.
  assert (len < 2 ^ 16) as Hlt.
  { pose proof (be_value_bound (take 2 s) (Forall_take _ _ _ Hb)) as Hv.
    rewrite length_take, Nat.min_l in Hv by lia. change (2 ^ (8 * Z.of_nat 2)) with (2 ^ 16) in Hv. lia. }
  destruct (lookup_lt_is_Some_2 s 2 ltac:(lia)) as [t Ht].
  exists t, (slice 3 (Z.to_nat len - 1) s).
  assert (length (slice 3 (Z.to_nat len - 1) s) = (Z.to_nat len - 1)%nat) as Hs
    by (apply length_slice; lia).
  split_and!; [|done|done|].
  - split_and!; cbn; [by apply (Forall_lookup_1 _ _ _ _ Hb Ht)|by apply slice_bytes|].
    unfold lengthZ. lia.
  - unfold wire, framed. cbn [type payload].
    replace (lengthZ (t :: _)) with len by (unfold lengthZ; cbn [length]; rewrite Hs; lia).
    rewrite Hlen at 1. replace (be_bytes 2 (be_value (take 2 s))) with (take 2 s).
    2:{ symmetry. rewrite <- (be_bytes_be_value (take 2 s)) at 2 by by apply Forall_take.
        by rewrite length_take, Nat.min_l by lia. }
    rewrite <- app_assoc. rewrite <- (take_drop 2 s) at 1. f_equal.
    rewrite (drop_S _ _ _ Ht). cbn [app]. f_equal. unfold slice.
    rewrite <- (take_drop (Z.to_nat len - 1) (drop 3 s)) at 1. f_equal.
    rewrite drop_drop. f_equal. lia.
Qed.

Lemma wire_header k rest :
  packet_ok k -> be_value (take 2 (wire k ++ rest)) = lengthZ (payload k) + 1.
Proof.
  intros (_ & _ & Hn). pose proof (lengthZ_nonneg (payload k)).
  assert (lengthZ (type k :: payload k) = lengthZ (payload k) + 1) as Hl by (unfold lengthZ; cbn [length]; lia).
  unfold wire. rewrite (proj1 (get_be16_framed (type k :: payload k) rest ltac:(lia))), be_value_be_bytes, Hl.
  apply Z.mod_small. change (2 ^ (8 * Z.of_nat 2)) with (2 ^ 16). lia.
Qed.

Lemma pending_lookup p i : pending p !! i = buf_ p !! (consumed_ p + i)%nat.
Proof. apply lookup_drop. Qed.

Lemma frame_next_spec p :
  parser_ok p ->
  (exists k p', next p = Ok (Some k, p') /\ packet_ok k /\ parser_ok p' /\
     pending p = wire k ++ pending p') \/
  (next p = Ok (None, p) /\ incomplete (pending p)).
Proof.
  intros Hp. pose proof Hp as [Hc Hb].
  assert (length (pending p) = (length (buf_ p) - consumed_ p)%nat) as Hl by apply length_drop.
  assert (Forall is_byte (pending p)) as Hbp by by apply Forall_drop.
  unfold next. rewrite <- Hl. destruct (Nat.ltb_spec (length (pending p)) 2) as [H2|H2].
  { right. split; [done|]. intros k rest _ E. rewrite E, length_app, length_packet in H2. lia. }
  rewrite get_be16_pending, outcome_bind_Ok by done. set (len := be_value _).
  destruct (Z.ltb_spec len 1) as [H0|H1]; cbn [orb].
  { right. split; [done|]. intros k rest Hk E. unfold len in H0. rewrite E, wire_header in H0 by done.
    pose proof (lengthZ_nonneg (payload k)). lia. }
  destruct (Nat.ltb_spec (length (pending p)) (2 + Z.to_nat len)) as [Hlt|Hge].
  { right. split; [done|]. intros k rest Hk E. unfold len in Hlt. rewrite E, wire_header in Hlt by done.
    rewrite length_app, length_packet in Hlt. unfold lengthZ in Hlt. lia. }
  left. destruct (wire_split (pending p) len Hbp H2 eq_refl H1 Hge) as (t & pl & Hk & Ht & Hpl & Hs).
  rewrite pending_lookup in Ht. unfold peek. rewrite Ht. cbn [deref]. rewrite outcome_bind_Ok.
  rewrite peek_all_slice, outcome_bind_Ok by lia.
  replace (slice (consumed_ p + 3) _ _) with pl by (unfold slice, pending in Hpl; by rewrite drop_drop in Hpl).
  set (p0 := mkParser (buf_ p) _).
  assert (parser_ok p0) as H3 by (split; [cbn; lia|done]).
  destruct (compact_ok p0 H3) as [H4 H5]. exists (mkPacket t pl), (compact p0).
  split_and!; [done|done|done|]. rewrite H5, Hs. f_equal. unfold pending. cbn [p0 buf_ consumed_].
  by rewrite drop_drop.
Qed.

(** *** Receiving a stream in pieces *)

(** [while (auto p = parser.next())]: every packet takes at least three bytes,
    so the pending bytes bound the number of rounds. *)
Fixpoint drain (fuel : nat) (p : FrameParser) : outcome (list Packet * FrameParser) :=
  match fuel with
  | O => Undefined
  | S fuel' =>
      '(k, p) ← next p;
      match k with
      | None => Ok ([], p)
      | Some k => '(ks, p) ← drain fuel' p; Ok (k :: ks, p)
      end
  end.

Definition receive (data : bytes) (p : FrameParser) : outcome (list Packet * FrameParser) :=
  let p := push data p in drain (S (length (pending p))) p.

Fixpoint receive_all (chunks : list bytes) (p : FrameParser) : outcome (list Packet * FrameParser) :=
  match chunks with
  | [] => Ok ([], p)
  | data :: chunks =>
      '(ks, p) ← receive data p;
      '(ks', p) ← receive_all chunks p;
      Ok (ks ++ ks', p)
  end.

Lemma drain_spec fuel : forall p,
  parser_ok p -> (length (pending p) < fuel)%nat ->
  exists ks p', drain fuel p = Ok (ks, p') /\ Forall packet_ok ks /\ parser_ok p' /\
    pending p = wires ks ++ pending p' /\ incomplete (pending p').
Proof.
  induction fuel as [|fuel IH]; intros p Hp Hf; [lia|]. cbn [drain].
  destruct (frame_next_spec p Hp) as [(k & p1 & -> & Hk & Hp1 & Hs)|[-> Hi]]; rewrite outcome_bind_Ok.
  - destruct (IH p1 Hp1) as (ks & p2 & -> & Hks & Hp2 & Hs2 & Hi).
    { rewrite Hs, length_app, length_packet in Hf. lia. }
    rewrite outcome_bind_Ok. exists (k :: ks), p2. split_and!; [done|by constructor|done| |done].
    unfold wires in *. cbn [map concat]. by rewrite Hs, Hs2, <- app_assoc.
  - exists [], p. by split_and!.
Qed.

(** Framing is unambiguous. *)
Lemma wire_inj k k' s s' :
  packet_ok k -> packet_ok k' -> wire k ++ s = wire k' ++ s' -> k = k' /\ s = s'.
Proof.
  intros Hk Hk' E. pose proof (wire_header k s Hk) as H1. pose proof (wire_header k' s' Hk') as H2.
  rewrite E, H2 in H1. apply app_inj_1 in E as [E ->].
  2:{ rewrite !length_packet. unfold lengthZ in H1. lia. }
  split; [|done]. unfold wire, framed in E. apply app_inj_1 in E as [_ E]; [|by rewrite !length_be_bytes].
  destruct k, k'. cbn in E. congruence.
Qed.

Lemma wires_inj ks : forall ks' s,
  Forall packet_ok ks -> Forall packet_ok ks' -> incomplete s ->
  wires ks ++ s = wires ks' -> ks = ks' /\ s = [].
Proof.
  induction ks as [|k ks IH]; intros [|k' ks'] s Hk Hk' Hi E; unfold wires in E; cbn [map concat app] in E.
  - done.
  - apply Forall_cons in Hk' as [Hk' _]. by destruct (Hi k' (wires ks') Hk').
  - apply (f_equal length) in E. rewrite !length_app, length_packet in E. cbn [length] in E. lia.
  - apply Forall_cons in Hk as [Hk Hks]. apply Forall_cons in Hk' as [Hk' Hks'].
    rewrite <- app_assoc in E. apply wire_inj in E as [-> E]; [|done|done].
    by destruct (IH ks' s Hks Hks' Hi E) as [-> ->].
Qed.

Lemma receive_all_spec chunks : forall p,
  parser_ok p -> incomplete (pending p) -> Forall (Forall is_byte) chunks ->
  exists ks p', receive_all chunks p = Ok (ks, p') /\ Forall packet_ok ks /\ parser_ok p' /\
    pending p ++ concat chunks = wires ks ++ pending p' /\ incomplete (pending p').
Proof.
  induction chunks as [|data chunks IH]; intros p Hp Hi Hb; cbn [receive_all].
  { exists [], p. split_and!; [done..| |done]. by rewrite app_nil_r. }
  apply Forall_cons in Hb as [Hd Hb]. destruct (push_ok data p Hp Hd) as [Hpp Hpe]. unfold receive.
  destruct (drain_spec (S (length (pending (push data p)))) (push data p) Hpp ltac:(lia))
    as (ks & p1 & -> & Hks & Hp1 & Hs1 & Hi1).
  rewrite outcome_bind_Ok. destruct (IH p1 Hp1 Hi1 Hb) as (ks' & p2 & -> & Hks' & Hp2 & Hs2 & Hi2).
  rewrite outcome_bind_Ok. exists (ks ++ ks'), p2. split_and!; [done|by apply Forall_app|done| |done].
  unfold wires in *. rewrite map_app, concat_app, <- app_assoc, <- Hs2. cbn [concat].
  by rewrite app_assoc, <- Hpe, Hs1, <- app_assoc.
Qed.

Lemma incomplete_nil : incomplete [].
Proof.
  intros k rest _ E. apply (f_equal length) in E. rewrite length_app, length_packet in E. cbn in E. lia.
Qed.

Lemma new_parser_ok : parser_ok new_parser.
Proof. by split. Qed.

Lemma wires_bytes ks : Forall packet_ok ks -> Forall is_byte (wires ks).
Proof.
  unfold wires. induction 1 as [|k ks Hk _ IH]; cbn [map concat]; [done|].
  apply Forall_app. split; [by apply packet_bytes|done].
Qed.

(** Every packet appended to the stream, in turn. *)
Fixpoint append_packets (out : bytes) (ks : list Packet) : outcome bytes :=
  match ks with
  | [] => Ok out
  | k :: ks => out ← append_packet out (type k) (payload k); append_packets out ks
  end.

Lemma append_packets_spec ks : forall out,
  Forall packet_ok ks -> append_packets out ks = Ok (out ++ wires ks).
Proof.
  induction ks as [|k ks IH]; intros out Hks; cbn [append_packets].
  { by rewrite app_nil_r. }
  apply Forall_cons in Hks as [Hk Hks]. rewrite append_packet_spec, outcome_bind_Ok, IH by done.
  unfold wires. cbn [map concat]. by rewrite <- app_assoc.
Qed.

(** Framing round trip. The packets written to a stream come out of the
    parser, all of them, in order and unchanged, however the stream is cut
    into pieces on the way, and no byte is left over; and reading never goes
    out of bounds. *)
Theorem frames_round_trip ks chunks :
  Forall packet_ok ks -> append_packets [] ks = Ok (concat chunks) ->
  exists p, receive_all chunks new_parser = Ok (ks, p) /\ pending p = [].
Proof.
  intros Hks Ha. rewrite append_packets_spec in Ha by done. injection Ha as Ha. cbn [app] in Ha.
  assert (Forall (Forall is_byte) chunks) as Hb.
  { assert (Forall is_byte (concat chunks)) as Hc.
    { rewrite <- Ha. by apply wires_bytes. }
    clear Ha. induction chunks as [|c chunks IH]; [done|]. cbn [concat] in Hc.
    apply Forall_app in Hc as [Hc Hc']. constructor; [done|by apply IH]. }
  destruct (receive_all_spec chunks new_parser new_parser_ok incomplete_nil Hb)
    as (ks' & p & -> & Hks' & _ & Hs & Hi).
  change (pending new_parser) with (@nil Z) in Hs. cbn [app] in Hs. rewrite <- Ha in Hs. symmetry in Hs.
  apply wires_inj in Hs as [-> Hp]; [|done|done|done]. eauto.
Qed.

Lemma frames_round_trip_witness :
  exists p, receive_all [[0]; [3; 85; 7; 8; 0; 1]; [82]] new_parser =
    Ok ([mkPacket kUnsequenced [7; 8]; mkPacket kClientHeartbeat []], p) /\ pending p = [].
Proof.
  apply frames_round_trip.
  - repeat (apply Forall_cons; split); [..|apply Forall_nil_2]; unfold packet_ok, is_byte;
      (split; [by vm_compute|split; [repeat (lia || constructor)|by vm_compute]]).
  - reflexivity.
Defined.

(** A packet with length zero stops a connection for good: whatever
    arrives after it, no packet is ever handed out again, and every byte
    received stays in the buffer. *)
Theorem zero_length_frame_wedges chunks p :
  parser_ok p -> take 2 (pending p) = [0; 0] -> Forall (Forall is_byte) chunks ->
  exists p', receive_all chunks p = Ok ([], p') /\ pending p' = pending p ++ concat chunks.
Proof.
  intros Hp Hz Hb.
  assert (forall s, incomplete ([0; 0] ++ s)) as Hinc.
  { intros s k rest Hk E. pose proof (wire_header k rest Hk) as Hw. rewrite <- E in Hw.
    change (be_value (take 2 ([0; 0] ++ s))) with 0 in Hw.
    pose proof (lengthZ_nonneg (payload k)). lia. }
  rewrite <- (take_drop 2 (pending p)), Hz. assert (incomplete (pending p)) as Hi
    by (rewrite <- (take_drop 2 (pending p)), Hz; apply Hinc).
  destruct (receive_all_spec chunks p Hp Hi Hb) as (ks & p' & -> & Hks & _ & Hs & _).
  rewrite <- (take_drop 2 (pending p)), Hz, <- app_assoc in Hs.
  destruct ks as [|k ks]; [exists p'; split; [done|]; unfold wires in Hs; cbn in Hs; by rewrite <- Hs, <- app_assoc|].
  apply Forall_cons in Hks as [Hk _]. unfold wires in Hs. cbn [map concat] in Hs.
  rewrite <- app_assoc in Hs. by apply (Hinc _ k) in Hs.
Qed.

Lemma zero_length_frame_wedges_witness :
  exists p', receive_all [[0; 1; 82]] (mkParser [0; 0] 0) = Ok ([], p') /\
    pending p' = [0; 0; 0; 1; 82].
Proof.
  apply (zero_length_frame_wedges [[0; 1; 82]] (mkParser [0; 0] 0)).
  - split; [cbn; lia|]. repeat constructor; unfold is_byte; lia.
  - reflexivity.
  - repeat constructor; unfold is_byte; lia.
Defined.

(** ** The login request comes back *)

Lemma append_alpha_padded out s w :
  (length s <= w)%nat -> append_alpha out s w = out ++ s ++ replicate (w - length s) 32.
Proof.
  intros Hw. unfold append_alpha. f_equal. apply list_eq. intros i.
  rewrite list_lookup_fmap. destruct (decide (i < w)%nat) as [Hi|Hi].
  - rewrite lookup_seq_lt by done. cbn. destruct (decide (i < length s)%nat) as [Hs|Hs].
    + rewrite lookup_app_l by done. by destruct (lookup_lt_is_Some_2 s i Hs) as [c ->].
    + rewrite lookup_app_r by lia. rewrite lookup_ge_None_2 by lia.
      by rewrite lookup_replicate_2 by lia.
  - rewrite lookup_seq_ge by lia. symmetry. apply lookup_ge_None_2.
    rewrite length_app, length_replicate. lia.
Qed.

Lemma skip_spaces_replicate n s :
  head s <> Some 32 -> skip_spaces (replicate n 32 ++ s) = s.
Proof.
  intros Hh. induction n as [|n IH]; cbn; [|done]. destruct s as [|c s]; [done|]. cbn in *.
  by destruct (Z.eqb_spec c 32) as [->|].
Qed.

(** A field without a space at either end, on either side of its padding. *)
Definition trim (field : bytes) : bytes :=
  let rest := skip_spaces field in take (trimmed_size rest (length rest)) rest.

Lemma trim_padded s k : head s <> Some 32 -> last s <> Some 32 -> trim (s ++ replicate k 32) = s.
Proof.
  intros Hh Hl. unfold trim. destruct s as [|c s].
  - rewrite app_nil_l. rewrite <- (app_nil_r (replicate k 32)). by rewrite skip_spaces_replicate.
  - replace (skip_spaces ((c :: s) ++ replicate k 32)) with ((c :: s) ++ replicate k 32)
      by (symmetry; by apply (skip_spaces_replicate 0)).
    rewrite length_app, length_replicate, trimmed_size_spaces by done. by rewrite take_app_length.
Qed.

Lemma trim_right_justified s k : head s <> Some 32 -> last s <> Some 32 -> trim (replicate k 32 ++ s) = s.
Proof.
  intros Hh Hl. unfold trim. rewrite skip_spaces_replicate by done.
  pose proof (trimmed_size_spaces s 0 Hl) as H. cbn [replicate] in H.
  rewrite app_nil_r, Nat.add_0_r in H. rewrite H. by apply take_ge.
Qed.

Lemma trim_field_trim p o n :
  (o + n <= length p)%nat -> trim_field p o n = Ok (trim (slice o n p)).
Proof. intros Hn. unfold trim_field. by rewrite peek_all_slice by done. Qed.

Definition is_digit (c : Z) : Prop := 48 <= c <= 57.

Lemma digits_spec fuel : forall n acc,
  0 <= n < 10 ^ Z.of_nat fuel -> (0 < fuel)%nat -> n < 2 ^ 64 ->
  exists ds, digits fuel n acc = ds ++ acc /\ (length ds <= fuel)%nat /\ Forall is_digit ds /\
    forall rest, parse_seq (ds ++ rest) 0 = parse_seq rest n.
Proof.
  induction fuel as [|fuel IH]; intros n acc Hn Hf Hw; [lia|]. cbn [digits].
  pose proof (Z.mod_pos_bound n 10 ltac:(lia)) as Hm. pose proof (Z.div_mod n 10 ltac:(lia)) as Hd.
  assert (is_digit (48 + n mod 10)) as Hdig by (unfold is_digit; lia).
  assert (forall a rest, 0 <= a < 2 ^ 64 -> a = n / 10 ->
    parse_seq ((48 + n mod 10) :: rest) a = parse_seq rest n) as Hstep.
  { intros a rest Ha ->. cbn [parse_seq]. destruct (Z.ltb_spec (48 + n mod 10) 48); [lia|].
    destruct (Z.ltb_spec 57 (48 + n mod 10)); [lia|]. cbn [orb]. f_equal.
    rewrite (wrap_small 64 (n / 10 * 10)) by (unfold fits; lia).
    rewrite wrap_small by (unfold fits; lia). lia. }
  destruct (Z.eqb_spec (n / 10) 0) as [E|E].
  - exists [48 + n mod 10]. split_and!; [done|cbn; lia|by constructor|]. intros rest.
    cbn [app]. apply Hstep; lia.
  - assert (0 <= n / 10) by (apply Z.div_pos; lia).
    destruct (IH (n / 10) ((48 + n mod 10) :: acc)) as (ds & -> & Hl & Hds & Hp); [|destruct fuel|lia|].
    + split; [done|]. apply Z.div_lt_upper_bound; [lia|].
      rewrite Nat2Z.inj_succ, Z.pow_succ_r in Hn by lia. lia.
    + change (10 ^ Z.of_nat 1) with 10 in Hn. rewrite Z.div_small in E by lia. done.
    + lia.
    + exists (ds ++ [48 + n mod 10]). split_and!.
      * by rewrite <- app_assoc.
      * rewrite length_app. cbn. lia.
      * apply Forall_app. split; [done|by constructor].
      * intros rest. rewrite <- app_assoc, Hp. cbn [app]. apply Hstep; lia.
Qed.

Lemma to_string_spec n :
  fits 64 n -> (length (to_string n) <= 20)%nat /\ Forall is_digit (to_string n) /\
    parse_seq (to_string n) 0 = Some n.
Proof.
  intros [H0 Hn]. destruct (digits_spec 20 n []) as (ds & E & Hl & Hd & Hp); [|lia|done|].
  { split; [done|]. etrans; [exact Hn|]. done. }
  unfold to_string. rewrite E, app_nil_r. specialize (Hp []). rewrite app_nil_r in Hp. done.
Qed.

Definition field_ok (w : nat) (s : bytes) : Prop :=
  (length s <= w)%nat /\ head s <> Some 32 /\ last s <> Some 32 /\ Forall is_byte s.

Definition login_ok (r : LoginRequest) : Prop :=
  field_ok 6 (username r) /\ field_ok 10 (password r) /\ field_ok 10 (requested_session r) /\
  fits 64 (requested_seq r).

(** The payload of a login request. *)
Definition login_payload (r : LoginRequest) : bytes :=
  append_seq (append_alpha (append_alpha (append_alpha [] (username r) 6) (password r) 10)
    (requested_session r) 10) (requested_seq r) 20.

Lemma digits_ends ds : Forall is_digit ds -> head ds <> Some 32 /\ last ds <> Some 32.
Proof.
  intros Hd. split; intros E.
  - destruct ds as [|d ds]; [done|]. injection E as ->. apply Forall_cons in Hd as [Hd _].
    unfold is_digit in Hd. lia.
  - apply last_Some_elem_of in E. rewrite Forall_forall in Hd. apply Hd in E. unfold is_digit in E. lia.
Qed.

Lemma slice_middle a b c o n : length a = o -> length b = n -> slice o n (a ++ b ++ c) = b.
Proof. intros <- <-. unfold slice. by rewrite drop_app_length, take_app_length. Qed.

Lemma length_padded s w : (length s <= w)%nat -> length (s ++ replicate (w - length s) 32) = w.
Proof. intros. rewrite length_app, length_replicate. lia. Qed.

Lemma login_payload_decodes r :
  login_ok r -> length (login_payload r) = 46%nat /\ Forall is_byte (login_payload r) /\
    decode_login_request (login_payload r) = Ok (Some r).
Proof.
  intros ((Hu & Hu1 & Hu2 & Hub) & (Hp & Hp1 & Hp2 & Hpb) & (Hs & Hs1 & Hs2 & Hsb) & Hq).
  destruct (to_string_spec _ Hq) as (Hl & Hd & Hv). destruct (digits_ends _ Hd) as [Hd1 Hd2].
  unfold login_payload, append_seq. cbv zeta. rewrite !append_alpha_padded by done. rewrite app_nil_l.
  set (a := username r ++ _). set (b := password r ++ _). set (c := requested_session r ++ _).
  set (d := replicate _ 32 ++ to_string _).
  assert (length a = 6%nat) as La by by apply length_padded.
  assert (length b = 10%nat) as Lb by by apply length_padded.
  assert (length c = 10%nat) as Lc by by apply length_padded.
  assert (length d = 20%nat) as Ld by (unfold d; rewrite length_app, length_replicate; lia).
  assert (forall n, Forall is_byte (replicate n 32)) as Hsp
    by (intros n; apply Forall_replicate; unfold is_byte; lia).
  assert (Forall is_byte (to_string (requested_seq r))) as Hdb
    by (eapply Forall_impl; [exact Hd|]; unfold is_digit, is_byte; intros; lia).
  rewrite <- !app_assoc.
  assert (length (a ++ b ++ c ++ d) = 46%nat) as L by (rewrite !length_app; lia).
  split; [done|]. split; [by repeat (apply Forall_app; split)|].
  unfold decode_login_request. rewrite L. cbn [Nat.eqb negb].
  rewrite !trim_field_trim by lia. rewrite !outcome_bind_Ok.
  rewrite (slice_middle [] a (b ++ c ++ d) 0 6 eq_refl La : slice 0 6 (a ++ b ++ c ++ d) = a).
  rewrite (slice_middle a b (c ++ d) 6 10 La Lb).
  replace (slice 16 10 (a ++ b ++ c ++ d)) with c
    by (rewrite (app_assoc a b); rewrite slice_middle; [done|rewrite length_app; lia|done]).
  replace (slice 26 20 (a ++ b ++ c ++ d)) with d
    by (unfold slice; rewrite !app_assoc, drop_app_length' by (rewrite !length_app; lia); by rewrite take_ge by lia).
  unfold a, b, c, d. rewrite !trim_padded, trim_right_justified, Hv by done. by destruct r.
Qed.

(** Login round trip. A login request whose fields fit their widths and
    have no blank at either end is decoded from the packet it is sent in to the
    same user name, password, session and sequence number, every 64-bit
    sequence number included. *)
Theorem login_round_trip r :
  login_ok r ->
  exists s p, append_login_request [] (username r) (password r) (requested_session r)
      (requested_seq r) = Ok s /\
    length s = 49%nat /\
    receive s new_parser = Ok ([mkPacket kLoginRequest (login_payload r)], p) /\
    decode_login_request (login_payload r) = Ok (Some r).
Proof.
  intros Hr. destruct (login_payload_decodes r Hr) as (Hl & Hb & Hd).
  set (k := mkPacket kLoginRequest (login_payload r)).
  assert (packet_ok k) as Hk.
  { split_and!; [by vm_compute|done|]. unfold lengthZ, k. cbn [payload]. rewrite Hl. done. }
  exists (wire k).
  assert (Forall is_byte (wire k)) as Hw by by apply packet_bytes.
  destruct (push_ok (wire k) new_parser new_parser_ok Hw) as [Hpo Hpe]. unfold receive.
  destruct (drain_spec (S (length (pending (push (wire k) new_parser)))) _ Hpo ltac:(lia))
    as (ks & p & Hdr & Hks & _ & Hs & Hi).
  rewrite Hpe in Hs. change (pending new_parser) with (@nil Z) in Hs. cbn [app] in Hs.
  assert (wires ks ++ pending p = wires [k]) as E by (rewrite <- Hs; unfold wires; cbn [map concat]; by rewrite app_nil_r).
  apply wires_inj in E as [-> _]; [|done|by constructor|done]. exists p. split_and!; [| |done|done].
  - exact (append_packet_spec [] k Hk).
  - rewrite length_packet. unfold k. cbn [payload]. by rewrite Hl.
Qed.

Lemma login_round_trip_witness :
  exists s p, append_login_request [] [85; 83; 69; 82; 49] [80; 65; 83; 83] [] (2 ^ 64 - 1) = Ok s /\
    length s = 49%nat /\
    receive s new_parser = Ok ([mkPacket kLoginRequest (login_payload
      (mkLoginRequest [85; 83; 69; 82; 49] [80; 65; 83; 83] [] (2 ^ 64 - 1)))], p) /\
    decode_login_request (login_payload
      (mkLoginRequest [85; 83; 69; 82; 49] [80; 65; 83; 83] [] (2 ^ 64 - 1))) =
      Ok (Some (mkLoginRequest [85; 83; 69; 82; 49] [80; 65; 83; 83] [] (2 ^ 64 - 1))).
Proof.
  apply (login_round_trip (mkLoginRequest [85; 83; 69; 82; 49] [80; 65; 83; 83] [] (2 ^ 64 - 1))).
  split_and!; cbn [username password requested_session requested_seq]; try (split_and!; [cbn; lia|done|done|]);
    unfold fits, is_byte; repeat (lia || constructor).
Defined.
End Soup.
