(* ===== verification/SoupSession.v ===== *)
(** The server side of a SoupBinTCP session ([ServerSession] of
    [soup/soup.cpp]).

    The [Listener] the session calls back is a record of functions on the
    listener's own state and the session, because the gateway's callbacks act
    on the session they are called from. *)

From S2P Require Import Prelude Clock Endian BookTypes Wire Symbols Soup.
From Stdlib Require Import Ascii.

Module SoupSession.
Import Soup.

Inductive State := AwaitingLogin | LoggedIn | Closed.

#[export] Instance State_eq_dec : EqDecision State.
Proof. solve_decision. Defined.

Record Session := mkSession {
  parser_ : FrameParser;
  state_ : State;
  out_ : bytes;
  last_recv_ns_ : Z;
  last_send_ns_ : Z }.

Definition new_session (now_ns : Z) : Session :=
  mkSession new_parser AwaitingLogin [] now_ns now_ns.

Definition set_parser (p : FrameParser) (s : Session) : Session :=
  mkSession p (state_ s) (out_ s) (last_recv_ns_ s) (last_send_ns_ s).
Definition set_state (st : State) (s : Session) : Session :=
  mkSession (parser_ s) st (out_ s) (last_recv_ns_ s) (last_send_ns_ s).
Definition set_out (o : bytes) (s : Session) : Session :=
  mkSession (parser_ s) (state_ s) o (last_recv_ns_ s) (last_send_ns_ s).
Definition set_last_recv (t : Z) (s : Session) : Session :=
  mkSession (parser_ s) (state_ s) (out_ s) t (last_send_ns_ s).
Definition set_last_send (t : Z) (s : Session) : Session :=
  mkSession (parser_ s) (state_ s) (out_ s) (last_recv_ns_ s) t.

Definition queue (type : Z) (payload : bytes) (s : Session) : outcome Session :=
  out ← append_packet (out_ s) type payload; Ok (set_out out s).

Definition accept_login (session : bytes) (next_seq : Z) (s : Session) : outcome Session :=
  let payload := append_alpha [] session 10 in
  let payload := append_seq payload next_seq 20 in
  s ← queue kLoginAccepted payload s;
  Ok (set_state LoggedIn s).

Definition reject_login (reason : Z) (s : Session) : outcome Session :=
  s ← queue kLoginRejected [reason] s;
  Ok (set_state Closed s).

Definition send_sequenced (payload : bytes) (s : Session) : outcome Session :=
  queue kSequenced payload s.

Definition send_end_of_session (s : Session) : outcome Session := queue kEndOfSession [] s.

Definition take_output (s : Session) : bytes * Session := (out_ s, set_out [] s).

Record Listener (W : Type) := mkListener {
  on_login_request : LoginRequest -> W -> Session -> outcome (W * Session);
  on_unsequenced : bytes -> W -> Session -> outcome (W * Session);
  on_logout : W -> Session -> outcome (W * Session);
  on_timeout : W -> Session -> outcome (W * Session) }.
Arguments mkListener {W}.
Arguments on_login_request {W}.
Arguments on_unsequenced {W}.
Arguments on_logout {W}.
Arguments on_timeout {W}.

Section Serve.
Context {W : Type} (listener_ : Listener W).

(** [if (state_ == State::Closed) return;] at the end of a round. *)
Definition unless_closed (ws : W * Session) : outcome (bool * (W * Session)) :=
  Ok (bool_decide (state_ ws.2 <> Closed), ws).

(** One round of the loop of [on_bytes]: the packet, and whether to go on. *)
Definition on_packet (pkt : Packet) (w : W) (s : Session) : outcome (bool * (W * Session)) :=
  match state_ s with
  | AwaitingLogin =>
      if type pkt =? kLoginRequest then
        req ← decode_login_request (payload pkt);
        match req with
        | Some req => ws ← on_login_request listener_ req w s; unless_closed ws
        | None => s ← reject_login (chr "A") s; Ok (false, (w, s))
        end
      else unless_closed (w, s)
  | LoggedIn =>
      if type pkt =? kUnsequenced then
        ws ← on_unsequenced listener_ (payload pkt) w s; unless_closed ws
      else if type pkt =? kLogoutRequest then
        ws ← on_logout listener_ w (set_state Closed s); Ok (false, ws)
      else unless_closed (w, s)
  | Closed => unless_closed (w, s)
  end.

(** The loop of [on_bytes]; as in [Soup.drain] the pending bytes bound it. *)
Fixpoint serve (fuel : nat) (w : W) (s : Session) : outcome (W * Session) :=
  match fuel with
  | O => Undefined
  | S fuel' =>
      '(k, p) ← next (parser_ s);
      let s := set_parser p s in
      match k with
      | None => Ok (w, s)
      | Some k =>
          '(go_on, ws) ← on_packet k w s;
          if go_on : bool then serve fuel' ws.1 ws.2 else Ok ws
      end
  end.

Definition on_bytes (data : bytes) (now_ns : Z) (w : W) (s : Session) : outcome (W * Session) :=
  if decide (state_ s = Closed) then Ok (w, s) else
  let s := set_last_recv now_ns s in
  let s := set_parser (push data (parser_ s)) s in
  serve (S (length (pending (parser_ s)))) w s.

Definition tick (now_ns : Z) (w : W) (s : Session) : outcome (W * Session) :=
  if decide (state_ s = Closed) then Ok (w, s) else
  if kSessionTimeoutNs <=? u64 (now_ns - last_recv_ns_ s) then
    on_timeout listener_ w (set_state Closed s)
  else if bool_decide (state_ s = LoggedIn) &&
          (kHeartbeatIntervalNs <=? u64 (now_ns - last_send_ns_ s)) then
    s ← queue kServerHeartbeat [] s;
    Ok (w, set_last_send now_ns s)
  else Ok (w, s).
End Serve.

(** ** What the operations queue *)

Lemma queue_spec k s :
  packet_ok k -> queue (type k) (payload k) s = Ok (set_out (out_ s ++ wire k) s).
Proof. intros Hk. unfold queue. by rewrite append_packet_spec. Qed.

Definition accepted_packet (session : bytes) (next_seq : Z) : Packet :=
  mkPacket kLoginAccepted (append_seq (append_alpha [] session 10) next_seq 20).

Definition rejected_packet (reason : Z) : Packet := mkPacket kLoginRejected [reason].

Lemma accept_login_spec session next_seq s :
  packet_ok (accepted_packet session next_seq) ->
  accept_login session next_seq s =
    Ok (set_state LoggedIn (set_out (out_ s ++ wire (accepted_packet session next_seq)) s)).
Proof. intros Hk. unfold accept_login. cbv zeta. 
  pose proof (queue_spec _ s Hk) as Hq. cbn [type payload accepted_packet] in Hq. by rewrite Hq.
Qed.

Lemma reject_login_spec reason s :
  is_byte reason -> reject_login reason s =
    Ok (set_state Closed (set_out (out_ s ++ wire (rejected_packet reason)) s)).
Proof.
  intros Hr. unfold reject_login.
  assert (packet_ok (rejected_packet reason)) as Hk; [|pose proof (queue_spec _ s Hk) as Hq;
    cbn [type payload rejected_packet] in Hq; by rewrite Hq].
  split_and!; [by vm_compute|by constructor|done].
Qed.

(** Decoding a login returns on every payload. *)
Lemma decode_login_returns p : exists r, decode_login_request p = Ok r.
Proof.
  unfold decode_login_request. destruct (negb _) eqn:E; [eauto|].
  apply negb_false_iff, Nat.eqb_eq in E. rewrite !trim_field_trim by lia.
  rewrite !outcome_bind_Ok. eauto.
Qed.

(** ** Packets and bytes

    A session is specified as a machine on packets: [step] says what one
    packet does to an abstract state [A], of which [abs] is the view of a
    session and its listener. *)
Class SessionSpec {W A} (l : Listener W) (abs : W -> Session -> A -> Prop)
    (step : Packet -> A -> A -> Prop) (closed : A -> Prop) := {
  abs_parser w s a p : abs w s a -> abs w (set_parser p s) a;
  abs_last_recv w s a t : abs w s a -> abs w (set_last_recv t s) a;
  abs_closed w s a : abs w s a -> state_ s = Closed <-> closed a;
  abs_step k w s a : packet_ok k -> abs w s a -> state_ s <> Closed ->
    exists w' s' a', on_packet l k w s = Ok (bool_decide (state_ s' <> Closed), (w', s')) /\
      parser_ s' = parser_ s /\ step k a a' /\ abs w' s' a' }.

Section Runs.
Context {W A : Type} (l : Listener W) (abs : W -> Session -> A -> Prop).
Context (step : Packet -> A -> A -> Prop) (closed : A -> Prop).
Context `{!SessionSpec l abs step closed}.

(** Packets one after the other; a closed session ignores the rest. *)
Inductive machine : list Packet -> A -> A -> Prop :=
  | machine_nil a : machine [] a a
  | machine_closed ks a : closed a -> machine ks a a
  | machine_step k ks a a1 a2 :
      ~ closed a -> step k a a1 -> machine ks a1 a2 -> machine (k :: ks) a a2.

Lemma machine_app ks ks' a a1 a2 :
  machine ks a a1 -> machine ks' a1 a2 -> machine (ks ++ ks') a a2.
Proof.
  induction 1 as [a|ks a Hc|k ks a a1 a1' Hc Hs _ IH]; intros H2; cbn [app].
  - done.
  - inversion H2; subst; [by apply machine_closed|by apply machine_closed|done].
  - eapply machine_step; [done|done|by apply IH].
Qed.

(** The pieces of a stream, each with the time it is read. *)
Fixpoint on_bytes_all (chunks : list (Z * bytes)) (w : W) (s : Session) : outcome (W * Session) :=
  match chunks with
  | [] => Ok (w, s)
  | (now, data) :: chunks => ws ← on_bytes l data now w s; on_bytes_all chunks ws.1 ws.2
  end.

(** After [serve]: the packets taken from the stream, what is left of it, and
    nothing complete left unless the session is closed. *)
Record after (stream : bytes) (a : A) (w : W) (s : Session) (ks : list Packet) (a' : A) : Prop := {
  af_packets : Forall packet_ok ks;
  af_machine : machine ks a a';
  af_abs : abs w s a';
  af_parser : parser_ok (parser_ s);
  af_stream : stream = wires ks ++ pending (parser_ s);
  af_rest : state_ s <> Closed -> incomplete (pending (parser_ s)) }.

Lemma serve_spec fuel : forall w s a,
  parser_ok (parser_ s) -> (length (pending (parser_ s)) < fuel)%nat ->
  abs w s a -> state_ s <> Closed ->
  exists w' s' ks a', serve l fuel w s = Ok (w', s') /\ after (pending (parser_ s)) a w' s' ks a'.
Proof.
  induction fuel as [|fuel IH]; intros w s a Hp Hf Ha Hs; [lia|]. cbn [serve].
  destruct (frame_next_spec _ Hp) as [(k & p & -> & Hk & Hp1 & Hst)|[-> Hi]]; rewrite outcome_bind_Ok.
  - destruct (abs_step k w (set_parser p s) a Hk) as (w1 & s1 & a1 & -> & Hps & Hstep & Ha1);
      [by apply abs_parser|done|].
    rewrite outcome_bind_Ok. cbn [fst snd]. cbn [parser_ set_parser] in Hps.
    assert (~ closed a) as Hnc by by rewrite <- (abs_closed w s a Ha).
    case_bool_decide as Hc.
    + destruct (IH w1 s1 a1) as (w2 & s2 & ks & a2 & -> & [H1 H2 H3 H4 H5 H6]); [by rewrite Hps| |done|done|].
      { rewrite Hst, length_app, length_packet in Hf. rewrite Hps. lia. }
      exists w2, s2, (k :: ks), a2. split; [done|]. split; try done; [by constructor|by eapply machine_step|].
      rewrite Hst, <- Hps, H5. unfold wires. cbn [map concat]. by rewrite <- app_assoc.
    + exists w1, s1, [k], a1. split; [done|].
      split; [by constructor| |done|by rewrite Hps| |done].
      * eapply machine_step; [done|done|apply machine_nil].
      * rewrite Hst, Hps. unfold wires. cbn [map concat]. by rewrite app_nil_r.
  - exists w, (set_parser (parser_ s) s), [], a. split; [done|].
    split; [done|apply machine_nil|by apply abs_parser|done|done|done].
Qed.

(** One piece of the stream. *)
Lemma on_bytes_spec data now w s a :
  parser_ok (parser_ s) -> Forall is_byte data -> abs w s a ->
  (state_ s = Closed /\ on_bytes l data now w s = Ok (w, s)) \/
  (exists w' s' ks a', on_bytes l data now w s = Ok (w', s') /\
     after (pending (parser_ s) ++ data) a w' s' ks a').
Proof.
  intros Hp Hd Ha. unfold on_bytes. destruct (decide (state_ s = Closed)) as [Hc|Hc]; [by left|].
  right. set (s0 := set_parser _ _). destruct (push_ok data (parser_ s) Hp Hd) as [Hp0 Hpe].
  destruct (serve_spec (S (length (pending (parser_ s0)))) w s0 a) as
    (w1 & s1 & ks & a1 & -> & Haf); [done|lia|by apply abs_parser, abs_last_recv|done|].
  exists w1, s1, ks, a1. split; [done|]. cbn [s0 parser_ set_parser set_last_recv] in Haf.
  by rewrite Hpe in Haf.
Qed.

Lemma on_bytes_all_spec chunks : forall w s a,
  parser_ok (parser_ s) -> (state_ s <> Closed -> incomplete (pending (parser_ s))) ->
  Forall (fun c => Forall is_byte c.2) chunks -> abs w s a ->
  exists w' s' ks a' rest, on_bytes_all chunks w s = Ok (w', s') /\
    Forall packet_ok ks /\ machine ks a a' /\ abs w' s' a' /\
    pending (parser_ s) ++ concat chunks.*2 = wires ks ++ rest /\
    (state_ s' <> Closed -> incomplete rest).
Proof.
  induction chunks as [|[now data] chunks IH]; intros w s a Hp Hi Hb Ha; cbn [on_bytes_all].
  { exists w, s, [], a, (pending (parser_ s)). split_and!; [done..|apply machine_nil|done| |done].
    by rewrite app_nil_r. }
  apply Forall_cons in Hb as [Hd Hb].
  destruct (on_bytes_spec data now w s a Hp Hd Ha) as
    [[Hc ->]|(w1 & s1 & ks & a1 & -> & [H1 H2 H3 H4 H5 H6])]; rewrite outcome_bind_Ok; cbn [fst snd].
  - destruct (IH w s a Hp Hi Hb Ha) as (w' & s' & ks & a' & rest & -> & H1 & H2 & H3 & _ & _).
    assert (a' = a) as ->.
    { apply (abs_closed w s a Ha) in Hc. by inversion H2; subst. }
    exists w', s', [], a, (pending (parser_ s) ++ concat ((now, data) :: chunks).*2).
    split_and!; [done|done|apply machine_nil|done|done|]. intros Hne. destruct Hne.
    by apply (abs_closed w' s' a H3), (abs_closed w s a Ha).
  - destruct (IH w1 s1 a1 H4 H6 Hb H3) as (w2 & s2 & ks2 & a2 & rest & -> & G1 & G2 & G3 & G4 & G5).
    exists w2, s2, (ks ++ ks2), a2, rest. split_and!;
      [done|by apply Forall_app|by eapply machine_app|done| |done].
    cbn [fmap list_fmap snd concat]. unfold wires in *.
    rewrite map_app, concat_app, <- app_assoc, <- G4. cbn in H5. by rewrite app_assoc, H5, <- app_assoc.
Qed.

(** The packets taken from a stream of packets are its first ones. *)
Lemma wires_prefix ks : forall ks' rest,
  Forall packet_ok ks -> Forall packet_ok ks' -> wires ks ++ rest = wires ks' ->
  exists ks2, ks' = ks ++ ks2.
Proof.
  induction ks as [|k ks IH]; intros ks' rest Hk Hk' E; [by exists ks'|].
  apply Forall_cons in Hk as [Hk Hks]. unfold wires in E. cbn [map concat] in E.
  destruct ks' as [|k' ks']; cbn [map concat] in E.
  { apply (f_equal length) in E. rewrite !length_app, length_packet in E. cbn [length] in E. lia. }
  apply Forall_cons in Hk' as [Hk' Hks']. rewrite <- app_assoc in E.
  apply wire_inj in E as [-> E]; [|done|done]. destruct (IH ks' rest Hks Hks' E) as [ks2 ->].
  by exists ks2.
Qed.

(** A stream of whole packets, in any pieces, is served packet by packet. *)
Lemma session_serves chunks ks w s a :
  parser_ok (parser_ s) -> pending (parser_ s) = [] -> abs w s a ->
  Forall packet_ok ks -> concat chunks.*2 = wires ks ->
  exists w' s' a', on_bytes_all chunks w s = Ok (w', s') /\ machine ks a a' /\ abs w' s' a'.
Proof.
  intros Hp Hn Ha Hks Hc.
  assert (Forall (fun c : Z * bytes => Forall is_byte c.2) chunks) as Hb.
  { assert (Forall is_byte (concat chunks.*2)) as H by (rewrite Hc; by apply wires_bytes).
    clear Hc. induction chunks as [|[t c] chunks IH]; [done|]. cbn in H.
    apply Forall_app in H as [H1 H2]. constructor; [done|by apply IH]. }
  destruct (on_bytes_all_spec chunks w s a Hp) as (w' & s' & ks1 & a' & rest & -> & H1 & H2 & H3 & H4 & H5);
    [intros _; rewrite Hn; apply incomplete_nil|done|done|].
  rewrite Hn, Hc in H4. cbn [app] in H4. symmetry in H4.
  exists w', s', a'. split; [done|]. split; [|done].
  destruct (decide (state_ s' = Closed)) as [E|E].
  - destruct (wires_prefix ks1 ks rest H1 Hks H4) as [ks2 ->]. eapply machine_app; [exact H2|].
    apply machine_closed. by apply (abs_closed w' s').
  - by apply wires_inj in H4 as [-> _]; [|done|done|by apply H5].
Qed.
End Runs.

(** ** Timers *)

(** The 64-bit difference of two readings of the time of day: what elapsed when
    they are of the same day, and close to 2^64 across midnight. *)
Lemma elapsed_since tick_ns a b limit :
  Clock.tick_ok tick_ns -> a <= b -> (b - a) * tick_ns < Clock.ns_per_day -> limit < 2 ^ 63 ->
  (limit <=? u64 (Clock.ns_since_midnight tick_ns b - Clock.ns_since_midnight tick_ns a)) =
    (a / Clock.ticks_per_day tick_ns <? b / Clock.ticks_per_day tick_ns) || (limit <=? (b - a) * tick_ns).
Proof.
  intros Ht Hab Hd Hl. pose proof (Clock.ns_since_midnight_bound tick_ns Ht a) as Ha.
  pose proof (Clock.ns_since_midnight_bound tick_ns Ht b) as Hb.
  change Clock.ns_per_day with 86400000000000 in Ha, Hb.
  destruct (Clock.ns_since_midnight_elapsed tick_ns Ht a b Hab Hd) as [[-> E]|[Hday E]].
  - rewrite Z.ltb_irrefl, E. cbn [orb]. f_equal. apply wrap_small. unfold fits. destruct Ht. nia.
  - rewrite (proj2 (Z.ltb_lt _ _) Hday). cbn [orb]. apply Z.leb_le.
    set (x := Clock.ns_since_midnight tick_ns b) in *. set (y := Clock.ns_since_midnight tick_ns a) in *.
    unfold wrap. rewrite <- (Z.mod_add (x - y) 1) by lia. rewrite Z.mod_small; lia.
Qed.

(** C39: the session's timers against the system clock. The session last
    received at reading [recv] and last sent at [sent], less than a day before
    [now]. On the day of [recv] a tick closes the session after fifteen seconds
    without a byte from the client, and otherwise queues one heartbeat when a
    logged-in session has sent none for a second. But time is kept as
    nanoseconds since midnight and compared by unsigned subtraction: at the
    first tick after midnight every session that received something before is
    closed, however recently. *)
Theorem session_timers {W} (l : Listener W) tick_ns recv sent now w s :
  Clock.tick_ok tick_ns ->
  last_recv_ns_ s = Clock.ns_since_midnight tick_ns recv ->
  last_send_ns_ s = Clock.ns_since_midnight tick_ns sent ->
  recv <= now -> (now - recv) * tick_ns < Clock.ns_per_day ->
  sent <= now -> (now - sent) * tick_ns < Clock.ns_per_day ->
  state_ s <> Closed ->
  let day t := t / Clock.ticks_per_day tick_ns in
  tick l (Clock.ns_since_midnight tick_ns now) w s =
    if (day recv <? day now) || (kSessionTimeoutNs <=? (now - recv) * tick_ns)
    then on_timeout l w (set_state Closed s)
    else Ok (w,
      if bool_decide (state_ s = LoggedIn) &&
         ((day sent <? day now) || (kHeartbeatIntervalNs <=? (now - sent) * tick_ns))
      then set_last_send (Clock.ns_since_midnight tick_ns now)
             (set_out (out_ s ++ wire (mkPacket kServerHeartbeat [])) s)
      else s).
Proof.
  intros Ht Er Es Hr Hr' Hs Hs' Hst day. unfold tick. destruct (decide (state_ s = Closed)) as [|_]; [done|].
  rewrite Er, Es, !elapsed_since by done. fold (day recv) (day now) (day sent).
  destruct ((day recv <? day now) || _); [done|]. destruct (bool_decide _ && _); [|done].
  assert (packet_ok (mkPacket kServerHeartbeat [])) as Hk by (split_and!; [by vm_compute|done|done]).
  pose proof (queue_spec _ s Hk) as Hq. cbn [type payload] in Hq. by rewrite Hq.
Qed.

Definition silent_listener : Listener unit :=
  mkListener (fun _ w s => Ok (w, s)) (fun _ w s => Ok (w, s)) (fun w s => Ok (w, s)) (fun w s => Ok (w, s)).

(** A fifth of a second after the last byte, but past midnight, with a clock of
    microseconds. *)
Lemma session_timers_witness :
  tick silent_listener (Clock.ns_since_midnight 1000 86400100000) tt
    (set_state LoggedIn (new_session (Clock.ns_since_midnight 1000 86399900000))) =
    Ok (tt, set_state Closed (new_session 86399900000000)).
Proof.
  refine (session_timers silent_listener 1000 86399900000 86399900000 86400100000 tt
    (set_state LoggedIn (new_session (Clock.ns_since_midnight 1000 86399900000))) _ eq_refl eq_refl _ _ _ _ _);
    [split; [done|by exists 1000000]|done..].
Defined.
End SoupSession.
