(* ===== verification/Gateway.v ===== *)
(** The order-entry gateway ([gateway/gateway.cpp]): one SoupBinTCP session per
    connection, risk checks, commands to the engine, responses back.

    The sockets are the environment's: what [accept], [read], [send] and the
    engine's queue return are arguments of the handlers, the clock is a stream
    of readings, and what was written to a connection is logged. A reference
    to a connection is its id; using it after the connection was destroyed is
    [Undefined]. *)

From S2P Require Import Prelude Endian BookTypes Wire Symbols Ouch Engine Soup SoupSession.
From Stdlib Require Import Ascii.

Module Gateway.
Import Engine Soup SoupSession.

Definition kMaxOrderShares : Qty := 1000000.
Definition kMaxOrderPrice : Price := 1999999900.

(** ** Encoding of responses *)

Definition encoded_size (m : ResponseMsg) : nat :=
  match m with
  | RSystemEvent _ => Ouch.kSystemEventSize
  | RAccepted _ => Ouch.kAcceptedSize
  | RExecuted _ => Ouch.kExecutedSize
  | RCanceled _ => Ouch.kCanceledSize
  | RReplaced _ => Ouch.kReplacedSize
  | RRejected _ => Ouch.kRejectedSize
  end.

Definition encode_ouch (m : ResponseMsg) : outcome bytes :=
  let buf := replicate (encoded_size m) 0 in
  match m with
  | RSystemEvent m => Ouch.encode_SystemEvent m buf
  | RAccepted m => Ouch.encode_Accepted m buf
  | RExecuted m => Ouch.encode_Executed m buf
  | RCanceled m => Ouch.encode_Canceled m buf
  | RReplaced m => Ouch.encode_Replaced m buf
  | RRejected m => Ouch.encode_Rejected m buf
  end.

(** ** What the callbacks of a connection share *)

(** The engine's command channel (what was pushed into it) and the clock, a
    stream of readings with the number of readings made. *)
Record World := mkWorld { to_engine_ : list Command; clock_ : nat -> Z; readings_ : nat }.

Definition ns_since_midnight (w : World) : Z * World :=
  (clock_ w (readings_ w), mkWorld (to_engine_ w) (clock_ w) (S (readings_ w))).

Definition push_command (c : Command) (w : World) : World :=
  mkWorld (to_engine_ w ++ [c]) (clock_ w) (readings_ w).

(** The reply to an order over the risk caps. *)
Definition risk_reject (token : Token) (w : World) (s : Session) : outcome (World * Session) :=
  let '(now, w) := ns_since_midnight w in
  let r := Ouch.mkRejected now token (chr "R") in
  buf ← Ouch.encode_Rejected r (replicate Ouch.kRejectedSize 0);
  s ← send_sequenced buf s;
  Ok (w, s).

Definition handle_ouch (id : Z) (data : bytes) (w : World) (s : Session) : outcome (World * Session) :=
  if (length data =? 0)%nat then Ok (w, s) else
  tag ← peek data 0;
  if tag =? chr "O" then
    m ← Ouch.decode_enter_order data;
    match m with
    | None => Ok (w, s)
    | Some m =>
        let market := Ouch.eo_price m =? Ouch.kMarketPrice in
        if (kMaxOrderShares <? Ouch.eo_shares m) || (negb market && (kMaxOrderPrice <? Ouch.eo_price m))
        then risk_reject (Ouch.eo_token m) w s
        else Ok (push_command (mkCommand id (CEnter m)) w, s)
    end
  else if tag =? chr "X" then
    m ← Ouch.decode_cancel_order data;
    match m with
    | None => Ok (w, s)
    | Some m => Ok (push_command (mkCommand id (CCancel m)) w, s)
    end
  else if tag =? chr "U" then
    m ← Ouch.decode_replace_order data;
    match m with
    | None => Ok (w, s)
    | Some m =>
        if (kMaxOrderShares <? Ouch.ro_shares m) || (kMaxOrderPrice <? Ouch.ro_price m)
        then risk_reject (Ouch.ro_replacement_token m) w s
        else Ok (push_command (mkCommand id (CReplace m)) w, s)
    end
  else Ok (w, s).

(** ["SIM01"]. *)
Definition sim_session : bytes := [83; 73; 77; 48; 49].

(** [struct Conn : ServerSession::Listener]: every login is accepted; logout
    and timeout have no handler. *)
Definition conn_listener (id : Z) : Listener World :=
  mkListener
    (fun _ w s => s ← accept_login sim_session 1 s; Ok (w, s))
    (fun data w s => handle_ouch id data w s)
    (fun w s => Ok (w, s))
    (fun w s => Ok (w, s)).

(** ** Connections *)

Record Conn := mkConn {
  fd : Z;
  session : Session;
  outbuf : bytes;
  write_enabled : bool }.

(** [poller_] holds the registered descriptors with their write filter;
    [sent_] logs, per connection, the bytes [send] has taken. *)
Record Gateway := mkGateway {
  world : World;
  next_client_id_ : Z;
  conns_ : gmap Z Conn;
  by_fd_ : gmap Z Z;
  poller_ : gmap Z bool;
  sent_ : gmap Z bytes }.

Definition set_world (w : World) (g : Gateway) : Gateway :=
  mkGateway w (next_client_id_ g) (conns_ g) (by_fd_ g) (poller_ g) (sent_ g).
Definition set_conns (m : gmap Z Conn) (g : Gateway) : Gateway :=
  mkGateway (world g) (next_client_id_ g) m (by_fd_ g) (poller_ g) (sent_ g).
Definition set_poller (m : gmap Z bool) (g : Gateway) : Gateway :=
  mkGateway (world g) (next_client_id_ g) (conns_ g) (by_fd_ g) m (sent_ g).
Definition set_session (s : Session) (c : Conn) : Conn :=
  mkConn (fd c) s (outbuf c) (write_enabled c).
Definition set_outbuf (o : bytes) (c : Conn) : Conn :=
  mkConn (fd c) (session c) o (write_enabled c).
Definition put_conn (id : Z) (c : Conn) (g : Gateway) : Gateway :=
  set_conns (<[id := c]> (conns_ g)) g.

Definition stream_sent (id : Z) (g : Gateway) : bytes := default [] (sent_ g !! id).

Definition log_sent (id : Z) (data : bytes) (g : Gateway) : Gateway :=
  mkGateway (world g) (next_client_id_ g) (conns_ g) (by_fd_ g) (poller_ g)
    (<[id := stream_sent id g ++ data]> (sent_ g)).

(** One round of the loop of [handle_accept]; [emplace] leaves an id that is
    taken alone. *)
Definition accept_one (g : Gateway) (fd : Z) : Gateway :=
  let id := next_client_id_ g in
  let '(now, w) := ns_since_midnight (world g) in
  let conn := mkConn fd (new_session now) [] false in
  mkGateway w (u64 (next_client_id_ g + 1))
    (match conns_ g !! id with Some _ => conns_ g | None => <[id := conn]> (conns_ g) end)
    (<[fd := id]> (by_fd_ g)) (<[fd := false]> (poller_ g)) (sent_ g).

(** For the descriptors [accept] returns before it would block. *)
Definition handle_accept (fds : list Z) (g : Gateway) : Gateway := fold_left accept_one fds g.

Definition close_conn (id : Z) (g : Gateway) : outcome Gateway :=
  c ← deref (conns_ g !! id);
  Ok (mkGateway (world g) (next_client_id_ g) (delete id (conns_ g)) (delete (fd c) (by_fd_ g))
        (delete (fd c) (poller_ g)) (sent_ g)).

(** What [send] did: took so many bytes at most (none when the socket is full),
    or returned an error. The source calls [send] with no flags and leaves
    SIGPIPE as it is, so that sending on a connection whose peer has gone
    (EPIPE) ends the whole process instead of returning; that case is not a
    [SendResult], and what is shown of a run is shown as long as no signal ends
    it. *)
Inductive SendResult := Sent (n : nat) | SendFailed.

Definition update_write_filter (id : Z) (enable : bool) (g : Gateway) : outcome Gateway :=
  c ← deref (conns_ g !! id);
  if Bool.eqb enable (write_enabled c) then Ok g
  else Ok (put_conn id (mkConn (fd c) (session c) (outbuf c) enable)
             (set_poller (<[fd c := enable]> (poller_ g)) g)).

Definition is_empty (l : bytes) : bool := match l with [] => true | _ => false end.

Definition flush (id : Z) (r : SendResult) (g : Gateway) : outcome Gateway :=
  c ← deref (conns_ g !! id);
  let '(fresh, s) := take_output (session c) in
  let c := mkConn (fd c) s (outbuf c ++ fresh) (write_enabled c) in
  let g := put_conn id c g in
  if is_empty (outbuf c) then Ok g else
  match r with
  | SendFailed => close_conn id g
  | Sent n =>
      let n := Nat.min n (length (outbuf c)) in
      let g := log_sent id (take n (outbuf c)) g in
      let c := set_outbuf (drop n (outbuf c)) c in
      let g := put_conn id c g in
      update_write_filter id (negb (is_empty (outbuf c))) g
  end.

Definition handle_writable (id : Z) (r : SendResult) (g : Gateway) : outcome Gateway := flush id r g.

Inductive ReadResult := Data (d : bytes) | Eof | ReadFailed.

(** The loop of [handle_readable] over what [read] returns until it would
    block; [false] when the connection was closed on the way. *)
Fixpoint read_loop (id : Z) (reads : list ReadResult) (g : Gateway) : outcome (bool * Gateway) :=
  match reads with
  | [] => Ok (true, g)
  | Data d :: reads =>
      c ← deref (conns_ g !! id);
      let '(now, w) := ns_since_midnight (world g) in
      '(w, s) ← on_bytes (conn_listener id) d now w (session c);
      read_loop id reads (put_conn id (set_session s c) (set_world w g))
  | Eof :: _ | ReadFailed :: _ => g ← close_conn id g; Ok (false, g)
  end.

Definition finished (c : Conn) : bool := bool_decide (state_ (session c) = Closed) && is_empty (outbuf c).

Definition handle_readable (id : Z) (reads : list ReadResult) (r : SendResult) (g : Gateway)
    : outcome Gateway :=
  '(alive, g) ← read_loop id reads g;
  if negb alive then Ok g else
  g ← flush id r g;
  c ← deref (conns_ g !! id);
  if finished c then close_conn id g else Ok g.

(** For the responses drained from the engine's queue, each with what sending
    it does. *)
Fixpoint pump_responses (rs : list (ClientResponse * SendResult)) (g : Gateway) : outcome Gateway :=
  match rs with
  | [] => Ok g
  | (resp, r) :: rs =>
      match conns_ g !! rsp_client_id resp with
      | None => pump_responses rs g
      | Some c =>
          buf ← encode_ouch (rsp_msg resp);
          s ← send_sequenced buf (session c);
          g ← flush (rsp_client_id resp) r (put_conn (rsp_client_id resp) (set_session s c) g);
          pump_responses rs g
      end
  end.

(** The first loop of [tick_sessions] over the ids in the map's order. *)
Fixpoint tick_loop (now : Z) (ids : list (Z * SendResult)) (to_close : list Z) (g : Gateway)
    : outcome (list Z * Gateway) :=
  match ids with
  | [] => Ok (to_close, g)
  | (id, r) :: ids =>
      c ← deref (conns_ g !! id);
      '(w, s) ← tick (conn_listener id) now (world g) (session c);
      g ← flush id r (put_conn id (set_session s c) (set_world w g));
      c ← deref (conns_ g !! id);
      tick_loop now ids (if finished c then to_close ++ [id] else to_close) g
  end.

Fixpoint close_all (ids : list Z) (g : Gateway) : outcome Gateway :=
  match ids with
  | [] => Ok g
  | id :: ids =>
      match conns_ g !! id with
      | None => close_all ids g
      | Some _ => g ← close_conn id g; close_all ids g
      end
  end.

Definition tick_sessions (ids : list (Z * SendResult)) (g : Gateway) : outcome Gateway :=
  let '(now, w) := ns_since_midnight (world g) in
  '(to_close, g) ← tick_loop now ids [] (set_world w g);
  close_all to_close g.

(** ** The loop of the gateway's thread *)

(** A descriptor that is ready, with what the calls on it will return. *)
Inductive Event :=
  | OnListen (fds : list Z)
  | OnWake (rs : list (ClientResponse * SendResult))
  | OnConn (fd : Z) (readable writable : bool) (reads : list ReadResult) (r1 r2 : SendResult).

Definition handle_event (ev : Event) (g : Gateway) : outcome Gateway :=
  match ev with
  | OnListen fds => Ok (handle_accept fds g)
  | OnWake rs => pump_responses rs g
  | OnConn fd readable writable reads r1 r2 =>
      match by_fd_ g !! fd with
      | None => Ok g
      | Some id =>
          g ← (if readable then handle_readable id reads r1 g else Ok g);
          match by_fd_ g !! fd with
          | None => Ok g
          | Some id => if writable then handle_writable id r2 g else Ok g
          end
      end
  end.

Fixpoint handle_events (evs : list Event) (g : Gateway) : outcome Gateway :=
  match evs with
  | [] => Ok g
  | ev :: evs => g ← handle_event ev g; handle_events evs g
  end.

Definition kTickNs : Z := 500 * 1000000.

(** One round: the sessions are ticked when half a second has passed. *)
Definition round (ticks : list (Z * SendResult)) (evs : list Event) (last_tick : Z) (g : Gateway)
    : outcome (Z * Gateway) :=
  let '(now, w) := ns_since_midnight (world g) in
  let g := set_world w g in
  '(last_tick, g) ← (if kTickNs <=? u64 (now - last_tick)
                     then g ← tick_sessions ticks g; Ok (now, g) else Ok (last_tick, g));
  g ← handle_events evs g;
  Ok (last_tick, g).

(** The end of the thread: every connection is closed. *)
Definition shutdown (g : Gateway) : Gateway :=
  mkGateway (world g) (next_client_id_ g) ∅ ∅
    (foldr delete (poller_ g) (map fd (map snd (map_to_list (conns_ g))))) (sent_ g).

Fixpoint run (rounds : list (list (Z * SendResult) * list Event)) (last_tick : Z) (g : Gateway)
    : outcome Gateway :=
  match rounds with
  | [] => Ok (shutdown g)
  | (ticks, evs) :: rounds =>
      '(last_tick, g) ← round ticks evs last_tick g; run rounds last_tick g
  end.

Definition start (clock : nat -> Z) : Gateway := mkGateway (mkWorld [] clock 0) 1 ∅ ∅ ∅ ∅.
End Gateway.
