(* ===== verification/GatewaySession.v ===== *)
(** One connection of the gateway as a machine on packets, and that the byte
    level implements it: what reaches the engine and what is answered depends
    on the packets of the client's stream, not on the pieces it arrives in. *)

From S2P Require Import Prelude Endian BookTypes Wire Symbols Ouch Engine EngineRuns Soup SoupSession Gateway.
From Stdlib Require Import Ascii.

Module GatewaySession.
Import Engine Soup SoupSession Gateway.

(** ** The specification *)

(** A byte string is an order message. *)
Inductive carries : bytes -> CommandMsg -> Prop :=
  | carries_enter m : f_ok Ouch.EnterOrder_body m ->
      carries (c_wire Ouch.EnterOrder_codec m) (CEnter m)
  | carries_cancel m : f_ok Ouch.CancelOrder_body m ->
      carries (c_wire Ouch.CancelOrder_codec m) (CCancel m)
  | carries_replace m : f_ok Ouch.ReplaceOrder_body m ->
      carries (c_wire Ouch.ReplaceOrder_codec m) (CReplace m).

(** The token of the reply to an order over the risk caps. *)
Definition over_cap (m : CommandMsg) : option Token :=
  match m with
  | CEnter m =>
      if (kMaxOrderShares <? Ouch.eo_shares m) ||
         (negb (Ouch.eo_price m =? Ouch.kMarketPrice) && (kMaxOrderPrice <? Ouch.eo_price m))
      then Some (Ouch.eo_token m) else None
  | CCancel _ => None
  | CReplace m =>
      if (kMaxOrderShares <? Ouch.ro_shares m) || (kMaxOrderPrice <? Ouch.ro_price m)
      then Some (Ouch.ro_replacement_token m) else None
  end.

(** What a connection has done so far: the commands it forwarded and the
    packets it answered. *)
Record Dialogue := mkDialogue { d_state : State; d_commands : list Command; d_replies : list Packet }.

Definition fresh : Dialogue := mkDialogue AwaitingLogin [] [].

Definition login_reply : Packet := accepted_packet sim_session 1.

Definition risk_reply (ts : Z) (token : Token) : Packet :=
  mkPacket kSequenced (c_wire Ouch.Rejected_codec (Ouch.mkRejected ts token (chr "R"))).

Definition forward (c : Command) (d : Dialogue) : Dialogue :=
  mkDialogue (d_state d) (d_commands d ++ [c]) (d_replies d).

Definition answer (k : Packet) (d : Dialogue) : Dialogue :=
  mkDialogue (d_state d) (d_commands d) (d_replies d ++ [k]).

Definition go_to (st : State) (d : Dialogue) : Dialogue :=
  mkDialogue st (d_commands d) (d_replies d).

Inductive talk (id : Z) (k : Packet) (d : Dialogue) : Dialogue -> Prop :=
  | talk_login r : d_state d = AwaitingLogin -> type k = kLoginRequest ->
      decode_login_request (payload k) = Ok (Some r) ->
      talk id k d (go_to LoggedIn (answer login_reply d))
  | talk_bad_login : d_state d = AwaitingLogin -> type k = kLoginRequest ->
      decode_login_request (payload k) = Ok None ->
      talk id k d (go_to Closed (answer (rejected_packet (chr "A")) d))
  | talk_too_early : d_state d = AwaitingLogin -> type k <> kLoginRequest -> talk id k d d
  | talk_order m : d_state d = LoggedIn -> type k = kUnsequenced ->
      carries (payload k) m -> over_cap m = None -> talk id k d (forward (mkCommand id m) d)
  | talk_risk m token ts : d_state d = LoggedIn -> type k = kUnsequenced ->
      carries (payload k) m -> over_cap m = Some token -> fits 64 ts ->
      talk id k d (answer (risk_reply ts token) d)
  | talk_junk : d_state d = LoggedIn -> type k = kUnsequenced ->
      (forall m, ~ carries (payload k) m) -> talk id k d d
  | talk_logout : d_state d = LoggedIn -> type k = kLogoutRequest -> talk id k d (go_to Closed d)
  | talk_other : d_state d = LoggedIn -> type k <> kUnsequenced -> type k <> kLogoutRequest ->
      talk id k d d.

Definition hung_up (d : Dialogue) : Prop := d_state d = Closed.

(** ** The callbacks follow it *)

Lemma carries_command id data m : carries data m -> command_ok (mkCommand id m).
Proof. by destruct 1. Qed.

Lemma carries_tag data m : carries data m ->
  data !! 0%nat = Some (match m with CEnter _ => chr "O" | CCancel _ => chr "X" | CReplace _ => chr "U" end).
Proof. by destruct 1. Qed.

(** A decoder finds the message a string carries, or there is none. *)
Lemma command_cases {M} (c : Codec M) (inj : M -> CommandMsg) data :
  codec_correct c -> Forall is_byte data -> data !! 0%nat = Some (c_tag c) ->
  (forall m, f_ok (c_body c) m -> carries (c_wire c m) (inj m)) ->
  (forall x, carries data x -> exists m, f_ok (c_body c) m /\ data = c_wire c m) ->
  (exists m, c_decode c data = Ok (Some m) /\ carries data (inj m) /\ f_ok (c_body c) m) \/
  (c_decode c data = Ok None /\ forall x, ~ carries data x).
Proof.
  intros Hc Hb Ht Hin Hinv. destruct (cc_accepts _ Hc data Hb) as [(m & -> & Hm & Hw)|[Hd Hn]].
  - left. exists m. split_and!; [done| |done]. rewrite <- Hw. by apply Hin.
  - right. split; [done|]. intros x (m & Hm & E)%Hinv. by rewrite E, (cc_decode _ Hc m Hm) in Hd.
Qed.

Lemma enter_cases data :
  Forall is_byte data -> data !! 0%nat = Some (chr "O") ->
  (exists m, Ouch.decode_enter_order data = Ok (Some m) /\ carries data (CEnter m)) \/
  (Ouch.decode_enter_order data = Ok None /\ forall x, ~ carries data x).
Proof.
  intros Hb Ht.
  destruct (command_cases Ouch.EnterOrder_codec CEnter data) as [(m & H1 & H2 & _)|H]; eauto.
  - apply implements_correct, Ouch.EnterOrder_implements.
  - apply carries_enter.
  - intros x Hx. pose proof (carries_tag _ _ Hx) as Hg. rewrite Ht in Hg. destruct Hx; [eauto|done|done].
Qed.

Lemma cancel_cases data :
  Forall is_byte data -> data !! 0%nat = Some (chr "X") ->
  (exists m, Ouch.decode_cancel_order data = Ok (Some m) /\ carries data (CCancel m)) \/
  (Ouch.decode_cancel_order data = Ok None /\ forall x, ~ carries data x).
Proof.
  intros Hb Ht.
  destruct (command_cases Ouch.CancelOrder_codec CCancel data) as [(m & H1 & H2 & _)|H]; eauto.
  - apply implements_correct, Ouch.CancelOrder_implements.
  - apply carries_cancel.
  - intros x Hx. pose proof (carries_tag _ _ Hx) as Hg. rewrite Ht in Hg. destruct Hx; [done|eauto|done].
Qed.

Lemma replace_cases data :
  Forall is_byte data -> data !! 0%nat = Some (chr "U") ->
  (exists m, Ouch.decode_replace_order data = Ok (Some m) /\ carries data (CReplace m)) \/
  (Ouch.decode_replace_order data = Ok None /\ forall x, ~ carries data x).
Proof.
  intros Hb Ht.
  destruct (command_cases Ouch.ReplaceOrder_codec CReplace data) as [(m & H1 & H2 & _)|H]; eauto.
  - apply implements_correct, Ouch.ReplaceOrder_implements.
  - apply carries_replace.
  - intros x Hx. pose proof (carries_tag _ _ Hx) as Hg. rewrite Ht in Hg. destruct Hx; [done|done|eauto].
Qed.

Definition clock_ok (w : World) : Prop := forall n, fits 64 (clock_ w n).

Lemma sequenced_ok data :
  Forall is_byte data -> lengthZ data < 2 ^ 16 - 1 -> packet_ok (mkPacket kSequenced data).
Proof. intros Hb Hn. split_and!; [by vm_compute|done|done]. Qed.

Lemma send_sequenced_spec data s :
  Forall is_byte data -> lengthZ data < 2 ^ 16 - 1 ->
  send_sequenced data s = Ok (set_out (out_ s ++ wire (mkPacket kSequenced data)) s).
Proof. intros Hb Hn. exact (queue_spec _ s (sequenced_ok data Hb Hn)). Qed.

Lemma rejected_ok ts token reason :
  fits 64 ts -> length token = 14%nat -> Forall is_byte token -> is_byte reason ->
  f_ok Ouch.Rejected_body (Ouch.mkRejected ts token reason).
Proof. unfold Ouch.Rejected_body. fmt_simpl. unfold fits, is_byte. cbn. auto. Qed.

Lemma codec_wire_bytes {M} (c : Codec M) m :
  codec_implements c -> f_ok (c_body c) m ->
  Forall is_byte (c_wire c m) /\ length (c_wire c m) = c_size c.
Proof.
  intros [Hl Ht _ _ _] Hm. split; [constructor; [done|by apply f_put_bytes]|].
  unfold c_wire, c_size. cbn [length]. by rewrite f_put_size.
Qed.

Definition after_reading (w : World) : World := (ns_since_midnight w).2.

Lemma risk_reject_spec token w s :
  clock_ok w -> length token = 14%nat -> Forall is_byte token ->
  risk_reject token w s =
    Ok (after_reading w, set_out (out_ s ++ wire (risk_reply (clock_ w (readings_ w)) token)) s).
Proof.
  intros Hc Hl Hb. unfold risk_reject. cbn [ns_since_midnight].
  pose proof (rejected_ok (clock_ w (readings_ w)) token (chr "R") (Hc _) Hl Hb ltac:(by vm_compute)) as Hok.
  pose proof Ouch.Rejected_implements as Hi.
  destruct (codec_wire_bytes _ _ Hi Hok) as [Hwb Hwl].
  pose proof (cc_encode _ (implements_correct _ Hi) _ (replicate Ouch.kRejectedSize 0) Hok) as He.
  change (c_encode Ouch.Rejected_codec) with Ouch.encode_Rejected in He. rewrite He by done.
  rewrite drop_ge, app_nil_r, outcome_bind_Ok by done.
  rewrite send_sequenced_spec by (done || (unfold lengthZ; by rewrite Hwl)). done.
Qed.

Lemma over_cap_token data m token :
  carries data m -> over_cap m = Some token -> length token = 14%nat /\ Forall is_byte token.
Proof.
  destruct 1 as [m Hm|m Hm|m Hm]; cbn [over_cap]; [|done|]; destruct (_ || _); [|done| |done];
    intros [= <-]; revert Hm; unfold Ouch.EnterOrder_body, Ouch.ReplaceOrder_body; fmt_simpl; tauto.
Qed.

Lemma handle_ouch_spec id data w s :
  clock_ok w -> Forall is_byte data ->
  (exists m, carries data m /\ over_cap m = None /\
     handle_ouch id data w s = Ok (push_command (mkCommand id m) w, s)) \/
  (exists m token, carries data m /\ over_cap m = Some token /\
     handle_ouch id data w s =
       Ok (after_reading w, set_out (out_ s ++ wire (risk_reply (clock_ w (readings_ w)) token)) s)) \/
  ((forall m, ~ carries data m) /\ handle_ouch id data w s = Ok (w, s)).
Proof.
  intros Hc Hb. unfold handle_ouch. destruct data as [|tag data].
  { right. right. split; [|done]. intros m Hm. by apply carries_tag in Hm. }
  cbn [length Nat.eqb]. unfold peek. cbn [lookup list_lookup deref]. rewrite outcome_bind_Ok.
  set (d := tag :: data) in *.
  destruct (Z.eqb_spec tag (chr "O")) as [E|NO].
  { destruct (enter_cases d Hb ltac:(by rewrite <- E)) as [(m & -> & Hm)|[-> Hn]];
      rewrite outcome_bind_Ok; [|eauto]. cbv zeta. destruct (_ || _) eqn:Ho.
    - right. left. exists (CEnter m), (Ouch.eo_token m).
      assert (over_cap (CEnter m) = Some (Ouch.eo_token m)) as Hoc by (cbn [over_cap]; by rewrite Ho).
      destruct (over_cap_token _ _ _ Hm Hoc). by rewrite risk_reject_spec.
    - left. exists (CEnter m). split_and!; [done| |done]. cbn [over_cap]. by rewrite Ho. }
  destruct (Z.eqb_spec tag (chr "X")) as [E|NX].
  { destruct (cancel_cases d Hb ltac:(by rewrite <- E)) as [(m & -> & Hm)|[-> Hn]];
      rewrite outcome_bind_Ok; [|eauto]. left. by exists (CCancel m). }
  destruct (Z.eqb_spec tag (chr "U")) as [E|NU].
  { destruct (replace_cases d Hb ltac:(by rewrite <- E)) as [(m & -> & Hm)|[-> Hn]];
      rewrite outcome_bind_Ok; [|eauto]. destruct (_ || _) eqn:Ho.
    - right. left. exists (CReplace m), (Ouch.ro_replacement_token m).
      assert (over_cap (CReplace m) = Some (Ouch.ro_replacement_token m)) as Hoc
        by (cbn [over_cap]; by rewrite Ho).
      destruct (over_cap_token _ _ _ Hm Hoc). by rewrite risk_reject_spec.
    - left. exists (CReplace m). split_and!; [done| |done]. cbn [over_cap]. by rewrite Ho. }
  right. right. split; [|done]. intros m Hm. apply carries_tag in Hm. injection Hm as ->. by destruct m.
Qed.

(** ** The bytes follow the packets *)

(** What a dialogue looks like in the gateway: since it began, the session's
    state, the commands pushed and the bytes queued. *)
Record view (cmds0 : list Command) (out0 : bytes) (w : World) (s : Session) (d : Dialogue) : Prop := {
  vw_state : state_ s = d_state d;
  vw_commands : to_engine_ w = cmds0 ++ d_commands d;
  vw_out : out_ s = out0 ++ wires (d_replies d);
  vw_replies : Forall packet_ok (d_replies d);
  vw_clock : clock_ok w }.

(** The bytes of a closed term are bytes. *)
Ltac concrete_bytes :=
  match goal with |- Forall is_byte ?l =>
    let l' := eval vm_compute in l in change (Forall is_byte l');
    repeat (apply Forall_cons; split; [unfold is_byte; lia|]); apply Forall_nil_2
  end.

Lemma login_reply_ok : packet_ok login_reply.
Proof. split_and!; [by vm_compute|concrete_bytes|by vm_compute]. Qed.

Lemma rejected_reply_ok : packet_ok (rejected_packet (chr "A")).
Proof. split_and!; [by vm_compute|concrete_bytes|by vm_compute]. Qed.

Lemma risk_reply_ok ts token :
  fits 64 ts -> length token = 14%nat -> Forall is_byte token -> packet_ok (risk_reply ts token).
Proof.
  intros Ht Hl Hb.
  destruct (codec_wire_bytes Ouch.Rejected_codec _ Ouch.Rejected_implements
    (rejected_ok ts token (chr "R") Ht Hl Hb ltac:(by vm_compute))) as [Hw Hn].
  apply sequenced_ok; [done|]. unfold lengthZ. rewrite Hn. by vm_compute.
Qed.

Lemma view_answer cmds0 out0 w s d k :
  view cmds0 out0 w s d -> packet_ok k ->
  view cmds0 out0 w (set_out (out_ s ++ wire k) s) (answer k d).
Proof.
  intros [H1 H2 H3 H4 H5] Hk. split; try done; cbn [out_ set_out answer d_replies].
  - rewrite H3, <- app_assoc. f_equal. unfold wires. rewrite map_app, concat_app. cbn.
    by rewrite app_nil_r.
  - apply Forall_app. split; [done|by constructor].
Qed.

Lemma view_go_to cmds0 out0 w s d st :
  view cmds0 out0 w s d -> view cmds0 out0 w (set_state st s) (go_to st d).
Proof. intros [H1 H2 H3 H4 H5]. by split. Qed.

Lemma view_forward cmds0 out0 w s d c :
  view cmds0 out0 w s d -> view cmds0 out0 (push_command c w) s (forward c d).
Proof.
  intros [H1 H2 H3 H4 H5]. split; try done. cbn [to_engine_ push_command forward d_commands].
  by rewrite H2, <- app_assoc.
Qed.

Lemma on_packet_talks id cmds0 out0 k w s d :
  packet_ok k -> view cmds0 out0 w s d -> state_ s <> Closed ->
  exists w' s' d', on_packet (conn_listener id) k w s =
      Ok (bool_decide (state_ s' <> Closed), (w', s')) /\
    parser_ s' = parser_ s /\ talk id k d d' /\ view cmds0 out0 w' s' d'.
Proof.
  intros (_ & Hb & _) Hv Hs. pose proof (vw_state _ _ _ _ _ Hv) as Hst. unfold on_packet.
  destruct (state_ s) eqn:E; [| |done]; symmetry in Hst.
  - destruct (Z.eqb_spec (type k) kLoginRequest) as [Ht|Ht].
    2:{ exists w, s, d. split_and!; [done|done|by apply talk_too_early|done]. }
    destruct (decode_login_returns (payload k)) as [[req|] Hd]; rewrite Hd, outcome_bind_Ok.
    + cbn [on_login_request conn_listener]. rewrite accept_login_spec by apply login_reply_ok.
      rewrite !outcome_bind_Ok. eexists _, _, _. split_and!; [done|done|by eapply talk_login|].
      apply view_go_to, view_answer; [done|apply login_reply_ok].
    + rewrite reject_login_spec by by vm_compute. rewrite outcome_bind_Ok.
      exists w, (set_state Closed (set_out (out_ s ++ wire (rejected_packet (chr "A"))) s)). eexists.
      split_and!; [done|done|by apply talk_bad_login|].
      apply view_go_to, view_answer; [done|apply rejected_reply_ok].
  - destruct (Z.eqb_spec (type k) kUnsequenced) as [Ht|Ht].
    + cbn [on_unsequenced conn_listener]. pose proof (vw_clock _ _ _ _ _ Hv) as Hc.
      destruct (handle_ouch_spec id (payload k) w s Hc Hb) as
        [(m & Hm & Ho & ->)|[(m & token & Hm & Ho & ->)|[Hn ->]]]; rewrite outcome_bind_Ok.
      * eexists _, _, _. split_and!; [done|done|by apply (talk_order _ _ _ m)|by apply view_forward].
      * destruct (over_cap_token _ _ _ Hm Ho). eexists _, _, _.
        split_and!; [done|done|by eapply (talk_risk _ _ _ m)|].
        assert (view cmds0 out0 (after_reading w) s d) as Hv' by (destruct Hv; by split).
        apply view_answer; [done|by apply risk_reply_ok].
      * exists w, s, d. split_and!; [done|done|by apply talk_junk|done].
    + destruct (Z.eqb_spec (type k) kLogoutRequest) as [Hl|Hl].
      * cbn [on_logout conn_listener]. rewrite outcome_bind_Ok.
        exists w, (set_state Closed s). eexists.
        split_and!; [done|done|by apply talk_logout|by apply view_go_to].
      * exists w, s, d. unfold unless_closed. cbn [snd]. rewrite E.
        split_and!; [done|done|by apply talk_other|done].
Qed.

#[export] Instance connection_spec id cmds0 out0 :
  SessionSpec (conn_listener id) (view cmds0 out0) (talk id) hung_up.
Proof.
  split.
  - intros w s a p [H1 H2 H3 H4 H5]. by split.
  - intros w s a t [H1 H2 H3 H4 H5]. by split.
  - intros w s a [H1 _ _ _ _]. unfold hung_up. by rewrite H1.
  - apply on_packet_talks.
Qed.

(** A connection's packets one after the other. *)
Definition dialogue (id : Z) : list Packet -> Dialogue -> Dialogue -> Prop := machine (talk id) hung_up.

(** C14: a connection implements its packet-level specification. Cut a stream
    of packets into any pieces and feed them to a new connection one after the
    other, at any times: reading never fails, and the commands forwarded to
    the engine, the bytes queued for the client and the session's state are
    those of a run of the packet machine [talk] over the packets. *)
Theorem connection_refines_dialogue id ks chunks now w :
  clock_ok w -> Forall packet_ok ks -> concat chunks.*2 = wires ks ->
  exists w' s' d, on_bytes_all (conn_listener id) chunks w (new_session now) = Ok (w', s') /\
    dialogue id ks fresh d /\
    state_ s' = d_state d /\ to_engine_ w' = to_engine_ w ++ d_commands d /\
    out_ s' = wires (d_replies d).
Proof.
  intros Hc Hks Hs.
  destruct (session_serves (conn_listener id) (view (to_engine_ w) []) (talk id) hung_up chunks ks w
    (new_session now) fresh) as (w' & s' & d & -> & Hm & [H1 H2 H3 H4 H5]); [apply new_parser_ok|done| |done|done|].
  - split; try done. by rewrite app_nil_r.
  - exists w', s', d. done.
Qed.

(** ** What the specification says *)

Definition valid_login (k : Packet) : Prop :=
  type k = kLoginRequest /\ exists r, decode_login_request (payload k) = Ok (Some r).

Definition admitted (id : Z) (c : Command) : Prop :=
  cmd_client_id c = id /\ command_ok c /\ over_cap (cmd_msg c) = None.

Lemma talk_admitted id k d d' :
  talk id k d d' -> Forall (admitted id) (d_commands d) -> Forall (admitted id) (d_commands d').
Proof.
  destruct 1 as [| | |m _ _ Hm Ho| | | |]; intros Hd; try done. cbn [forward d_commands].
  apply Forall_app. split; [done|]. constructor; [|done]. split_and!; [done|by eapply carries_command|done].
Qed.

Lemma dialogue_admitted id ks d d' :
  dialogue id ks d d' -> Forall (admitted id) (d_commands d) -> Forall (admitted id) (d_commands d').
Proof.
  induction 1 as [a|ks a Hc|k ks a a1 a2 Hc Ht _ IH]; intros H0; [done|done|].
  apply IH. by eapply talk_admitted.
Qed.

Lemma talk_before_login id k d d' :
  talk id k d d' -> ~ valid_login k -> d_state d <> LoggedIn ->
  d_state d' <> LoggedIn /\ d_commands d' = d_commands d.
Proof.
  destruct 1 as [r| | | | | | |]; intros Hv Hs; try done; [|congruence..].
  destruct Hv. split; [done|eauto].
Qed.

Lemma dialogue_before_login id ks d d' :
  dialogue id ks d d' -> Forall (fun k => ~ valid_login k) ks -> d_state d <> LoggedIn ->
  d_state d' <> LoggedIn /\ d_commands d' = d_commands d.
Proof.
  induction 1 as [a|ks a Hc|k ks a a1 a2 Hc Ht _ IH]; intros Hl H0; [done|done|].
  apply Forall_cons in Hl as [Hk Hl]. destruct (talk_before_login _ _ _ _ Ht Hk H0) as [H1 H2].
  destruct (IH Hl H1) as [H3 H4]. split; [done|]. by rewrite H4.
Qed.

(** Nothing unchecked reaches the engine. Feed any bytes at all to a new
    connection, in any pieces: reading never fails, and every command forwarded
    carries the connection's client id, was decoded from a message of the right
    form and is within the risk caps. If no packet of the stream is a login
    request that decodes, nothing is forwarded. *)
Theorem only_checked_commands id chunks now w :
  clock_ok w -> Forall (fun c => Forall is_byte c.2) chunks ->
  exists w' s' cmds, on_bytes_all (conn_listener id) chunks w (new_session now) = Ok (w', s') /\
    to_engine_ w' = to_engine_ w ++ cmds /\ Forall (admitted id) cmds /\
    ((forall ks rest, concat chunks.*2 = wires ks ++ rest -> Forall (fun k => ~ valid_login k) ks) ->
     cmds = [] /\ state_ s' <> LoggedIn).
Proof.
  intros Hc Hb.
  destruct (on_bytes_all_spec (conn_listener id) (view (to_engine_ w) []) (talk id) hung_up chunks w
    (new_session now) fresh) as (w' & s' & ks & d & rest & -> & Hks & Hm & [H1 H2 H3 H4 H5] & Hs & _);
    [apply new_parser_ok|intros _; apply incomplete_nil|done|split; try done; by rewrite app_nil_r|].
  exists w', s', (d_commands d). split_and!; [done|done|by apply (dialogue_admitted _ _ _ _ Hm); constructor|].
  intros Hl. destruct (dialogue_before_login id ks fresh d Hm) as [E1 E2]; [by eapply Hl|done|].
  split; [done|]. by rewrite H1.
Qed.

(** ** A client *)

Definition demo_login : Packet :=
  mkPacket kLoginRequest (login_payload (mkLoginRequest [85] [80] [] 1)).

Definition demo_cancel : Ouch.CancelOrder := Ouch.mkCancelOrder (make_token [97]) 60.

Definition demo_order : Packet := mkPacket kUnsequenced (c_wire Ouch.CancelOrder_codec demo_cancel).

Lemma demo_cancel_ok : f_ok Ouch.CancelOrder_body demo_cancel.
Proof.
  unfold Ouch.CancelOrder_body. fmt_simpl. vm_compute.
  repeat (split || constructor || (unfold fits, is_byte; cbn; lia)); done.
Qed.

Lemma demo_packets_ok : Forall packet_ok [demo_login; demo_order].
Proof.
  repeat (apply Forall_cons; split); [..|apply Forall_nil_2]; (split_and!; [by vm_compute| |by vm_compute]).
  - concrete_bytes.
  - apply (codec_wire_bytes Ouch.CancelOrder_codec); [apply Ouch.CancelOrder_implements|apply demo_cancel_ok].
Qed.

Definition still_clock : World := mkWorld [] (fun _ => 0) 0.

Lemma connection_refines_dialogue_witness :
  exists w' s' d,
    on_bytes_all (conn_listener 7) [(1, take 20 (wires [demo_login; demo_order]));
      (2, drop 20 (wires [demo_login; demo_order]))] still_clock (new_session 0) = Ok (w', s') /\
    dialogue 7 [demo_login; demo_order] fresh d /\
    state_ s' = d_state d /\ to_engine_ w' = [] ++ d_commands d /\ out_ s' = wires (d_replies d).
Proof.
  apply (connection_refines_dialogue 7 [demo_login; demo_order]).
  - intros n. unfold fits. cbn. lia.
  - exact demo_packets_ok.
  - cbn [fmap list_fmap snd concat]. rewrite app_nil_r. apply take_drop.
Defined.

(** The same run, evaluated. *)
Example demo_connection :
  (ws ← on_bytes_all (conn_listener 7) [(1, take 20 (wires [demo_login; demo_order]));
     (2, drop 20 (wires [demo_login; demo_order]))] still_clock (new_session 0);
   Ok (to_engine_ ws.1, state_ ws.2)) = Ok ([mkCommand 7 (CCancel demo_cancel)], LoggedIn).
Proof. vm_compute. reflexivity. Qed.

Lemma only_checked_commands_witness :
  exists w' s' cmds, on_bytes_all (conn_listener 7) [(1, take 20 (wires [demo_login; demo_order]))]
      still_clock (new_session 0) = Ok (w', s') /\
    to_engine_ w' = [] ++ cmds /\ Forall (admitted 7) cmds.
Proof.
  destruct (only_checked_commands 7 [(1, take 20 (wires [demo_login; demo_order]))] 0 still_clock)
    as (w' & s' & cmds & Hr & Hc & Ha & _).
  - intros n. unfold fits. cbn. lia.
  - constructor; [|done]. cbn [snd]. apply Forall_take, wires_bytes, demo_packets_ok.
  - exists w', s', cmds. split; [exact Hr|]. split; [exact Hc|exact Ha].
Defined.
End GatewaySession.
