(* ===== verification/GatewayInv.v ===== *)
(** The gateway's tables and streams: what holds of every connection between
    two events, and that every handler keeps it. *)

From S2P Require Import Prelude Endian BookTypes Wire Symbols Ouch Engine EngineRuns Soup SoupSession Gateway GatewaySession.
From Stdlib Require Import Ascii.

Module GatewayInv.
Import Engine Soup SoupSession Gateway GatewaySession.

(** ** Invariant *)

(** Everything queued for a client so far: sent, in the connection's buffer,
    or still in its session. *)
Definition stream_of (g : Gateway) (id : Z) : bytes :=
  stream_sent id g ++
  match conns_ g !! id with Some c => outbuf c ++ out_ (session c) | None => [] end.

Record conn_ok (sent : bytes) (c : Conn) : Prop := {
  cn_parser : parser_ok (parser_ (session c));
  cn_filter : write_enabled c = negb (is_empty (outbuf c));
  cn_stream : exists ks, Forall packet_ok ks /\ sent ++ outbuf c ++ out_ (session c) = wires ks }.

Definition command_in (next : Z) (c : Command) : Prop :=
  0 < cmd_client_id c < next /\ command_ok c /\ over_cap (cmd_msg c) = None.

Record ginv (g : Gateway) : Prop := {
  gi_ids : forall id, is_Some (conns_ g !! id) -> 0 < id < next_client_id_ g;
  gi_conn : forall id c, conns_ g !! id = Some c -> conn_ok (stream_sent id g) c;
  gi_by_fd : forall id c, conns_ g !! id = Some c -> by_fd_ g !! fd c = Some id;
  gi_owner : forall f id, by_fd_ g !! f = Some id -> exists c, conns_ g !! id = Some c /\ fd c = f;
  gi_filter : forall id c, conns_ g !! id = Some c -> poller_ g !! fd c = Some (write_enabled c);
  gi_poller : forall f, is_Some (poller_ g !! f) -> is_Some (by_fd_ g !! f);
  gi_unused : forall id, next_client_id_ g <= id -> sent_ g !! id = None;
  gi_next : 0 < next_client_id_ g;
  gi_clock : clock_ok (world g);
  gi_commands : Forall (command_in (next_client_id_ g)) (to_engine_ (world g)) }.

Lemma gateway_start_inv clock : (forall n, fits 64 (clock n)) -> ginv (start clock).
Proof.
  intros Hc. split; cbn; try (intros *; rewrite ?lookup_empty; intros H; by destruct H || done); try done.
Qed.

(** ** Streams only grow *)

(** A packet the gateway sends of its own accord: a login reply, a heartbeat,
    or the answer to an order over the risk caps. *)
Definition gateway_packet (k : Packet) : Prop :=
  packet_ok k /\
  (type k <> kSequenced \/
   exists ts token, fits 64 ts /\ length token = 14%nat /\ Forall is_byte token /\ k = risk_reply ts token).

(** What a step without responses of the engine does: commands are appended to
    the engine's queue, ids are not reused, and the stream of every connection
    that is still there is extended by packets of the gateway's own. *)
Record grows (g g' : Gateway) : Prop := {
  gr_commands : to_engine_ (world g) `prefix_of` to_engine_ (world g');
  gr_next : next_client_id_ g <= next_client_id_ g';
  gr_stream : forall id, is_Some (conns_ g' !! id) ->
    (is_Some (conns_ g !! id) \/ next_client_id_ g <= id) /\
    exists ks, Forall gateway_packet ks /\ stream_of g' id = stream_of g id ++ wires ks }.

Lemma stream_unused g id : ginv g -> next_client_id_ g <= id -> stream_of g id = [].
Proof.
  intros Hg Hn. unfold stream_of, stream_sent. rewrite (gi_unused _ Hg) by done.
  destruct (conns_ g !! id) eqn:E; [|done].
  assert (0 < id < next_client_id_ g) by (apply Hg; by eexists). lia.
Qed.

Lemma grows_same g g' :
  world g' = world g -> next_client_id_ g' = next_client_id_ g ->
  (forall i, is_Some (conns_ g' !! i) -> is_Some (conns_ g !! i) /\ stream_of g' i = stream_of g i) ->
  grows g g'.
Proof.
  intros Ew En Hs. split; [by rewrite Ew|lia|]. intros i [Hi Hst]%Hs. split; [by left|].
  exists []. by rewrite app_nil_r.
Qed.

Lemma grows_refl g : grows g g.
Proof. by apply grows_same. Qed.

Lemma grows_trans g1 g2 g3 : ginv g1 -> ginv g2 -> grows g1 g2 -> grows g2 g3 -> grows g1 g3.
Proof.
  intros Hg1 Hg2 [C1 N1 S1] [C2 N2 S2]. split; [by etrans|lia|]. intros id Hid.
  destruct (S2 id Hid) as [[Hi|Hi] (ks2 & Hk2 & E2)].
  - destruct (S1 id Hi) as [Hd (ks1 & Hk1 & E1)]. split; [done|]. exists (ks1 ++ ks2).
    split; [by apply Forall_app|]. rewrite E2, E1, <- app_assoc. unfold wires. by rewrite map_app, concat_app.
  - split; [right; lia|]. exists ks2. split; [done|]. rewrite E2.
    by rewrite (stream_unused g2), (stream_unused g1) by (done || lia).
Qed.

(** Changing one connection. *)
Lemma update_inv g g' id c c' :
  ginv g -> conns_ g !! id = Some c ->
  conns_ g' = <[id := c']> (conns_ g) -> fd c' = fd c -> by_fd_ g' = by_fd_ g ->
  poller_ g' = <[fd c := write_enabled c']> (poller_ g) ->
  next_client_id_ g' = next_client_id_ g ->
  (forall i, i <> id -> sent_ g' !! i = sent_ g !! i) ->
  conn_ok (stream_sent id g') c' -> clock_ok (world g') ->
  Forall (command_in (next_client_id_ g)) (to_engine_ (world g')) -> ginv g'.
Proof.
  intros [H1 H2 H3 H4 H5 H6 H7 H8 H9 H10] Hc Ec Ef Eb Ep En Es Hok Hk Hcm.
  split; rewrite ?Ec, ?Eb, ?Ep, ?En; try done.
  - intros i. rewrite lookup_insert_is_Some. intros [<-|[_ Hi]]; [apply H1; by eexists|by apply H1].
  - intros i d. rewrite lookup_insert_Some. intros [[<- <-]|[Hne Hi]]; [done|].
    unfold stream_sent. rewrite Es by done. by apply H2.
  - intros i d. rewrite lookup_insert_Some. intros [[<- <-]|[Hne Hi]]; [rewrite Ef|]; by apply H3.
  - intros f i Hf. destruct (H4 f i Hf) as (d & Hd & <-). destruct (decide (i = id)) as [->|Hne].
    + rewrite lookup_insert_eq. exists c'. split; [done|]. congruence.
    + rewrite lookup_insert_ne by done. eauto.
  - intros i d. rewrite lookup_insert_Some. intros [[<- <-]|[Hne Hi]].
    + by rewrite Ef, lookup_insert_eq.
    + rewrite lookup_insert_ne; [by eapply H5|]. intros E. pose proof (H3 _ _ Hi) as A.
      pose proof (H3 _ _ Hc) as B. rewrite <- E, B in A. congruence.
  - intros f. rewrite lookup_insert_is_Some. intros [<-|[_ Hf]]; [rewrite (H3 _ _ Hc); by eexists|by apply H6].
  - intros i Hi. destruct (decide (i = id)) as [->|Hne]; [|rewrite Es by done; by apply H7].
    assert (0 < id < next_client_id_ g) by (apply H1; by eexists). lia.
Qed.

(** Closing one. *)
Lemma delete_keeps g id g' :
  conns_ g' = delete id (conns_ g) -> sent_ g' = sent_ g ->
  forall i, is_Some (conns_ g' !! i) -> is_Some (conns_ g !! i) /\ stream_of g' i = stream_of g i.
Proof.
  intros Ec Es i. rewrite Ec. intros [c [Hne Hc]%lookup_delete_Some].
  split; [by eexists|]. unfold stream_of, stream_sent. by rewrite Es, Ec, lookup_delete_ne.
Qed.

Lemma closed_grows g id g' :
  world g' = world g -> next_client_id_ g' = next_client_id_ g -> sent_ g' = sent_ g ->
  conns_ g' = delete id (conns_ g) -> grows g g'.
Proof. intros Ew En Es Ec. apply grows_same; [done|done|by eapply delete_keeps]. Qed.

Lemma close_conn_inv g id c :
  ginv g -> conns_ g !! id = Some c ->
  exists g', close_conn id g = Ok g' /\ ginv g' /\ conns_ g' = delete id (conns_ g) /\
    world g' = world g /\ next_client_id_ g' = next_client_id_ g /\ sent_ g' = sent_ g /\ grows g g'.
Proof.
  intros Hg Hc. pose proof (closed_grows g id) as Hgr. destruct Hg as [H1 H2 H3 H4 H5 H6 H7 H8 H9 H10]. unfold close_conn. rewrite Hc. cbn [deref].
  rewrite outcome_bind_Ok. eexists. split; [done|]. split; [|split_and!; try done; by apply Hgr].
  split; cbn [conns_ by_fd_ poller_ next_client_id_ world sent_]; try done.
  - intros i [d Hd]. apply lookup_delete_Some in Hd as [_ Hd]. apply H1. by eexists.
  - intros i d Hd. apply lookup_delete_Some in Hd as [Hne Hd]. by apply H2.
  - intros i d Hd. apply lookup_delete_Some in Hd as [Hne Hd]. rewrite lookup_delete_ne; [by apply H3|].
    intros E. pose proof (H3 _ _ Hd) as A. pose proof (H3 _ _ Hc) as B. rewrite <- E, B in A. congruence.
  - intros f i Hf. apply lookup_delete_Some in Hf as [Hne Hf]. destruct (H4 f i Hf) as (d & Hd & <-).
    exists d. split; [|done]. apply lookup_delete_Some. split; [|done]. intros ->. congruence.
  - intros i d Hd. apply lookup_delete_Some in Hd as [Hne Hd]. rewrite lookup_delete_ne; [by eapply H5|].
    intros E. pose proof (H3 _ _ Hd) as A. pose proof (H3 _ _ Hc) as B. rewrite <- E, B in A. congruence.
  - intros f [b Hb]. apply lookup_delete_Some in Hb as [Hne Hb]. rewrite lookup_delete_ne by done.
    apply H6. by eexists.
Qed.

(** ** Sending *)

Lemma poller_same g id c :
  ginv g -> conns_ g !! id = Some c -> <[fd c := write_enabled c]> (poller_ g) = poller_ g.
Proof. intros Hg Hc. apply insert_id. by eapply gi_filter. Qed.

(** What a step leaves alone when it only moves bytes towards the client. *)
Record moved (g g' : Gateway) : Prop := {
  mv_world : world g' = world g;
  mv_next : next_client_id_ g' = next_client_id_ g;
  mv_stream : forall i, stream_of g' i = stream_of g i;
  mv_conns : forall i c, conns_ g !! i = Some c ->
    exists c', conns_ g' !! i = Some c' /\ state_ (session c') = state_ (session c);
  mv_back : forall i, is_Some (conns_ g' !! i) -> is_Some (conns_ g !! i) }.

Lemma moved_keeps g g' :
  moved g g' -> forall i, is_Some (conns_ g' !! i) -> is_Some (conns_ g !! i) /\ stream_of g' i = stream_of g i.
Proof. intros [_ _ H3 _ H4]. auto. Qed.

Lemma moved_grows g g' : moved g g' -> grows g g'.
Proof. intros Hm. apply grows_same; [apply Hm|apply Hm|by apply moved_keeps]. Qed.

Definition flushed (c : Conn) (n : nat) : Conn :=
  let o := outbuf c ++ out_ (session c) in
  let rest := drop (Nat.min n (length o)) o in
  mkConn (fd c) (set_out [] (session c)) rest (negb (is_empty rest)).

Lemma flush_result g id c n :
  conns_ g !! id = Some c -> write_enabled c = negb (is_empty (outbuf c)) ->
  poller_ g !! fd c = Some (write_enabled c) ->
  exists g', flush id (Sent n) g = Ok g' /\ conns_ g' = <[id := flushed c n]> (conns_ g) /\
    by_fd_ g' = by_fd_ g /\ poller_ g' = <[fd c := write_enabled (flushed c n)]> (poller_ g) /\
    next_client_id_ g' = next_client_id_ g /\ world g' = world g /\
    (forall i, i <> id -> sent_ g' !! i = sent_ g !! i) /\
    stream_sent id g' ++ outbuf (flushed c n) = stream_sent id g ++ outbuf c ++ out_ (session c).
Proof.
  intros Hc Hw Hp. unfold flush. rewrite Hc. cbn [deref]. rewrite outcome_bind_Ok.
  cbn [take_output]. cbv zeta. cbn [outbuf]. unfold flushed. set (o := outbuf c ++ out_ (session c)).
  destruct (is_empty o) eqn:Ho.
  { destruct o as [|] eqn:Eo; [|done]. apply app_eq_nil in Eo as [E1 E2].
    eexists. split; [done|]. cbn [conns_ put_conn set_conns by_fd_ poller_ next_client_id_ world sent_].
    rewrite drop_nil. cbn [is_empty negb write_enabled outbuf]. rewrite Hw, E1. cbn [is_empty negb].
    split_and!; try done. rewrite insert_id; [done|]. by rewrite Hp, Hw, E1. }
  set (m := Nat.min n (length o)). unfold update_write_filter.
  cbn [conns_ put_conn set_conns log_sent]. rewrite lookup_insert_eq. cbn [deref].
  rewrite outcome_bind_Ok. cbn [set_outbuf outbuf write_enabled].
  assert (forall g', sent_ g' = <[id := stream_sent id g ++ take m o]> (sent_ g) ->
    (forall i, i <> id -> sent_ g' !! i = sent_ g !! i) /\
    stream_sent id g' ++ drop m o = stream_sent id g ++ o) as Hsent.
  { intros g' E. split; [intros i Hi; by rewrite E, lookup_insert_ne|].
    replace (stream_sent id g') with (stream_sent id g ++ take m o)
      by (unfold stream_sent at 2; by rewrite E, lookup_insert_eq).
    by rewrite <- app_assoc, take_drop. }
  destruct (Bool.eqb _ _) eqn:Eb.
  - apply eqb_prop in Eb. eexists. split; [done|].
    cbn [conns_ put_conn set_conns by_fd_ poller_ next_client_id_ world log_sent].
    rewrite !insert_insert_eq. split_and!; try done; [by rewrite <- Eb| |by apply Hsent..].
    rewrite insert_id; [done|]. by rewrite Hp, <- Eb.
  - eexists. split; [done|].
    cbn [conns_ put_conn set_conns by_fd_ poller_ next_client_id_ world log_sent set_poller fd session outbuf].
    rewrite !insert_insert_eq. split_and!; try done; by apply Hsent.
Qed.

Lemma stream_of_conn g id c :
  conns_ g !! id = Some c -> stream_of g id = stream_sent id g ++ outbuf c ++ out_ (session c).
Proof. intros Hc. unfold stream_of. by rewrite Hc. Qed.

Lemma flush_sent g id c n :
  ginv g -> conns_ g !! id = Some c ->
  exists g', flush id (Sent n) g = Ok g' /\ ginv g' /\ moved g g' /\
    conns_ g' !! id = Some (flushed c n).
Proof.
  intros Hg Hc. destruct (gi_conn _ Hg id c Hc) as [Hp Hw (ks & Hks & Hs)].
  destruct (flush_result g id c n Hc Hw (gi_filter _ Hg id c Hc)) as
    (g' & Hf & Ec & Eb & Ep & En & Ew & Es & Est).
  exists g'. split; [done|].
  assert (conns_ g' !! id = Some (flushed c n)) as Hc' by (by rewrite Ec, lookup_insert_eq).
  assert (stream_of g' id = stream_of g id) as Hid.
  { rewrite (stream_of_conn g' id _ Hc'), (stream_of_conn g id c Hc), <- Est.
    change (out_ (session (flushed c n))) with (@nil Z). by rewrite app_nil_r. }
  split; [|split; [|done]].
  - apply (update_inv g g' id c (flushed c n)); try done; [|by rewrite Ew; apply Hg..].
    split; [done|done|]. exists ks. split; [done|].
    rewrite <- (stream_of_conn g' id _ Hc'), Hid, (stream_of_conn g id c Hc). done.
  - split; [done|done| | |].
    + intros i. destruct (decide (i = id)) as [->|Hne]; [done|].
      unfold stream_of, stream_sent. by rewrite Es, Ec, lookup_insert_ne by done.
    + intros i d Hd. rewrite Ec. destruct (decide (i = id)) as [->|Hne].
      * rewrite lookup_insert_eq. eexists. split; [done|]. cbn. congruence.
      * rewrite lookup_insert_ne by done. eauto.
    + intros i. rewrite Ec, lookup_insert_is_Some. intros [<-|[_ Hi]]; [by eexists|done].
Qed.

(** With nothing to send, [send] is not called. *)
Lemma flush_nothing g id c r :
  conns_ g !! id = Some c -> outbuf c ++ out_ (session c) = [] -> flush id r g = flush id (Sent 0) g.
Proof.
  intros Hc Ho. unfold flush. rewrite Hc. cbn [deref]. rewrite !outcome_bind_Ok.
  cbn [take_output]. cbv zeta. cbn [outbuf]. by rewrite Ho.
Qed.

(** A failing [send] closes the connection. *)
Lemma flush_failed g id c :
  ginv g -> conns_ g !! id = Some c -> outbuf c ++ out_ (session c) <> [] ->
  exists g', flush id SendFailed g = Ok g' /\ ginv g' /\ world g' = world g /\
    next_client_id_ g' = next_client_id_ g /\ conns_ g' = delete id (conns_ g) /\ sent_ g' = sent_ g /\
    grows g g'.
Proof.
  intros Hg Hc Ho. unfold flush. rewrite Hc. cbn [deref]. rewrite outcome_bind_Ok.
  cbn [take_output]. cbv zeta. cbn [outbuf].
  destruct (is_empty _) eqn:He; [by destruct (outbuf c ++ out_ (session c))|].
  unfold close_conn. cbn [conns_ put_conn set_conns]. rewrite lookup_insert_eq. cbn [deref].
  rewrite outcome_bind_Ok. cbn [fd].
  destruct (close_conn_inv g id c Hg Hc) as (g2 & Hcl & Hg2 & Ec & Ew & En & Es & Hgr).
  unfold close_conn in Hcl. rewrite Hc in Hcl. cbn [deref] in Hcl. rewrite outcome_bind_Ok in Hcl.
  injection Hcl as Hcl. exists g2. split; [|done]. rewrite <- Hcl. clear Hgr.
  cbn [put_conn set_conns world next_client_id_ conns_ by_fd_ poller_ sent_].
  by rewrite delete_insert_eq.
Qed.

(** Whatever [send] does, the tables stay in order, and only this connection
    is touched. *)
Lemma flush_conn_inv g id c r :
  ginv g -> conns_ g !! id = Some c ->
  exists g', flush id r g = Ok g' /\ ginv g' /\ world g' = world g /\
    next_client_id_ g' = next_client_id_ g /\ grows g g' /\
    ((exists n, r = Sent n) \/ outbuf c ++ out_ (session c) = [] -> moved g g') /\
    (forall i, is_Some (conns_ g' !! i) -> is_Some (conns_ g !! i) /\ stream_of g' i = stream_of g i).
Proof.
  intros Hg Hc. destruct (decide (outbuf c ++ out_ (session c) = [])) as [Ho|Ho].
  - rewrite (flush_nothing g id c r Hc Ho).
    destruct (flush_sent g id c 0 Hg Hc) as (g' & -> & Hg' & Hm & _). exists g'.
    split_and!; [done|done|apply Hm|apply Hm|by apply moved_grows|done|by apply moved_keeps].
  - destruct r as [n|].
    + destruct (flush_sent g id c n Hg Hc) as (g' & -> & Hg' & Hm & _). exists g'.
      split_and!; [done|done|apply Hm|apply Hm|by apply moved_grows|done|by apply moved_keeps].
    + destruct (flush_failed g id c Hg Hc Ho) as (g' & -> & Hg' & Ew & En & Ec & Es & Hgr). exists g'.
      split_and!; [done|done|done|done|done| |by apply (delete_keeps g id)]. by intros [[n Hn]|Hn].
Qed.

(** ** Sessions *)

(** A session of a connection that has queued more packets. *)
Definition with_session (id : Z) (c : Conn) (w : World) (s : Session) (g : Gateway) : Gateway :=
  put_conn id (set_session s c) (set_world w g).

Lemma with_session_inv g id c w s ks :
  ginv g -> conns_ g !! id = Some c -> parser_ok (parser_ s) ->
  out_ s = out_ (session c) ++ wires ks -> Forall packet_ok ks -> clock_ok w ->
  Forall (command_in (next_client_id_ g)) (to_engine_ w) ->
  ginv (with_session id c w s g) /\
  stream_of (with_session id c w s g) id = stream_of g id ++ wires ks /\
  (forall i, i <> id -> stream_of (with_session id c w s g) i = stream_of g i).
Proof.
  intros Hg Hc Hp Ho Hk Hw Hcm. set (g' := with_session id c w s g).
  destruct (gi_conn _ Hg id c Hc) as [Hp0 Hf (ks0 & Hks & Hs)].
  assert (conns_ g' !! id = Some (set_session s c)) as Hc' by (cbn; by rewrite lookup_insert_eq).
  assert (stream_of g' id = stream_of g id ++ wires ks) as Hst.
  { rewrite (stream_of_conn g' id _ Hc'), (stream_of_conn g id c Hc). cbn [set_session outbuf session].
    by rewrite Ho, <- !app_assoc. }
  split; [|split; [done|]].
  - apply (update_inv g g' id c (set_session s c)); try done; [symmetry; by apply (poller_same g id c)|].
    split; [done|done|]. exists (ks0 ++ ks). split; [by apply Forall_app|].
    rewrite <- (stream_of_conn g' id _ Hc'), Hst, (stream_of_conn g id c Hc), Hs.
    unfold wires. by rewrite map_app, concat_app.
  - intros i Hi. unfold stream_of. cbn. by rewrite lookup_insert_ne.
Qed.

Lemma with_session_grows g id c w s ks :
  conns_ g !! id = Some c -> out_ s = out_ (session c) ++ wires ks -> Forall gateway_packet ks ->
  to_engine_ (world g) `prefix_of` to_engine_ w -> grows g (with_session id c w s g).
Proof.
  intros Hc Ho Hk Hp. split; [done|done|]. intros i. cbn [conns_ with_session put_conn set_conns set_world].
  rewrite lookup_insert_is_Some. intros [<-|[Hne Hi]].
  - split; [left; by eexists|]. exists ks. split; [done|].
    rewrite (stream_of_conn _ id (set_session s c)) by (cbn; by rewrite lookup_insert_eq).
    rewrite (stream_of_conn g id c Hc). cbn [set_session outbuf session]. by rewrite Ho, <- !app_assoc.
  - split; [by left|]. exists []. split; [done|]. rewrite app_nil_r. unfold stream_of. cbn.
    by rewrite lookup_insert_ne.
Qed.

(** What a connection answers is the gateway's own. *)
Lemma talk_replies id k d d' :
  talk id k d d' -> Forall gateway_packet (d_replies d) -> Forall gateway_packet (d_replies d').
Proof.
  intros Ht Hd. destruct Ht as [r| | | |m token ts _ _ Hm Ho Hts| | |]; try done;
    cbn [d_replies answer go_to forward]; (apply Forall_app; split; [done|]; constructor; [|done]).
  - split; [apply login_reply_ok|]. left. by vm_compute.
  - split; [apply rejected_reply_ok|]. left. by vm_compute.
  - destruct (over_cap_token _ _ _ Hm Ho). split; [by apply risk_reply_ok|]. right. eauto 7.
Qed.

Lemma dialogue_replies id ks d d' :
  dialogue id ks d d' -> Forall gateway_packet (d_replies d) -> Forall gateway_packet (d_replies d').
Proof.
  induction 1 as [a|ks a Hc|k ks a a1 a2 Hc Ht _ IH]; intros H0; [done|done|].
  apply IH. by eapply talk_replies.
Qed.

Lemma admitted_in g id c :
  ginv g -> is_Some (conns_ g !! id) -> admitted id c -> command_in (next_client_id_ g) c.
Proof. intros Hg Hi (<- & Ho & Hc). split_and!; [by apply Hg..|done|done]. Qed.

(** A piece of a connection's stream. *)
Lemma on_bytes_inv g id c d :
  ginv g -> conns_ g !! id = Some c -> Forall is_byte d ->
  exists w s, on_bytes (conn_listener id) d (clock_ (world g) (readings_ (world g)))
      (after_reading (world g)) (session c) = Ok (w, s) /\
    ginv (with_session id c w s g) /\ grows g (with_session id c w s g).
Proof.
  intros Hg Hc Hd. destruct (gi_conn _ Hg id c Hc) as [Hp Hf (ks0 & Hks & Hs)].
  set (w0 := after_reading (world g)). set (s0 := session c).
  set (a := mkDialogue (state_ s0) [] []).
  assert (view (to_engine_ w0) (out_ s0) w0 s0 a) as Hv.
  { split; try done; [by rewrite app_nil_r..|]. apply Hg. }
  destruct (on_bytes_spec (conn_listener id) (view (to_engine_ w0) (out_ s0)) (talk id) hung_up d
    (clock_ (world g) (readings_ (world g))) w0 s0 a Hp Hd Hv) as
    [[Hcl ->]|(w & s & ks & a' & -> & [H1 H2 [V1 V2 V3 V4 V5] H4 _ _])].
  - exists w0, s0. split; [done|].
    split; [|apply (with_session_grows g id c w0 s0 []); try done; by rewrite app_nil_r].
    apply (with_session_inv g id c w0 s0 []); try done; [by rewrite app_nil_r|apply Hg..].
  - exists w, s. split; [done|].
    split; [|apply (with_session_grows g id c w s (d_replies a')); try done;
      [by apply (dialogue_replies id ks a a' H2); constructor|rewrite V2; by apply prefix_app_r]].
    apply (with_session_inv g id c w s (d_replies a')); try done. rewrite V2.
    apply Forall_app. split; [apply Hg|].
    pose proof (dialogue_admitted id ks a a' H2 (Forall_nil_2 _)) as Had.
    eapply Forall_impl; [exact Had|]. intros x Hx. eapply admitted_in; [done|by eexists|done].
Qed.

(** The clock makes a session close or send a heartbeat. *)
Lemma tick_spec id now w s :
  exists s' ks, tick (conn_listener id) now w s = Ok (w, s') /\ parser_ s' = parser_ s /\
    out_ s' = out_ s ++ wires ks /\ Forall packet_ok ks /\ Forall gateway_packet ks.
Proof.
  unfold tick. destruct (decide _); [exists s, []; split_and!; try done; by rewrite app_nil_r|].
  destruct (_ <=? _); [exists (set_state Closed s), []; split_and!; try done; cbn; by rewrite app_nil_r|].
  destruct (_ && _); [|exists s, []; split_and!; try done; by rewrite app_nil_r].
  assert (packet_ok (mkPacket kServerHeartbeat [])) as Hk by (split_and!; [by vm_compute|done|done]).
  pose proof (queue_spec _ s Hk) as Hq. cbn [type payload] in Hq. rewrite Hq, outcome_bind_Ok.
  eexists _, [mkPacket kServerHeartbeat []]. split_and!; [done|done|done|by constructor|].
  constructor; [|done]. split; [done|]. left. by vm_compute.
Qed.
End GatewayInv.
