(* ===== verification/Poller.v ===== *)
(** The readiness poller of the gateway ([gateway/poller.cpp]): one interface
    over epoll and kqueue.

    The kernel is a parameter of each back-end, with what its manual pages
    promise of the control calls as a class; [poll_fd_] is the kernel object.
    The abstract poller is the table the gateway model keeps: the registered
    descriptors, each with its write filter. *)

From S2P Require Import Prelude Endian Gateway GatewayInv.

Module Poller.

Record Event := mkEvent { ev_fd : Z; readable : bool; writable : bool }.

(** What a call of the kernel's wait function did. *)
Inductive WaitResult (E : Type) := Ready (evs : list E) | Interrupted | WaitFailed.
Arguments Ready {E} evs. Arguments Interrupted {E}. Arguments WaitFailed {E}.

(** The return value and the contents of [out]. *)
Definition report {E} (event : E -> Event) (r : WaitResult E) : Z * list Event :=
  match r with
  | Ready evs => (lengthZ evs, map event evs)
  | Interrupted => (0, [])
  | WaitFailed => (-1, [])
  end.

(** ** epoll *)

Definition EPOLLIN : Z := 1.
Definition EPOLLOUT : Z := 4.
Definition EPOLLERR : Z := 8.
Definition EPOLLHUP : Z := 16.

Inductive CtlOp := EPOLL_CTL_ADD | EPOLL_CTL_MOD | EPOLL_CTL_DEL.

(** epoll_ctl(2): the interest list, and that a refused call changes nothing. *)
Class EpollKernel (K : Type) := {
  epoll_ctl : CtlOp -> Z -> Z -> K -> K;
  interest : K -> Z -> option Z;
  ctl_other op fd ev k i : i <> fd -> interest (epoll_ctl op fd ev k) i = interest k i;
  ctl_add fd ev k : interest (epoll_ctl EPOLL_CTL_ADD fd ev k) fd =
    match interest k fd with None => Some ev | Some old => Some old end;
  ctl_mod fd ev k : interest (epoll_ctl EPOLL_CTL_MOD fd ev k) fd =
    match interest k fd with None => None | Some _ => Some ev end;
  ctl_del fd ev k : interest (epoll_ctl EPOLL_CTL_DEL fd ev k) fd = None }.

Module Epoll.
Section Backend.
Context {K : Type} `{EpollKernel K}.

Definition add_read (fd : Z) (k : K) : K := epoll_ctl EPOLL_CTL_ADD fd EPOLLIN k.

Definition set_write (fd : Z) (enable : bool) (k : K) : K :=
  epoll_ctl EPOLL_CTL_MOD fd (Z.lor EPOLLIN (if enable then EPOLLOUT else 0)) k.

Definition remove (fd : Z) (k : K) : K := epoll_ctl EPOLL_CTL_DEL fd 0 k.
End Backend.

Definition event (e : Z * Z) : Event :=
  mkEvent e.1 (negb (Z.land e.2 (Z.lor EPOLLIN (Z.lor EPOLLHUP EPOLLERR)) =? 0))
    (negb (Z.land e.2 EPOLLOUT =? 0)).

Definition wait (r : WaitResult (Z * Z)) : Z * list Event := report event r.
End Epoll.

(** ** kqueue *)

Inductive Filter := EVFILT_READ | EVFILT_WRITE.

#[export] Instance filter_eq_dec : EqDecision Filter.
Proof. solve_decision. Defined.

Inductive KeventOp := EV_ADD | EV_DELETE.

(** kqueue(2): the filters that are attached. *)
Class KqueueKernel (K : Type) := {
  kevent : Filter -> KeventOp -> Z -> K -> K;
  attached : K -> Z -> Filter -> bool;
  kevent_same f op fd k : attached (kevent f op fd k) fd f = match op with EV_ADD => true | EV_DELETE => false end;
  kevent_other f op fd k i g : (i, g) <> (fd, f) -> attached (kevent f op fd k) i g = attached k i g }.

Module Kqueue.
Section Backend.
Context {K : Type} `{KqueueKernel K}.

Definition add_read (fd : Z) (k : K) : K := kevent EVFILT_READ EV_ADD fd k.

Definition set_write (fd : Z) (enable : bool) (k : K) : K :=
  kevent EVFILT_WRITE (if enable then EV_ADD else EV_DELETE) fd k.

Definition remove (fd : Z) (k : K) : K :=
  kevent EVFILT_WRITE EV_DELETE fd (kevent EVFILT_READ EV_DELETE fd k).
End Backend.

(** The timeout as a [timespec]: seconds and nanoseconds. *)
Definition timespec (timeout_ms : Z) : Z * Z :=
  (Z.quot timeout_ms 1000, Z.rem timeout_ms 1000 * 1000000).

Definition event (e : Z * Filter) : Event :=
  mkEvent e.1 (bool_decide (e.2 = EVFILT_READ)) (bool_decide (e.2 = EVFILT_WRITE)).

Definition wait (r : WaitResult (Z * Filter)) : Z * list Event := report event r.
End Kqueue.

(** ** The interface *)

Inductive Call := AddRead (fd : Z) | SetWrite (fd : Z) (enable : bool) | Remove (fd : Z).

Abbreviation Table := (gmap Z bool).

(** What the calls mean. *)
Definition call (c : Call) (t : Table) : Table :=
  match c with
  | AddRead fd => <[fd := false]> t
  | SetWrite fd enable => <[fd := enable]> t
  | Remove fd => delete fd t
  end.

(** As the header asks: [set_write] is for a descriptor that was added, and a
    descriptor is added once. *)
Definition allowed (c : Call) (t : Table) : Prop :=
  match c with
  | AddRead fd => t !! fd = None
  | SetWrite fd _ => is_Some (t !! fd)
  | Remove _ => True
  end.

Inductive calls : Table -> list Call -> Table -> Prop :=
  | calls_nil t : calls t [] t
  | calls_cons t c cs t' : allowed c t -> calls (call c t) cs t' -> calls t (c :: cs) t'.

Section Refinement.
Context {E Q : Type} `{EpollKernel E} `{KqueueKernel Q}.

Definition epoll_call (c : Call) (k : E) : E :=
  match c with
  | AddRead fd => Epoll.add_read fd k
  | SetWrite fd enable => Epoll.set_write fd enable k
  | Remove fd => Epoll.remove fd k
  end.

Definition kqueue_call (c : Call) (k : Q) : Q :=
  match c with
  | AddRead fd => Kqueue.add_read fd k
  | SetWrite fd enable => Kqueue.set_write fd enable k
  | Remove fd => Kqueue.remove fd k
  end.

Definition mask (w : bool) : Z := Z.lor EPOLLIN (if w then EPOLLOUT else 0).

Definition epoll_shows (k : E) (t : Table) : Prop := forall fd, interest k fd = mask <$> t !! fd.

Definition kqueue_shows (k : Q) (t : Table) : Prop := forall fd,
  attached k fd EVFILT_READ = bool_decide (is_Some (t !! fd)) /\
  attached k fd EVFILT_WRITE = default false (t !! fd).

Lemma epoll_call_shows c k t : epoll_shows k t -> allowed c t -> epoll_shows (epoll_call c k) (call c t).
Proof.
  intros Hk Ha i. destruct c as [fd|fd w|fd]; cbn [epoll_call call allowed] in *;
    unfold Epoll.add_read, Epoll.set_write, Epoll.remove; destruct (decide (i = fd)) as [->|Hne].
  - by rewrite ctl_add, Hk, Ha, lookup_insert_eq.
  - by rewrite ctl_other, lookup_insert_ne.
  - destruct Ha as [w0 Hw]. by rewrite ctl_mod, Hk, Hw, lookup_insert_eq.
  - by rewrite ctl_other, lookup_insert_ne.
  - by rewrite ctl_del, lookup_delete_eq.
  - by rewrite ctl_other, lookup_delete_ne.
Qed.

Lemma kqueue_call_shows c k t : kqueue_shows k t -> allowed c t -> kqueue_shows (kqueue_call c k) (call c t).
Proof.
  intros Hk Ha i. destruct (Hk i) as [H1 H2]. destruct c as [fd|fd w|fd]; cbn [kqueue_call call allowed] in *;
    unfold Kqueue.add_read, Kqueue.set_write, Kqueue.remove; destruct (decide (i = fd)) as [->|Hne].
  - rewrite kevent_same, kevent_other, H2, Ha, lookup_insert_eq by congruence. done.
  - rewrite !kevent_other, lookup_insert_ne by congruence. done.
  - rewrite kevent_same, kevent_other, H1, lookup_insert_eq by congruence.
    rewrite !bool_decide_eq_true_2 by (done || by eexists). by destruct w.
  - rewrite !kevent_other, lookup_insert_ne by congruence. done.
  - rewrite kevent_same, (kevent_other _ _ _ _ _ EVFILT_READ), kevent_same, lookup_delete_eq by congruence. done.
  - rewrite !kevent_other, lookup_delete_ne by congruence. done.
Qed.

(** What the kernels may report: descriptors of the interest list, with events
    that were asked for, an error or a hang-up; attached filters. *)
Definition epoll_reports (k : E) (e : Z * Z) : Prop :=
  exists m, interest k e.1 = Some m /\ 0 <= e.2 /\ e.2 <> 0 /\
    Z.land e.2 (Z.lor m (Z.lor EPOLLHUP EPOLLERR)) = e.2.

Definition kqueue_reports (k : Q) (e : Z * Filter) : Prop := attached k e.1 e.2 = true.

(** An event the gateway can use: something to do, on a registered descriptor,
    and writing only where it was asked for. *)
Definition useful (t : Table) (e : Event) : Prop :=
  is_Some (t !! ev_fd e) /\ readable e || writable e = true /\
  (writable e = true -> t !! ev_fd e = Some true).

Lemma epoll_useful k t e : epoll_shows k t -> epoll_reports k e -> useful t (Epoll.event e).
Proof.
  destruct e as [fd ev]. intros Hk (m & Hm & Hp & Hz & He). cbn [fst snd] in *. rewrite (Hk fd) in Hm.
  destruct (t !! fd) as [w|] eqn:Ht; [|done]. injection Hm as <-. unfold useful, Epoll.event.
  cbn [ev_fd readable writable fst snd]. rewrite Ht. split; [done|].
  split.
  - destruct (Z.eqb_spec (Z.land ev (Z.lor EPOLLIN (Z.lor EPOLLHUP EPOLLERR))) 0) as [E1|]; [|done].
    destruct (Z.eqb_spec (Z.land ev EPOLLOUT) 0) as [E2|]; [|done]. exfalso. apply Hz.
    rewrite <- He. destruct w; unfold mask.
    + rewrite <- Z.lor_0_r. replace (Z.lor (Z.lor EPOLLIN EPOLLOUT) (Z.lor EPOLLHUP EPOLLERR)) with
        (Z.lor (Z.lor EPOLLIN (Z.lor EPOLLHUP EPOLLERR)) EPOLLOUT) by done.
      by rewrite Z.land_lor_distr_r, E1, E2.
    + exact E1.
  - destruct w; [done|]. intros Hw. exfalso. apply negb_true_iff, Z.eqb_neq in Hw. apply Hw.
    rewrite <- He, <- Z.land_assoc. unfold mask. change (Z.land _ EPOLLOUT) with 0. apply Z.land_0_r.
Qed.

Lemma kqueue_useful k t e : kqueue_shows k t -> kqueue_reports k e -> useful t (Kqueue.event e).
Proof.
  destruct e as [fd f]. intros Hk Hr. unfold kqueue_reports in Hr. cbn [fst snd] in Hr.
  destruct (Hk fd) as [H1 H2]. unfold useful, Kqueue.event. cbn [ev_fd readable writable fst snd].
  destruct f.
  - rewrite Hr in H1. symmetry in H1. apply bool_decide_eq_true in H1. done.
  - rewrite Hr in H2. destruct (t !! fd) as [w|]; [|done]. cbn in H2. subst. split_and!; [done|done|done].
Qed.

Lemma calls_shown cs : forall t t' k q,
  calls t cs t' -> epoll_shows k t -> kqueue_shows q t ->
  epoll_shows (fold_left (fun k c => epoll_call c k) cs k) t' /\
  kqueue_shows (fold_left (fun q c => kqueue_call c q) cs q) t'.
Proof.
  induction cs as [|c cs IH]; intros t t' k q Hc Hk Hq; inversion Hc; subst; [done|]. cbn [fold_left].
  eapply IH; [done|by apply epoll_call_shows|by apply kqueue_call_shows].
Qed.

(** C32: one interface, two kernels. Make any calls the header allows on both
    back-ends, starting without descriptors: both kernels watch exactly the
    descriptors of the abstract table, for writing exactly those whose write
    filter is on. And whatever they then report, every event [wait] returns is
    for a registered descriptor, asks for something, and says writable only
    where the filter is on; its return value is the number of events, none
    after a signal and -1 after an error. *)
Theorem poller_backends_agree cs t (k : E) (q : Q) :
  (forall fd, interest k fd = None) -> (forall fd f, attached q fd f = false) -> calls ∅ cs t ->
  let k' := fold_left (fun k c => epoll_call c k) cs k in
  let q' := fold_left (fun q c => kqueue_call c q) cs q in
  (forall fd, interest k' fd = mask <$> t !! fd) /\
  (forall fd, attached q' fd EVFILT_READ = bool_decide (is_Some (t !! fd)) /\
     attached q' fd EVFILT_WRITE = default false (t !! fd)) /\
  (forall evs, Forall (epoll_reports k') evs ->
     Epoll.wait (Ready evs) = (lengthZ evs, map Epoll.event evs) /\
     Forall (useful t) (Epoll.wait (Ready evs)).2) /\
  (forall evs, Forall (kqueue_reports q') evs ->
     Kqueue.wait (Ready evs) = (lengthZ evs, map Kqueue.event evs) /\
     Forall (useful t) (Kqueue.wait (Ready evs)).2) /\
  Epoll.wait Interrupted = (0, []) /\ Kqueue.wait Interrupted = (0, []) /\
  Epoll.wait WaitFailed = (-1, []) /\ Kqueue.wait WaitFailed = (-1, []).
Proof.
  intros Hk Hq Hc k' q'. destruct (calls_shown cs ∅ t k q Hc) as [H1 H2].
  { intros fd. by rewrite Hk, lookup_empty. }
  { intros fd. by rewrite !Hq, lookup_empty. }
  split_and!; try done.
  - intros evs Hev. split; [done|]. cbn [Epoll.wait report snd]. apply Forall_map.
    eapply Forall_impl; [exact Hev|]. intros e He. by eapply epoll_useful.
  - intros evs Hev. split; [done|]. cbn [Kqueue.wait report snd]. apply Forall_map.
    eapply Forall_impl; [exact Hev|]. intros e He. by eapply kqueue_useful.
Qed.
End Refinement.

(** ** Kernels *)

Definition table_ctl (op : CtlOp) (fd ev : Z) (k : gmap Z Z) : gmap Z Z :=
  match op, k !! fd with
  | EPOLL_CTL_ADD, None | EPOLL_CTL_MOD, Some _ => <[fd := ev]> k
  | EPOLL_CTL_DEL, _ => delete fd k
  | _, _ => k
  end.

#[local] Instance table_epoll : EpollKernel (gmap Z Z).
Proof.
  refine {| epoll_ctl := table_ctl; interest := fun k fd => k !! fd |}; unfold table_ctl.
  - intros op fd ev k i Hi.
    destruct op, (k !! fd); rewrite ?lookup_insert_ne, ?lookup_delete_ne by done; done.
  - intros fd ev k. destruct (k !! fd) eqn:E; [done|]. by rewrite lookup_insert_eq.
  - intros fd ev k. destruct (k !! fd) eqn:E; [|done]. by rewrite lookup_insert_eq.
  - intros fd ev k. by rewrite lookup_delete_eq.
Defined.

Definition list_kevent (f : Filter) (op : KeventOp) (fd : Z) (k : list (Z * Filter)) : list (Z * Filter) :=
  match op with
  | EV_ADD => (fd, f) :: k
  | EV_DELETE => filter (fun x => x <> (fd, f)) k
  end.

#[local] Instance list_kqueue : KqueueKernel (list (Z * Filter)).
Proof.
  refine {| kevent := list_kevent; attached := fun k fd f => bool_decide ((fd, f) ∈ k) |}; unfold list_kevent.
  - intros f op fd k. destruct op; [apply bool_decide_eq_true_2; by constructor|].
    apply bool_decide_eq_false_2. rewrite list_elem_of_filter. naive_solver.
  - intros f op fd k i g Hne. apply bool_decide_ext. destruct op.
    + rewrite elem_of_cons. naive_solver.
    + rewrite list_elem_of_filter. naive_solver.
Defined.

Definition demo_calls : list Call := [AddRead 5; AddRead 6; SetWrite 5 true; Remove 6; SetWrite 5 true].

Lemma poller_backends_agree_witness :
  interest (fold_left (fun k c => epoll_call c k) demo_calls (∅ : gmap Z Z)) 5 =
    mask <$> (<[5 := true]> ∅ : Table) !! 5.
Proof.
  refine (proj1 (poller_backends_agree demo_calls (<[5 := true]> ∅) (∅ : gmap Z Z) ([] : list (Z * Filter)) _ _ _) 5).
  - intros fd. apply lookup_empty.
  - intros fd f. apply bool_decide_eq_false_2. apply not_elem_of_nil.
  - unfold demo_calls. repeat (apply calls_cons; [first [by vm_compute | vm_compute; by eexists]|]).
    replace (call _ _) with (<[5 := true]> ∅ : Table) by (by vm_compute). constructor.
Defined.

(** ** The gateway makes allowed calls *)

Import Gateway GatewayInv.

Lemma accept_polls g f :
  ginv g -> by_fd_ g !! f = None ->
  poller_ (accept_one g f) = call (AddRead f) (poller_ g) /\ allowed (AddRead f) (poller_ g).
Proof.
  intros Hg Hf. split; [done|]. cbn. destruct (poller_ g !! f) eqn:E; [|done].
  assert (is_Some (by_fd_ g !! f)) as [x Hx] by (apply Hg; by eexists). congruence.
Qed.

Lemma filter_polls g id enable g' :
  ginv g -> update_write_filter id enable g = Ok g' ->
  poller_ g' = poller_ g \/
  exists fd, poller_ g' = call (SetWrite fd enable) (poller_ g) /\ allowed (SetWrite fd enable) (poller_ g).
Proof.
  intros Hg. unfold update_write_filter. destruct (conns_ g !! id) as [c|] eqn:Hc; [|done].
  cbn [deref]. rewrite outcome_bind_Ok. destruct (Bool.eqb _ _); [intros [= <-]; by left|].
  intros [= <-]. right. exists (fd c). split; [done|]. cbn. by rewrite (gi_filter _ Hg id c Hc).
Qed.

Lemma close_polls g id c g' :
  conns_ g !! id = Some c -> close_conn id g = Ok g' -> poller_ g' = call (Remove (fd c)) (poller_ g).
Proof. unfold close_conn. intros ->. cbn [deref]. rewrite outcome_bind_Ok. by intros [= <-]. Qed.
End Poller.
