(* ===== verification/GatewayRuns.v ===== *)
(** The gateway's handlers and its event loop: no handler fails or breaks the
    invariant, responses reach the client they are for, and the one case in
    which a connection is used after it was destroyed. Runs are those that no
    SIGPIPE ends (see [SendResult]). *)

From S2P Require Import Prelude Endian BookTypes Wire Symbols Ouch Engine EngineRuns Soup SoupSession Gateway GatewaySession GatewayInv.
From Stdlib Require Import Ascii.

Module GatewayRuns.
Import Engine Soup SoupSession Gateway GatewaySession GatewayInv.

(** ** Responses as packets *)

Definition response_ok (m : ResponseMsg) : Prop :=
  match m with
  | RSystemEvent m => f_ok Ouch.SystemEvent_body m
  | RAccepted m => f_ok Ouch.Accepted_body m
  | RExecuted m => f_ok Ouch.Executed_body m
  | RCanceled m => f_ok Ouch.Canceled_body m
  | RReplaced m => f_ok Ouch.Replaced_body m
  | RRejected m => f_ok Ouch.Rejected_body m
  end.

Definition response_wire (m : ResponseMsg) : bytes :=
  match m with
  | RSystemEvent m => c_wire Ouch.SystemEvent_codec m
  | RAccepted m => c_wire Ouch.Accepted_codec m
  | RExecuted m => c_wire Ouch.Executed_codec m
  | RCanceled m => c_wire Ouch.Canceled_codec m
  | RReplaced m => c_wire Ouch.Replaced_codec m
  | RRejected m => c_wire Ouch.Rejected_codec m
  end.

Definition response_packet (m : ResponseMsg) : Packet := mkPacket kSequenced (response_wire m).

Lemma codec_encodes {M} (c : Codec M) m n :
  codec_implements c -> f_ok (c_body c) m -> n = c_size c ->
  c_encode c m (replicate n 0) = Ok (c_wire c m) /\ Forall is_byte (c_wire c m) /\
  length (c_wire c m) = n.
Proof.
  intros Hi Hm ->. destruct (codec_wire_bytes c m Hi Hm) as [Hb Hl]. split; [|done].
  rewrite (cc_encode _ (implements_correct _ Hi)) by (done || by rewrite length_replicate).
  by rewrite drop_ge, app_nil_r by (by rewrite length_replicate).
Qed.

Lemma encode_ouch_spec m :
  response_ok m ->
  encode_ouch m = Ok (response_wire m) /\ Forall is_byte (response_wire m) /\
  length (response_wire m) = encoded_size m.
Proof.
  destruct m as [m|m|m|m|m|m]; cbn [response_ok]; intros Hm.
  - exact (codec_encodes Ouch.SystemEvent_codec m _ Ouch.SystemEvent_implements Hm eq_refl).
  - exact (codec_encodes Ouch.Accepted_codec m _ Ouch.Accepted_implements Hm eq_refl).
  - exact (codec_encodes Ouch.Executed_codec m _ Ouch.Executed_implements Hm eq_refl).
  - exact (codec_encodes Ouch.Canceled_codec m _ Ouch.Canceled_implements Hm eq_refl).
  - exact (codec_encodes Ouch.Replaced_codec m _ Ouch.Replaced_implements Hm eq_refl).
  - exact (codec_encodes Ouch.Rejected_codec m _ Ouch.Rejected_implements Hm eq_refl).
Qed.

Lemma response_packet_ok m : response_ok m -> packet_ok (response_packet m).
Proof.
  intros (_ & Hb & Hl)%encode_ouch_spec. apply sequenced_ok; [done|]. unfold lengthZ. rewrite Hl.
  by destruct m.
Qed.

(** ** Handlers *)

(** One response: the client's stream grows by its packet. *)
Lemma respond_inv g id c m :
  ginv g -> conns_ g !! id = Some c -> response_ok m ->
  exists buf s, encode_ouch m = Ok buf /\ send_sequenced buf (session c) = Ok s /\
    ginv (put_conn id (set_session s c) g) /\
    stream_of (put_conn id (set_session s c) g) id = stream_of g id ++ wire (response_packet m) /\
    (forall i, i <> id -> stream_of (put_conn id (set_session s c) g) i = stream_of g i).
Proof.
  intros Hg Hc Hm. destruct (encode_ouch_spec m Hm) as (He & Hb & Hl).
  pose proof (response_packet_ok m Hm) as Hk.
  eexists _, _. split; [exact He|]. split; [apply send_sequenced_spec; [done|apply Hk]|].
  destruct (with_session_inv g id c (world g) (set_out (out_ (session c) ++ wire (response_packet m)) (session c))
    [response_packet m]) as (H1 & H2 & H3); try done.
  - exact (cn_parser _ _ (gi_conn _ Hg id c Hc)).
  - unfold wires. cbn [map concat]. by rewrite app_nil_r.
  - by constructor.
  - apply Hg.
  - apply Hg.
  - unfold wires in H2. cbn [map concat] in H2. rewrite app_nil_r in H2. by destruct g.
Qed.

Lemma pump_inv rs : forall g,
  ginv g -> Forall (fun r => response_ok (rsp_msg r.1)) rs ->
  exists g', pump_responses rs g = Ok g' /\ ginv g' /\ world g' = world g /\
    next_client_id_ g' = next_client_id_ g.
Proof.
  induction rs as [|[resp r] rs IH]; intros g Hg Hok; cbn [pump_responses]; [eauto|].
  apply Forall_cons in Hok as [Hm Hok]. cbn [fst] in Hm.
  destruct (conns_ g !! rsp_client_id resp) as [c|] eqn:Hc; [|by apply IH].
  destruct (respond_inv g _ c _ Hg Hc Hm) as (buf & s & -> & Hs & Hg1 & _).
  rewrite outcome_bind_Ok, Hs, outcome_bind_Ok.
  destruct (flush_conn_inv _ (rsp_client_id resp) (set_session s c) r Hg1) as (g2 & -> & Hg2 & Hw & Hn & _);
    [cbn; by rewrite lookup_insert_eq|].
  rewrite outcome_bind_Ok. destruct (IH g2 Hg2 Hok) as (g3 & -> & Hg3 & Hw3 & Hn3).
  exists g3. split_and!; [done|done|by rewrite Hw3, Hw|by rewrite Hn3, Hn].
Qed.

(** The responses addressed to a client, as packets. *)
Definition packets_for (id : Z) (rs : list (ClientResponse * SendResult)) : list Packet :=
  omap (fun r => if rsp_client_id r.1 =? id then Some (response_packet (rsp_msg r.1)) else None) rs.

Definition all_sent {A} (rs : list (A * SendResult)) : Prop := Forall (fun r => exists n, r.2 = Sent n) rs.

Lemma pump_delivers rs : forall g,
  ginv g -> Forall (fun r => response_ok (rsp_msg r.1)) rs -> all_sent rs ->
  exists g', pump_responses rs g = Ok g' /\ ginv g' /\
    (forall id, is_Some (conns_ g !! id) -> is_Some (conns_ g' !! id) /\
       stream_of g' id = stream_of g id ++ wires (packets_for id rs)).
Proof.
  induction rs as [|[resp r] rs IH]; intros g Hg Hok Hs; cbn [pump_responses].
  { exists g. split_and!; [done|done|]. intros id Hi. split; [done|]. by rewrite app_nil_r. }
  apply Forall_cons in Hok as [Hm Hok]. apply Forall_cons in Hs as [[n Hn] Hs]. cbn [fst snd] in *. subst r.
  unfold packets_for. cbn [omap list_omap fst].
  destruct (conns_ g !! rsp_client_id resp) as [c|] eqn:Hc.
  - destruct (respond_inv g _ c _ Hg Hc Hm) as (buf & s & -> & Hsd & Hg1 & Hst & Hne).
    rewrite outcome_bind_Ok, Hsd, outcome_bind_Ok.
    destruct (flush_sent _ (rsp_client_id resp) (set_session s c) n Hg1) as (g2 & -> & Hg2 & [_ _ Hmv Hcs _] & _);
      [cbn; by rewrite lookup_insert_eq|].
    rewrite outcome_bind_Ok. destruct (IH g2 Hg2 Hok Hs) as (g3 & -> & Hg3 & Hd).
    exists g3. split_and!; [done|done|]. intros id [d Hd'].
    assert (is_Some (conns_ g2 !! id)) as Hi2.
    { destruct (decide (rsp_client_id resp = id)) as [<-|Hid].
      - destruct (Hcs (rsp_client_id resp) (set_session s c)) as (c2 & -> & _); [cbn; by rewrite lookup_insert_eq|done].
      - destruct (Hcs id d) as (c2 & -> & _); [cbn; by rewrite lookup_insert_ne|done]. }
    destruct (Hd id Hi2) as [H1 H2]. split; [done|]. rewrite H2, Hmv.
    destruct (Z.eqb_spec (rsp_client_id resp) id) as [<-|Hid].
    + rewrite Hst. unfold wires. cbn [map concat]. by rewrite <- app_assoc.
    + by rewrite Hne by done.
  - destruct (IH g Hg Hok Hs) as (g3 & -> & Hg3 & Hd). exists g3. split_and!; [done|done|].
    intros id Hi. destruct (Z.eqb_spec (rsp_client_id resp) id) as [<-|Hid]; [rewrite Hc in Hi; by destruct Hi|].
    by apply Hd.
Qed.

(** The same when sending may fail: whoever is still connected has got its
    responses. *)
Lemma pump_reaches rs : forall g,
  ginv g -> Forall (fun r => response_ok (rsp_msg r.1)) rs ->
  exists g', pump_responses rs g = Ok g' /\ ginv g' /\ world g' = world g /\
    next_client_id_ g' = next_client_id_ g /\
    forall id, is_Some (conns_ g' !! id) -> is_Some (conns_ g !! id) /\
      stream_of g' id = stream_of g id ++ wires (packets_for id rs).
Proof.
  induction rs as [|[resp r] rs IH]; intros g Hg Hok; cbn [pump_responses].
  { exists g. split_and!; [done|done|done|done|]. intros id Hi. split; [done|]. by rewrite app_nil_r. }
  apply Forall_cons in Hok as [Hm Hok]. cbn [fst snd] in *.
  unfold packets_for. cbn [omap list_omap fst].
  destruct (conns_ g !! rsp_client_id resp) as [c|] eqn:Hc.
  - destruct (respond_inv g _ c _ Hg Hc Hm) as (buf & s & -> & Hsd & Hg1 & Hst & Hne).
    rewrite outcome_bind_Ok, Hsd, outcome_bind_Ok.
    destruct (flush_conn_inv _ (rsp_client_id resp) (set_session s c) r Hg1)
      as (g2 & -> & Hg2 & Hw & Hn & _ & _ & Hcs); [cbn; by rewrite lookup_insert_eq|].
    rewrite outcome_bind_Ok. destruct (IH g2 Hg2 Hok) as (g3 & -> & Hg3 & Hw3 & Hn3 & Hd).
    exists g3. split_and!; [done|done|by rewrite Hw3, Hw|by rewrite Hn3, Hn|]. intros id Hid.
    destruct (Hd id Hid) as [H1 H2]. destruct (Hcs id H1) as [Hc1 Hs1]. split.
    { destruct (decide (rsp_client_id resp = id)) as [<-|Hne']; [by eexists|].
      revert Hc1. cbn. by rewrite lookup_insert_ne. }
    rewrite H2, Hs1. destruct (Z.eqb_spec (rsp_client_id resp) id) as [<-|Hid'].
    + rewrite Hst. unfold wires. cbn [map concat]. by rewrite <- app_assoc.
    + by rewrite Hne by done.
  - destruct (IH g Hg Hok) as (g3 & -> & Hg3 & Hw3 & Hn3 & Hd). exists g3. split_and!; [done..|].
    intros id Hi. destruct (Hd id Hi) as [H1 H2]. split; [done|].
    destruct (Z.eqb_spec (rsp_client_id resp) id) as [<-|Hid]; [rewrite Hc in H1; by destruct H1|done].
Qed.

(** New connections: [accept] returns descriptors that are not open. *)
Lemma accept_one_inv g f :
  ginv g -> by_fd_ g !! f = None -> next_client_id_ g + 1 < 2 ^ 64 ->
  ginv (accept_one g f) /\ next_client_id_ (accept_one g f) = next_client_id_ g + 1 /\
  by_fd_ (accept_one g f) = <[f := next_client_id_ g]> (by_fd_ g) /\ grows g (accept_one g f).
Proof.
  intros Hg. pose proof (stream_unused g (next_client_id_ g) Hg) as Hun. revert Hg.
  intros [H1 H2 H3 H4 H5 H6 H7 H8 H9 H10] Hf Hn. set (id := next_client_id_ g).
  assert (conns_ g !! id = None) as Hid.
  { destruct (conns_ g !! id) eqn:E; [|done]. assert (0 < id < id) by (apply H1; by eexists). lia. }
  assert (next_client_id_ (accept_one g f) = id + 1) as En
    by (cbn; apply wrap_small; unfold fits; lia).
  assert (conns_ (accept_one g f) =
    <[id := mkConn f (new_session (clock_ (world g) (readings_ (world g)))) [] false]> (conns_ g)) as Ec
    by (cbn; fold id; by rewrite Hid).
  split; [|split_and!; [done|done|]].
  2:{ split; [done|lia|]. intros i. rewrite Ec, lookup_insert_is_Some. intros [<-|[Hne Hi]].
      - split; [right; lia|]. exists []. split; [done|]. fold id in Hun. rewrite app_nil_r, Hun by done.
        unfold stream_of, stream_sent. rewrite Ec, lookup_insert_eq. cbn [accept_one sent_].
        by rewrite H7 by (fold id; lia).
      - split; [by left|]. exists []. split; [done|]. rewrite app_nil_r. unfold stream_of, stream_sent.
        by rewrite Ec, lookup_insert_ne by done. }
  split; rewrite ?En, ?Ec; cbn [by_fd_ poller_ accept_one ns_since_midnight sent_ world].
  - intros i. rewrite lookup_insert_is_Some. intros [<-|[_ Hi]]; [lia|]. apply H1 in Hi. lia.
  - intros i d. rewrite lookup_insert_Some. intros [[<- <-]|[Hne Hi]].
    + split; [apply new_parser_ok|done|]. exists []. split; [done|]. unfold stream_sent. cbn [accept_one sent_].
      by rewrite H7 by lia.
    + exact (H2 i d Hi).
  - intros i d. rewrite lookup_insert_Some. intros [[<- <-]|[Hne Hi]]; [apply lookup_insert_eq|].
    rewrite lookup_insert_ne; [by apply H3|]. intros ->. apply H3 in Hi. congruence.
  - intros f' i. rewrite lookup_insert_Some. intros [[<- <-]|[Hne Hi]].
    + eexists. by rewrite lookup_insert_eq.
    + destruct (H4 f' i Hi) as (d & Hd & <-). exists d. rewrite lookup_insert_ne; [done|]. intros <-. congruence.
  - intros i d. rewrite lookup_insert_Some. intros [[<- <-]|[Hne Hi]]; [apply lookup_insert_eq|].
    rewrite lookup_insert_ne; [by eapply H5|]. intros ->. apply H3 in Hi. congruence.
  - intros f'. rewrite !lookup_insert_is_Some. intros [<-|[Hne Hi]]; [by left|]. right. eauto.
  - intros i Hi. apply H7. lia.
  - lia.
  - done.
  - eapply Forall_impl; [exact H10|]. intros x ([Hx1 Hx2] & Hx). split; [fold id in Hx2; lia|done].
Qed.

Lemma accept_inv fds : forall g,
  ginv g -> NoDup fds -> Forall (fun f => by_fd_ g !! f = None) fds ->
  next_client_id_ g + lengthZ fds < 2 ^ 64 -> ginv (handle_accept fds g) /\ grows g (handle_accept fds g).
Proof.
  unfold handle_accept. induction fds as [|f fds IH]; intros g Hg Hnd Hf Hn; cbn [fold_left].
  { split; [done|apply grows_refl]. }
  apply NoDup_cons in Hnd as [Hnot Hnd]. apply Forall_cons in Hf as [Hf Hfs].
  pose proof (lengthZ_nonneg fds). assert (lengthZ (f :: fds) = lengthZ fds + 1) as El
    by (unfold lengthZ; cbn [length]; lia).
  destruct (accept_one_inv g f Hg Hf ltac:(lia)) as (Hg' & En & Eb & Hgr).
  enough (Forall (fun f' => by_fd_ (accept_one g f) !! f' = None) fds) as Hfs'.
  { destruct (IH (accept_one g f)) as [H1 H2]; [done|done|done|lia|]. split; [done|].
    by apply (grows_trans g (accept_one g f)). }
  rewrite Eb. rewrite Forall_forall in Hfs |- *. intros x Hx.
  rewrite lookup_insert_ne; [by apply Hfs|]. by intros ->.
Qed.

Definition reads_ok (reads : list ReadResult) : Prop :=
  Forall (fun r => match r with Data d => Forall is_byte d | _ => True end) reads.

Lemma read_loop_inv id reads : forall g c,
  ginv g -> conns_ g !! id = Some c -> reads_ok reads ->
  exists alive g', read_loop id reads g = Ok (alive, g') /\ ginv g' /\ grows g g' /\
    (alive = true -> is_Some (conns_ g' !! id)).
Proof.
  induction reads as [|r reads IH]; intros g c Hg Hc Hr; cbn [read_loop].
  { exists true, g. split_and!; [done|done|apply grows_refl|by eexists]. }
  apply Forall_cons in Hr as [Hd Hr].
  assert (exists g', close_conn id g = Ok g' /\ ginv g' /\ grows g g') as (gc & Hcl & Hgc & Hgr).
  { destruct (close_conn_inv g id c Hg Hc) as (g' & H1 & H2 & _ & _ & _ & _ & H3). eauto. }
  destruct r as [d| |]; [|rewrite Hcl, outcome_bind_Ok; by exists false, gc..].
  rewrite Hc. cbn [deref]. rewrite outcome_bind_Ok. cbn [ns_since_midnight].
  destruct (on_bytes_inv g id c d Hg Hc Hd) as (w & s & Ho & Hg' & Hgr').
  unfold after_reading in Ho. cbn [ns_since_midnight snd] in Ho. rewrite Ho, outcome_bind_Ok.
  destruct (IH (with_session id c w s g) (set_session s c)) as (alive & g2 & Hrl & Hg2 & Hgr2 & Ha);
    [done|cbn; by rewrite lookup_insert_eq|done|].
  exists alive, g2. split_and!; [done|done| |done]. by apply (grows_trans g (with_session id c w s g)).
Qed.

(** [handle_readable] in general: the read loop, then a flush, then one more
    look at the connection. *)
Lemma handle_readable_inv id reads n g c :
  ginv g -> conns_ g !! id = Some c -> reads_ok reads ->
  exists g', handle_readable id reads (Sent n) g = Ok g' /\ ginv g' /\ grows g g'.
Proof.
  intros Hg Hc Hr. unfold handle_readable.
  destruct (read_loop_inv id reads g c Hg Hc Hr) as (alive & g1 & -> & Hg1 & Hgr1 & Ha). rewrite outcome_bind_Ok.
  destruct alive; cbn [negb]; [|eauto]. destruct (Ha eq_refl) as [c1 Hc1].
  destruct (flush_sent g1 id c1 n Hg1 Hc1) as (g2 & -> & Hg2 & Hgr2%moved_grows & Hc2).
  pose proof (grows_trans g g1 g2 Hg Hg1 Hgr1 Hgr2) as Hgr. rewrite outcome_bind_Ok, Hc2.
  cbn [deref]. rewrite outcome_bind_Ok. destruct (finished _); [|eauto].
  destruct (close_conn_inv g2 id _ Hg2 Hc2) as (g3 & -> & Hg3 & _ & _ & _ & _ & Hgr3).
  exists g3. split_and!; [done|done|by apply (grows_trans g g2)].
Qed.

(** C37: a connection is used after it was destroyed when sending fails while
    it is being read: [flush] closes the connection, and [handle_readable] then
    looks at its session. *)
Theorem failed_send_use_after_free id reads g g1 c :
  ginv g -> is_Some (conns_ g !! id) -> reads_ok reads ->
  read_loop id reads g = Ok (true, g1) -> conns_ g1 !! id = Some c ->
  outbuf c ++ out_ (session c) <> [] ->
  handle_readable id reads SendFailed g = Undefined.
Proof.
  intros Hg [c0 Hc0] Hr Hl Hc Ho. unfold handle_readable. rewrite Hl, outcome_bind_Ok. cbn [negb].
  destruct (read_loop_inv id reads g c0 Hg Hc0 Hr) as (alive & g1' & Hl' & Hg1 & _ & _).
  rewrite Hl in Hl'. injection Hl' as <- <-.
  destruct (flush_failed g1 id c Hg1 Hc Ho) as (g2 & -> & _ & _ & _ & Hd & _).
  by rewrite outcome_bind_Ok, Hd, lookup_delete_eq.
Qed.

Lemma tick_loop_inv now ids : forall to_close g,
  ginv g -> all_sent ids -> Forall (fun x => is_Some (conns_ g !! x.1)) ids ->
  exists to_close' g', tick_loop now ids to_close g = Ok (to_close', g') /\ ginv g' /\ grows g g'.
Proof.
  induction ids as [|[id r] ids IH]; intros to_close g Hg Hs Hc; cbn [tick_loop].
  { eexists _, _. split_and!; [done|done|apply grows_refl]. }
  apply Forall_cons in Hs as [[n Hn] Hs]. apply Forall_cons in Hc as [[c Hc] Hcs]. cbn [fst snd] in *. subst r.
  rewrite Hc. cbn [deref]. rewrite outcome_bind_Ok.
  destruct (tick_spec id now (world g) (session c)) as (s & ks & -> & Hp & Ho & Hk & Hkg). rewrite outcome_bind_Ok.
  destruct (with_session_inv g id c (world g) s ks) as (Hg1 & _ & _); try done; try apply Hg.
  { rewrite Hp. exact (cn_parser _ _ (gi_conn _ Hg id c Hc)). }
  fold (with_session id c (world g) s g). set (g1 := with_session id c (world g) s g) in *.
  destruct (flush_sent g1 id (set_session s c) n Hg1) as (g2 & -> & Hg2 & Hm & Hc2);
    [cbn; by rewrite lookup_insert_eq|].
  rewrite outcome_bind_Ok, Hc2. cbn [deref]. rewrite outcome_bind_Ok.
  assert (grows g g2) as Hgr.
  { apply (grows_trans g g1); [done|done| |by apply moved_grows]. by apply (with_session_grows g id c _ s ks). }
  enough (Forall (fun x => is_Some (conns_ g2 !! x.1)) ids) as Hcs2.
  { destruct (IH (if finished (flushed (set_session s c) n) then to_close ++ [id] else to_close) g2)
      as (tc & g3 & Ht & Hg3 & Hgr3); [done|done|done|]. exists tc, g3. split_and!; [done|done|].
    by apply (grows_trans g g2). }
  rewrite Forall_forall in Hcs |- *. intros x [d Hd]%Hcs.
  destruct (decide (x.1 = id)) as [->|Hne]; [by rewrite Hc2|].
  destruct (mv_conns _ _ Hm x.1 d) as (c' & -> & _); [cbn; by rewrite lookup_insert_ne|done].
Qed.

Lemma close_all_inv ids : forall g,
  ginv g -> exists g', close_all ids g = Ok g' /\ ginv g' /\ grows g g'.
Proof.
  induction ids as [|id ids IH]; intros g Hg; cbn [close_all]; [eauto using grows_refl|].
  destruct (conns_ g !! id) as [c|] eqn:Hc; [|by apply IH].
  destruct (close_conn_inv g id c Hg Hc) as (g' & -> & Hg' & _ & _ & _ & _ & Hgr). rewrite outcome_bind_Ok.
  destruct (IH g' Hg') as (g2 & -> & Hg2 & Hgr2). exists g2. split_and!; [done|done|]. by apply (grows_trans g g').
Qed.

Lemma after_reading_inv g : ginv g -> ginv (set_world (after_reading (world g)) g).
Proof. intros [H1 H2 H3 H4 H5 H6 H7 H8 H9 H10]. by split. Qed.

Lemma tick_sessions_inv ids g :
  ginv g -> all_sent ids -> Forall (fun x => is_Some (conns_ g !! x.1)) ids ->
  exists g', tick_sessions ids g = Ok g' /\ ginv g' /\ grows g g'.
Proof.
  intros Hg Hs Hc. unfold tick_sessions. cbn [ns_since_midnight].
  destruct (tick_loop_inv (clock_ (world g) (readings_ (world g))) ids []
    (set_world (after_reading (world g)) g) (after_reading_inv g Hg) Hs Hc) as (tc & g' & Ht & Hg' & Hgr).
  unfold after_reading in Ht. cbn [ns_since_midnight snd] in Ht. rewrite Ht, outcome_bind_Ok.
  destruct (close_all_inv tc g' Hg') as (g2 & -> & Hg2 & Hgr2). exists g2. split_and!; [done|done|].
  apply (grows_trans g g'); [done|done| |done].
  destruct Hgr as [G1 G2 G3]. by split.
Qed.

(** ** The event loop *)

Inductive Input :=
  | InEvent (ev : Event)
  | InTick (ids : list (Z * SendResult)).

Definition handle_input (i : Input) (g : Gateway) : outcome Gateway :=
  match i with
  | InEvent ev => handle_event ev g
  | InTick ids => tick_sessions ids g
  end.

(** What the environment promises: [accept] returns descriptors that are not
    open, the engine's responses fit their layout, a tick goes over the
    connections; and that [send] does not fail in the two handlers that go on
    to use the connection. *)
Definition input_ok (g : Gateway) (i : Input) : Prop :=
  match i with
  | InEvent (OnListen fds) => NoDup fds /\ Forall (fun f => by_fd_ g !! f = None) fds /\
      next_client_id_ g + lengthZ fds < 2 ^ 64
  | InEvent (OnWake rs) => Forall (fun r => response_ok (rsp_msg r.1)) rs
  | InEvent (OnConn _ _ _ reads r1 _) => reads_ok reads /\ exists n, r1 = Sent n
  | InTick ids => all_sent ids /\ NoDup ids.*1 /\
      forall id, id ∈ ids.*1 <-> is_Some (conns_ g !! id)
  end.

Inductive reachable (clock : nat -> Z) : Gateway -> Prop :=
  | reach_start : reachable clock (start clock)
  | reach_input i g g' : reachable clock g -> input_ok g i -> handle_input i g = Ok g' ->
      reachable clock g'.

Definition is_wake (i : Input) : bool := match i with InEvent (OnWake _) => true | _ => false end.

Lemma handle_event_inv ev g :
  ginv g -> input_ok g (InEvent ev) ->
  exists g', handle_event ev g = Ok g' /\ ginv g' /\ (is_wake (InEvent ev) = false -> grows g g').
Proof.
  intros Hg Hok. destruct ev as [fds|rs|f rd wr reads r1 r2]; cbn [handle_event input_ok is_wake] in *.
  - destruct Hok as (H1 & H2 & H3). eexists. split; [done|]. destruct (accept_inv fds g Hg H1 H2 H3); auto.
  - destruct (pump_inv rs g Hg Hok) as (g' & -> & Hg' & _). by exists g'.
  - destruct Hok as [Hr [n ->]]. destruct (by_fd_ g !! f) as [id|] eqn:Hf; [|eauto using grows_refl].
    destruct (gi_owner _ Hg f id Hf) as (c & Hc & _).
    assert (exists g1, (if rd then handle_readable id reads (Sent n) g else Ok g) = Ok g1 /\ ginv g1 /\ grows g g1)
      as (g1 & -> & Hg1 & Hgr1)
      by (destruct rd; [by apply (handle_readable_inv id reads n g c)|eauto using grows_refl]).
    rewrite outcome_bind_Ok. destruct (by_fd_ g1 !! f) as [id1|] eqn:Hf1; [|eauto].
    destruct wr; [|eauto]. unfold handle_writable. destruct (gi_owner _ Hg1 f id1 Hf1) as (c1 & Hc1 & _).
    destruct (flush_conn_inv g1 id1 c1 r2 Hg1 Hc1) as (g2 & -> & Hg2 & _ & _ & Hgr2 & _).
    exists g2. split_and!; [done|done|]. intros _. by apply (grows_trans g g1).
Qed.

Lemma handle_input_inv i g :
  ginv g -> input_ok g i ->
  exists g', handle_input i g = Ok g' /\ ginv g' /\ (is_wake i = false -> grows g g').
Proof.
  intros Hg Hok. destruct i as [ev|ids]; cbn [handle_input]; [by apply handle_event_inv|].
  destruct Hok as (H1 & _ & H3). destruct (tick_sessions_inv ids g) as (g' & -> & Hg' & Hgr); [done|done| |eauto].
  rewrite Forall_forall. intros x Hx. apply H3. by apply list_elem_of_fmap_2.
Qed.

Lemma gateway_reachable_inv clock g : (forall n, fits 64 (clock n)) -> reachable clock g -> ginv g.
Proof.
  intros Hc. induction 1 as [|i g g' _ IH Hok Hh]; [by apply gateway_start_inv|].
  destruct (handle_input_inv i g IH Hok) as (g'' & Hh' & Hg' & _). congruence.
Qed.

(** C7: the gateway runs. Whatever clients send and whenever, as long as [send]
    does not fail in the two handlers that keep using a connection (and raises
    no SIGPIPE, which would end the process): every
    handler returns, no destroyed connection is ever used; the descriptor table,
    the connection table and the poller agree, with the write filter on exactly
    for connections with unsent bytes; what was queued for each client is a
    sequence of whole packets; and every command in the engine's queue was
    decoded, is within the risk caps and carries the id of a connection. *)
Theorem gateway_safe clock g i :
  (forall n, fits 64 (clock n)) -> reachable clock g -> input_ok g i ->
  ginv g /\ exists g', handle_input i g = Ok g' /\ ginv g'.
Proof.
  intros Hc Hr Hok. pose proof (gateway_reachable_inv clock g Hc Hr) as Hg. split; [done|].
  destruct (handle_input_inv i g Hg Hok) as (g' & Hh & Hg' & _). eauto.
Qed.

(** Responses reach the client they are for, and no other. Handing a batch
    of responses to the gateway extends the stream of every connected client by
    exactly the packets of the responses with its id, in order, whatever part
    of each the sockets take at once. *)
Theorem responses_routed clock g rs :
  (forall n, fits 64 (clock n)) -> reachable clock g ->
  Forall (fun r => response_ok (rsp_msg r.1)) rs -> all_sent rs ->
  exists g', pump_responses rs g = Ok g' /\
    forall id, is_Some (conns_ g !! id) -> is_Some (conns_ g' !! id) /\
      stream_of g' id = stream_of g id ++ wires (packets_for id rs).
Proof.
  intros Hc Hr Hok Hs. pose proof (gateway_reachable_inv clock g Hc Hr) as Hg.
  destruct (pump_delivers rs g Hg Hok Hs) as (g' & Hp & _ & Hd). eauto.
Qed.

(** ** A connection *)

Definition zero_clock : nat -> Z := fun _ => 0.

Definition one_client : Gateway := accept_one (start zero_clock) 5.

Lemma one_client_reachable : reachable zero_clock one_client.
Proof.
  apply (reach_input _ (InEvent (OnListen [5])) (start zero_clock)); [apply reach_start| |done].
  split_and!; [apply NoDup_singleton|by constructor|by vm_compute].
Qed.

Lemma zero_clock_fits n : fits 64 (zero_clock n).
Proof. unfold fits, zero_clock. lia. Qed.

Lemma one_client_inv : ginv one_client.
Proof. apply (gateway_reachable_inv zero_clock); [apply zero_clock_fits|apply one_client_reachable]. Qed.

Lemma demo_login_bytes : Forall is_byte (wire demo_login).
Proof. concrete_bytes. Qed.

Lemma gateway_safe_witness :
  exists g', handle_input (InEvent (OnConn 5 true true [Data (wire demo_login)] (Sent 3) (Sent 9)))
    one_client = Ok g' /\ ginv g'.
Proof.
  refine (proj2 (gateway_safe zero_clock one_client _ zero_clock_fits one_client_reachable _)).
  split; [constructor; [apply demo_login_bytes|done]|by exists 3%nat].
Defined.

Lemma failed_send_use_after_free_witness :
  handle_readable 1 [Data (wire demo_login)] SendFailed one_client = Undefined.
Proof.
  eapply (failed_send_use_after_free 1 [Data (wire demo_login)] one_client).
  - exact one_client_inv.
  - vm_compute. by eexists.
  - constructor; [apply demo_login_bytes|done].
  - vm_compute. reflexivity.
  - vm_compute. reflexivity.
  - vm_compute. discriminate.
Defined.

Definition demo_reject : ClientResponse :=
  mkResponse 1 (RRejected (Ouch.mkRejected 0 (make_token [97]) (chr "T"))).

Lemma responses_routed_witness :
  exists g', pump_responses [(demo_reject, Sent 4)] one_client = Ok g' /\
    (is_Some (conns_ g' !! 1) /\
     stream_of g' 1 = stream_of one_client 1 ++ wires (packets_for 1 [(demo_reject, Sent 4)])).
Proof.
  destruct (responses_routed zero_clock one_client [(demo_reject, Sent 4)] zero_clock_fits
    one_client_reachable) as (g' & Hp & Hd).
  - constructor; [|done]. apply rejected_ok; [unfold fits; lia|done|concrete_bytes|by vm_compute].
  - constructor; [|done]. by exists 4%nat.
  - exists g'. split; [exact Hp|]. apply Hd. vm_compute. by eexists.
Defined.
End GatewayRuns.
