(* ===== verification/Wakeup.v ===== *)
(** How the gateway's thread learns of responses ([gateway.cpp]: the hook set in
    the constructor, [stop] and [run]; [common/queue.hpp]: [push]).

    The thread sleeps in the poller. A push stores a response under the queue's
    lock and calls the hook after it has released the lock; the hook writes one
    byte to a pipe that the poller watches. The thread reads the pipe until it
    is empty and only then takes what is in the queue. [stop] sets a flag and
    writes a byte too. Both ends of the pipe are non-blocking, so a write to a
    full pipe is lost.

    Every thread is interleaved at these points. The bytes in the pipe carry
    nothing, so the pipe is their number. Handlers of other descriptors do not
    touch this state. *)

From S2P Require Import Prelude Channel.

Module Wakeup.

(** An event of the poller, as far as [run] tells them apart. *)
Inductive Ready := WakePipe | OtherFd.

#[export] Instance Ready_eq_dec : EqDecision Ready.
Proof. solve_decision. Defined.

(** Where the gateway's thread is: at the test of the loop, in [poller_.wait],
    before the next of the events it got, in the loop that reads the pipe,
    before [from_engine_.drain()], or past the loop. *)
Inductive Thread :=
  | AtTest
  | InPoll
  | AtEvent (rest : list Ready)
  | ReadingPipe (rest : list Ready)
  | Pumping (rest : list Ready)
  | Left.

(** [stop] before it is called, after the flag is set, after the byte is
    written. *)
Inductive Stopper := NotCalled | FlagSet | ByteWritten.

(** [unnotified] counts the pushes whose hook has not run yet; [pushed] and
    [pumped] are the responses pushed and drained so far. *)
Record Wakeup (R : Type) := mkWakeup {
  from_engine_ : Mpsc.Queue R;
  unnotified : nat;
  wake_pipe_ : nat;
  stopper : Stopper;
  thread_ : Thread;
  pushed : list R;
  pumped : list R }.
Arguments mkWakeup {R}. Arguments from_engine_ {R}. Arguments unnotified {R}. Arguments wake_pipe_ {R}.
Arguments stopper {R}. Arguments thread_ {R}. Arguments pushed {R}. Arguments pumped {R}.

(** [stopping_]. *)
Definition stopping_ (s : Stopper) : bool := match s with NotCalled => false | _ => true end.

(** The arrays of [Poller::wait] and of the reading loop. *)
Definition kMaxEvents : nat := 64.
Definition kReadSize : nat := 256.

(** Writing one byte to a pipe that holds [capacity]. *)
Definition write_byte (capacity pipe : nat) : nat := if (pipe <? capacity)%nat then S pipe else pipe.

(** One [read] of a pipe with something in it. *)
Definition read_bytes (pipe : nat) : nat := (pipe - Nat.min kReadSize pipe)%nat.

Section Threads.
Context {R : Type} (capacity : nat).
Implicit Types (w : Wakeup R).

Definition start : Wakeup R := mkWakeup Mpsc.init 0 0 NotCalled AtTest [] [].

Definition at_ (t : Thread) w : Wakeup R :=
  mkWakeup (from_engine_ w) (unnotified w) (wake_pipe_ w) (stopper w) t (pushed w) (pumped w).
Definition set_pipe (n : nat) w : Wakeup R :=
  mkWakeup (from_engine_ w) (unnotified w) n (stopper w) (thread_ w) (pushed w) (pumped w).

(** [push], up to the release of the lock, and the call of the hook. *)
Definition push (r : R) w : Wakeup R :=
  mkWakeup (Mpsc.push r (from_engine_ w)) (S (unnotified w)) (wake_pipe_ w) (stopper w) (thread_ w)
    (pushed w ++ [r]) (pumped w).
Definition notify w : Wakeup R :=
  mkWakeup (from_engine_ w) (pred (unnotified w)) (write_byte capacity (wake_pipe_ w)) (stopper w)
    (thread_ w) (pushed w) (pumped w).

Definition stop_flag w : Wakeup R :=
  mkWakeup (from_engine_ w) (unnotified w) (wake_pipe_ w) FlagSet (thread_ w) (pushed w) (pumped w).
Definition stop_byte w : Wakeup R :=
  mkWakeup (from_engine_ w) (unnotified w) (write_byte capacity (wake_pipe_ w)) ByteWritten (thread_ w)
    (pushed w) (pumped w).

Definition pump (rest : list Ready) w : Wakeup R :=
  let '(rs, q) := Mpsc.drain (from_engine_ w) in
  mkWakeup q (unnotified w) (wake_pipe_ w) (stopper w) (AtEvent rest) (pushed w) (pumped w ++ rs).

(** What [poller_.wait] may report: the pipe only if it has something to read,
    and certainly then unless the array is full. No event at all is a timeout
    or a signal. *)
Definition reports (evs : list Ready) (pipe : nat) : Prop :=
  (length evs <= kMaxEvents)%nat /\
  (WakePipe ∈ evs -> (0 < pipe)%nat) /\
  ((0 < pipe)%nat -> (length evs < kMaxEvents)%nat -> WakePipe ∈ evs).

(** The steps of the gateway's thread. *)
Inductive gateway_step w : Wakeup R -> Prop :=
  | test_goes_on : thread_ w = AtTest -> stopping_ (stopper w) = false -> gateway_step w (at_ InPoll w)
  | test_ends : thread_ w = AtTest -> stopping_ (stopper w) = true -> gateway_step w (at_ Left w)
  | poll_returns evs : thread_ w = InPoll -> reports evs (wake_pipe_ w) ->
      gateway_step w (at_ (AtEvent evs) w)
  | events_end : thread_ w = AtEvent [] -> gateway_step w (at_ AtTest w)
  | event_breaks ev rest : thread_ w = AtEvent (ev :: rest) -> stopping_ (stopper w) = true ->
      gateway_step w (at_ AtTest w)
  | event_other rest : thread_ w = AtEvent (OtherFd :: rest) -> stopping_ (stopper w) = false ->
      gateway_step w (at_ (AtEvent rest) w)
  | event_wakes rest : thread_ w = AtEvent (WakePipe :: rest) -> stopping_ (stopper w) = false ->
      gateway_step w (at_ (ReadingPipe rest) w)
  | pipe_reads rest : thread_ w = ReadingPipe rest -> (0 < wake_pipe_ w)%nat ->
      gateway_step w (set_pipe (read_bytes (wake_pipe_ w)) w)
  | pipe_empty rest : thread_ w = ReadingPipe rest -> wake_pipe_ w = 0%nat ->
      gateway_step w (at_ (Pumping rest) w)
  | pumps rest : thread_ w = Pumping rest -> gateway_step w (pump rest w).

(** A hard error of the poller ends the loop. *)
Inductive poll_fails w : Wakeup R -> Prop :=
  | poll_failure : thread_ w = InPoll -> poll_fails w (at_ Left w).

(** The steps of the threads that push and of the one that stops the gateway. *)
Inductive outside_step w : Wakeup R -> Prop :=
  | pushes r : outside_step w (push r w)
  | notifies : (0 < unnotified w)%nat -> outside_step w (notify w)
  | stop_sets_flag : stopper w = NotCalled -> outside_step w (stop_flag w)
  | stop_writes : stopper w = FlagSet -> outside_step w (stop_byte w).

Definition step w w' : Prop := gateway_step w w' \/ poll_fails w w' \/ outside_step w w'.

Definition reachable w : Prop := rtc step start w.

(** Nothing but a timeout ends the wait. *)
Definition asleep w : Prop := thread_ w = InPoll /\ wake_pipe_ w = 0%nat.

(** ** The invariant *)

Definition events_left (t : Thread) : list Ready :=
  match t with AtEvent l | ReadingPipe l | Pumping l => l | _ => [] end.

(** The thread has taken the byte and will drain. *)
Definition draining (t : Thread) : bool :=
  match t with ReadingPipe _ | Pumping _ => true | _ => false end.

Record ok w : Prop := {
  ok_order : pumped w ++ Mpsc.items_ (from_engine_ w) = pushed w;
  ok_wake : Mpsc.items_ (from_engine_ w) <> [] ->
    (0 < unnotified w)%nat \/ (0 < wake_pipe_ w)%nat \/ draining (thread_ w) = true \/ thread_ w = Left;
  ok_stop : stopper w = ByteWritten -> thread_ w = InPoll -> (0 < wake_pipe_ w)%nat;
  ok_pipe : (wake_pipe_ w <= capacity)%nat;
  ok_events : (length (events_left (thread_ w)) <= kMaxEvents)%nat }.

Context (Hcap : (0 < capacity)%nat).

Lemma write_byte_pos pipe : (0 < write_byte capacity pipe)%nat.
Proof. unfold write_byte. destruct (Nat.ltb_spec pipe capacity); lia. Qed.

Lemma write_byte_le pipe : (pipe <= capacity -> write_byte capacity pipe <= capacity)%nat.
Proof. unfold write_byte. destruct (Nat.ltb_spec pipe capacity); lia. Qed.

Lemma start_wakes : ok start.
Proof. split; cbn; try done; lia. Qed.

(** Moving on without touching the queue or the pipe. *)
Lemma move_ok t w :
  ok w -> (length (events_left t) <= kMaxEvents)%nat ->
  (draining (thread_ w) = true -> draining t = true) -> (thread_ w = Left -> t = Left) ->
  (t = InPoll -> stopping_ (stopper w) = false) -> ok (at_ t w).
Proof.
  intros [H1 H2 H3 H4 H5] Hl Hd HL Hp. split; cbn [at_ from_engine_ unnotified wake_pipe_ stopper thread_ pushed pumped];
    try done.
  - intros Hq. destruct (H2 Hq) as [?|[?|[?|?]]]; auto.
  - intros Hs Ht. specialize (Hp Ht). by rewrite Hs in Hp.
Qed.

Lemma gateway_step_wakes w w' : ok w -> gateway_step w w' -> ok w'.
Proof.
  intros Hok Hs. pose proof (ok_events w Hok) as He.
  destruct Hs as [Ht Hs|Ht Hs|evs Ht (Hl & _)|Ht|ev rest Ht Hs|rest Ht Hs|rest Ht Hs|rest Ht Hp|rest Ht Hp|rest Ht];
    try (apply move_ok; rewrite Ht in *; cbn [events_left draining length] in *; done || lia).
  - destruct Hok as [H1 H2 H3 H4 H5]. split; cbn; try done.
    + intros _. rewrite Ht. auto.
    + intros _. by rewrite Ht.
    + unfold read_bytes. lia.
  - destruct Hok as [H1 H2 H3 H4 H5]. rewrite Ht in *. split; cbn; try done. by rewrite app_nil_r.
Qed.

Lemma outside_step_wakes w w' : ok w -> outside_step w w' -> ok w'.
Proof.
  intros [H1 H2 H3 H4 H5] Hs.
  pose proof (write_byte_pos (wake_pipe_ w)) as Hpos. pose proof (write_byte_le (wake_pipe_ w) H4) as Hle.
  destruct Hs as [r|Hn|Hs|Hs]; split; cbn; try done.
  - by rewrite <- H1, app_assoc.
  - intros _. left. lia.
  - auto.
  - auto.
Qed.

Lemma poll_fails_wakes w w' : ok w -> poll_fails w w' -> ok w'.
Proof. intros Hok []. apply move_ok; rewrite ?H; cbn; done || lia. Qed.

Lemma reachable_wakes w : reachable w -> ok w.
Proof.
  apply rtc_ind_r; [apply start_wakes|]. intros x y _ [Hs|[Hs|Hs]] Hx;
    [by eapply gateway_step_wakes|by eapply poll_fails_wakes|by eapply outside_step_wakes].
Qed.

(** ** Progress *)

(** A round whose array of events is not full, so that the pipe is in it. *)
Definition prompt_step w w' : Prop :=
  gateway_step w w' /\
  (forall evs, thread_ w = InPoll -> thread_ w' = AtEvent evs -> (length evs < kMaxEvents)%nat).

(** Steps of the thread until it drains the queue. *)
Definition until_drain w : nat :=
  (match thread_ w with
   | Left => 0
   | Pumping _ => 1
   | ReadingPipe _ => 2 + wake_pipe_ w
   | AtEvent rest =>
       if decide (WakePipe ∈ rest) then 2 + wake_pipe_ w + length rest
       else 5 + wake_pipe_ w + kMaxEvents + length rest
   | InPoll => 3 + wake_pipe_ w + kMaxEvents
   | AtTest => 4 + wake_pipe_ w + kMaxEvents
   end)%nat.

(** Steps of the thread until it leaves, once the flag is set. *)
Definition until_left w : nat :=
  (match thread_ w with
   | Left => 0
   | AtTest => 1
   | AtEvent _ => 2
   | InPoll | Pumping _ => 3
   | ReadingPipe _ => 4 + wake_pipe_ w
   end)%nat.

Lemma until_drain_le w : ok w -> (until_drain w <= capacity + 2 * kMaxEvents + 5)%nat.
Proof.
  intros [_ _ _ H4 H5]. unfold until_drain. destruct (thread_ w); cbn [events_left] in H5; try case_decide; lia.
Qed.

Lemma until_left_le w : ok w -> (until_left w <= capacity + 4)%nat.
Proof. intros [_ _ _ H4 _]. unfold until_left. destruct (thread_ w); lia. Qed.

Lemma gateway_step_frame w w' :
  gateway_step w w' ->
  unnotified w' = unnotified w /\ stopper w' = stopper w /\ pushed w' = pushed w /\
  (Mpsc.items_ (from_engine_ w) = [] -> Mpsc.items_ (from_engine_ w') = []).
Proof. by destruct 1. Qed.

Lemma prompt_step_drains w w' :
  ok w -> unnotified w = 0%nat -> stopping_ (stopper w) = false -> prompt_step w w' ->
  Mpsc.items_ (from_engine_ w') = [] \/ (until_drain w' < until_drain w)%nat.
Proof.
  intros Hok Hn Hst [Hs Hp]. destruct (decide (Mpsc.items_ (from_engine_ w) = [])) as [He|Hne].
  { left. by apply (gateway_step_frame w w'). }
  pose proof (ok_wake w Hok Hne) as Hw. rewrite Hn in Hw.
  destruct Hs as [Ht Hs|Ht Hs|evs Ht Hr|Ht|ev rest Ht Hs|rest Ht Hs|rest Ht Hs|rest Ht Hpos|rest Ht Hz|rest Ht];
    try congruence; [..|by left]; right; rewrite Ht in Hw;
    unfold until_drain; cbn [at_ set_pipe thread_ wake_pipe_]; rewrite Ht.
  - lia.
  - specialize (Hp evs Ht eq_refl). destruct Hr as (_ & _ & Hin).
    rewrite decide_True; [lia|]. apply Hin; [|done]. cbn in Hw. naive_solver lia.
  - rewrite decide_False by apply not_elem_of_nil. cbn [length]. lia.
  - cbn [length]. destruct (decide (WakePipe ∈ rest)) as [H|H]; [rewrite decide_True|rewrite decide_False]; [lia| |lia|];
      rewrite elem_of_cons; naive_solver.
  - rewrite decide_True by (apply elem_of_cons; by left). cbn [length]. lia.
  - unfold read_bytes, kReadSize. lia.
  - lia.
Qed.

Lemma prompt_steps_drain n w w' :
  ok w -> unnotified w = 0%nat -> stopping_ (stopper w) = false -> nsteps prompt_step n w w' ->
  Mpsc.items_ (from_engine_ w') = [] \/ (n + until_drain w' <= until_drain w)%nat.
Proof.
  intros Hok Hn Hst Hs. induction Hs as [|n x y z Hxy Hyz IH]; [right; lia|].
  destruct (gateway_step_frame x y (proj1 Hxy)) as (En & Es & _ & _).
  pose proof (gateway_step_wakes x y Hok (proj1 Hxy)) as Hok'.
  destruct (IH Hok') as [He|Hle]; [congruence..|by left|].
  destruct (prompt_step_drains x y Hok Hn Hst Hxy) as [He|Hlt]; [|right; lia]. left.
  clear -He Hyz. induction Hyz as [|n x y z [Hxy _] _ IH]; [done|]. by apply IH, (gateway_step_frame x y).
Qed.

Lemma stopping_step_leaves w w' :
  stopping_ (stopper w) = true -> gateway_step w w' -> (until_left w' < until_left w)%nat.
Proof.
  intros Hst Hs. unfold until_left.
  destruct Hs as [Ht Hs|Ht Hs|evs Ht Hr|Ht|ev rest Ht Hs|rest Ht Hs|rest Ht Hs|rest Ht Hpos|rest Ht Hz|rest Ht];
    try congruence; cbn; rewrite Ht; try lia. unfold read_bytes, kReadSize. lia.
Qed.

Lemma stopping_steps_leave n w w' :
  stopping_ (stopper w) = true -> nsteps gateway_step n w w' -> (n + until_left w' <= until_left w)%nat.
Proof.
  intros Hst Hs. induction Hs as [|n x y z Hxy Hyz IH]; [lia|].
  destruct (gateway_step_frame x y Hxy) as (_ & Es & _). pose proof (stopping_step_leaves x y Hst Hxy).
  rewrite Es in IH. specialize (IH Hst). lia.
Qed.

(** The thread never gets stuck. *)
Lemma gateway_moves w : thread_ w <> Left -> exists w', gateway_step w w'.
Proof.
  intros Ht. destruct (thread_ w) as [| |[|ev rest]|rest|rest|] eqn:E; [..|done].
  - destruct (stopping_ (stopper w)) eqn:Hs; eexists; [by apply test_ends|by apply test_goes_on].
  - destruct (wake_pipe_ w) as [|n] eqn:Hp.
    + eexists. apply (poll_returns w []); [done|]. rewrite Hp. split_and!; cbn; [lia|by intros ?%not_elem_of_nil|lia].
    + eexists. apply (poll_returns w [WakePipe]); [done|]. rewrite Hp.
      split_and!; cbn; [unfold kMaxEvents; lia|lia|intros _ _; by left].
  - eexists. by apply events_end.
  - destruct (stopping_ (stopper w)) eqn:Hs; [eexists; by eapply event_breaks|].
    destruct ev; eexists; [by eapply event_wakes|by eapply event_other].
  - destruct (wake_pipe_ w) eqn:Hp; eexists; [by eapply pipe_empty|]. eapply pipe_reads; [done|lia].
  - eexists. by eapply pumps.
Qed.

(** C11: no wake-up is lost. However the pushes, the hook, [stop] and the
    gateway's thread are interleaved: (1) what the thread has drained, followed
    by what is queued, is what was pushed, in order; (2) when the thread sleeps
    with the pipe empty, responses are queued only while the hook of a push is
    still to run, and [stop] has not written its byte; (3) once every hook has
    run, the thread drains everything within a fixed number of its own steps,
    unless it is told to stop, as long as fewer descriptors than the poller's
    array holds are ready at once; (4) once [stop] has set the flag, the thread
    leaves its loop within a fixed number of steps; (5) until it leaves it can
    always take a step. The pipe may be full or be emptied by the thread at any
    moment: a lost write never matters. *)
Theorem no_lost_wakeup w :
  reachable w ->
  pumped w ++ Mpsc.items_ (from_engine_ w) = pushed w /\
  (asleep w -> (Mpsc.items_ (from_engine_ w) <> [] -> (0 < unnotified w)%nat) /\ stopper w <> ByteWritten) /\
  (forall n w', unnotified w = 0%nat -> stopping_ (stopper w) = false -> nsteps prompt_step n w w' ->
     (capacity + 2 * kMaxEvents + 5 < n)%nat -> pumped w' = pushed w) /\
  (forall n w', stopping_ (stopper w) = true -> nsteps gateway_step n w w' -> (n <= capacity + 4)%nat) /\
  (thread_ w <> Left -> exists w', gateway_step w w').
Proof.
  intros Hr. pose proof (reachable_wakes w Hr) as Hok. split_and!; [apply Hok|..|apply gateway_moves].
  - intros [Ht Hp]. split.
    + intros Hne. destruct (ok_wake w Hok Hne) as [H|[H|[H|H]]]; [done|lia|by rewrite Ht in H|congruence].
    + intros Hs. pose proof (ok_stop w Hok Hs Ht). lia.
  - intros n w' Hn Hst Hs Hlt. pose proof (until_drain_le w Hok) as Hle.
    destruct (prompt_steps_drain n w w' Hok Hn Hst Hs) as [He|]; [|lia].
    assert (ok w' /\ pushed w' = pushed w) as [Hok' <-].
    { clear -Hok Hs Hcap. induction Hs as [|n x y z [Hxy _] _ IH]; [done|].
      destruct (gateway_step_frame x y Hxy) as (_ & _ & <- & _). by apply IH, (gateway_step_wakes x y). }
    rewrite <- (ok_order w' Hok'), He. by rewrite app_nil_r.
  - intros n w' Hst Hs. pose proof (stopping_steps_leave n w w' Hst Hs).
    pose proof (until_left_le w Hok). lia.
Qed.
End Threads.

(** A push whose hook has not run yet, while the thread sleeps. *)
Definition sleeping : Wakeup Z := push 7 (at_ InPoll start).

Lemma sleeping_reachable : reachable 1 sleeping.
Proof.
  eapply rtc_l; [left; by apply test_goes_on|]. eapply rtc_l; [right; right; apply (pushes _ _ 7)|]. apply rtc_refl.
Qed.

Lemma no_lost_wakeup_witness : asleep sleeping /\ (0 < unnotified sleeping)%nat.
Proof.
  destruct (no_lost_wakeup 1 ltac:(lia) sleeping sleeping_reachable) as (_ & Hsleep & _).
  split; [done|]. by apply Hsleep.
Defined.
End Wakeup.
