(* ===== verification/Client.v ===== *)
(** The order-entry client ([client/ouch_client.cpp]).

    What the socket does is an argument: how many bytes a [send] takes, what
    [recv] returns before it would block, what the clock reads. The handler's
    callbacks are logged in the order they are made. *)

From S2P Require Import Prelude Endian BookTypes Wire Symbols Ouch Engine EngineRuns Soup SoupSession Gateway GatewaySession GatewayInv GatewayRuns.
From Stdlib Require Import Ascii.

Module Client.
Import Engine Soup.

Record Client := mkClient {
  fd_ : Z;
  parser_ : FrameParser;
  last_send_ns_ : Z;
  sent_ : bytes;
  calls_ : list ResponseMsg }.

Definition new_client : Client := mkClient (-1) new_parser 0 [] [].

Definition set_fd (fd : Z) (c : Client) : Client :=
  mkClient fd (parser_ c) (last_send_ns_ c) (sent_ c) (calls_ c).
Definition set_parser (p : FrameParser) (c : Client) : Client :=
  mkClient (fd_ c) p (last_send_ns_ c) (sent_ c) (calls_ c).
Definition log_sent (data : bytes) (c : Client) : Client :=
  mkClient (fd_ c) (parser_ c) (last_send_ns_ c) (sent_ c ++ data) (calls_ c).
Definition log_call (m : ResponseMsg) (c : Client) : Client :=
  mkClient (fd_ c) (parser_ c) (last_send_ns_ c) (sent_ c) (calls_ c ++ [m]).

Definition connected (c : Client) : bool := 0 <=? fd_ c.

(** [taken]: how many bytes the socket takes; the result is not looked at. *)
Definition send_raw (data : bytes) (taken : nat) (now : Z) (c : Client) : Client :=
  if fd_ c <? 0 then c else
  let c := log_sent (take taken data) c in
  mkClient (fd_ c) (parser_ c) now (sent_ c) (calls_ c).

Definition send_ouch (msg : bytes) (taken : nat) (now : Z) (c : Client) : outcome Client :=
  out ← append_packet [] kUnsequenced msg;
  Ok (send_raw out taken now c).

Definition enter (token : bytes) (side : Side) (symbol : bytes) (price : Price) (shares : Qty)
    (taken : nat) (now : Z) (c : Client) : outcome Client :=
  let m := Ouch.mkEnterOrder (make_token token) side shares (make_symbol symbol) price 99999
             [83; 73; 77; 32] (chr "Y") (chr "A") (chr "N") 0 (chr "N") (chr "R") in
  buf ← Ouch.encode_EnterOrder m (replicate Ouch.kEnterOrderSize 0);
  send_ouch buf taken now c.

Definition cancel (token : bytes) (keep_shares : Qty) (taken : nat) (now : Z) (c : Client)
    : outcome Client :=
  let m := Ouch.mkCancelOrder (make_token token) keep_shares in
  buf ← Ouch.encode_CancelOrder m (replicate Ouch.kCancelOrderSize 0);
  send_ouch buf taken now c.

Definition replace (existing replacement : bytes) (price : Price) (shares : Qty)
    (taken : nat) (now : Z) (c : Client) : outcome Client :=
  let m := Ouch.mkReplaceOrder (make_token existing) (make_token replacement) shares price 99999
             (chr "Y") (chr "N") 0 in
  buf ← Ouch.encode_ReplaceOrder m (replicate Ouch.kReplaceOrderSize 0);
  send_ouch buf taken now c.

(** [if (const auto m = decode(payload, n)) handler_.on_x( *m );] *)
Definition deliver {M} (m : outcome (option M)) (inj : M -> ResponseMsg) (c : Client) : outcome Client :=
  m ← m; Ok (match m with Some m => log_call (inj m) c | None => c end).

Definition dispatch (payload : bytes) (c : Client) : outcome Client :=
  tag ← peek payload 0;
  if tag =? chr "A" then deliver (Ouch.decode_accepted payload) RAccepted c
  else if tag =? chr "E" then deliver (Ouch.decode_executed payload) RExecuted c
  else if tag =? chr "C" then deliver (Ouch.decode_canceled payload) RCanceled c
  else if tag =? chr "U" then deliver (Ouch.decode_replaced payload) RReplaced c
  else if tag =? chr "J" then deliver (Ouch.decode_rejected payload) RRejected c
  else if tag =? chr "S" then deliver (Ouch.decode_system_event payload) RSystemEvent c
  else Ok c.

(** [while (auto p = parser_.next())] of [poll]; the pending bytes bound it. *)
Fixpoint dispatch_all (fuel : nat) (c : Client) : outcome Client :=
  match fuel with
  | O => Undefined
  | S fuel' =>
      '(k, p) ← next (parser_ c);
      let c := set_parser p c in
      match k with
      | None => Ok c
      | Some k =>
          c ← (if (type k =? kSequenced) && negb (length (payload k) =? 0)%nat
               then dispatch (payload k) c else Ok c);
          dispatch_all fuel' c
      end
  end.

Definition poll (recvs : list bytes) (now : Z) (taken : nat) (now' : Z) (c : Client) : outcome Client :=
  if fd_ c <? 0 then Ok c else
  let c := set_parser (fold_left (fun p d => push d p) recvs (parser_ c)) c in
  c ← dispatch_all (S (length (pending (parser_ c)))) c;
  if 1000000000 <? u64 (now - last_send_ns_ c) then
    hb ← append_packet [] kClientHeartbeat [];
    Ok (send_raw hb taken now' c)
  else Ok c.

Definition close (taken : nat) (c : Client) : outcome Client :=
  if 0 <=? fd_ c then
    out ← append_packet [] kLogoutRequest [];
    Ok (set_fd (-1) (log_sent (take taken out) c))
  else Ok c.

(** The packets of a login reply: accepted, rejected, or neither yet. *)
Fixpoint login_replies (fuel : nat) (p : FrameParser) : outcome (option bool * FrameParser) :=
  match fuel with
  | O => Undefined
  | S fuel' =>
      '(k, p) ← next p;
      match k with
      | None => Ok (None, p)
      | Some k =>
          if type k =? kLoginAccepted then Ok (Some true, p)
          else if type k =? kLoginRejected then Ok (Some false, p)
          else login_replies fuel' p
      end
  end.

(** The blocking receive loop of [connect]; at the end of [recvs] the receive
    times out. *)
Fixpoint await_login (recvs : list bytes) (taken : nat) (c : Client) : outcome (bool * Client) :=
  match recvs with
  | [] => c ← close taken c; Ok (false, c)
  | d :: recvs =>
      let p := push d (parser_ c) in
      '(r, p) ← login_replies (S (length (pending p))) p;
      let c := set_parser p c in
      match r with
      | Some true => Ok (true, c)
      | Some false => c ← close taken c; Ok (false, c)
      | None => await_login recvs taken c
      end
  end.

(** [fd] is what [socket] returns, [ok] whether [connect(2)] succeeds. *)
Definition connect (fd : Z) (ok : bool) (username password : bytes) (recvs : list bytes)
    (taken taken' : nat) (now : Z) (c : Client) : outcome (bool * Client) :=
  let c := set_fd fd c in
  if fd <? 0 then Ok (false, c) else
  if negb ok then c ← close taken' c; Ok (false, c) else
  out ← append_login_request [] username password [] 1;
  let c := send_raw out taken now c in
  await_login recvs taken' c.
End Client.
