(* ===== verification/ClientPaths.v ===== *)
(** The client and the gateway together: orders reach the engine as they were
    entered, responses reach the client's handler as the engine sent them. *)

From S2P Require Import Prelude Endian BookTypes Wire Symbols Ouch Engine EngineRuns Soup SoupSession Gateway GatewaySession GatewayInv GatewayRuns Client.
From Stdlib Require Import Ascii.

Module ClientPaths.
Import Engine Soup GatewaySession GatewayRuns Client.

(** ** Orders *)

Inductive Order :=
  | OEnter (token : bytes) (side : Side) (symbol : bytes) (price : Price) (shares : Qty)
  | OCancel (token : bytes) (keep_shares : Qty)
  | OReplace (existing replacement : bytes) (price : Price) (shares : Qty).

Definition issue (o : Order) (taken : nat) (now : Z) (c : Client) : outcome Client :=
  match o with
  | OEnter token side symbol price shares => enter token side symbol price shares taken now c
  | OCancel token keep => cancel token keep taken now c
  | OReplace ex rep price shares => replace ex rep price shares taken now c
  end.

(** The command an order is meant to be. *)
Definition order_msg (o : Order) : CommandMsg :=
  match o with
  | OEnter token side symbol price shares => CEnter
      (Ouch.mkEnterOrder (make_token token) side shares (make_symbol symbol) price 99999
        [83; 73; 77; 32] (chr "Y") (chr "A") (chr "N") 0 (chr "N") (chr "R"))
  | OCancel token keep => CCancel (Ouch.mkCancelOrder (make_token token) keep)
  | OReplace ex rep price shares => CReplace
      (Ouch.mkReplaceOrder (make_token ex) (make_token rep) shares price 99999 (chr "Y") (chr "N") 0)
  end.

(** Arguments that fit their fields, and the risk caps. *)
Definition order_ok (o : Order) : Prop :=
  match o with
  | OEnter token side symbol price shares => Forall is_byte token /\ valid_side side /\
      Forall is_byte symbol /\ fits 32 price /\ fits 32 shares
  | OCancel token keep => Forall is_byte token /\ fits 32 keep
  | OReplace ex rep price shares => Forall is_byte ex /\ Forall is_byte rep /\ fits 32 price /\ fits 32 shares
  end /\ over_cap (order_msg o) = None.

Definition msg_wire (m : CommandMsg) : bytes :=
  match m with
  | CEnter m => c_wire Ouch.EnterOrder_codec m
  | CCancel m => c_wire Ouch.CancelOrder_codec m
  | CReplace m => c_wire Ouch.ReplaceOrder_codec m
  end.

Definition order_packet (o : Order) : Packet := mkPacket kUnsequenced (msg_wire (order_msg o)).

Lemma make_token_ok sv : Forall is_byte sv -> length (make_token sv) = 14%nat /\ Forall is_byte (make_token sv).
Proof.
  intros Hb. split; [apply length_make_token|]. apply copy_chars_bytes; [|done].
  apply Forall_replicate. unfold is_byte. lia.
Qed.

Lemma make_symbol_ok sv : Forall is_byte sv -> length (make_symbol sv) = 8%nat /\ Forall is_byte (make_symbol sv).
Proof.
  intros Hb. split; [apply length_make_symbol|]. apply copy_chars_bytes; [|done]. concrete_bytes.
Qed.

Lemma order_msg_ok o : order_ok o -> carries (msg_wire (order_msg o)) (order_msg o).
Proof.
  destruct o as [token side symbol price shares|token keep|ex rep price shares]; intros [Hok _].
  - destruct Hok as (Ht & Hs & Hy & Hp & Hq). apply carries_enter.
    destruct (make_token_ok token Ht), (make_symbol_ok symbol Hy).
    unfold Ouch.EnterOrder_body. fmt_simpl. cbn [Ouch.eo_token Ouch.eo_side Ouch.eo_shares Ouch.eo_stock
      Ouch.eo_price Ouch.eo_tif Ouch.eo_firm Ouch.eo_display Ouch.eo_capacity Ouch.eo_intermarket_sweep
      Ouch.eo_min_qty Ouch.eo_cross_type Ouch.eo_customer_type].
    split_and!; try done; [by apply side_ok_valid|concrete_bytes].
  - destruct Hok as (Ht & Hq). apply carries_cancel. destruct (make_token_ok token Ht).
    unfold Ouch.CancelOrder_body. fmt_simpl. cbn [Ouch.co_token Ouch.co_shares]. done.
  - destruct Hok as (Ht & Hs & Hp & Hq). apply carries_replace.
    destruct (make_token_ok ex Ht), (make_token_ok rep Hs). unfold Ouch.ReplaceOrder_body. fmt_simpl.
    cbn [Ouch.ro_existing_token Ouch.ro_replacement_token Ouch.ro_shares Ouch.ro_price Ouch.ro_tif
      Ouch.ro_display Ouch.ro_intermarket_sweep Ouch.ro_min_qty].
    split_and!; done.
Qed.

Lemma carries_wire data m : carries data m -> data = msg_wire m.
Proof. by destruct 1. Qed.

Lemma carries_bytes data m : carries data m -> Forall is_byte data /\ (length data <= 49)%nat.
Proof.
  destruct 1 as [m Hm|m Hm|m Hm].
  - destruct (codec_wire_bytes Ouch.EnterOrder_codec m Ouch.EnterOrder_implements Hm) as [Hb ->].
    split; [done|]. by vm_compute.
  - destruct (codec_wire_bytes Ouch.CancelOrder_codec m Ouch.CancelOrder_implements Hm) as [Hb ->].
    split; [done|]. vm_compute. lia.
  - destruct (codec_wire_bytes Ouch.ReplaceOrder_codec m Ouch.ReplaceOrder_implements Hm) as [Hb ->].
    split; [done|]. vm_compute. lia.
Qed.

(** A byte string is at most one message. *)
Lemma carries_inj data m m' : carries data m -> carries data m' -> m = m'.
Proof.
  intros Hm Hm'. pose proof (carries_tag _ _ Hm) as Ht. pose proof (carries_tag _ _ Hm') as Ht'.
  rewrite Ht in Ht'. apply carries_wire in Hm' as E.
  destruct Hm as [m Hm|m Hm|m Hm], m' as [m'|m'|m']; try done; cbn [msg_wire] in E; f_equal;
    inversion Hm' as [x Hx E1 E2|x Hx E1 E2|x Hx E1 E2]; subst x.
  - pose proof (cc_decode _ (implements_correct _ Ouch.EnterOrder_implements) m Hm) as D.
    rewrite E, (cc_decode _ (implements_correct _ Ouch.EnterOrder_implements) m' Hx) in D. congruence.
  - pose proof (cc_decode _ (implements_correct _ Ouch.CancelOrder_implements) m Hm) as D.
    rewrite E, (cc_decode _ (implements_correct _ Ouch.CancelOrder_implements) m' Hx) in D. congruence.
  - pose proof (cc_decode _ (implements_correct _ Ouch.ReplaceOrder_implements) m Hm) as D.
    rewrite E, (cc_decode _ (implements_correct _ Ouch.ReplaceOrder_implements) m' Hx) in D. congruence.
Qed.

Lemma order_packet_ok o : order_ok o -> packet_ok (order_packet o) /\ (length (wire (order_packet o)) <= 52)%nat.
Proof.
  intros Ho. destruct (carries_bytes _ _ (order_msg_ok o Ho)) as [Hb Hl]. split.
  - split_and!; [by vm_compute|done|]. unfold lengthZ. cbn [payload order_packet]. lia.
  - rewrite length_packet. cbn [payload order_packet]. lia.
Qed.

Lemma send_ouch_spec o taken now c :
  order_ok o -> (52 <= taken)%nat -> 0 <= fd_ c ->
  exists c', send_ouch (msg_wire (order_msg o)) taken now c = Ok c' /\ fd_ c' = fd_ c /\
    sent_ c' = sent_ c ++ wire (order_packet o).
Proof.
  intros Ho Ht Hf. destruct (order_packet_ok o Ho) as [Hk Hl]. unfold send_ouch.
  pose proof (append_packet_spec [] _ Hk) as Ha. cbn [type payload order_packet app] in Ha.
  rewrite Ha, outcome_bind_Ok. eexists. split; [done|]. unfold send_raw.
  destruct (Z.ltb_spec (fd_ c) 0); [lia|]. cbn [fd_ sent_ log_sent]. split; [done|].
  by rewrite take_ge by lia.
Qed.

Lemma issue_spec o taken now c :
  order_ok o -> (52 <= taken)%nat -> 0 <= fd_ c ->
  exists c', issue o taken now c = Ok c' /\ fd_ c' = fd_ c /\ sent_ c' = sent_ c ++ wire (order_packet o).
Proof.
  intros Ho Ht Hf. destruct (send_ouch_spec o taken now c Ho Ht Hf) as (c' & Hs & H1 & H2).
  exists c'. split; [|done]. rewrite <- Hs. 
  pose proof (carries_command 0 _ _ (order_msg_ok o Ho)) as Hm.
  destruct o as [token side symbol price shares|token keep|ex rep price shares];
    unfold command_ok in Hm; cbn [issue order_msg msg_wire cmd_msg] in *.
  - unfold enter. cbv zeta.
    pose proof (codec_encodes Ouch.EnterOrder_codec _ Ouch.kEnterOrderSize Ouch.EnterOrder_implements Hm eq_refl)
      as [He _]. cbn [c_encode Ouch.EnterOrder_codec] in He. by rewrite He.
  - unfold cancel. cbv zeta.
    pose proof (codec_encodes Ouch.CancelOrder_codec _ Ouch.kCancelOrderSize Ouch.CancelOrder_implements Hm eq_refl)
      as [He _]. cbn [c_encode Ouch.CancelOrder_codec] in He. by rewrite He.
  - unfold replace. cbv zeta.
    pose proof (codec_encodes Ouch.ReplaceOrder_codec _ Ouch.kReplaceOrderSize Ouch.ReplaceOrder_implements Hm eq_refl)
      as [He _]. cbn [c_encode Ouch.ReplaceOrder_codec] in He. by rewrite He.
Qed.

(** Orders one after the other, each with what the socket takes and the time. *)
Fixpoint issue_all (os : list (Order * nat * Z)) (c : Client) : outcome Client :=
  match os with
  | [] => Ok c
  | (o, taken, now) :: os => c ← issue o taken now c; issue_all os c
  end.

Definition orders (os : list (Order * nat * Z)) : list Order := map (fun x => x.1.1) os.

(** Every socket write takes the whole packet. *)
Definition issued_ok (x : Order * nat * Z) : Prop := order_ok x.1.1 /\ (52 <= x.1.2)%nat.

Lemma issue_all_spec os : forall c,
  0 <= fd_ c -> Forall issued_ok os ->
  exists c', issue_all os c = Ok c' /\ sent_ c' = sent_ c ++ wires (map order_packet (orders os)).
Proof.
  induction os as [|[[o taken] now] os IH]; intros c Hf Hos; cbn [issue_all].
  { exists c. split; [done|]. by rewrite app_nil_r. }
  apply Forall_cons in Hos as [[Ho Ht] Hos]. cbn [fst snd] in *.
  destruct (issue_spec o taken now c Ho Ht Hf) as (c1 & -> & Hf1 & Hs1). rewrite outcome_bind_Ok.
  destruct (IH c1 ltac:(lia) Hos) as (c2 & -> & Hs2). exists c2. split; [done|].
  rewrite Hs2, Hs1, <- app_assoc. done.
Qed.

(** ** Logging in *)

Definition client_login (user pass : bytes) : LoginRequest := mkLoginRequest user pass [] 1.

Definition login_packet (r : LoginRequest) : Packet := mkPacket kLoginRequest (login_payload r).

Lemma login_packet_ok r : login_ok r -> packet_ok (login_packet r).
Proof.
  intros (Hl & Hb & _)%login_payload_decodes. split_and!; [by vm_compute|done|].
  unfold lengthZ. cbn [payload login_packet]. by rewrite Hl.
Qed.

Lemma await_login_sent recvs taken : forall c c',
  await_login recvs taken c = Ok (true, c') -> sent_ c' = sent_ c /\ fd_ c' = fd_ c.
Proof.
  induction recvs as [|d recvs IH]; intros c c'; cbn [await_login].
  { destruct (close taken c); [by intros [=]|done|done]. }
  destruct (login_replies _ _) as [[[[|]|] p]| |]; rewrite ?outcome_bind_Ok; [|..|done|done].
  - by intros [= <-].
  - by destruct (close taken _).
  - intros H. by apply IH in H.
Qed.

Lemma connect_spec fd ok user pass recvs taken taken' now c c' :
  login_ok (client_login user pass) -> (49 <= taken)%nat -> sent_ c = [] ->
  connect fd ok user pass recvs taken taken' now c = Ok (true, c') ->
  0 <= fd_ c' /\ sent_ c' = wire (login_packet (client_login user pass)).
Proof.
  intros Hl Ht Hs. unfold connect. cbv zeta. destruct (Z.ltb_spec fd 0) as [|Hfd]; [done|].
  destruct ok; cbn [negb]; [|by destruct (close taken' _)].
  pose proof (login_packet_ok _ Hl) as Hk. pose proof (append_packet_spec [] _ Hk) as Ha.
  change (append_login_request [] user pass [] 1) with
    (append_packet [] (type (login_packet (client_login user pass)))
       (payload (login_packet (client_login user pass)))).
  rewrite Ha, outcome_bind_Ok. cbn [app]. intros H%await_login_sent. destruct H as [H1 H2].
  unfold send_raw in H1, H2. cbn [fd_ set_fd] in H1, H2. destruct (Z.ltb_spec fd 0); [lia|].
  cbn [sent_ fd_ log_sent set_fd] in H1, H2. rewrite H1, H2, Hs. split; [done|]. cbn [app].
  apply take_ge. rewrite length_packet. cbn [payload login_packet].
  by rewrite (proj1 (login_payload_decodes _ Hl)).
Qed.

(** ** What the gateway makes of it *)

Lemma orders_talk id os : forall d d',
  d_state d = SoupSession.LoggedIn -> Forall order_ok os -> dialogue id (map order_packet os) d d' ->
  d_commands d' = d_commands d ++ map (fun o => mkCommand id (order_msg o)) os.
Proof.
  unfold dialogue. induction os as [|o os IH]; intros d d' Hd Hos Hm; cbn [map] in *.
  { rewrite app_nil_r. by inversion Hm. }
  apply Forall_cons in Hos as [Ho Hos]. pose proof (order_msg_ok o Ho) as Hc.
  inversion Hm as [|ks a Hh|k ks a a1 a2 Hh Ht Hrest]; subst.
  { unfold hung_up in Hh. congruence. }
  assert (a1 = forward (mkCommand id (order_msg o)) d) as ->.
  { inversion Ht as [r E|E|E|m _ _ Hm' Hcap|m tk ts _ _ Hm' Hcap|_ _ Hn|_ E|_ E]; subst; try congruence.
    - by rewrite (carries_inj _ _ _ Hc Hm').
    - rewrite <- (carries_inj _ _ _ Hc Hm'), (proj2 Ho) in Hcap. done.
    - by destruct (Hn (order_msg o)).
    - by vm_compute in E.
    - by destruct E. }
  rewrite (IH (forward (mkCommand id (order_msg o)) d) d' Hd Hos Hrest). cbn [forward d_commands].
  by rewrite <- app_assoc.
Qed.

Lemma session_talk id r os d :
  login_ok r -> Forall order_ok os ->
  dialogue id (login_packet r :: map order_packet os) fresh d ->
  d_commands d = map (fun o => mkCommand id (order_msg o)) os.
Proof.
  intros Hr Hos Hm. unfold dialogue in Hm. destruct (login_payload_decodes r Hr) as (_ & _ & Hd).
  inversion Hm as [|ks a Hh|k ks a a1 a2 Hh Ht Hrest]; subst; [done|].
  assert (a1 = go_to SoupSession.LoggedIn (answer login_reply fresh)) as ->.
  { inversion Ht as [r' E|E E' Hbad|E Hne|m E|m tk ts E|E|E|E]; subst; try done.
    cbn [payload login_packet] in Hbad. congruence. }
  by apply orders_talk in Hrest.
Qed.

(** C3: from the client's call to the engine's queue. Connect a client, log in
    and place any sequence of orders within the caps; let the socket take each
    packet whole. Then the client's calls return, and whatever the pieces in
    which the gateway reads the stream, the commands it forwards to the engine
    are those orders: all of them, in order, field by field, under the
    connection's id. *)
Theorem orders_reach_engine fd user pass recvs taken taken' now c1 os :
  login_ok (client_login user pass) -> (49 <= taken)%nat -> Forall issued_ok os ->
  connect fd true user pass recvs taken taken' now new_client = Ok (true, c1) ->
  exists c2, issue_all os c1 = Ok c2 /\
    forall id chunks t w, clock_ok w -> concat chunks.*2 = sent_ c2 ->
    exists w' s', SoupSession.on_bytes_all (Gateway.conn_listener id) chunks w (SoupSession.new_session t)
        = Ok (w', s') /\
      Gateway.to_engine_ w' = Gateway.to_engine_ w ++ map (fun o => mkCommand id (order_msg o)) (orders os).
Proof.
  intros Hl Ht Hos Hc.
  destruct (connect_spec fd true user pass recvs taken taken' now new_client c1 Hl Ht eq_refl Hc) as [Hf Hs1].
  destruct (issue_all_spec os c1 Hf Hos) as (c2 & Hi & Hs2). exists c2. split; [done|].
  intros id chunks t w Hw Hch. set (r := client_login user pass) in *.
  assert (Forall order_ok (orders os)) as Hok.
  { unfold orders. apply Forall_map. eapply Forall_impl; [exact Hos|]. by intros x [Hx _]. }
  assert (Forall packet_ok (login_packet r :: map order_packet (orders os))) as Hks.
  { constructor; [by apply login_packet_ok|]. apply Forall_map. eapply Forall_impl; [exact Hok|].
    intros o Ho. by apply order_packet_ok. }
  assert (concat chunks.*2 = wires (login_packet r :: map order_packet (orders os))) as Hst
    by (rewrite Hch, Hs2, Hs1; done).
  destruct (SoupSession.session_serves (Gateway.conn_listener id) (view (Gateway.to_engine_ w) []) (talk id) hung_up
    chunks (login_packet r :: map order_packet (orders os)) w (SoupSession.new_session t) fresh) as (w' & s' & d & Hb & Hm & [H1 H2 H3 H4 H5]);
    [apply new_parser_ok|done| |exact Hks|exact Hst|].
  { split; try done. by rewrite app_nil_r. }
  exists w', s'. split; [done|]. by rewrite H2, (session_talk id r (orders os) d Hl Hok Hm).
Qed.

Definition demo_orders : list (Order * nat * Z) :=
  [(OEnter [97] Buy [65; 65; 80; 76] 1500000 100, 52%nat, 1); (OCancel [97] 40, 52%nat, 2);
   (OReplace [97] [98] 1500100 60, 60%nat, 3)].

Lemma demo_orders_ok : Forall issued_ok demo_orders.
Proof.
  repeat (apply Forall_cons; split); [..|apply Forall_nil_2]; (split; [split; [|by vm_compute]|cbn; lia]);
    cbn [order_ok fst]; split_and!; try (concrete_bytes || (unfold fits; lia) || by left).
Qed.

(** The login reply of the gateway, in two pieces. *)
Definition demo_client : outcome (bool * Client) :=
  connect 3 true [85] [80] [take 7 (wire login_reply); drop 7 (wire login_reply)] 49 0 0 new_client.

Lemma demo_login_ok : login_ok (client_login [85] [80]).
Proof.
  split_and!; cbn [username password requested_session requested_seq client_login];
    try (split_and!; [cbn; lia|done|done|concrete_bytes]); unfold fits; lia.
Qed.

Lemma orders_reach_engine_witness :
  exists c1 c2, demo_client = Ok (true, c1) /\ issue_all demo_orders c1 = Ok c2 /\
    exists w' s', SoupSession.on_bytes_all (Gateway.conn_listener 7)
        [(0, take 60 (sent_ c2)); (0, drop 60 (sent_ c2))] still_clock (SoupSession.new_session 0)
        = Ok (w', s') /\
      Gateway.to_engine_ w' = [] ++ map (fun o => mkCommand 7 (order_msg o)) (orders demo_orders).
Proof.
  destruct demo_client as [[[|] c1]| |] eqn:E; [|vm_compute in E; discriminate..].
  destruct (orders_reach_engine 3 [85] [80] [take 7 (wire login_reply); drop 7 (wire login_reply)]
    49 0 0 c1 demo_orders demo_login_ok ltac:(lia) demo_orders_ok E) as (c2 & Hi & H).
  exists c1, c2. split; [reflexivity|]. split; [exact Hi|].
  apply (H 7 [(0, take 60 (sent_ c2)); (0, drop 60 (sent_ c2))] 0 still_clock).
  - intros n. unfold fits. cbn. lia.
  - cbn [fmap list_fmap snd concat]. rewrite app_nil_r. apply take_drop.
Defined.

(** ** Responses *)

(** What the server sends after the login reply. *)
Inductive Item := Response (m : ResponseMsg) | Other (k : Packet).

Definition item_packet (i : Item) : Packet :=
  match i with Response m => response_packet m | Other k => k end.

Definition item_ok (i : Item) : Prop :=
  match i with
  | Response m => response_ok m
  | Other k => packet_ok k /\ type k <> kSequenced
  end.

Definition responses (items : list Item) : list ResponseMsg :=
  omap (fun i => match i with Response m => Some m | Other _ => None end) items.

(** One round of the loop of [poll]. *)
Definition hear (k : Packet) (c : Client) : outcome Client :=
  if (type k =? kSequenced) && negb (length (payload k) =? 0)%nat then dispatch (payload k) c else Ok c.

Definition log_calls (ms : list ResponseMsg) (c : Client) : Client :=
  mkClient (fd_ c) (parser_ c) (last_send_ns_ c) (sent_ c) (calls_ c ++ ms).

Definition hears (k : Packet) (ms : list ResponseMsg) : Prop := forall c, hear k c = Ok (log_calls ms c).

Lemma log_calls_nil c : log_calls [] c = c.
Proof. unfold log_calls. rewrite app_nil_r. by destruct c. Qed.

Lemma deliver_returns {M} (cd : Codec M) inj data :
  codec_implements cd -> Forall is_byte data ->
  exists ms, forall c, deliver (c_decode cd data) inj c = Ok (log_calls ms c).
Proof.
  intros Hi Hb. unfold deliver.
  destruct (cc_accepts _ (implements_correct _ Hi) data Hb) as [(m & -> & _)|[-> _]].
  - by exists [inj m].
  - exists []. intros c. by rewrite log_calls_nil.
Qed.

Lemma hear_returns k : packet_ok k -> exists ms, hears k ms.
Proof.
  intros (_ & Hb & _). unfold hears, hear.
  destruct (_ && _) eqn:E; [|exists []; intros c; by rewrite log_calls_nil].
  apply andb_true_iff in E as [_ E]. apply negb_true_iff, Nat.eqb_neq in E.
  destruct (payload k) as [|tag data]; [done|]. unfold dispatch, peek. cbn [lookup list_lookup deref].
  setoid_rewrite outcome_bind_Ok.
  destruct (_ =? _); [exact (deliver_returns Ouch.Accepted_codec RAccepted _ Ouch.Accepted_implements Hb)|].
  destruct (_ =? _); [exact (deliver_returns Ouch.Executed_codec RExecuted _ Ouch.Executed_implements Hb)|].
  destruct (_ =? _); [exact (deliver_returns Ouch.Canceled_codec RCanceled _ Ouch.Canceled_implements Hb)|].
  destruct (_ =? _); [exact (deliver_returns Ouch.Replaced_codec RReplaced _ Ouch.Replaced_implements Hb)|].
  destruct (_ =? _); [exact (deliver_returns Ouch.Rejected_codec RRejected _ Ouch.Rejected_implements Hb)|].
  destruct (_ =? _); [exact (deliver_returns Ouch.SystemEvent_codec RSystemEvent _ Ouch.SystemEvent_implements Hb)|].
  exists []. intros c. by rewrite log_calls_nil.
Qed.

Lemma deliver_wire {M} (cd : Codec M) inj m :
  codec_implements cd -> f_ok (c_body cd) m ->
  forall c, deliver (c_decode cd (c_wire cd m)) inj c = Ok (log_calls [inj m] c).
Proof. intros Hi Hm c. unfold deliver. by rewrite (cc_decode _ (implements_correct _ Hi) m Hm). Qed.

Lemma hears_response m : response_ok m -> hears (response_packet m) [m].
Proof.
  intros Hm c. destruct m as [m|m|m|m|m|m]; cbn [response_ok] in Hm.
  - exact (deliver_wire Ouch.SystemEvent_codec RSystemEvent m Ouch.SystemEvent_implements Hm c).
  - exact (deliver_wire Ouch.Accepted_codec RAccepted m Ouch.Accepted_implements Hm c).
  - exact (deliver_wire Ouch.Executed_codec RExecuted m Ouch.Executed_implements Hm c).
  - exact (deliver_wire Ouch.Canceled_codec RCanceled m Ouch.Canceled_implements Hm c).
  - exact (deliver_wire Ouch.Replaced_codec RReplaced m Ouch.Replaced_implements Hm c).
  - exact (deliver_wire Ouch.Rejected_codec RRejected m Ouch.Rejected_implements Hm c).
Qed.

Lemma hears_other k : type k <> kSequenced -> hears k [].
Proof. intros Hk c. unfold hear. destruct (Z.eqb_spec (type k) kSequenced); [done|]. by rewrite log_calls_nil. Qed.

Lemma hears_functional k ms ms' : hears k ms -> hears k ms' -> ms = ms'.
Proof.
  intros H1 H2. specialize (H1 new_client). specialize (H2 new_client). rewrite H1 in H2.
  by injection H2.
Qed.

Lemma dispatch_all_spec fuel : forall c,
  parser_ok (parser_ c) -> (length (pending (parser_ c)) < fuel)%nat ->
  exists ks mss p, dispatch_all fuel c = Ok (set_parser p (log_calls (concat mss) c)) /\
    Forall packet_ok ks /\ Forall2 hears ks mss /\ parser_ok p /\
    pending (parser_ c) = wires ks ++ pending p /\ incomplete (pending p).
Proof.
  induction fuel as [|fuel IH]; intros c Hp Hf; [lia|]. cbn [dispatch_all].
  destruct (frame_next_spec _ Hp) as [(k & p1 & -> & Hk & Hp1 & Hs)|[-> Hi]]; rewrite outcome_bind_Ok.
  - destruct (hear_returns k Hk) as [ms Hms]. fold (hear k (set_parser p1 c)).
    rewrite (Hms (set_parser p1 c)), outcome_bind_Ok.
    destruct (IH (log_calls ms (set_parser p1 c))) as (ks & mss & p2 & -> & H1 & H2 & H3 & H4 & H5); [done| |].
    { cbn [parser_ log_calls set_parser]. rewrite Hs, length_app, length_packet in Hf. lia. }
    exists (k :: ks), (ms :: mss), p2. split_and!; [|by constructor|by constructor|done| |done].
    + f_equal. unfold set_parser, log_calls. cbn. by rewrite <- app_assoc.
    + rewrite Hs. cbn [parser_ log_calls set_parser] in H4. rewrite H4. unfold wires. cbn [map concat].
      by rewrite <- app_assoc.
  - exists [], [], (parser_ c). cbn [concat]. rewrite log_calls_nil. split_and!; [done..|constructor|done|done|done].
Qed.

Lemma push_all_ok recvs : forall p,
  parser_ok p -> Forall (Forall is_byte) recvs ->
  parser_ok (fold_left (fun p d => push d p) recvs p) /\
  pending (fold_left (fun p d => push d p) recvs p) = pending p ++ concat recvs.
Proof.
  induction recvs as [|d recvs IH]; intros p Hp Hb; cbn [fold_left concat]; [by rewrite app_nil_r|].
  apply Forall_cons in Hb as [Hd Hb]. destruct (push_ok d p Hp Hd) as [Hp1 Hd1].
  destruct (IH (push d p) Hp1 Hb) as [H1 H2]. split; [done|]. by rewrite H2, Hd1, <- app_assoc.
Qed.

(** A call of [poll]: what is received, the clock, what the socket takes of a
    heartbeat and the clock after it. *)
Record Poll := mkPoll { p_recvs : list bytes; p_now : Z; p_taken : nat; p_now' : Z }.

Fixpoint poll_all (ps : list Poll) (c : Client) : outcome Client :=
  match ps with
  | [] => Ok c
  | p :: ps => c ← poll (p_recvs p) (p_now p) (p_taken p) (p_now' p) c; poll_all ps c
  end.

Definition received (ps : list Poll) : bytes := concat (map (fun p => concat (p_recvs p)) ps).

Lemma poll_spec p c :
  0 <= fd_ c -> parser_ok (parser_ c) -> Forall (Forall is_byte) (p_recvs p) ->
  exists c' ks mss, poll (p_recvs p) (p_now p) (p_taken p) (p_now' p) c = Ok c' /\
    fd_ c' = fd_ c /\ calls_ c' = calls_ c ++ concat mss /\ Forall packet_ok ks /\ Forall2 hears ks mss /\
    parser_ok (parser_ c') /\
    pending (parser_ c) ++ concat (p_recvs p) = wires ks ++ pending (parser_ c') /\
    incomplete (pending (parser_ c')).
Proof.
  intros Hf Hp Hb. unfold poll. destruct (Z.ltb_spec (fd_ c) 0); [lia|]. cbv zeta.
  destruct (push_all_ok (p_recvs p) (parser_ c) Hp Hb) as [Hp1 Hpe].
  set (c1 := set_parser _ c). change (fold_left _ _ _) with (parser_ c1) in Hp1, Hpe.
  destruct (dispatch_all_spec (S (length (pending (parser_ c1)))) c1 Hp1 ltac:(lia)) as
    (ks & mss & p2 & -> & H1 & H2 & H3 & H4 & H5).
  rewrite outcome_bind_Ok. set (c2 := set_parser p2 _). rewrite <- Hpe.
  destruct (_ <? _).
  - assert (packet_ok (mkPacket kClientHeartbeat [])) as Hk by (split_and!; [by vm_compute|done|done]).
    pose proof (append_packet_spec [] _ Hk) as Ha. cbn [type payload] in Ha. rewrite Ha, outcome_bind_Ok.
    eexists _, ks, mss. split; [done|]. unfold send_raw. cbn [c2 c1 fd_ set_parser log_calls].
    destruct (Z.ltb_spec (fd_ c) 0); [lia|]. done.
  - exists c2, ks, mss. done.
Qed.

Lemma poll_all_spec ps : forall c,
  0 <= fd_ c -> parser_ok (parser_ c) -> incomplete (pending (parser_ c)) ->
  Forall (fun p => Forall (Forall is_byte) (p_recvs p)) ps ->
  exists c' ks mss, poll_all ps c = Ok c' /\ calls_ c' = calls_ c ++ concat mss /\
    Forall packet_ok ks /\ Forall2 hears ks mss /\
    pending (parser_ c) ++ received ps = wires ks ++ pending (parser_ c') /\
    incomplete (pending (parser_ c')).
Proof.
  induction ps as [|p ps IH]; intros c Hf Hp Hi Hb; cbn [poll_all].
  { exists c, [], []. cbn [concat]. rewrite app_nil_r. split_and!; try done. by rewrite app_nil_r. }
  apply Forall_cons in Hb as [Hb Hbs].
  destruct (poll_spec p c Hf Hp Hb) as (c1 & ks & mss & -> & Hf1 & Hc1 & K1 & K2 & Hp1 & Hs1 & Hi1).
  rewrite outcome_bind_Ok.
  destruct (IH c1 ltac:(lia) Hp1 Hi1 Hbs) as (c2 & ks2 & mss2 & -> & Hc2 & L1 & L2 & Hs2 & Hi2).
  exists c2, (ks ++ ks2), (mss ++ mss2). split_and!; [done| |by apply Forall_app|by apply Forall2_app| |done].
  - by rewrite Hc2, Hc1, concat_app, <- app_assoc.
  - unfold received, wires in *. cbn [map concat]. rewrite map_app, concat_app, <- app_assoc, <- Hs2.
    by rewrite !app_assoc, Hs1, <- !app_assoc.
Qed.

Lemma items_heard items : forall mss,
  Forall item_ok items -> Forall2 hears (map item_packet items) mss -> concat mss = responses items.
Proof.
  induction items as [|i items IH]; intros mss Hok Hh; cbn [map] in Hh;
    inversion Hh as [|? ms ? mss' H1 H2]; subst; [done|].
  apply Forall_cons in Hok as [Hi Hok]. cbn [concat]. rewrite (IH mss' Hok H2).
  destruct i as [m|k]; cbn [item_ok item_packet] in *.
  - by rewrite (hears_functional _ _ _ H1 (hears_response m Hi)).
  - by rewrite (hears_functional _ _ _ H1 (hears_other k (proj2 Hi))).
Qed.

Lemma item_packet_ok i : item_ok i -> packet_ok (item_packet i).
Proof. destruct i as [m|k]; cbn; [apply response_packet_ok|by intros [? _]]. Qed.

Lemma received_bytes ps :
  Forall is_byte (received ps) -> Forall (fun p => Forall (Forall is_byte) (p_recvs p)) ps.
Proof.
  intros H. unfold received in H. induction ps as [|p ps IH]; [done|]. cbn [map concat] in H.
  apply Forall_app in H as [H1 H2]. constructor; [|by apply IH].
  clear -H1. induction (p_recvs p) as [|d ds IH]; [done|]. cbn [concat] in H1.
  apply Forall_app in H1 as [Ha Hb]. constructor; [done|by apply IH].
Qed.

(** The first poll also hears what came in with the login reply. *)
Lemma poll_all_starts ps c :
  ps <> [] -> 0 <= fd_ c -> parser_ok (parser_ c) ->
  Forall (fun p => Forall (Forall is_byte) (p_recvs p)) ps ->
  exists c' ks mss, poll_all ps c = Ok c' /\ calls_ c' = calls_ c ++ concat mss /\
    Forall packet_ok ks /\ Forall2 hears ks mss /\
    pending (parser_ c) ++ received ps = wires ks ++ pending (parser_ c') /\
    incomplete (pending (parser_ c')).
Proof.
  intros Hne Hf Hp Hb. destruct ps as [|p ps]; [done|]. apply Forall_cons in Hb as [Hb Hbs].
  cbn [poll_all].
  destruct (poll_spec p c Hf Hp Hb) as (c1 & ks & mss & -> & Hf1 & Hc1 & K1 & K2 & Hp1 & Hs1 & Hi1).
  rewrite outcome_bind_Ok.
  destruct (poll_all_spec ps c1 ltac:(lia) Hp1 Hi1 Hbs) as (c2 & ks2 & mss2 & -> & Hc2 & L1 & L2 & Hs2 & Hi2).
  exists c2, (ks ++ ks2), (mss ++ mss2). split_and!; [done| |by apply Forall_app|by apply Forall2_app| |done].
  - by rewrite Hc2, Hc1, concat_app, <- app_assoc.
  - unfold received, wires in *. cbn [map concat]. rewrite map_app, concat_app, <- app_assoc, <- Hs2.
    by rewrite !app_assoc, Hs1, <- !app_assoc.
Qed.

(** A client that logged in: the packets [ks0] are behind it, none of them a
    response, and more may be waiting in its parser. *)
Lemma polls_hear items ks0 ps c :
  ps <> [] -> 0 <= fd_ c -> parser_ok (parser_ c) -> Forall item_ok items ->
  Forall (fun k => packet_ok k /\ type k <> kSequenced) ks0 ->
  wires ks0 ++ pending (parser_ c) ++ received ps = wires (map item_packet items) ->
  exists c', poll_all ps c = Ok c' /\ calls_ c' = calls_ c ++ responses items.
Proof.
  intros Hne Hf Hp Hok Hk0 Hr.
  assert (Forall packet_ok (map item_packet items)) as Hks.
  { apply Forall_map. eapply Forall_impl; [exact Hok|]. intros i Hi. by apply item_packet_ok. }
  assert (Forall is_byte (received ps)) as Hb%received_bytes.
  { pose proof (wires_bytes _ Hks) as H. rewrite <- Hr in H. by apply Forall_app in H as [_ [_ H]%Forall_app]. }
  destruct (poll_all_starts ps c Hne Hf Hp Hb) as (c' & ks & mss & -> & Hc & K1 & K2 & Hs & Hi).
  exists c'. split; [done|]. rewrite Hc. f_equal. rewrite Hs, app_assoc in Hr.
  assert (wires ks0 ++ wires ks = wires (ks0 ++ ks)) as E by (unfold wires; by rewrite map_app, concat_app).
  rewrite E in Hr.
  apply wires_inj in Hr as [Hall _]; [|apply Forall_app; split; [|done]|done|done].
  2:{ eapply Forall_impl; [exact Hk0|]. by intros k [? _]. }
  rewrite <- (items_heard items (map (fun _ => []) ks0 ++ mss) Hok).
  - rewrite concat_app. clear. induction ks0; [done|]. done.
  - rewrite <- Hall. apply Forall2_app; [|done]. clear -Hk0.
    induction Hk0 as [|k ks [_ Hk] _ IH]; [constructor|]. constructor; [by apply hears_other|done].
Qed.

(** Any pieces, any number of polls. *)
Lemma polls_deliver items ps c :
  0 <= fd_ c -> parser_ok (parser_ c) -> pending (parser_ c) = [] ->
  Forall item_ok items -> received ps = wires (map item_packet items) ->
  exists c', poll_all ps c = Ok c' /\ calls_ c' = calls_ c ++ responses items.
Proof.
  intros Hf Hp Hn Hok Hr.
  assert (Forall packet_ok (map item_packet items)) as Hks.
  { apply Forall_map. eapply Forall_impl; [exact Hok|]. intros i Hi. by apply item_packet_ok. }
  assert (Forall (fun p => Forall (Forall is_byte) (p_recvs p)) ps) as Hb
    by (apply received_bytes; rewrite Hr; by apply wires_bytes).
  destruct (poll_all_spec ps c Hf Hp) as (c' & ks & mss & -> & Hc & K1 & K2 & Hs & Hi);
    [rewrite Hn; apply incomplete_nil|done|].
  rewrite Hn, Hr in Hs. cbn [app] in Hs. symmetry in Hs. apply wires_inj in Hs as [-> _]; [|done|done|done].
  exists c'. split; [done|]. by rewrite Hc, (items_heard items mss Hok K2).
Qed.

(** From the engine's response to the client's handler. A connected client
    that is sent responses, mixed with heartbeats and other packets, and reads
    them in any pieces over any number of polls, calls its handler exactly once
    for each response, in order and with the fields the engine filled in. *)
Theorem responses_reach_handler items ps c :
  0 <= fd_ c -> parser_ok (parser_ c) -> pending (parser_ c) = [] ->
  Forall item_ok items -> received ps = wires (map item_packet items) ->
  exists c', poll_all ps c = Ok c' /\ calls_ c' = calls_ c ++ responses items.
Proof. apply polls_deliver. Qed.

Definition demo_items : list Item :=
  [Other (mkPacket kServerHeartbeat []); Response (rsp_msg demo_reject)].

Lemma responses_reach_handler_witness :
  exists c', poll_all [mkPoll [take 5 (wires (map item_packet demo_items))] 0 0 0;
      mkPoll [[]; drop 5 (wires (map item_packet demo_items))] (2 * 10 ^ 9) 3 (2 * 10 ^ 9)]
      (set_fd 3 new_client) = Ok c' /\
    calls_ c' = [] ++ responses demo_items.
Proof.
  apply (responses_reach_handler demo_items _ (set_fd 3 new_client)).
  - cbn. lia.
  - apply new_parser_ok.
  - reflexivity.
  - constructor; [split; [split_and!; [by vm_compute|done|done]|by vm_compute]|].
    constructor; [|done]. apply rejected_ok; [unfold fits; lia|done|concrete_bytes|by vm_compute].
  - unfold received. cbn [map concat p_recvs]. rewrite !app_nil_r. cbn [app]. apply take_drop.
Defined.
End ClientPaths.
