(* ===== verification/EngineResponses.v ===== *)
(** Every response of the engine fits its OUCH layout, so that the gateway can
    send it. *)

From S2P Require Import Prelude StdMap Endian BookTypes BookSpec BookReplay Wire Symbols Ouch LadderBook LadderInv BookClaims EngineBook Engine EngineInv EngineRuns MarketReplay EngineFeed EngineClaims Soup SoupSession Gateway GatewaySession GatewayInv GatewayRuns.
From Stdlib Require Import Ascii.

Module EngineResponses.
Import Engine GatewaySession GatewayRuns.

(** The reply of the gateway itself to an order over the risk caps. *)
Definition is_risk (m : ResponseMsg) : bool :=
  match m with RRejected r => Ouch.rj_reason r =? chr "R" | _ => false end.

(** [C] is the set of clients that have sent a command. *)
Section Fit.
Context {B : Type} `{EngineBook B} (C : Z -> Prop).
Implicit Types (e : Engine B).

Definition reply_ok (r : ClientResponse) : Prop :=
  response_ok (rsp_msg r) /\ is_risk (rsp_msg r) = false /\ C (rsp_client_id r).

Definition info_ok (i : OrderInfo) : Prop :=
  C (i_client_id i) /\ (length (i_token i) = 14%nat /\ Forall is_byte (i_token i)) /\
  (length (i_symbol i) = 8%nat /\ Forall is_byte (i_symbol i)) /\ side_ok (i_side i).

Record fitting e : Prop := {
  ft_out : Forall reply_ok (to_gateway_ e);
  ft_info : forall id i, orders_ e !! id = Some i -> info_ok i;
  ft_now : fits 64 (now_ e);
  ft_next : fits 64 (next_ref_ e) }.

(** A step that sends fitting responses and keeps or removes orders. *)
Lemma fitting_step e e' rs :
  fitting e -> to_gateway_ e' = to_gateway_ e ++ rs -> Forall reply_ok rs ->
  (forall id i, orders_ e' !! id = Some i -> info_ok i) -> now_ e' = now_ e ->
  fits 64 (next_ref_ e') -> fitting e'.
Proof.
  intros [H1 H2 H3 H4] Eg Hrs Ho En Hn. split; [|done|by rewrite En|done].
  rewrite Eg. by apply Forall_app.
Qed.

Lemma fitting_same e e' :
  fitting e -> to_gateway_ e' = to_gateway_ e -> orders_ e' = orders_ e -> now_ e' = now_ e ->
  next_ref_ e' = next_ref_ e -> fitting e'.
Proof.
  intros Hf Eg Eo En Ex. apply (fitting_step e e' []); [done|by rewrite app_nil_r|done| |done|rewrite Ex; apply Hf].
  rewrite Eo. apply Hf.
Qed.

Lemma fitting_push e c m :
  fitting e -> C c -> response_ok m -> is_risk m = false -> fitting (push_gateway c m e).
Proof.
  intros Hf Hc Hm Hr. apply (fitting_step e _ [mkResponse c m]); [done|done| |apply Hf|done|apply Hf].
  constructor; [by split_and!|done].
Qed.

Lemma char_ok c : is_byte c -> fits (8 * Z.of_nat 1) c.
Proof. done. Qed.

(** The fields of a layout, one by one. *)
#[local] Ltac layout :=
  cbn; repeat match goal with |- _ /\ _ => split end;
  first [assumption | done | apply char_ok; assumption | idtac].

Lemma executed_ok now token q px liq m :
  fits 64 now -> length token = 14%nat -> Forall is_byte token -> fits 32 q -> fits 32 px ->
  is_byte liq -> fits 64 m -> f_ok Ouch.Executed_body (Ouch.mkExecuted now token q px liq m).
Proof. unfold Ouch.Executed_body. fmt_simpl. intros. layout. Qed.

Lemma canceled_ok now token q reason :
  fits 64 now -> length token = 14%nat -> Forall is_byte token -> fits 32 q -> is_byte reason ->
  f_ok Ouch.Canceled_body (Ouch.mkCanceled now token q reason).
Proof. unfold Ouch.Canceled_body. fmt_simpl. intros. layout. Qed.

Lemma notify_fitting id liq x e :
  fitting e -> fits 32 (ex_qty x) -> fits 64 (ex_match_id x) -> fits 32 (ex_price x) -> is_byte liq ->
  fitting (notify id liq x e).
Proof.
  intros Hf Hq Hm Hp Hl. unfold notify. destruct (orders_ e !! id) as [i|] eqn:Ho; [|done].
  destruct (ft_info _ Hf id i Ho) as (Hc & (Ht & Hb) & _). apply fitting_push; [done|done| |done].
  apply executed_ok; try done. apply Hf.
Qed.

Lemma reduce_open_fitting id n e : fitting e -> fitting (reduce_open id n e).
Proof.
  intros Hf. unfold reduce_open. destruct (orders_ e !! id) as [i|] eqn:Ho; [|done]. cbv zeta.
  pose proof (ft_info _ Hf id i Ho) as Hi.
  assert (forall e', to_gateway_ e' = to_gateway_ e -> now_ e' = now_ e -> next_ref_ e' = next_ref_ e ->
    (forall j k, orders_ e' !! j = Some k -> info_ok k) -> fitting e') as Hstep.
  { intros e' Eg En Ex Hk. apply (fitting_step e e' []); try done; [by rewrite app_nil_r|].
    rewrite Ex. apply Hf. }
  assert (forall j k, <[id := set_open (u32 (i_open i - n)) i]> (orders_ e) !! j = Some k -> info_ok k) as Hins.
  { intros j k [[<- <-]|[_ Hk]]%lookup_insert_Some; [exact Hi|by apply (ft_info _ Hf j)]. }
  destruct (_ =? 0); apply Hstep; try done. cbn [orders_ set_orders set_live]. intros j k [_ Hk]%lookup_delete_Some. by apply (Hins j).
Qed.

Lemma on_event_fitting e ev : fitting e -> ev_fits ev -> fitting (on_event e ev).
Proof.
  intros Hf Hev.
  assert (fitting (push_feed ev e)) as Hp by by apply (fitting_same e).
  destruct ev as [x|x|x|x]; cbn [on_event ev_fits] in *; [done| | |done].
  - destruct Hev as (_ & Hq & Hm & Hx). unfold handle_executed. cbv zeta.
    apply reduce_open_fitting, reduce_open_fitting.
    apply notify_fitting; try done. by apply notify_fitting.
  - destruct Hev as [_ Hq]. unfold handle_canceled. cbv zeta. set (e0 := push_feed _ e) in *.
    set (e1 := if negb (suppress_ouch_cancel_ e0) then _ else _).
    assert (fitting e1) as H1.
    { unfold e1. destruct (negb _); [|done]. destruct (orders_ e0 !! ca_id x) as [i|] eqn:Ho; [|done].
      destruct (ft_info _ Hp _ i Ho) as (Hc & (Ht & Hb) & _). apply fitting_push; [done|done| |done].
      apply canceled_ok; try done. apply Hp. }
    destruct (ca_removed x); [by apply reduce_open_fitting|].
    destruct (orders_ e1 !! ca_id x) as [i|] eqn:Ho; [|done].
    apply (fitting_step e1 _ []); [done|by rewrite app_nil_r|done| |done|apply H1].
    cbn [orders_ set_orders]. intros j k [[<- <-]|[_ Hk]]%lookup_insert_Some; [|by apply (ft_info _ H1 j)].
    exact (ft_info _ H1 _ i Ho).
Qed.

(** Every listener call is published. *)
Lemma reduce_open_feed id n e : to_feed_ (reduce_open id n e) = to_feed_ e.
Proof. unfold reduce_open. cbv zeta. by repeat case_match. Qed.

Lemma notify_feed id liq x e : to_feed_ (notify id liq x e) = to_feed_ e.
Proof. unfold notify. by destruct (orders_ e !! id). Qed.

Lemma on_event_feed e ev : exists m, me_ev m = ev /\ to_feed_ (on_event e ev) = to_feed_ e ++ [m].
Proof.
  exists (mkMarket (now_ e) (current_symbol_ e) ev). split; [done|].
  destruct ev as [x|x|x|x]; cbn [on_event]; [done| | |done].
  - unfold handle_executed. cbv zeta. by rewrite !reduce_open_feed, !notify_feed.
  - unfold handle_canceled. cbv zeta. set (e0 := push_feed _ e).
    set (e1 := if negb (suppress_ouch_cancel_ e0) then _ else _).
    change (_ ++ _) with (to_feed_ e0).
    assert (to_feed_ e1 = to_feed_ e0) as <- by (unfold e1; by repeat case_match).
    destruct (ca_removed x); [by rewrite reduce_open_feed|]. by destruct (orders_ e1 !! ca_id x).
Qed.

Definition feed_fits e : Prop := Forall (fun m => ev_fits (me_ev m)) (to_feed_ e).

Lemma on_events_feed evs : forall e, exists ms, to_feed_ (fold_left on_event evs e) = to_feed_ e ++ ms.
Proof.
  induction evs as [|ev evs IH]; intros e; cbn [fold_left]; [exists []; by rewrite app_nil_r|].
  destruct (on_event_feed e ev) as (m & _ & E). destruct (IH (on_event e ev)) as [ms Ems].
  exists (m :: ms). by rewrite Ems, E, <- app_assoc.
Qed.

Lemma on_events_fitting evs : forall e,
  fitting e -> feed_fits (fold_left on_event evs e) -> fitting (fold_left on_event evs e).
Proof.
  induction evs as [|ev evs IH]; intros e Hf Hfeed; cbn [fold_left] in *; [done|].
  apply IH; [|done]. apply on_event_fitting; [done|].
  destruct (on_event_feed e ev) as (m & <- & E). destruct (on_events_feed evs (on_event e (me_ev m))) as [ms Ems].
  unfold feed_fits in Hfeed. rewrite Ems, E in Hfeed. apply Forall_app in Hfeed as [[_ Hm]%Forall_app _].
  by inversion Hm.
Qed.

Lemma call_book_fitting {R} sym (op : B -> option (R * B)) b e r e' :
  call_book sym op b e = Some (r, e') -> fitting e -> feed_fits e' -> fitting e'.
Proof.
  unfold call_book. intros ([r0 b'] & _ & [= <- <-])%bind_Some Hf Hfeed.
  apply on_events_fitting; [by apply (fitting_same e)|done].
Qed.

Lemma book_for_fitting sym e b e' : book_for sym e = Some (b, e') -> fitting e -> fitting e'.
Proof.
  unfold book_for. destruct (books_ e !! sym); [by intros [= <- <-]|].
  intros (b0 & _ & [= <- <-])%bind_Some Hf. by apply (fitting_same e).
Qed.

Lemma cancel_unrested_fitting c ref tok q reason e :
  fitting e -> C c -> length tok = 14%nat -> Forall is_byte tok -> fits 32 q -> is_byte reason ->
  fitting (cancel_unrested c ref tok q reason e).
Proof.
  intros Hf Hc Hl Hb Hq Hr. unfold cancel_unrested. cbv zeta.
  eapply (fitting_step e _ [mkResponse c (RCanceled _)]); [done|done| | |done|apply Hf].
  - constructor; [|done]. split_and!; [|done|done]. apply canceled_ok; try done. apply Hf.
  - cbn. intros j k [_ Hk]%lookup_delete_Some. by apply (ft_info _ Hf j).
Qed.

Lemma reject_fitting c tok reason e :
  fitting e -> C c -> length tok = 14%nat -> Forall is_byte tok -> is_byte reason -> reason <> chr "R" ->
  fitting (reject c tok reason e).
Proof.
  intros Hf Hc Hl Hb Hr Hn. apply fitting_push; [done|done| |cbn; by apply Z.eqb_neq].
  apply rejected_ok; try done. apply Hf.
Qed.

Lemma accepted_ok m now ref :
  f_ok Ouch.EnterOrder_body m -> fits 64 now -> fits 64 ref ->
  f_ok Ouch.Accepted_body (accepted_of m now ref).
Proof.
  unfold Ouch.EnterOrder_body, Ouch.Accepted_body. fmt_simpl. intros Hm Hn Hr.
  destruct_and! Hm. layout.
Qed.

Lemma replaced_ok m info now ref :
  f_ok Ouch.ReplaceOrder_body m -> info_ok info -> fits 64 now -> fits 64 ref ->
  f_ok Ouch.Replaced_body (replaced_of m info now ref).
Proof.
  unfold Ouch.ReplaceOrder_body, Ouch.Replaced_body, info_ok. fmt_simpl. intros Hm Hi Hn Hr.
  destruct_and! Hm. destruct_and! Hi. layout. concrete_bytes.
Qed.

Lemma enter_info m : f_ok Ouch.EnterOrder_body m ->
  forall c q, C c -> info_ok (mkInfo c (Ouch.eo_token m) (Ouch.eo_stock m) (Ouch.eo_side m) q).
Proof.
  unfold Ouch.EnterOrder_body, info_ok. fmt_simpl. intros Hm c q Hc. destruct_and! Hm. layout.
Qed.

Lemma replace_token m : f_ok Ouch.ReplaceOrder_body m ->
  length (Ouch.ro_replacement_token m) = 14%nat /\ Forall is_byte (Ouch.ro_replacement_token m).
Proof. unfold Ouch.ReplaceOrder_body. fmt_simpl. intros Hm. destruct_and! Hm. done. Qed.

Lemma u64_fits z : fits 64 (u64 z).
Proof. by apply wrap_fits. Qed.

(** ** Handlers *)

Lemma cancel_unrested_feed c ref tok q reason e : to_feed_ (cancel_unrested c ref tok q reason e) = to_feed_ e.
Proof. done. Qed.

Lemma trade_fitting c ref m b e e' :
  trade c ref m b e = Some e' -> f_ok Ouch.EnterOrder_body m -> C c -> fitting e -> feed_fits e' -> fitting e'.
Proof.
  intros Ht Hm Hc Hf Hfeed. destruct (enter_ok m Hm) as (Hq & _).
  destruct (enter_info m Hm c 0 Hc) as (_ & [Hl Hb] & _). cbn [i_token] in *.
  unfold trade in Ht. cbv zeta in Ht. apply bind_Some in Ht as ([enough b1] & _ & Ht).
  assert (fitting (set_books (<[Ouch.eo_stock m := b1]> (books_ e)) e)) as H1 by by apply (fitting_same e).
  destruct enough; cbn [negb] in Ht.
  2: { injection Ht as <-. by apply cancel_unrested_fitting. }
  destruct (is_ioc m).
  - apply bind_Some in Ht as ([filled e2] & Hcb & [= <-]).
    assert (feed_fits e2) as Hfeed2 by (unfold feed_fits in *; by destruct (0 <? _)).
    pose proof (call_book_fitting _ _ _ _ _ _ Hcb H1 Hfeed2) as H2. destruct (0 <? _); [|done].
    apply cancel_unrested_fitting; try done. by apply wrap_fits.
  - apply bind_Some in Ht as ([r e2] & Hcb & [= <-]). by eapply call_book_fitting.
Qed.

Lemma handle_enter_fitting c m e e' :
  handle_enter c m e = Some e' -> f_ok Ouch.EnterOrder_body m -> C c -> fitting e -> feed_fits e' -> fitting e'.
Proof.
  intros Hh Hm Hc Hf Hfeed. destruct (enter_info m Hm c 0 Hc) as (_ & [Hl Hb] & _). cbn [i_token] in *.
  assert (forall r, is_byte r -> r <> chr "R" -> fitting (reject c (Ouch.eo_token m) r e)) as Hrej
    by (intros r Hr Hn; by apply reject_fitting).
  unfold handle_enter in Hh. cbv zeta in Hh.
  destruct (token_used _ _ _); [injection Hh as <-; by apply Hrej|].
  destruct (_ && _); [injection Hh as <-; by apply Hrej|].
  destruct (_ =? _); [injection Hh as <-; by apply Hrej|].
  destruct (_ && _); [injection Hh as <-; by apply Hrej|].
  apply bind_Some in Hh as ([b e2] & Hbk & Ht). refine (trade_fitting _ _ _ _ _ _ Ht Hm Hc _ Hfeed).
  refine (book_for_fitting _ _ _ _ Hbk _).
  eapply (fitting_step e _ [mkResponse c (RAccepted _)]); [done|done| | |done|apply u64_fits].
  - constructor; [|done]. split_and!; [|done|done]. apply accepted_ok; [done|apply Hf|apply Hf].
  - cbn. intros j k [[<- <-]|[_ Hk]]%lookup_insert_Some; [by apply enter_info|by apply (ft_info _ Hf j)].
Qed.

Lemma handle_cancel_fitting c m e e' :
  handle_cancel c m e = Some e' -> fitting e -> feed_fits e' -> fitting e'.
Proof.
  unfold handle_cancel. intros Hh Hf Hfeed. destruct (live_tokens_ e !! _); [|by injection Hh as <-].
  destruct (orders_ e !! _) as [info|]; [|by injection Hh as <-]. cbv zeta in Hh.
  apply bind_Some in Hh as ([b e2] & Hbk & Ht). apply bind_Some in Ht as ([r e3] & Hc & [= <-]).
  refine (call_book_fitting _ _ _ _ _ _ Hc _ Hfeed). refine (book_for_fitting _ _ _ _ Hbk _).
  by apply (fitting_same e).
Qed.

Lemma handle_replace_fitting c m e e' :
  handle_replace c m e = Some e' -> f_ok Ouch.ReplaceOrder_body m -> C c -> fitting e -> feed_fits e' -> fitting e'.
Proof.
  unfold handle_replace. intros Hh Hm HC Hf Hfeed. destruct (live_tokens_ e !! _); [|by injection Hh as <-].
  destruct (token_used _ _ _); [by injection Hh as <-|]. destruct (_ || _); [by injection Hh as <-|].
  destruct (orders_ e !! _) as [info|] eqn:Ho; [|by injection Hh as <-]. cbv zeta in Hh.
  pose proof (ft_info _ Hf _ _ Ho) as Hi. destruct (replace_token m Hm) as [Hl Hb].
  apply bind_Some in Hh as ([b e2] & Hbk & Ht). apply bind_Some in Ht as ([r e3] & Hc & [= <-]).
  apply (fitting_same e3); try done.
  refine (call_book_fitting _ _ _ _ _ _ Hc _ Hfeed). refine (book_for_fitting _ _ _ _ Hbk _).
  unfold swap_order. cbv zeta.
  eapply (fitting_step e _ [mkResponse c (RReplaced _)]); [done|done| | |done|apply u64_fits].
  - constructor; [|done]. split_and!; [|done|done]. apply replaced_ok; [done|done|apply Hf|apply Hf].
  - cbn. intros j k [[<- <-]|[_ [_ Hk]%lookup_delete_Some]]%lookup_insert_Some; [|by apply (ft_info _ Hf j)].
    destruct Hi as (_ & _ & H2 & H3). done.
Qed.

Lemma process_fitting now cmd e e' :
  process now cmd e = Some e' -> command_ok cmd -> C (cmd_client_id cmd) -> fits 64 now ->
  fitting e -> feed_fits e' -> fitting e'.
Proof.
  intros Hp Hc HC Hn [H1 H2 H3 H4] Hfeed. assert (fitting (set_now now e)) as Hf by done.
  unfold process, handle, command_ok in *. destruct (cmd_msg cmd).
  - by eapply handle_enter_fitting.
  - by eapply handle_cancel_fitting.
  - by eapply handle_replace_fitting.
Qed.
End Fit.

(** ** Both queues only grow *)

Section Queues.
Context {B : Type} `{EngineBook B}.
Implicit Types (e : Engine B).

Definition feeds e e' : Prop := to_feed_ e `prefix_of` to_feed_ e'.

Lemma feeds_same e e' : to_feed_ e' = to_feed_ e -> feeds e e'.
Proof. unfold feeds. by intros ->. Qed.

Lemma call_book_feeds {R} sym (op : B -> option (R * B)) b e r e' :
  call_book sym op b e = Some (r, e') -> feeds e e'.
Proof.
  unfold call_book. intros ([r0 b'] & _ & [= <- <-])%bind_Some.
  destruct (on_events_feed (drop (length (eb_log b)) (eb_log b')) (set_books (<[sym:=b']> (books_ e)) e))
    as [ms E]. by exists ms.
Qed.

Lemma book_for_feeds sym e b e' : book_for sym e = Some (b, e') -> feeds e e'.
Proof.
  unfold book_for. destruct (books_ e !! sym); [intros [= <- <-]; by apply feeds_same|].
  intros (b0 & _ & [= <- <-])%bind_Some. by apply feeds_same.
Qed.

Lemma trade_feeds c ref m b e e' : trade c ref m b e = Some e' -> feeds e e'.
Proof.
  unfold trade. cbv zeta. intros ([enough b1] & _ & Hr)%bind_Some.
  destruct enough; cbn [negb] in Hr; [|injection Hr as <-; by apply feeds_same]. destruct (is_ioc m).
  - apply bind_Some in Hr as ([filled e2] & Hc%call_book_feeds & [= <-]). by destruct (0 <? _).
  - by apply bind_Some in Hr as ([x e2] & Hc%call_book_feeds & [= <-]).
Qed.

Lemma process_feeds now cmd e e' : process now cmd e = Some e' -> feeds e e'.
Proof.
  unfold process, handle. destruct (cmd_msg cmd) as [m|m|m].
  - unfold handle_enter. cbv zeta. destruct (token_used _ _ _); [intros [= <-]; by apply feeds_same|].
    destruct (_ && _); [intros [= <-]; by apply feeds_same|]. destruct (_ =? 0); [intros [= <-]; by apply feeds_same|].
    destruct (_ && _); [intros [= <-]; by apply feeds_same|].
    intros ([b e1] & Hb%book_for_feeds & Ht%trade_feeds)%bind_Some. unfold feeds in *. by etrans.
  - unfold handle_cancel. destruct (live_tokens_ _ !! _); [|intros [= <-]; by apply feeds_same].
    destruct (orders_ _ !! _); [|intros [= <-]; by apply feeds_same]. cbv zeta.
    intros ([b e1] & Hb%book_for_feeds & ([x e2] & Hc%call_book_feeds & [= <-])%bind_Some)%bind_Some. unfold feeds in *. by etrans.
  - unfold handle_replace. destruct (live_tokens_ _ !! _); [|intros [= <-]; by apply feeds_same].
    destruct (token_used _ _ _); [intros [= <-]; by apply feeds_same|]. destruct (_ || _); [intros [= <-]; by apply feeds_same|].
    destruct (orders_ _ !! _); [|intros [= <-]; by apply feeds_same]. cbv zeta.
    intros ([b e1] & Hb%book_for_feeds & ([x e2] & Hc%call_book_feeds & [= <-])%bind_Some)%bind_Some. unfold feeds in *. by etrans.
Qed.

Lemma process_replies now cmd e e' :
  process now cmd e = Some e' -> to_gateway_ e `prefix_of` to_gateway_ e'.
Proof.
  unfold process, handle. destruct (cmd_msg cmd) as [m|m|m]; intros Hp.
  - apply handle_enter_responses in Hp. destruct (refusal _ m); [rewrite Hp|destruct Hp as (rs & -> & _)];
      by eexists.
  - apply handle_cancel_quiet in Hp as [(rs & -> & _) _ _]. by eexists.
  - apply handle_replace_responses in Hp as [->|(old & info & rs & _ & _ & _ & -> & _)]; [done|by eexists].
Qed.
End Queues.

(** ** Runs *)

Lemma market_fits f ms g : market f ms g -> Forall (fun m => ev_fits (me_ev m)) ms.
Proof. induction 1 as [|f m ms g [] _ IH]; by constructor. Qed.

Section Runs.
Context {B : Type} `{EngineBookLaws B} (C : Z -> Prop).
Implicit Types (e : Engine B) (S : Books).

Lemma process_all_fitting cmds : forall e S,
  run_inv e S -> room_for (lengthZ cmds) e -> Forall (fun c => command_ok c.2) cmds ->
  Forall (fun c => fits 64 c.1) cmds -> Forall (fun c => C (cmd_client_id c.2)) cmds ->
  fitting C e -> feed_fits e ->
  exists e', process_all cmds e = Some e' /\ fitting C e'.
Proof.
  induction cmds as [|[now cmd] cmds IH]; intros e S Hr Hroom Hok Hnow HC Hf Hfeed; cbn [process_all].
  { by exists e. }
  apply Forall_cons in HC as [HC0 HC].
  apply Forall_cons in Hok as [Hc Hok]. apply Forall_cons in Hnow as [Hn Hnow]. destruct Hroom as [Hr1 Hr2].
  assert (lengthZ ((now, cmd) :: cmds) = lengthZ cmds + 1) as Hl
    by (unfold lengthZ; cbn [length]; lia).
  pose proof (lengthZ_nonneg cmds).
  destruct (process_market now cmd e S) as (e1 & S1 & ms1 & Hp & Hr' & Hf1 & _ & Hm1 & Hn1); try done.
  { split; [lia|]. destruct eb_capacity; [lia|done]. }
  assert (feed_fits e1) as Hfeed1.
  { unfold feed_fits. rewrite Hf1. apply Forall_app. split; [done|by eapply market_fits]. }
  rewrite Hp, obind_Some. apply (IH e1 S1); try done.
  - split; [lia|]. destruct eb_capacity; [lia|done].
  - by eapply process_fitting.
Qed.
End Runs.

(** Every response of a session fits its message, is not a risk reply, and is
    for a client that sent a command. *)
Definition client_of (cmds : list (Z * Command)) (c : Z) : Prop := c ∈ map (fun x => cmd_client_id x.2) cmds.

Lemma engine_replies_ok cmds e :
  session_ok cmds -> Forall (fun c => fits 64 c.1) cmds -> engine_run cmds = Some e ->
  Forall (reply_ok (client_of cmds)) (to_gateway_ e).
Proof.
  intros [Hok Hn] Hnow He.
  destruct (@process_all_fitting Fast _ (fast_engine_book_laws default_cfg default_cfg_ok)
    (client_of cmds) cmds (@init Fast) ∅) as (e' & He' & Hf).
  - apply init_run_inv.
  - unfold room_for. cbn [next_ref_ init eb_capacity fast_engine_book_laws]. unfold FastBook.kNil. lia.
  - done.
  - done.
  - apply Forall_forall. intros x Hx. unfold client_of. apply list_elem_of_fmap. eauto.
  - split; [done| |unfold fits; cbn; lia..]. intros id i. cbn [orders_ init]. by rewrite lookup_empty.
  - by constructor.
  - unfold engine_run in He. rewrite He' in He. injection He as <-. apply Hf.
Qed.

Lemma engine_responses_ok cmds e :
  session_ok cmds -> Forall (fun c => fits 64 c.1) cmds -> engine_run cmds = Some e ->
  Forall (fun r => response_ok (rsp_msg r)) (to_gateway_ e).
Proof.
  intros H1 H2 H3. eapply Forall_impl; [by apply (engine_replies_ok cmds e)|]. by intros r [Hr _].
Qed.
End EngineResponses.
