(* ===== verification/Service.v ===== *)
(** Responses from the client's side: which of them are for it, and what it can
    tell of its orders from them; that everything the engine puts out can be
    encoded without loss; and a gateway with a client that logged in and sent an
    order. *)

From S2P Require Import Prelude StdMap Endian BookTypes BookSpec Wire Symbols Ouch LadderBook EngineBook Engine EngineInv EngineRuns EngineClaims Itch Feed FeedRefines EndToEnd Soup SoupSession Gateway GatewaySession GatewayInv GatewayRuns Client ClientPaths EngineResponses Channel.
From Stdlib Require Import Ascii.

Module Service.
Import Engine Soup SoupSession Gateway GatewaySession GatewayInv GatewayRuns Client ClientPaths EngineResponses.

(** The messages among the responses that are for a client. *)
Definition messages_for (id : Z) (rs : list ClientResponse) : list ResponseMsg :=
  omap (fun r => if rsp_client_id r =? id then Some (rsp_msg r) else None) rs.

(** What a client concludes from the calls of its handler. *)
Definition own_view (id : Z) (ms : list ResponseMsg) : View := EngineInv.view (map (mkResponse id) ms).

(** [view] looks at the responses of one client at a time. *)
Lemma view_step_own id r v w :
  rsp_client_id r = id -> (forall t, v !! (id, t) = w !! (id, t)) ->
  forall t, view_step v r !! (id, t) = view_step w r !! (id, t).
Proof.
  intros <- Hvw t. destruct r as [c [m|m|m|m|m|m]]; unfold view_step; cbn [rsp_client_id rsp_msg] in *;
    try done.
  - destruct (decide (token_str (Ouch.ac_token m) = t)) as [<-|Hn]; [by rewrite !lookup_insert_eq|].
    rewrite !lookup_insert_ne by congruence. done.
  - destruct (decide (token_str (Ouch.xc_token m) = t)) as [<-|Hn]; [by rewrite !lookup_partial_alter_eq, Hvw|].
    rewrite !lookup_partial_alter_ne by congruence. done.
  - destruct (decide (token_str (Ouch.cn_token m) = t)) as [<-|Hn]; [by rewrite !lookup_partial_alter_eq, Hvw|].
    rewrite !lookup_partial_alter_ne by congruence. done.
  - destruct (decide (token_str (Ouch.rp_replacement_token m) = t)) as [<-|Hn]; [by rewrite !lookup_insert_eq|].
    rewrite !lookup_insert_ne by congruence.
    destruct (decide (token_str (Ouch.rp_previous_token m) = t)) as [<-|Hm]; [by rewrite !lookup_delete_eq|].
    rewrite !lookup_delete_ne by congruence. done.
Qed.

Lemma view_step_other id r v : rsp_client_id r <> id -> forall t, view_step v r !! (id, t) = v !! (id, t).
Proof.
  intros Hr t. destruct r as [c [m|m|m|m|m|m]]; unfold view_step; cbn [rsp_client_id rsp_msg] in *;
    rewrite ?lookup_insert_ne, ?lookup_partial_alter_ne, ?lookup_delete_ne by congruence; done.
Qed.

Lemma own_view_run id rs : forall v w,
  (forall t, v !! (id, t) = w !! (id, t)) ->
  forall t, fold_left view_step rs v !! (id, t) =
    fold_left view_step (map (mkResponse id) (messages_for id rs)) w !! (id, t).
Proof.
  induction rs as [|r rs IH]; intros v w Hvw t; [apply Hvw|]. unfold messages_for. cbn [fold_left omap list_omap].
  destruct (Z.eqb_spec (rsp_client_id r) id) as [Hr|Hr]; cbn [map fold_left].
  - apply IH. replace (mkResponse id (rsp_msg r)) with r by (destruct r; cbn in *; congruence).
    by apply view_step_own.
  - apply IH. intros t'. by rewrite view_step_other.
Qed.

Lemma own_view_spec id rs t : own_view id (messages_for id rs) !! (id, t) = EngineInv.view rs !! (id, t).
Proof. symmetry. by apply own_view_run. Qed.

Lemma packets_for_messages id (rs : list (ClientResponse * SendResult)) :
  packets_for id rs = map item_packet (map Response (messages_for id rs.*1)).
Proof.
  induction rs as [|[r x] rs IH]; [done|]. unfold packets_for, messages_for in *.
  cbn [omap list_omap fst fmap list_fmap]. rewrite IH. by destruct (_ =? _).
Qed.

Lemma responses_of_messages ms : responses (map Response ms) = ms.
Proof. induction ms as [|m ms IH]; [done|]. unfold responses in *. cbn. by rewrite IH. Qed.

Lemma messages_for_ok id rs :
  Forall (fun r => response_ok (rsp_msg r)) rs -> Forall item_ok (map Response (messages_for id rs)).
Proof.
  induction 1 as [|r rs Hr _ IH]; [done|]. unfold messages_for in *. cbn [omap list_omap].
  destruct (_ =? _); [by constructor|done].
Qed.

(** Rejections say nothing of resting orders. *)
Lemma own_view_filter id ms : own_view id (filter (fun m => is_risk m = false) ms) = own_view id ms.
Proof.
  unfold own_view, EngineInv.view. generalize (∅ : View). induction ms as [|m ms IH]; intros v; [done|].
  rewrite filter_cons. destruct (decide _) as [|Hr]; [apply IH|]. rewrite IH. cbn [map fold_left].
  by destruct m.
Qed.

(** ** Well-typed output *)

(** The gateway encodes the response, and a client decodes it. *)
Definition response_typed (r : ClientResponse) : Prop := exists data,
  encode_ouch (rsp_msg r) = Ok data /\ Forall is_byte data /\ length data = encoded_size (rsp_msg r) /\
  forall c, dispatch data c = Ok (log_calls [rsp_msg r] c).

(** The feed encodes the event, and a listener decodes it. *)
Definition event_typed (m : MarketEvent) : Prop := forall locate, fits 16 locate -> exists data,
  Feed.to_itch m locate = Ok data /\ Itch.decode data = Ok (Some (Feed.itch_message m locate)).

(** C13: everything the engine puts out has the type of its wire format. In every
    session, each response is for a client that sent a command, and the gateway
    encodes it into a message of the size of its type that the client decodes to
    the same response; each market event becomes, under every locate code, an
    ITCH message that decodes to itself. No field is truncated on the way. *)
Theorem engine_output_well_typed cmds e :
  session_ok cmds -> Forall (fun c => fits 48 c.1) cmds -> engine_run cmds = Some e ->
  Forall (fun r => client_of cmds (rsp_client_id r) /\ response_typed r) (to_gateway_ e) /\
  Forall event_typed (to_feed_ e).
Proof.
  intros Hc Hts He. split.
  - eapply Forall_impl; [apply (engine_replies_ok cmds e Hc); [|done]|].
    { eapply Forall_impl; [exact Hts|]. cbn. intros x Hx. unfold fits in *. lia. }
    intros r (Hr & _ & Hcl). split; [done|]. destruct (encode_ouch_spec _ Hr) as (E & Hb & Hl).
    exists (response_wire (rsp_msg r)). split_and!; [done..|]. intros c. pose proof (hears_response _ Hr c) as Hd.
    unfold hear in Hd. cbn [response_packet type payload] in Hd. rewrite Z.eqb_refl, Hl in Hd.
    by destruct (rsp_msg r).
  - eapply Forall_impl; [by apply (session_encodable cmds)|]. intros m Hm locate Hl.
    exists (Itch.wire (Feed.itch_message m locate)). split; [by apply to_itch_wire|].
    by apply Itch.decode_wire, itch_message_ok.
Qed.

Lemma engine_output_well_typed_witness :
  exists e, engine_run demo_commands = Some e /\
    Forall (fun r => client_of demo_commands (rsp_client_id r) /\ response_typed r) (to_gateway_ e) /\
    Forall event_typed (to_feed_ e).
Proof.
  destruct (demo_published (fun n => n) None) as (e & p & He & _).
  exists e. split; [exact He|]. exact (engine_output_well_typed demo_commands e demo_commands_ok demo_times He).
Defined.

(** ** A login and an order *)

Definition service_order : Order := OEnter [97] Buy [83; 89; 77] 1500000 100.

Definition demo_input : Input :=
  InEvent (OnConn 5 true true [Data (wire GatewaySession.demo_login ++ wire (order_packet service_order))] (Sent 9) (Sent 80)).

Definition trading : Gateway :=
  match handle_input demo_input one_client with Ok g => g | _ => one_client end.

Lemma trading_reachable : reachable zero_clock trading.
Proof.
  apply (reach_input _ demo_input one_client); [apply one_client_reachable| |by vm_compute].
  split; [|by exists 9%nat]. constructor; [|done]. concrete_bytes.
Qed.

End Service.
