(* ===== verification/Exchange.v ===== *)
(** The exchange as one system ([apps/exchanged.cpp]): the gateway, engine and
    feed threads with the queues between them, and the main thread that starts
    them and stops them in order.

    The threads are interleaved freely. A handler of the gateway is one step;
    the commands it pushes reach the engine's channel one by one in steps of
    their own, so the engine may run in between. The engine's thread takes the
    steps of [RunLoop]. The gateway and the feed drain any number of the
    responses and events pushed so far. What the environment promises (see
    [input_ok]; fewer commands than a book's links address; clock readings of
    the 48-bit ITCH field) is part of the steps. *)

From S2P Require Import Prelude StdMap Endian BookTypes BookSpec Wire Symbols Ouch LadderBook EngineBook Engine EngineInv EngineRuns EngineClaims Mold Capture Feed FeedRefines ItchBook ItchBookRefines EndToEnd Soup SoupSession Gateway GatewaySession GatewayInv GatewayRuns Client ClientPaths EngineResponses Channel Service.
From Stdlib Require Import Ascii.

Module Exchange.
Import Engine Soup SoupSession Gateway GatewaySession GatewayInv GatewayRuns Client ClientPaths EngineResponses Service.

(** Where [main] is: serving until a signal, then [gateway.stop()],
    [engine.stop()] (which joins the thread) and [feed.stop()]. *)
Inductive Phase := Serving | GatewayDown | EngineStopping | EngineDown | Done.

(** [delivered] counts the responses the gateway has drained; [drains] is the
    history of the feed's drains. *)
Record Exchange := mkExchange {
  gw : Gateway;
  loop : RunLoop.Run;
  delivered : nat;
  drains : list (list MarketEvent);
  pub : Feed.FeedPublisher;
  phase : Phase }.

Section Threads.
Context (ns_since_midnight : Z -> Z) (sv : bytes) (mtu : Z) (capture : option Capture.CaptureWriter).

Definition start (ll_mode : bool) (clock : nat -> Z) : Exchange :=
  mkExchange (Gateway.start clock) (RunLoop.start ll_mode) 0 [] (Feed.make sv mtu capture) Serving.

Definition engine_of (x : Exchange) : Engine Fast := RunLoop.eng (loop x).

Definition set_gw (g : Gateway) (x : Exchange) : Exchange :=
  mkExchange g (loop x) (delivered x) (drains x) (pub x) (phase x).
Definition set_loop (r : RunLoop.Run) (x : Exchange) : Exchange :=
  mkExchange (gw x) r (delivered x) (drains x) (pub x) (phase x).

(** A command of the gateway enters the channel. *)
Definition pushed (cmd : Command) (c : CommandChannel.Channel Command) (r : RunLoop.Run) : RunLoop.Run :=
  RunLoop.mkRun c (RunLoop.thread r) (RunLoop.eng r) (RunLoop.handled r) (RunLoop.sent r ++ [cmd])
    (RunLoop.mark r).

Definition stop_engine (r : RunLoop.Run) : RunLoop.Run :=
  RunLoop.mkRun (CommandChannel.stop (RunLoop.chan r)) (RunLoop.thread r) (RunLoop.eng r)
    (RunLoop.handled r) (RunLoop.sent r) (Some (default (RunLoop.sent r) (RunLoop.mark r))).

Inductive step (x : Exchange) : Exchange -> Prop :=
  | gateway_input i g : phase x = Serving -> is_wake i = false -> input_ok (gw x) i ->
      handle_input i (gw x) = Ok g -> step x (set_gw g x)
  | gateway_push cmd c : phase x = Serving ->
      to_engine_ (world (gw x)) !! length (RunLoop.sent (loop x)) = Some cmd ->
      CommandChannel.push cmd (RunLoop.chan (loop x)) = Some c ->
      lengthZ (RunLoop.sent (loop x)) + 1 < 2 ^ 32 - 1 ->
      step x (set_loop (pushed cmd c (loop x)) x)
  | gateway_wake rs rest g : phase x = Serving ->
      drop (delivered x) (to_gateway_ (engine_of x)) = rs.*1 ++ rest ->
      pump_responses rs (gw x) = Ok g ->
      step x (mkExchange g (loop x) (delivered x + length rs) (drains x) (pub x) (phase x))
  | engine_runs r : RunLoop.engine_step (loop x) r ->
      Forall (fun c => fits 48 c.1) (RunLoop.handled r) -> step x (set_loop r x)
  | feed_drains evs rest p : phase x <> Done ->
      drop (length (concat (drains x))) (to_feed_ (engine_of x)) = evs ++ rest ->
      Feed.run_loop ns_since_midnight [evs] (pub x) = Ok p ->
      step x (mkExchange (gw x) (loop x) (delivered x) (drains x ++ [evs]) p (phase x))
  | gateway_stops : phase x = Serving -> RunLoop.sent (loop x) = to_engine_ (world (gw x)) ->
      step x (mkExchange (shutdown (gw x)) (loop x) (delivered x) (drains x) (pub x) GatewayDown)
  | engine_stops : phase x = GatewayDown ->
      step x (mkExchange (gw x) (stop_engine (loop x)) (delivered x) (drains x) (pub x) EngineStopping)
  | engine_joins : phase x = EngineStopping -> RunLoop.thread (loop x) = RunLoop.Returned ->
      step x (mkExchange (gw x) (loop x) (delivered x) (drains x) (pub x) EngineDown)
  | feed_stops last p : phase x = EngineDown ->
      concat (drains x) ++ last = to_feed_ (engine_of x) ->
      Feed.run ns_since_midnight [] last (pub x) = Ok p ->
      step x (mkExchange (gw x) (loop x) (delivered x) (drains x) p Done).

Definition reachable (ll_mode : bool) (clock : nat -> Z) (x : Exchange) : Prop :=
  rtc step (start ll_mode clock) x.

(** ** The invariant *)

(** The stream of a connection carries the first [n] responses of the engine
    that are for it, in order, among packets of the gateway's own. *)
Definition informed (g : Gateway) (e : Engine Fast) (n : nat) (id : Z) : Prop :=
  exists items, Forall item_ok items /\ stream_of g id = wires (map item_packet items) /\
    filter (fun m => is_risk m = false) (responses items) = messages_for id (take n (to_gateway_ e)).

Definition feed_ok (x : Exchange) : Prop :=
  match phase x with
  | Done => exists last, concat (drains x) ++ last = to_feed_ (engine_of x) /\
      Feed.run ns_since_midnight (drains x) last (Feed.make sv mtu capture) = Ok (pub x)
  | _ => concat (drains x) `prefix_of` to_feed_ (engine_of x) /\
      Feed.run_loop ns_since_midnight (drains x) (Feed.make sv mtu capture) = Ok (pub x)
  end.

(** How far the shutdown is. *)
Definition stage_ok (x : Exchange) : Prop :=
  match phase x with
  | Serving => RunLoop.mark (loop x) = None
  | GatewayDown => RunLoop.mark (loop x) = None /\ RunLoop.sent (loop x) = to_engine_ (world (gw x))
  | EngineStopping => RunLoop.mark (loop x) = Some (RunLoop.sent (loop x)) /\
      RunLoop.sent (loop x) = to_engine_ (world (gw x))
  | EngineDown | Done => RunLoop.mark (loop x) = Some (RunLoop.sent (loop x)) /\
      RunLoop.sent (loop x) = to_engine_ (world (gw x)) /\
      RunLoop.thread (loop x) = RunLoop.Returned
  end.

Record xinv (ll_mode : bool) (x : Exchange) : Prop := {
  xi_run : exists q, RunLoop.run_ok ll_mode q (loop x);
  xi_gw : phase x = Serving -> ginv (gw x);
  xi_commands : Forall command_ok (to_engine_ (world (gw x)));
  xi_sent : RunLoop.sent (loop x) `prefix_of` to_engine_ (world (gw x));
  xi_room : lengthZ (RunLoop.sent (loop x)) < 2 ^ 32 - 1;
  xi_clock : Forall (fun c => fits 48 c.1) (RunLoop.handled (loop x));
  xi_delivered : (delivered x <= length (to_gateway_ (engine_of x)))%nat;
  xi_streams : phase x = Serving -> forall id, is_Some (conns_ (gw x) !! id) ->
    informed (gw x) (engine_of x) (delivered x) id;
  xi_feed : feed_ok x;
  xi_stage : stage_ok x }.

Lemma gateway_commands_ok g : ginv g -> Forall command_ok (to_engine_ (world g)).
Proof. intros Hg. eapply Forall_impl; [apply (gi_commands _ Hg)|]. by intros c (_ & Hc & _). Qed.

Lemma start_xinv ll_mode clock : (forall n, fits 64 (clock n)) -> xinv ll_mode (start ll_mode clock).
Proof.
  intros Hc. split; try done.
  - exists []. apply RunLoop.start_ok.
  - intros _. by apply gateway_start_inv.
  - intros _ id. cbn. rewrite lookup_empty. by intros [].
Qed.

(** The commands processed make a session, and the replies to them are for
    clients of the gateway. *)
Lemma handled_session ll_mode x : xinv ll_mode x -> session_ok (RunLoop.handled (loop x)).
Proof.
  intros Hx. destruct (xi_run _ _ Hx) as [q Hr].
  apply (RunLoop.prefix_session _ (RunLoop.sent (loop x))); [| |apply Hx].
  2:{ pose proof (xi_commands _ _ Hx) as Hc. destruct (xi_sent _ _ Hx) as [k E]. rewrite E in Hc.
      by apply Forall_app in Hc as [Hc _]. }
  rewrite <- (RunLoop.ok_order _ _ _ Hr). by apply prefix_app_r.
Qed.

Lemma handled_run ll_mode x : xinv ll_mode x -> engine_run (RunLoop.handled (loop x)) = Some (engine_of x).
Proof. intros Hx. destruct (xi_run _ _ Hx) as [q Hr]. apply Hr. Qed.

Lemma fits_48_64 (cmds : list (Z * Command)) :
  Forall (fun c => fits 48 c.1) cmds -> Forall (fun c => fits 64 c.1) cmds.
Proof. intros H. eapply Forall_impl; [exact H|]. unfold fits. intros c. lia. Qed.

Lemma replies_ok ll_mode x :
  xinv ll_mode x ->
  Forall (reply_ok (client_of (RunLoop.handled (loop x)))) (to_gateway_ (engine_of x)).
Proof.
  intros Hx. apply engine_replies_ok; [by eapply handled_session|apply fits_48_64, Hx|by eapply handled_run].
Qed.

Lemma handled_known ll_mode x id :
  xinv ll_mode x -> phase x = Serving -> client_of (RunLoop.handled (loop x)) id ->
  id < next_client_id_ (gw x).
Proof.
  intros Hx Hp Hid. destruct (xi_run _ _ Hx) as [q Hr]. pose proof (xi_gw _ _ Hx Hp) as Hg.
  unfold client_of in Hid. apply list_elem_of_fmap in Hid as (c & -> & Hc).
  pose proof (gi_commands _ Hg) as Hcm. rewrite Forall_forall in Hcm.
  destruct (Hcm c.2) as ((_ & H) & _); [|done].
  destruct (xi_sent _ _ Hx) as [k E]. rewrite E. apply elem_of_app. left.
  rewrite <- (RunLoop.ok_order _ _ _ Hr). apply elem_of_app. left. by apply list_elem_of_fmap_2.
Qed.

Lemma no_messages id rs :
  Forall (fun r => rsp_client_id r <> id) rs -> messages_for id rs = [].
Proof.
  induction 1 as [|r rs Hr _ IH]; [done|]. unfold messages_for in *. cbn [omap list_omap].
  by rewrite (proj2 (Z.eqb_neq _ _) Hr).
Qed.

Lemma new_client_silent ll_mode x id :
  xinv ll_mode x -> phase x = Serving -> next_client_id_ (gw x) <= id ->
  messages_for id (take (delivered x) (to_gateway_ (engine_of x))) = [].
Proof.
  intros Hx Hp Hid. apply no_messages, Forall_take. eapply Forall_impl; [by eapply replies_ok|].
  intros r (_ & _ & Hr) E. rewrite E in Hr. pose proof (handled_known _ _ _ Hx Hp Hr). lia.
Qed.

(** ** Steps *)

Lemma gateway_items ks :
  Forall gateway_packet ks ->
  exists items, ks = map item_packet items /\ Forall item_ok items /\
    filter (fun m => is_risk m = false) (responses items) = [].
Proof.
  induction 1 as [|k ks [Hk Hc] _ (items & -> & Hok & Hf)]; [by exists []|].
  destruct Hc as [Ht|(ts & token & H1 & H2 & H3 & ->)].
  - exists (Other k :: items). split_and!; [done|by constructor|done].
  - exists (Response (RRejected (Ouch.mkRejected ts token (chr "R"))) :: items).
    split_and!; [done| |done]. constructor; [|done]. apply rejected_ok; [done..|by vm_compute].
Qed.

Lemma responses_app items js : responses (items ++ js) = responses items ++ responses js.
Proof. apply omap_app. Qed.

Lemma informed_grows ll_mode x g id :
  xinv ll_mode x -> phase x = Serving -> grows (gw x) g -> is_Some (conns_ g !! id) ->
  informed g (engine_of x) (delivered x) id.
Proof.
  intros Hx Hp Hgr Hid. destruct (gr_stream _ _ Hgr id Hid) as [Hold (ks & Hks & Hst)].
  destruct (gateway_items ks Hks) as (js & -> & Hjs & Hfj).
  assert (informed (gw x) (engine_of x) (delivered x) id) as (items & Hok & Hs & Hf).
  { destruct Hold as [Hold|Hnew]; [by apply Hx|]. exists []. split_and!; [done| |].
    - rewrite stream_unused; [done|by apply Hx|done].
    - by rewrite (new_client_silent ll_mode). }
  exists (items ++ js). split_and!; [by apply Forall_app| |].
  - by rewrite Hst, Hs, map_app, wires_app.
  - by rewrite responses_app, filter_app, Hf, Hfj, app_nil_r.
Qed.

Lemma messages_for_app id rs rs' : messages_for id (rs ++ rs') = messages_for id rs ++ messages_for id rs'.
Proof. apply omap_app. Qed.

Lemma messages_not_risk C id rs :
  Forall (reply_ok C) rs -> filter (fun m => is_risk m = false) (messages_for id rs) = messages_for id rs.
Proof.
  induction 1 as [|r rs (_ & Hr & _) _ IH]; [done|]. unfold messages_for in *. cbn [omap list_omap].
  destruct (_ =? _); [|done]. rewrite filter_cons. by rewrite decide_True, IH.
Qed.

Lemma take_drop_app {A} (l l1 l2 : list A) n :
  drop n l = l1 ++ l2 -> (n <= length l)%nat -> take (n + length l1) l = take n l ++ l1.
Proof.
  intros Hd Hn. rewrite <- (take_drop n l), Hd at 1.
  rewrite take_app_ge by (rewrite length_take; lia).
  rewrite length_take, Nat.min_l by done. replace (n + length l1 - n)%nat with (length l1) by lia.
  by rewrite take_app_length.
Qed.

Lemma wake_xinv ll_mode x rs rest g :
  xinv ll_mode x -> phase x = Serving ->
  drop (delivered x) (to_gateway_ (engine_of x)) = rs.*1 ++ rest ->
  pump_responses rs (gw x) = Ok g ->
  xinv ll_mode (mkExchange g (loop x) (delivered x + length rs) (drains x) (pub x) (phase x)).
Proof.
  intros Hx Hp Hd Hg. pose proof (replies_ok _ _ Hx) as Hall.
  assert (Forall (reply_ok (client_of (RunLoop.handled (loop x)))) rs.*1) as Hrs.
  { pose proof (Forall_drop _ (delivered x) _ Hall) as H. rewrite Hd in H. by apply Forall_app in H as [H _]. }
  assert (length rs = length rs.*1) as Hlen by (by rewrite length_fmap).
  destruct (pump_reaches rs (gw x)) as (g' & Hg' & Hi & Hw & Hn & Hs); [by apply Hx| |].
  { apply (proj1 (Forall_fmap fst (fun r => response_ok (rsp_msg r)) rs)).
    eapply Forall_impl; [exact Hrs|]. by intros r [Hr _]. }
  rewrite Hg in Hg'. injection Hg' as <-.
  destruct Hx as [X1 X2 X3 X4 X5 X6 X7 X8 X9 X10]. split; cbn [gw loop delivered drains pub phase];
    rewrite ?Hw; try done.
  - change (engine_of _) with (engine_of x). rewrite Hlen.
    pose proof (f_equal length Hd) as H. rewrite length_drop, length_app in H. lia.
  - intros _ id Hid. change (engine_of _) with (engine_of x). destruct (Hs id Hid) as [Hold Hst].
    destruct (X8 Hp id Hold) as (items & Hok & Hs0 & Hf).
    exists (items ++ map Response (messages_for id rs.*1)). split_and!.
    + apply Forall_app. split; [done|]. apply messages_for_ok. eapply Forall_impl; [exact Hrs|]. by intros r [Hr _].
    + by rewrite Hst, Hs0, packets_for_messages, map_app, wires_app.
    + rewrite Hlen, (take_drop_app _ _ _ _ Hd X7), messages_for_app, responses_app, filter_app, Hf.
      by rewrite responses_of_messages, (messages_not_risk _ _ _ Hrs).
  - unfold stage_ok in *. cbn [phase loop gw]. rewrite Hp in *. done.
Qed.

Lemma engine_step_frame r r' :
  RunLoop.engine_step r r' ->
  RunLoop.sent r' = RunLoop.sent r /\ RunLoop.mark r' = RunLoop.mark r /\
  to_gateway_ (RunLoop.eng r) `prefix_of` to_gateway_ (RunLoop.eng r') /\
  to_feed_ (RunLoop.eng r) `prefix_of` to_feed_ (RunLoop.eng r') /\
  RunLoop.thread r <> RunLoop.Returned.
Proof.
  destruct 1 as [| ? ? ? ? ? E Hp| | | | |]; split_and!; try done; try congruence.
  - by apply process_replies in Hp.
  - by apply process_feeds in Hp.
Qed.

Lemma engine_xinv ll_mode x r :
  xinv ll_mode x -> RunLoop.engine_step (loop x) r ->
  Forall (fun c => fits 48 c.1) (RunLoop.handled r) -> xinv ll_mode (set_loop r x).
Proof.
  intros Hx Hs Hc. destruct (engine_step_frame _ _ Hs) as (Es & Em & Hg & Hf & Ht).
  destruct Hx as [[q X1] X2 X3 X4 X5 X6 X7 X8 X9 X10].
  split; cbn [gw loop delivered drains pub phase set_loop]; rewrite ?Es; try done.
  - by eapply RunLoop.engine_step_ok.
  - apply prefix_length in Hg. unfold engine_of in *. cbn [loop set_loop]. lia.
  - intros Hp id Hid. destruct (X8 Hp id Hid) as (items & H1 & H2 & H3). exists items. split_and!; [done|done|].
    rewrite H3. destruct Hg as [k Hk]. unfold engine_of. cbn [loop set_loop]. rewrite Hk.
    by rewrite take_app_le.
  - unfold feed_ok, stage_ok, engine_of in *. cbn [phase loop drains pub set_loop] in *.
    destruct (phase x); try (destruct X9 as [H1 H2]; split; [by etrans|done]). naive_solver.
  - unfold stage_ok in *. cbn [phase loop gw set_loop] in *. rewrite Es, Em.
    destruct (phase x); naive_solver.
Qed.

Lemma run_loop_snoc drains evs p p' :
  Feed.run_loop ns_since_midnight drains p = Ok p' ->
  Feed.run_loop ns_since_midnight (drains ++ [evs]) p = Feed.run_loop ns_since_midnight [evs] p'.
Proof.
  revert p. induction drains as [|d drains IH]; intros p; cbn [Feed.run_loop app]; [by intros [= ->]|].
  destruct (match d with [] => _ | _ => _ end) as [p1| |]; rewrite ?outcome_bind_Ok; [apply IH|done|done].
Qed.

Lemma step_xinv ll_mode x x' :
  xinv ll_mode x -> step x x' -> xinv ll_mode x'.
Proof.
  intros Hx Hs. destruct Hs as [i g Hp Hi Hok Hh|cmd c Hp Hl Hpu Hr|rs rest g Hp Hd Hg|r Hr Hc|
    evs rest p Hp Hd Hrun|Hp Hs|Hp|Hp Ht|last p Hp Hl Hrun].
  - destruct (handle_input_inv i (gw x)) as (g' & Hh' & Hg' & Hgr); [by apply Hx|done|].
    rewrite Hh in Hh'. injection Hh' as <-. specialize (Hgr Hi).
    pose proof (fun id => informed_grows ll_mode x g id Hx Hp Hgr) as Hin.
    destruct Hx as [X1 X2 X3 X4 X5 X6 X7 X8 X9 X10].
    split; cbn [gw loop delivered drains pub phase set_gw]; try done.
    + by apply gateway_commands_ok.
    + etrans; [exact X4|apply Hgr].
    + unfold stage_ok in *. cbn [phase loop gw set_gw]. by rewrite Hp in *.
  - destruct Hx as [[q X1] X2 X3 X4 X5 X6 X7 X8 X9 X10].
    split; cbn [gw loop delivered drains pub phase set_loop pushed RunLoop.sent RunLoop.handled]; try done.
    + eapply (RunLoop.outside_step_ok ll_mode q (loop x)); [by apply RunLoop.pushes|done].
    + destruct X4 as [k E]. rewrite E, lookup_app_r, Nat.sub_diag in Hl by done.
      destruct k as [|y k]; [done|]. injection Hl as ->. exists k. by rewrite E, <- app_assoc.
    + rewrite lengthZ_app. change (lengthZ [cmd]) with 1. lia.
    + unfold stage_ok in *. cbn [phase loop gw set_loop]. by rewrite Hp in *.
  - by eapply wake_xinv.
  - by apply engine_xinv.
  - destruct Hx as [X1 X2 X3 X4 X5 X6 X7 X8 X9 X10]. split; try done.
    unfold feed_ok, engine_of in *. cbn [phase drains pub loop].
    assert (concat (drains x) `prefix_of` to_feed_ (RunLoop.eng (loop x)) /\
      Feed.run_loop ns_since_midnight (drains x) (Feed.make sv mtu capture) = Ok (pub x)) as [[k Hk] Hl]
      by (by destruct (phase x)).
    assert (concat (drains x ++ [evs]) `prefix_of` to_feed_ (RunLoop.eng (loop x)) /\
      Feed.run_loop ns_since_midnight (drains x ++ [evs]) (Feed.make sv mtu capture) = Ok p)
      as Hnew; [|by destruct (phase x)].
    split; [|by rewrite (run_loop_snoc _ _ _ _ Hl)]. exists rest. rewrite concat_app. cbn [concat].
    rewrite app_nil_r, <- app_assoc, <- Hd, Hk, drop_app_length. done.
  - destruct Hx as [X1 X2 X3 X4 X5 X6 X7 X8 X9 X10]. split; try done.
    + unfold feed_ok in *. by rewrite Hp in X9.
    + unfold stage_ok in *. rewrite Hp in X10. done.
  - destruct Hx as [[q X1] X2 X3 X4 X5 X6 X7 X8 X9 X10].
    unfold feed_ok, stage_ok in *. rewrite Hp in *. destruct X10 as [Hm Hs]. split; try done.
    + eapply (RunLoop.outside_step_ok ll_mode q (loop x)); [apply RunLoop.stops|done].
    + unfold stage_ok. cbn. by rewrite Hm.
  - destruct Hx as [X1 X2 X3 X4 X5 X6 X7 X8 X9 X10].
    unfold feed_ok, stage_ok in *. rewrite Hp in *. split; try done.
    unfold stage_ok. cbn. naive_solver.
  - destruct Hx as [X1 X2 X3 X4 X5 X6 X7 X8 X9 X10].
    unfold feed_ok, stage_ok in *. rewrite Hp in *. split; try done.
    unfold feed_ok. cbn [phase drains pub]. exists last. split; [done|].
    unfold Feed.run in *. rewrite (proj2 X9). exact Hrun.
Qed.

Lemma reachable_xinv ll_mode clock x :
  (forall n, fits 64 (clock n)) -> reachable ll_mode clock x -> xinv ll_mode x.
Proof.
  intros Hc Hr. pose proof (start_xinv ll_mode clock Hc) as H0. unfold reachable in Hr.
  induction Hr as [x|x y z Hs _ IH]; [done|]. apply IH. by eapply step_xinv.
Qed.

(** ** What holds of the exchange *)

(** C4: clients are told what happens to their orders. At any moment of any
    interleaving of the three threads, in either mode: a client that is
    connected and has read its connection to the end, in any pieces over any
    number of polls after its login, has had its handler called exactly for the
    engine's responses with its id that the gateway has drained, in order and
    unchanged, apart from the gateway's own risk rejections; and when nothing is
    waiting in the response queue, adding them up gives, for each of its tokens,
    exactly the shares of that order that rest in a book. *)
Theorem exchange_informs_clients ll_mode clock x id c ks0 ps :
  (forall n, fits 64 (clock n)) -> reachable ll_mode clock x -> phase x = Serving ->
  is_Some (conns_ (gw x) !! id) -> 0 <= fd_ c -> parser_ok (parser_ c) -> ps <> [] ->
  Forall (fun k => packet_ok k /\ type k <> kSequenced) ks0 ->
  wires ks0 ++ pending (parser_ c) ++ received ps = stream_of (gw x) id ->
  exists c' ms, poll_all ps c = Ok c' /\ calls_ c' = calls_ c ++ ms /\
    filter (fun m => is_risk m = false) ms =
      messages_for id (take (delivered x) (to_gateway_ (engine_of x))) /\
    (delivered x = length (to_gateway_ (engine_of x)) ->
     forall t q, own_view id ms !! (id, t) = Some q <->
       exists ref info, orders_ (engine_of x) !! ref = Some info /\ i_client_id info = id /\
         token_str (i_token info) = t /\ rests (engine_of x) (i_symbol info) (i_side info) ref q).
Proof.
  intros Hc Hr Hp Hid Hf Hpk Hne Hk0 Hst. pose proof (reachable_xinv _ _ _ Hc Hr) as Hx.
  destruct (xi_streams _ _ Hx Hp id Hid) as (items & Hok & Hs & Hm). rewrite Hs in Hst.
  destruct (polls_hear items ks0 ps c Hne Hf Hpk Hok Hk0 Hst) as (c' & Hpo & Hca).
  exists c', (responses items). split_and!; [done|done|done|]. intros Hall t q.
  destruct (engine_run_spec _ (handled_session _ _ Hx)) as (e & S & He & [Hi _ _] & _).
  rewrite (handled_run _ _ Hx) in He. injection He as <-.
  rewrite <- own_view_filter, Hm, Hall, take_ge, own_view_spec by done. by apply (view_rests _ S).
Qed.

(** C9: orderly shutdown. When [main] has stopped gateway, engine and feed, in
    this order: the engine's state is that of the sequential run over the
    commands it processed, and with the blocking queue those are all the
    commands the gateway ever forwarded; the feed has published every event of
    it and an end-of-session packet last; and a listener that received any of
    the datagrams and the last one, and saw no gap, has the engine's final
    books. If it received all of them it saw no gap. *)
Theorem exchange_shuts_down ll_mode clock x :
  (forall n, fits 64 (clock n)) -> Forall is_byte sv -> mtu < 2 ^ 16 ->
  reachable ll_mode clock x -> phase x = Done ->
  engine_run (RunLoop.handled (loop x)) = Some (engine_of x) /\
  (ll_mode = false -> (RunLoop.handled (loop x)).*2 = to_engine_ (world (gw x))) /\
  exists pkts fin, Feed.sent (pub x) = pkts ++ [fin] /\
    forall qs, qs `sublist_of` pkts ->
    exists b, on_packets (qs ++ [fin]) ItchBook.init = Ok (replicate (length qs) false ++ [true], b) /\
      (Mold.had_gap_ (ItchBook.gaps_ b) = false -> client_agrees (engine_of x) b) /\
      (qs = pkts -> Mold.had_gap_ (ItchBook.gaps_ b) = false).
Proof.
  intros Hc Hsv Hmtu Hr Hp. pose proof (reachable_xinv _ _ _ Hc Hr) as Hx.
  pose proof (handled_run _ _ Hx) as He. split; [done|].
  pose proof (xi_stage _ _ Hx) as Hst. unfold stage_ok in Hst. rewrite Hp in Hst.
  destruct Hst as (Hm & Hs & Ht). split.
  - intros ->. destruct (xi_run _ _ Hx) as [q Hok]. pose proof (RunLoop.ok_thread _ _ _ Hok) as Hth.
    unfold RunLoop.thread_ok in Hth. rewrite Ht in Hth. destruct Hth as (m & Hm' & Hpre).
    rewrite Hm in Hm'. injection Hm' as <-. specialize (Hpre (RunLoop.ok_mode _ _ _ Hok)).
    pose proof (RunLoop.ok_order _ _ _ Hok) as Ho. rewrite Ht in Ho. cbn [RunLoop.in_hand app] in Ho.
    rewrite <- Hs. apply (anti_symm prefix); [|done]. rewrite <- Ho. by apply prefix_app_r.
  - pose proof (xi_feed _ _ Hx) as Hfd. unfold feed_ok in Hfd. rewrite Hp in Hfd.
    destruct Hfd as (last & Hd & Hrun).
    destruct (feed_delivers _ sv mtu ns_since_midnight capture _ (handled_session _ _ Hx)
      (xi_clock _ _ Hx) Hsv Hmtu He (drains x) last Hd) as (p & pkts & fin & Hrun' & Hsent & Hrest).
    rewrite Hrun in Hrun'. injection Hrun' as <-. by exists pkts, fin.
Qed.
End Threads.

(** ** A run *)

Definition demo_cmd : Command := mkCommand 1 (order_msg service_order).

Abbreviation demo_step := (step (fun n => n)).
Abbreviation demo_start := (start [78; 83; 81] 1400 None false zero_clock).

(** A client logged in and sent an order, which the engine has processed. *)
Definition traded (e : Engine Fast) : Exchange :=
  mkExchange trading
    (RunLoop.mkRun (CommandChannel.make false) RunLoop.AtWait e [(7, demo_cmd)] [demo_cmd] None)
    0 [] (Feed.make [78; 83; 81] 1400 None) Serving.

Lemma order_session : session_ok [(7, demo_cmd)].
Proof.
  split; [|done]. constructor; [|done]. cbn [snd]. eapply carries_command, order_msg_ok.
  split; [|by vm_compute]. cbn [order_ok service_order]. split_and!; [concrete_bytes|by left|concrete_bytes|
    unfold fits; lia..].
Qed.

Lemma demo_engine : exists e, engine_run [(7, demo_cmd)] = Some e.
Proof. destruct (engine_run_spec _ order_session) as (e & S & He & _). eauto. Qed.

Lemma traded_reachable e :
  engine_run [(7, demo_cmd)] = Some e -> rtc demo_step demo_start (traded e).
Proof.
  intros He.
  assert (@process Fast RunLoop.service_book 7 demo_cmd (@init Fast) = Some e) as Hp
    by (by rewrite <- (RunLoop.engine_run_snoc [] 7 demo_cmd (@init Fast))).
  eapply rtc_l; [apply (gateway_input _ _ (InEvent (OnListen [5])) one_client); [done|done| |done]|].
  { split_and!; [apply NoDup_singleton|by constructor|by vm_compute]. }
  eapply rtc_l; [apply (gateway_input _ _ demo_input trading); [done|done| |by vm_compute]|].
  { split; [|by exists 9%nat]. constructor; [|done]. concrete_bytes. }
  eapply rtc_l; [eapply (gateway_push _ _ demo_cmd); [done|by vm_compute|reflexivity|by vm_compute]|].
  eapply rtc_l; [apply engine_runs; [by eapply (RunLoop.wait_returns [demo_cmd])|done]|].
  eapply rtc_l; [apply engine_runs; [by eapply (RunLoop.handle_one 7 demo_cmd [])|]|].
  { constructor; [unfold fits; cbn; lia|done]. }
  eapply rtc_l; [apply engine_runs; [by apply RunLoop.batch_done|]|].
  { constructor; [unfold fits; cbn; lia|done]. }
  apply rtc_refl.
Qed.

(** The gateway has drained the responses. *)
Definition answered (e : Engine Fast) (g : Gateway) : Exchange :=
  mkExchange g (loop (traded e)) (length (to_gateway_ e)) [] (Feed.make [78; 83; 81] 1400 None) Serving.

Definition all_taken (e : Engine Fast) : list (ClientResponse * SendResult) :=
  map (fun r => (r, Sent 20)) (to_gateway_ e).

Lemma all_taken_fst e : (all_taken e).*1 = to_gateway_ e.
Proof. unfold all_taken. induction (to_gateway_ e) as [|r rs IH]; [done|]. cbn. by f_equal. Qed.

Lemma answered_reachable e :
  engine_run [(7, demo_cmd)] = Some e ->
  exists g, rtc demo_step demo_start (answered e g) /\ is_Some (conns_ g !! 1) /\
    stream_of g 1 = wires [login_reply] ++ wires (packets_for 1 (all_taken e)).
Proof.
  intros He. pose proof (traded_reachable e He) as Hr.
  pose proof (reachable_xinv _ [78; 83; 81] 1400 None false zero_clock _ zero_clock_fits Hr) as Hx.
  assert (Forall (fun r => response_ok (rsp_msg r.1)) (all_taken e)) as Hok.
  { apply (proj1 (Forall_fmap fst (fun r => response_ok (rsp_msg r)) (all_taken e))). rewrite all_taken_fst.
    eapply Forall_impl; [exact (replies_ok _ _ _ _ _ _ Hx)|]. by intros r [H _]. }
  destruct (pump_delivers (all_taken e) trading) as (g & Hp & _ & Hd);
    [exact (xi_gw _ _ _ _ _ _ Hx eq_refl)|done|apply Forall_map, Forall_true; by eexists|].
  destruct (Hd 1) as [Hc Hs]; [vm_compute; by eexists|].
  exists g. split_and!; [|done|rewrite Hs; f_equal; by vm_compute].
  eapply rtc_r; [exact Hr|]. unfold answered.
  replace (length (to_gateway_ e)) with (0 + length (all_taken e))%nat
    by (unfold all_taken; by rewrite length_map).
  apply (gateway_wake (fun n => n) (traded e) (all_taken e) [] g); [done| |done]. by rewrite all_taken_fst, app_nil_r.
Qed.

Lemma exchange_informs_clients_witness :
  exists e c' ms, engine_run [(7, demo_cmd)] = Some e /\ calls_ c' = [] ++ ms /\
    filter (fun m => is_risk m = false) ms = messages_for 1 (take (length (to_gateway_ e)) (to_gateway_ e)).
Proof.
  destruct demo_engine as [e He]. destruct (answered_reachable e He) as (g & Hr & Hc & Hs).
  destruct (exchange_informs_clients (fun n => n) [78; 83; 81] 1400 None false zero_clock (answered e g) 1
    (set_fd 3 new_client) [login_reply] [mkPoll [wires (packets_for 1 (all_taken e))] 0 0 0])
    as (c' & ms & _ & Hca & Hf & _).
  - exact zero_clock_fits.
  - exact Hr.
  - reflexivity.
  - exact Hc.
  - cbn. lia.
  - apply new_parser_ok.
  - discriminate.
  - constructor; [split; [apply login_reply_ok|by vm_compute]|done].
  - cbn [gw answered]. rewrite Hs. unfold received. cbn [map concat p_recvs]. by rewrite !app_nil_r.
  - exists e, c', ms. split_and!; [exact He|exact Hca|exact Hf].
Defined.

(** [main] ends. *)
Definition ended (e : Engine Fast) (p : Feed.FeedPublisher) : Exchange :=
  mkExchange (shutdown trading)
    (RunLoop.mkRun (CommandChannel.set_mq (Mpsc.mkQueue [] true) (CommandChannel.make false))
       RunLoop.Returned e [(7, demo_cmd)] [demo_cmd] (Some [demo_cmd]))
    0 [] p Done.

Lemma ended_reachable e :
  engine_run [(7, demo_cmd)] = Some e ->
  exists p, rtc demo_step demo_start (ended e p).
Proof.
  intros He. pose proof (traded_reachable e He) as Hr.
  destruct (feed_delivers [(7, demo_cmd)] [78; 83; 81] 1400 (fun n => n) None e order_session) with
    (drains := @nil (list MarketEvent)) (last := to_feed_ e) as (p & _ & _ & Hrun & _);
    [constructor; [unfold fits; cbn; lia|done]|concrete_bytes|done|done|done|].
  exists p. etrans; [exact Hr|].
  assert (Forall (fun c : Z * Command => fits 48 c.1) [(7, demo_cmd)]) as Hfit
    by (constructor; [unfold fits; cbn; lia|done]).
  eapply rtc_l; [apply gateway_stops; [done|by vm_compute]|].
  eapply rtc_l; [by apply engine_stops|].
  eapply rtc_l; [apply engine_runs; [by eapply (RunLoop.wait_returns [])|done]|].
  eapply rtc_l; [by apply engine_joins|].
  eapply rtc_l; [by apply (feed_stops _ _ (to_feed_ e) p)|]. apply rtc_refl.
Qed.

Lemma exchange_shuts_down_witness :
  exists e p pkts fin, engine_run [(7, demo_cmd)] = Some e /\
    Feed.sent p = pkts ++ [fin] /\ [demo_cmd] = to_engine_ (world (shutdown trading)).
Proof.
  destruct demo_engine as [e He]. destruct (ended_reachable e He) as [p Hr].
  destruct (exchange_shuts_down (fun n => n) [78; 83; 81] 1400 None false zero_clock (ended e p))
    as (_ & Hall & pkts & fin & Hs & _).
  - exact zero_clock_fits.
  - concrete_bytes.
  - reflexivity.
  - exact Hr.
  - reflexivity.
  - exists e, p, pkts, fin. split_and!; [exact He|exact Hs|exact (Hall eq_refl)].
Defined.
End Exchange.
