(* ===== verification/Shutdown.v ===== *)
(** The exchange can always be shut down: wherever the three threads are when
    the signal arrives, the steps of [main] can all be taken. *)

From S2P Require Import Prelude StdMap Endian BookTypes BookSpec Wire Ouch LadderBook EngineBook Engine EngineInv EngineRuns EngineClaims Mold Capture Feed FeedRefines EndToEnd Soup SoupSession Gateway GatewaySession GatewayInv GatewayRuns ClientPaths EngineResponses Channel Service Exchange.

Module Shutdown.
Import Engine Gateway CommandChannel RunLoop.

(** ** The engine catches up *)

(** A step of the engine that reads an ITCH timestamp off the clock. *)
Definition timely (r r' : Run) : Prop :=
  engine_step r r' /\ (Forall (fun c => fits 48 c.1) (handled r) -> Forall (fun c => fits 48 c.1) (handled r')).

Definition rank (t : Thread) : nat :=
  match t with
  | Handling (_ :: _) => 0
  | AtWait | AtPop => 1
  | AtStopped => 2
  | Handling [] => 3
  | Returned => 0
  end.

(** What is left to do before the engine is idle. *)
Definition backlog (r : Run) : nat := 4 * (length (sent r) - length (handled r)) + rank (thread r).

Lemma pending_length b q r :
  run_ok b q r -> (length (handled r) + length (in_hand (thread r)) + length q = length (sent r))%nat.
Proof.
  intros Hok. pose proof (f_equal length (ok_order _ _ _ Hok)) as Ho.
  rewrite !length_app, length_fmap in Ho. lia.
Qed.

(** While the channel is open and something is to be done, the engine can do it. *)
Lemma open_progress b q r :
  run_ok b q r -> traffic_ok r -> mark r = None ->
  q = [] /\ in_hand (thread r) = [] \/ exists r', timely r r' /\ (backlog r' < backlog r)%nat.
Proof.
  intros Hok Ht Hm. pose proof (ok_thread _ _ _ Hok) as Hth. pose proof (pending_length _ _ _ Hok) as Hl.
  pose proof (ok_closed _ _ _ Hok) as Hc. rewrite Hm in Hc. change (closed (chan r) = false) in Hc.
  unfold thread_ok in Hth. unfold backlog.
  destruct (thread r) as [|cmds| | |] eqn:E; cbn [in_hand length] in Hl |- *.
  - destruct q as [|c q]; [by left|right].
    assert (wait_drain (chan r) = Some (c :: q, set_mq (Mpsc.mkQueue [] (Mpsc.stopped_ (mq_ (chan r)))) (chan r))) as Hw.
    { pose proof (ok_queue _ _ _ Hok) as Hq. unfold holds in Hq. rewrite Hth in Hq.
      unfold wait_drain, Mpsc.wait_drain, Mpsc.ready, Mpsc.drain. by rewrite Hq. }
    eexists. split; [split; [by eapply wait_returns|done]|]. cbn [move thread sent handled rank]. lia.
  - right. destruct cmds as [|c cmds].
    + eexists. split; [split; [by apply batch_done|done]|]. cbn [move thread sent handled]. unfold loop.
      destruct (lock_free_ _); cbn [rank]; lia.
    + destruct (next_processed b q r 0 c cmds Hok Ht E) as [e He].
      eexists. split; [split; [by eapply handle_one|]|].
      * intros Hf. apply Forall_app. split; [exact Hf|]. by constructor.
      * cbn [thread sent handled length] in *. rewrite length_app. cbn [length]. destruct cmds; cbn [rank]; lia.
  - destruct q as [|c q]; [by left|right].
    destruct (try_pop_holds _ _ Hth (ok_queue _ _ _ Hok)) as (c' & Hp & _).
    eexists. split; [split; [by eapply pop_some|done]|]. cbn [move thread sent handled rank]. lia.
  - right. unfold closed in Hc. rewrite Hth in Hc.
    eexists. split; [split; [by apply spin|done]|]. cbn [move thread sent handled rank]. lia.
  - destruct Hth as (m & Hm' & _). congruence.
Qed.

Lemma engine_catches_up b r q :
  run_ok b q r -> traffic_ok r -> mark r = None ->
  exists r', rtc timely r r' /\ run_ok b [] r' /\ sent r' = sent r.
Proof.
  remember (backlog r) as n eqn:En. revert r q En. induction (lt_wf n) as [n _ IH]; intros r q -> Hok Ht Hm.
  destruct (open_progress b q r Hok Ht Hm) as [[-> _]|(r1 & [Hs Hf] & Hlt)].
  { exists r. split; [apply rtc_refl|done]. }
  destruct (Exchange.engine_step_frame _ _ Hs) as (Es & Em & _).
  destruct (engine_step_ok _ _ _ _ Hs Hok) as [q1 Hok1].
  destruct (IH (backlog r1) Hlt r1 q1 eq_refl Hok1) as (r' & Hr & Hok' & Hsent).
  - unfold traffic_ok. by rewrite Es.
  - by rewrite Em.
  - exists r'. split_and!; [by eapply rtc_l|done|by rewrite Hsent].
Qed.

(** After [stop] it returns. *)
Lemma engine_returns b q r :
  run_ok b q r -> traffic_ok r -> closed (chan r) = true ->
  exists r', rtc timely r r' /\ thread r' = Returned.
Proof.
  remember (remaining q (thread r)) as n eqn:En. revert r q En.
  induction (lt_wf n) as [n _ IH]; intros r q -> Hok Ht Hcl.
  destruct (closed_progress 0 b q r Hok Ht Hcl) as [?|(r1 & Hs & Hh)]; [exists r; split; [apply rtc_refl|done]|].
  destruct (engine_step_remaining b q r r1 Hs Hok Hcl) as (Hcl1 & Es & q1 & Hok1 & Hlt).
  destruct (IH _ Hlt r1 q1 eq_refl Hok1) as (r' & Hr & Hret); [unfold traffic_ok; by rewrite Es|done|].
  exists r'. split; [|done]. eapply rtc_l; [|exact Hr]. split; [done|]. intros Hf.
  destruct Hh as [->|[cmd ->]]; [done|]. apply Forall_app. split; [exact Hf|]. by constructor.
Qed.

(** ** The whole exchange *)

Section System.
Context (ns_since_midnight : Z -> Z) (sv : bytes) (mtu : Z) (capture : option Capture.CaptureWriter).
#[local] Abbreviation xstep := (Exchange.step ns_since_midnight).
#[local] Abbreviation sound := (Exchange.xinv ns_since_midnight sv mtu capture).
Import Exchange.

Lemma run_engine x r :
  rtc timely (loop x) r -> Forall (fun c => fits 48 c.1) (handled (loop x)) -> rtc xstep x (set_loop r x).
Proof.
  intros Hr. remember (loop x) as r0 eqn:E. revert x E.
  induction Hr as [r|r r1 r2 [Hs Hf] _ IH]; intros x -> Hh.
  - destruct x. apply rtc_refl.
  - eapply rtc_l; [apply (engine_runs _ _ r1 Hs); auto|]. exact (IH (set_loop r1 x) eq_refl (Hf Hh)).
Qed.

Lemma steps_sound ll_mode x y : sound ll_mode x -> rtc xstep x y -> sound ll_mode y.
Proof. intros Hx Hr. induction Hr as [|x y z Hs _ IH]; [done|]. apply IH. by eapply step_xinv. Qed.

Lemma xinv_traffic ll_mode x : sound ll_mode x -> traffic_ok (loop x).
Proof.
  intros Hx. split; [|apply Hx]. pose proof (xi_commands _ _ _ _ _ _ Hx) as Hc.
  destruct (xi_sent _ _ _ _ _ _ Hx) as [k E]. rewrite E in Hc. by apply Forall_app in Hc as [Hc _].
Qed.

(** The gateway hands over everything it has decoded, waiting for the engine
    when the ring is full. *)
Lemma push_all ll_mode x :
  sound ll_mode x -> phase x = Serving -> lengthZ (to_engine_ (world (gw x))) < 2 ^ 32 - 1 ->
  exists y, rtc xstep x y /\ phase y = Serving /\ gw y = gw x /\ sent (loop y) = to_engine_ (world (gw y)).
Proof.
  remember (length (to_engine_ (world (gw x))) - length (sent (loop x)))%nat as n eqn:En. revert x En.
  induction n as [|n IH]; intros x En Hx Hp Hroom; destruct (xi_sent _ _ _ _ _ _ Hx) as [k Hk].
  - exists x. split_and!; [apply rtc_refl|done|done|]. rewrite Hk in En |- *. rewrite length_app in En.
    destruct k; [by rewrite app_nil_r|cbn in En; lia].
  - destruct k as [|cmd k]; [rewrite app_nil_r in Hk; rewrite Hk in En; lia|].
    destruct (xi_run _ _ _ _ _ _ Hx) as [q Hok]. pose proof (xi_stage _ _ _ _ _ _ Hx) as Hst.
    unfold stage_ok in Hst. rewrite Hp in Hst.
    destruct (engine_catches_up _ _ _ Hok (xinv_traffic _ _ Hx) Hst) as (r & Hr & Hok' & Hs).
    pose proof (run_engine x r Hr (xi_clock _ _ _ _ _ _ Hx)) as Hrun.
    pose proof (steps_sound _ _ _ Hx Hrun) as Hx1.
    destruct (push cmd (chan r)) as [c|] eqn:Hpush.
    2:{ pose proof (push_blocks cmd _ _ (ok_queue _ _ _ Hok') Hpush) as Hb. discriminate Hb. }
    assert (xstep (set_loop r x) (set_loop (pushed cmd c r) x)) as Hstep.
    { apply (gateway_push _ (set_loop r x) cmd c); cbn [phase loop gw set_loop].
      - done.
      - rewrite Hs, Hk, lookup_app_r, Nat.sub_diag by done. done.
      - done.
      - rewrite Hs. rewrite Hk, lengthZ_app in Hroom. unfold lengthZ in *. cbn [length] in Hroom. lia. }
    destruct (IH (set_loop (pushed cmd c r) x)) as (y & Hy & Hpy & Hg & He).
    + cbn [gw loop set_loop pushed sent]. rewrite Hs, length_app. cbn [length]. lia.
    + by eapply step_xinv.
    + done.
    + done.
    + exists y. split_and!; [|done|done|done]. etrans; [exact Hrun|]. by eapply rtc_l.
Qed.

(** From [engine.stop()] on, the engine's thread returns and is joined. *)
Lemma join_engine ll_mode x :
  sound ll_mode x -> phase x = EngineStopping -> exists y, rtc xstep x y /\ phase y = EngineDown.
Proof.
  intros Hx Hp. destruct (xi_run _ _ _ _ _ _ Hx) as [q Hok]. pose proof (xi_stage _ _ _ _ _ _ Hx) as Hst.
  unfold stage_ok in Hst. rewrite Hp in Hst. destruct Hst as [Hm _].
  destruct (engine_returns _ _ _ Hok (xinv_traffic _ _ Hx)) as (r & Hr & Hret).
  { rewrite (ok_closed _ _ _ Hok), Hm. done. }
  eexists. split; [|]. 
  - etrans; [exact (run_engine x r Hr (xi_clock _ _ _ _ _ _ Hx))|]. apply rtc_once.
    by apply (engine_joins _ (set_loop r x)).
  - done.
Qed.

(** The feed publishes what is left and ends the session. *)
Lemma stop_feed ll_mode x :
  sound ll_mode x -> phase x = EngineDown -> Forall is_byte sv -> mtu < 2 ^ 16 ->
  exists y, xstep x y /\ phase y = Done.
Proof.
  intros Hx Hp Hsv Hmtu. pose proof (xi_feed _ _ _ _ _ _ Hx) as Hfd. unfold feed_ok in Hfd. rewrite Hp in Hfd.
  destruct Hfd as [[last Hl] Hrun].
  destruct (feed_delivers _ sv mtu ns_since_midnight capture _ (handled_session _ _ _ _ _ _ Hx)
    (xi_clock _ _ _ _ _ _ Hx) Hsv Hmtu (handled_run _ _ _ _ _ _ Hx) (drains x) last (eq_sym Hl))
    as (p & _ & _ & Hp' & _).
  unfold Feed.run in Hp'. rewrite Hrun, outcome_bind_Ok in Hp'.
  eexists. split; [by apply (feed_stops _ x last p)|done].
Qed.

Lemma wind_down ll_mode x :
  sound ll_mode x -> phase x <> Done -> lengthZ (to_engine_ (world (gw x))) < 2 ^ 32 - 1 ->
  exists y, rtc xstep x y /\ phase y = EngineDown.
Proof.
  intros Hx Hd Hroom.
  assert (forall z, sound ll_mode z -> phase z = GatewayDown -> exists y, rtc xstep z y /\ phase y = EngineDown) as Hdown.
  { intros z Hz Hp. pose proof (engine_stops ns_since_midnight z Hp) as Hs.
    destruct (join_engine ll_mode _ (step_xinv _ _ _ _ _ _ _ Hz Hs) eq_refl) as (y & Hy & Hpy).
    exists y. split; [by eapply rtc_l|done]. }
  destruct (phase x) eqn:Hp; [|by apply Hdown|by apply (join_engine ll_mode)|exists x; split; [apply rtc_refl|done]|done].
  destruct (push_all ll_mode x Hx Hp Hroom) as (y & Hy & Hpy & _ & Hs).
  pose proof (gateway_stops ns_since_midnight y Hpy Hs) as Hstop.
  destruct (Hdown _ (step_xinv _ _ _ _ _ _ _ (steps_sound _ _ _ Hx Hy) Hstop) eq_refl) as (z & Hz & Hpz).
  exists z. split; [|done]. etrans; [exact Hy|]. by eapply rtc_l.
Qed.

(** Steps lead from here to the end of [main]. *)
Definition can_end (x : Exchange.Exchange) : Prop := exists y, rtc xstep x y /\ phase y = Done.

(** C10: the exchange can always be shut down, in either mode. From every state
    the three threads can be in before the end, and whatever is still queued:
    the commands the gateway has decoded can be handed over, waiting for the
    engine where the ring is full; then [gateway.stop()], [engine.stop()] with
    the join of its thread, and [feed.stop()] can be taken in this order, so
    that [main] reaches its end. The join is not left to luck: after
    [engine.stop()] the engine's thread, however it is scheduled, makes at most
    five steps per command and three more. *)
Theorem shutdown_completes ll_mode clock x :
  (forall n, fits 64 (clock n)) -> Forall is_byte sv -> mtu < 2 ^ 16 ->
  Exchange.reachable ns_since_midnight sv mtu capture ll_mode clock x -> phase x <> Done ->
  lengthZ (to_engine_ (world (gw x))) < 2 ^ 32 - 1 ->
  can_end x /\
  (phase x = EngineStopping -> forall n r, nsteps engine_step n (loop x) r ->
    (n <= 5 * length (sent (loop x)) + 3)%nat).
Proof.
  intros Hc Hsv Hmtu Hr Hd Hroom. pose proof (reachable_xinv _ _ _ _ _ _ _ Hc Hr) as Hx. split.
  - destruct (wind_down ll_mode x Hx Hd Hroom) as (y & Hy & Hp).
    destruct (stop_feed ll_mode y) as (z & Hz & Hpz); [by eapply steps_sound|done..|].
    exists z. split; [by eapply rtc_r|done].
  - intros Hp n r. destruct (xi_run _ _ _ _ _ _ Hx) as [q Hok]. apply (closed_steps_bound ll_mode q); [done|].
    pose proof (xi_stage _ _ _ _ _ _ Hx) as Hst. unfold stage_ok in Hst. rewrite Hp in Hst.
    rewrite (ok_closed _ _ _ Hok), (proj1 Hst). done.
Qed.
End System.

Lemma shutdown_completes_witness :
  exists e, engine_run [(7, Exchange.demo_cmd)] = Some e /\ can_end (fun n => n) (Exchange.traded e).
Proof.
  destruct Exchange.demo_engine as [e He].
  assert (Forall is_byte [78; 83; 81]) as Hsv by (repeat (constructor; [unfold is_byte; lia|]); constructor).
  assert (lengthZ (to_engine_ (world Service.trading)) < 2 ^ 32 - 1) as Hn by (vm_compute; reflexivity).
  destruct (shutdown_completes (fun n => n) [78; 83; 81] 1400 None false GatewayRuns.zero_clock (Exchange.traded e)
    GatewayRuns.zero_clock_fits Hsv eq_refl (Exchange.traded_reachable e He) ltac:(discriminate) Hn)
    as [Hend _].
  exists e. split; [exact He|exact Hend].
Defined.
End Shutdown.
