(* ===== verification/ItchFile.v ===== *)
(** Reading a raw ITCH file into the book builder with a symbol filter
    ([client/itch_file_processor.hpp]).

    Adds of symbols that are not tracked are dropped, and the later messages of
    those orders find nothing to act on; [filtered_file] says that the tracked
    books do not notice. *)

From S2P Require Import Prelude StdMap Endian BookTypes BookSpec BookReplay Wire Itch RawItch Mold Engine EngineInv EngineRuns MarketReplay Capture Feed FeedRefines ItchBook ItchBookRefines LadderBook BookClaims EngineBook EngineFeed EngineClaims EndToEnd.

Module ItchFile.
Import ItchBook.

Record ItchFileStats := mkStats {
  decoded : list Z;
  skipped : list Z;
  filtered : Z;
  total : Z;
  error : option RawItch.RawError }.

Definition no_stats : ItchFileStats := mkStats (replicate 256 0) (replicate 256 0) 0 0 None.

Definition bump (type : Z) (l : list Z) : list Z :=
  match l !z! type with Some n => <z[type := u64 (n + 1)]> l | None => l end.

Definition count_message (s : ItchFileStats) : ItchFileStats :=
  mkStats (decoded s) (skipped s) (filtered s) (u64 (total s + 1)) (error s).
Definition count_skipped (t : Z) (s : ItchFileStats) : ItchFileStats :=
  mkStats (decoded s) (bump t (skipped s)) (filtered s) (total s) (error s).
Definition count_decoded (t : Z) (s : ItchFileStats) : ItchFileStats :=
  mkStats (bump t (decoded s)) (skipped s) (filtered s) (total s) (error s).
Definition count_filtered (s : ItchFileStats) : ItchFileStats :=
  mkStats (decoded s) (skipped s) (u64 (filtered s + 1)) (total s) (error s).

(** [symbols.empty() || std::find(...) != symbols.end()]. *)
Definition tracked (symbols : list Symbol) (s : Symbol) : bool :=
  match symbols with [] => true | _ => bool_decide (s ∈ symbols) end.

(** The stock of an add, with or without attribution. *)
Definition added_stock (msg : Itch.Message) : option Symbol :=
  match msg with
  | Itch.MAddOrder m => Some (Itch.ao_stock m)
  | Itch.MAddOrderMpid m => Some (Itch.ao_stock (Itch.am_add m))
  | _ => None
  end.

Definition kept (symbols : list Symbol) (msg : Itch.Message) : bool :=
  match added_stock msg with Some s => tracked symbols s | None => true end.

(** One message of the file. *)
Definition process_message (symbols : list Symbol) (bytes : list Z) (b : ItchBookBuilder)
    (s : ItchFileStats) : outcome (ItchBookBuilder * ItchFileStats) :=
  let s := count_message s in
  type ← peek bytes 0;
  msg ← Itch.decode bytes;
  match msg with
  | None => Ok (b, count_skipped type s)
  | Some msg =>
      let s := count_decoded type s in
      if kept symbols msg then Ok (on_message msg b, s) else Ok (b, count_filtered s)
  end.

(** Each message takes at least three bytes of the file, so its length bounds
    the loop. *)
Fixpoint process_loop (fuel : nat) (symbols : list Symbol) (max_messages : Z)
    (r : RawItch.RawItchReader) (b : ItchBookBuilder) (s : ItchFileStats)
    : outcome (RawItch.RawItchReader * ItchBookBuilder * ItchFileStats) :=
  match fuel with
  | O => Undefined
  | S fuel' =>
      if negb ((max_messages =? 0) || (total s <? max_messages)) then Ok (r, b, s) else
      '(m, r) ← RawItch.next r;
      match m with
      | None => Ok (r, b, s)
      | Some bytes =>
          '(b, s) ← process_message symbols bytes b s;
          process_loop fuel' symbols max_messages r b s
      end
  end.

Definition process_raw_itch (f : bytes) (symbols : list Symbol) (max_messages : Z)
    (b : ItchBookBuilder) (s : ItchFileStats) : outcome (bool * ItchBookBuilder * ItchFileStats) :=
  '(r, b, s) ← process_loop (S (length f)) symbols max_messages (RawItch.open_reader f) b s;
  let s := mkStats (decoded s) (skipped s) (filtered s) (total s) (RawItch.error_ r) in
  Ok (bool_decide (error s = None), b, s).

(** ** The filter *)

(** The books of the tracked symbols. *)
Definition restrict (symbols : list Symbol) (f : Market) : Market :=
  fun s => if tracked symbols s then f s else Spec.empty.

Lemma restrict_step symbols f m :
  same_books (restrict symbols (market_step f m))
    (if tracked symbols (Engine.me_symbol m) then market_step (restrict symbols f) m else restrict symbols f).
Proof.
  intros s. unfold restrict at 1, market_step. unfold upd at 1.
  destruct (decide (s = Engine.me_symbol m)) as [->|Hne].
  - destruct (tracked symbols (Engine.me_symbol m)) eqn:Ht.
    + rewrite upd_book_eq. unfold restrict. by rewrite Ht.
    + unfold restrict. by rewrite Ht.
  - destruct (tracked symbols (Engine.me_symbol m)) eqn:Ht; [|done]. by rewrite upd_book_ne.
Qed.

Lemma restrict_step_ok symbols f m :
  step_ok f m -> tracked symbols (Engine.me_symbol m) = true -> step_ok (restrict symbols f) m.
Proof.
  intros [H1 H2 H3 H4 H5 H6] Ht. unfold restrict.
  split; rewrite ?Ht; try done.
  - intros s. destruct (tracked symbols s); [done|apply Spec.empty_wf].
  - intros id s Hid. destruct (tracked symbols s); [by eapply H4|]. apply not_elem_of_nil.
Qed.

(** An order of an untracked symbol is unknown to the filtered builder. *)
Lemma untracked_unknown symbols b1 b f sym id r :
  Rep b1 f -> Rep b (restrict symbols f) -> tracked symbols sym = false ->
  Spec.find_order id (f sym) = Some r -> orders_ b !! id = None.
Proof.
  intros HR1 HR Ht Hf. destruct (orders_ b !! id) as [o|] eqn:Ho; [|done]. exfalso.
  apply (rp_orders _ _ HR) in Ho. unfold restrict in Ho.
  destruct (tracked symbols (bo_symbol o)) eqn:Hto; [|done].
  pose proof (rep_unique b1 f id _ _ _ _ HR1 Hf Ho) as E. congruence.
Qed.

(** The order an event other than an add acts on. *)
Definition acts_on (ev : BookEvent) : option OrderId :=
  match ev with
  | on_added _ => None
  | on_executed x => Some (ex_resting_id x)
  | on_canceled x => Some (ca_id x)
  | on_replaced x => Some (re_old_id x)
  end.

Lemma acts_on_known ev b id : ev_ok ev b -> acts_on ev = Some id -> is_Some (Spec.find_order id b).
Proof.
  destruct ev as [x|x|x|x]; cbn [ev_ok acts_on]; intros Hev [= <-].
  - destruct Hev as (q & Hf & _). by eexists.
  - destruct Hev as (s & px & q & Hf & _). by eexists.
  - destruct Hev as (_ & _ & _ & px & q & Hf). by eexists.
Qed.

(** A message about an unknown order changes neither orders nor ladders. *)
Lemma unknown_order_ignored m locate b :
  (forall id, acts_on (Engine.me_ev m) = Some id -> orders_ b !! id = None) ->
  acts_on (Engine.me_ev m) <> None ->
  orders_ (on_message (Feed.itch_message m locate) b) = orders_ b /\
  books_ (on_message (Feed.itch_message m locate) b) = books_ b.
Proof.
  intros Hu Ha. unfold Feed.itch_message.
  destruct (Engine.me_ev m) as [x|x|x|x]; cbn [acts_on] in *; [done| |destruct (ca_removed x)|];
    specialize (Hu _ eq_refl); cbn [on_message];
    unfold reduce_order, remove_order, count_executed;
    cbn [Itch.oe_order_ref Itch.oc_order_ref Itch.od_order_ref Itch.ou_original_ref].
  - change (orders_ (set_ts _ _)) with (orders_ b). rewrite Hu. cbn. by rewrite Hu.
  - cbn. by rewrite Hu.
  - cbn. by rewrite Hu.
  - cbn. by rewrite Hu.
Qed.

(** One event: the unfiltered and the filtered builder move together. *)
Lemma filtered_step symbols b1 b f m locate :
  Rep b1 f -> Rep b (restrict symbols f) -> step_ok f m ->
  Rep (on_message (Feed.itch_message m locate) b1) (market_step f m) /\
  Rep (if kept symbols (Feed.itch_message m locate) then on_message (Feed.itch_message m locate) b else b)
    (restrict symbols (market_step f m)).
Proof.
  intros HR1 HR Hok. split; [by apply on_message_rep|].
  pose proof (restrict_step symbols f m) as Hrs.
  destruct (tracked symbols (Engine.me_symbol m)) eqn:Ht.
  - assert (kept symbols (Feed.itch_message m locate) = true) as ->.
    { unfold kept, Feed.itch_message. destruct (Engine.me_ev m) as [x|x|x|x]; [exact Ht|done| |done].
      by destruct (ca_removed x). }
    eapply rep_ext; [apply on_message_rep; [exact HR|by apply restrict_step_ok]|by symmetry|done|done].
  - destruct (acts_on (Engine.me_ev m)) as [id|] eqn:Ha.
    + assert (forall i, acts_on (Engine.me_ev m) = Some i -> orders_ b !! i = None) as Hu.
      { intros i Hi. destruct (acts_on_known _ _ i (st_ev _ _ Hok) Hi) as [r Hr].
        exact (untracked_unknown symbols b1 b f _ i r HR1 HR Ht Hr). }
      destruct (unknown_order_ignored m locate b Hu) as [Eo Eb]; [by rewrite Ha|].
      destruct (kept _ _); (eapply rep_ext; [exact HR|symmetry; exact Hrs|done|done]).
    + destruct (Engine.me_ev m) as [x|x|x|x] eqn:E; try done.
      assert (kept symbols (Feed.itch_message m locate) = false) as ->.
      { unfold kept, Feed.itch_message. by rewrite E. }
      eapply rep_ext; [exact HR|symmetry; exact Hrs|done|done].
Qed.

(** ** Files *)

Lemma framable_wire m : Itch.message_ok m -> RawItch.framable (Itch.wire m).
Proof.
  intros Hm. pose proof (Itch.length_wire m Hm) as Hl.
  assert (Itch.wire m !! 0%nat = Some (Itch.message_type m)) as H0 by by destruct m.
  split_and!; [by apply Itch.itch_wire_bytes|..].
  - unfold lengthZ. rewrite Hl. by destruct m; vm_compute.
  - unfold lengthZ. rewrite Hl. by destruct m; vm_compute.
  - intros t Ht. rewrite H0 in Ht. injection Ht as <-. by right.
Qed.

Lemma process_message_wire symbols msg b s :
  Itch.message_ok msg ->
  exists s', process_message symbols (Itch.wire msg) b s =
      Ok (if kept symbols msg then on_message msg b else b, s') /\
    total s' = u64 (total s + 1).
Proof.
  intros Hm. unfold process_message, peek.
  assert (Itch.wire msg !! 0%nat = Some (Itch.message_type msg)) as -> by by destruct msg.
  cbn [deref]. rewrite outcome_bind_Ok, Itch.decode_wire, outcome_bind_Ok by done.
  destruct (kept symbols msg); eexists; (split; [done|done]).
Qed.

Lemma process_loop_spec symbols ms : forall datas fuel f f' b1 b s off,
  market f ms f' -> Forall2 message_of ms datas -> Forall encodable ms ->
  Rep b1 f -> Rep b (restrict symbols f) -> (length (concat (map framed datas)) < fuel)%nat ->
  exists r b' s', process_loop fuel symbols 0
      (RawItch.mkReader (concat (map framed datas)) off None) b s = Ok (r, b', s') /\
    RawItch.error_ r = None /\ Rep b' (restrict symbols f') /\ wrap 64 (total s') = u64 (total s + lengthZ ms).
Proof.
  induction ms as [|m ms IH]; intros datas fuel f f' b1 b s off Hm H2 Henc HR1 HR Hf;
    inversion Hm as [? ? Hff|? ? ? ? Hs Hm']; subst; inversion H2 as [|? d ? ds Hd H2']; subst;
    (destruct fuel as [|fuel]; [lia|]); cbn [process_loop Z.eqb orb negb map concat].
  - cbn. eexists _, b, s. split_and!; [done|done| |by rewrite Z.add_0_r].
    eapply rep_ext; [exact HR| |done|done]. intros s'. unfold restrict. by rewrite (Hff s').
  - apply Forall_cons in Henc as [Hm0 Henc]. destruct Hd as (locate & Hl & ->).
    pose proof (itch_message_ok m locate Hm0 Hl) as Hok.
    rewrite RawItch.next_framed, outcome_bind_Ok by (by apply framable_wire).
    destruct (process_message_wire symbols (Feed.itch_message m locate) b s Hok) as (s1 & -> & Ht).
    rewrite outcome_bind_Ok.
    destruct (filtered_step symbols b1 b f m locate HR1 HR Hs) as [HR1' HR'].
    destruct (IH ds fuel _ f' _ _ s1 (u64 (off + (2 + lengthZ (Itch.wire (Feed.itch_message m locate)))))
      Hm' H2' Henc HR1' HR') as (r & b' & s' & -> & He & HRf & Htot).
    { cbn [map concat] in Hf. rewrite length_app, length_framed in Hf. lia. }
    exists r, b', s'. split_and!; [done|done|done|]. rewrite Htot, Ht, wrap_add_l. f_equal.
    unfold lengthZ. cbn [length]. lia.
Qed.

(** Reading the raw file of a session's messages: no error, every message is
    counted, and the books of the tracked symbols are the engine's. *)
Lemma filtered_file cmds symbols e datas :
  session_ok cmds -> Forall (fun c => fits 48 c.1) cmds -> engine_run cmds = Some e ->
  Forall2 message_of (Engine.to_feed_ e) datas ->
  exists f b s SB, RawItch.write_all [] datas = Ok f /\
    process_raw_itch f symbols 0 init no_stats = Ok (true, b, s) /\
    wrap 64 (total s) = u64 (lengthZ (Engine.to_feed_ e)) /\
    @run_inv Fast (fast_engine_book default_cfg) (fast_engine_book_laws default_cfg default_cfg_ok) e SB /\
    forall sym,
      @Engine.book_snapshot Fast (fast_engine_book default_cfg) sym e = Some (Spec.to_snapshot (spec_book SB sym)) /\
      snapshot sym b = Ok (if tracked symbols sym then Spec.to_snapshot (spec_book SB sym) else mkSnapshot [] []).
Proof.
  intros Hc Hts He H2. destruct (engine_run_spec cmds Hc) as (e' & SB & Hr & Hri & Ht & Hm & _).
  rewrite He in Hr. injection Hr as <-.
  assert (Forall encodable (Engine.to_feed_ e)) as Henc by (by apply (session_encodable cmds)).
  assert (Rep init (restrict symbols (fun _ => Spec.empty))) as HR0.
  { eapply rep_ext; [apply init_rep| |done|done]. intros s. unfold restrict. by destruct (tracked symbols s). }
  destruct (process_loop_spec symbols _ datas (S (length (concat (map framed datas)))) _ _ init init no_stats 0
    Hm H2 Henc init_rep HR0 ltac:(lia)) as (r & b & s & Hp & Herr & HR & Htot).
  exists (concat (map framed datas)), b. unfold process_raw_itch, RawItch.open_reader.
  rewrite Hp, outcome_bind_Ok. eexists _, SB. split; [apply RawItch.write_all_spec|].
  split; [cbn [error]; rewrite Herr; done|]. split; [done|]. split; [done|].
  intros sym. split; [exact (book_snapshot_spec e SB sym (ri_inv _ _ Hri))|].
  rewrite (snapshot_rep b _ sym HR). unfold restrict. by destruct (tracked symbols sym).
Qed.
End ItchFile.
