(* ===== verification/Prices.v ===== *)
(** Prices as text ([make_price] and [price_to_string] of [common/types.hpp]).

    A price is a 64-bit count of ten-thousandths of a dollar. [/] and [%] round
    toward zero, as in C++, and [std::string::append] of a count that wrapped
    below zero throws. *)

From S2P Require Import Prelude Endian BookTypes Wire Symbols Soup.

Module Prices.

Definition kPriceScale : Price := 10000.

Definition make_price (dollars tenthousandths : Z) : Price := dollars * kPriceScale + tenthousandths.

(** [std::to_string] of a signed number. *)
Definition to_string (n : Z) : bytes :=
  if n <? 0 then 45 :: Soup.to_string (- n) else Soup.to_string n.

Definition price_to_string (p : Price) : outcome bytes :=
  let s := to_string (Z.quot p kPriceScale) ++ [46] in
  let frac := to_string (Z.rem p kPriceScale) in
  _ ← fail_if (4 <? lengthZ frac) "length_error";
  Ok (s ++ replicate (4 - length frac) 48 ++ frac).

(** A number has as many digits as it needs. *)
Lemma digits_fuel f : forall f' n acc,
  0 <= n < 10 ^ Z.of_nat f -> (0 < f <= f')%nat -> Soup.digits f n acc = Soup.digits f' n acc.
Proof.
  induction f as [|f IH]; intros [|f'] n acc Hn Hf; [lia..|]. cbn [Soup.digits].
  pose proof (Z.mod_pos_bound n 10 ltac:(lia)) as Hm. pose proof (Z.div_mod n 10 ltac:(lia)) as Hd.
  destruct (Z.eqb_spec (n / 10) 0) as [|E]; [done|].
  rewrite Nat2Z.inj_succ, Z.pow_succ_r in Hn by lia.
  destruct f as [|f]; [change (10 ^ Z.of_nat 0) with 1 in Hn; rewrite Z.div_small in E by lia; done|].
  apply IH; [|lia]. split; [apply Z.div_pos; lia|apply Z.div_lt_upper_bound; lia].
Qed.

Lemma to_string_short n :
  0 <= n < kPriceScale -> (length (Soup.to_string n) <= 4)%nat /\ Soup.parse_seq (Soup.to_string n) 0 = Some n.
Proof.
  intros Hn. unfold kPriceScale in Hn. unfold Soup.to_string.
  rewrite <- (digits_fuel 4 20) by (lia || (cbn; lia)).
  destruct (Soup.digits_spec 4 n []) as (ds & -> & Hl & _ & Hp); [cbn; lia|lia|lia|].
  rewrite app_nil_r. split; [done|]. specialize (Hp []). by rewrite app_nil_r in Hp.
Qed.

Lemma parse_zeros k ds : Soup.parse_seq (replicate k 48 ++ ds) 0 = Soup.parse_seq ds 0.
Proof. induction k as [|k IH]; [done|]. exact IH. Qed.

(** Prices as text. A price that is not negative is written as its dollars,
    a point and exactly four decimals, and the two numbers read back give the
    price; in particular a price made of dollars and ten-thousandths shows
    those. *)
Theorem price_text dollars frac :
  0 <= dollars -> 0 <= frac < kPriceScale -> make_price dollars frac < 2 ^ 63 ->
  exists s1 s2, price_to_string (make_price dollars frac) = Ok (s1 ++ [46] ++ s2) /\
    length s2 = 4%nat /\
    Soup.parse_seq s1 0 = Some dollars /\ Soup.parse_seq s2 0 = Some frac.
Proof.
  intros Hd Hf Hp. unfold make_price in *. change kPriceScale with 10000 in *.
  unfold price_to_string. cbv zeta. change kPriceScale with 10000.
  rewrite Z.quot_div_nonneg, Z.rem_mod_nonneg by lia.
  replace ((dollars * 10000 + frac) / 10000) with dollars by (apply Z.div_unique with frac; lia).
  replace ((dollars * 10000 + frac) mod 10000) with frac by (apply Z.mod_unique with dollars; lia).
  unfold to_string. destruct (Z.ltb_spec dollars 0); [lia|]. destruct (Z.ltb_spec frac 0); [lia|].
  destruct (to_string_short frac Hf) as [Hl Hv].
  destruct (Soup.to_string_spec dollars) as (_ & _ & Hdv); [unfold fits; lia|].
  assert (4 <? lengthZ (Soup.to_string frac) = false) as -> by (unfold lengthZ; lia).
  cbn [fail_if]. rewrite outcome_bind_Ok.
  exists (Soup.to_string dollars), (replicate (4 - length (Soup.to_string frac)) 48 ++ Soup.to_string frac).
  split_and!; [by rewrite <- app_assoc|rewrite length_app, length_replicate; lia|done|].
  by rewrite parse_zeros.
Qed.

Lemma price_text_witness :
  exists s1 s2, price_to_string (make_price 150 25) = Ok (s1 ++ [46] ++ s2) /\ length s2 = 4%nat /\
    Soup.parse_seq s1 0 = Some 150 /\ Soup.parse_seq s2 0 = Some 25.
Proof. apply price_text; [lia|by vm_compute|by vm_compute]. Defined.

(** Below zero the sign appears in the fraction, or the call throws. *)
Example negative_price_text :
  price_to_string (-15) = Ok [48; 46; 48; 45; 49; 53] /\ price_to_string (-1234) = Throw "length_error".
Proof. done. Qed.
End Prices.
