(* ===== verification/Text.v ===== *)
(** Text in and out of the programs under [apps]: the conversions of [printf]
    they use, [atoi], and the options of their command lines.

    A C string is the list of its characters, without the terminating zero. *)

From S2P Require Import Prelude Endian Soup Prices.
From Stdlib Require Import Ascii.

Module Text.

(** A string literal of the source. *)
Definition str (s : string) : bytes := map chr (String.list_ascii_of_string s).
Arguments str s%_string_scope.

(** ** printf *)

(** [%8s] and [%-8s]. *)
Definition pad_left (width : nat) (s : bytes) : bytes := replicate (width - length s) 32 ++ s.
Definition pad_right (width : nat) (s : bytes) : bytes := s ++ replicate (width - length s) 32.

(** [%u] and [%llu]. *)
Definition unsigned (n : Z) : bytes := Soup.to_string n.

(** [%d]. *)
Definition signed (n : Z) : bytes := if n <? 0 then str "-" ++ unsigned (- n) else unsigned n.

(** [snprintf] into a buffer of [size] characters. *)
Definition clip (size : nat) (s : bytes) : bytes := take (size - 1) s.

Definition newline : bytes := [10].

(** Different numbers are written differently. *)
Lemma unsigned_inj n m : fits 64 n -> fits 64 m -> unsigned n = unsigned m -> n = m.
Proof.
  intros Hn Hm E. destruct (Soup.to_string_spec n Hn) as (_ & _ & H1).
  destruct (Soup.to_string_spec m Hm) as (_ & _ & H2). unfold unsigned in E. rewrite E in H1. congruence.
Qed.

Lemma unsigned_bytes n : fits 64 n -> Forall is_byte (unsigned n).
Proof.
  intros Hn. destruct (Soup.to_string_spec n Hn) as (_ & Hd & _).
  eapply Forall_impl; [exact Hd|]. unfold Soup.is_digit, is_byte. intros. lia.
Qed.

Lemma clip_all size s : (length s < size)%nat -> clip size s = s.
Proof. intros H. apply take_ge. lia. Qed.

(** ** atoi *)

Definition is_space (c : Z) : bool := (c =? 32) || ((9 <=? c) && (c <=? 13)).

Fixpoint skip_space (s : bytes) : bytes :=
  match s with
  | c :: s' => if is_space c then skip_space s' else s
  | [] => []
  end.

Fixpoint leading_number (s : bytes) (acc : Z) : Z :=
  match s with
  | c :: s' => if (48 <=? c) && (c <=? 57) then leading_number s' (acc * 10 + (c - 48)) else acc
  | [] => acc
  end.

(** The value of a number of [bits] bits; undefined when it does not fit. *)
Definition parse_int (bits : Z) (s : bytes) : outcome Z :=
  let s := skip_space s in
  let n := match s with
    | 45 :: s' => - leading_number s' 0
    | 43 :: s' => leading_number s' 0
    | _ => leading_number s 0
    end in
  if (- 2 ^ (bits - 1) <=? n) && (n <? 2 ^ (bits - 1)) then Ok n else Undefined.

Definition atoi (s : bytes) : outcome Z := parse_int 32 s.
Definition atoll (s : bytes) : outcome Z := parse_int 64 s.

Lemma leading_parse ds : forall acc n,
  Forall Soup.is_digit ds -> 0 <= acc -> leading_number ds acc < 2 ^ 64 ->
  Soup.parse_seq ds acc = Some n -> leading_number ds acc = n.
Proof.
  induction ds as [|d ds IH]; intros acc n Hd Ha Hb; cbn [leading_number Soup.parse_seq] in *; [by intros [= ->]|].
  apply Forall_cons in Hd as [[H1 H2] Hd].
  destruct (Z.ltb_spec d 48); [lia|]. destruct (Z.ltb_spec 57 d); [lia|]. cbn [orb].
  destruct (Z.leb_spec 48 d); [|lia]. destruct (Z.leb_spec d 57); [|lia]. cbn [andb] in *.
  assert (forall l a, 0 <= a -> a <= leading_number l a) as Hmono.
  { clear. induction l as [|c l IH]; intros a Ha; cbn [leading_number]; [lia|].
    destruct (_ && _) eqn:E; [|lia]. apply andb_true_iff in E as [E1%Z.leb_le E2%Z.leb_le].
    specialize (IH (a * 10 + (c - 48)) ltac:(lia)). lia. }
  specialize (Hmono ds (acc * 10 + (d - 48)) ltac:(lia)).
  rewrite (wrap_small 64 (acc * 10)) by (unfold fits; lia). rewrite wrap_small by (unfold fits; lia).
  apply IH; [done|lia|done].
Qed.

Lemma leading_bound ds : forall acc, Forall Soup.is_digit ds -> 0 <= acc ->
  leading_number ds acc < (acc + 1) * 10 ^ Z.of_nat (length ds).
Proof.
  induction ds as [|d ds IH]; intros acc Hd Ha; cbn [leading_number length]; [cbn; lia|].
  apply Forall_cons in Hd as [[H1 H2] Hd]. rewrite Nat2Z.inj_succ, Z.pow_succ_r by lia.
  destruct (_ && _).
  - specialize (IH (acc * 10 + (d - 48)) Hd ltac:(lia)). nia.
  - assert (0 < 10 ^ Z.of_nat (length ds)) by (apply Z.pow_pos_nonneg; lia). nia.
Qed.

Lemma digits_no_space ds : ds <> [] -> Forall Soup.is_digit ds ->
  skip_space ds = ds.
Proof.
  destruct ds as [|d ds]; [done|]. intros _ [[H1 H2] _]%Forall_cons.
  cbn [skip_space]. unfold is_space. destruct (Z.eqb_spec d 32); [lia|].
  destruct (Z.leb_spec 9 d); [|done]. destruct (Z.leb_spec d 13); [lia|done].
Qed.

Lemma digits_nonempty fuel : forall n acc, acc <> [] -> Soup.digits fuel n acc <> [].
Proof. induction fuel as [|f IH]; intros n acc Ha; cbn [Soup.digits]; [done|]. destruct (_ =? 0); [done|]. by apply IH. Qed.

Lemma digits_some fuel n : Soup.digits (S fuel) n [] <> [].
Proof. cbn [Soup.digits]. destruct (_ =? 0); [done|]. by apply digits_nonempty. Qed.

Lemma unsigned_length n : 0 <= n < 10 ^ 10 -> (length (unsigned n) <= 10)%nat.
Proof.
  intros Hn. unfold unsigned, Soup.to_string. rewrite <- (Prices.digits_fuel 10 20) by (lia || (cbn; lia)).
  destruct (Soup.digits_spec 10 n []) as (ds & -> & Hl & _); [cbn; lia|lia|lia|].
  by rewrite app_nil_r.
Qed.

(** A number that was written reads back. *)
Lemma atoi_unsigned n : 0 <= n < 2 ^ 31 -> atoi (unsigned n) = Ok n.
Proof.
  intros Hn. destruct (Soup.to_string_spec n) as (_ & Hd & Hp); [unfold fits; lia|].
  assert (length (unsigned n) <= 10)%nat as Hl by (apply unsigned_length; lia).
  assert (unsigned n <> []) as Hne by apply (digits_some 19).
  fold (unsigned n) in *. pose proof (digits_no_space _ Hne Hd) as Hs.
  unfold atoi, parse_int. rewrite Hs. cbv zeta.
  replace (match unsigned n with 45 :: s' => - leading_number s' 0 | 43 :: s' => leading_number s' 0 |
    _ => leading_number (unsigned n) 0 end) with n.
  - change (2 ^ (32 - 1)) with (2 ^ 31). destruct (Z.leb_spec (- 2 ^ 31) n); [|lia].
    destruct (Z.ltb_spec n (2 ^ 31)); [done|lia].
  - assert (leading_number (unsigned n) 0 = n) as E.
    { apply leading_parse; [done|lia| |done].
      pose proof (leading_bound (unsigned n) 0 Hd ltac:(lia)) as Hb.
      assert (10 ^ Z.of_nat (length (unsigned n)) <= 10 ^ 10) by (apply Z.pow_le_mono_r; lia). lia. }
    destruct (unsigned n) as [|d ds]; [done|]. apply Forall_cons in Hd as [[H1 H2] _].
    clear -E H1 H2. assert (d = 48 \/ d = 49 \/ d = 50 \/ d = 51 \/ d = 52 \/ d = 53 \/ d = 54 \/ d = 55 \/
      d = 56 \/ d = 57) as Hd by lia. naive_solver.
Qed.
End Text.

(** ** Options *)

Module CommandLine.
Import Text.

(** [for (int i = 1; i + 1 < argc; ++i)] over the arguments after the first. *)
Fixpoint find_value (name : bytes) (args : list bytes) : option bytes :=
  match args with
  | a :: ((v :: _) as rest) => if bool_decide (a = name) then Some v else find_value name rest
  | _ => None
  end.

Definition arg_value (argv : list bytes) (name fallback : bytes) : bytes :=
  default fallback (find_value name (tail argv)).

Definition has_flag (argv : list bytes) (name : bytes) : bool := bool_decide (name ∈ tail argv).

(** The value is the argument after the first occurrence of the name. *)
Lemma find_value_spec name args v :
  find_value name args = Some v <->
  exists pre post, args = pre ++ name :: v :: post /\ name ∉ pre.
Proof.
  induction args as [|a args IH].
  { split; [done|]. intros ([|? pre] & post & E & _); discriminate. }
  destruct args as [|b rest].
  { cbn. split; [done|]. intros ([|? [|? pre]] & post & E & _); discriminate. }
  change (find_value name (a :: b :: rest)) with
    (if bool_decide (a = name) then Some b else find_value name (b :: rest)).
  case_bool_decide as Ha.
  - subst a. split.
    + intros [= <-]. exists [], rest. split; [done|]. apply not_elem_of_nil.
    + intros (pre & post & E & Hn). destruct pre as [|p pre]; [by injection E as -> ->|].
      injection E as -> _. destruct Hn. by constructor.
  - rewrite IH. split.
    + intros (pre & post & E & Hn). exists (a :: pre), post. split; [by rewrite E|].
      rewrite elem_of_cons. naive_solver.
    + intros (pre & post & E & Hn). destruct pre as [|p pre]; [by injection E as <- _|].
      injection E as -> E. exists pre, post. split; [done|]. rewrite elem_of_cons in Hn. naive_solver.
Qed.
End CommandLine.
