(* ===== verification/Daemon.v ===== *)
(** The command line of the exchange daemon ([apps/exchanged.cpp]): its options,
    the system they start, and what it prints. *)

From S2P Require Import Prelude Clock Endian Capture Feed Gateway Exchange Soup Text.
From Stdlib Require Import Ascii.

Module Daemon.
Import Text.

(** [FeedConfig] and [RunConfig], as far as [main] sets them, with the port of
    the gateway and the mode of the channel. *)
Record Settings := mkSettings {
  port : Z;
  dest_ip : bytes;
  dest_port : Z;
  session : bytes;
  capture_path : bytes;
  ll_mode : bool;
  lock_memory : bool;
  pin_core : Z }.

Definition settings (argv : list bytes) : outcome Settings :=
  port ← atoi (CommandLine.arg_value argv (str "--port") (str "26400"));
  dest_port ← atoi (CommandLine.arg_value argv (str "--mcast-port") (str "26000"));
  let ll_mode := CommandLine.has_flag argv (str "--ll-mode") in
  pin_core ← atoi (CommandLine.arg_value argv (str "--engine-core") (str "-1"));
  Ok (mkSettings (u16 port) (CommandLine.arg_value argv (str "--mcast") (str "239.192.0.1")) (u16 dest_port)
        (CommandLine.arg_value argv (str "--session") (str "NSQSIM"))
        (CommandLine.arg_value argv (str "--capture") []) ll_mode
        (ll_mode || CommandLine.has_flag argv (str "--lock-memory")) pin_core).

(** [FeedConfig::mtu]. *)
Definition mtu : Z := 1400.

(** [opened]: the capture file could be created. *)
Definition capture (s : Settings) (opened : bool) : option Capture.CaptureWriter :=
  match capture_path s with [] => None | _ => Some (Capture.open_writer opened) end.

(** The three components, constructed and started. *)
Definition launch (s : Settings) (opened : bool) (clock : nat -> Z) : Exchange.Exchange :=
  Exchange.start (session s) mtu (capture s opened) (ll_mode s) clock.

(** What the engine's thread does and says before its loop. *)
Definition engine_prologue (p : Cpu.Platform) (s : Settings) : bytes :=
  (if lock_memory s && negb (Cpu.lock_all_memory p) then str "engine: mlockall failed (continuing unlocked)" ++ newline else []) ++
  (if (0 <=? pin_core s) && negb (Cpu.pin_thread_to_core p (pin_core s)) then str "engine: core pinning unavailable on this OS" ++ newline else []).

Definition banner (bound_port : Z) (s : Settings) : bytes :=
  str "exchanged: OUCH gateway on tcp/" ++ unsigned bound_port ++ str ", ITCH feed to " ++ dest_ip s ++ str ":" ++
  unsigned (dest_port s) ++ str " (" ++ session s ++ str ")" ++
  (if ll_mode s then str "  [low-latency mode]" else []) ++ newline.

Definition farewell (x : Exchange.Exchange) : bytes :=
  str "exchanged: shutting down" ++ newline ++
  str "exchanged: done (" ++ unsigned (Feed.packets_sent_ (Exchange.pub x)) ++ str " feed packets)" ++ newline.

Lemma settings_default prog :
  settings [prog] = Ok (mkSettings 26400 (str "239.192.0.1") 26000 (str "NSQSIM") [] false false (-1)).
Proof. reflexivity. Qed.

(** Low-latency mode asks for locked memory; a port is taken as it is written. *)
Lemma settings_low_latency prog n :
  0 <= n < 2 ^ 16 ->
  settings [prog; str "--ll-mode"; str "--port"; unsigned n] =
    Ok (mkSettings n (str "239.192.0.1") 26000 (str "NSQSIM") [] true true (-1)).
Proof.
  intros Hn. unfold settings.
  assert (CommandLine.arg_value [prog; str "--ll-mode"; str "--port"; unsigned n] (str "--port") (str "26400") =
    unsigned n) as -> by done.
  rewrite atoi_unsigned, outcome_bind_Ok by lia. rewrite wrap_small by (unfold fits; lia). reflexivity.
Qed.

(** With default settings the daemon says nothing about memory or cores. *)
Lemma default_prologue_silent prog s p :
  settings [prog] = Ok s -> engine_prologue p s = [].
Proof. intros E. vm_compute in E. by injection E as <-. Qed.

(** A core the machine does not have is reported, whatever its number. *)
Lemma absent_core_reported p s cores :
  Cpu.linux p = true -> 0 <= cores <= Cpu.kSetBits ->
  (forall mask, Cpu.setaffinity p mask = 0 <-> exists i, 0 <= i < cores /\ Z.testbit mask i = true) ->
  lock_memory s = false -> cores <= pin_core s < 2 ^ 31 ->
  engine_prologue p s = str "engine: core pinning unavailable on this OS" ++ newline.
Proof.
  intros Hl Hc Hk Hm Hp. unfold engine_prologue. rewrite Hm. cbn [andb app].
  rewrite (proj2 (Z.leb_le _ _)) by lia.
  destruct (Cpu.pin_thread_to_core p (pin_core s)) eqn:E; [|done].
  apply (Cpu.pin_exactly_available p cores) in E; [lia|done|done|done|lia].
Qed.
End Daemon.
