(* ===== verification/Startup.v ===== *)
(** Setting the exchange up and taking it down: the constructors and destructors
    of the poller, the gateway and the feed publisher ([gateway/poller.cpp],
    [gateway/gateway.cpp], [feed/feed.cpp]) and the part of [main] of
    [apps/exchanged.cpp] that constructs the components.

    The state is the process's table of open descriptors, each with its
    [O_NONBLOCK] flag. What the system calls answer is an argument; [Throw] is an exception
    out of a constructor, after which the destructor of the object does not
    run, only those of the members that are complete. *)

From S2P Require Import Prelude Endian Capture Text Daemon.
From Stdlib Require Import Ascii.

Module Startup.
Import Text.

(** Open descriptors, and whether they are non-blocking. *)
Abbreviation Fds := (gmap Z bool).

Definition open (fd : Z) (t : Fds) : Fds := <[fd := false]> t.
Definition close (fd : Z) (t : Fds) : Fds := delete fd t.

(** [fcntl] on a descriptor that is not open changes nothing. *)
Definition set_nonblocking (fd : Z) (t : Fds) : Fds :=
  match t !! fd with
  | Some _ => <[fd := true]> t
  | None => t
  end.

(** ** The poller *)

(** Which backend is compiled in. *)
Inductive Backend := Epoll | Kqueue.

Definition poller_make (b : Backend) (fd : option Z) (t : Fds) : outcome Z * Fds :=
  match fd with
  | Some fd => (Ok fd, open fd t)
  | None => (Throw (match b with Epoll => "epoll_create1() failed" | Kqueue => "kqueue() failed" end)%string, t)
  end.

Definition poller_destroy (poll_fd_ : Z) (t : Fds) : Fds :=
  if 0 <=? poll_fd_ then close poll_fd_ t else t.

(** ** The gateway *)

(** What the system answers: [bind_error] is the text of [errno] if [bind]
    fails, [bound_port] what [getsockname] reports. *)
Record GatewayAnswers := mkGatewayAnswers {
  poller_fd : option Z;
  socket_fd : option Z;
  bind_error : option string;
  listens : bool;
  bound_port : Z;
  pipe_fds : option (Z * Z) }.

(** [hook] is the descriptor the notification hook of the queue writes to. *)
Record Gateway := mkGateway {
  poll_fd_ : Z;
  listen_fd_ : Z;
  wake_pipe_ : Z * Z;
  port_ : Z;
  hook : Z }.

(** The body of the constructor; [poller_] is complete. *)
Definition gateway_body (a : GatewayAnswers) (poll : Z) (t : Fds) : outcome Gateway * Fds :=
  match socket_fd a with
  | None => (Throw "socket() failed"%string, t)
  | Some listen_fd =>
      let t := open listen_fd t in
      match bind_error a with
      | Some e => (Throw (String.append "bind() failed: " e), t)
      | None =>
          if negb (listens a) then (Throw "listen() failed"%string, t)
          else
          let t := set_nonblocking listen_fd t in
          let port := bound_port a in
          match pipe_fds a with
          | None => (Throw "pipe() failed"%string, t)
          | Some (r, w) =>
              let t := open w (open r t) in
              let t := set_nonblocking r t in
              let t := set_nonblocking w t in
              (Ok (mkGateway poll listen_fd (r, w) port w), t)
          end
      end
  end.

(** An exception of the body destroys the members. *)
Definition gateway_make (b : Backend) (a : GatewayAnswers) (t : Fds) : outcome Gateway * Fds :=
  match poller_make b (poller_fd a) t with
  | (Ok poll, t) =>
      match gateway_body a poll t with
      | (Throw e, t) => (Throw e, poller_destroy poll t)
      | r => r
      end
  | (Throw e, t) => (Throw e, t)
  | (Undefined, t) => (Undefined, t)
  end.

(** The destructor, after [stop], and then that of the member. *)
Definition gateway_destroy (g : Gateway) (t : Fds) : Fds :=
  let t := if 0 <=? listen_fd_ g then close (listen_fd_ g) t else t in
  let t := close (fst (wake_pipe_ g)) t in
  let t := close (snd (wake_pipe_ g)) t in
  poller_destroy (poll_fd_ g) t.

(** ** The feed publisher *)

(** The address in network byte order, as [inet_pton] stores it. *)
Definition is_multicast (a : bytes) : outcome bool :=
  s_addr ← get_be32 a 0;
  let first := Z.shiftr s_addr 24 in
  Ok ((224 <=? first) && (first <=? 239)).

Inductive SocketOption := MulticastLoop | MulticastIf (a : bytes).

Record Feed := mkFeed { fd_ : Z; options : list SocketOption; capture_ : option Capture.CaptureWriter }.

(** [pton] is [inet_pton(AF_INET, ...)]: the four bytes of an address, if the
    text is one. *)
Definition multicast_options (pton : bytes -> option bytes) (mcast_if_ip dest : bytes) : outcome (list SocketOption) :=
  multicast ← is_multicast dest;
  Ok (if multicast : bool
      then MulticastLoop :: match pton mcast_if_ip with Some a => [MulticastIf a] | None => [] end
      else []).

(** [opened] says that the capture file could be created. *)
Definition feed_make (pton : bytes -> option bytes) (fd : option Z) (opened : bool) (s : Daemon.Settings)
    (mcast_if_ip : bytes) (t : Fds) : outcome Feed * Fds :=
  match fd with
  | None => (Throw "feed socket() failed"%string, t)
  | Some fd =>
      let t := open fd t in
      let capture := Daemon.capture s opened in
      match pton (Daemon.dest_ip s) with
      | None => (Throw "bad feed dest ip"%string, t)
      | Some dest => (opts ← multicast_options pton mcast_if_ip dest; Ok (mkFeed fd opts capture), t)
      end
  end.

Definition feed_destroy (f : Feed) (t : Fds) : Fds := if 0 <=? fd_ f then close (fd_ f) t else t.

(** [FeedConfig::mcast_if_ip]. *)
Definition mcast_if_ip : bytes := str "127.0.0.1".

(** ** The components of the daemon *)

(** [main] up to the banner: nothing catches an exception. *)
Definition boot (b : Backend) (pton : bytes -> option bytes) (a : GatewayAnswers) (feed_fd : option Z)
    (opened : bool) (s : Daemon.Settings) (t : Fds) : outcome (Gateway * Feed * bytes) * Fds :=
  match gateway_make b a t with
  | (Ok g, t) =>
      match feed_make pton feed_fd opened s mcast_if_ip t with
      | (Ok f, t) => (Ok (g, f, Daemon.banner (port_ g) s), t)
      | (Throw e, t) => (Throw e, t)
      | (Undefined, t) => (Undefined, t)
      end
  | (Throw e, t) => (Throw e, t)
  | (Undefined, t) => (Undefined, t)
  end.

(** ** Descriptors *)

(** The kernel hands out descriptors that are not open. *)
Definition kernel_fds (l : list Z) (t : Fds) : Prop :=
  NoDup l /\ Forall (fun fd => 0 <= fd /\ t !! fd = None) l.

Definition gateway_fds (a : GatewayAnswers) : list Z :=
  option_list (poller_fd a) ++ option_list (socket_fd a) ++
  match pipe_fds a with Some (r, w) => [r; w] | None => [] end.

(** What an exception out of the constructor leaves open. *)
Definition leaked (a : GatewayAnswers) : option Z :=
  match poller_fd a with Some _ => socket_fd a | None => None end.

Lemma kernel_fds_tail fd l t : kernel_fds (fd :: l) t -> kernel_fds l (open fd t) /\ 0 <= fd /\ t !! fd = None.
Proof.
  intros [Hn Hf]. apply NoDup_cons in Hn as [Hni Hn]. apply Forall_cons in Hf as [Hfd Hf].
  split; [split; [done|]|done]. rewrite Forall_forall in *. intros x Hx. split; [by apply Hf|].
  unfold open. rewrite lookup_insert_ne; [by apply Hf|]. by intros ->.
Qed.

Lemma kernel_fds_nonblocking fd l t : kernel_fds l t -> t !! fd = Some false -> kernel_fds l (set_nonblocking fd t).
Proof.
  intros [Hn Hf] Ht. split; [done|]. rewrite Forall_forall in *. intros x Hx. destruct (Hf x Hx) as [H0 H1].
  split; [done|]. unfold set_nonblocking. rewrite Ht, lookup_insert_ne; [done|]. intros ->. congruence.
Qed.

Lemma nonblocking_same fd v t : set_nonblocking fd (<[fd := v]> t) = <[fd := true]> t.
Proof. unfold set_nonblocking. by rewrite lookup_insert_eq, insert_insert_eq. Qed.

Lemma nonblocking_other fd x v t : fd <> x -> set_nonblocking fd (<[x := v]> t) = <[x := v]> (set_nonblocking fd t).
Proof.
  intros Hne. unfold set_nonblocking. rewrite lookup_insert_ne by done.
  destruct (t !! fd); [by apply insert_insert_ne|done].
Qed.

Lemma poller_destroy_insert poll v t : 0 <= poll -> t !! poll = None -> poller_destroy poll (<[poll := v]> t) = t.
Proof.
  intros H0 Ht. unfold poller_destroy, close. rewrite (proj2 (Z.leb_le _ _) H0). by apply delete_insert_id.
Qed.

(** The table after a complete construction. *)
Definition with_gateway (g : Gateway) (t : Fds) : Fds :=
  <[snd (wake_pipe_ g) := true]> (<[fst (wake_pipe_ g) := true]>
    (<[listen_fd_ g := true]> (<[poll_fd_ g := false]> t))).

Definition gateway_distinct (g : Gateway) (t : Fds) : Prop :=
  kernel_fds [poll_fd_ g; listen_fd_ g; fst (wake_pipe_ g); snd (wake_pipe_ g)] t.

Lemma gateway_destroy_all g t : gateway_distinct g t -> gateway_destroy g (with_gateway g t) = t.
Proof.
  destruct g as [p l [r w] port h]. unfold gateway_distinct, gateway_destroy, with_gateway, poller_destroy, close.
  cbn [poll_fd_ listen_fd_ wake_pipe_ fst snd]. intros H.
  apply kernel_fds_tail in H as (H & Hp0 & Hp). apply kernel_fds_tail in H as (H & Hl0 & Hl).
  apply kernel_fds_tail in H as (H & Hr0 & Hr). apply kernel_fds_tail in H as (_ & Hw0 & Hw).
  rewrite (proj2 (Z.leb_le _ _) Hp0), (proj2 (Z.leb_le _ _) Hl0).
  unfold open in Hl, Hr, Hw. apply map_eq. intros i.
  repeat apply lookup_insert_None in Hw as [Hw ?]. repeat apply lookup_insert_None in Hr as [Hr ?].
  repeat apply lookup_insert_None in Hl as [Hl ?].
  destruct (decide (i = p)) as [->|]; [by rewrite lookup_delete_eq|rewrite lookup_delete_ne by done].
  destruct (decide (i = w)) as [->|]; [by rewrite lookup_delete_eq|rewrite lookup_delete_ne by done].
  destruct (decide (i = r)) as [->|]; [by rewrite lookup_delete_eq|rewrite lookup_delete_ne by done].
  destruct (decide (i = l)) as [->|]; [by rewrite lookup_delete_eq|rewrite lookup_delete_ne by done].
  by rewrite !lookup_insert_ne.
Qed.

(** The gateway's descriptors. Whatever the system answers, the constructor
    either returns a gateway that has opened exactly the poller, the listening
    socket and the two ends of the pipe, the last three non-blocking, with the
    hook writing to the end the thread does not read and the port the socket is
    bound to, and the destructor closes all four; or it throws. The destructor
    does not run then: the poller is closed, but the listening socket, once
    created, stays open. *)
Lemma gateway_descriptors b a t :
  kernel_fds (gateway_fds a) t ->
  match gateway_make b a t with
  | (Ok g, t') => t' = with_gateway g t /\ hook g = snd (wake_pipe_ g) /\ port_ g = bound_port a /\
      gateway_destroy g t' = t
  | (Throw _, t') => match leaked a with Some fd => exists v, t' = <[fd := v]> t | None => t' = t end
  | (Undefined, _) => False
  end.
Proof.
  intros Hk. unfold gateway_make, poller_make, leaked. unfold gateway_fds in Hk.
  destruct (poller_fd a) as [p|]; [|done]. cbn [option_list app] in Hk.
  pose proof Hk as Hk0. apply kernel_fds_tail in Hk0 as (Hk0 & Hp0 & Hp). unfold gateway_body.
  destruct (socket_fd a) as [l|]; [|by apply poller_destroy_insert]. cbn [option_list app] in Hk, Hk0.
  apply kernel_fds_tail in Hk0 as (Hk1 & Hl0 & Hl). unfold open in Hl. apply lookup_insert_None in Hl as [Hl Hpl].
  assert (forall v, poller_destroy p (<[l := v]> (open p t)) = <[l := v]> t) as Hd.
  { intros v. unfold open. rewrite insert_insert_ne by done. apply poller_destroy_insert; [done|].
    by rewrite lookup_insert_ne. }
  destruct (bind_error a); [exists false; apply Hd|]. destruct (listens a); cbn [negb]; [|exists false; apply Hd].
  unfold open in *. rewrite nonblocking_same. destruct (pipe_fds a) as [[r w]|]; [|exists true; apply Hd].
  apply kernel_fds_tail in Hk1 as (Hk2 & Hr0 & Hr). apply kernel_fds_tail in Hk2 as (_ & Hw0 & Hw).
  unfold open in Hw. repeat apply lookup_insert_None in Hw as [Hw ?].
  rewrite (nonblocking_other r w) by done. rewrite !nonblocking_same.
  split_and!; [reflexivity..|]. by apply (gateway_destroy_all (mkGateway p l (r, w) (bound_port a) w)).
Qed.

(** ** The feed and the daemon *)

(** An address is a multicast one by its first byte. *)
Lemma is_multicast_first a rest :
  Forall is_byte (a :: rest) -> length rest = 3%nat ->
  is_multicast (a :: rest) = Ok ((224 <=? a) && (a <=? 239)).
Proof.
  intros Hb Hl. unfold is_multicast. rewrite get_be32_slice by (done || (cbn; lia)).
  apply Forall_cons in Hb as [Ha Hb].
  assert (slice 0 4 (a :: rest) = a :: rest) as -> by (unfold slice; cbn; by rewrite firstn_all2 by lia).
  rewrite outcome_bind_Ok. cbv zeta. rewrite Z.shiftr_div_pow2 by lia. cbn [be_value]. rewrite Hl.
  pose proof (be_value_bound rest Hb) as Hv. rewrite Hl in Hv.
  change (2 ^ (8 * Z.of_nat 3)) with (2 ^ 24) in *. rewrite Z.div_add_l, (Z.div_small (be_value rest)) by lia.
  by rewrite Z.add_0_r.
Qed.

(** What [inet_pton] promises: four bytes. *)
Definition pton_ok (pton : bytes -> option bytes) : Prop :=
  forall text a, pton text = Some a -> length a = 4%nat /\ Forall is_byte a.

Lemma multicast_options_ok pton ifip dest :
  length dest = 4%nat -> Forall is_byte dest -> exists opts, multicast_options pton ifip dest = Ok opts.
Proof.
  intros Hl Hb. destruct dest as [|a rest]; [done|]. unfold multicast_options.
  rewrite is_multicast_first by (done || (cbn in Hl; lia)). rewrite outcome_bind_Ok. eauto.
Qed.

Lemma kernel_fds_app l l' t : kernel_fds (l ++ l') t -> kernel_fds l t /\ kernel_fds l' t /\ forall x, x ∈ l -> x ∉ l'.
Proof.
  intros [Hn Hf]. apply NoDup_app in Hn as (H1 & H2 & H3). apply Forall_app in Hf as [H4 H5]. by split_and!.
Qed.

(** The gateway of a successful construction has the descriptors answered. *)
Lemma gateway_make_fds b a t g t' x :
  gateway_make b a t = (Ok g, t') -> t !! x = None -> x ∉ gateway_fds a -> t' !! x = None.
Proof.
  unfold gateway_make, poller_make, gateway_body, gateway_fds, set_nonblocking, open.
  destruct (poller_fd a) as [p|]; [|done]. destruct (socket_fd a) as [l|]; [|done].
  destruct (bind_error a); [done|]. destruct (listens a); [|done].
  destruct (pipe_fds a) as [[r w]|]; [|done]. cbn [negb option_list app].
  intros [= <- <-] Hx Hni. cbn in Hni. rewrite !not_elem_of_cons in Hni. destruct Hni as (? & ? & ? & ? & _).
  repeat case_match; by rewrite !lookup_insert_ne by done.
Qed.

(** The daemon's descriptors. Whatever the system answers, [main] either
    gets through its constructors with five descriptors opened, those of the
    gateway as its constructor leaves them, announces the port the socket is
    really bound to, and the destructors, in their order, close all five and
    nothing else; or an exception ends it and no descriptor it was given has
    been touched. *)
Theorem daemon_boots b pton a feed_fd opened s t :
  pton_ok pton -> kernel_fds (gateway_fds a ++ option_list feed_fd) t ->
  match boot b pton a feed_fd opened s t with
  | (Ok (g, f, text), t') =>
      t' = <[fd_ f := false]> (with_gateway g t) /\ hook g = snd (wake_pipe_ g) /\
      text = Daemon.banner (bound_port a) s /\ gateway_destroy g (feed_destroy f t') = t
  | (Throw _, t') => t ⊆ t'
  | (Undefined, _) => False
  end.
Proof.
  intros Hpt Hk. apply kernel_fds_app in Hk as (Hg & Hf & Hdis). unfold boot.
  pose proof (gateway_descriptors b a t Hg) as Hspec.
  assert (forall fd v, fd ∈ gateway_fds a -> t ⊆ <[fd := v]> t) as Hsub.
  { intros fd v Hin. apply insert_subseteq. destruct Hg as [_ Hg]. rewrite Forall_forall in Hg. by apply Hg. }
  destruct (gateway_make b a t) as [[g|e|] t1] eqn:Hm; [|..|done].
  2:{ destruct (leaked a) as [fd|] eqn:Hl; [|by rewrite Hspec]. destruct Hspec as [v ->]. apply Hsub.
      unfold leaked in Hl. unfold gateway_fds. destruct (poller_fd a); [|done]. rewrite Hl.
      apply elem_of_app. right. apply elem_of_app. left. by left. }
  destruct Hspec as (-> & Hh & Hp & Hd). unfold feed_make.
  assert (t ⊆ with_gateway g t) as Hgt.
  { rewrite <- Hd at 1. unfold gateway_destroy, poller_destroy, close. repeat case_match;
      repeat (etrans; [apply delete_subseteq|]); done. }
  destruct feed_fd as [fd|]; [|done]. cbn [option_list] in Hf, Hdis.
  apply kernel_fds_tail in Hf as (_ & Hf0 & Hft).
  assert (with_gateway g t !! fd = None) as Hfn.
  { eapply gateway_make_fds; [exact Hm|done|]. intros Hin. apply (Hdis fd Hin). by left. }
  destruct (pton (Daemon.dest_ip s)) as [dest|] eqn:Hpd.
  2:{ etrans; [exact Hgt|]. by apply insert_subseteq. }
  destruct (Hpt _ _ Hpd) as [Hl Hb]. destruct (multicast_options_ok pton mcast_if_ip dest Hl Hb) as [opts ->].
  rewrite outcome_bind_Ok. split_and!; [done|done|by rewrite Hp|].
  unfold feed_destroy, close. cbn [fd_]. rewrite (proj2 (Z.leb_le _ _) Hf0). unfold open.
  by rewrite delete_insert_id.
Qed.

(** With descriptors 0 to 2 open, as a process starts. *)
Definition std_fds : Fds := {[0 := false; 1 := false; 2 := false]}.

Definition demo_answers : GatewayAnswers := mkGatewayAnswers (Some 3) (Some 4) None true 26400 (Some (5, 6)).

Lemma daemon_boots_witness :
  exists f opts, boot Epoll (fun _ => Some [239; 192; 0; 1]) demo_answers (Some 7) false
      (Daemon.mkSettings 26400 (str "239.192.0.1") 26000 (str "NSQSIM") [] false false (-1)) std_fds =
    (Ok (mkGateway 3 4 (5, 6) 26400 6, mkFeed 7 opts None,
       Daemon.banner 26400 (Daemon.mkSettings 26400 (str "239.192.0.1") 26000 (str "NSQSIM") [] false false (-1))), f) /\
    feed_destroy (mkFeed 7 opts None) f !! 7 = None /\
    gateway_destroy (mkGateway 3 4 (5, 6) 26400 6) (feed_destroy (mkFeed 7 opts None) f) = std_fds.
Proof.
  pose proof (daemon_boots Epoll (fun _ => Some [239; 192; 0; 1]) demo_answers (Some 7) false
    (Daemon.mkSettings 26400 (str "239.192.0.1") 26000 (str "NSQSIM") [] false false (-1)) std_fds) as H.
  eexists _, _. split; [reflexivity|]. split; [reflexivity|]. apply H.
  - intros text a [= <-]. split; [done|]. repeat (constructor; [unfold is_byte; lia|]). constructor.
  - split; cbn; [repeat constructor; set_solver|]. repeat (constructor; [split; [lia|reflexivity]|]). constructor.
Defined.
End Startup.
