(* ===== verification/Doubles.v ===== *)
(** The [double] arithmetic of the tools: IEEE 754 binary64, round to nearest
    even, from the Standard Library's executable specification of floating
    point; conversions from and to integers and the [%.nf] of [printf]. *)

From S2P Require Import Prelude Endian Soup Prices Text.
From Stdlib Require Import Floats.SpecFloat.

Module Doubles.
Import Text.

Abbreviation double := spec_float.

Definition dmul : double -> double -> double := SFmul 53 1024.
Definition dadd : double -> double -> double := SFadd 53 1024.
Definition ddiv : double -> double -> double := SFdiv 53 1024.
Definition dltb : double -> double -> bool := SFltb.

(** [static_cast<double>] of an integer. *)
Definition of_Z (n : Z) : double := binary_normalize 53 1024 n 0 false.

(** The literal [m / 10^k], the nearest double to the decimal number. *)
Definition literal (m : positive) (k : nat) : double :=
  ddiv (S754_finite false m 0) (S754_finite false (Z.to_pos (10 ^ Z.of_nat k)) 0).

(** The integral part, of a finite number. *)
Definition trunc (x : double) : option Z :=
  match x with
  | S754_zero _ => Some 0
  | S754_finite s m e =>
      let n := if 0 <=? e then Zpos m * 2 ^ e else Zpos m / 2 ^ (- e) in
      Some (if s then - n else n)
  | _ => None
  end.

(** [static_cast<std::uint64_t>], undefined when the integral part does not fit. *)
Definition to_uint64 (x : double) : outcome Z :=
  match trunc x with
  | Some n => if (0 <=? n) && (n <? 2 ^ 64) then Ok n else Undefined
  | None => Undefined
  end.

(** ** printf *)

(** [n / d] to the nearest integer, a tie to the even one. *)
Definition round_ratio (n d : Z) : Z :=
  let q := n / d in
  let r := n mod d in
  if 2 * r <? d then q
  else if d <? 2 * r then q + 1
  else if Z.even q then q else q + 1.

(** All the digits of a natural number, at least one. *)
Definition decimal (n : Z) : bytes := Soup.digits (S (Z.to_nat (Z.log2 n))) n [].

(** [%.kf]; how a NaN is written differs between platforms. *)
Definition fixed (nan_text : bytes) (k : nat) (x : double) : bytes :=
  let sign (s : bool) := if s then str "-" else [] in
  let digits n :=
    let scale := 10 ^ Z.of_nat k in
    decimal (n / scale) ++
    match k with
    | O => []
    | _ =>
        let frac := decimal (n mod scale) in
        str "." ++ replicate (k - length frac) 48 ++ frac
    end in
  match x with
  | S754_zero s => sign s ++ digits 0
  | S754_infinity s => sign s ++ str "inf"
  | S754_nan => nan_text
  | S754_finite s m e =>
      let n := Zpos m * 10 ^ Z.of_nat k in
      sign s ++ digits (if 0 <=? e then n * 2 ^ e else round_ratio n (2 ^ (- e)))
  end.

Example fixed_examples :
  fixed [] 1 (ddiv (of_Z 7) (of_Z 2)) = str "3.5" /\
  fixed [] 0 (ddiv (of_Z 5) (of_Z 2)) = str "2" /\
  fixed [] 2 (literal 314159 5) = str "3.14" /\
  fixed [] 1 (ddiv (of_Z 1) (of_Z 0)) = str "inf".
Proof. by vm_compute. Qed.
End Doubles.
