(* ===== verification/Histogram.v ===== *)
(** The latency histogram of [common/histogram.hpp]: log-linear buckets, and
    what a percentile read from them says about the recorded values. The rank a
    percentile asks for is computed in double precision, as in the source. *)

From S2P Require Import Prelude Endian Text Doubles.

Module Histogram.
Import Doubles.

Definition kMinorBits : Z := 4.

(** [63 - std::countl_zero(v)] is the position of the highest bit. *)
Definition slot (v : Z) : Z :=
  if v <? 2 ^ kMinorBits then v else
  let msb := Z.log2 v in
  let major := msb - kMinorBits + 1 in
  let minor := Z.land (Z.shiftr v (msb - kMinorBits)) (2 ^ kMinorBits - 1) in
  Z.shiftl major kMinorBits + minor.

Definition upper_bound (s : Z) : Z :=
  let major := Z.shiftr s kMinorBits in
  let minor := Z.land s (2 ^ kMinorBits - 1) in
  if major =? 0 then minor else
  let shift := major - 1 in
  u64 (Z.shiftl (2 ^ kMinorBits + minor + 1) shift).

Record LatencyHistogram := mkHistogram {
  buckets_ : list Z;
  count_ : Z;
  max_ : Z;
  min_ : Z }.

Definition empty : LatencyHistogram := mkHistogram (replicate 1024 0) 0 0 0.

Definition record (ns : Z) (h : LatencyHistogram) : outcome LatencyHistogram :=
  n ← deref (buckets_ h !z! slot ns);
  let count := u64 (count_ h + 1) in
  Ok (mkHistogram (<z[slot ns := u64 (n + 1)]> (buckets_ h)) count
        (if max_ h <? ns then ns else max_ h)
        (if (ns <? min_ h) || (count =? 1) then ns else min_ h)).

Definition min (h : LatencyHistogram) : Z := if count_ h =? 0 then 0 else min_ h.

(** The loop of [percentile] from bucket [i] on. *)
Fixpoint find_rank (target : Z) (buckets : list Z) (i seen : Z) : option Z :=
  match buckets with
  | [] => None
  | n :: buckets =>
      let seen := u64 (seen + n) in
      if (target <=? seen) && (0 <? n) then Some (upper_bound i)
      else find_rank target buckets (i + 1) seen
  end.

(** [static_cast<std::uint64_t>(count * p / 100.0 + 0.5)]. *)
Definition rank (count : Z) (p : double) : outcome Z :=
  to_uint64 (dadd (ddiv (dmul (of_Z count) p) (of_Z 100)) (literal 5 1)).

Definition percentile (p : double) (h : LatencyHistogram) : outcome Z :=
  if count_ h =? 0 then Ok 0 else
  target ← rank (count_ h) p;
  Ok (default (max_ h) (find_rank target (buckets_ h) 0 0)).

Definition summary (label : bytes) (h : LatencyHistogram) : outcome bytes :=
  p50 ← percentile (of_Z 50) h;
  p90 ← percentile (of_Z 90) h;
  p99 ← percentile (of_Z 99) h;
  p999 ← percentile (literal 999 1) h;
  p9999 ← percentile (literal 9999 2) h;
  let field width n := Text.pad_right width (Text.unsigned n) in
  Ok (Text.clip 320 (Text.pad_right 22 label ++ Text.str " n=" ++ field 9%nat (count_ h) ++
    Text.str " p50=" ++ field 7%nat p50 ++ Text.str " p90=" ++ field 7%nat p90 ++
    Text.str " p99=" ++ field 7%nat p99 ++ Text.str " p99.9=" ++ field 7%nat p999 ++
    Text.str " p99.99=" ++ field 7%nat p9999 ++ Text.str " max=" ++ Text.unsigned (max_ h) ++
    Text.str " (ns)")).

(** Recording values one after the other. *)
Fixpoint record_all (vs : list Z) (h : LatencyHistogram) : outcome LatencyHistogram :=
  match vs with
  | [] => Ok h
  | v :: vs => h ← record v h; record_all vs h
  end.

(** ** Slots *)

(** A value of at least sixteen is its five leading bits, [16 + minor], and
    [e] bits below them. *)
Lemma slot_large v :
  16 <= v -> exists e m, 0 <= e /\ 0 <= m < 16 /\ e = Z.log2 v - 4 /\
    slot v = 16 * (e + 1) + m /\ (16 + m) * 2 ^ e <= v < (16 + m + 1) * 2 ^ e.
Proof.
  intros Hv. set (e := Z.log2 v - 4).
  assert (4 <= Z.log2 v) as Hl by (change 4 with (Z.log2 16); by apply Z.log2_le_mono).
  destruct (Z.log2_spec v ltac:(lia)) as [H1 H2].
  replace (Z.succ (Z.log2 v)) with (e + 5) in H2 by lia. replace (Z.log2 v) with (e + 4) in H1 by lia.
  rewrite Z.pow_add_r in H1, H2 by lia. change (2 ^ 4) with 16 in H1. change (2 ^ 5) with 32 in H2.
  assert (0 < 2 ^ e) as Hp by (apply Z.pow_pos_nonneg; lia).
  set (q := v / 2 ^ e). pose proof (Z.div_mod v (2 ^ e) ltac:(lia)) as Hd. fold q in Hd.
  pose proof (Z.mod_pos_bound v (2 ^ e) Hp) as Hm.
  assert (16 <= q < 32) as Hq by (split; [apply Z.div_le_lower_bound; lia|apply Z.div_lt_upper_bound; lia]).
  exists e, (q - 16). split_and!; try lia.
  unfold slot. destruct (Z.ltb_spec v (2 ^ kMinorBits)) as [Hlt|_]; [change (2 ^ kMinorBits) with 16 in Hlt; lia|].
  cbv zeta. change kMinorBits with 4. rewrite Z.shiftl_mul_pow2, Z.shiftr_div_pow2 by lia.
  fold e. fold q. change (2 ^ 4 - 1) with (Z.ones 4). rewrite Z.land_ones by lia. change (2 ^ 4) with 16.
  replace (q mod 16) with (q - 16) by (rewrite (Z.mod_eq q 16) by lia;
    replace (q / 16) with 1 by (apply Z.div_unique with (q - 16); lia); lia).
  lia.
Qed.

Lemma slot_small v : 0 <= v < 16 -> slot v = v.
Proof.
  intros Hv. unfold slot. destruct (Z.ltb_spec v (2 ^ kMinorBits)) as [|Hge]; [done|].
  change (2 ^ kMinorBits) with 16 in Hge. lia.
Qed.

Lemma slot_range v : fits 64 v -> 0 <= slot v < 976.
Proof.
  intros [H0 H1]. destruct (Z.lt_ge_cases v 16) as [Hv|Hv]; [rewrite slot_small; lia|].
  destruct (slot_large v Hv) as (e & m & He & Hm & Ee & -> & _).
  assert (Z.log2 v < 64) by (apply Z.log2_lt_pow2; lia). lia.
Qed.

Lemma slot_mono v w : 0 <= v <= w -> slot v <= slot w.
Proof.
  intros [H0 Hle]. destruct (Z.lt_ge_cases w 16) as [Hw|Hw]; [rewrite !slot_small; lia|].
  destruct (slot_large w Hw) as (e & m & He & Hm & Ee & Es & Hb).
  destruct (Z.lt_ge_cases v 16) as [Hv|Hv]; [rewrite slot_small, Es; lia|].
  destruct (slot_large v Hv) as (e' & m' & He' & Hm' & Ee' & Es' & Hb').
  pose proof (Z.log2_le_mono v w Hle) as Hlog. rewrite Es, Es'.
  destruct (decide (e' = e)) as [->|Hne]; [|lia].
  assert (0 < 2 ^ e) by (apply Z.pow_pos_nonneg; lia). nia.
Qed.

Lemma upper_bound_slot v :
  0 <= v < 31 * 2 ^ 59 -> v <= upper_bound (slot v) <= v + v / 16.
Proof.
  intros [H0 Hv]. assert (forall x, Z.land x (2 ^ kMinorBits - 1) = x mod 16) as Hland.
  { intros x. change (2 ^ kMinorBits - 1) with (Z.ones 4). by rewrite Z.land_ones by lia. }
  assert (forall x, Z.shiftr x kMinorBits = x / 16) as Hshr
    by (intros x; change kMinorBits with 4; by rewrite Z.shiftr_div_pow2 by lia).
  unfold upper_bound. cbv zeta. rewrite Hland, Hshr.
  destruct (Z.lt_ge_cases v 16) as [Hs|Hs].
  - rewrite slot_small by lia. rewrite Z.div_small, Z.mod_small by lia. cbn [Z.eqb].
    pose proof (Z.div_pos v 16 H0 ltac:(lia)). lia.
  - destruct (slot_large v Hs) as (e & m & He & Hm & Ee & -> & Hb).
    assert (0 < 2 ^ e) as Hp by (apply Z.pow_pos_nonneg; lia).
    replace ((16 * (e + 1) + m) / 16) with (e + 1)
      by (apply Z.div_unique with m; lia).
    replace ((16 * (e + 1) + m) mod 16) with m
      by (apply Z.mod_unique with (e + 1); lia).
    destruct (Z.eqb_spec (e + 1) 0); [lia|]. change (2 ^ kMinorBits) with 16.
    replace (e + 1 - 1) with e by lia. rewrite Z.shiftl_mul_pow2 by lia.
    assert (16 * 2 ^ e <= v) as H16 by nia.
    assert (2 ^ e <= v / 16) by (apply Z.div_le_lower_bound; lia).
    rewrite wrap_small; [lia|]. split; [nia|].
    assert (e <= 59) as He59.
    { assert (Z.log2 v < 64); [|lia]. apply Z.log2_lt_pow2; lia. }
    destruct (decide (e = 59)) as [->|]; [nia|].
    assert (2 ^ e <= 2 ^ 58) by (apply Z.pow_le_mono_r; lia). nia.
Qed.

Lemma upper_bound_top v : 31 * 2 ^ 59 <= v < 2 ^ 64 -> upper_bound (slot v) = 0.
Proof.
  intros Hv. destruct (slot_large v ltac:(lia)) as (e & m & He & Hm & Ee & Es & Hb).
  assert (e = 59) as ->.
  { rewrite Ee. assert (Z.log2 v = 63) as ->; [|lia]. apply Z.log2_unique; lia. }
  assert (m = 15) as -> by nia. rewrite Es. by vm_compute.
Qed.

(** ** Counting *)

Definition count_if (P : Z -> bool) (vs : list Z) : Z := sum_by (fun v => if P v then 1 else 0) vs.

Lemma count_if_bounds P vs : 0 <= count_if P vs <= lengthZ vs.
Proof.
  unfold count_if, lengthZ. induction vs as [|v vs IH]; cbn [sum_by length]; [lia|].
  destruct (P v); lia.
Qed.

Lemma count_if_le P Q vs :
  Forall (fun v => P v = true -> Q v = true) vs -> count_if P vs <= count_if Q vs.
Proof.
  unfold count_if. induction 1 as [|v vs Hv _ IH]; cbn [sum_by]; [lia|].
  destruct (P v); [rewrite Hv by done; lia|]. destruct (Q v); lia.
Qed.

Lemma count_if_none P vs : Forall (fun v => P v = false) vs -> count_if P vs = 0.
Proof. unfold count_if. induction 1 as [|v vs Hv _ IH]; cbn [sum_by]; [done|]. by rewrite Hv, IH. Qed.

Lemma count_if_slots i vs :
  count_if (fun v => slot v <=? i) vs =
    count_if (fun v => slot v <=? i - 1) vs + count_if (fun v => slot v =? i) vs.
Proof.
  unfold count_if. induction vs as [|v vs IH]; cbn [sum_by]; [done|]. rewrite IH.
  destruct (Z.leb_spec (slot v) i), (Z.leb_spec (slot v) (i - 1)), (Z.eqb_spec (slot v) i); lia.
Qed.

(** ** Recording *)

Record Rep (h : LatencyHistogram) (vs : list Z) : Prop := {
  hr_length : lengthZ (buckets_ h) = 1024;
  hr_buckets : forall i, 0 <= i < 1024 -> buckets_ h !z! i = Some (count_if (fun v => slot v =? i) vs);
  hr_count : count_ h = lengthZ vs;
  hr_max : Forall (fun v => v <= max_ h) vs /\ (vs <> [] -> max_ h ∈ vs);
  hr_min : Forall (fun v => min_ h <= v) vs /\ (vs <> [] -> min_ h ∈ vs);
  hr_max_nonneg : vs = [] -> max_ h = 0 }.

Lemma histogram_empty_rep : Rep empty [].
Proof.
  split; try done. intros i Hi. cbn [buckets_ empty]. rewrite lookupZ_replicate by lia. done.
Qed.

Lemma record_rep h vs v :
  Rep h vs -> fits 64 v -> lengthZ vs + 1 < 2 ^ 64 ->
  exists h', record v h = Ok h' /\ Rep h' (v :: vs).
Proof.
  intros [H1 H2 H3 [H4 H4'] [H5 H5'] H6] Hv Hn. pose proof (slot_range v Hv) as Hs.
  pose proof (lengthZ_nonneg vs). unfold record. rewrite (H2 (slot v)) by lia. cbn [deref].
  rewrite outcome_bind_Ok. eexists. split; [done|].
  assert (lengthZ (v :: vs) = lengthZ vs + 1) as El by (unfold lengthZ; cbn [length]; lia).
  rewrite H3, (wrap_small 64 (lengthZ vs + 1)) by (unfold fits; lia).
  split; cbn [buckets_ count_ max_ min_]; [by rewrite lengthZ_insertZ| |by rewrite El|..|done].
  - intros i Hi. rewrite lookupZ_insertZ by (rewrite H1; lia).
    change (count_if (fun w => slot w =? i) (v :: vs)) with
      ((if slot v =? i then 1 else 0) + count_if (fun w => slot w =? i) vs).
    destruct (Z.eqb_spec (slot v) i) as [->|Hne]; [|rewrite H2 by lia; f_equal; lia].
    pose proof (count_if_bounds (fun w => slot w =? i) vs). rewrite wrap_small by (unfold fits; lia).
    f_equal. lia.
  - destruct (Z.ltb_spec (max_ h) v) as [Hlt|Hge]; split.
    + constructor; [lia|]. eapply Forall_impl; [exact H4|]. cbn. intros; lia.
    + intros _. apply list_elem_of_here.
    + constructor; [lia|done].
    + intros _. destruct vs as [|w vs]; [|apply list_elem_of_further, H4'; done].
      pose proof (H6 eq_refl). assert (v = max_ h) as -> by (destruct Hv; lia). apply list_elem_of_here.
  - destruct (Z.eqb_spec (lengthZ vs + 1) 1) as [E1|E1].
    + destruct vs as [|w vs]; [|unfold lengthZ in E1; cbn [length] in E1; lia].
      rewrite orb_true_r. split; [constructor; [lia|done]|]. intros _. apply list_elem_of_here.
    + rewrite orb_false_r. destruct (Z.ltb_spec v (min_ h)) as [Hlt|Hge]; split.
      * constructor; [lia|]. eapply Forall_impl; [exact H5|]. cbn. intros; lia.
      * intros _. apply list_elem_of_here.
      * constructor; [lia|done].
      * intros _. apply list_elem_of_further, H5'. intros ->. done.
Qed.

Lemma record_all_rep vs : forall h ws,
  Rep h ws -> Forall (fits 64) vs -> lengthZ ws + lengthZ vs < 2 ^ 64 ->
  exists h', record_all vs h = Ok h' /\ Rep h' (rev vs ++ ws).
Proof.
  induction vs as [|v vs IH]; intros h ws Hr Hv Hn; cbn [record_all rev app]; [eauto|].
  apply Forall_cons in Hv as [Hv Hvs]. assert (lengthZ (v :: vs) = lengthZ vs + 1) as El
    by (unfold lengthZ; cbn [length]; lia). pose proof (lengthZ_nonneg vs).
  destruct (record_rep h ws v Hr Hv ltac:(lia)) as (h1 & -> & Hr1). rewrite outcome_bind_Ok.
  destruct (IH h1 (v :: ws) Hr1 Hvs) as (h2 & -> & Hr2).
  { unfold lengthZ in *. cbn [length] in *. lia. }
  exists h2. split; [done|]. by rewrite <- app_assoc.
Qed.

Lemma count_if_perm P vs ws : vs ≡ₚ ws -> count_if P vs = count_if P ws.
Proof. unfold count_if. induction 1; cbn [sum_by]; lia. Qed.

(** The order in which values are recorded does not matter. *)
Lemma rep_perm h vs ws : vs ≡ₚ ws -> Rep h vs -> Rep h ws.
Proof.
  intros Hp [H1 H2 H3 [H4 H4'] [H5 H5'] H6].
  assert (ws <> [] -> vs <> []) as Hne by (intros Hw ->; by apply Permutation_nil_l in Hp).
  split; [done|..].
  - intros i Hi. rewrite H2 by done. by rewrite (count_if_perm _ vs ws).
  - rewrite H3. unfold lengthZ. by rewrite Hp.
  - split; [by rewrite <- Hp|]. intros Hw. rewrite <- Hp. auto.
  - split; [by rewrite <- Hp|]. intros Hw. rewrite <- Hp. auto.
  - intros ->. apply H6. by apply Permutation_nil_r in Hp.
Qed.

(** ** Percentiles *)

Section Rank.
Context (vs : list Z) (target : Z).
Hypothesis Hlen : lengthZ vs < 2 ^ 64.

#[local] Abbreviation cum i := (count_if (fun v => slot v <=? i) vs).

Lemma find_rank_spec s : forall buckets i,
  (forall j n, buckets !z! j = Some n -> n = count_if (fun v => slot v =? i + j) vs) ->
  i <= s < i + lengthZ buckets -> target <= cum s -> (forall j, j < s -> cum j < target) ->
  find_rank target buckets i (cum (i - 1)) = Some (upper_bound s).
Proof.
  induction buckets as [|n buckets IH]; intros i Hb Hs Ht Hlow.
  { unfold lengthZ in Hs. cbn in Hs. lia. }
  assert (lengthZ (n :: buckets) = lengthZ buckets + 1) as El by (unfold lengthZ; cbn [length]; lia).
  pose proof (Hb 0 n eq_refl) as Hn. rewrite Z.add_0_r in Hn.
  pose proof (count_if_slots i vs) as Hc. rewrite <- Hn in Hc. cbn [find_rank].
  pose proof (count_if_bounds (fun v => slot v <=? i) vs).
  pose proof (count_if_bounds (fun v => slot v =? i) vs).
  rewrite <- Hc, wrap_small by (unfold fits; lia).
  destruct (decide (i = s)) as [->|Hne].
  - specialize (Hlow (s - 1) ltac:(lia)). rewrite (proj2 (Z.leb_le _ _) Ht).
    by rewrite (proj2 (Z.ltb_lt 0 n)) by lia.
  - rewrite (proj2 (Z.leb_gt _ _)) by (apply Hlow; lia). cbn [andb].
    specialize (IH (i + 1)). replace (i + 1 - 1) with i in IH by lia. apply IH; [|lia|done|done].
    intros j m Hj. replace (i + 1 + j) with (i + (j + 1)) by lia. apply Hb.
    unfold lookupZ in *. destruct (Z.leb_spec 0 j); [|done]. destruct (Z.leb_spec 0 (j + 1)); [|lia].
    by replace (Z.to_nat (j + 1)) with (S (Z.to_nat j)) by lia.
Qed.
End Rank.

(** C40: percentiles are accurate. Record any values below 31 * 2^59 ns (five
    hundred years): no bucket index is out of range, [min] and [max] are exact,
    and for every percentile the value returned is at least the recorded value
    of the rank it asks for and exceeds it by at most a sixteenth. *)
Theorem percentile_accurate vs x p target :
  Forall (fun v => 0 <= v < 31 * 2 ^ 59) vs -> lengthZ vs < 2 ^ 64 ->
  rank (lengthZ vs) p = Ok target ->
  x ∈ vs -> count_if (fun v => v <? x) vs < target <= count_if (fun v => v <=? x) vs ->
  exists h, record_all vs empty = Ok h /\ count_ h = lengthZ vs /\
    (max_ h ∈ vs /\ Forall (fun v => v <= max_ h) vs) /\
    (min h ∈ vs /\ Forall (fun v => min h <= v) vs) /\
    exists v, percentile p h = Ok v /\ x <= v <= x + x / 16.
Proof.
  intros Hv Hn Hrank Hx [Ht1 Ht2].
  destruct (record_all_rep vs empty [] histogram_empty_rep) as (h & Hr & Hrep).
  { eapply Forall_impl; [exact Hv|]. unfold fits. cbn. intros; lia. }
  { change (lengthZ []) with 0. lia. }
  rewrite app_nil_r in Hrep. apply (rep_perm h (rev vs) vs) in Hrep; [|symmetry; apply Permutation_rev].
  destruct Hrep as [H1 H2 H3 [H4 H4'] [H5 H5'] _].
  assert (vs <> []) as Hne by (intros ->; by apply not_elem_of_nil in Hx).
  assert (count_ h <> 0) as Hc0.
  { rewrite H3. destruct vs; [done|]. unfold lengthZ. cbn [length]. lia. }
  assert (0 <= x < 31 * 2 ^ 59) as Hxr by (rewrite Forall_forall in Hv; by apply Hv).
  exists h. split; [done|]. split; [done|]. split; [split; [by apply H4'|done]|].
  unfold min, percentile. destruct (Z.eqb_spec (count_ h) 0) as [|_]; [done|].
  split; [split; [by apply H5'|done]|]. rewrite H3, Hrank, outcome_bind_Ok.
  pose proof (slot_range x ltac:(unfold fits; lia)) as Hsx.
  pose proof (find_rank_spec vs target Hn (slot x) (buckets_ h) 0) as Hf.
  assert (count_if (fun v => slot v <=? 0 - 1) vs = 0) as E0.
  { apply count_if_none. eapply Forall_impl; [exact Hv|]. cbn. intros v Hvr. apply Z.leb_gt.
    pose proof (slot_range v ltac:(unfold fits; lia)). lia. }
  rewrite E0 in Hf. eexists. split; [reflexivity|]. rewrite Hf.
  - by apply upper_bound_slot.
  - intros j n Hj. pose proof (lookupZ_Some_bounds _ _ _ Hj). rewrite H2 in Hj by lia.
    injection Hj as <-. done.
  - lia.
  - etrans; [exact Ht2|]. apply count_if_le. eapply Forall_impl; [exact Hv|]. cbn. intros v Hvr Hle.
    apply Z.leb_le in Hle. apply Z.leb_le, slot_mono. lia.
  - intros j Hj. eapply Z.le_lt_trans; [|exact Ht1]. apply count_if_le.
    eapply Forall_impl; [exact Hv|]. cbn. intros v Hvr Hle. apply Z.leb_le in Hle. apply Z.ltb_lt.
    destruct (Z.lt_ge_cases v x) as [|Hge]; [done|]. pose proof (slot_mono x v ltac:(lia)). lia.
Qed.

Lemma percentile_accurate_witness :
  exists h v, record_all [5; 1000; 17; 1000000] empty = Ok h /\
    percentile (of_Z 75) h = Ok v /\ 1000 <= v <= 1000 + 1000 / 16.
Proof.
  destruct (percentile_accurate [5; 1000; 17; 1000000] 1000 (of_Z 75) 3) as (h & Hr & _ & _ & _ & v & Hp & Hv).
  - repeat (constructor; [lia|]). constructor.
  - by vm_compute.
  - by vm_compute.
  - apply list_elem_of_further, list_elem_of_here.
  - by vm_compute.
  - exists h, v. split; [exact Hr|]. split; [exact Hp|exact Hv].
Defined.

(** The values of the top bucket: its upper bound does not fit 64 bits. *)
Example top_bucket_wraps : upper_bound (slot (2 ^ 64 - 1)) = 0.
Proof. apply upper_bound_top. lia. Qed.
End Histogram.
