(* ===== verification/Display.v ===== *)
(** The ladder the command-line tools print ([print_ladder] of
    [apps/itchlisten.cpp], the same in [itchfile.cpp] and [demo.cpp]).

    What is written to the terminal is returned as text. *)

From S2P Require Import Prelude Endian BookTypes Soup Prices Text.
From Stdlib Require Import Ascii.

Module Display.
Import Text.

Definition total (l : SnapshotLevel) : Qty :=
  fold_left (fun total o => u32 (total + so_qty o)) (sl_orders l) 0.

(** The two buffers of 64 characters of a row; empty beyond the last level. *)
Definition bid_cell (snap : BookSnapshot) (row : nat) : outcome bytes :=
  match bs_bids snap !! row with
  | None => Ok []
  | Some l =>
      px ← Prices.price_to_string (sl_price l);
      Ok (clip 64 (pad_left 8 (unsigned (total l)) ++ str "  " ++ pad_left 10 px))
  end.

Definition ask_cell (snap : BookSnapshot) (row : nat) : outcome bytes :=
  match bs_asks snap !! row with
  | None => Ok []
  | Some l =>
      px ← Prices.price_to_string (sl_price l);
      Ok (clip 64 (pad_right 10 px ++ str "  " ++ pad_left 8 (unsigned (total l))))
  end.

Definition row_line (bid ask : bytes) : bytes :=
  str "  " ++ pad_right 22 bid ++ str " | " ++ ask ++ newline.

Definition header : bytes :=
  str "  " ++ pad_right 22 (str "BID") ++ str " | " ++ str "ASK" ++ newline ++
  str "  " ++ str "-----------------------+-----------------------" ++ newline.

Definition is_nil (s : bytes) : bool := match s with [] => true | _ => false end.

(** The loop over the rows from [i] on, [n] of them left. *)
Fixpoint rows (n i : nat) (snap : BookSnapshot) : outcome bytes :=
  match n with
  | O => Ok []
  | S n =>
      bid ← bid_cell snap i;
      ask ← ask_cell snap i;
      if is_nil bid && is_nil ask then Ok []
      else rest ← rows n (S i) snap; Ok (row_line bid ask ++ rest)
  end.

Definition print_ladder (snap : BookSnapshot) (depth : Z) : outcome bytes :=
  body ← rows (Z.to_nat depth) 0 snap; Ok (header ++ body).

(** ** What is shown *)

Definition price_string (p : Price) : bytes :=
  match Prices.price_to_string p with Ok s => s | _ => [] end.

Lemma price_string_ok p : 0 <= p < 2 ^ 63 -> Prices.price_to_string p = Ok (price_string p).
Proof.
  intros Hp. destruct (Prices.price_text (p / Prices.kPriceScale) (p mod Prices.kPriceScale))
    as (s1 & s2 & E & _).
  - apply Z.div_pos; [lia|done].
  - by apply Z.mod_pos_bound.
  - unfold Prices.make_price. rewrite Z.mul_comm, <- Z.div_mod by done. lia.
  - unfold Prices.make_price in E. rewrite Z.mul_comm, <- Z.div_mod in E by done.
    unfold price_string. by rewrite E.
Qed.

Definition bid_text (l : SnapshotLevel) : bytes :=
  clip 64 (pad_left 8 (unsigned (total l)) ++ str "  " ++ pad_left 10 (price_string (sl_price l))).

Definition ask_text (l : SnapshotLevel) : bytes :=
  clip 64 (pad_right 10 (price_string (sl_price l)) ++ str "  " ++ pad_left 8 (unsigned (total l))).

(** A row: the level of each side at that depth, blank beyond the last. *)
Definition shown_row (snap : BookSnapshot) (i : nat) : bytes :=
  row_line (from_option bid_text [] (bs_bids snap !! i)) (from_option ask_text [] (bs_asks snap !! i)).

Definition depth_of (snap : BookSnapshot) : nat := Nat.max (length (bs_bids snap)) (length (bs_asks snap)).

Definition showable (snap : BookSnapshot) : Prop :=
  Forall (fun l => 0 <= sl_price l < 2 ^ 63) (bs_bids snap) /\
  Forall (fun l => 0 <= sl_price l < 2 ^ 63) (bs_asks snap).

Lemma bid_text_some l : is_nil (bid_text l) = false.
Proof.
  unfold bid_text, clip, pad_left at 1. destruct (unsigned (total l)) as [|c s]; [done|].
  by destruct (8 - _)%nat.
Qed.

Lemma ask_text_some l : is_nil (ask_text l) = false.
Proof. unfold ask_text, clip, pad_right. by destruct (price_string _). Qed.

Lemma bid_cell_ok snap i : showable snap -> bid_cell snap i = Ok (from_option bid_text [] (bs_bids snap !! i)).
Proof.
  intros [Hb _]. unfold bid_cell. destruct (bs_bids snap !! i) as [l|] eqn:E; [|done].
  rewrite price_string_ok by (rewrite Forall_lookup in Hb; by eapply Hb). done.
Qed.

Lemma ask_cell_ok snap i : showable snap -> ask_cell snap i = Ok (from_option ask_text [] (bs_asks snap !! i)).
Proof.
  intros [_ Ha]. unfold ask_cell. destruct (bs_asks snap !! i) as [l|] eqn:E; [|done].
  rewrite price_string_ok by (rewrite Forall_lookup in Ha; by eapply Ha). done.
Qed.

Lemma rows_ok snap n : forall i, showable snap ->
  rows n i snap = Ok (concat (map (shown_row snap) (seq i (Nat.min n (depth_of snap - i))))).
Proof.
  induction n as [|n IH]; intros i Hs; cbn [rows]; [done|].
  rewrite bid_cell_ok, ask_cell_ok by done. rewrite !outcome_bind_Ok.
  destruct (decide (i < depth_of snap)%nat) as [Hi|Hi].
  - assert (is_nil (from_option bid_text [] (bs_bids snap !! i)) &&
      is_nil (from_option ask_text [] (bs_asks snap !! i)) = false) as ->.
    { unfold depth_of in Hi. destruct (bs_bids snap !! i) as [l|] eqn:E1; [cbn [from_option]; by rewrite bid_text_some|].
      destruct (bs_asks snap !! i) as [l|] eqn:E2; [cbn [from_option]; by rewrite ask_text_some, andb_false_r|].
      apply lookup_ge_None in E1, E2. lia. }
    rewrite IH, outcome_bind_Ok by done. f_equal.
    replace (Nat.min (S n) (depth_of snap - i)) with (S (Nat.min n (depth_of snap - S i))) by lia. done.
  - replace (depth_of snap - i)%nat with 0%nat by lia. rewrite Nat.min_0_r.
    rewrite (lookup_ge_None_2 (bs_bids snap)), (lookup_ge_None_2 (bs_asks snap)) by (unfold depth_of in Hi; lia).
    done.
Qed.

(** The ladder printed is the book's: as many rows as were asked for, or as the
    deeper side has levels, the best first; leaving the loop at the first blank
    row loses none. *)
Lemma print_ladder_ok snap depth : showable snap ->
  print_ladder snap depth =
    Ok (header ++ concat (map (shown_row snap) (seq 0 (Nat.min (Z.to_nat depth) (depth_of snap))))).
Proof.
  intros Hs. unfold print_ladder. rewrite rows_ok, outcome_bind_Ok by done. by rewrite Nat.sub_0_r.
Qed.

(** The size shown for a level is its shares, as long as they fit the type. *)
Lemma total_spec l :
  Forall (fun o => 0 <= so_qty o) (sl_orders l) ->
  total l = u32 (foldr (fun o n => so_qty o + n) 0 (sl_orders l)).
Proof.
  intros Hq. unfold total.
  enough (forall a, fits 32 a -> fold_left (fun t o => u32 (t + so_qty o)) (sl_orders l) a =
    u32 (a + foldr (fun o n => so_qty o + n) 0 (sl_orders l))) as H
    by (apply (H 0); unfold fits; lia).
  induction (sl_orders l) as [|o os IH]; intros a Ha; cbn [fold_left foldr].
  - rewrite Z.add_0_r. by rewrite wrap_small.
  - apply Forall_cons in Hq as [Ho Hq]. rewrite IH; [|done|by apply wrap_fits].
    unfold wrap. by rewrite Zplus_mod_idemp_l, Z.add_assoc.
Qed.
End Display.
