(* ===== verification/Listen.v ===== *)
(** The market-data listener ([apps/itchlisten.cpp]): it receives the feed until
    the session ends, a time limit passes or it is interrupted, and prints the
    books it rebuilt.

    A turn of the receive loop is a [Tick]: what the stop flag, the clock and
    [recvfrom] return in it. The program's result is what it printed and its
    exit status. *)

From S2P Require Import Prelude StdMap Endian BookTypes BookSpec BookReplay Wire Symbols Mold EngineBook Engine EngineInv EngineRuns MarketReplay EngineFeed EngineClaims Capture Feed FeedRefines ItchBook ItchBookRefines ItchBookSound EndToEnd Soup Prices Text Display.
From Stdlib Require Import Ascii.

Module Listen.
Import Text.

Record Tick := mkTick { t_stop : bool; t_time : Z; t_received : option bytes }.

Record Listening := mkListening {
  packets : Z;
  eos : bool;
  builder : ItchBook.ItchBookBuilder }.

Definition start_listening : Listening := mkListening 0 false ItchBook.init.

(** The receive loop; nothing when it still runs after the given turns. *)
Fixpoint listen (seconds start : Z) (ticks : list Tick) (l : Listening) : outcome (option Listening) :=
  if eos l then Ok (Some l) else
  match ticks with
  | [] => Ok None
  | t :: ticks =>
      if t_stop t then Ok (Some l) else
      if (0 <? seconds) && (seconds <=? t_time t - start) then Ok (Some l) else
      match t_received t with
      | None => listen seconds start ticks l
      | Some data =>
          let buf := take 2048 data in
          if lengthZ buf <=? 0 then listen seconds start ticks l else
          '(e, b) ← ItchBook.on_mold_packet buf (builder l);
          listen seconds start ticks (mkListening (u64 (packets l + 1)) e b)
      end
  end.

(** [%.*s] stops at a null character. *)
Fixpoint c_string (s : bytes) : bytes :=
  match s with
  | [] => []
  | c :: s => if c =? 0 then [] else c :: c_string s
  end.

(** A symbol's title and ladder. *)
Definition print_symbol (depth : Z) (b : ItchBook.ItchBookBuilder) (sym : bytes) : outcome bytes :=
  snap ← ItchBook.snapshot sym b;
  ladder ← Display.print_ladder snap depth;
  Ok (newline ++ c_string (symbol_view sym) ++ str " (top " ++ signed depth ++ str "):" ++ newline ++ ladder).

Fixpoint print_symbols (depth : Z) (b : ItchBook.ItchBookBuilder) (syms : list bytes) : outcome bytes :=
  match syms with
  | [] => Ok []
  | sym :: syms =>
      text ← print_symbol depth b sym;
      rest ← print_symbols depth b syms;
      Ok (text ++ rest)
  end.

Definition had_gap (b : ItchBook.ItchBookBuilder) : bool := Mold.had_gap_ (ItchBook.gaps_ b).

Definition totals (l : Listening) : bytes :=
  newline ++ str "itchlisten: " ++ unsigned (packets l) ++ str " packets, " ++
  unsigned (ItchBook.messages_ (builder l)) ++ str " messages, gaps=" ++
  str (if had_gap (builder l) then "YES" else "none") ++
  str (if eos l then " (end of session)" else "") ++ newline.

Definition report (char_signed : bool) (l : Listening) : outcome (bytes * Z) :=
  ladders ← print_symbols 8 (builder l) (ItchBook.symbols char_signed (builder l));
  Ok (totals l ++ ladders, if had_gap (builder l) then 2 else 0).

(** The whole program. [bound] and [joined] say whether the socket could be
    bound and the group joined; [start] is the time when listening began. *)
Definition main (char_signed : bool) (argv : list bytes) (bound joined : bool) (start : Z)
    (ticks : list Tick) : outcome (option (bytes * Z)) :=
  let group := CommandLine.arg_value argv (str "--group") (str "239.192.0.1") in
  port ← atoi (CommandLine.arg_value argv (str "--port") (str "26000"));
  seconds ← atoi (CommandLine.arg_value argv (str "--seconds") (str "0"));
  if negb bound then Ok (Some ([], 1)) else
  if negb joined then Ok (Some ([], 1)) else
  let hello := str "itchlisten: joined " ++ group ++ str ":" ++ unsigned (u16 port) ++ newline in
  l ← listen seconds start ticks start_listening;
  match l with
  | None => Ok None
  | Some l => '(text, status) ← report char_signed l; Ok (Some (hello ++ text, status))
  end.

(** ** Receiving *)

(** A turn that does not end the loop by itself. *)
Definition goes_on (seconds start : Z) (t : Tick) : Prop :=
  t_stop t = false /\ (seconds <= 0 \/ t_time t - start < seconds).

Definition heard (t : Tick) : option bytes :=
  match t_received t with Some (c :: data) => Some (c :: data) | _ => None end.

Lemma goes_on_limit seconds start t :
  goes_on seconds start t -> t_stop t = false /\ (0 <? seconds) && (seconds <=? t_time t - start) = false.
Proof.
  intros [Hs Ht]. split; [done|]. destruct (Z.ltb_spec 0 seconds); [|done].
  destruct (Z.leb_spec seconds (t_time t - start)); [lia|done].
Qed.

(** Timeouts and empty datagrams apart, the loop hands the datagrams to the
    builder until one ends the session. *)
Lemma listen_packets seconds start : forall ticks pkts fin later l flags b,
  Forall (goes_on seconds start) ticks -> omap heard ticks = pkts ++ [fin] ->
  Forall (fun d => lengthZ d <= 2048) (pkts ++ [fin]) -> eos l = false ->
  on_packets (pkts ++ [fin]) (builder l) = Ok (flags, b) ->
  flags = replicate (length pkts) false ++ [true] ->
  fits 64 (packets l) ->
  listen seconds start (ticks ++ later) l =
    Ok (Some (mkListening (u64 (packets l + lengthZ (pkts ++ [fin]))) true b)).
Proof.
  induction ticks as [|t ticks IH]; intros pkts fin later l flags b Hgo Hh Hsz He Hon Hf Hn.
  { cbn in Hh. by destruct pkts. }
  apply Forall_cons in Hgo as [Ht Hgo]. destruct (goes_on_limit _ _ _ Ht) as [Hs Hlim].
  cbn [app listen]. rewrite He, Hs, Hlim. cbn [omap list_omap] in Hh. unfold heard in Hh.
  destruct (t_received t) as [[|c data]|]; cbn [take]; [by eapply IH| |by eapply IH].
  change (list_omap _ _ heard ticks) with (omap heard ticks) in Hh.
  assert (lengthZ (c :: take 2047 data) <=? 0 = false) as ->
    by (apply Z.leb_gt; unfold lengthZ; cbn [length]; lia).
  change (c :: take 2047 data) with (take 2048 (c :: data)).
  destruct pkts as [|p pkts]; cbn [app] in Hh; injection Hh as Hd Hh.
  - subst fin. apply Forall_cons in Hsz as [Hsz _]. rewrite take_ge by (unfold lengthZ in Hsz; lia).
    cbn [app on_packets] in Hon.
    destruct (ItchBook.on_mold_packet (c :: data) (builder l)) as [[e b1]| |]; try done.
    rewrite !outcome_bind_Ok in Hon. injection Hon as <- <-. injection Hf as ->. rewrite outcome_bind_Ok.
    by destruct (ticks ++ later).
  - subst p. apply Forall_cons in Hsz as [Hsz0 Hsz]. rewrite take_ge by (unfold lengthZ in Hsz0; lia).
    cbn [app on_packets] in Hon.
    destruct (ItchBook.on_mold_packet (c :: data) (builder l)) as [[e b1]| |]; try done.
    rewrite !outcome_bind_Ok in Hon.
    destruct (on_packets (pkts ++ [fin]) b1) as [[fl b2]| |] eqn:E; try done.
    rewrite outcome_bind_Ok in Hon. injection Hon as <- <-. injection Hf as -> Hf. rewrite outcome_bind_Ok.
    erewrite (IH pkts fin later (mkListening _ false b1)); try done; [|by apply wrap_fits].
    cbn [packets app]. rewrite wrap_add_l.
    replace (lengthZ ((c :: data) :: pkts ++ [fin])) with (1 + lengthZ (pkts ++ [fin]))
      by (unfold lengthZ; cbn [length]; lia). by rewrite Z.add_assoc.
Qed.

(** ** The report *)

(** What is printed for a book. *)
Definition shown_book (depth : Z) (sym : bytes) (snap : BookSnapshot) : bytes :=
  newline ++ c_string (symbol_view sym) ++ str " (top " ++ signed depth ++ str "):" ++ newline ++
  Display.header ++
  concat (map (Display.shown_row snap) (seq 0 (Nat.min (Z.to_nat depth) (Display.depth_of snap)))).

Lemma print_symbols_ok depth b (f : bytes -> BookSnapshot) syms :
  (forall s, ItchBook.snapshot s b = Ok (f s)) -> (forall s, Display.showable (f s)) ->
  print_symbols depth b syms = Ok (concat (map (fun s => shown_book depth s (f s)) syms)).
Proof.
  intros Hf Hs. induction syms as [|s syms IH]; cbn [print_symbols map concat]; [done|].
  unfold print_symbol. rewrite Hf, outcome_bind_Ok, Display.print_ladder_ok, !outcome_bind_Ok by done.
  rewrite IH, outcome_bind_Ok. done.
Qed.

(** The line above the ladders, at the end of a session. *)
Definition shown_totals (npackets nmessages : Z) (gap : bool) : bytes :=
  newline ++ str "itchlisten: " ++ unsigned npackets ++ str " packets, " ++ unsigned nmessages ++
  str " messages, gaps=" ++ (if gap then str "YES" else str "none") ++ str " (end of session)" ++ newline.

(** A client with consistent tables reports, gap or no gap. *)
Lemma report_sound char_signed n b :
  sound b -> exists books : bytes -> BookSnapshot,
    (forall sym, ItchBook.snapshot sym b = Ok (books sym)) /\
    report char_signed (mkListening n true b) =
      Ok (shown_totals n (ItchBook.messages_ b) (had_gap b) ++
            concat (map (fun sym => shown_book 8 sym (books sym)) (ItchBook.symbols char_signed b)),
          if had_gap b then 2 else 0).
Proof.
  intros Hb. exists (fun sym => match ItchBook.snapshot sym b with Ok snap => snap | _ => mkSnapshot [] [] end).
  assert (forall sym, exists snap, ItchBook.snapshot sym b = Ok snap /\ Display.showable snap) as Hs.
  { intros sym. destruct (snapshot_sound sym b Hb) as (snap & Hsnap & H1 & H2). exists snap. split; [done|].
    split; (eapply Forall_impl; [eassumption|]); cbn; unfold fits; intros; lia. }
  assert (forall sym, ItchBook.snapshot sym b = Ok (match ItchBook.snapshot sym b with
    Ok snap => snap | _ => mkSnapshot [] [] end)) as Hsn by (intros sym; by destruct (Hs sym) as (snap & -> & _)).
  split; [exact Hsn|]. unfold report. cbn [builder]. rewrite (print_symbols_ok 8 b _ _ Hsn).
  - rewrite outcome_bind_Ok. unfold totals, shown_totals. cbn [packets eos builder]. by destruct (had_gap b).
  - intros sym. destruct (Hs sym) as (snap & -> & Hshow). done.
Qed.

(** A book the client has no entry for is empty. *)
Lemma snapshot_absent is_signed sym b snap :
  ItchBook.snapshot sym b = Ok snap -> sym ∉ ItchBook.symbols is_signed b -> snap = mkSnapshot [] [].
Proof.
  intros Hs Hn. unfold ItchBook.snapshot in Hs.
  destruct (ItchBook.books_ b !! sym) eqn:E; [|by injection Hs as <-].
  destruct Hn. apply ItchBook.elem_of_symbols. by rewrite E.
Qed.

(** The prices of the engine's books are those of 32-bit fields. *)
Lemma engine_books_showable (e : Engine.Engine Fast) S sym :
  @run_inv Fast (fast_engine_book default_cfg) (fast_engine_book_laws default_cfg default_cfg_ok) e S ->
  Display.showable (Spec.to_snapshot (spec_book S sym)).
Proof.
  intros [Hi Hf _]. pose proof (@spec_book_wf Fast _ _ e S sym Hi) as Hwf.
  assert (forall s px os, valid_side s -> (px, os) ∈ Spec.levels s (spec_book S sym) -> 0 <= px < 2 ^ 63) as H.
  { intros s px os Hs Hin. destruct os as [|o os].
    - destruct (Spec.wf_levels _ Hwf s) as [_ Hne]. rewrite Forall_forall in Hne. apply Hne in Hin as [_ [Hq _]]. done.
    - assert (Spec.find_order (so_id o) (spec_book S sym) = Some (s, px, so_qty o)) as Hfo.
      { apply Spec.find_order_spec; [apply Hwf|done|]. eexists. split; [exact Hin|].
        destruct o. apply list_elem_of_here. }
      apply (bf_orders _ (Hf sym)) in Hfo as [_ Hp]. unfold fits in Hp. lia. }
  split; apply Forall_map, Forall_forall; intros [px os] Hin.
  - apply (H Buy px os); [by left|done].
  - apply (H Sell px os); [by right|done].
Qed.


Lemma heard_all t0 time pkts :
  heard t0 = None -> Forall (fun d => 20 <= lengthZ d) pkts ->
  omap heard (t0 :: map (fun d => mkTick false time (Some d)) pkts) = pkts.
Proof.
  intros H0 Hd. cbn [omap list_omap]. rewrite H0. induction Hd as [|d ds Hd _ IH]; [done|].
  destruct d; [unfold lengthZ in Hd; cbn in Hd; lia|]. cbn. by f_equal.
Qed.

End Listen.
