(* ===== verification/Replay.v ===== *)
(** The capture-file tools ([apps/itchreplay.cpp]): [dump] prints what a capture
    file holds, [replay] sends its datagrams again, paced by their timestamps. *)

From S2P Require Import Prelude StdMap Endian BookTypes BookSpec Wire Symbols Itch Mold EngineBook Engine EngineInv EngineRuns BookReplay MarketReplay EngineFeed EngineClaims RawItch Capture Feed FeedRefines EndToEnd Soup Prices Text Doubles.
From Stdlib Require Import Ascii Floats.SpecFloat.

Module Replay.
Import Text Doubles Capture.

Definition type_name (m : Itch.Message) : bytes :=
  match m with
  | Itch.MSystemEvent _ => str "SystemEvent"
  | Itch.MStockDirectory _ => str "StockDirectory"
  | Itch.MTradingAction _ => str "TradingAction"
  | Itch.MAddOrder _ => str "AddOrder"
  | Itch.MAddOrderMpid _ => str "AddOrderMpid"
  | Itch.MOrderExecuted _ => str "OrderExecuted"
  | Itch.MOrderExecutedWithPrice _ => str "OrderExecutedWithPrice"
  | Itch.MOrderCancel _ => str "OrderCancel"
  | Itch.MOrderDelete _ => str "OrderDelete"
  | Itch.MOrderReplace _ => str "OrderReplace"
  | Itch.MTrade _ => str "Trade"
  end.

(** ** dump *)

(** The names of the messages of a packet. *)
Fixpoint dump_messages (datas : list bytes) : outcome bytes :=
  match datas with
  | [] => Ok []
  | data :: datas =>
      m ← Itch.decode data;
      rest ← dump_messages datas;
      Ok (str " " ++ match m with Some m => type_name m | None => str "?" end ++ rest)
  end.

Definition stamp (rec : CaptureRecord) : bytes := str "[" ++ unsigned (ts_ns rec) ++ str "] ".

(** The body of the loop: what it prints and the two counters. *)
Definition dump_record (rec : CaptureRecord) (packets messages : Z) : outcome (bytes * (Z * Z)) :=
  pkt ← Mold.parse (r_bytes rec);
  match pkt with
  | None =>
      Ok (stamp rec ++ str "UNPARSEABLE (" ++ unsigned (lengthZ (r_bytes rec)) ++ str " bytes)" ++ newline,
          (packets, messages))
  | Some pkt =>
      let packets := u64 (packets + 1) in
      let head := stamp rec ++ str "seq=" ++ unsigned (Mold.pk_seq pkt) in
      if Mold.pk_end_of_session pkt then
        Ok (head ++ str " END-OF-SESSION" ++ newline, (packets, messages))
      else
        names ← dump_messages (Mold.pk_messages pkt);
        Ok (head ++ str " count=" ++ unsigned (lengthZ (Mold.pk_messages pkt)) ++ str ":" ++ names ++ newline,
            (packets, u64 (messages + lengthZ (Mold.pk_messages pkt))))
  end.

Fixpoint dump_records (recs : list CaptureRecord) (packets messages : Z) : outcome (bytes * (Z * Z)) :=
  match recs with
  | [] => Ok ([], (packets, messages))
  | rec :: recs =>
      '(text, (packets, messages)) ← dump_record rec packets messages;
      '(rest, counters) ← dump_records recs packets messages;
      Ok (text ++ rest, counters)
  end.

(** What goes to the terminal, the totals written after it, and the status;
    [file] is absent when it cannot be opened. *)
Definition dump (file : option bytes) : outcome (bytes * option (Z * Z) * Z) :=
  match r_f (open_reader file), file with
  | Some _, Some f =>
      recs ← read_all f;
      '(text, counters) ← dump_records recs 0 0;
      Ok (text, Some counters, 0)
  | _, _ => Ok ([], None, 1)
  end.

(** ** replay *)

Inductive Action :=
  | Sleep (ns : Z)
  | Send (datagram : bytes).

(** [static_cast<std::uint64_t>] of the gap divided by the speed. *)
Definition scaled (speed : double) (gap : Z) : outcome Z :=
  to_uint64 (ddiv (of_Z gap) (if dltb (S754_zero false) speed then speed else of_Z 1)).

Fixpoint replay_records (fast : bool) (speed : double) (recs : list CaptureRecord) (prev_ts sent : Z)
    : outcome (list Action * Z) :=
  match recs with
  | [] => Ok ([], sent)
  | rec :: recs =>
      pause ← (if negb fast && negb (prev_ts =? 0) && (prev_ts <? ts_ns rec)
               then gap_ns ← scaled speed (u64 (ts_ns rec - prev_ts)); Ok [Sleep gap_ns]
               else Ok []);
      '(rest, sent) ← replay_records fast speed recs (ts_ns rec) (u64 (sent + 1));
      Ok (pause ++ Send (r_bytes rec) :: rest, sent)
  end.

(** The actions, the line printed at the end, and the status. [speed] is the
    value of the option of that name. *)
Definition replay (file : option bytes) (argv : list bytes) (speed : double)
    : outcome (list Action * bytes * Z) :=
  let group := CommandLine.arg_value argv (str "--group") (str "239.192.0.1") in
  port ← atoi (CommandLine.arg_value argv (str "--port") (str "26000"));
  let fast := CommandLine.has_flag argv (str "--fast") in
  match r_f (open_reader file), file with
  | Some _, Some f =>
      recs ← read_all f;
      '(actions, sent) ← replay_records fast speed recs 0 0;
      Ok (actions,
          str "itchreplay: replayed " ++ unsigned sent ++ str " packets to " ++ group ++ str ":" ++
            unsigned (u16 port) ++ (if fast then str " (fast)" else []) ++ newline, 0)
  | _, _ => Ok ([], [], 1)
  end.

(** What the program does in one of its modes. *)
Inductive Run :=
  | Usage
  | Dumped (r : bytes * option (Z * Z) * Z)
  | Replayed (r : list Action * bytes * Z)
  | UnknownMode (mode : bytes).

Definition main (file : option bytes) (argv : list bytes) (speed : double) : outcome Run :=
  match argv with
  | _ :: mode :: _ :: _ =>
      if bool_decide (mode = str "dump") then r ← dump file; Ok (Dumped r)
      else if bool_decide (mode = str "replay") then r ← replay file argv speed; Ok (Replayed r)
      else Ok (UnknownMode mode)
  | _ => Ok Usage
  end.

Definition status (r : Run) : Z :=
  match r with
  | Usage | UnknownMode _ => 1
  | Dumped (_, s) | Replayed (_, s) => s
  end.

(** ** What a publisher records *)

Section Recording.
Context (ns_since_midnight : Z -> Z).

(** The capture of a publisher: what it sent, stamped with the clock. *)
Definition recorded (p : Feed.FeedPublisher) (recs : list CaptureRecord) : Prop :=
  Feed.capture_ p = Some (mkWriter (Some (kCaptureMagic ++ concat (map record_bytes recs)))) /\
  map r_bytes recs = Feed.sent p /\
  Forall (fun r => exists n, ts_ns r = ns_since_midnight n) recs.

Lemma send_recorded data p recs p' :
  recorded p recs -> Feed.send_datagram ns_since_midnight data p = Ok p' ->
  exists recs', recorded p' recs'.
Proof.
  intros (Hc & Hs & Ht). unfold Feed.send_datagram. rewrite Hc, write_spec, !outcome_bind_Ok.
  intros [= <-]. eexists (recs ++ [_]). unfold recorded. cbn [Feed.capture_ Feed.sent].
  rewrite !map_app, concat_app, Hs. cbn [map concat r_bytes]. rewrite app_nil_r, app_assoc.
  split_and!; [done|done|]. apply Forall_app. split; [done|]. constructor; [by eexists|constructor].
Qed.

Lemma send_all_recorded pkts : forall p recs p',
  recorded p recs -> Feed.send_datagrams ns_since_midnight pkts p = Ok p' ->
  exists recs', recorded p' recs'.
Proof.
  induction pkts as [|pkt pkts IH]; intros p recs p' Hr; cbn [Feed.send_datagrams]; [intros [= <-]; eauto|].
  destruct (Feed.send_datagram _ pkt p) as [p1| |] eqn:E; try done. rewrite outcome_bind_Ok.
  destruct (send_recorded _ _ _ _ Hr E) as (recs1 & Hr1). by eapply IH.
Qed.

Lemma add_recorded evs : forall p recs p',
  recorded p recs -> Feed.add_events evs p = Ok p' -> recorded p' recs.
Proof.
  induction evs as [|ev evs IH]; intros p recs p' Hr; cbn [Feed.add_events]; [by intros [= <-]|].
  assert (exists l p1, Feed.locate_for (Engine.me_symbol ev) p = (l, p1) /\ recorded p1 recs)
    as (l & p1 & -> & Hr1) by (unfold Feed.locate_for; destruct (_ !! _); eauto).
  destruct (Feed.to_itch ev l) as [d| |]; try done. rewrite outcome_bind_Ok.
  destruct (Mold.add_message _ _) as [k| |]; try done. rewrite outcome_bind_Ok.
  apply IH. done.
Qed.

Lemma publish_recorded evs p recs p' :
  recorded p recs -> Feed.publish ns_since_midnight evs p = Ok p' -> exists recs', recorded p' recs'.
Proof.
  intros Hr. unfold Feed.publish. destruct (Feed.add_events evs p) as [p1| |] eqn:E; try done.
  rewrite outcome_bind_Ok. destruct (Mold.flush _) as [k| |]; try done. rewrite outcome_bind_Ok.
  unfold Feed.send_ready, Mold.take_packets. apply send_all_recorded with recs.
  exact (add_recorded _ _ _ _ Hr E).
Qed.

Lemma run_loop_recorded drains : forall p recs p',
  recorded p recs -> Feed.run_loop ns_since_midnight drains p = Ok p' -> exists recs', recorded p' recs'.
Proof.
  induction drains as [|evs drains IH]; intros p recs p' Hr; cbn [Feed.run_loop]; [intros [= <-]; eauto|].
  destruct evs as [|ev evs].
  - destruct (Mold.heartbeat _) as [h| |]; try done. rewrite outcome_bind_Ok.
    destruct (Feed.send_datagram _ h p) as [p1| |] eqn:E; try done. rewrite outcome_bind_Ok.
    destruct (send_recorded _ _ _ _ Hr E) as (recs1 & Hr1). by eapply IH.
  - destruct (Feed.publish _ _ p) as [p1| |] eqn:E; try done. rewrite outcome_bind_Ok.
    destruct (publish_recorded _ _ _ _ Hr E) as (recs1 & Hr1). by eapply IH.
Qed.

Lemma run_recorded drains last sv mtu p :
  Feed.run ns_since_midnight drains last (Feed.make sv mtu (Some (open_writer true))) = Ok p ->
  exists recs, recorded p recs.
Proof.
  assert (recorded (Feed.make sv mtu (Some (open_writer true))) []) as H0 by done.
  unfold Feed.run. destruct (Feed.run_loop _ _ _) as [p1| |] eqn:E1; try done. rewrite outcome_bind_Ok.
  destruct (run_loop_recorded _ _ _ _ H0 E1) as (r1 & H1).
  destruct (Feed.publish _ _ _) as [p2| |] eqn:E2; try done. rewrite outcome_bind_Ok.
  destruct (publish_recorded _ _ _ _ H1 E2) as (r2 & H2).
  destruct (Mold.end_of_session _) as [h| |]; try done. rewrite outcome_bind_Ok.
  by apply send_recorded with r2.
Qed.
End Recording.

(** The file of a writer reads back. *)
Lemma read_recorded recs :
  Forall record_ok recs -> read_all (kCaptureMagic ++ concat (map record_bytes recs)) = Ok recs.
Proof.
  intros Hok. unfold read_all. set (body := concat (map record_bytes recs)).
  change (open_reader (Some (kCaptureMagic ++ body))) with (mkReader (Some body)).
  rewrite <- (take_ge body (length body)) at 2 by done. unfold body at 3.
  rewrite read_records_prefix by (done || rewrite length_app; lia).
  rewrite whole_all by done. by rewrite take_ge.
Qed.

Lemma run_file cmds sv mtu ns_since_midnight e drains last p :
  session_ok cmds -> Forall (fun c => fits 48 c.1) cmds -> (forall n, fits 64 (ns_since_midnight n)) ->
  Forall is_byte sv -> mtu < 2 ^ 16 -> engine_run cmds = Some e ->
  concat drains ++ last = Engine.to_feed_ e ->
  Feed.run ns_since_midnight drains last (Feed.make sv mtu (Some (open_writer true))) = Ok p ->
  exists file recs, Feed.capture_ p = Some (mkWriter (Some file)) /\
    r_f (open_reader (Some file)) <> None /\ read_all file = Ok recs /\ map r_bytes recs = Feed.sent p /\
    Forall (fun r => exists n, ts_ns r = ns_since_midnight n) recs.
Proof.
  intros Hc Hts Hns Hsv Hmtu He Hd Hrun. pose proof (feed_short _ _ Hc He) as Hlen.
  pose proof (feed_sizes cmds sv mtu _ _ e drains last p Hc Hts Hsv Hmtu He Hd Hrun) as Hsz.
  destruct (run_recorded _ _ _ _ _ _ Hrun) as (recs & Hcap & Hbytes & Htime).
  eexists _, recs. split; [exact Hcap|]. split; [done|]. split; [|by split].
  apply read_recorded. rewrite <- Hbytes in Hsz. rewrite Forall_map in Hsz.
  rewrite Forall_forall in Hsz, Htime. apply Forall_forall. intros r Hin.
  destruct (Htime r Hin) as (n & Hn). specialize (Hsz r Hin). cbn in Hsz.
  split; [rewrite Hn; apply Hns|lia].
Qed.

(** ** Sending again *)

(** The timestamp before the [i]th record, when [prev] is the one before the
    first. *)
Definition stamp_before (prev : Z) (recs : list CaptureRecord) (i : nat) : Z :=
  match i with O => prev | S j => from_option ts_ns 0 (recs !! j) end.

(** The gap waited for before the [i]th datagram is sent: none with [--fast],
    before the first, after a timestamp of zero, or when the clock did not
    advance. *)
Definition due (fast : bool) (prev : Z) (recs : list CaptureRecord) (i : nat) : option Z :=
  match recs !! i with
  | None => None
  | Some r =>
      let t := stamp_before prev recs i in
      if fast || (t =? 0) || (ts_ns r <=? t) then None else Some (ts_ns r - t)
  end.

(** The actions that send the datagrams, each after the pause before it. *)
Definition schedule (waits : list (option Z)) (datagrams : list bytes) : list Action :=
  concat (zip_with (fun w d => option_list (Sleep <$> w) ++ [Send d]) waits datagrams).

(** [ns] is the time waited for a gap. *)
Definition waits_for (speed : double) (gap ns : option Z) : Prop :=
  match gap, ns with
  | Some gap, Some ns => scaled speed gap = Ok ns
  | None, None => True
  | _, _ => False
  end.

Lemma due_cons fast prev r recs i : due fast prev (r :: recs) (S i) = due fast (ts_ns r) recs i.
Proof. unfold due. cbn [lookup list_lookup]. by destruct i. Qed.

Lemma replay_records_ok fast speed recs : forall prev sent,
  fits 64 prev -> fits 64 sent -> Forall (fun r => fits 64 (ts_ns r)) recs ->
  (forall i gap, due fast prev recs i = Some gap -> exists ns, scaled speed gap = Ok ns) ->
  exists waits,
    replay_records fast speed recs prev sent = Ok (schedule waits (map r_bytes recs), u64 (sent + lengthZ recs)) /\
    length waits = length recs /\
    forall i w, waits !! i = Some w -> waits_for speed (due fast prev recs i) w.
Proof.
  induction recs as [|r recs IH]; intros prev sent Hp Hs Hts Hd; cbn [replay_records].
  { exists []. change (lengthZ []) with 0. rewrite Z.add_0_r, wrap_small by done. by split_and!. }
  apply Forall_cons in Hts as [Hr Hts].
  destruct (IH (ts_ns r) (u64 (sent + 1))) as (waits & E & Hl & Hw); [done|by apply wrap_fits|done| |].
  { intros i gap Hg. apply (Hd (S i)). by rewrite due_cons. }
  replace (u64 (u64 (sent + 1) + lengthZ recs)) with (u64 (sent + lengthZ (r :: recs))) in E
    by (unfold wrap, lengthZ; cbn [length]; rewrite Zplus_mod_idemp_l; f_equal; lia).
  assert (due fast prev (r :: recs) 0 =
    if negb fast && negb (prev =? 0) && (prev <? ts_ns r) then Some (ts_ns r - prev) else None) as E0.
  { unfold due. cbn [lookup list_lookup stamp_before]. rewrite Z.leb_antisym.
    by destruct fast, (prev =? 0), (prev <? ts_ns r). }
  assert (exists w, (if negb fast && negb (prev =? 0) && (prev <? ts_ns r)
      then gap_ns ← scaled speed (u64 (ts_ns r - prev)); Ok [Sleep gap_ns] else Ok []) =
      Ok (option_list (Sleep <$> w)) /\ waits_for speed (due fast prev (r :: recs) 0) w) as (w & Ew & Hw0).
  { rewrite E0. destruct (_ && (prev <? ts_ns r)) eqn:Eb; [|by exists None].
    destruct (Hd 0%nat _ E0) as (ns & Hns). apply andb_true_iff in Eb as [_ Hlt]. apply Z.ltb_lt in Hlt.
    rewrite wrap_small by (unfold fits in *; lia). rewrite Hns, outcome_bind_Ok. by exists (Some ns). }
  rewrite Ew, !outcome_bind_Ok, E, outcome_bind_Ok. exists (w :: waits). split_and!.
  - unfold schedule. cbn [map zip_with concat]. by rewrite <- app_assoc.
  - cbn [length]. by rewrite Hl.
  - intros [|i] w' Hi; [by injection Hi as <-|]. rewrite due_cons. by apply Hw.
Qed.



(** ** Dumping *)

(** The lines printed for a stream of packets, read off the events. *)
Definition event_names (ms : list Engine.MarketEvent) : bytes :=
  concat (map (fun m => str " " ++ type_name (Feed.itch_message m 0)) ms).

Lemma type_name_locate m l l' : type_name (Feed.itch_message m l) = type_name (Feed.itch_message m l').
Proof. unfold Feed.itch_message. by destruct (Engine.me_ev m) as [x|x|x|x]; [| |destruct (ca_removed x)|]. Qed.

Lemma dump_messages_ok ms datas :
  Forall encodable ms -> Forall2 message_of ms datas -> dump_messages datas = Ok (event_names ms).
Proof.
  intros Hok H2. induction H2 as [|m d ms ds (l & Hl & ->) _ IH]; [done|].
  apply Forall_cons in Hok as [Hm Hok]. cbn [dump_messages]. rewrite Itch.decode_wire by (by apply itch_message_ok).
  rewrite outcome_bind_Ok, IH, outcome_bind_Ok by done. unfold event_names. cbn [map concat].
  by rewrite (type_name_locate m l 0), <- app_assoc.
Qed.

Fixpoint stream_lines (recs : list CaptureRecord) (seq : Z) (groups : list (list Engine.MarketEvent)) : bytes :=
  match recs, groups with
  | rec :: recs, g :: groups =>
      stamp rec ++ str "seq=" ++ unsigned seq ++ str " count=" ++ unsigned (lengthZ g) ++ str ":" ++
      event_names g ++ newline ++ stream_lines recs (seq + lengthZ g) groups
  | rec :: _, [] => stamp rec ++ str "seq=" ++ unsigned seq ++ str " END-OF-SESSION" ++ newline
  | [], _ => []
  end.

Lemma length_packets_from session groups : forall s,
  length (Mold.packets_from session s groups) = length groups.
Proof. induction groups as [|g gs IH]; intros s; [done|]. cbn [Mold.packets_from length]. by rewrite IH. Qed.

Section Lines.
Context (session : bytes) (mtu : Z).
Hypothesis (Hs : length session = 10%nat) (Hsb : Forall is_byte session) (Hmtu : mtu < 2 ^ 16).

Lemma dump_stream groups : forall evs recs seq packets messages,
  Forall (stream_group mtu session) groups -> Forall2 (Forall2 message_of) evs groups ->
  Forall encodable (concat evs) -> 0 <= seq -> seq + lengthZ (concat groups) < 2 ^ 64 ->
  fits 64 packets -> fits 64 messages ->
  map r_bytes recs = Mold.packets_from session seq groups ++
    [Mold.header_bytes session (seq + lengthZ (concat groups)) Mold.kEndOfSessionCount] ->
  dump_records recs packets messages =
    Ok (stream_lines recs seq evs, (u64 (packets + lengthZ recs), u64 (messages + lengthZ (concat evs)))).
Proof.
  induction groups as [|g gs IH]; intros evs recs seq packets messages Hg He Henc Hs0 Hb Hp Hm Hr;
    cbn [Mold.packets_from concat app] in *.
  - apply Forall2_nil_inv_r in He as ->. change (lengthZ (@nil bytes)) with 0 in *.
    destruct recs as [|r [|]]; try discriminate. injection Hr as Hr.
    cbn [dump_records]. unfold dump_record. rewrite Hr, Z.add_0_r, parse_end, outcome_bind_Ok by (done || unfold fits; lia).
    cbn [Mold.pk_seq Mold.pk_end_of_session]. rewrite !outcome_bind_Ok. cbn [stream_lines concat].
    change (lengthZ (@nil Engine.MarketEvent)) with 0. change (lengthZ [r]) with 1.
    rewrite Z.add_0_r, (wrap_small 64 messages), !app_nil_r, <- !app_assoc by done. done.
  - apply Forall2_cons_inv_r in He as (ms & evs' & H1 & H2 & ->). apply Forall_cons in Hg as [Hg0 Hg].
    cbn [concat] in Henc |- *. apply Forall_app in Henc as [Henc0 Henc].
    rewrite lengthZ_app in Hb. pose proof (lengthZ_nonneg g). pose proof (lengthZ_nonneg (concat gs)).
    assert (lengthZ g = lengthZ ms) as Hlen by (unfold lengthZ; by rewrite (Forall2_length _ _ _ H1)).
    destruct recs as [|r recs]; [done|]. cbn [map] in Hr. injection Hr as Hr0 Hr.
    cbn [dump_records]. unfold dump_record.
    rewrite Hr0, (parse_stream_group session mtu Hs Hsb Hmtu) by (done || unfold fits; lia).
    rewrite outcome_bind_Ok. cbn [Mold.pk_seq Mold.pk_end_of_session Mold.pk_messages].
    rewrite (dump_messages_ok ms), !outcome_bind_Ok by done.
    rewrite (IH evs' recs (seq + lengthZ g));
      [|done|done|done|lia|lia|by apply wrap_fits|by apply wrap_fits|by rewrite Hr, lengthZ_app, Z.add_assoc].
    rewrite outcome_bind_Ok. cbn [stream_lines]. rewrite Hlen, lengthZ_app, <- !app_assoc. do 2 f_equal.
    unfold wrap. rewrite !Zplus_mod_idemp_l. unfold lengthZ. cbn [length].
    f_equal; f_equal; lia.
Qed.
End Lines.

(** Dumping a capture. The dump of the file a publisher wrote during a
    session has one line per datagram, every one of them parsed: its timestamp,
    the sequence number of its first message, how many messages it carries and
    their types, which are those of the engine's events in order; the last line
    is the end of the session. The totals are the datagrams and the events. *)
Theorem dump_lists_session cmds sv mtu ns_since_midnight e drains last p :
  session_ok cmds -> Forall (fun c => fits 48 c.1) cmds -> (forall n, fits 64 (ns_since_midnight n)) ->
  Forall is_byte sv -> mtu < 2 ^ 16 -> engine_run cmds = Some e ->
  concat drains ++ last = Engine.to_feed_ e ->
  Feed.run ns_since_midnight drains last (Feed.make sv mtu (Some (open_writer true))) = Ok p ->
  exists file recs groups, Feed.capture_ p = Some (mkWriter (Some file)) /\ read_all file = Ok recs /\
    map r_bytes recs = Feed.sent p /\ concat groups = Engine.to_feed_ e /\
    length recs = S (length groups) /\
    dump (Some file) =
      Ok (stream_lines recs 1 groups, Some (u64 (lengthZ recs), lengthZ (Engine.to_feed_ e)), 0).
Proof.
  intros Hc Hts Hns Hsv Hmtu He Hd Hrun. pose proof (feed_short _ _ Hc He) as Hlen.
  destruct (run_file cmds sv mtu ns_since_midnight e drains last p) as (file & recs & Hf & Ho & Hr & Hb & _);
    try assumption.
  destruct (session_stream cmds sv mtu ns_since_midnight (Some (open_writer true)) e drains last p)
    as (groups & Hs & Hsb & Henc & Hg & H2 & Hsent); try assumption.
  destruct (split_events groups _ H2) as (evs & Hevs & Hev).
  assert (lengthZ (concat groups) = lengthZ (Engine.to_feed_ e)) as Hgl
    by (unfold lengthZ; by rewrite (Forall2_length _ _ _ H2)).
  pose proof (lengthZ_nonneg (concat groups)).
  exists file, recs, evs. split_and!; [done|done|done|done| |].
  - apply (f_equal length) in Hb. rewrite length_map, Hsent, length_app, length_packets_from in Hb.
    cbn [length] in Hb. pose proof (Forall2_length _ _ _ Hev). lia.
  - unfold dump. destruct (r_f (open_reader (Some file))); [|done]. rewrite Hr, outcome_bind_Ok.
    rewrite (dump_stream _ mtu Hs Hsb Hmtu groups evs recs 1 0 0);
      [|done|done|by rewrite Hevs|lia|lia|done|done|by rewrite Hb, Hsent].
    rewrite outcome_bind_Ok, Hevs. rewrite !Z.add_0_l, (wrap_small 64 (lengthZ (Engine.to_feed_ e))); [done|].
    unfold fits. lia.
Qed.

Lemma dump_lists_session_witness :
  exists (e : Engine.Engine Fast) p file recs groups, Feed.capture_ p = Some (mkWriter (Some file)) /\
    concat groups = Engine.to_feed_ e /\
    dump (Some file) = Ok (stream_lines recs 1 groups, Some (u64 (lengthZ recs), lengthZ (Engine.to_feed_ e)), 0).
Proof.
  destruct (demo_published u64 (Some (open_writer true))) as (e & p & He & Hrun).
  destruct (dump_lists_session demo_commands [78; 83; 81] 1400 u64 e [[]; Engine.to_feed_ e] [] p
    demo_commands_ok demo_times) as (file & recs & groups & Hf & _ & _ & Hg & _ & Hd);
    [intros n; by apply wrap_fits| |lia|exact He|cbn; by rewrite !app_nil_r|exact Hrun|].
  - repeat (constructor; [unfold is_byte; lia|]). constructor.
  - exists e, p, file, recs, groups. split; [exact Hf|]. split; [exact Hg|exact Hd].
Defined.
End Replay.
