(* ===== verification/FileTool.v ===== *)
(** The raw-file reader ([apps/itchfile.cpp]): options, totals per message type
    and the ladders of the symbols that were kept. What it prints and its exit
    status are the result; the time the reading took is an argument. *)

From S2P Require Import Prelude StdMap Endian BookTypes BookSpec BookReplay Wire Symbols Itch RawItch Mold EngineBook Engine EngineInv EngineRuns MarketReplay EngineFeed EngineClaims Capture Feed FeedRefines ItchBook ItchBookRefines EndToEnd ItchFile Soup Prices Text Doubles Display Listen.
From Stdlib Require Import Ascii Floats.SpecFloat.

Module FileTool.
Import Text Doubles.

Record Options := mkOptions {
  o_symbols : list bytes;
  o_depth : Z;
  o_max_messages : Z }.

Definition default_options : Options := mkOptions [] 10 0.

(** [for (int i = 2; i + 1 < argc; ++i)]: a value is looked at as a name too. *)
Fixpoint parse_options (args : list bytes) (o : Options) : outcome Options :=
  match args with
  | a :: ((v :: _) as rest) =>
      o ← (if bool_decide (a = str "--symbol") then
             Ok (mkOptions (o_symbols o ++ [make_symbol v]) (o_depth o) (o_max_messages o))
           else if bool_decide (a = str "--depth") then
             depth ← atoi v; Ok (mkOptions (o_symbols o) depth (o_max_messages o))
           else if bool_decide (a = str "--max-messages") then
             n ← atoll v; Ok (mkOptions (o_symbols o) (o_depth o) (u64 n))
           else Ok o);
      parse_options rest o
  | _ => Ok o
  end.

(** A line per message type that occurred. *)
Definition type_line (s : ItchFile.ItchFileStats) (t : nat) : bytes :=
  let decoded := default 0 (ItchFile.decoded s !! t) in
  let skipped := default 0 (ItchFile.skipped s !! t) in
  if (decoded =? 0) && (skipped =? 0) then [] else
  pad_right 6 [Z.of_nat t] ++ str " " ++ pad_left 12 (unsigned decoded) ++ str " " ++
  pad_left 12 (unsigned skipped) ++ newline.

Definition type_table (s : ItchFile.ItchFileStats) : bytes :=
  pad_right 6 (str "type") ++ str " " ++ pad_left 12 (str "decoded") ++ str " " ++
  pad_left 12 (str "skipped") ++ newline ++ concat (map (type_line s) (seq 0 256)).

Definition summary (nan_text : bytes) (elapsed_ns : Z) (s : ItchFile.ItchFileStats) : bytes :=
  let secs := ddiv (of_Z elapsed_ns) (of_Z 1000000000) in
  let rate := ddiv (ddiv (of_Z (ItchFile.total s)) secs) (of_Z 1000000) in
  str "itchfile: " ++ unsigned (ItchFile.total s) ++ str " messages in " ++ fixed nan_text 1 secs ++ str "s (" ++
  fixed nan_text 1 rate ++ str "M msgs/sec)" ++ newline.

Definition tracked_line (char_signed : bool) (b : ItchBook.ItchBookBuilder) (s : ItchFile.ItchFileStats) : bytes :=
  str "symbols tracked: " ++ unsigned (lengthZ (ItchBook.symbols char_signed b)) ++ str "   filtered adds: " ++
  unsigned (ItchFile.filtered s) ++ str "   executed shares: " ++ unsigned (ItchBook.executed_shares_ b) ++ newline.

(** [file] is what the path (or standard input) holds, nothing when it cannot
    be opened. *)
Definition main (char_signed : bool) (nan_text : bytes) (argv : list bytes) (file : option bytes)
    (elapsed_ns : Z) : outcome (bytes * Z) :=
  match argv with
  | _ :: _ :: args =>
      o ← parse_options args default_options;
      match file with
      | None => Ok ([], 1)
      | Some f =>
          '(ok, b, s) ← ItchFile.process_raw_itch f (o_symbols o) (o_max_messages o) ItchBook.init ItchFile.no_stats;
          if negb ok then Ok ([], 2) else
          ladders ← Listen.print_symbols (o_depth o) b (ItchBook.symbols char_signed b);
          Ok (summary nan_text elapsed_ns s ++ type_table s ++ tracked_line char_signed b s ++ ladders, 0)
      end
  | _ => Ok ([], 1)
  end.

(** ** What is shown *)

Lemma showable_empty : Display.showable (mkSnapshot [] []).
Proof. split; constructor. Qed.

(** C26: the file reader. Take any session of commands and the raw file with the
    ITCH messages of its events. For any options without a limit on the number
    of messages, the program succeeds: it has counted every message, and the
    ladders it prints are the engine's for every symbol asked for, to the
    requested depth; symbols not asked for, and symbols that have no line,
    are shown as empty or not at all. *)
Theorem file_tool_shows_engine_books cmds e datas char_signed nan_text prog path args o elapsed_ns :
  session_ok cmds -> Forall (fun c => fits 48 c.1) cmds -> engine_run cmds = Some e ->
  Forall2 message_of (Engine.to_feed_ e) datas ->
  parse_options args default_options = Ok o -> o_max_messages o = 0 ->
  exists f b s (books : bytes -> BookSnapshot),
    RawItch.write_all [] datas = Ok f /\
    wrap 64 (ItchFile.total s) = u64 (lengthZ (Engine.to_feed_ e)) /\
    (forall sym, @Engine.book_snapshot Fast (fast_engine_book default_cfg) sym e = Some (books sym)) /\
    (forall sym, sym ∉ ItchBook.symbols char_signed b -> ItchFile.tracked (o_symbols o) sym = true ->
      books sym = mkSnapshot [] []) /\
    main char_signed nan_text (prog :: path :: args) (Some f) elapsed_ns =
      Ok (summary nan_text elapsed_ns s ++ type_table s ++ tracked_line char_signed b s ++
          concat (map (fun sym => Listen.shown_book (o_depth o) sym
                         (if ItchFile.tracked (o_symbols o) sym then books sym else mkSnapshot [] []))
                    (ItchBook.symbols char_signed b)), 0).
Proof.
  intros Hc Hts He H2 Ho Hmax.
  destruct (ItchFile.filtered_file cmds (o_symbols o) e datas Hc Hts He H2) as (f & b & s & SB & Hf & Hp & Htot & Hri & Hs).
  exists f, b, s, (fun sym => Spec.to_snapshot (spec_book SB sym)).
  split; [done|]. split; [done|]. split; [apply Hs|]. split.
  - intros sym Hn Htr. destruct (Hs sym) as [_ Hb]. rewrite Htr in Hb. by eapply Listen.snapshot_absent.
  - cbn [main]. rewrite Ho, outcome_bind_Ok, Hmax, Hp, outcome_bind_Ok. cbn [negb].
    rewrite (Listen.print_symbols_ok _ _ (fun sym => if ItchFile.tracked (o_symbols o) sym
      then Spec.to_snapshot (spec_book SB sym) else mkSnapshot [] [])); [by rewrite outcome_bind_Ok|apply Hs|].
    intros sym. destruct (ItchFile.tracked _ sym); [by apply (Listen.engine_books_showable e)|apply showable_empty].
Qed.

Lemma file_tool_shows_engine_books_witness :
  exists e f text, engine_run demo_commands = Some e /\
    main true [] [str "itchfile"; str "day.itch"; str "--symbol"; str "AAPL"; str "--depth"; str "5"] (Some f)
      2500000000 = Ok (text, 0).
Proof.
  destruct (demo_published (fun n => n) None) as (e & p & He & Hrun).
  destruct (session_stream demo_commands [78; 83; 81] 1400 (fun n => n) None e [[]; Engine.to_feed_ e] [] p
    demo_commands_ok demo_times) as (groups & _ & _ & _ & _ & H2 & _);
    [|lia|exact He|cbn; by rewrite !app_nil_r|exact Hrun|].
  - repeat (constructor; [unfold is_byte; lia|]). constructor.
  - destruct (file_tool_shows_engine_books demo_commands e (concat groups) true [] (str "itchfile")
      (str "day.itch") [str "--symbol"; str "AAPL"; str "--depth"; str "5"] (mkOptions [str "AAPL    "] 5 0)
      2500000000 demo_commands_ok demo_times He H2) as (f & b & s & books & _ & _ & _ & _ & Hm).
    + by vm_compute.
    + reflexivity.
    + eexists e, f, _. split; [exact He|exact Hm].
Defined.
End FileTool.
