(* ===== verification/View.v ===== *)
(** The live book viewer ([apps/itchview.cpp]): it rebuilds the books from the
    feed and redraws one symbol's ladder about ten times a second.

    A turn of its loop is a [Turn]: the stop flag, what [recvfrom] returned and
    the time, in nanoseconds of the steady clock. The frames it drew are part of
    its state. *)

From S2P Require Import Prelude StdMap Endian BookTypes BookSpec BookReplay Wire Symbols Ouch Itch Mold EngineBook Engine EngineInv EngineRuns MarketReplay EngineFeed EngineClaims Capture Feed FeedRefines ItchBook ItchBookRefines EndToEnd Soup Prices Text Doubles Display Listen.
From Stdlib Require Import Ascii Floats.SpecFloat.

Module View.
Import Text Doubles.

Definition format_line (s : bytes) : bytes := clip 160 s.

(** The three lines above the ladder; the last two only when there is something
    to say. The rate is a quotient of finite numbers and never a NaN. *)
Definition title (b : ItchBook.ItchBookBuilder) (symbol : bytes) (msg_rate : double) : bytes :=
  format_line (str "  " ++ Listen.c_string (symbol_view symbol) ++ str "   msgs=" ++ unsigned (ItchBook.messages_ b) ++
    str " (" ++ fixed [] 0 msg_rate ++ str "/s)   traded=" ++ unsigned (ItchBook.executed_shares_ b) ++
    str "   gaps=" ++ str (if Listen.had_gap b then "YES" else "none") ++ newline).

Definition last_trade_line (b : ItchBook.ItchBookBuilder) : outcome bytes :=
  if 0 <? ItchBook.last_trade_price_ b then
    px ← Prices.price_to_string (ItchBook.last_trade_price_ b);
    Ok (format_line (str "  last trade: " ++ unsigned (ItchBook.last_trade_qty_ b) ++ str " @ " ++ px ++ newline))
  else Ok [].

Definition spread_line (snap : BookSnapshot) : outcome bytes :=
  match bs_bids snap, bs_asks snap with
  | bid :: _, ask :: _ =>
      px ← Prices.price_to_string (sl_price ask - sl_price bid);
      Ok (format_line (str "  spread: " ++ px ++ newline))
  | _, _ => Ok []
  end.

Definition columns : bytes :=
  format_line (newline ++ str "  " ++ pad_left 6 (str "#ord") ++ str " " ++ pad_left 10 (str "SIZE") ++ str " " ++
    pad_left 12 (str "BID") ++ str " | " ++ pad_right 12 (str "ASK") ++ str " " ++ pad_right 10 (str "SIZE") ++
    str " " ++ pad_right 6 (str "#ord") ++ newline) ++
  str "  ------------------------------+------------------------------" ++ newline.

Definition bid_cell (snap : BookSnapshot) (row : nat) : outcome bytes :=
  match bs_bids snap !! row with
  | None => Ok []
  | Some l =>
      px ← Prices.price_to_string (sl_price l);
      Ok (clip 64 (pad_left 6 (unsigned (lengthZ (sl_orders l))) ++ str " " ++
        pad_left 10 (unsigned (Display.total l)) ++ str " " ++ pad_left 12 px))
  end.

Definition ask_cell (snap : BookSnapshot) (row : nat) : outcome bytes :=
  match bs_asks snap !! row with
  | None => Ok []
  | Some l =>
      px ← Prices.price_to_string (sl_price l);
      Ok (clip 64 (pad_right 12 px ++ str " " ++ pad_right 10 (unsigned (Display.total l)) ++ str " " ++
        pad_right 6 (unsigned (lengthZ (sl_orders l)))))
  end.

Fixpoint rows (n i : nat) (snap : BookSnapshot) : outcome bytes :=
  match n with
  | O => Ok []
  | S n =>
      bid ← bid_cell snap i;
      ask ← ask_cell snap i;
      rest ← rows n (S i) snap;
      Ok (format_line (str "  " ++ pad_left 30 bid ++ str " | " ++ pad_right 30 ask ++ newline) ++ rest)
  end.

(** [ESC [ H ESC [ 2 J]. *)
Definition clear_screen : bytes := [27] ++ str "[H" ++ [27] ++ str "[2J".

Definition draw (b : ItchBook.ItchBookBuilder) (symbol : bytes) (depth : Z) (msg_rate : double) : outcome bytes :=
  snap ← ItchBook.snapshot symbol b;
  trade ← last_trade_line b;
  spread ← spread_line snap;
  body ← rows (Z.to_nat depth) 0 snap;
  Ok (clear_screen ++ title b symbol msg_rate ++ trade ++ spread ++ columns ++ body ++
      newline ++ str "  Ctrl-C to exit" ++ newline).

(** ** The loop *)

Record Turn := mkTurn { v_stop : bool; v_received : option bytes; v_now : Z }.

Record Viewer := mkViewer {
  builder : ItchBook.ItchBookBuilder;
  last_draw : Z;
  rate_mark : Z;
  rate_msgs : Z;
  msg_rate : double;
  frames : list bytes;
  ended : bool }.

Definition start (now : Z) : Viewer := mkViewer ItchBook.init now now 0 (S754_zero false) [] false.

(** [recvfrom] and the builder. *)
Definition receive (t : Turn) (v : Viewer) : outcome Viewer :=
  match v_received t with
  | None => Ok v
  | Some data =>
      let buf := take 2048 data in
      if lengthZ buf <=? 0 then Ok v else
      '(eos, b) ← ItchBook.on_mold_packet buf (builder v);
      Ok (mkViewer b (last_draw v) (rate_mark v) (rate_msgs v) (msg_rate v) (frames v) eos)
  end.

Definition measure (now : Z) (v : Viewer) : Viewer :=
  if 1000000000 <? now - rate_mark v then
    let count := ItchBook.messages_ (builder v) in
    mkViewer (builder v) (last_draw v) now count
      (ddiv (of_Z (u64 (count - rate_msgs v))) (ddiv (of_Z (now - rate_mark v)) (of_Z 1000000000)))
      (frames v) (ended v)
  else v.

Definition refresh (symbol : bytes) (depth now : Z) (v : Viewer) : outcome Viewer :=
  if 100000000 <? now - last_draw v then
    let v := measure now v in
    frame ← draw (builder v) symbol depth (msg_rate v);
    Ok (mkViewer (builder v) now (rate_mark v) (rate_msgs v) (msg_rate v) (frames v ++ [frame]) (ended v))
  else Ok v.

(** The loop over the given turns; it stops early at the end of the session or
    when interrupted. *)
Fixpoint view (symbol : bytes) (depth : Z) (turns : list Turn) (v : Viewer) : outcome Viewer :=
  match turns with
  | [] => Ok v
  | t :: turns =>
      if v_stop t then Ok v else
      v ← receive t v;
      if ended v then Ok v else
      v ← refresh symbol depth (v_now t) v;
      view symbol depth turns v
  end.

Record Options := mkOptions { o_port : Z; o_symbol : bytes; o_depth : Z }.

Definition options (argv : list bytes) : outcome Options :=
  port ← atoi (CommandLine.arg_value argv (str "--port") (str "26000"));
  depth ← atoi (CommandLine.arg_value argv (str "--depth") (str "10"));
  Ok (mkOptions (u16 port) (make_symbol (CommandLine.arg_value argv (str "--symbol") (str "AAPL"))) depth).

(** [main] after the options, interrupted at the latest after the given turns;
    status 1 when the socket cannot be bound or the group not joined. *)
Definition run (o : Options) (bound joined : bool) (now : Z) (turns : list Turn) : outcome (list bytes * Z) :=
  if negb bound then Ok ([], 1) else
  if negb joined then Ok ([], 1) else
  v ← view (o_symbol o) (o_depth o) turns (start now);
  Ok (frames v ++ [newline ++ str "itchview: bye" ++ newline], 0).

(** ** Drawing *)

(** A book that can be drawn: prices of the right size, and not crossed. *)
Definition uncrossed (snap : BookSnapshot) : Prop :=
  match bs_bids snap, bs_asks snap with
  | bid :: _, ask :: _ => sl_price bid < sl_price ask
  | _, _ => True
  end.

(** ** What a frame shows *)

(** The shares of a level, in the 32-bit total of the program. *)
Definition level_shares (l : SnapshotLevel) : Z := u32 (sum_by so_qty (sl_orders l)).

(** Bids: number of orders, shares, price. Asks: price, shares, number of
    orders. *)
Definition shown_bid (l : SnapshotLevel) : bytes :=
  clip 64 (pad_left 6 (unsigned (lengthZ (sl_orders l))) ++ str " " ++
    pad_left 10 (unsigned (level_shares l)) ++ str " " ++ pad_left 12 (Display.price_string (sl_price l))).

Definition shown_ask (l : SnapshotLevel) : bytes :=
  clip 64 (pad_right 12 (Display.price_string (sl_price l)) ++ str " " ++
    pad_right 10 (unsigned (level_shares l)) ++ str " " ++ pad_right 6 (unsigned (lengthZ (sl_orders l)))).

(** A row: the bid level of that depth on the left, the ask level on the
    right, blank beyond the last. *)
Definition shown_row (snap : BookSnapshot) (i : nat) : bytes :=
  clip 160 (str "  " ++ pad_left 30 (from_option shown_bid [] (bs_bids snap !! i)) ++ str " | " ++
    pad_right 30 (from_option shown_ask [] (bs_asks snap !! i)) ++ newline).

(** The executions among some events. *)
Definition executions (ms : list Engine.MarketEvent) : list ExecutedEvent :=
  omap (fun m => match Engine.me_ev m with on_executed x => Some x | _ => None end) ms.

Definition shown_last_trade (ms : list Engine.MarketEvent) : bytes :=
  match last (executions ms) with
  | Some x => clip 160 (str "  last trade: " ++ unsigned (ex_qty x) ++ str " @ " ++
                Display.price_string (ex_price x) ++ newline)
  | None => []
  end.

Definition shown_spread (snap : BookSnapshot) : bytes :=
  match bs_bids snap, bs_asks snap with
  | bid :: _, ask :: _ =>
      clip 160 (str "  spread: " ++ Display.price_string (sl_price ask - sl_price bid) ++ newline)
  | _, _ => []
  end.

(** The frame for the book [snap] of [symbol], after the events [ms] of all
    symbols, without a gap: the numbers of messages and of traded shares, the
    last trade, the spread, and [depth] rows, the best prices first. *)
Definition shown_frame (symbol : bytes) (depth : Z) (snap : BookSnapshot) (ms : list Engine.MarketEvent)
    (rate : double) : bytes :=
  [27] ++ str "[H" ++ [27] ++ str "[2J" ++
  clip 160 (str "  " ++ Listen.c_string (symbol_view symbol) ++ str "   msgs=" ++ unsigned (lengthZ ms) ++
    str " (" ++ fixed [] 0 rate ++ str "/s)   traded=" ++ unsigned (u64 (sum_by ex_qty (executions ms))) ++
    str "   gaps=none" ++ newline) ++
  shown_last_trade ms ++ shown_spread snap ++
  newline ++ str "    #ord       SIZE          BID | ASK          SIZE       #ord  " ++ newline ++
  str "  ------------------------------+------------------------------" ++ newline ++
  concat (map (shown_row snap) (seq 0 (Z.to_nat depth))) ++
  newline ++ str "  Ctrl-C to exit" ++ newline.

(** The client's counters after the events [ms]. *)
Record counted (b : ItchBook.ItchBookBuilder) (ms : list Engine.MarketEvent) : Prop := {
  ct_messages : ItchBook.messages_ b = u64 (lengthZ ms);
  ct_traded : ItchBook.executed_shares_ b = u64 (sum_by ex_qty (executions ms));
  ct_price : ItchBook.last_trade_price_ b = from_option ex_price 0 (last (executions ms));
  ct_qty : ItchBook.last_trade_qty_ b = from_option ex_qty 0 (last (executions ms)) }.

(** A book whose totals can be shown. *)
Definition sized (snap : BookSnapshot) : Prop :=
  Forall (fun l => Forall (fun o => 0 <= so_qty o) (sl_orders l)) (bs_bids snap) /\
  Forall (fun l => Forall (fun o => 0 <= so_qty o) (sl_orders l)) (bs_asks snap).

Lemma total_shares l : Forall (fun o => 0 <= so_qty o) (sl_orders l) -> Display.total l = level_shares l.
Proof.
  intros Hq. rewrite Display.total_spec by done. unfold level_shares. f_equal. clear Hq.
  induction (sl_orders l) as [|o os IH]; cbn; [done|by rewrite IH].
Qed.

Lemma frame_rows_ok snap n : forall i, Display.showable snap -> sized snap ->
  rows n i snap = Ok (concat (map (shown_row snap) (seq i n))).
Proof.
  induction n as [|n IH]; intros i Hs Hz; cbn [rows seq map concat]; [done|].
  assert (bid_cell snap i = Ok (from_option shown_bid [] (bs_bids snap !! i))) as ->.
  { destruct Hs as [Hb _], Hz as [Hq _]. unfold bid_cell. destruct (bs_bids snap !! i) as [l|] eqn:E; [|done].
    rewrite Forall_lookup in Hb, Hq. rewrite Display.price_string_ok by (by eapply Hb).
    rewrite outcome_bind_Ok, total_shares by (by eapply Hq). done. }
  assert (ask_cell snap i = Ok (from_option shown_ask [] (bs_asks snap !! i))) as ->.
  { destruct Hs as [_ Ha], Hz as [_ Hq]. unfold ask_cell. destruct (bs_asks snap !! i) as [l|] eqn:E; [|done].
    rewrite Forall_lookup in Ha, Hq. rewrite Display.price_string_ok by (by eapply Ha).
    rewrite outcome_bind_Ok, total_shares by (by eapply Hq). done. }
  rewrite !outcome_bind_Ok, IH, outcome_bind_Ok by done. done.
Qed.

(** The lines above the ladder. *)
Lemma last_trade_line_ok b ms :
  counted b ms -> Forall (fun x => 0 < ex_price x < 2 ^ 63) (executions ms) ->
  last_trade_line b = Ok (shown_last_trade ms).
Proof.
  intros [_ _ Hp Hq] Hx. unfold last_trade_line, shown_last_trade. rewrite Hp, Hq.
  destruct (last (executions ms)) as [x|] eqn:E; cbn [from_option]; [|done].
  apply last_Some_elem_of in E. rewrite Forall_forall in Hx. specialize (Hx x E).
  destruct (Z.ltb_spec 0 (ex_price x)); [|lia]. by rewrite Display.price_string_ok, outcome_bind_Ok by lia.
Qed.

Lemma spread_line_ok snap : Display.showable snap -> uncrossed snap -> spread_line snap = Ok (shown_spread snap).
Proof.
  intros [Hb Ha] Hu. unfold spread_line, shown_spread, uncrossed in *.
  destruct (bs_bids snap) as [|bid bids]; [done|]. destruct (bs_asks snap) as [|ask asks]; [done|].
  apply Forall_cons in Hb as [Hb _]. apply Forall_cons in Ha as [Ha _].
  by rewrite Display.price_string_ok, outcome_bind_Ok by lia.
Qed.

Lemma draw_ok b symbol depth rate snap ms :
  ItchBook.snapshot symbol b = Ok snap -> Display.showable snap -> uncrossed snap -> sized snap ->
  counted b ms -> lengthZ ms < 2 ^ 64 -> Forall (fun x => 0 < ex_price x < 2 ^ 63) (executions ms) ->
  Listen.had_gap b = false ->
  draw b symbol depth rate = Ok (shown_frame symbol depth snap ms rate).
Proof.
  intros Hsnap Hs Hu Hz Hct Hlen Hx Hg. unfold draw.
  rewrite Hsnap, outcome_bind_Ok, (last_trade_line_ok b ms), outcome_bind_Ok by done.
  rewrite spread_line_ok, outcome_bind_Ok, frame_rows_ok, outcome_bind_Ok by done.
  unfold title. rewrite Hg, (ct_messages _ _ Hct), (ct_traded _ _ Hct).
  pose proof (lengthZ_nonneg ms). rewrite (wrap_small 64 (lengthZ ms)) by (unfold fits; lia).
  unfold shown_frame, clear_screen, format_line. rewrite <- !app_assoc. done.
Qed.

(** ** Prices of the client's orders *)

Definition prices_ok (b : ItchBook.ItchBookBuilder) : Prop :=
  map_Forall (fun _ o => fits 32 (ItchBook.bo_price o)) (ItchBook.orders_ b) /\
  fits 32 (ItchBook.last_trade_price_ b).

Lemma remove_prices ref b : prices_ok b -> prices_ok (ItchBook.remove_order ref b).
Proof.
  intros [Ho Ht]. unfold ItchBook.remove_order. destruct (_ !! ref); [|done]. split; [|done].
  by apply map_Forall_delete.
Qed.

Lemma reduce_prices ref n b : prices_ok b -> prices_ok (ItchBook.reduce_order ref n b).
Proof.
  intros Hp. unfold ItchBook.reduce_order. destruct (_ !! ref) as [o|] eqn:E; [|done].
  destruct (_ <=? _); [by apply remove_prices|]. destruct Hp as [Ho Ht]. split; [|done].
  apply map_Forall_insert_2; [exact (Ho _ _ E)|done].
Qed.

Lemma add_prices ref sym side px n b :
  fits 32 px -> prices_ok b -> prices_ok (ItchBook.add_order ref sym side px n b).
Proof. intros Hpx [Ho Ht]. split; [|done]. by apply map_Forall_insert_2. Qed.

(** The events of the engine keep them in 32 bits. *)
Lemma event_prices m locate b :
  encodable m -> prices_ok b -> prices_ok (ItchBook.on_message (Feed.itch_message m locate) b).
Proof.
  intros (_ & _ & Hf & _) Hp. unfold Feed.itch_message.
  destruct (Engine.me_ev m) as [x|x|x|x]; cbn [ev_fits] in Hf; [| |destruct (ca_removed x)|];
    cbn [ItchBook.on_message].
  - apply add_prices; [apply Hf|done].
  - apply reduce_prices. destruct Hp as [Ho Ht]. cbn. destruct (_ !! _) as [o|] eqn:E; [|done].
    split; [done|]. exact (Ho _ _ E).
  - by apply remove_prices.
  - by apply reduce_prices.
  - cbn. destruct (_ !! _) as [o|] eqn:E; [|done]. apply add_prices; [apply Hf|]. by apply remove_prices.
Qed.

Lemma blocks_prices ms : forall datas b b',
  Forall encodable ms -> Forall2 message_of ms datas -> prices_ok b ->
  ItchBook.on_blocks datas b = Ok b' -> prices_ok b'.
Proof.
  induction ms as [|m ms IH]; intros datas b b' Hok H2 Hp.
  - apply Forall2_nil_inv_l in H2 as ->. by intros [= <-].
  - apply Forall2_cons_inv_l in H2 as (d & ds & (l & Hl & ->) & H2 & ->).
    apply Forall_cons in Hok as [Hm Hok]. cbn [ItchBook.on_blocks].
    rewrite Itch.decode_wire, outcome_bind_Ok by (by apply itch_message_ok).
    apply IH; [done|done|]. by apply event_prices.
Qed.

(** ** Following the feed *)

(** The books after the first events of a session. *)
Definition books_after (ms : list Engine.MarketEvent) : Market := fold_left market_step ms (fun _ => Spec.empty).

Lemma market_fold f ms ms' f' :
  market f (ms ++ ms') f' -> market f ms (fold_left market_step ms f) /\ market (fold_left market_step ms f) ms' f'.
Proof.
  revert f. induction ms as [|m ms IH]; intros f Hm; cbn [app fold_left] in *; [by split; [constructor|]|].
  inversion Hm as [|? ? ? ? Hs Hm']; subst. destruct (IH _ Hm') as [H1 H2]. split; [by constructor|done].
Qed.

(** The counters after one more event. *)
Lemma executions_snoc ms m :
  executions (ms ++ [m]) = executions ms ++ match Engine.me_ev m with on_executed x => [x] | _ => [] end.
Proof. unfold executions. rewrite omap_app. cbn. by destruct (Engine.me_ev m). Qed.

(** Changing the orders leaves the counters. *)
Definition same_counters (b b' : ItchBook.ItchBookBuilder) : Prop :=
  ItchBook.executed_shares_ b' = ItchBook.executed_shares_ b /\
  ItchBook.last_trade_price_ b' = ItchBook.last_trade_price_ b /\
  ItchBook.last_trade_qty_ b' = ItchBook.last_trade_qty_ b.

Lemma counted_silent b b' ms m :
  counted b ms -> (forall x, Engine.me_ev m <> on_executed x) ->
  ItchBook.messages_ b' = u64 (ItchBook.messages_ b + 1) ->
  same_counters b b' -> counted b' (ms ++ [m]).
Proof.
  intros [H1 H2 H3 H4] Hm E1 (E2 & E3 & E4).
  assert (executions (ms ++ [m]) = executions ms) as E.
  { rewrite executions_snoc. destruct (Engine.me_ev m); try apply app_nil_r. by edestruct Hm. }
  split; rewrite ?E, ?E2, ?E3, ?E4; [|done..]. rewrite E1, H1, lengthZ_app, wrap_add_l. done.
Qed.

Lemma remove_counters ref b : same_counters b (ItchBook.remove_order ref b).
Proof. unfold ItchBook.remove_order. by destruct (_ !! ref). Qed.

Lemma reduce_counters ref n b : same_counters b (ItchBook.reduce_order ref n b).
Proof.
  unfold ItchBook.reduce_order. destruct (_ !! ref); [|done]. destruct (_ <=? _); [apply remove_counters|done].
Qed.

Lemma event_counted m locate b f ms :
  Rep b f -> step_ok f m -> counted b ms -> counted (ItchBook.on_message (Feed.itch_message m locate) b) (ms ++ [m]).
Proof.
  intros HR Hm Hct.
  assert (ItchBook.messages_ (ItchBook.on_message (Feed.itch_message m locate) b) = u64 (ItchBook.messages_ b + 1))
    as Hn by apply on_message_messages.
  pose proof (st_ev _ _ Hm) as Hev. unfold Feed.itch_message in *.
  destruct (Engine.me_ev m) as [x|x|x|x] eqn:E; [| |destruct (ca_removed x)|].
  - apply (counted_silent b); try done. by rewrite E.
  - destruct Hev as (q & Hf & _).
    pose proof (proj2 (rp_orders _ _ HR _ (ItchBook.mkBuilderOrder _ _ _ _)) Hf) as Ho.
    destruct Hct as [H1 H2 H3 H4]. split.
    + rewrite Hn, H1, lengthZ_app, wrap_add_l. done.
    + rewrite executions_snoc, E, sum_by_app. cbn [ItchBook.on_message Itch.oe_order_ref Itch.oe_executed_shares].
      rewrite (proj1 (reduce_counters _ _ _)). cbn. rewrite Ho. cbn.
      rewrite H2, wrap_add_l. f_equal. lia.
    + rewrite executions_snoc, E, last_snoc. cbn [ItchBook.on_message Itch.oe_order_ref Itch.oe_executed_shares].
      rewrite (proj1 (proj2 (reduce_counters _ _ _))). cbn. by rewrite Ho.
    + rewrite executions_snoc, E, last_snoc. cbn [ItchBook.on_message Itch.oe_order_ref Itch.oe_executed_shares].
      by rewrite (proj2 (proj2 (reduce_counters _ _ _))).
  - apply (counted_silent b); [done|by rewrite E|done|]. exact (remove_counters (ca_id x) _).
  - apply (counted_silent b); [done|by rewrite E|done|]. exact (reduce_counters (ca_id x) (ca_canceled_qty x) _).
  - apply (counted_silent b); [done|by rewrite E|done|]. cbn [ItchBook.on_message].
    destruct (_ !! _); [|done]. exact (remove_counters (re_old_id x) _).
Qed.

Lemma blocks_counted es : forall datas b b' f f' ms,
  market f es f' -> Forall2 message_of es datas -> Forall encodable es -> Rep b f -> counted b ms ->
  ItchBook.on_blocks datas b = Ok b' -> counted b' (ms ++ es).
Proof.
  induction es as [|m es IH]; intros datas b b' f f' ms Hm H2 Hok HR Hct;
    inversion Hm as [? ? Hff|? ? ? ? Hs Hm']; subst; inversion H2 as [|? d ? ds Hd H2']; subst; cbn [ItchBook.on_blocks].
  { intros [= <-]. by rewrite app_nil_r. }
  apply Forall_cons in Hok as [Hm0 Hok]. destruct Hd as (locate & Hl & ->).
  rewrite Itch.decode_wire, outcome_bind_Ok by (by apply itch_message_ok). intros Hb.
  change (m :: es) with ([m] ++ es). rewrite app_assoc. eapply IH; [exact Hm'|exact H2'|exact Hok|by apply on_message_rep|by eapply event_counted|exact Hb].
Qed.

(** Trades happen at prices of the wire. *)
Lemma executions_prices f ms f' :
  market f ms f' -> Forall (fun x => 0 < ex_price x < 2 ^ 63) (executions ms).
Proof.
  induction 1 as [|f m ms f' Hs _ IH]; [constructor|]. destruct Hs as [Hwf Hev _ _ _ Hf].
  unfold executions in *. cbn [omap list_omap]. destruct (Engine.me_ev m) as [x|x|x|x]; [done| |done..].
  constructor; [|done]. destruct Hev as (q & Hfo & _). cbn in Hf.
  destruct (Spec.find_order_qty _ _ _ _ _ (Hwf _) Hfo) as [Hp _]. unfold fits in Hf. lia.
Qed.

(** A client that represents the books draws them. *)
Lemma rep_draws b f symbol depth rate ms :
  Rep b f -> prices_ok b -> counted b ms -> lengthZ ms < 2 ^ 64 ->
  Forall (fun x => 0 < ex_price x < 2 ^ 63) (executions ms) -> Listen.had_gap b = false ->
  draw b symbol depth rate = Ok (shown_frame symbol depth (Spec.to_snapshot (f symbol)) ms rate).
Proof.
  intros HR [Hp _] Hct Hlen Hx Hg. pose proof (snapshot_rep b f symbol HR) as Hs. pose proof (rp_wf _ _ HR symbol) as Hwf.
  assert (forall s px os, valid_side s -> (px, os) ∈ Spec.levels s (f symbol) ->
    0 <= px < 2 ^ 63 /\ Forall (fun o => 0 <= so_qty o) os) as Hl.
  { intros s px os Hv Hin. destruct (Spec.wf_levels _ Hwf s) as [_ Hne]. rewrite Forall_forall in Hne.
    pose proof (Hne _ Hin) as (_ & Hnil & Hq). cbn in Hnil, Hq.
    split; [|eapply Forall_impl; [exact Hq|]; cbn; intros; lia].
    destruct os as [|o os]; [done|].
    assert (Spec.find_order (so_id o) (f symbol) = Some (s, px, so_qty o)) as Hfo.
    { apply Spec.find_order_spec; [apply Hwf|done|]. eexists. split; [exact Hin|].
      destruct o. apply list_elem_of_here. }
    pose proof (proj2 (rp_orders _ _ HR (so_id o) (ItchBook.mkBuilderOrder symbol s px (so_qty o))) Hfo) as Hb.
    apply Hp in Hb. unfold fits in Hb. cbn in Hb. lia. }
  apply draw_ok; try done.
  - split; apply Forall_map, Forall_forall; intros [px os] Hin.
    + apply (Hl Buy px os); [by left|done].
    + apply (Hl Sell px os); [by right|done].
  - unfold uncrossed, Spec.to_snapshot. cbn [bs_bids bs_asks].
    pose proof (Spec.wf_uncrossed _ Hwf) as Hu. unfold Spec.best, Spec.levels in Hu. cbn in Hu.
    destruct (Spec.bids (f symbol)) as [|[pb ?] ?]; [done|]. destruct (Spec.asks (f symbol)) as [|[pa ?] ?]; [done|].
    cbn in *. by apply Hu.
  - split; apply Forall_map, Forall_forall; intros [px os] Hin.
    + apply (Hl Buy px os); [by left|done].
    + apply (Hl Sell px os); [by right|done].
Qed.

(** ** The frames of a run *)

Definition heard (t : Turn) : option bytes :=
  match v_received t with Some (c :: data) => Some (c :: data) | _ => None end.

(** When frames are drawn: for each, the number of datagrams received before it
    and the message rate shown. A turn draws when it comes more than 100 ms
    after the last frame; the rate is that of the messages since it was last
    computed, computed again with a frame drawn more than a second later.
    [count n] is the number of messages in the first [n] datagrams. *)
Fixpoint drawn (count : nat -> Z) (last mark marked : Z) (rate : double) (n : nat) (turns : list Turn)
    : list (nat * double) :=
  match turns with
  | [] => []
  | t :: turns =>
      if v_stop t then [] else
      let n := if heard t then S n else n in
      if v_now t - last <=? 100000000 then drawn count last mark marked rate n turns else
      if v_now t - mark <=? 1000000000 then (n, rate) :: drawn count (v_now t) mark marked rate n turns else
      let rate := ddiv (of_Z (count n - marked)) (ddiv (of_Z (v_now t - mark)) (of_Z 1000000000)) in
      (n, rate) :: drawn count (v_now t) (v_now t) (count n) rate n turns
  end.

Section Stream.
Context (session : bytes) (mtu : Z) (symbol : bytes) (depth : Z) (all : list (list Engine.MarketEvent)) (f : Market).
Hypothesis (Hs : length session = 10%nat) (Hsb : Forall is_byte session) (Hmtu : mtu <= 2048).
Hypothesis (Hlen : lengthZ (concat all) < 2 ^ 63) (Hall : market (fun _ => Spec.empty) (concat all) f).

(** The events of the first datagrams, and how many they are. *)
Definition received (n : nat) : list Engine.MarketEvent := concat (take n all).
Definition count (n : nat) : Z := lengthZ (received n).

Lemma received_market n :
  market (fun _ => Spec.empty) (received n) (books_after (received n)) /\
  market (books_after (received n)) (concat (drop n all)) f.
Proof.
  apply market_fold. unfold received. by rewrite <- concat_app, take_drop.
Qed.

Lemma count_bound n : 0 <= count n < 2 ^ 63.
Proof.
  unfold count, received. split; [apply lengthZ_nonneg|].
  rewrite <- (take_drop n all), concat_app, lengthZ_app in Hlen. pose proof (lengthZ_nonneg (concat (drop n all))). lia.
Qed.

(** The frame drawn after [n] datagrams. *)
Definition frame_after (d : nat * double) : bytes :=
  shown_frame symbol depth (Spec.to_snapshot (books_after (received d.1) symbol)) (received d.1) d.2.

Record following (v : Viewer) (n : nat) (seq : Z) : Prop := {
  fo_rep : Rep (builder v) (books_after (received n));
  fo_prices : prices_ok (builder v);
  fo_counted : counted (builder v) (received n);
  fo_gaps : ItchBook.gaps_ (builder v) = Mold.mkGap seq false;
  fo_marked : exists k, (k <= n)%nat /\ rate_msgs v = count k }.

Lemma packet_followed b g me g' seq ms f' :
  stream_group mtu session g -> Forall2 message_of me g -> Forall encodable me -> market g' me f' ->
  Rep b g' -> prices_ok b -> counted b ms -> ItchBook.gaps_ b = Mold.mkGap seq false ->
  0 <= seq -> seq + lengthZ g < 2 ^ 64 ->
  exists b', ItchBook.on_mold_packet (Mold.packet_bytes session seq g) b = Ok (false, b') /\
    Rep b' f' /\ prices_ok b' /\ counted b' (ms ++ me) /\ ItchBook.gaps_ b' = Mold.mkGap (seq + lengthZ g) false.
Proof.
  intros Hg H2 Hok Hm HR Hp Hct Hgap H0 Hb. pose proof (lengthZ_nonneg g).
  destruct (on_blocks_rep me g b g' f' Hm H2 Hok HR) as (b1 & Hon & HR1 & _).
  unfold ItchBook.on_mold_packet. rewrite (parse_stream_group session mtu Hs Hsb) by (done || unfold fits; lia).
  rewrite outcome_bind_Ok. cbn [Mold.pk_seq Mold.pk_messages Mold.pk_end_of_session].
  rewrite Hgap, (on_packet_stream session Hs) by lia.
  rewrite Z.ltb_irrefl. cbn [orb].
  rewrite (on_blocks_gaps _ _ _ _ Hon), outcome_bind_Ok. eexists. split; [reflexivity|].
  pose proof (blocks_counted me g b b1 g' f' ms Hm H2 Hok HR Hct Hon) as [].
  split; [destruct HR1; by split|]. split; [exact (blocks_prices me g b b1 Hok H2 Hp Hon)|].
  split; [by split|done].
Qed.

Lemma end_packet b s :
  fits 64 s ->
  exists b', ItchBook.on_mold_packet (Mold.header_bytes session s Mold.kEndOfSessionCount) b = Ok (true, b').
Proof.
  intros Hf. unfold ItchBook.on_mold_packet. rewrite parse_end, outcome_bind_Ok by done.
  cbn [Mold.pk_seq Mold.pk_messages Mold.pk_end_of_session]. destruct (Mold.on_packet _ _ _) as [gap g].
  cbn [ItchBook.on_blocks]. rewrite outcome_bind_Ok. eauto.
Qed.

(** A turn that comes to the drawing. *)
Lemma refresh_followed t turns v n seq :
  following v n seq ->
  exists v' ds, refresh symbol depth (v_now t) v = Ok v' /\ following v' n seq /\ ended v' = ended v /\
    frames v' = frames v ++ map frame_after ds /\
    (if v_now t - last_draw v <=? 100000000 then drawn count (last_draw v) (rate_mark v) (rate_msgs v) (msg_rate v) n turns
     else if v_now t - rate_mark v <=? 1000000000 then
       (n, msg_rate v) :: drawn count (v_now t) (rate_mark v) (rate_msgs v) (msg_rate v) n turns
     else let rate := ddiv (of_Z (count n - rate_msgs v)) (ddiv (of_Z (v_now t - rate_mark v)) (of_Z 1000000000)) in
       (n, rate) :: drawn count (v_now t) (v_now t) (count n) rate n turns) =
    ds ++ drawn count (last_draw v') (rate_mark v') (rate_msgs v') (msg_rate v') n turns.
Proof.
  intros [H1 H2 H3 H4 H5]. unfold refresh. rewrite !Z.leb_antisym.
  destruct (Z.ltb_spec 100000000 (v_now t - last_draw v)) as [Hd|Hd]; cbn [negb].
  2: { exists v, []. split_and!; try done. by rewrite app_nil_r. }
  pose proof (count_bound n) as Hcn. assert (lengthZ (received n) < 2 ^ 64) as Hln by (unfold count in Hcn; lia).
  pose proof (executions_prices _ _ _ (proj1 (received_market n))) as Hx.
  assert (Listen.had_gap (builder v) = false) as Hg by (unfold Listen.had_gap; by rewrite H4).
  assert (ItchBook.messages_ (builder v) = count n) as Hmsg
    by (rewrite (ct_messages _ _ H3); apply wrap_small; unfold fits, count in *; lia).
  unfold measure. destruct (Z.ltb_spec 1000000000 (v_now t - rate_mark v)) as [Hr|Hr]; cbn [negb builder msg_rate].
  - cbv zeta. rewrite (rep_draws _ _ _ _ _ _ H1 H2 H3 Hln Hx Hg), outcome_bind_Ok, Hmsg.
    destruct H5 as (k & Hk & Hrm).
    assert (0 <= count n - rate_msgs v) as Hnn.
    { rewrite Hrm. unfold count, received. replace n with (k + (n - k))%nat by lia.
      rewrite <- take_take_drop, concat_app, lengthZ_app.
      pose proof (lengthZ_nonneg (concat (take (n - k) (drop k all)))). lia. }
    pose proof (count_bound k). rewrite wrap_small by (unfold fits; lia).
    eexists _, [(n, _)]. split; [reflexivity|]. cbn [frames ended last_draw rate_mark rate_msgs msg_rate].
    split; [split; cbn; try done; by exists n|]. by split_and!.
  - rewrite (rep_draws _ _ _ _ _ _ H1 H2 H3 Hln Hx Hg), outcome_bind_Ok.
    eexists _, [(n, _)]. split; [reflexivity|]. cbn [frames ended last_draw rate_mark rate_msgs msg_rate].
    split; [by split|]. by split_and!.
Qed.

(** A turn that receives nothing. *)
Lemma receive_nothing t v : heard t = None -> receive t v = Ok v.
Proof. unfold heard, receive. destruct (v_received t) as [[|]|]; done. Qed.

Lemma receive_packet t d v :
  heard t = Some d -> lengthZ d <= 2048 ->
  receive t v = ('(eos, b) ← ItchBook.on_mold_packet d (builder v);
    Ok (mkViewer b (last_draw v) (rate_mark v) (rate_msgs v) (msg_rate v) (frames v) eos)).
Proof.
  unfold heard, receive. destruct (v_received t) as [[|c data]|]; try done. intros [= <-] Hl.
  rewrite take_ge by (unfold lengthZ in Hl; lia).
  destruct (Z.leb_spec (lengthZ (c :: data)) 0) as [Hn|]; [unfold lengthZ in Hn; cbn [length] in Hn; lia|done].
Qed.

(** Receiving the next datagram. *)
Lemma receive_followed t v n seq g gs :
  following v n seq -> Forall (stream_group mtu session) (g :: gs) ->
  Forall2 (Forall2 message_of) (drop n all) (g :: gs) -> Forall encodable (concat (drop n all)) ->
  0 <= seq -> seq + lengthZ (concat (g :: gs)) < 2 ^ 64 -> heard t = Some (Mold.packet_bytes session seq g) ->
  exists v', receive t v = Ok v' /\ following v' (S n) (seq + lengthZ g) /\ ended v' = false /\ frames v' = frames v /\
    last_draw v' = last_draw v /\ rate_mark v' = rate_mark v /\ rate_msgs v' = rate_msgs v /\ msg_rate v' = msg_rate v /\
    Forall2 (Forall2 message_of) (drop (S n) all) gs /\ Forall encodable (concat (drop (S n) all)).
Proof.
  intros Hv Hg Hev Henc H0 Hb Ht. pose proof (received_market n) as [_ Hm].
  apply Forall2_cons_inv_r in Hev as (me & evs & H1 & H2 & E).
  assert (all !! n = Some me) as Hn by (rewrite <- (Nat.add_0_r n), <- lookup_drop, E; done).
  assert (drop (S n) all = evs) as E' by (rewrite (drop_S _ me) in E by done; by injection E).
  assert (received (S n) = received n ++ me) as Er.
  { unfold received. rewrite (take_S_r _ _ me) by done. rewrite concat_app. cbn. by rewrite app_nil_r. }
  rewrite E in Henc, Hm. cbn [concat] in Henc, Hm, Hb. apply Forall_app in Henc as [Henc0 Henc].
  apply Forall_cons in Hg as [Hg0 Hg]. apply market_fold in Hm as [Hm0 _].
  rewrite lengthZ_app in Hb. pose proof (lengthZ_nonneg (concat gs)).
  assert (lengthZ (Mold.packet_bytes session seq g) <= 2048) as Hsz.
  { assert (Forall (fun d => 20 <= lengthZ d <= Z.max mtu 66) (Mold.packets_from session seq [g])) as Hd.
    { apply packets_sizes; [done|by constructor|]. cbn [concat]. rewrite app_nil_r. exact (message_of_sizes me g Henc0 H1). }
    apply Forall_cons in Hd as [Hd _]. lia. }
  rewrite (receive_packet t (Mold.packet_bytes session seq g)) by done. destruct Hv as [F1 F2 F3 F4 (k & Hk & F5)].
  destruct (packet_followed (builder v) g me _ seq _ _ Hg0 H1 Henc0 Hm0 F1 F2 F3 F4)
    as (b & -> & HR & Hp & Hct & Hgap); [lia|lia|].
  rewrite outcome_bind_Ok. eexists. split; [reflexivity|]. rewrite E'. split_and!; try done.
  split; cbn [builder rate_msgs]; rewrite ?Er; try done.
  - unfold books_after. rewrite fold_left_app. exact HR.
  - exists k. split; [lia|done].
Qed.

Lemma view_follows fin before after : forall groups v n seq k,
  following v n seq -> ended v = false -> fits 64 fin ->
  Forall (stream_group mtu session) groups -> Forall2 (Forall2 message_of) (drop n all) groups ->
  Forall encodable (concat (drop n all)) -> 0 <= seq -> seq + lengthZ (concat groups) < 2 ^ 64 ->
  omap heard before = take k (Mold.packets_from session seq groups) ->
  (after = [] \/ exists t rest, after = t :: rest /\
     heard t = Some (Mold.header_bytes session fin Mold.kEndOfSessionCount)) ->
  exists v', view symbol depth (before ++ after) v = Ok v' /\
    frames v' = frames v ++
      map frame_after (drawn count (last_draw v) (rate_mark v) (rate_msgs v) (msg_rate v) n before).
Proof.
  induction before as [|t before IH]; intros groups v n seq k Hv He Hfin Hg Hev Henc H0 Hb Hh Hafter;
    cbn [drawn app map].
  { rewrite app_nil_r. destruct Hafter as [->|(t & rest & -> & Ht)]; [by exists v|]. cbn [view].
    destruct (v_stop t); [by exists v|].
    rewrite (receive_packet t _ _ Ht) by (unfold lengthZ; rewrite Mold.length_header by done; lia).
    destruct (end_packet (builder v) fin Hfin) as (b & ->). rewrite !outcome_bind_Ok. cbn [ended].
    eexists. split; [reflexivity|done]. }
  cbn [view]. destruct (v_stop t); [exists v; by rewrite app_nil_r|].
  change (omap heard (t :: before)) with (match heard t with Some d => d :: omap heard before | None => omap heard before end) in Hh.
  destruct (heard t) as [d|] eqn:Ht.
  - destruct k as [|k]; [done|]. destruct groups as [|g gs]; [done|].
    cbn [Mold.packets_from take] in Hh. injection Hh as -> Hh.
    destruct (receive_followed t v n seq g gs Hv Hg Hev Henc H0 Hb Ht)
      as (v1 & -> & Hv1 & He1 & Ef & <- & <- & <- & <- & Hev1 & Henc1). rewrite outcome_bind_Ok, He1.
    destruct (refresh_followed t before v1 (S n) _ Hv1) as (v2 & ds & -> & Hv2 & He2 & Ef2 & Hdr).
    cbv beta iota zeta. cbv beta iota zeta in Hdr. rewrite Hdr.
    rewrite outcome_bind_Ok. cbn [concat] in Hb. rewrite lengthZ_app in Hb.
    pose proof (lengthZ_nonneg g). apply Forall_cons in Hg as [_ Hg].
    destruct (IH gs v2 (S n) (seq + lengthZ g) k) as (v' & -> & Ef'); try done; [by rewrite He2|lia|lia|].
    exists v'. split; [done|]. by rewrite Ef', Ef2, Ef, map_app, app_assoc.
  - rewrite receive_nothing, outcome_bind_Ok, He by done.
    destruct (refresh_followed t before v n _ Hv) as (v2 & ds & -> & Hv2 & He2 & Ef2 & Hdr).
    cbv beta iota zeta. cbv beta iota zeta in Hdr. rewrite Hdr.
    rewrite outcome_bind_Ok. destruct (IH groups v2 n seq k) as (v' & -> & Ef'); try done; [by rewrite He2|].
    exists v'. split; [done|]. by rewrite Ef', Ef2, map_app, app_assoc.
Qed.
End Stream.

(** The events a datagram carries. *)
Definition carries (ms : list Engine.MarketEvent) (d : bytes) : Prop :=
  exists pkt, Mold.parse d = Ok (Some pkt) /\ Forall2 message_of ms (Mold.pk_messages pkt).

Lemma packets_carry session mtu : length session = 10%nat -> Forall is_byte session -> mtu < 2 ^ 16 ->
  forall groups evs s, Forall (stream_group mtu session) groups -> Forall2 (Forall2 message_of) evs groups ->
  0 <= s -> s + lengthZ (concat groups) < 2 ^ 64 -> Forall2 carries evs (Mold.packets_from session s groups).
Proof.
  intros Hs Hsb Hmtu. induction groups as [|g gs IH]; intros evs s Hg H2 H0 Hb.
  - apply Forall2_nil_inv_r in H2 as ->. constructor.
  - apply Forall2_cons_inv_r in H2 as (me & evs' & H1 & H2 & ->). apply Forall_cons in Hg as [Hg0 Hg].
    cbn [concat] in Hb. rewrite lengthZ_app in Hb. pose proof (lengthZ_nonneg g). pose proof (lengthZ_nonneg (concat gs)).
    constructor; [|apply IH; (done || lia)]. exists (Mold.mkPacket session s false g). split; [|exact H1].
    apply (parse_stream_group session mtu Hs Hsb); [done|done|unfold fits; lia].
Qed.

(** C28: the viewer follows the feed. Take any session, published in datagrams
    of at most 2048 bytes (the viewer's buffer), each of which carries the next
    of the engine's events. A viewer that binds its socket and joins the group
    and receives the first datagrams, however many and with whatever timeouts
    in between, and possibly the one that ends the session after them, does not
    fail. It draws a frame in every turn that comes more than 100 ms after the
    last frame, until it is interrupted or the session ends, and no others; the
    frame drawn after [n] datagrams shows exactly the events in those: the
    number of them, the shares traded, the last trade, no gap, the spread, and
    the top [depth] levels of the book they leave, bids on the left and asks on
    the right. The book that all of the events leave is the engine's. *)
Theorem viewer_follows_engine cmds sv mtu ns_since_midnight capture e drains last p o now :
  session_ok cmds -> Forall (fun c => fits 48 c.1) cmds ->
  Forall is_byte sv -> mtu <= 2048 -> engine_run cmds = Some e ->
  concat drains ++ last = Engine.to_feed_ e ->
  Feed.run ns_since_midnight drains last (Feed.make sv mtu capture) = Ok p ->
  exists pkts fin evs, Feed.sent p = pkts ++ [fin] /\ concat evs = Engine.to_feed_ e /\ Forall2 carries evs pkts /\
    (forall sym, @Engine.book_snapshot Fast (fast_engine_book default_cfg) sym e =
       Some (Spec.to_snapshot (books_after (concat evs) sym))) /\
    forall before after k, omap heard before = take k pkts ->
      (after = [] \/ exists t rest, after = t :: rest /\ heard t = Some fin) ->
      run o true true now (before ++ after) =
        Ok (map (frame_after (o_symbol o) (o_depth o) evs) (drawn (count evs) now now 0 (S754_zero false) 0 before) ++
              [newline ++ str "itchview: bye" ++ newline], 0).
Proof.
  intros Hc Hts Hsv Hmtu He Hd Hrun. pose proof (feed_short _ _ Hc He) as Hlen.
  destruct (session_stream cmds sv mtu ns_since_midnight capture e drains last p)
    as (groups & Hs & Hsb & Henc & Hg & H2 & Hsent); try assumption; [lia|].
  destruct (split_events groups _ H2) as (evs & Hevs & Hev).
  destruct (engine_run_spec cmds Hc) as (e' & S & Hr & Hri & _ & Hm & _). rewrite He in Hr. injection Hr as <-.
  assert (lengthZ (concat groups) = lengthZ (Engine.to_feed_ e)) as Hgl
    by (unfold lengthZ; by rewrite (Forall2_length _ _ _ H2)).
  pose proof (lengthZ_nonneg (concat groups)). rewrite <- Hevs in Hm, Hlen, Henc, Hgl.
  eexists _, _, evs. split; [exact Hsent|]. split; [done|].
  split; [apply (packets_carry _ mtu); (done || lia)|]. split.
  - intros sym. trans (Some (Spec.to_snapshot (spec_book S sym))); [exact (book_snapshot_spec e S sym (ri_inv _ _ Hri))|].
    destruct (market_fold (fun _ => Spec.empty) (concat evs) [] (spec_book S)) as [_ Hend]; [by rewrite app_nil_r|].
    inversion Hend as [? ? Hsame|]; subst. do 2 f_equal. symmetry. apply Hsame.
  - intros before after k Hh Hafter.
    destruct (view_follows (Mold.make_session sv) mtu (o_symbol o) (o_depth o) evs (spec_book S) Hs Hsb Hmtu
      Hlen Hm (1 + lengthZ (concat groups)) before after groups (start now) 0 1 k)
      as (v & Hv & Hf); try done; try (unfold fits; lia).
    + split; [apply init_rep|split; [apply map_Forall_empty|unfold fits; cbn; lia]|by split|done|by exists 0%nat].
    + unfold run. cbn [negb]. rewrite Hv, outcome_bind_Ok, Hf. done.
Qed.

Lemma viewer_follows_engine_witness :
  exists e p evs, engine_run demo_commands = Some e /\ concat evs = Engine.to_feed_ e /\
    run (mkOptions 26000 (make_symbol (str "AAPL")) 10) true true 0
      (mkTurn false None 200000000 :: map (fun d => mkTurn false (Some d) 400000000) (Feed.sent p)) =
      Ok (map (frame_after (make_symbol (str "AAPL")) 10 evs)
            (drawn (count evs) 0 0 0 (S754_zero false) 0
              (mkTurn false None 200000000 :: map (fun d => mkTurn false (Some d) 400000000) (removelast (Feed.sent p)))) ++
          [newline ++ str "itchview: bye" ++ newline], 0).
Proof.
  destruct (demo_published (fun n => n) None) as (e & p & He & Hrun).
  assert (Forall is_byte [78; 83; 81]) as Hsv by (repeat (constructor; [unfold is_byte; lia|]); constructor).
  assert (concat [[]; Engine.to_feed_ e] ++ [] = Engine.to_feed_ e) as Hd by (cbn; by rewrite !app_nil_r).
  destruct (viewer_follows_engine demo_commands [78; 83; 81] 1400 (fun n => n) None e [[]; Engine.to_feed_ e] [] p
    (mkOptions 26000 (make_symbol (str "AAPL")) 10) 0 demo_commands_ok demo_times Hsv ltac:(lia) He Hd Hrun)
    as (pkts & fin & evs & Hsent & Hevs & _ & _ & H).
  pose proof (feed_sizes demo_commands [78; 83; 81] 1400 (fun n => n) None e [[]; Engine.to_feed_ e] [] p
    demo_commands_ok demo_times Hsv ltac:(lia) He Hd Hrun) as Hsz. rewrite Hsent in Hsz.
  apply Forall_app in Hsz as [Hsz Hszf]. apply Forall_cons in Hszf as [Hszf _].
  exists e, p, evs. split; [exact He|]. split; [exact Hevs|].
  rewrite Hsent, removelast_last, map_app.
  refine (H (mkTurn false None 200000000 :: map (fun d => mkTurn false (Some d) 400000000) pkts)
    [mkTurn false (Some fin) 400000000] (length pkts) _ _).
  - rewrite take_ge by done. cbn. clear - Hsz.
    induction Hsz as [|d ds Hd' _ IH]; [done|]. destruct d; [unfold lengthZ in Hd'; cbn in Hd'; lia|].
    cbn. by f_equal.
  - right. eexists _, []. split; [done|]. destruct fin; [unfold lengthZ in Hszf; cbn in Hszf; lia|done].
Defined.

(** ** After a gap *)

(** Two sells, the cancel of the better one, and a buy between their prices. *)
Definition crossing_commands : list (Z * Engine.Command) :=
  [(100, Engine.mkCommand 1 (Engine.CEnter (demo_enter [97] Sell 100 1500000 99999 0)));
   (200, Engine.mkCommand 1 (Engine.CEnter (demo_enter [98] Sell 100 1502000 99999 0)));
   (300, Engine.mkCommand 1 (Engine.CCancel (Ouch.mkCancelOrder (make_token [97]) 0)));
   (400, Engine.mkCommand 2 (Engine.CEnter (demo_enter [98] Buy 100 1501500 99999 0)))].

Lemma crossing_commands_ok : session_ok crossing_commands.
Proof.
  split; [|by vm_compute].
  repeat (apply Forall_cons; split);
    [..|apply Forall_nil_2]; unfold command_ok, Ouch.EnterOrder_body, Ouch.ReplaceOrder_body,
      Ouch.CancelOrder_body; cbn [Engine.cmd_msg snd]; fmt_simpl; vm_compute; concrete_ok; try done.
Qed.

(** A four-digit number below zero has five characters. *)
Lemma four_digits n : 1000 <= n < 10000 -> lengthZ (Soup.to_string n) = 4.
Proof.
  intros Hn. assert (forallb (fun m => lengthZ (Soup.to_string m) =? 4) (seqZ 1000 9000) = true) as H by by vm_compute.
  rewrite forallb_forall in H. apply Z.eqb_eq, H, list_elem_of_In, elem_of_seqZ. lia.
Qed.

Lemma price_negative_throws d :
  Z.rem d Prices.kPriceScale <= -1000 -> Prices.price_to_string d = Throw "length_error".
Proof.
  intros Hd. unfold Prices.price_to_string, Prices.to_string. cbv zeta.
  set (r := Z.rem d Prices.kPriceScale) in *.
  assert (-10000 < r) as Hr.
  { pose proof (Z.rem_bound_abs d Prices.kPriceScale ltac:(done)) as H. fold r in H. change (Z.abs Prices.kPriceScale) with 10000 in H. lia. }
  destruct (Z.ltb_spec r 0); [|lia].
  assert (4 <? lengthZ (45 :: Soup.to_string (- r)) = true) as ->; [|done].
  apply Z.ltb_lt. pose proof (four_digits (- r) ltac:(lia)) as H4. unfold lengthZ in *. cbn [length]. lia.
Qed.

(** What a viewer hears that misses the third datagram of the session above,
    and when. *)
Definition lossy_turns (sent : list bytes) : list Turn :=
  zip_with (fun d now => mkTurn false (Some d) now) (take 2 sent ++ take 1 (drop 3 sent))
    [200000000; 400000000; 600000000].

End View.
