(* ===== verification/OrderFlow.v ===== *)
(** Order flow that is never refused: orders with new tokens, a positive price
    and size, and cancels. The order generators of [apps] produce such flow; the
    engine accepts every order of it, whoever else is trading. *)

From S2P Require Import Prelude StdMap Endian BookTypes Wire Symbols Ouch EngineBook Engine EngineInv EngineRuns EngineClaims Soup Gateway Prices Text.
From Stdlib Require Import Ascii.

Module OrderFlow.
Import Engine.

(** Nothing but its token can make the engine refuse it. *)
Definition plain (m : CommandMsg) : Prop :=
  match m with
  | CEnter m => refusal false m = None
  | CCancel _ => True
  | CReplace _ => False
  end.

(** The token of an order entry, as the engine keys it. *)
Definition entered (m : CommandMsg) : option bytes :=
  match m with CEnter m => Some (token_str (Ouch.eo_token m)) | _ => None end.

(** The token of a cancel. *)
Definition withdrawn (m : CommandMsg) : option bytes :=
  match m with CCancel m => Some (token_str (Ouch.co_token m)) | _ => None end.

(** The messages of one client among the commands of all. *)
Definition messages_of (c : Z) (cmds : list (Z * Command)) : list CommandMsg :=
  omap (fun x => if decide (cmd_client_id x.2 = c) then Some (cmd_msg x.2) else None) cmds.

(** The responses to one client that acknowledge or refuse an order. *)
Inductive Answer := Acknowledged (token : bytes) | Refused.

Definition answer (c : Z) (r : ClientResponse) : option Answer :=
  if decide (rsp_client_id r = c) then
    match rsp_msg r with
    | RRejected _ => Some Refused
    | _ => (fun a => Acknowledged a.1.2) <$> acknowledges r
    end
  else None.

Definition answers (c : Z) (rs : list ClientResponse) : list Answer := omap (answer c) rs.

Lemma answers_app c rs rs' : answers c (rs ++ rs') = answers c rs ++ answers c rs'.
Proof. apply omap_app. Qed.

Lemma answers_fills c rs : Forall fill_or_cancel rs -> answers c rs = [].
Proof.
  induction 1 as [|[c' m] rs Hr _ IH]; [done|]. unfold answers in *. cbn. unfold answer. cbn.
  destruct (decide (c' = c)); [|done]. by destruct m.
Qed.

Section Engine.
Context {B : Type} `{EngineBook B}.
Implicit Types (e : Engine B).

(** A command of the client itself. *)
Lemma process_own now c m e e' :
  process now (mkCommand c m) e = Some e' -> plain m ->
  (forall t, entered m = Some t -> (c, t) ∉ used_tokens_ e) ->
  exists rs, to_gateway_ e' = to_gateway_ e ++ rs /\
    answers c rs = Acknowledged <$> option_list (entered m) /\
    forall t, (c, t) ∈ used_tokens_ e' -> (c, t) ∈ used_tokens_ e \/ entered m = Some t.
Proof.
  unfold process. cbn [cmd_client_id cmd_msg]. destruct m as [m|m|m]; cbn [handle plain entered]; intros Hp Hpl Hfresh; [| |done].
  - apply handle_enter_responses in Hp.
    assert (token_used c (Ouch.eo_token m) (set_now now e) = false) as Hu
      by (apply bool_decide_eq_false; by apply Hfresh).
    rewrite Hu, Hpl in Hp. destruct Hp as (rs & Hg & Hf & Hus & _).
    eexists. split; [exact Hg|]. split; [|intros t; rewrite Hus; set_solver].
    change (answers c (?r :: rs)) with (answers c ([r] ++ rs)). rewrite answers_app, (answers_fills c rs) by done.
    unfold answers, answer. cbn. by rewrite decide_True.
  - apply handle_cancel_quiet in Hp as [(rs & Hg & Hf) Hus _]. exists rs. split; [exact Hg|].
    split; [by rewrite answers_fills|]. intros t. rewrite Hus. by left.
Qed.

(** A command of somebody else. *)
Lemma process_other now c c' m e e' :
  process now (mkCommand c' m) e = Some e' -> c' <> c ->
  exists rs, to_gateway_ e' = to_gateway_ e ++ rs /\ answers c rs = [] /\
    forall t, (c, t) ∈ used_tokens_ e' -> (c, t) ∈ used_tokens_ e.
Proof.
  intros Hp Hc. unfold process in Hp. cbn [cmd_client_id cmd_msg] in Hp.
  assert (forall r rs, rsp_client_id r = c' -> Forall fill_or_cancel rs -> answers c (r :: rs) = []) as Ha.
  { intros r rs Hr Hf. change (r :: rs) with ([r] ++ rs). rewrite answers_app, (answers_fills c rs) by done.
    unfold answers, answer. cbn. rewrite decide_False by congruence. done. }
  destruct m as [m|m|m]; cbn [handle] in Hp.
  - apply handle_enter_responses in Hp. destruct (refusal _ m) as [reason|].
    + subst e'. eexists [_]. split; [reflexivity|]. split; [by apply Ha|]. done.
    + destruct Hp as (rs & Hg & Hf & Hus & _). eexists. split; [exact Hg|]. split; [by apply Ha|].
      intros t. rewrite Hus. cbn [used_tokens_ set_now]. set_solver.
  - apply handle_cancel_quiet in Hp as [(rs & Hg & Hf) Hus _]. exists rs. split; [exact Hg|].
    split; [by rewrite answers_fills|]. intros t. by rewrite Hus.
  - apply handle_replace_responses in Hp as [->|(old & info & rs & _ & _ & _ & Hg & Hf & Hus & _)].
    + exists []. split; [by rewrite app_nil_r|]. done.
    + eexists. split; [exact Hg|]. split; [by apply Ha|].
      intros t. rewrite Hus. cbn [used_tokens_ set_now]. set_solver.
Qed.

(** Every order of the client is acknowledged, in the order it sent them, and
    none is refused, whatever the other clients do. *)
Lemma flow_accepted c cmds : forall e e',
  process_all cmds e = Some e' -> Forall plain (messages_of c cmds) ->
  NoDup (omap entered (messages_of c cmds)) ->
  (forall t, t ∈ omap entered (messages_of c cmds) -> (c, t) ∉ used_tokens_ e) ->
  exists rs, to_gateway_ e' = to_gateway_ e ++ rs /\
    answers c rs = Acknowledged <$> omap entered (messages_of c cmds).
Proof.
  induction cmds as [|[now [c' m]] cmds IH]; intros e e'; cbn [process_all].
  { intros [= <-] _ _ _. exists []. by rewrite app_nil_r. }
  intros (e1 & Hp & Hr)%bind_Some.
  change (messages_of c ((now, mkCommand c' m) :: cmds)) with
    (match (if decide (c' = c) then Some m else None) with Some m => m :: messages_of c cmds | None => messages_of c cmds end).
  destruct (decide (c' = c)) as [->|Hne].
  - intros Hpl Hnd Hfresh. apply Forall_cons in Hpl as [Hpl0 Hpl].
    assert (omap entered (m :: messages_of c cmds) = option_list (entered m) ++ omap entered (messages_of c cmds)) as Eo
      by (cbn; by destruct (entered m)).
    rewrite Eo in *. apply NoDup_app in Hnd as (_ & Hd & Hnd).
    destruct (process_own now c m e e1 Hp Hpl0) as (rs1 & Hg1 & Ha1 & Hu1).
    { intros t Ht. apply Hfresh. rewrite Ht. set_solver. }
    destruct (IH e1 e' Hr Hpl Hnd) as (rs2 & Hg2 & Ha2).
    { intros t Ht Hin. apply Hu1 in Hin as [Hin|Hin]; [apply (Hfresh t); [set_solver|done]|].
      apply (Hd t); [rewrite Hin; set_solver|done]. }
    exists (rs1 ++ rs2). split; [by rewrite Hg2, Hg1, app_assoc|]. by rewrite answers_app, Ha1, Ha2, fmap_app.
  - intros Hpl Hnd Hfresh. destruct (process_other now c c' m e e1 Hp Hne) as (rs1 & Hg1 & Ha1 & Hu1).
    destruct (IH e1 e' Hr Hpl Hnd) as (rs2 & Hg2 & Ha2); [intros t Ht Hin; by apply (Hfresh t Ht), Hu1|].
    exists (rs1 ++ rs2). split; [by rewrite Hg2, Hg1, app_assoc|]. by rewrite answers_app, Ha1, Ha2.
Qed.
End Engine.

(** ** Numbered tokens *)

(** [prefix + std::to_string(n)]. *)
Definition numbered (prefix n : Z) : bytes := prefix :: Prices.to_string n.

Lemma numbered_view prefix n :
  0 <= n < 2 ^ 31 -> token_str (make_token (numbered prefix n)) = numbered prefix n.
Proof.
  intros Hn. unfold numbered, Prices.to_string. destruct (Z.ltb_spec n 0); [lia|].
  apply (padded_view 14).
  - cbn [length]. pose proof (Text.unsigned_length n ltac:(lia)). unfold Text.unsigned in *. lia.
  - destruct (Soup.to_string_spec n) as (_ & Hd & _); [unfold fits; lia|].
    pose proof (Text.digits_some 19 n) as Hne. fold (Soup.to_string n) in Hne.
    destruct (Soup.to_string n) as [|d ds] eqn:E; [done|]. rewrite last_cons_cons. by apply Soup.digits_ends.
Qed.

Lemma numbered_inj prefix prefix' n m :
  0 <= n < 2 ^ 31 -> 0 <= m < 2 ^ 31 ->
  token_str (make_token (numbered prefix n)) = token_str (make_token (numbered prefix' m)) ->
  prefix = prefix' /\ n = m.
Proof.
  intros Hn Hm. rewrite !numbered_view by done. unfold numbered, Prices.to_string.
  destruct (Z.ltb_spec n 0); [lia|]. destruct (Z.ltb_spec m 0); [lia|]. intros [= <- E].
  split; [done|]. apply Text.unsigned_inj; [unfold fits; lia|unfold fits; lia|exact E].
Qed.

Lemma numbered_bytes prefix n : is_byte prefix -> 0 <= n < 2 ^ 31 -> Forall is_byte (numbered prefix n).
Proof.
  intros Hp Hn. unfold numbered, Prices.to_string. destruct (Z.ltb_spec n 0); [lia|]. constructor; [done|].
  apply Text.unsigned_bytes. unfold fits. lia.
Qed.

Lemma NoDup_numbered prefix n count :
  1 <= n -> n + count <= 2 ^ 31 -> NoDup (map (numbered prefix) (seqZ n count)).
Proof.
  intros Hn Hc. apply NoDup_ListNoDup. apply List.NoDup_map_NoDup_ForallPairs.
  - intros x y Hx%list_elem_of_In%elem_of_seqZ Hy%list_elem_of_In%elem_of_seqZ E.
    apply (numbered_inj prefix prefix x y); [lia|lia|by rewrite E].
  - apply NoDup_ListNoDup, NoDup_seqZ.
Qed.
End OrderFlow.
