(* ===== verification/FlowGen.v ===== *)
(** The random order-flow generator ([apps/flowgen.cpp]): it logs in and sends a
    random sequence of orders and cancels.

    The random numbers are arguments, in the ranges of the distributions they
    are drawn from; what the socket takes and returns is an argument too. *)

From S2P Require Import Prelude StdMap Endian BookTypes Wire Symbols Ouch EngineBook Engine EngineInv EngineRuns EngineFeed EngineClaims Soup SoupSession Gateway GatewaySession GatewayInv GatewayRuns Client ClientPaths Prices Text OrderFlow.
From Stdlib Require Import Ascii.

Module FlowGen.
Import Engine Soup GatewaySession GatewayRuns ClientPaths Text OrderFlow.

(** ** Logging in *)

(** [while (auto p = parser.next()) if (p->type == kLoginAccepted) logged_in = true]. *)
Definition saw_login (ks : list Packet) : bool := existsb (fun k => type k =? kLoginAccepted) ks.

(** The receive loop before the flow; nothing when the connection ends first. *)
Fixpoint await_login (recvs : list bytes) (p : FrameParser) : outcome (option FrameParser) :=
  match recvs with
  | [] => Ok None
  | data :: recvs =>
      '(ks, p) ← receive data p;
      if saw_login ks then Ok (Some p) else await_login recvs p
  end.

(** ** The flow *)

Record Draw := mkDraw { d_pct : Z; d_word : Z; d_qty : Z; d_tick : Z }.

Definition draw_ok (d : Draw) : Prop :=
  0 <= d_pct d <= 99 /\ fits 64 (d_word d) /\ 1 <= d_qty d <= 500 /\ -25 <= d_tick d <= 25.

Record Flow := mkFlow {
  live : list bytes;
  next_token : Z;
  sent : bytes;
  parser : FrameParser;
  accepted : Z;
  executed_shares : Z;
  canceled : Z }.

Definition start_flow (out : bytes) (p : FrameParser) : Flow := mkFlow [] 1 out p 0 0 0.

(** [++accepted], [executed_shares += n] and [++canceled]. *)
Definition count_up (da de dc : Z) (f : Flow) : Flow :=
  mkFlow (live f) (next_token f) (sent f) (parser f)
    (u64 (accepted f + da)) (u64 (executed_shares f + de)) (u64 (canceled f + dc)).

Definition count_payload (data : bytes) (f : Flow) : outcome Flow :=
  tag ← peek data 0;
  if tag =? chr "A" then Ok (count_up 1 0 0 f)
  else if tag =? chr "E" then
    m ← Ouch.decode_executed data;
    Ok (match m with Some m => count_up 0 (Ouch.xc_executed_shares m) 0 f | None => f end)
  else if tag =? chr "C" then Ok (count_up 0 0 1 f)
  else Ok f.

Fixpoint count_packets (ks : list Packet) (f : Flow) : outcome Flow :=
  match ks with
  | [] => Ok f
  | k :: ks =>
      f ← (if (type k =? kSequenced) && negb (length (payload k) =? 0)%nat then count_payload (payload k) f else Ok f);
      count_packets ks f
  end.

(** [recvs]: what [recv] returns until it would block. *)
Definition pump (recvs : list bytes) (f : Flow) : outcome Flow :=
  let p := fold_left (fun p d => push d p) recvs (parser f) in
  '(ks, p) ← drain (S (length (pending p))) p;
  count_packets ks (mkFlow (live f) (next_token f) (sent f) p (accepted f) (executed_shares f) (canceled f)).

Definition flow_order (symbol : bytes) (d : Draw) (token : bytes) : Ouch.EnterOrder :=
  Ouch.mkEnterOrder (make_token token) (if Z.odd (d_word d) then Buy else Sell) (d_qty d) (make_symbol symbol)
    (Prices.make_price 100 0 + d_tick d * Prices.make_price 0 100) 99999
    [chr "F"; chr "L"; chr "O"; chr "W"] (chr "Y") (chr "A") (chr "N") 0 (chr "N") (chr "R").

(** The next message: the packet, the tokens that may still be canceled, and the
    next token. *)
Definition compose (symbol : bytes) (d : Draw) (f : Flow) : outcome (bytes * list bytes * Z) :=
  if negb (length (live f) =? 0)%nat && (d_pct d <? 20) then
    let k := Z.to_nat (d_word d mod lengthZ (live f)) in
    token ← deref (live f !! k);
    msg ← Ouch.encode_CancelOrder (Ouch.mkCancelOrder (make_token token) 0) (replicate Ouch.kCancelOrderSize 0);
    out ← append_packet [] kUnsequenced msg;
    Ok (out, delete k (live f), next_token f)
  else
    if 2 ^ 31 <=? next_token f + 1 then Undefined else
    let token := numbered (chr "F") (next_token f) in
    msg ← Ouch.encode_EnterOrder (flow_order symbol d token) (replicate Ouch.kEnterOrderSize 0);
    out ← append_packet [] kUnsequenced msg;
    Ok (out, live f ++ [token], next_token f + 1).

(** One round: compose, send ([taken] bytes of it), pump. *)
Definition round (symbol : bytes) (d : Draw) (taken : nat) (recvs : list bytes) (f : Flow) : outcome Flow :=
  '(out, live, next_token) ← compose symbol d f;
  pump recvs (mkFlow live next_token (sent f ++ take taken out) (parser f) (accepted f) (executed_shares f)
                (canceled f)).

Fixpoint rounds (symbol : bytes) (ds : list (Draw * nat * list bytes)) (f : Flow) : outcome Flow :=
  match ds with
  | [] => Ok f
  | (d, taken, recvs) :: ds => f ← round symbol d taken recvs f; rounds symbol ds f
  end.

(** The last responses and the logout. *)
Fixpoint pump_all (recvs : list (list bytes)) (f : Flow) : outcome Flow :=
  match recvs with
  | [] => Ok f
  | r :: recvs => f ← pump r f; pump_all recvs f
  end.

Definition finish (recvs : list (list bytes)) (taken : nat) (f : Flow) : outcome Flow :=
  f ← pump_all recvs f;
  out ← append_packet [] kLogoutRequest [];
  Ok (mkFlow (live f) (next_token f) (sent f ++ take taken out) (parser f) (accepted f) (executed_shares f)
        (canceled f)).

Definition summary (f : Flow) : bytes :=
  str "flowgen: done. accepted=" ++ unsigned (accepted f) ++ str " executed_shares=" ++
  unsigned (executed_shares f) ++ str " canceled=" ++ unsigned (canceled f) ++ newline.

(** The program after [connect(2)]: the login, the flow, the end. *)
Definition run (symbol : bytes) (login_taken : nat) (login_recvs : list bytes)
    (ds : list (Draw * nat * list bytes)) (last_recvs : list (list bytes)) (taken : nat)
    : outcome (option Flow) :=
  out ← append_login_request [] (str "FLOW") (str "SIM") [] 1;
  p ← await_login login_recvs new_parser;
  match p with
  | None => Ok None
  | Some p =>
      f ← rounds symbol ds (start_flow (take login_taken out) p);
      f ← finish last_recvs taken f;
      Ok (Some f)
  end.

(** The command line. *)
Record Options := mkOptions { o_host : bytes; o_port : Z; o_symbol : bytes; o_total : Z; o_seed : Z }.

Definition options (argv : list bytes) : outcome Options :=
  port ← atoi (CommandLine.arg_value argv (str "--port") (str "26400"));
  total ← atoi (CommandLine.arg_value argv (str "--orders") (str "2000"));
  seed ← atoll (CommandLine.arg_value argv (str "--seed") (str "1"));
  Ok (mkOptions (CommandLine.arg_value argv (str "--host") (str "127.0.0.1")) (u16 port)
        (CommandLine.arg_value argv (str "--symbol") (str "AAPL")) total (u64 seed)).

Definition greeting (o : Options) : bytes :=
  str "flowgen: logged in, sending " ++ signed (o_total o) ++ str " orders on " ++ o_symbol o ++ newline.

(** What the surroundings do: whether [connect] fails and why, what the sockets
    take and return, and the numbers [draws seed] the generator gives, one
    round after the other. *)
Record World := mkWorld {
  w_connect : option bytes;
  w_login_taken : nat;
  w_login_recvs : list bytes;
  w_draws : Z -> list (Draw * nat * list bytes);
  w_last_recvs : list (list bytes);
  w_taken : nat }.

(** [main]: the output, the errors and the status. *)
Definition main (argv : list bytes) (w : World) : outcome (bytes * bytes * Z) :=
  o ← options argv;
  match w_connect w with
  | Some e => Ok ([], str "flowgen: connect failed: " ++ e ++ newline, 1)
  | None =>
      r ← run (o_symbol o) (w_login_taken w) (w_login_recvs w) (take (Z.to_nat (o_total o)) (w_draws w (o_seed o)))
            (w_last_recvs w) (w_taken w);
      match r with
      | None => Ok ([], [], 1)
      | Some f => Ok (greeting o ++ summary f, [], 0)
      end
  end.

(** ** Responses *)

(** What a packet adds to the three counters. *)
Record Tally := mkTally { t_accepted : Z; t_executed : Z; t_canceled : Z }.

Definition add_tally (x y : Tally) : Tally :=
  mkTally (t_accepted x + t_accepted y) (t_executed x + t_executed y) (t_canceled x + t_canceled y).

Definition packet_tally (k : Packet) : Tally :=
  if type k =? kSequenced then
    match payload k with
    | [] => mkTally 0 0 0
    | tag :: _ =>
        if tag =? chr "A" then mkTally 1 0 0
        else if tag =? chr "E" then
          match Ouch.decode_executed (payload k) with
          | Ok (Some m) => mkTally 0 (Ouch.xc_executed_shares m) 0
          | _ => mkTally 0 0 0
          end
        else if tag =? chr "C" then mkTally 0 0 1
        else mkTally 0 0 0
    end
  else mkTally 0 0 0.

Definition packets_tally (ks : list Packet) : Tally := foldr (fun k t => add_tally (packet_tally k) t) (mkTally 0 0 0) ks.

(** The same of a response. *)
Definition response_tally (m : ResponseMsg) : Tally :=
  match m with
  | RAccepted _ => mkTally 1 0 0
  | RExecuted m => mkTally 0 (Ouch.xc_executed_shares m) 0
  | RCanceled _ => mkTally 0 0 1
  | _ => mkTally 0 0 0
  end.

Definition responses_tally (ms : list ResponseMsg) : Tally :=
  foldr (fun m t => add_tally (response_tally m) t) (mkTally 0 0 0) ms.

Definition counted (t : Tally) (f : Flow) : Flow := count_up (t_accepted t) (t_executed t) (t_canceled t) f.
Definition in_range (f : Flow) : Prop := fits 64 (accepted f) /\ fits 64 (executed_shares f) /\ fits 64 (canceled f).

Lemma counted_zero f : in_range f -> counted (mkTally 0 0 0) f = f.
Proof.
  intros (H1 & H2 & H3). unfold counted, count_up. cbn. rewrite !Z.add_0_r, !wrap_small by done. by destruct f.
Qed.

Lemma counted_in_range t f : in_range (counted t f).
Proof. unfold in_range, counted, count_up. cbn. by split_and!; apply wrap_fits. Qed.

Lemma counted_add x y f : counted y (counted x f) = counted (add_tally x y) f.
Proof.
  unfold counted, count_up, add_tally. cbn [accepted executed_shares canceled live next_token sent parser
    t_accepted t_executed t_canceled]. by rewrite !wrap_add_l, <- !Z.add_assoc.
Qed.

Lemma count_one k f :
  packet_ok k -> in_range f ->
  (if (type k =? kSequenced) && negb (length (payload k) =? 0)%nat then count_payload (payload k) f else Ok f)
    = Ok (counted (packet_tally k) f).
Proof.
  intros (_ & Hb & _) Hf. unfold packet_tally. destruct (type k =? kSequenced); [|by rewrite counted_zero].
  destruct (payload k) as [|tag data]; [by rewrite counted_zero|]. cbn [andb negb length Nat.eqb].
  unfold count_payload, peek. cbn [lookup list_lookup deref]. rewrite outcome_bind_Ok.
  destruct (tag =? chr "A"); [done|]. destruct (tag =? chr "E").
  - destruct (cc_accepts _ (implements_correct _ Ouch.Executed_implements) (tag :: data) Hb) as [(m & Hd & _)|[Hd _]];
      cbn [c_decode Ouch.Executed_codec] in Hd; rewrite Hd, outcome_bind_Ok; [done|by rewrite counted_zero].
  - destruct (tag =? chr "C"); [done|by rewrite counted_zero].
Qed.

Lemma count_packets_ok ks : forall f,
  Forall packet_ok ks -> in_range f -> count_packets ks f = Ok (counted (packets_tally ks) f).
Proof.
  induction ks as [|k ks IH]; intros f Hk Hf; cbn [count_packets packets_tally foldr]; [by rewrite counted_zero|].
  apply Forall_cons in Hk as [Hk Hks]. rewrite count_one, outcome_bind_Ok by done.
  rewrite IH by (done || apply counted_in_range). by rewrite counted_add.
Qed.

Lemma response_packet_tally m : response_ok m -> packet_tally (response_packet m) = response_tally m.
Proof.
  intros Hm. destruct m as [m|m|m|m|m|m]; try done. unfold packet_tally. cbn [type response_packet payload].
  pose proof (cc_decode _ (implements_correct _ Ouch.Executed_implements) m Hm) as Hd.
  cbn [c_decode Ouch.Executed_codec] in Hd. cbn [response_wire]. rewrite Hd. done.
Qed.

Lemma responses_packets_tally ms :
  Forall response_ok ms -> packets_tally (map response_packet ms) = responses_tally ms.
Proof.
  induction 1 as [|m ms Hm _ IH]; [done|]. cbn [map packets_tally responses_tally foldr].
  rewrite response_packet_tally by done. f_equal. exact IH.
Qed.

Lemma packets_tally_app ks ks' : packets_tally (ks ++ ks') = add_tally (packets_tally ks) (packets_tally ks').
Proof.
  induction ks as [|k ks IH].
  - change (packets_tally []) with (mkTally 0 0 0). cbn [app]. by destruct (packets_tally ks').
  - change (packets_tally (?k :: ?l)) with (add_tally (packet_tally k) (packets_tally l)). cbn [app].
    change (packets_tally (?k :: ?l)) with (add_tally (packet_tally k) (packets_tally l)). rewrite IH.
    unfold add_tally. cbn [t_accepted t_executed t_canceled]. f_equal; lia.
Qed.

Definition with_parser (p : FrameParser) (f : Flow) : Flow :=
  mkFlow (live f) (next_token f) (sent f) p (accepted f) (executed_shares f) (canceled f).

(** Pumping counts the whole packets that have arrived. *)
Lemma pump_spec recvs f :
  parser_ok (parser f) -> Forall (Forall is_byte) recvs -> in_range f ->
  exists ks p, pump recvs f = Ok (counted (packets_tally ks) (with_parser p f)) /\ Forall packet_ok ks /\
    parser_ok p /\ pending (parser f) ++ concat recvs = wires ks ++ pending p /\ incomplete (pending p).
Proof.
  intros Hp Hb Hf. destruct (push_all_ok recvs (parser f) Hp Hb) as [Hp1 E1]. unfold pump.
  set (p1 := fold_left _ recvs (parser f)) in *.
  destruct (drain_spec (S (length (pending p1))) p1 Hp1 ltac:(lia)) as (ks & p & -> & Hks & Hp2 & E2 & Hi).
  rewrite outcome_bind_Ok. exists ks, p.
  pose proof (count_packets_ok ks (with_parser p f) Hks Hf) as Hc. unfold with_parser in Hc.
  split_and!; [exact Hc|done|done|by rewrite <- E1, E2|done].
Qed.

(** ** The messages *)

(** What a round sends, and the tokens left and the next number afterwards. *)
Definition choose (symbol : bytes) (d : Draw) (live : list bytes) (next : Z) : CommandMsg * list bytes * Z :=
  let k := Z.to_nat (d_word d mod lengthZ live) in
  match (if d_pct d <? 20 then live !! k else None) with
  | Some token => (CCancel (Ouch.mkCancelOrder (make_token token) 0), delete k live, next)
  | None =>
      let token := numbered (chr "F") next in
      (CEnter (flow_order symbol d token), live ++ [token], next + 1)
  end.

Fixpoint plan (symbol : bytes) (ds : list Draw) (live : list bytes) (next : Z) : list CommandMsg :=
  match ds with
  | [] => []
  | d :: ds =>
      let '(m, live, next) := choose symbol d live next in m :: plan symbol ds live next
  end.

Definition message_packet (m : CommandMsg) : Packet := mkPacket kUnsequenced (msg_wire m).

(** The tokens in use are those of earlier orders. *)
Definition issued (next : Z) (t : bytes) : Prop := exists n, 1 <= n < next /\ t = numbered (chr "F") n.

Lemma issued_mono next next' t : next <= next' -> issued next t -> issued next' t.
Proof. intros Hn (n & Hr & ->). exists n. split; [lia|done]. Qed.

Lemma flow_order_ok symbol d n :
  Forall is_byte symbol -> draw_ok d -> 1 <= n < 2 ^ 31 ->
  carries (msg_wire (CEnter (flow_order symbol d (numbered (chr "F") n))))
    (CEnter (flow_order symbol d (numbered (chr "F") n))) /\
  over_cap (CEnter (flow_order symbol d (numbered (chr "F") n))) = None /\
  plain (CEnter (flow_order symbol d (numbered (chr "F") n))).
Proof.
  intros Hsym (_ & _ & Hq & Ht) Hn.
  pose proof (numbered_bytes (chr "F") n ltac:(by vm_compute) ltac:(lia)) as Hb.
  destruct (make_token_ok _ Hb), (make_symbol_ok symbol Hsym).
  assert (Prices.make_price 100 0 + d_tick d * Prices.make_price 0 100 = 1000000 + d_tick d * 100) as Ep
    by (unfold Prices.make_price, Prices.kPriceScale; lia).
  unfold flow_order. rewrite Ep. split; [|split].
  - apply carries_enter. unfold Ouch.EnterOrder_body. fmt_simpl.
    cbn [Ouch.eo_token Ouch.eo_side Ouch.eo_shares Ouch.eo_stock Ouch.eo_price Ouch.eo_tif Ouch.eo_firm
      Ouch.eo_display Ouch.eo_capacity Ouch.eo_intermarket_sweep Ouch.eo_min_qty Ouch.eo_cross_type Ouch.eo_customer_type].
    split_and!; try done; try (unfold fits; lia); [by destruct (Z.odd _)|concrete_bytes].
  - cbn [over_cap Ouch.eo_shares Ouch.eo_price Ouch.eo_token].
    destruct (Z.ltb_spec Gateway.kMaxOrderShares (d_qty d)) as [H'|]; [unfold Gateway.kMaxOrderShares in H'; lia|].
    destruct (Z.ltb_spec Gateway.kMaxOrderPrice (1000000 + d_tick d * 100)) as [H'|]; [unfold Gateway.kMaxOrderPrice in H'; lia|].
    by rewrite andb_false_r.
  - cbn [plain]. unfold refusal. cbn [Ouch.eo_price Ouch.eo_shares Ouch.eo_side].
    destruct (Z.leb_spec (1000000 + d_tick d * 100) 0); [lia|]. rewrite andb_false_r.
    destruct (Z.eqb_spec (d_qty d) 0); [lia|]. by destruct (Z.odd _).
Qed.

Lemma cancel_message_ok t next :
  issued next t -> next <= 2 ^ 31 ->
  carries (msg_wire (CCancel (Ouch.mkCancelOrder (make_token t) 0))) (CCancel (Ouch.mkCancelOrder (make_token t) 0)).
Proof.
  intros (n & Hn & ->) Hb. pose proof (numbered_bytes (chr "F") n ltac:(by vm_compute) ltac:(lia)) as Hby.
  destruct (make_token_ok _ Hby). apply carries_cancel. unfold Ouch.CancelOrder_body. fmt_simpl.
  cbn [Ouch.co_token Ouch.co_shares]. by split_and!.
Qed.

(** A message the gateway passes on and the engine has no reason to refuse. *)
Definition good (m : CommandMsg) : Prop := carries (msg_wire m) m /\ over_cap m = None /\ plain m.

(** What is true of a choice. *)
Record chosen (live : list bytes) (next : Z) (m : CommandMsg) (live' : list bytes) (next' : Z) : Prop := {
  ch_good : good m;
  ch_issued : Forall (issued next') live';
  ch_next : next <= next' <= next + 1;
  ch_entered : option_list (entered m) = map (numbered (chr "F")) (seqZ next (next' - next));
  ch_tokens : live ++ option_list (entered m) ≡ₚ live' ++ option_list (withdrawn m) }.

Lemma choose_spec symbol d live next :
  Forall is_byte symbol -> draw_ok d -> 1 <= next -> next + 1 < 2 ^ 31 -> Forall (issued next) live ->
  exists m live' next', choose symbol d live next = (m, live', next') /\ chosen live next m live' next' /\
    forall f, FlowGen.live f = live -> next_token f = next ->
      compose symbol d f = Ok (wire (message_packet m), live', next').
Proof.
  intros Hsym Hd H1 Hb Hl. unfold choose.
  assert (forall m, good m -> append_packet [] kUnsequenced (msg_wire m) = Ok (wire (message_packet m))) as Happ.
  { intros m (Hc & _). destruct (carries_bytes _ _ Hc) as [Hby Hlen].
    apply (append_packet_spec [] (message_packet m)). split_and!; [by vm_compute|done|].
    unfold lengthZ. cbn [payload message_packet]. lia. }
  destruct (if d_pct d <? 20 then live !! _ else None) as [t|] eqn:E.
  - destruct (Z.ltb_spec (d_pct d) 20) as [Hpct|]; [|done].
    assert (issued next t) as Ht by (rewrite Forall_forall in Hl; by eapply Hl, list_elem_of_lookup_2).
    assert (good (CCancel (Ouch.mkCancelOrder (make_token t) 0))) as Hg
      by (split; [eapply cancel_message_ok; [done|lia]|done]).
    assert (token_str (make_token t) = t) as Hts
      by (destruct Ht as (n & Hn & ->); apply numbered_view; lia).
    eexists _, _, _. split; [reflexivity|]. split.
    + split; [done|by apply Forall_delete|lia|by rewrite Z.sub_diag|].
      cbn [entered withdrawn option_list Ouch.co_token]. rewrite Hts, app_nil_r.
      rewrite Permutation_app_comm. by apply delete_Permutation.
    + intros f <- <-. unfold compose.
      assert (length (FlowGen.live f) =? 0 = false)%nat as -> by (destruct (FlowGen.live f); done).
      cbn [negb andb]. rewrite (proj2 (Z.ltb_lt _ _) Hpct), E. cbn [deref]. rewrite outcome_bind_Ok.
      pose proof (carries_command 0 _ _ (proj1 Hg)) as Hm.
      destruct (codec_encodes Ouch.CancelOrder_codec _ Ouch.kCancelOrderSize Ouch.CancelOrder_implements Hm eq_refl) as [He _].
      cbn [c_encode Ouch.CancelOrder_codec] in He. rewrite He, outcome_bind_Ok.
      pose proof (Happ _ Hg) as Ha. cbn [msg_wire] in Ha. by rewrite Ha.
  - destruct (flow_order_ok symbol d next Hsym Hd ltac:(lia)) as (Hc & Ho & Hp).
    eexists _, _, _. split; [reflexivity|]. split.
    + split; [by split_and!| |lia| |].
      * apply Forall_app. split; [eapply Forall_impl; [exact Hl|]; intros t; apply issued_mono; lia|].
        constructor; [|constructor]. exists next. split; [lia|done].
      * replace (next + 1 - next) with 1 by lia. cbn [entered option_list flow_order Ouch.eo_token].
        rewrite numbered_view by lia. rewrite seqZ_cons by lia. done.
      * cbn [entered withdrawn option_list flow_order Ouch.eo_token]. rewrite numbered_view, app_nil_r by lia. done.
    + intros f <- <-. unfold compose.
      assert (negb (length (FlowGen.live f) =? 0)%nat && (d_pct d <? 20) = false) as ->.
      { destruct (d_pct d <? 20); [|by rewrite andb_false_r]. apply lookup_ge_None_1 in E.
        destruct (FlowGen.live f) as [|t l] eqn:El; [done|]. exfalso.
        pose proof (Z.mod_pos_bound (d_word d) (lengthZ (t :: l)) ltac:(unfold lengthZ; cbn; lia)).
        unfold lengthZ in *. lia. }
      destruct (Z.leb_spec (2 ^ 31) (next_token f + 1)); [lia|]. cbv zeta.
      pose proof (carries_command 0 _ _ Hc) as Hm.
      destruct (codec_encodes Ouch.EnterOrder_codec _ Ouch.kEnterOrderSize Ouch.EnterOrder_implements Hm eq_refl) as [He _].
      cbn [c_encode Ouch.EnterOrder_codec] in He. rewrite He, outcome_bind_Ok.
      pose proof (Happ _ (conj Hc (conj Ho Hp))) as Ha. cbn [msg_wire] in Ha. by rewrite Ha.
Qed.

(** ** Runs *)

(** From [f] to [f'] the messages [msgs] were sent, the bytes [data] received and
    the packets [ks] among them counted. *)
Record flowed (f : Flow) (msgs : list CommandMsg) (data : bytes) (ks : list Packet) (f' : Flow) : Prop := {
  fl_sent : sent f' = sent f ++ wires (map message_packet msgs);
  fl_good : Forall good msgs;
  fl_next : next_token f <= next_token f' <= next_token f + lengthZ msgs;
  fl_entered : omap entered msgs = map (numbered (chr "F")) (seqZ (next_token f) (next_token f' - next_token f));
  fl_tokens : live f ++ omap entered msgs ≡ₚ live f' ++ omap withdrawn msgs;
  fl_earlier : forall k, omap withdrawn (take k msgs) ⊆+ live f ++ omap entered (take k msgs);
  fl_packets : Forall packet_ok ks;
  fl_counts : accepted f' = accepted (counted (packets_tally ks) f) /\
    executed_shares f' = executed_shares (counted (packets_tally ks) f) /\
    canceled f' = canceled (counted (packets_tally ks) f);
  fl_bytes : pending (parser f) ++ data = wires ks ++ pending (parser f') }.

(** A state the generator can be in. *)
Record flow_ok (f : Flow) : Prop := {
  fk_next : 1 <= next_token f;
  fk_live : Forall (issued (next_token f)) (live f);
  fk_parser : parser_ok (parser f) /\ incomplete (pending (parser f));
  fk_range : in_range f }.

Lemma counted_counts t f g :
  accepted f = accepted g -> executed_shares f = executed_shares g -> canceled f = canceled g ->
  accepted (counted t f) = accepted (counted t g) /\ executed_shares (counted t f) = executed_shares (counted t g) /\
  canceled (counted t f) = canceled (counted t g).
Proof. intros H1 H2 H3. unfold counted, count_up. cbn. by rewrite H1, H2, H3. Qed.

Lemma flowed_refl f : in_range f -> flowed f [] [] [] f.
Proof.
  intros Hf. split; try done.
  - by rewrite app_nil_r.
  - change (lengthZ (@nil CommandMsg)) with 0. lia.
  - by rewrite Z.sub_diag.
  - intros k. rewrite take_nil. cbn. apply submseteq_nil_l.
  - change (packets_tally []) with (mkTally 0 0 0). by rewrite counted_zero.
  - by rewrite app_nil_r.
Qed.

Lemma flowed_trans f m1 d1 k1 g m2 d2 k2 h :
  flowed f m1 d1 k1 g -> flowed g m2 d2 k2 h -> flowed f (m1 ++ m2) (d1 ++ d2) (k1 ++ k2) h.
Proof.
  intros [S1 G1 N1 E1 T1 R1 P1 (C1 & C2 & C3) B1] [S2 G2 N2 E2 T2 R2 P2 (D1 & D2 & D3) B2]. split.
  - by rewrite S2, S1, map_app, wires_app, app_assoc.
  - by apply Forall_app.
  - rewrite lengthZ_app. lia.
  - rewrite omap_app, E1, E2. replace (next_token h - next_token f)
      with ((next_token g - next_token f) + (next_token h - next_token g)) by lia.
    rewrite seqZ_app, map_app by lia. do 2 f_equal. f_equal. lia.
  - rewrite !omap_app, app_assoc, T1, <- app_assoc, (Permutation_app_comm (omap withdrawn m1)), app_assoc, T2.
    by rewrite <- app_assoc, (Permutation_app_comm (omap withdrawn m2)).
  - intros k. rewrite take_app, !omap_app, (app_assoc (live f)).
    destruct (decide (k <= length m1)%nat) as [Hk|Hk].
    + replace (k - length m1)%nat with 0%nat by lia. rewrite !take_0. cbn. rewrite !app_nil_r. apply R1.
    + rewrite take_ge by lia. rewrite T1, (Permutation_app_comm (live g)), <- app_assoc.
      apply submseteq_skips_l, R2.
  - by apply Forall_app.
  - rewrite D1, D2, D3, packets_tally_app, <- counted_add.
    destruct (counted_counts (packets_tally k2) g (counted (packets_tally k1) f) C1 C2 C3) as (-> & -> & ->). done.
  - rewrite app_assoc, B1, <- app_assoc, B2, wires_app, app_assoc. done.
Qed.

(** A pump on its own. *)
Lemma pump_flowed recvs f :
  flow_ok f -> Forall (Forall is_byte) recvs ->
  exists f' ks, pump recvs f = Ok f' /\ flow_ok f' /\ next_token f' = next_token f /\
    flowed f [] (concat recvs) ks f'.
Proof.
  intros [Hn Hl [Hp _] Hr] Hb. destruct (pump_spec recvs f Hp Hb Hr) as (ks & p & -> & Hk & Hp' & E & Hi).
  eexists _, ks. split; [reflexivity|]. split; [split; [done|done|done|apply counted_in_range]|]. split; [done|].
  split; try done.
  - by rewrite app_nil_r.
  - change (lengthZ (@nil CommandMsg)) with 0. cbn. lia.
  - cbn. by rewrite Z.sub_diag.
  - intros k. rewrite take_nil. cbn. apply submseteq_nil_l.
Qed.

Lemma round_flowed symbol d taken recvs f :
  flow_ok f -> Forall is_byte symbol -> draw_ok d -> next_token f + 1 < 2 ^ 31 -> (52 <= taken)%nat ->
  Forall (Forall is_byte) recvs ->
  exists f' m ks, round symbol d taken recvs f = Ok f' /\ flow_ok f' /\
    flowed f [m] (concat recvs) ks f'.
Proof.
  intros Hf Hsym Hd Hb Ht Hrb. destruct Hf as [Hn Hl [Hp Hi] Hr].
  destruct (choose_spec symbol d (live f) (next_token f) Hsym Hd Hn Hb Hl) as (m & live' & next' & _ & [Cg Ci Cn Ce Ct] & Hc).
  unfold round. rewrite Hc, outcome_bind_Ok by done.
  assert (length (wire (message_packet m)) <= 52)%nat as Hlen.
  { destruct (carries_bytes _ _ (proj1 Cg)). rewrite length_packet. cbn [payload message_packet]. lia. }
  rewrite take_ge by lia. set (g := mkFlow live' next' _ _ _ _ _).
  destruct (pump_flowed recvs g) as (f' & ks & -> & Hf' & Hnx & Hfl); [by split; [cbn; lia|..]|done|].
  exists f', m, ks. split; [done|]. split; [done|].
  change [m] with ([m] ++ []). change (concat recvs) with ([] ++ concat recvs). change ks with ([] ++ ks).
  apply (flowed_trans f [m] [] [] g [] (concat recvs) ks f'); [|done].
  split; try done.
  - cbn [g sent map]. unfold wires. cbn [map concat]. by rewrite app_nil_r.
  - by constructor.
  - intros [|k]; cbn [take omap list_omap]; [apply submseteq_nil_l|]. rewrite take_nil. cbn [omap list_omap].
    change (match withdrawn m with Some y => [y] | None => [] end) with (option_list (withdrawn m)).
    change (match entered m with Some y => [y] | None => [] end) with (option_list (entered m)).
    rewrite Ct. by apply submseteq_inserts_l.
  - change (packets_tally []) with (mkTally 0 0 0). by rewrite counted_zero.
  - by rewrite app_nil_r.
Qed.

Definition round_ok (x : Draw * nat * list bytes) : Prop :=
  draw_ok x.1.1 /\ (52 <= x.1.2)%nat /\ Forall (Forall is_byte) x.2.

Lemma rounds_flowed symbol ds : forall f,
  flow_ok f -> Forall is_byte symbol -> Forall round_ok ds -> next_token f + lengthZ ds < 2 ^ 31 ->
  exists f' msgs ks, rounds symbol ds f = Ok f' /\ flow_ok f' /\ length msgs = length ds /\
    flowed f msgs (concat (map (fun x => concat x.2) ds)) ks f'.
Proof.
  induction ds as [|[[d taken] recvs] ds IH]; intros f Hf Hsym Hds Hb; cbn [rounds map concat].
  { exists f, [], []. split_and!; try done. apply flowed_refl, Hf. }
  apply Forall_cons in Hds as [(Hd & Ht & Hr) Hds]. cbn [fst snd] in *.
  assert (lengthZ ((d, taken, recvs) :: ds) = lengthZ ds + 1) as El by (unfold lengthZ; cbn [length]; lia).
  pose proof (lengthZ_nonneg ds).
  destruct (round_flowed symbol d taken recvs f Hf Hsym Hd ltac:(lia) Ht Hr) as (f1 & m & k1 & -> & Hf1 & Hfl1).
  rewrite outcome_bind_Ok. pose proof (fl_next _ _ _ _ _ Hfl1) as Hn. unfold lengthZ in Hn at 1. cbn in Hn.
  destruct (IH f1 Hf1 Hsym Hds ltac:(lia)) as (f2 & msgs & k2 & -> & Hf2 & Hlen & Hfl2).
  exists f2, (m :: msgs), (k1 ++ k2). split_and!; [done|done|cbn; by rewrite Hlen|].
  exact (flowed_trans _ _ _ _ _ _ _ _ _ Hfl1 Hfl2).
Qed.

Lemma pump_all_flowed recvs : forall f,
  flow_ok f -> Forall (Forall (Forall is_byte)) recvs ->
  exists f' ks, pump_all recvs f = Ok f' /\ flow_ok f' /\
    flowed f [] (concat (map (fun r => concat r) recvs)) ks f'.
Proof.
  induction recvs as [|r recvs IH]; intros f Hf Hb; cbn [pump_all map concat].
  { exists f, []. split_and!; try done. apply flowed_refl, Hf. }
  apply Forall_cons in Hb as [Hr Hb]. destruct (pump_flowed r f Hf Hr) as (f1 & k1 & -> & Hf1 & _ & Hfl1).
  rewrite outcome_bind_Ok. destruct (IH f1 Hf1 Hb) as (f2 & k2 & -> & Hf2 & Hfl2).
  exists f2, (k1 ++ k2). split_and!; [done|done|]. exact (flowed_trans _ _ _ _ _ _ _ _ _ Hfl1 Hfl2).
Qed.

Lemma await_login_ok recvs : forall p p',
  parser_ok p -> Forall (Forall is_byte) recvs -> await_login recvs p = Ok (Some p') ->
  parser_ok p' /\ incomplete (pending p').
Proof.
  induction recvs as [|d recvs IH]; intros p p' Hp Hb; cbn [await_login]; [done|].
  apply Forall_cons in Hb as [Hd Hb]. destruct (push_ok d p Hp Hd) as [Hp1 _]. unfold receive.
  destruct (drain_spec (S (length (pending (push d p)))) (push d p) Hp1 ltac:(lia)) as (ks & p1 & -> & _ & Hp2 & _ & Hi).
  rewrite outcome_bind_Ok. destruct (saw_login ks); [by intros [= <-]|by apply IH].
Qed.

Lemma login_request :
  exists payload, length payload = 46%nat /\
    append_login_request [] (str "FLOW") (str "SIM") [] 1 = Ok (wire (mkPacket kLoginRequest payload)).
Proof.
  assert (login_ok (client_login (str "FLOW") (str "SIM"))) as Hl.
  { unfold login_ok, field_ok. cbn [username password requested_session requested_seq client_login].
    split_and!; try (by vm_compute); try (vm_compute; lia); concrete_bytes. }
  exists (login_payload (client_login (str "FLOW") (str "SIM"))).
  split; [apply (login_payload_decodes _ Hl)|]. exact (append_packet_spec [] _ (login_packet_ok _ Hl)).
Qed.

Lemma flow_answers c cmds e msgs :
  engine_run cmds = Some e -> messages_of c cmds = msgs -> Forall plain msgs -> NoDup (omap entered msgs) ->
  answers c (to_gateway_ e) = Acknowledged <$> omap entered msgs.
Proof.
  intros He Hc Hpl Hnd. destruct (flow_accepted c cmds (@init Fast) e He) as (rs & Hg & Ha).
  - by rewrite Hc.
  - by rewrite Hc.
  - intros t _. cbn. set_solver.
  - rewrite Hg. cbn [init to_gateway_ app]. by rewrite Ha, Hc.
Qed.

(** A cancel names an order entered before it. *)
Definition cancels_earlier (msgs : list CommandMsg) : Prop :=
  forall i m t, msgs !! i = Some m -> withdrawn m = Some t -> t ∈ omap entered (take i msgs).

Lemma flowed_earlier f msgs data ks f' : flowed f msgs data ks f' -> live f = [] -> cancels_earlier msgs.
Proof.
  intros Hf Hl i m t Hi Ht. pose proof (fl_earlier _ _ _ _ _ Hf (S i)) as Hs.
  rewrite Hl, (take_S_r _ _ m), !omap_app in Hs by done. cbn [app omap list_omap] in Hs.
  assert (entered m = None) as He by (by destruct m). rewrite Ht, He, app_nil_r in Hs.
  eapply elem_of_submseteq; [|exact Hs]. apply elem_of_app. right. by left.
Qed.

(** The line of totals printed at the end. *)
Definition shown_totals (t : Tally) : bytes :=
  str "flowgen: done. accepted=" ++ unsigned (u64 (t_accepted t)) ++ str " executed_shares=" ++
  unsigned (u64 (t_executed t)) ++ str " canceled=" ++ unsigned (u64 (t_canceled t)) ++ newline.

(** C29: the flow generator. Suppose it connects, its login is accepted, the
    socket takes every packet whole, and it is asked for fewer than 2^31 - 1
    orders. Whatever random numbers it draws (within the ranges it draws them
    from) and however the responses arrive, the program runs to its end with
    status 0, and sends its login, as many messages as it was asked for and its
    logout. Every message is one the gateway decodes and passes on; no two
    orders have the same token; each cancel names an order sent before it, and
    no two cancels the same one. If these are the messages of one client in a
    session, the engine acknowledges every order in turn and refuses none,
    whatever the other clients do. And if what the generator received are the
    responses [rs], the totals it prints are those of [rs]: orders accepted,
    shares executed and orders canceled, modulo 2^64. *)
Theorem flowgen_orders_accepted argv w o ds p :
  options argv = Ok o -> w_connect w = None -> Forall is_byte (o_symbol o) ->
  take (Z.to_nat (o_total o)) (w_draws w (o_seed o)) = ds -> length ds = Z.to_nat (o_total o) ->
  o_total o + 1 < 2 ^ 31 -> Forall round_ok ds -> (49 <= w_login_taken w)%nat -> (3 <= w_taken w)%nat ->
  Forall (Forall is_byte) (w_login_recvs w) -> Forall (Forall (Forall is_byte)) (w_last_recvs w) ->
  await_login (w_login_recvs w) new_parser = Ok (Some p) ->
  exists f login msgs,
    run (o_symbol o) (w_login_taken w) (w_login_recvs w) ds (w_last_recvs w) (w_taken w) = Ok (Some f) /\
    append_login_request [] (str "FLOW") (str "SIM") [] 1 = Ok login /\ length msgs = Z.to_nat (o_total o) /\
    sent f = login ++ wires (map message_packet msgs) ++ wire (mkPacket kLogoutRequest []) /\
    Forall (fun m => carries (msg_wire m) m /\ over_cap m = None) msgs /\
    NoDup (omap entered msgs) /\ NoDup (omap withdrawn msgs) /\ cancels_earlier msgs /\
    (forall c cmds e, session_ok cmds -> messages_of c cmds = msgs -> engine_run cmds = Some e ->
      answers c (to_gateway_ e) = Acknowledged <$> omap entered msgs) /\
    main argv w = Ok (greeting o ++ summary f, [], 0) /\
    (forall rs, Forall response_ok rs ->
      pending p ++ concat (map (fun x => concat x.2) ds) ++ concat (map (fun r => concat r) (w_last_recvs w))
        = wires (map response_packet rs) ->
      main argv w = Ok (str "flowgen: logged in, sending " ++ signed (o_total o) ++ str " orders on " ++ o_symbol o ++
        newline ++ shown_totals (responses_tally rs), [], 0)).
Proof.
  intros Hopt Hconn Hsym Hdraws Hn Htot Hds Hlt Ht Hlb Hrb Hlogin.
  assert (lengthZ ds + 1 < 2 ^ 31) as Hlen by (unfold lengthZ; lia).
  destruct login_request as (payload & Hpl & Hreq).
  destruct (await_login_ok _ _ _ new_parser_ok Hlb Hlogin) as [Hp Hi].
  assert (flow_ok (start_flow (wire (mkPacket kLoginRequest payload)) p)) as Hf0.
  { split; [cbn; lia|constructor|done|]. unfold in_range. cbn. unfold fits. lia. }
  destruct (rounds_flowed (o_symbol o) ds _ Hf0 Hsym Hds) as (f1 & msgs & k1 & E1 & Hf1 & Hm & Hfl1);
    [cbn [next_token start_flow]; lia|].
  destruct (pump_all_flowed (w_last_recvs w) f1 Hf1 Hrb) as (f2 & k2 & E2 & Hf2 & Hfl2).
  pose proof (flowed_trans _ _ _ _ _ _ _ _ _ Hfl1 Hfl2) as Hfl. rewrite app_nil_r in Hfl.
  pose proof (flowed_earlier _ _ _ _ _ Hfl eq_refl) as Hearly.
  destruct Hfl as [S G N E T _ P (C1 & C2 & C3) B].
  cbn [next_token start_flow live sent parser app] in S, N, E, T, B.
  assert (NoDup (omap entered msgs)) as Hnd by (rewrite E; apply NoDup_numbered; [lia|]; unfold lengthZ in *; lia).
  set (f := mkFlow (live f2) (next_token f2) (sent f2 ++ take (w_taken w) (wire (mkPacket kLogoutRequest [])))
    (parser f2) (accepted f2) (executed_shares f2) (canceled f2)).
  assert (run (o_symbol o) (w_login_taken w) (w_login_recvs w) ds (w_last_recvs w) (w_taken w) = Ok (Some f)) as Hrun.
  { unfold run. rewrite Hreq, outcome_bind_Ok, Hlogin, outcome_bind_Ok.
    rewrite (take_ge (wire (mkPacket kLoginRequest payload))) by (rewrite length_packet; cbn [Soup.payload]; lia).
    rewrite E1, outcome_bind_Ok. unfold finish. rewrite E2, outcome_bind_Ok.
    change (append_packet [] kLogoutRequest []) with (Ok (wire (mkPacket kLogoutRequest []))).
    rewrite outcome_bind_Ok, outcome_bind_Ok. reflexivity. }
  assert (main argv w = Ok (greeting o ++ summary f, [], 0)) as Hmain.
  { unfold main. rewrite Hopt, outcome_bind_Ok, Hconn, Hdraws, Hrun, outcome_bind_Ok. done. }
  exists f, (wire (mkPacket kLoginRequest payload)), msgs. split_and!; try done.
  - by rewrite Hm, Hn.
  - cbn [f sent]. rewrite S, <- app_assoc, take_ge; [done|]. rewrite length_packet. cbn. lia.
  - eapply Forall_impl; [exact G|]. by intros m (? & ? & _).
  - rewrite T in Hnd. by apply NoDup_app in Hnd as (_ & _ & Hnd).
  - intros c cmds e Hs Hc He. apply (flow_answers c cmds e msgs); try done.
    eapply Forall_impl; [exact G|]. by intros m (_ & _ & ?).
  - intros rs Hrs Hbytes. rewrite Hmain. rewrite Hbytes in B.
    assert (Forall packet_ok (map response_packet rs)) as Hok.
    { apply Forall_map. eapply Forall_impl; [exact Hrs|]. apply response_packet_ok. }
    destruct (wires_inj (k1 ++ k2) (map response_packet rs) (pending (parser f2)) P Hok) as [Ek _];
      [apply Hf2|by rewrite B|].
    rewrite Ek, responses_packets_tally in C1, C2, C3 by done.
    unfold greeting, summary, shown_totals. cbn [f accepted executed_shares canceled]. rewrite C1, C2, C3.
    unfold counted, count_up. cbn [accepted executed_shares canceled start_flow]. rewrite !Z.add_0_l, <- !app_assoc. done.
Qed.

(** An order, its cancel and another order. *)
Definition demo_draws : list (Draw * nat * list bytes) :=
  [(mkDraw 50 7 300 (-3), 100%nat, []); (mkDraw 5 12 1 0, 100%nat, []); (mkDraw 5 2 500 25, 100%nat, [])].

Definition demo_world : World :=
  mkWorld None 100 [wire (mkPacket kLoginAccepted [])] (fun _ => demo_draws) (replicate 20 []) 100.

Lemma flowgen_orders_accepted_witness :
  exists f login msgs,
    run (str "AAPL") 100 [wire (mkPacket kLoginAccepted [])] demo_draws (replicate 20 []) 100 = Ok (Some f) /\
    sent f = login ++ wires (map message_packet msgs) ++ wire (mkPacket kLogoutRequest []) /\
    NoDup (omap entered msgs) /\ length msgs = 3%nat /\
    main [str "flowgen"; str "--orders"; str "3"] demo_world =
      Ok (greeting (mkOptions (str "127.0.0.1") 26400 (str "AAPL") 3 1) ++ summary f, [], 0).
Proof.
  destruct (flowgen_orders_accepted [str "flowgen"; str "--orders"; str "3"] demo_world
    (mkOptions (str "127.0.0.1") 26400 (str "AAPL") 3 1) demo_draws
    (mkParser [0; 1; 65] 3)) as (f & login & msgs & Hr & _ & Hl & Hs & _ & Hn & _ & _ & _ & Hm & _).
  - vm_compute; reflexivity.
  - reflexivity.
  - concrete_bytes.
  - reflexivity.
  - reflexivity.
  - cbn; lia.
  - repeat (constructor; [unfold round_ok, draw_ok, fits; cbn; split_and!; [lia..|constructor]|]). constructor.
  - cbn; lia.
  - cbn; lia.
  - constructor; [concrete_bytes|constructor].
  - apply Forall_replicate. constructor.
  - by vm_compute.
  - exists f, login, msgs. split; [exact Hr|]. split; [exact Hs|]. split; [exact Hn|]. split; [exact Hl|exact Hm].
Defined.
End FlowGen.
