(* ===== verification/MarketSim.v ===== *)
(** The multi-agent market simulator ([apps/marketsim.cpp]): market makers that
    quote around a mean-reverting fair value, and takers that cross the spread,
    each over its own order-entry connection.

    The random numbers an agent draws, in the ranges of the distributions, and
    what its socket and the clock do are arguments of its turns; the deadline
    decides how many turns there are. *)

From S2P Require Import Prelude StdMap Endian BookTypes Wire Symbols Ouch EngineBook Engine EngineInv EngineRuns EngineFeed EngineClaims Soup SoupSession Gateway GatewaySession GatewayInv GatewayRuns Client ClientPaths Prices Text Display OrderFlow.
From Stdlib Require Import Ascii.

Module MarketSim.
Import Engine Soup GatewaySession GatewayRuns Client ClientPaths Text OrderFlow.

(** ** Statistics *)

Record Stats := mkStats { accepted : Z; executed_shares : Z; canceled : Z; rejected : Z }.

Definition no_stats : Stats := mkStats 0 0 0 0.

(** [CountingHandler]. *)
Definition on_response (s : Stats) (m : ResponseMsg) : Stats :=
  match m with
  | RAccepted _ => mkStats (u64 (accepted s + 1)) (executed_shares s) (canceled s) (rejected s)
  | RExecuted m =>
      mkStats (accepted s) (u64 (executed_shares s + Ouch.xc_executed_shares m)) (canceled s) (rejected s)
  | RCanceled _ => mkStats (accepted s) (executed_shares s) (u64 (canceled s + 1)) (rejected s)
  | RRejected _ => mkStats (accepted s) (executed_shares s) (canceled s) (u64 (rejected s + 1))
  | _ => s
  end.

(** ** Agents *)

Record Io := mkIo { io_taken : nat; io_now : Z }.

Record Turn := mkTurn {
  t_walk : Z;
  t_spread : Z;
  t_bid_size : Z;
  t_ask_size : Z;
  t_word : Z;
  t_take_size : Z;
  t_cancel_bid : Io;
  t_cancel_ask : Io;
  t_enter1 : Io;
  t_enter2 : Io;
  t_poll : Poll }.

Record Agent := mkAgent {
  client : Client;
  fv : Price;
  next_token : Z;
  live_bid : bytes;
  live_ask : bytes }.

Definition cent : Price := Prices.make_price 0 100.

Definition new_agent (c : Client) : Agent := mkAgent c (Prices.make_price 100 0) 1 [] [].

(** [fv += walk * cent; fv -= (fv - 100) / 200]. *)
Definition walk (w : Z) (fv : Price) : Price :=
  let fv := fv + w * cent in fv - Z.quot (fv - Prices.make_price 100 0) 200.

(** [next_token++] of an [int]. *)
Definition take_token (prefix n : Z) : outcome (bytes * Z) :=
  if 2 ^ 31 <=? n + 1 then Undefined else Ok (numbered prefix n, n + 1).

Definition cancel_live (token : bytes) (io : Io) (c : Client) : outcome Client :=
  if Display.is_nil token then Ok c else cancel token 0 (io_taken io) (io_now io) c.

Definition poll_turn (t : Turn) (c : Client) : outcome Client :=
  poll (p_recvs (t_poll t)) (p_now (t_poll t)) (p_taken (t_poll t)) (p_now' (t_poll t)) c.

Definition maker_turn (symbol : bytes) (t : Turn) (a : Agent) : outcome Agent :=
  let fv := walk (t_walk t) (fv a) in
  c ← cancel_live (live_bid a) (t_cancel_bid t) (client a);
  c ← cancel_live (live_ask a) (t_cancel_ask t) c;
  '(bid, n) ← take_token (chr "B") (next_token a);
  '(ask, n) ← take_token (chr "S") n;
  let half := t_spread t * cent in
  c ← enter bid Buy symbol (fv - half) (t_bid_size t) (io_taken (t_enter1 t)) (io_now (t_enter1 t)) c;
  c ← enter ask Sell symbol (fv + half) (t_ask_size t) (io_taken (t_enter2 t)) (io_now (t_enter2 t)) c;
  c ← poll_turn t c;
  Ok (mkAgent c fv n bid ask).

Definition taker_turn (symbol : bytes) (t : Turn) (a : Agent) : outcome Agent :=
  let fv := walk (t_walk t) (fv a) in
  let buy := Z.odd (t_word t) in
  '(tok, n) ← take_token (chr "T") (next_token a);
  let px := if buy then fv + 6 * cent else fv - 6 * cent in
  c ← enter tok (if buy then Buy else Sell) symbol px (t_take_size t) (io_taken (t_enter1 t)) (io_now (t_enter1 t))
        (client a);
  c ← poll_turn t c;
  Ok (mkAgent c fv n (live_bid a) (live_ask a)).

Fixpoint turns (maker : bool) (symbol : bytes) (ts : list Turn) (a : Agent) : outcome Agent :=
  match ts with
  | [] => Ok a
  | t :: ts => a ← (if maker then maker_turn symbol t a else taker_turn symbol t a); turns maker symbol ts a
  end.

(** [c.connect] with what it depends on. *)
Record Connecting := mkConnecting {
  c_fd : Z; c_ok : bool; c_recvs : list bytes; c_taken : nat; c_taken' : nat; c_now : Z }.

(** [run_agent]: nothing when the connection fails. *)
Definition run_agent (id : Z) (symbol : bytes) (k : Connecting) (ts : list Turn) (drain : list Poll) (taken : nat)
    : outcome (option Agent) :=
  '(ok, c) ← connect (c_fd k) (c_ok k) (str "AGENT" ++ Prices.to_string id) (str "SIM") (c_recvs k) (c_taken k)
               (c_taken' k) (c_now k) new_client;
  if negb ok then Ok None else
  a ← turns (Z.rem id 2 =? 0) symbol ts (new_agent c);
  c ← poll_all drain (client a);
  c ← close taken c;
  Ok (Some (mkAgent c (fv a) (next_token a) (live_bid a) (live_ask a))).

(** [main] adds up what the handlers of all agents were told; additions to the
    shared counters commute. *)
Definition totals (agents : list (option Agent)) : Stats :=
  fold_left on_response (concat (map (from_option (fun a => calls_ (client a)) []) agents)) no_stats.

Definition summary (s : Stats) : bytes :=
  str "marketsim: done. accepted=" ++ unsigned (accepted s) ++ str " executed_shares=" ++
  unsigned (executed_shares s) ++ str " canceled=" ++ unsigned (canceled s) ++ str " rejected=" ++
  unsigned (rejected s) ++ newline.

(** The command line. *)
Record Options := mkOptions {
  o_host : bytes; o_port : Z; o_symbol : bytes; o_agents : Z; o_seconds : Z; o_seed : Z }.

Definition options (argv : list bytes) : outcome Options :=
  port ← atoi (CommandLine.arg_value argv (str "--port") (str "26400"));
  agents ← atoi (CommandLine.arg_value argv (str "--agents") (str "6"));
  seconds ← atoi (CommandLine.arg_value argv (str "--seconds") (str "10"));
  seed ← atoll (CommandLine.arg_value argv (str "--seed") (str "1"));
  Ok (mkOptions (CommandLine.arg_value argv (str "--host") (str "127.0.0.1")) (u16 port)
        (CommandLine.arg_value argv (str "--symbol") (str "AAPL")) agents seconds (u64 seed)).

Definition banner (o : Options) : bytes :=
  str "marketsim: " ++ signed (o_agents o) ++ str " agents on " ++ o_symbol o ++ str " for " ++
  signed (o_seconds o) ++ str "s (" ++ o_host o ++ str ":" ++ unsigned (o_port o) ++ str ")" ++ newline.

(** What an agent meets: its connection, its turns, the polls at the end and what
    the logout's [send] took. *)
Record Surroundings := mkSurroundings {
  s_connecting : Connecting; s_turns : list Turn; s_drain : list Poll; s_taken : nat }.

Fixpoint run_agents (symbol : bytes) (id : Z) (ss : list Surroundings) : outcome (list (option Agent)) :=
  match ss with
  | [] => Ok []
  | s :: ss =>
      a ← run_agent id symbol (s_connecting s) (s_turns s) (s_drain s) (s_taken s);
      rest ← run_agents symbol (id + 1) ss;
      Ok (a :: rest)
  end.

(** [main]: [meets id] is what agent [id] meets; the agents share only the
    counters. *)
Definition main (argv : list bytes) (meets : nat -> Surroundings) : outcome bytes :=
  o ← options argv;
  agents ← run_agents (o_symbol o) 0 (map meets (seq 0 (Z.to_nat (o_agents o))));
  Ok (banner o ++ summary (totals agents)).

(** ** Fair value *)

(** The fair value never strays more than 5.97 from 100. *)
Definition near (fv : Price) : Prop := -59700 <= fv - 1000000 <= 59700.

Lemma walk_near w fv : -3 <= w <= 3 -> near fv -> near (walk w fv).
Proof.
  unfold near, walk, cent, Prices.make_price, Prices.kPriceScale. intros Hw Hf. cbv zeta.
  set (x := fv + w * (0 * 10000 + 100) - (100 * 10000 + 0)).
  assert (-60000 <= x <= 60000) as Hx by (subst x; lia).
  pose proof (Z.quot_rem x 200 ltac:(lia)) as Hq. pose proof (Z.rem_bound_abs x 200 ltac:(lia)) as Hr.
  pose proof (Z.rem_sign_nz x 200) as Hs. subst x. lia.
Qed.

(** ** What an agent sends *)

Definition io_ok (io : Io) : Prop := (52 <= io_taken io)%nat.
Definition poll_ok (p : Poll) : Prop := Forall (Forall is_byte) (p_recvs p) /\ (3 <= p_taken p)%nat.

Record turn_ok (t : Turn) : Prop := {
  to_walk : -3 <= t_walk t <= 3;
  to_spread : 1 <= t_spread t <= 5;
  to_sizes : 100 <= t_bid_size t <= 500 /\ 100 <= t_ask_size t <= 500 /\ 50 <= t_take_size t <= 300;
  to_io : io_ok (t_cancel_bid t) /\ io_ok (t_cancel_ask t) /\ io_ok (t_enter1 t) /\ io_ok (t_enter2 t);
  to_poll : poll_ok (t_poll t) }.

(** The packets sent: the orders, and heartbeats between them. *)
Definition is_order (k : Packet) : Prop := type k = kUnsequenced.
#[local] Instance is_order_dec k : Decision (is_order k) := decide (type k = kUnsequenced).

(** From [c] to [c'] the client sent the orders [os]. *)
Record issued (c : Client) (os : list Order) (c' : Client) : Prop := {
  is_fd : fd_ c' = fd_ c;
  is_parser : parser_ok (parser_ c) -> parser_ok (parser_ c');
  is_sent : exists ks, sent_ c' = sent_ c ++ wires ks /\ filter is_order ks = map order_packet os }.

Lemma issued_refl c : issued c [] c.
Proof. split; [done|done|]. exists []. by rewrite app_nil_r. Qed.

Lemma issued_trans c os c1 os' c2 : issued c os c1 -> issued c1 os' c2 -> issued c (os ++ os') c2.
Proof.
  intros [F1 P1 (k1 & S1 & O1)] [F2 P2 (k2 & S2 & O2)]. split; [congruence|auto|].
  exists (k1 ++ k2). split; [by rewrite S2, S1, wires_app, app_assoc|]. by rewrite filter_app, O1, O2, map_app.
Qed.

Lemma send_ouch_parser msg taken now c c' : send_ouch msg taken now c = Ok c' -> parser_ c' = parser_ c.
Proof.
  unfold send_ouch. destruct (append_packet _ _ _); try done. rewrite outcome_bind_Ok. intros [= <-].
  unfold send_raw. by destruct (_ <? _).
Qed.

Lemma issue_parser o taken now c c' : issue o taken now c = Ok c' -> parser_ c' = parser_ c.
Proof.
  destruct o as [token side symbol price shares|token keep|ex rep price shares]; cbn [issue].
  - unfold enter. destruct (Ouch.encode_EnterOrder _ _); try done. apply send_ouch_parser.
  - unfold cancel. destruct (Ouch.encode_CancelOrder _ _); try done. apply send_ouch_parser.
  - unfold replace. destruct (Ouch.encode_ReplaceOrder _ _); try done. apply send_ouch_parser.
Qed.

Lemma issue_issued o taken now c :
  order_ok o -> (52 <= taken)%nat -> 0 <= fd_ c -> exists c', issue o taken now c = Ok c' /\ issued c [o] c'.
Proof.
  intros Ho Ht Hf. destruct (issue_spec o taken now c Ho Ht Hf) as (c' & Hi & Hfd & Hs).
  exists c'. split; [done|]. split; [done|by rewrite (issue_parser _ _ _ _ _ Hi)|].
  exists [order_packet o]. split; [rewrite Hs; unfold wires; cbn [map concat]; by rewrite app_nil_r|].
  rewrite filter_cons_True by done. done.
Qed.

Lemma dispatch_all_sent fuel c c' : dispatch_all fuel c = Ok c' -> sent_ c' = sent_ c.
Proof.
  assert (forall {M} (m : outcome (option M)) inj c c', deliver m inj c = Ok c' -> sent_ c' = sent_ c) as Hd.
  { intros M m inj x x'. unfold deliver. destruct m as [[m|]| |]; try done; by intros [= <-]. }
  revert c. induction fuel as [|fuel IH]; intros c; cbn [dispatch_all]; [done|].
  destruct (next (parser_ c)) as [[[k|] p]| |]; try done; rewrite outcome_bind_Ok; [|by intros [= <-]].
  destruct (_ && _).
  - unfold dispatch. destruct (peek (payload k) 0) as [tag| |]; try done. rewrite outcome_bind_Ok.
    repeat match goal with |- context [if ?b then _ else _] => destruct b end;
      try (destruct (deliver _ _ _) as [c1| |] eqn:E; [apply Hd in E|done|done];
           rewrite outcome_bind_Ok; intros H; apply IH in H; rewrite H, E; done).
    rewrite outcome_bind_Ok. intros H. by apply IH in H.
  - rewrite outcome_bind_Ok. intros H. by apply IH in H.
Qed.

Lemma poll_issued p c :
  0 <= fd_ c -> parser_ok (parser_ c) -> poll_ok p ->
  exists c', poll (p_recvs p) (p_now p) (p_taken p) (p_now' p) c = Ok c' /\ issued c [] c'.
Proof.
  intros Hf Hp [Hb Ht]. destruct (poll_spec p c Hf Hp Hb) as (c' & ks & mss & Hpoll & Hfd & _ & _ & _ & Hp' & _).
  exists c'. split; [done|]. split; [done|done|]. unfold poll in Hpoll.
  destruct (Z.ltb_spec (fd_ c) 0); [lia|]. cbv zeta in Hpoll.
  destruct (dispatch_all _ _) as [c1| |] eqn:E; try done. apply dispatch_all_sent in E. cbn [sent_ set_parser] in E.
  rewrite outcome_bind_Ok in Hpoll. destruct (_ <? _).
  - change (append_packet [] kClientHeartbeat []) with (Ok (wire (mkPacket kClientHeartbeat []))) in Hpoll.
    rewrite outcome_bind_Ok in Hpoll. injection Hpoll as <-. unfold send_raw.
    destruct (fd_ c1 <? 0); [exists []; by rewrite app_nil_r|].
    exists [mkPacket kClientHeartbeat []]. cbn [sent_ log_sent]. rewrite E, take_ge by (rewrite length_packet; cbn; lia).
    split; [|done]. unfold wires. cbn [map concat]. by rewrite app_nil_r.
  - injection Hpoll as <-. exists []. by rewrite E, app_nil_r.
Qed.

(** ** Turns *)

(** The quotes an agent may still have in the book. *)
Definition quotes (a : Agent) : list bytes :=
  (if Display.is_nil (live_bid a) then [] else [live_bid a]) ++
  (if Display.is_nil (live_ask a) then [] else [live_ask a]).

(** A quote token, from an earlier turn. *)
Definition quoted (n : Z) (t : bytes) : Prop := t = [] \/ exists p k, is_byte p /\ 1 <= k < n /\ t = numbered p k.

Record agent_ok (a : Agent) : Prop := {
  ag_near : near (fv a);
  ag_next : 1 <= next_token a;
  ag_bid : quoted (next_token a) (live_bid a);
  ag_ask : quoted (next_token a) (live_ask a);
  ag_fd : 0 <= fd_ (client a);
  ag_parser : parser_ok (parser_ (client a)) }.

(** The orders agents send: well formed, within the caps, priced within 6.03 of
    100, and with nothing to refuse. *)
Definition agent_order (o : Order) : Prop :=
  order_ok o /\ plain (order_msg o) /\
  match o with OEnter _ _ _ price _ => 939700 <= price <= 1060300 | _ => True end.

Record acted (a : Agent) (os : list Order) (a' : Agent) : Prop := {
  ac_issued : issued (client a) os (client a');
  ac_orders : Forall agent_order os;
  ac_entered : exists ids, omap entered (map order_msg os) = map (fun x => numbered x.1 x.2) ids /\
    ids.*2 = seqZ (next_token a) (next_token a' - next_token a);
  ac_next : next_token a <= next_token a';
  ac_quotes : exists rest, quotes a ++ omap entered (map order_msg os) ≡ₚ
    quotes a' ++ omap withdrawn (map order_msg os) ++ rest }.

Lemma acted_refl a : acted a [] a.
Proof.
  split; [apply issued_refl|constructor| |lia|by exists []]. exists []. by rewrite Z.sub_diag.
Qed.

Lemma acted_trans a os a1 os' a2 : acted a os a1 -> acted a1 os' a2 -> acted a (os ++ os') a2.
Proof.
  intros [I1 O1 (i1 & E1 & J1) N1 (r1 & Q1)] [I2 O2 (i2 & E2 & J2) N2 (r2 & Q2)]. split.
  - by eapply issued_trans.
  - by apply Forall_app.
  - exists (i1 ++ i2). rewrite map_app, omap_app, E1, E2, map_app. split; [done|].
    rewrite fmap_app, J1, J2. replace (next_token a2 - next_token a)
      with ((next_token a1 - next_token a) + (next_token a2 - next_token a1)) by lia.
    rewrite seqZ_app by lia. do 2 f_equal. lia.
  - lia.
  - exists (r1 ++ r2). rewrite !map_app, !omap_app. set (w1 := omap withdrawn (map order_msg os)) in *.
    set (w2 := omap withdrawn (map order_msg os')) in *. rewrite app_assoc, Q1, <- app_assoc.
    rewrite (Permutation_app_comm (w1 ++ r1)), app_assoc, Q2. solve_Permutation.
Qed.

Lemma quoted_mono n n' t : n <= n' -> quoted n t -> quoted n' t.
Proof. intros Hn [->|(p & k & Hp & Hk & ->)]; [by left|right]. exists p, k. split_and!; [done|lia|lia|done]. Qed.

Lemma take_token_ok prefix n : n + 1 < 2 ^ 31 -> take_token prefix n = Ok (numbered prefix n, n + 1).
Proof. intros Hn. unfold take_token. destruct (Z.leb_spec (2 ^ 31) (n + 1)); [lia|done]. Qed.

Lemma enter_order_ok prefix n side symbol price shares :
  is_byte prefix -> 1 <= n < 2 ^ 31 -> valid_side side -> Forall is_byte symbol ->
  939700 <= price <= 1060300 -> 1 <= shares <= 500 ->
  agent_order (OEnter (numbered prefix n) side symbol price shares).
Proof.
  intros Hp Hn Hs Hy Hpx Hq. pose proof (numbered_bytes prefix n Hp ltac:(lia)).
  split; [split|split; [|done]].
  - unfold fits. split_and!; try done; lia.
  - cbn [order_msg over_cap Ouch.eo_shares Ouch.eo_price].
    destruct (Z.ltb_spec Gateway.kMaxOrderShares shares) as [H'|]; [unfold Gateway.kMaxOrderShares in H'; lia|].
    destruct (Z.ltb_spec Gateway.kMaxOrderPrice price) as [H'|]; [unfold Gateway.kMaxOrderPrice in H'; lia|].
    by rewrite andb_false_r.
  - cbn [order_msg plain]. unfold refusal. cbn [Ouch.eo_price Ouch.eo_shares Ouch.eo_side].
    destruct (Z.leb_spec price 0); [lia|]. rewrite andb_false_r. destruct (Z.eqb_spec shares 0); [lia|].
    by destruct Hs as [-> | ->].
Qed.

(** The cancel of a quote, when there is one. *)
Lemma cancel_live_issued n t io c :
  quoted n t -> n <= 2 ^ 31 -> io_ok io -> 0 <= fd_ c ->
  exists c', cancel_live t io c = Ok c' /\
    issued c (if Display.is_nil t then [] else [OCancel t 0]) c' /\
    Forall agent_order (if Display.is_nil t then [] else [OCancel t 0]) /\
    omap entered (map order_msg (if Display.is_nil t then [] else [OCancel t 0])) = [] /\
    omap withdrawn (map order_msg (if Display.is_nil t then [] else [OCancel t 0])) = (if Display.is_nil t then [] else [t]).
Proof.
  intros [->|(p & k & Hp & Hk & ->)] Hn Hio Hf; unfold cancel_live.
  { exists c. split_and!; [done|apply issued_refl|constructor|done|done]. }
  cbn [Display.is_nil numbered]. pose proof (numbered_bytes p k Hp ltac:(lia)).
  assert (agent_order (OCancel (numbered p k) 0)) as Ho by (by split_and!).
  destruct (issue_issued _ (io_taken io) (io_now io) c (proj1 Ho) Hio Hf) as (c' & Hc & Hi).
  exists c'. split_and!; [exact Hc|exact Hi|by constructor|done|].
  cbn [map order_msg omap list_omap withdrawn Ouch.co_token]. by rewrite numbered_view by lia.
Qed.

Lemma numbered_entered p n side symbol price shares :
  1 <= n < 2 ^ 31 -> entered (order_msg (OEnter (numbered p n) side symbol price shares)) = Some (numbered p n).
Proof. intros Hn. cbn [order_msg entered Ouch.eo_token]. by rewrite numbered_view by lia. Qed.

Section Turns.
Context (symbol : bytes).
Hypothesis Hsym : Forall is_byte symbol.

Lemma maker_turn_acted t a :
  agent_ok a -> turn_ok t -> next_token a + 2 < 2 ^ 31 ->
  exists a' os, maker_turn symbol t a = Ok a' /\ agent_ok a' /\ acted a os a' /\ next_token a' <= next_token a + 2.
Proof.
  intros [A1 A2 A3 A4 A5 A6] [W1 W2 (W3 & W4 & W5) (W6 & W7 & W8 & W9) W10] Hb. unfold maker_turn.
  pose proof (walk_near _ _ W1 A1) as Hn. set (v := walk (t_walk t) (fv a)) in *. cbv zeta. set (n := next_token a) in *.
  destruct (cancel_live_issued n (live_bid a) (t_cancel_bid t) (client a) A3 ltac:(lia) W6 A5)
    as (c1 & -> & I1 & O1 & E1 & X1).
  rewrite outcome_bind_Ok.
  destruct (cancel_live_issued n (live_ask a) (t_cancel_ask t) c1 A4 ltac:(lia) W7 ltac:(by rewrite (is_fd _ _ _ I1)))
    as (c2 & -> & I2 & O2 & E2 & X2).
  rewrite outcome_bind_Ok. pose proof (issued_trans _ _ _ _ _ I1 I2) as I12.
  rewrite take_token_ok, outcome_bind_Ok by lia. rewrite take_token_ok, outcome_bind_Ok by lia.
  unfold near in Hn. assert (cent = 100) as Ec by reflexivity. rewrite Ec.
  assert (agent_order (OEnter (numbered (chr "B") n) Buy symbol (v - t_spread t * 100) (t_bid_size t))) as Hbid
    by (apply enter_order_ok; [by vm_compute|lia|by left|done|lia|lia]).
  assert (agent_order (OEnter (numbered (chr "S") (n + 1)) Sell symbol (v + t_spread t * 100) (t_ask_size t))) as Hask
    by (apply enter_order_ok; [by vm_compute|lia|by right|done|lia|lia]).
  destruct (issue_issued _ (io_taken (t_enter1 t)) (io_now (t_enter1 t)) c2 (proj1 Hbid) W8
    ltac:(by rewrite (is_fd _ _ _ I12))) as (c3 & E3 & I3). cbn [issue] in E3. rewrite E3, outcome_bind_Ok.
  pose proof (issued_trans _ _ _ _ _ I12 I3) as I13.
  destruct (issue_issued _ (io_taken (t_enter2 t)) (io_now (t_enter2 t)) c3 (proj1 Hask) W9
    ltac:(by rewrite (is_fd _ _ _ I13))) as (c4 & E4 & I4). cbn [issue] in E4. rewrite E4, outcome_bind_Ok.
  pose proof (issued_trans _ _ _ _ _ I13 I4) as I14.
  destruct (poll_issued (t_poll t) c4 ltac:(by rewrite (is_fd _ _ _ I14)) (is_parser _ _ _ I14 A6) W10) as (c5 & E5 & I5).
  unfold poll_turn. rewrite E5, outcome_bind_Ok. pose proof (issued_trans _ _ _ _ _ I14 I5) as I15.
  eexists _, _. split; [reflexivity|]. split; [|split; [|cbn [next_token]; lia]].
  - split; cbn [fv next_token live_bid live_ask client]; [done|lia| | | |].
    + right. exists (chr "B"), n. split_and!; [by vm_compute..|lia|lia|done].
    + right. exists (chr "S"), (n + 1). split_and!; [by vm_compute..|lia|lia|done].
    + by rewrite (is_fd _ _ _ I15).
    + by apply (is_parser _ _ _ I15).
  - split; cbn [fv next_token live_bid live_ask client]; [exact I15| | |lia|].
    + rewrite !Forall_app. split_and!; try done; by constructor.
    + exists [(chr "B", n); (chr "S", n + 1)].
      rewrite !map_app, !omap_app, E1, E2. cbn [map app omap list_omap].
      rewrite !numbered_entered by lia. split; [done|]. fold n. replace (n + 1 + 1 - n) with 2 by lia.
      rewrite seqZ_cons by lia. rewrite seqZ_cons by lia. cbn. repeat f_equal; lia.
    + rewrite !map_app, !omap_app, E1, E2, X1, X2. cbn [map app omap list_omap].
      rewrite !numbered_entered by lia. unfold quotes. cbn [live_bid live_ask Display.is_nil numbered app withdrawn order_msg].
      exists []. rewrite !app_nil_r. apply Permutation_app_comm.
Qed.

Lemma taker_turn_acted t a :
  agent_ok a -> turn_ok t -> next_token a + 1 < 2 ^ 31 ->
  exists a' os, taker_turn symbol t a = Ok a' /\ agent_ok a' /\ acted a os a' /\ next_token a' <= next_token a + 2.
Proof.
  intros [A1 A2 A3 A4 A5 A6] [W1 W2 (W3 & W4 & W5) (W6 & W7 & W8 & W9) W10] Hb. unfold taker_turn.
  pose proof (walk_near _ _ W1 A1) as Hn. set (v := walk (t_walk t) (fv a)) in *. cbv zeta. set (n := next_token a) in *.
  rewrite take_token_ok, outcome_bind_Ok by lia. unfold near in Hn. assert (cent = 100) as Ec by reflexivity. rewrite Ec.
  assert (agent_order (OEnter (numbered (chr "T") n) (if Z.odd (t_word t) then Buy else Sell) symbol
    (if Z.odd (t_word t) then v + 6 * 100 else v - 6 * 100) (t_take_size t))) as Ho.
  { destruct (Z.odd (t_word t)); (apply enter_order_ok; [by vm_compute|lia|by (left + right)|done|lia|lia]). }
  destruct (issue_issued _ (io_taken (t_enter1 t)) (io_now (t_enter1 t)) (client a) (proj1 Ho) W8 A5) as (c1 & E1 & I1).
  cbn [issue] in E1. rewrite E1, outcome_bind_Ok.
  destruct (poll_issued (t_poll t) c1 ltac:(by rewrite (is_fd _ _ _ I1)) (is_parser _ _ _ I1 A6) W10) as (c2 & E2 & I2).
  unfold poll_turn. rewrite E2, outcome_bind_Ok. pose proof (issued_trans _ _ _ _ _ I1 I2) as I12.
  eexists _, _. split; [reflexivity|]. split; [|split; [|cbn [next_token]; lia]].
  - split; cbn [fv next_token live_bid live_ask client]; [done|lia| | | |].
    + eapply quoted_mono; [|exact A3]. lia.
    + eapply quoted_mono; [|exact A4]. lia.
    + by rewrite (is_fd _ _ _ I12).
    + by apply (is_parser _ _ _ I12).
  - split; cbn [fv next_token live_bid live_ask client]; [exact I12|by constructor| |lia|].
    + exists [(chr "T", n)]. cbn [map app omap list_omap].
      rewrite !numbered_entered by lia. split; [done|]. fold n. replace (n + 1 - n) with 1 by lia.
      rewrite seqZ_cons by lia. done.
    + cbn [map app omap list_omap]. rewrite !numbered_entered by lia. unfold quotes. 
      cbn [live_bid live_ask withdrawn order_msg app]. eexists. reflexivity.
Qed.

Lemma turns_acted maker ts : forall a,
  agent_ok a -> Forall turn_ok ts -> next_token a + 2 * lengthZ ts < 2 ^ 31 ->
  exists a' os, turns maker symbol ts a = Ok a' /\ agent_ok a' /\ acted a os a' /\
    next_token a' <= next_token a + 2 * lengthZ ts.
Proof.
  induction ts as [|t ts IH]; intros a Ha Ht Hb; cbn [turns].
  { exists a, []. split_and!; [done|done|apply acted_refl|]. change (lengthZ (@nil Turn)) with 0. lia. }
  apply Forall_cons in Ht as [Ht Hts]. pose proof (lengthZ_nonneg ts).
  assert (lengthZ (t :: ts) = lengthZ ts + 1) as El by (unfold lengthZ; cbn [length]; lia).
  assert (exists a1 os, (if maker then maker_turn symbol t a else taker_turn symbol t a) = Ok a1 /\ agent_ok a1 /\
    acted a os a1 /\ next_token a1 <= next_token a + 2) as (a1 & os1 & -> & Ha1 & Hac1 & Hn1)
    by (destruct maker; [apply maker_turn_acted|apply taker_turn_acted]; done || lia).
  rewrite outcome_bind_Ok. destruct (IH a1 Ha1 Hts ltac:(lia)) as (a2 & os2 & -> & Ha2 & Hac2 & Hn2).
  exists a2, (os1 ++ os2). split_and!; [done|done|by eapply acted_trans|lia].
Qed.
End Turns.

Lemma login_replies_parser fuel : forall p r p',
  parser_ok p -> login_replies fuel p = Ok (r, p') -> parser_ok p'.
Proof.
  induction fuel as [|fuel IH]; intros p r p' Hp; cbn [login_replies]; [done|].
  destruct (frame_next_spec p Hp) as [(k & p1 & -> & _ & Hp1 & _)|[-> _]]; rewrite outcome_bind_Ok; [|by intros [= _ <-]].
  destruct (_ =? _); [by intros [= _ <-]|]. destruct (_ =? _); [by intros [= _ <-]|]. by apply IH.
Qed.

Lemma await_login_parser recvs taken : forall c c',
  parser_ok (parser_ c) -> Forall (Forall is_byte) recvs -> Client.await_login recvs taken c = Ok (true, c') ->
  parser_ok (parser_ c').
Proof.
  induction recvs as [|d recvs IH]; intros c c' Hp Hb; cbn [Client.await_login].
  { destruct (close taken c); [by intros [=]|done|done]. }
  apply Forall_cons in Hb as [Hd Hb]. destruct (push_ok d _ Hp Hd) as [Hp1 _].
  destruct (login_replies _ _) as [[r p]| |] eqn:E; [|done|done]. apply login_replies_parser in E as Hp2; [|done].
  rewrite outcome_bind_Ok. destruct r as [[|]|].
  - by intros [= <-].
  - by destruct (close taken _).
  - by apply IH.
Qed.

Lemma connect_ready fd ok user pass recvs taken taken' now c :
  Forall (Forall is_byte) recvs ->
  connect fd ok user pass recvs taken taken' now new_client = Ok (true, c) ->
  0 <= fd_ c /\ parser_ok (parser_ c).
Proof.
  intros Hb. unfold connect. cbv zeta. destruct (Z.ltb_spec fd 0) as [|Hfd]; [done|].
  destruct ok; cbn [negb]; [|by destruct (close taken' _)].
  destruct (append_login_request _ _ _ _ _) as [out| |]; [|done|done]. rewrite outcome_bind_Ok.
  set (c0 := send_raw _ _ _ _). assert (fd_ c0 = fd /\ parser_ c0 = new_parser) as [F0 P0].
  { unfold c0, send_raw. cbn [fd_ set_fd]. by destruct (fd <? 0). }
  intros H. destruct (await_login_sent _ _ _ _ H) as [_ F]. rewrite F, F0. split; [done|].
  eapply await_login_parser; [|exact Hb|exact H]. rewrite P0. apply new_parser_ok.
Qed.

Lemma poll_all_issued ps : forall c,
  0 <= fd_ c -> parser_ok (parser_ c) -> Forall poll_ok ps -> exists c', poll_all ps c = Ok c' /\ issued c [] c'.
Proof.
  induction ps as [|p ps IH]; intros c Hf Hp Hps; cbn [poll_all]; [exists c; split; [done|apply issued_refl]|].
  apply Forall_cons in Hps as [Hp0 Hps]. destruct (poll_issued p c Hf Hp Hp0) as (c1 & -> & I1). rewrite outcome_bind_Ok.
  destruct (IH c1 ltac:(by rewrite (is_fd _ _ _ I1)) (is_parser _ _ _ I1 Hp) Hps) as (c2 & -> & I2).
  exists c2. split; [done|]. exact (issued_trans _ _ _ _ _ I1 I2).
Qed.

(** The simulator's agents. Once connected, an agent, maker or taker, runs
    to its end whatever it draws (within the ranges it draws from) and whatever
    it receives, and sends orders, heartbeats and a logout. Its fair value is
    mean-reverting, so however long it runs every price is within 6.03 of 100;
    every order is well formed and within the gateway's caps, no two orders of
    the agent have the same token, and a cancel names an earlier quote, none of
    them twice. If these are the orders of one client in a session, the engine
    acknowledges all of them in turn and refuses none, whatever the other agents
    do meanwhile. *)
Theorem agents_never_refused id symbol k ts drain taken c :
  Forall is_byte symbol -> Forall turn_ok ts -> Forall poll_ok drain -> 1 + 2 * lengthZ ts < 2 ^ 31 ->
  (3 <= taken)%nat -> Forall (Forall is_byte) (c_recvs k) ->
  connect (c_fd k) (c_ok k) (str "AGENT" ++ Prices.to_string id) (str "SIM") (c_recvs k) (c_taken k)
    (c_taken' k) (c_now k) new_client = Ok (true, c) ->
  exists a os ks, run_agent id symbol k ts drain taken = Ok (Some a) /\
    sent_ (client a) = sent_ c ++ wires ks ++ wire (mkPacket kLogoutRequest []) /\
    filter is_order ks = map order_packet os /\ Forall agent_order os /\
    NoDup (omap entered (map order_msg os)) /\
    omap withdrawn (map order_msg os) ⊆+ omap entered (map order_msg os) /\
    forall i cmds e, session_ok cmds -> messages_of i cmds = map order_msg os -> engine_run cmds = Some e ->
      answers i (to_gateway_ e) = Acknowledged <$> omap entered (map order_msg os).
Proof.
  intros Hsym Hts Hdr Hlen Ht Hrb Hcon. destruct (connect_ready _ _ _ _ _ _ _ _ _ Hrb Hcon) as [Hfd Hp].
  assert (agent_ok (new_agent c)) as Ha0.
  { split; [by split; vm_compute|cbn; lia|by left|by left|done|done]. }
  destruct (turns_acted symbol Hsym (Z.rem id 2 =? 0) ts (new_agent c) Ha0 Hts) as
    (a1 & os & E1 & Ha1 & [Hi Ho (ids & He & Hids) Hn (rest & Hq)] & Hn1); [cbn [next_token new_agent]; lia|].
  cbn [next_token new_agent client] in Hids, Hn1, Hi, Hn. destruct Ha1 as [_ _ _ _ Hfd1 Hp1].
  destruct (poll_all_issued drain (client a1) Hfd1 Hp1 Hdr) as (c2 & E2 & I2).
  pose proof (issued_trans _ _ _ _ _ Hi I2) as [F P (ks & Hs & Hf)]. rewrite app_nil_r in Hf.
  assert (NoDup (omap entered (map order_msg os))) as Hnd.
  { rewrite He. apply NoDup_ListNoDup, List.NoDup_map_NoDup_ForallPairs.
    - intros [p x] [q y] Hx%list_elem_of_In Hy%list_elem_of_In E. cbn [fst snd] in E.
      assert (x ∈ seqZ 1 (next_token a1 - 1) /\ y ∈ seqZ 1 (next_token a1 - 1)) as [Rx%elem_of_seqZ Ry%elem_of_seqZ]
        by (rewrite <- Hids; split; apply list_elem_of_fmap; [by exists (p, x)|by exists (q, y)]).
      destruct (numbered_inj p q x y) as [-> ->]; [lia|lia|by rewrite E|done].
    - apply NoDup_ListNoDup. apply (NoDup_fmap_1 snd). rewrite Hids. apply NoDup_seqZ. }
  eexists _, os, ks. split_and!; try done.
  - unfold run_agent. rewrite Hcon, outcome_bind_Ok. cbn [negb]. rewrite E1, outcome_bind_Ok, E2, outcome_bind_Ok.
    unfold close. rewrite F. destruct (Z.leb_spec 0 (fd_ c)); [|lia].
    change (append_packet [] kLogoutRequest []) with (Ok (wire (mkPacket kLogoutRequest []))). reflexivity.
  - cbn [client sent_ set_fd log_sent]. rewrite take_ge by (rewrite length_packet; cbn; lia). by rewrite Hs, app_assoc.
  - cbn [quotes live_bid live_ask new_agent Display.is_nil app] in Hq. rewrite Hq, app_assoc.
    apply submseteq_inserts_r, submseteq_inserts_l. done.
  - intros i cmds e Hss Hc Hrun. destruct (flow_accepted i cmds (@init Fast) e Hrun) as (rs & Hg & Hans).
    + rewrite Hc. apply Forall_map. eapply Forall_impl; [exact Ho|]. by intros o (_ & ? & _).
    + by rewrite Hc.
    + intros t _. cbn. set_solver.
    + rewrite Hg. cbn [init to_gateway_ app]. by rewrite Hans, Hc.
Qed.

(** A market maker's first two turns. *)
Definition demo_turn (now : Z) : Turn :=
  mkTurn 2 3 200 300 0 100 (mkIo 60 now) (mkIo 60 now) (mkIo 60 now) (mkIo 60 now) (mkPoll [] now 3 now).

Lemma agents_never_refused_witness :
  exists a os, run_agent 0 (str "AAPL") (mkConnecting 5 true [wire (mkPacket kLoginAccepted [])] 49 3 0)
      [demo_turn 10; demo_turn 20] [] 3 = Ok (Some a) /\
    Forall agent_order os /\ NoDup (omap entered (map order_msg os)).
Proof.
  destruct (connect 5 true (str "AGENT" ++ Prices.to_string 0) (str "SIM") [wire (mkPacket kLoginAccepted [])]
    49 3 0 new_client) as [[[|] c]| |] eqn:E; [|vm_compute in E; discriminate..].
  destruct (agents_never_refused 0 (str "AAPL") (mkConnecting 5 true [wire (mkPacket kLoginAccepted [])] 49 3 0)
    [demo_turn 10; demo_turn 20] [] 3 c) as (a & os & ks & Hr & _ & _ & Ho & Hn & _).
  - concrete_bytes.
  - repeat (constructor; [split; unfold io_ok, poll_ok; cbn; split_and?; (lia || constructor)|]). constructor.
  - constructor.
  - by vm_compute.
  - lia.
  - constructor; [concrete_bytes|constructor].
  - exact E.
  - exists a, os. split; [exact Hr|]. split; [exact Ho|exact Hn].
Defined.
End MarketSim.
