(* ===== verification/Bench.v ===== *)
(** The benchmark's operation streams ([apps/bench.cpp]): [make_ops] draws a mix
    of adds, cancels and replaces, [run_ops] replays it on a book, and the
    open-loop handler turns acknowledgements into latencies.

    The random numbers are arguments, in the ranges of the distributions. What
    the clock measures is not modelled, what is done with it is. *)

From S2P Require Import Prelude StdMap Endian BookTypes BookSpec BookLaws BookReplay MatchingBook ReferenceBook ReferenceBookRefines OrderIndex HashIndex HashIndexRefines LadderBook LadderLinks LadderInv LadderOps LadderMatch LadderBookRefines LadderObserve BookClaims Wire Symbols Ouch EngineBook Engine EngineInv EngineRuns EngineFeed EngineClaims Soup SoupSession Gateway GatewaySession GatewayInv GatewayRuns Client ClientPaths Prices Text Doubles Histogram OrderFlow.
From Stdlib Require Import Ascii.

Module Bench.
Import Text OrderFlow.

(** ** Operations *)

Record Op := mkOp { kind : Z; op_id : OrderId; op_id2 : OrderId; op_side : Side; op_px : Price; op_q : Qty }.

Record Draw := mkDraw { d_roll : Z; d_word : Z; d_tick : Z; d_qty : Z }.

Definition draw_ok (d : Draw) : Prop :=
  0 <= d_roll d <= 99 /\ fits 64 (d_word d) /\ -60 <= d_tick d <= 60 /\ 1 <= d_qty d <= 800.

Definition mid : Price := Prices.make_price 100 0.
Definition cent : Price := Prices.make_price 0 100.

(** The loop's variables besides the result. *)
Record Maker := mkMaker { live : list OrderId; next : OrderId }.

Definition make_op (d : Draw) (m : Maker) : outcome (Op * Maker) :=
  if (d_roll d <? 55) || (length (live m) =? 0)%nat then
    let o := mkOp 0 (next m) 0 (if Z.odd (d_word d) then Buy else Sell) (mid + d_tick d * cent) (d_qty d) in
    let l := live m ++ [next m] in
    Ok (o, mkMaker (if 20000 <? lengthZ l then drop 10000 l else l) (u64 (next m + 1)))
  else
    let k := Z.to_nat (d_word d mod lengthZ (live m)) in
    id ← deref (live m !! k);
    if d_roll d <? 80 then Ok (mkOp 1 id 0 Buy 0 0, mkMaker (delete k (live m)) (next m))
    else Ok (mkOp 2 id (next m) Buy (mid + d_tick d * cent) (d_qty d),
             mkMaker (delete k (live m)) (u64 (next m + 1))).

Fixpoint make_ops_from (ds : list Draw) (m : Maker) : outcome (list Op) :=
  match ds with
  | [] => Ok []
  | d :: ds =>
      '(o, m) ← make_op d m;
      ops ← make_ops_from ds m;
      Ok (o :: ops)
  end.

Definition make_ops (ds : list Draw) : outcome (list Op) := make_ops_from ds (mkMaker [] 1).

(** The call of an operation. *)
Definition call (o : Op) : BookOp :=
  if kind o =? 0 then OpAdd (op_id o) (op_side o) (op_px o) (op_q o)
  else if kind o =? 1 then OpCancel (op_id o) 0
  else OpReplace (op_id o) (op_id2 o) (op_px o) (op_q o).

Definition run_ops {B} `{MatchingBook B} (ops : list Op) (b : B) : option (list OpResult * B) := run (map call ops) b.

(** The measured loop of [bench_book]: each call, then its duration. *)
Fixpoint timed_ops {B} `{MatchingBook B} (ops : list (Op * Z)) (b : B) (h : Histogram.LatencyHistogram)
    : outcome (B * Histogram.LatencyHistogram) :=
  match ops with
  | [] => Ok (b, h)
  | (o, ns) :: ops =>
      '(_, b) ← deref (mb_step (call o) b);
      h ← Histogram.record ns h;
      timed_ops ops b h
  end.

(** ** The stream is valid *)

(** The id an operation brings into the book. *)
Definition new_id (op : BookOp) : option OrderId :=
  match op with OpAdd id _ _ _ => Some id | OpReplace _ id _ _ => Some id | OpCancel _ _ => None end.

Lemma enter_ids id side px qty b b' rem evs i :
  Spec.wf b -> 0 <= qty -> Spec.enter id side px qty b = (b', rem, evs) -> i ∈ Spec.ids b' -> i ∈ Spec.ids b \/ i = id.
Proof.
  unfold Spec.enter. intros Hwf Hq H Hi. destruct (Spec.match_ _ _ _ _ _) as [[b1 r] ev] eqn:Hm.
  apply Spec.match_wf in Hm as (_ & _ & _ & Hids & _); [|done|lia].
  destruct (r =? 0); injection H as <- <- <-; [left; by apply Hids|].
  rewrite Spec.ids_rest in Hi. apply elem_of_cons in Hi as [->|Hi]; [by right|left; by apply Hids].
Qed.

Lemma reduce_ids s px id q b i : i ∈ Spec.ids (Spec.reduce s px id q b) -> i ∈ Spec.ids b.
Proof.
  unfold Spec.reduce. rewrite (Spec.ids_levels s), (Spec.ids_levels s b). autorewrite with spec.
  rewrite !elem_of_app. intros [Hin|Hin]; [left|by right].
  eapply elem_of_sublist; [exact Hin|]. apply Spec.cut_ids. intros os. by rewrite Spec.set_qty_ids.
Qed.

Lemma step_ids op b r b' evs i :
  Spec.wf b -> op_ok op -> Spec.step op b = (r, b', evs) -> i ∈ Spec.ids b' -> i ∈ Spec.ids b \/ new_id op = Some i.
Proof.
  intros Hwf Hok H Hi. destruct op as [id side px qty|id keep|old new px qty]; cbn [Spec.step op_ok new_id] in *.
  - unfold Spec.add in H. destruct (px <=? 0); [injection H as <- <- <-; by left|].
    destruct (qty =? 0); [injection H as <- <- <-; by left|].
    destruct (Spec.contains id b); [injection H as <- <- <-; by left|].
    destruct (Spec.enter _ _ _ _ _) as [[b1 rem] ev] eqn:He. injection H as <- <- <-.
    destruct Hok as [_ [Hq _]]. destruct (enter_ids _ _ _ _ _ _ _ _ i Hwf Hq He Hi) as [|Hx]; [by left|right; congruence].
  - left. unfold Spec.cancel in H. destruct (Spec.find_order id b) as [[[s px] q]|]; [|by injection H as <- <- <-].
    destruct (q <=? keep); [by injection H as <- <- <-|]. destruct (keep =? 0); injection H as <- <- <-.
    + by eapply Spec.remove_ids.
    + by eapply reduce_ids.
  - unfold Spec.replace in H. destruct (Spec.find_order old b) as [[[s opx] oq]|]; [|injection H as <- <- <-; by left].
    destruct (_ || Spec.contains new b); [injection H as <- <- <-; by left|].
    destruct (_ || (qty =? 0)); [injection H as <- <- <-; by left|].
    destruct (Spec.would_cross _ _ _).
    + destruct (Spec.enter _ _ _ _ _) as [[b1 rem] ev] eqn:He. injection H as <- <- <-. destruct Hok as [Hq _].
      destruct (enter_ids _ _ _ _ _ _ _ _ i (Spec.remove_wf s opx old b Hwf) Hq He Hi) as [Hx|Hx];
        [left; by eapply Spec.remove_ids|right; congruence].
    + injection H as <- <- <-. rewrite Spec.ids_rest in Hi.
      apply elem_of_cons in Hi as [->|Hi]; [by right|left; by eapply Spec.remove_ids].
Qed.

(** Every resting id is below [n]: so there are fewer than [n] of them. *)
Definition ids_below (n : Z) (b : Spec.Book) : Prop := forall i, i ∈ Spec.ids b -> 1 <= i < n.

Lemma ids_below_count n b : Spec.wf b -> 1 <= n -> ids_below n b -> Z.of_nat (length (Spec.ids b)) < n.
Proof.
  intros Hwf Hn Hb. assert (Spec.ids b ⊆+ seqZ 1 (n - 1)) as Hs%submseteq_length.
  { apply NoDup_submseteq; [apply Hwf|]. intros i Hi. apply elem_of_seqZ. apply Hb in Hi. lia. }
  rewrite length_seqZ in Hs. lia.
Qed.

(** What is true of an operation, made when [n] was the next id. *)
Record op_good (n : Z) (o : Op) (n' : Z) : Prop := {
  og_ok : op_ok (call o);
  og_narrow : op_narrow (call o);
  og_next : n <= n' <= n + 1;
  og_new : forall i, new_id (call o) = Some i -> n <= i < n';
  og_add : kind o = 0 -> call o = OpAdd n (op_side o) (op_px o) (op_q o) /\ 0 < op_px o /\ 0 < op_q o;
  og_target : kind o <> 0 -> 1 <= op_id o < n }.

Definition targets (ops : list Op) : list OrderId := omap (fun o => if kind o =? 0 then None else Some (op_id o)) ops.
Definition added (ops : list Op) : list OrderId := omap (fun o => if kind o =? 0 then Some (op_id o) else None) ops.

Lemma make_op_spec d m :
  draw_ok d -> 1 <= next m -> next m + 1 < 2 ^ 64 -> Forall (fun i => 1 <= i < next m) (live m) ->
  exists o m', make_op d m = Ok (o, m') /\ op_good (next m) o (next m') /\ Forall (fun i => 1 <= i < next m') (live m') /\
    exists lost, live m ++ added [o] ≡ₚ live m' ++ targets [o] ++ lost.
Proof.
  intros (Hr & Hw & Ht & Hq) Hn Hb Hl. unfold make_op. rewrite (wrap_small 64 (next m + 1)) by (unfold fits; lia).
  assert (mid + d_tick d * cent = 1000000 + d_tick d * 100) as Ep
    by (unfold mid, cent, Prices.make_price, Prices.kPriceScale; lia). rewrite Ep.
  destruct ((d_roll d <? 55) || (length (live m) =? 0)%nat) eqn:E.
  - eexists _, _. split; [reflexivity|]. cbn [live next]. split; [|split].
    + split; cbn [kind op_id op_id2 op_side op_px op_q]; try done; try lia.
      * unfold call. cbn. split; [destruct (Z.odd _); [by left|by right]|unfold fits; lia].
      * unfold call. cbn. lia.
      * unfold call. cbn. intros i [= <-]. lia.
      * intros _. split; [done|lia].
    + assert (Forall (fun i => 1 <= i < next m + 1) (live m ++ [next m])) as Hl'.
      { apply Forall_app. split; [eapply Forall_impl; [exact Hl|]; cbn; lia|]. constructor; [lia|constructor]. }
      destruct (20000 <? _); [by apply Forall_drop|done].
    + unfold added, targets. cbn [omap list_omap kind op_id Z.eqb app].
      destruct (20000 <? _); [|exists []; by rewrite app_nil_r].
      exists (take 10000 (live m ++ [next m])). etrans; [|apply Permutation_app_comm]. by rewrite take_drop.
  - apply orb_false_iff in E as [Eroll Elen]. apply Nat.eqb_neq in Elen.
    set (k := Z.to_nat (d_word d mod lengthZ (live m))).
    assert (k < length (live m))%nat as Hk.
    { pose proof (Z.mod_pos_bound (d_word d) (lengthZ (live m)) ltac:(unfold lengthZ; lia)). unfold k, lengthZ in *. lia. }
    destruct (lookup_lt_is_Some_2 (live m) k Hk) as [id Hid]. rewrite Hid. cbn [deref]. rewrite outcome_bind_Ok.
    assert (1 <= id < next m) as Hidr by (rewrite Forall_lookup in Hl; by eapply Hl).
    assert (Forall (fun i => 1 <= i < next m) (delete k (live m))) as Hdel by (by apply Forall_delete).
    assert (live m ≡ₚ delete k (live m) ++ [id]) as Hperm by (rewrite Permutation_app_comm; by apply delete_Permutation).
    destruct (d_roll d <? 80); (eexists _, _; split; [reflexivity|]; cbn [live next]; split; [|split]).
    + split; cbn [kind op_id op_id2 op_side op_px op_q]; try done; try lia; unfold call; cbn; (done || unfold fits; lia).
    + done.
    + unfold added, targets. cbn [omap list_omap kind op_id Z.eqb app]. exists []. by rewrite !app_nil_r.
    + split; cbn [kind op_id op_id2 op_side op_px op_q]; try done; try lia; unfold call; cbn; [unfold fits; lia|lia|intros i [= <-]; lia].
    + eapply Forall_impl; [exact Hdel|]. cbn. lia.
    + unfold added, targets. cbn [omap list_omap kind op_id Z.eqb app]. exists []. by rewrite !app_nil_r.
Qed.

(** The calls of a stream on the abstract book: there is always room, and every
    add succeeds. *)
Definition add_succeeds (o : Op) (r : OpResult) : Prop :=
  kind o = 0 -> exists filled resting, r = RAdd (mkAddResult AddOk filled resting).

Lemma make_ops_spec ds : forall m b,
  Forall draw_ok ds -> 1 <= next m -> next m + lengthZ ds <= FastBook.kNil ->
  Forall (fun i => 1 <= i < next m) (live m) -> Spec.wf b -> ids_below (next m) b ->
  exists ops rs b' evs, make_ops_from ds m = Ok ops /\ length ops = length ds /\ Forall op_ok (map call ops) /\
    Forall op_narrow (map call ops) /\ spec_run (map call ops) b = (rs, b', evs) /\ within (Some FastBook.kNil) (map call ops) b = true /\
    Forall2 add_succeeds ops rs /\
    exists rest, live m ++ added ops ≡ₚ targets ops ++ rest.
Proof.
  induction ds as [|d ds IH]; intros m b Hd Hn Hb Hl Hwf Hids; cbn [make_ops_from].
  { exists [], [], b, []. split_and!; try done; try constructor. exists (live m). by rewrite app_nil_r. }
  apply Forall_cons in Hd as [Hd Hds]. pose proof (lengthZ_nonneg ds).
  assert (lengthZ (d :: ds) = lengthZ ds + 1) as El by (unfold lengthZ; cbn [length]; lia).
  destruct (make_op_spec d m Hd Hn) as (o & m' & -> & [G1 G6 G2 G3 G4 G5] & Hl' & lost & Hp);
    [unfold FastBook.kNil in Hb; lia|done|].
  rewrite outcome_bind_Ok. destruct (Spec.step (call o) b) as [[r b1] evs1] eqn:Es.
  assert (Spec.wf b1) as Hwf1 by (eapply trace_wf, step_trace; done).
  assert (ids_below (next m') b1) as Hids1.
  { intros i Hi. destruct (step_ids _ _ _ _ _ i Hwf G1 Es Hi) as [Ho|Hnew]; [apply Hids in Ho; lia|].
    apply G3 in Hnew. lia. }
  destruct (IH m' b1 Hds ltac:(lia) ltac:(lia) Hl' Hwf1 Hids1) as
    (ops & rs & b2 & evs2 & -> & Hlen & Hok & Hnar & Hrun & Hwi & Hadd & rest & Hrest).
  rewrite outcome_bind_Ok. exists (o :: ops), (r :: rs), b2, (evs1 ++ evs2). split_and!.
  - done.
  - cbn. by rewrite Hlen.
  - by constructor.
  - by constructor.
  - cbn [map spec_run]. by rewrite Es, Hrun.
  - cbn [map within]. rewrite Es, Hwi, andb_true_r. cbn [below]. apply Z.ltb_lt.
    pose proof (ids_below_count _ _ Hwf Hn Hids). lia.
  - constructor; [|done]. intros Hk. destruct (G4 Hk) as (Hc & Hpx & Hq). rewrite Hc in Es. cbn [Spec.step] in Es.
    unfold Spec.add in Es. destruct (Z.leb_spec (op_px o) 0); [lia|]. destruct (Z.eqb_spec (op_q o) 0); [lia|].
    destruct (Spec.contains (next m) b) eqn:Hcon.
    { apply Spec.contains_spec, Hids in Hcon. lia. }
    destruct (Spec.enter _ _ _ _ _) as [[b0 rem] ev]. injection Es as <- _ _. eauto.
  - exists (rest ++ lost).
    assert (added (o :: ops) = added [o] ++ added ops) as -> by (unfold added; by rewrite <- omap_app).
    assert (targets (o :: ops) = targets [o] ++ targets ops) as -> by (unfold targets; by rewrite <- omap_app).
    rewrite app_assoc, Hp. transitivity ((live m' ++ added ops) ++ targets [o] ++ lost); [solve_Permutation|].
    rewrite Hrest. solve_Permutation.
Qed.

(** Measuring does not change what is measured. *)
Lemma timed_ops_run {B} `{MatchingBook B} ops : forall b h rs b' h' ns,
  run_ops ops b = Some (rs, b') -> length ns = length ops -> Histogram.record_all ns h = Ok h' ->
  timed_ops (zip ops ns) b h = Ok (b', h').
Proof.
  unfold run_ops. induction ops as [|o ops IH]; intros b h rs b' h' ns Hr Hl Hh; destruct ns as [|n ns]; try done.
  - cbn in *. by simplify_eq.
  - cbn [run map] in Hr. apply bind_Some in Hr as ([r b1] & E1 & Hr). apply bind_Some in Hr as ([rs1 b2] & E2 & Hr).
    cbn [Histogram.record_all] in Hh. simplify_eq.
    destruct (Histogram.record n h) as [h1| |] eqn:E3; [|done..]. rewrite outcome_bind_Ok in Hh.
    cbn [zip zip_with timed_ops]. rewrite E1. cbn [deref]. rewrite outcome_bind_Ok, E3, outcome_bind_Ok.
    cbn in Hl. eapply IH; [done|lia|done].
Qed.

(** The benchmark compares like with like. Whatever numbers [make_ops] draws
    (within the ranges it draws them from), for any number of operations below
    2^32 - 1: the stream can be made, no add in it is refused, every cancel and
    replace names the id of an earlier add and no id is named twice; and the
    fast book and the reference book, run on it, return the same results and
    make the same listener calls. The loop that times every call ends with the
    same book, whatever the durations, and a histogram of exactly these. *)
Theorem benchmark_streams_agree cfg ds :
  cfg_ok cfg -> Forall draw_ok ds -> 1 + lengthZ ds <= FastBook.kNil ->
  exists ops rs b0 bf br, make_ops ds = Ok ops /\ length ops = length ds /\
    targets ops ⊆+ added ops /\ fast_book cfg = Some b0 /\
    @run_ops _ (FastBook_matching b0) ops b0 = Some (rs, bf) /\ run_ops ops OrderBook.empty = Some (rs, br) /\
    Forall2 add_succeeds ops rs /\ FastBook.listener_ bf = OrderBook.listener_ br /\
    forall ns, length ns = length ops -> Forall (fits 64) ns ->
      exists h, @timed_ops _ (FastBook_matching b0) (zip ops ns) b0 Histogram.empty = Ok (bf, h) /\ Histogram.Rep h ns.
Proof.
  intros Hcfg Hds Hn.
  destruct (make_ops_spec ds (mkMaker [] 1) Spec.empty) as
    (ops & rs & sp & evs & Hm & Hlen & Hok & Hnar & Hs & Hw & Hadd & rest & Hp);
    [done|cbn; lia|cbn [next]; lia|constructor|apply Spec.empty_wf|intros i Hi; by apply elem_of_nil in Hi|].
  destruct (fast_run_spec cfg _ _ _ _ Hcfg (narrow_calls _ _ Hcfg Hok Hnar) Hw Hs) as (bf & Hf & _ & Hlf & _).
  destruct (reference_run_spec _ _ _ _ Hok Hs) as (br & Hr & _ & Hlr).
  unfold fast_run in Hf. apply bind_Some in Hf as (b0 & Hb0 & Hf).
  exists ops, rs, b0, bf, br. split_and!; try done; [|congruence|].
  - cbn [app live] in Hp. rewrite Hp. by apply submseteq_inserts_r.
  - intros ns Hns Hfit.
    destruct (Histogram.record_all_rep ns Histogram.empty [] Histogram.histogram_empty_rep Hfit) as (h & Hh & Hrep).
    { unfold lengthZ in *. cbn [length]. unfold FastBook.kNil in Hn. lia. }
    exists h. split; [by eapply timed_ops_run|]. rewrite app_nil_r in Hrep.
    eapply Histogram.rep_perm; [|exact Hrep]. symmetry. apply Permutation_rev.
Qed.

Lemma benchmark_streams_agree_witness :
  exists ops rs b0 bf br, make_ops [mkDraw 10 1 5 100; mkDraw 20 2 (-5) 50; mkDraw 90 3 4 10; mkDraw 60 8 0 1] = Ok ops /\
    fast_book demo_cfg = Some b0 /\
    @run_ops _ (FastBook_matching b0) ops b0 = Some (rs, bf) /\ run_ops ops OrderBook.empty = Some (rs, br) /\
    FastBook.listener_ bf = OrderBook.listener_ br.
Proof.
  destruct (benchmark_streams_agree demo_cfg
    [mkDraw 10 1 5 100; mkDraw 20 2 (-5) 50; mkDraw 90 3 4 10; mkDraw 60 8 0 1] demo_cfg_ok)
    as (ops & rs & b0 & bf & br & Hm & _ & _ & Hb & Hf & Hr & _ & Hl & _).
  - repeat (constructor; [unfold draw_ok, fits; cbn; lia|]). constructor.
  - by vm_compute.
  - exists ops, rs, b0, bf, br. split; [exact Hm|]. split; [exact Hb|]. split; [exact Hf|]. split; [exact Hr|exact Hl].
Defined.

(** ** Latencies *)

(** [OpenLoopHandler]; [hist] is null during the warm-up. *)
Record OpenLoop := mkOpenLoop {
  intended : list Z;
  hist : option Histogram.LatencyHistogram;
  recv : nat }.

Definition on_accepted (now : Z) (h : OpenLoop) : outcome OpenLoop :=
  match hist h with
  | None => Ok (mkOpenLoop (intended h) None (S (recv h)))
  | Some hs =>
      t ← deref (intended h !! recv h);
      hs ← Histogram.record (u64 (now - t)) hs;
      Ok (mkOpenLoop (intended h) (Some hs) (S (recv h)))
  end.

Fixpoint all_accepted (nows : list Z) (h : OpenLoop) : outcome OpenLoop :=
  match nows with
  | [] => Ok h
  | now :: nows => h ← on_accepted now h; all_accepted nows h
  end.

(** [intended]: a fixed interval from one millisecond after [now]. *)
Definition schedule (now rate_hz : Z) (n : nat) : list Z :=
  let interval := 1000000000 / rate_hz in
  let start := u64 (now + 1000000) in
  map (fun i => u64 (start + u64 (Z.of_nat i * interval))) (seq 0 n).

(** [while (sent < n && now >= intended[sent])]: the orders due now. *)
Fixpoint due (fuel : nat) (intended : list Z) (now : Z) (sent : nat) : outcome (list nat) :=
  match fuel with
  | O => Ok []
  | S fuel =>
      if (sent <? length intended)%nat then
        t ← deref (intended !! sent);
        if t <=? now then rest ← due fuel intended now (S sent); Ok (sent :: rest) else Ok []
      else Ok []
  end.

Definition send_due (intended : list Z) (now : Z) (sent : nat) : outcome (list nat) :=
  due (length intended - sent) intended now sent.

(** The orders, of the warm-up and measured. *)
Definition loop_order (prefix : Z) (i : nat) : ClientPaths.Order :=
  ClientPaths.OEnter (numbered prefix (Z.of_nat i)) (if Nat.odd i then Buy else Sell) (str "AAPL")
    (Prices.make_price 100 0) 100.

Definition loop_orders (n : nat) : list ClientPaths.Order :=
  map (loop_order (chr "W")) (seq 0 5000) ++ map (loop_order (chr "B")) (seq 0 n).

Section Schedule.
Context (now rate_hz : Z) (n : nat).
Hypothesis (Hnow : 0 <= now) (Hrate : 0 < rate_hz)
  (Hfits : now + 1000000 + Z.of_nat n * (1000000000 / rate_hz) < 2 ^ 64).

Definition planned (i : nat) : Z := now + 1000000 + Z.of_nat i * (1000000000 / rate_hz).

Lemma planned_mono i j : (i <= j)%nat -> planned i <= planned j.
Proof.
  intros Hij. unfold planned. pose proof (Z.div_pos 1000000000 rate_hz ltac:(lia) Hrate). nia.
Qed.

Lemma schedule_lookup i : schedule now rate_hz n !! i = if decide (i < n)%nat then Some (planned i) else None.
Proof.
  unfold schedule. cbv zeta. rewrite list_lookup_fmap. destruct (decide (i < n)%nat) as [Hi|Hi].
  - rewrite lookup_seq_lt by done. cbn. f_equal. unfold planned.
    pose proof (Z.div_pos 1000000000 rate_hz ltac:(lia) Hrate).
    rewrite wrap_add_l, wrap_add_r, wrap_small; [lia|]. unfold fits. nia.
  - rewrite lookup_seq_ge by lia. done.
Qed.

Lemma length_schedule : length (schedule now rate_hz n) = n.
Proof. unfold schedule. by rewrite length_map, length_seq. Qed.

Lemma due_spec t : forall fuel sent, fuel = (n - sent)%nat ->
  exists l, due fuel (schedule now rate_hz n) t sent = Ok l /\ l = seq sent (length l) /\
    forall i, i ∈ l <-> (sent <= i < n)%nat /\ planned i <= t.
Proof.
  induction fuel as [|fuel IH]; intros sent Hf; cbn [due].
  { exists []. split_and!; [done..|]. intros i. split; [by intros ?%elem_of_nil|lia]. }
  rewrite length_schedule. destruct (Nat.ltb_spec sent n); [|lia].
  rewrite schedule_lookup, decide_True by done. cbn [deref]. rewrite outcome_bind_Ok.
  destruct (Z.leb_spec (planned sent) t) as [Ht|Ht].
  - destruct (IH (S sent) ltac:(lia)) as (l & -> & Hl & Hin). rewrite outcome_bind_Ok.
    exists (sent :: l). split_and!; [done|cbn [length seq]; by rewrite <- Hl|].
    intros i. rewrite elem_of_cons, Hin. split; [intros [->|[? ?]]; split; (lia || done)|].
    intros [Hi Hp]. destruct (decide (i = sent)); [by left|right; split; [lia|done]].
  - exists []. split_and!; [done..|]. intros i. split; [by intros ?%elem_of_nil|].
    intros [Hi Hp]. pose proof (planned_mono sent i ltac:(lia)). lia.
Qed.
End Schedule.

(** Acknowledgement [k] is measured from the time order [k] was planned for. *)
Lemma all_accepted_spec sched nows : forall k hs,
  (k + length nows <= length sched)%nat ->
  all_accepted nows (mkOpenLoop sched (Some hs) k) =
    (hs ← Histogram.record_all (zip_with (fun now t => u64 (now - t)) nows (drop k sched)) hs;
     Ok (mkOpenLoop sched (Some hs) (k + length nows))).
Proof.
  induction nows as [|now nows IH]; intros k hs Hk; cbn [all_accepted length] in *.
  { cbn. by rewrite Nat.add_0_r. }
  destruct (lookup_lt_is_Some_2 sched k ltac:(lia)) as [t Ht]. unfold on_accepted. cbn [hist intended recv].
  rewrite Ht, (drop_S _ _ _ Ht). cbn [deref zip_with Histogram.record_all]. rewrite outcome_bind_Ok.
  destruct (Histogram.record _ hs) as [hs'| |]; [|done|done]. rewrite !outcome_bind_Ok, IH by lia.
  by replace (k + S (length nows))%nat with (S k + length nows)%nat by lia.
Qed.

Lemma loop_order_msg prefix i :
  Z.of_nat i < 2 ^ 31 -> entered (ClientPaths.order_msg (loop_order prefix i)) = Some (numbered prefix (Z.of_nat i)) /\
  plain (ClientPaths.order_msg (loop_order prefix i)).
Proof.
  intros Hi. unfold loop_order. cbn [ClientPaths.order_msg entered plain Ouch.eo_token].
  rewrite numbered_view by lia. split; [done|]. unfold refusal. cbn. by destruct (Nat.odd i).
Qed.

Lemma loop_orders_entered prefix n :
  Z.of_nat n <= 2 ^ 31 ->
  omap entered (map ClientPaths.order_msg (map (loop_order prefix) (seq 0 n))) =
    map (fun i => numbered prefix (Z.of_nat i)) (seq 0 n) /\
  Forall plain (map ClientPaths.order_msg (map (loop_order prefix) (seq 0 n))).
Proof.
  intros Hn. assert (Forall (fun i => Z.of_nat i < 2 ^ 31) (seq 0 n)) as Hs.
  { apply Forall_forall. intros i Hi%elem_of_seq. lia. }
  induction Hs as [|i l Hi _ [IH1 IH2]]; [done|]. cbn [map omap list_omap].
  destruct (loop_order_msg prefix i Hi) as [-> Hp]. split; [by f_equal|by constructor].
Qed.

Lemma loop_tokens_distinct prefix n :
  Z.of_nat n <= 2 ^ 31 -> NoDup (map (fun i => numbered prefix (Z.of_nat i)) (seq 0 n)).
Proof.
  intros Hn. apply NoDup_ListNoDup, List.NoDup_map_NoDup_ForallPairs.
  - intros x y Hx%list_elem_of_In%elem_of_seq Hy%list_elem_of_In%elem_of_seq E.
    destruct (numbered_inj prefix prefix (Z.of_nat x) (Z.of_nat y)); [lia|lia|by rewrite E|lia].
  - apply NoDup_ListNoDup, NoDup_seq.
Qed.

(** The open loop. Orders are planned at a fixed interval. Whenever the
    loop looks at the clock, it sends exactly the orders that are due and not
    yet sent, in order, however many acknowledgements are outstanding. The
    latency recorded with acknowledgement number k is the time since order k was
    planned; and since the engine, whatever other clients do, acknowledges the
    measured orders in the order they were sent and refuses none, that is the
    latency of the same order. *)
Theorem open_loop_measures_schedule now rate_hz n :
  0 <= now -> 0 < rate_hz -> Z.of_nat n < 2 ^ 31 ->
  now + 1000000 + Z.of_nat n * (1000000000 / rate_hz) < 2 ^ 64 ->
  (forall t sent, exists l, send_due (schedule now rate_hz n) t sent = Ok l /\ l = seq sent (length l) /\
    forall i, i ∈ l <-> (sent <= i < n)%nat /\ now + 1000000 + Z.of_nat i * (1000000000 / rate_hz) <= t) /\
  (forall nows, (length nows <= n)%nat ->
    all_accepted nows (mkOpenLoop (schedule now rate_hz n) (Some Histogram.empty) 0) =
      (hs ← Histogram.record_all (zip_with (fun t i => u64 (t - i)) nows (schedule now rate_hz n)) Histogram.empty;
       Ok (mkOpenLoop (schedule now rate_hz n) (Some hs) (length nows)))) /\
  forall c cmds e, session_ok cmds -> messages_of c cmds = map ClientPaths.order_msg (loop_orders n) ->
    engine_run cmds = Some e ->
    answers c (Engine.to_gateway_ e) =
      Acknowledged <$> (map (fun i => numbered (chr "W") (Z.of_nat i)) (seq 0 5000) ++
                        map (fun i => numbered (chr "B") (Z.of_nat i)) (seq 0 n)).
Proof.
  intros Hnow Hrate Hn Hfits. split; [|split].
  - intros t sent. unfold send_due. rewrite length_schedule.
    by apply (due_spec now rate_hz n Hnow Hrate Hfits t).
  - intros nows Hl. by rewrite all_accepted_spec by (rewrite length_schedule; lia).
  - intros c cmds e Hs Hc He.
    destruct (loop_orders_entered (chr "W") 5000 ltac:(lia)) as [EW PW].
    destruct (loop_orders_entered (chr "B") n ltac:(lia)) as [EB PB].
    assert (omap entered (messages_of c cmds) = map (fun i => numbered (chr "W") (Z.of_nat i)) (seq 0 5000) ++
      map (fun i => numbered (chr "B") (Z.of_nat i)) (seq 0 n)) as Hent
      by (rewrite Hc; unfold loop_orders; rewrite map_app, omap_app, EW, EB; reflexivity).
    destruct (flow_accepted c cmds (@Engine.init Fast) e He) as (rs & Hg & Ha).
    + rewrite Hc. unfold loop_orders. rewrite map_app. apply Forall_app. split; [exact PW|exact PB].
    + rewrite Hent. apply NoDup_app. split_and!.
      * apply loop_tokens_distinct. lia.
      * intros x (i & -> & _)%list_elem_of_fmap (j & Hj & _)%list_elem_of_fmap. discriminate.
      * apply loop_tokens_distinct. lia.
    + intros t _. apply not_elem_of_empty.
    + rewrite Hg. cbn [Engine.init Engine.to_gateway_ app]. rewrite Ha, Hent. reflexivity.
Qed.

Lemma open_loop_measures_schedule_witness :
  exists l, send_due (schedule 5 50000 100) (5 + 1000000 + 45000) 0 = Ok l /\ l = seq 0 (length l).
Proof.
  destruct (open_loop_measures_schedule 5 50000 100) as [H _]; [lia|lia|lia|by vm_compute|].
  destruct (H (5 + 1000000 + 45000) 0%nat) as (l & Hl & Hs & _). exists l. split; [exact Hl|exact Hs].
Defined.
End Bench.
