(* ===== verification/PingPong.v ===== *)
(** The queue benchmark ([bench_queue] of [apps/bench.cpp]): a token goes round
    between two threads through a pair of queues, and half of each round trip is
    recorded.

    The two threads are written once, over what they use of a queue ([Hop]); the
    mutex-guarded queue and the lock-free ring are its instances. A call on a
    queue is one step. With the ring a poll may also read an old index and find
    nothing, and a push an old index and find the ring full; the threads then
    try again, which changes nothing. *)

From S2P Require Import Prelude SpscRing Channel Text Histogram.

Module PingPong.

Definition kRounds : Z := 200000.

(** ** Queues *)

(** [push] is [None] while there is no room, [wait] while there is nothing to
    take. *)
Class Hop (Q : Type) := {
  empty : Q;
  push : Z -> Q -> option Q;
  wait : Q -> outcome (option (list Z * Q));
  poll : Q -> outcome (list Z * Q);
  stop : Q -> Q;
  may_miss : bool }.

Class HopLaws (Q : Type) `{Hop Q} := {
  holds : Q -> list Z -> Prop;
  empty_holds : holds empty [];
  push_holds q v : holds q [] -> exists q', push v q = Some q' /\ holds q' [v];
  wait_none q : holds q [] -> wait q = Ok None;
  wait_one q v : holds q [v] -> exists q', wait q = Ok (Some ([v], q')) /\ holds q' [];
  poll_none q : holds q [] -> exists q', poll q = Ok ([], q') /\ holds q' [];
  poll_one q v : holds q [v] -> exists q', poll q = Ok ([v], q') /\ holds q' [] }.

#[export] Instance mutex_hop : Hop (Mpsc.Queue Z) := {|
  empty := Mpsc.init;
  push v q := Some (Mpsc.push v q);
  wait q := Ok (Mpsc.wait_drain q);
  poll q := Ok (Mpsc.drain q);
  stop := Mpsc.stop;
  may_miss := false |}.

(** [SpscRing<std::uint64_t, 4096>]. *)
Definition ring_bits : Z := 12.

#[export] Instance ring_hop : Hop (@SpscRing.Ring Z) := {|
  empty := SpscRing.init ring_bits;
  push v q := let (ok, q') := SpscRing.try_push ring_bits v q in if ok then Some q' else None;
  wait q := '(v, q') ← SpscRing.try_pop ring_bits q;
            Ok (match v with Some v => Some ([v], q') | None => None end);
  poll q := '(v, q') ← SpscRing.try_pop ring_bits q;
            Ok (match v with Some v => ([v], q') | None => ([], q') end);
  stop q := q;
  may_miss := true |}.

#[export] Program Instance mutex_hop_laws : HopLaws (Mpsc.Queue Z) := {|
  holds q l := Mpsc.items_ q = l /\ Mpsc.stopped_ q = false |}.
Next Obligation. done. Qed.
Next Obligation. intros q v [Hq Hs]. eexists. split; [done|]. cbn. by rewrite Hq. Qed.
Next Obligation. intros q [Hq Hs]. cbn. unfold Mpsc.wait_drain, Mpsc.ready. by rewrite Hq, Hs. Qed.
Next Obligation.
  intros q v [Hq Hs]. cbn. unfold Mpsc.wait_drain, Mpsc.ready, Mpsc.drain. rewrite Hq. cbn. by eexists.
Qed.
Next Obligation. intros q [Hq Hs]. cbn. unfold Mpsc.drain. rewrite Hq. by eexists. Qed.
Next Obligation. intros q v [Hq Hs]. cbn. unfold Mpsc.drain. rewrite Hq. by eexists. Qed.

Lemma ring_pop (q : @SpscRing.Ring Z) h l :
  SpscRing.Rep ring_bits q h l ->
  match l with
  | [] => SpscRing.try_pop ring_bits q = Ok (None, q)
  | v :: l => exists q', SpscRing.try_pop ring_bits q = Ok (Some v, q') /\ SpscRing.Rep ring_bits q' (h + 1) l
  end.
Proof. apply SpscRing.try_pop_Rep. done. Qed.

#[export] Program Instance ring_hop_laws : HopLaws (@SpscRing.Ring Z) := {|
  holds q l := exists h, SpscRing.Rep ring_bits q h l |}.
Next Obligation. exists 0. by apply SpscRing.init_Rep. Qed.
Next Obligation.
  intros q v [h Hq]. cbn. destruct (SpscRing.try_push_Rep ring_bits ltac:(done) _ _ _ v Hq) as (q' & -> & Hq').
  eexists. split; [done|]. by exists h.
Qed.
Next Obligation. intros q [h Hq]. cbn. by rewrite (ring_pop _ _ _ Hq). Qed.
Next Obligation. intros q v [h Hq]. cbn. destruct (ring_pop _ _ _ Hq) as (q' & -> & Hq'). eexists. split; [done|]. by eexists. Qed.
Next Obligation. intros q [h Hq]. cbn. rewrite (ring_pop _ _ _ Hq). eexists. split; [done|]. by exists h. Qed.
Next Obligation. intros q v [h Hq]. cbn. destruct (ring_pop _ _ _ Hq) as (q' & -> & Hq'). eexists. split; [done|]. by eexists. Qed.

(** ** The two threads *)

(** [Sending i] with [i = kRounds] is the end of the loop. *)
Inductive Main := Sending (i : Z) | Pushing (i t0 : Z) | Waiting (i t0 : Z) | Joining | Done.
Inductive Echo := Holding (vs : list Z) | Returned.

(** The value of [done] after one batch. *)
Definition done_after (i : Z) (vs : list Z) : bool := fold_left (fun _ v => v =? i) vs false.

Section Threads.
Context {Q : Type} `{Hop Q}.

Record Bench := mkBench {
  main : Main;
  echo : Echo;
  got : Z;
  ping : Q;
  pong : Q;
  hist : Histogram.LatencyHistogram }.

Definition start : Bench := mkBench (Sending 0) (Holding []) 0 empty empty Histogram.empty.

(** A new round begins with a look at the clock. *)
Inductive step (x : Bench) : Bench -> Prop :=
  | main_clock i now : main x = Sending i -> i < kRounds ->
      step x (mkBench (Pushing i now) (echo x) (got x) (ping x) (pong x) (hist x))
  | main_push i t0 q : main x = Pushing i t0 -> push i (ping x) = Some q ->
      step x (mkBench (Waiting i t0) (echo x) (got x) q (pong x) (hist x))
  | main_polls i t0 vs q : main x = Waiting i t0 -> poll (pong x) = Ok (vs, q) -> done_after i vs = false ->
      step x (mkBench (Waiting i t0) (echo x) (got x) (ping x) q (hist x))
  | main_done i t0 vs q now h : main x = Waiting i t0 -> poll (pong x) = Ok (vs, q) -> done_after i vs = true ->
      Histogram.record (u64 (now - t0) / 2) (hist x) = Ok h ->
      step x (mkBench (Sending (i + 1)) (echo x) (got x) (ping x) q h)
  | main_stops : main x = Sending kRounds ->
      step x (mkBench Joining (echo x) (got x) (stop (ping x)) (pong x) (hist x))
  | main_joins : main x = Joining -> echo x = Returned ->
      step x (mkBench Done (echo x) (got x) (ping x) (pong x) (hist x))
  | echo_takes vs q : echo x = Holding [] -> got x < kRounds -> wait (ping x) = Ok (Some (vs, q)) ->
      step x (mkBench (main x) (Holding vs) (got x) q (pong x) (hist x))
  | echo_pushes v vs q : echo x = Holding (v :: vs) -> push v (pong x) = Some q ->
      step x (mkBench (main x) (Holding vs) (u64 (got x + 1)) (ping x) q (hist x))
  | echo_returns : echo x = Holding [] -> kRounds <= got x ->
      step x (mkBench (main x) Returned (got x) (ping x) (pong x) (hist x))
  | try_again : may_miss = true -> step x x.

Definition reachable (x : Bench) : Prop := rtc step start x.

(** ** One token *)

Context `{!HopLaws Q}.

(** Where the token of round [i] is. *)
Inductive round (x : Bench) (i : Z) : Prop :=
  | at_home : (main x = Sending i \/ i < kRounds /\ exists t0, main x = Pushing i t0) ->
      (echo x = Holding [] \/ i = kRounds /\ echo x = Returned) -> got x = i ->
      holds (ping x) [] -> holds (pong x) [] -> round x i
  | in_ping t0 : main x = Waiting i t0 -> i < kRounds -> echo x = Holding [] -> got x = i ->
      holds (ping x) [i] -> holds (pong x) [] -> round x i
  | in_hand t0 : main x = Waiting i t0 -> i < kRounds -> echo x = Holding [i] -> got x = i ->
      holds (ping x) [] -> holds (pong x) [] -> round x i
  | in_pong t0 : main x = Waiting i t0 -> i < kRounds ->
      (echo x = Holding [] \/ i + 1 = kRounds /\ echo x = Returned) -> got x = i + 1 ->
      holds (ping x) [] -> holds (pong x) [i] -> round x i
  | retired : (main x = Joining \/ main x = Done /\ echo x = Returned) -> i = kRounds ->
      (echo x = Holding [] \/ echo x = Returned) -> got x = kRounds -> holds (pong x) [] -> round x i.

Record binv (x : Bench) : Prop := mkBinv {
  bi_round : exists i vs, round x i /\ 0 <= i <= kRounds /\ Histogram.Rep (hist x) vs /\ lengthZ vs = i }.

Lemma start_binv : binv start.
Proof.
  split. exists 0, []. split_and!; [|done..|apply Histogram.histogram_empty_rep|done].
  apply at_home; cbn; auto using empty_holds.
Qed.

(** What a poll for the reply of round [i] finds. *)
Lemma poll_reply x i t0 vs q :
  round x i -> main x = Waiting i t0 -> poll (pong x) = Ok (vs, q) ->
  vs = [] /\ holds q [] /\ holds (pong x) [] \/
  vs = [i] /\ holds q [] /\ holds (pong x) [i] /\ holds (ping x) [] /\ i < kRounds /\ got x = i + 1 /\
    (echo x = Holding [] \/ i + 1 = kRounds /\ echo x = Returned).
Proof.
  intros Hr Hm Hp. destruct Hr as [Hm'|t0' Hm' ? ? ? ? Hq|t0' Hm' ? ? ? ? Hq|t0' Hm' ? ? ? ? Hq|Hm'].
  - destruct Hm' as [Hm'|(_ & t & Hm')]; congruence.
  - left. destruct (poll_none _ Hq) as (q' & E & Hq'). rewrite E in Hp. injection Hp as <- <-. done.
  - left. destruct (poll_none _ Hq) as (q' & E & Hq'). rewrite E in Hp. injection Hp as <- <-. done.
  - right. destruct (poll_one _ _ Hq) as (q' & E & Hq'). rewrite E in Hp. injection Hp as <- <-. by split_and!.
  - destruct Hm' as [Hm'|(Hm' & _)]; congruence.
Qed.

(** ** Every step is progress, or changes nothing *)

Definition main_left (m : Main) : Z :=
  match m with
  | Sending i => 3 * (kRounds - i) + 2
  | Pushing i _ => 3 * (kRounds - i) + 1
  | Waiting i _ => 3 * (kRounds - i)
  | Joining => 1
  | Done => 0
  end.

Definition echo_left (e : Echo) (got : Z) : Z :=
  match e with Holding vs => 2 * (kRounds - got) + 1 - lengthZ vs | Returned => 0 end.

Definition remaining (x : Bench) : Z := main_left (main x) + echo_left (echo x) (got x).

Lemma got_next i : 0 <= i < kRounds -> u64 (i + 1) = i + 1.
Proof. intros Hi. apply wrap_small. unfold fits, kRounds in *. lia. Qed.

(** The round, read off the main thread. *)
Lemma round_sending x i j :
  round x i -> main x = Sending j ->
  j = i /\ got x = i /\ (echo x = Holding [] \/ i = kRounds /\ echo x = Returned) /\
  holds (ping x) [] /\ holds (pong x) [].
Proof.
  intros [[Hm|(_ & t & Hm)] He Hg H1 H2| | | |[Hm|[Hm _]]] Hj; try congruence.
  rewrite Hm in Hj. injection Hj as ->. done.
Qed.

Lemma round_pushing x i j t0 :
  round x i -> main x = Pushing j t0 ->
  j = i /\ got x = i /\ i < kRounds /\ echo x = Holding [] /\ holds (ping x) [] /\ holds (pong x) [].
Proof.
  intros [[Hm|(Hk & t & Hm)] He Hg H1 H2| | | |[Hm|[Hm _]]] Hj; try congruence.
  rewrite Hm in Hj. injection Hj as -> ->. destruct He as [He|[-> _]]; [done|lia].
Qed.

Lemma round_waiting x i j t0 : round x i -> main x = Waiting j t0 -> j = i.
Proof. intros [[Hm|(Hk & t & Hm)]| | | |[Hm|[Hm _]]] Hj; congruence. Qed.

Lemma round_joining x i :
  round x i -> main x = Joining -> i = kRounds /\ got x = kRounds /\ holds (pong x) [].
Proof. intros [[Hm|(Hk & t & Hm)]| | | |[Hm|[Hm _]]] Hj; congruence || done. Qed.

Lemma main_step_inv x x' i vs0 :
  round x i -> 0 <= i <= kRounds -> Histogram.Rep (hist x) vs0 -> lengthZ vs0 = i ->
  step x x' -> main x' <> main x -> binv x' /\ remaining x' < remaining x.
Proof.
  intros Hr Hi Hh Hl Hs Hne. unfold remaining.
  destruct Hs as [j now Hm Hj|j t0 q Hm Hp|j t0 vs q Hm Hp Hd|j t0 vs q now h Hm Hp Hd Hh'|Hm|Hm He| | | |];
    cbn [main] in Hne; try congruence; rewrite ?Hm in Hne |- *; cbn [main echo got main_left].
  - destruct (round_sending _ _ _ Hr Hm) as (-> & Hg & He & H1 & H2).
    split; [|lia]. split. exists i, vs0. split_and!; try done; try lia.
    apply at_home; cbn; eauto.
  - destruct (round_pushing _ _ _ _ Hr Hm) as (-> & Hg & Hk & He & H1 & H2).
    destruct (push_holds _ i H1) as (q' & E & Hq). rewrite E in Hp. injection Hp as <-.
    split; [|lia]. split. exists i, vs0. split_and!; try done; try lia.
    eapply in_ping; cbn; eauto.
  - pose proof (round_waiting _ _ _ _ Hr Hm) as ->.
    destruct (poll_reply _ _ _ _ _ Hr Hm Hp) as [(-> & _)|(-> & H1 & _ & H2 & Hk & Hg & He)]; [done|].
    destruct (Histogram.record_rep (hist x) vs0 (u64 (now - t0) / 2) Hh) as (h' & E & Hrep).
    { pose proof (wrap_fits 64 (now - t0) ltac:(lia)) as [? ?]. split; [apply Z.div_pos; lia|].
      apply Z.div_lt_upper_bound; lia. }
    { unfold kRounds in *. lia. }
    rewrite E in Hh'. injection Hh' as <-. split; [|lia]. split.
    exists (i + 1), ((u64 (now - t0) / 2) :: vs0). split_and!; try done; try lia.
    + apply at_home; cbn; eauto.
    + unfold lengthZ in *. cbn [length]. lia.
  - destruct (round_sending _ _ _ Hr Hm) as (<- & Hg & He & H1 & H2).
    split; [|lia]. split. exists kRounds, vs0. split_and!; try done. apply retired; cbn; auto. naive_solver.
  - destruct (round_joining _ _ Hr Hm) as (-> & Hg & H2).
    split; [|lia]. split. exists kRounds, vs0. split_and!; try done. apply retired; cbn; auto.
Qed.

Lemma echo_step_inv x x' i vs0 :
  round x i -> 0 <= i <= kRounds -> Histogram.Rep (hist x) vs0 -> lengthZ vs0 = i ->
  step x x' -> main x' = main x -> binv x' /\ remaining x' <= remaining x.
Proof.
  intros Hr Hi Hh Hl Hs Hmain. unfold remaining.
  destruct Hs as [j now Hm Hj|j t0 q Hm Hp|j t0 vs q Hm Hp Hd|j t0 vs q now h Hm Hp Hd Hh'|Hm|Hm He
    |vs q He Hg Hw|v vs q He Hp|He Hg|Hmiss]; cbn [main] in Hmain; try congruence.
  - pose proof (round_waiting _ _ _ _ Hr Hm) as ->.
    destruct (poll_reply _ _ _ _ _ Hr Hm Hp) as [(-> & H1 & H2)|(-> & _)].
    2:{ unfold done_after in Hd. cbn in Hd. by rewrite Z.eqb_refl in Hd. }
    cbn [main echo got]. rewrite Hm. split; [|cbn [main_left]; lia]. split. exists i, vs0. split_and!; try done; try lia.
    destruct Hr as [[Hm'|(_ & t & Hm')]|t Hm'|t Hm'|t Hm' ? ? ? ? Hq|[Hm'|[Hm' _]]]; try congruence.
    + eapply in_ping; cbn; eauto.
    + eapply in_hand; cbn; eauto.
    + destruct (poll_one _ _ Hq) as (q' & E & _). congruence.
  - destruct Hr as [Hm Ho Hi' H1 H2|t0 Hm Hk He' Hi' H1 H2|t0 Hm Hk He'|t0 Hm Hk Ho Hi' H1 H2|Hm];
      try congruence; try lia.
    + rewrite (wait_none _ H1) in Hw. discriminate.
    + destruct (wait_one _ _ H1) as (q' & E & Hq). rewrite E in Hw. injection Hw as <- <-.
      cbn [main echo got]. rewrite He. split; [|unfold echo_left, lengthZ; cbn [length]; lia].
      split. exists i, vs0. split_and!; try done; try lia. eapply in_hand; cbn; eauto.
    + rewrite (wait_none _ H1) in Hw. discriminate.
  - destruct Hr as [Hm Ho Hi' H1 H2|t0 Hm Hk He'|t0 Hm Hk He' Hi' H1 H2|t0 Hm Hk Ho Hi' H1 H2|Hm Hk Ho];
      try congruence; try (destruct Ho as [?|?]; split_hyps; congruence).
    rewrite He in He'. injection He' as -> ->. destruct (push_holds _ i H2) as (q' & E & Hq).
    rewrite E in Hp. injection Hp as <-. cbn [main echo got]. rewrite He, Hi', got_next by lia.
    split; [|unfold echo_left, lengthZ; cbn [length]; lia].
    split. exists i, vs0. split_and!; try done; try lia. eapply in_pong; cbn; eauto.
  - cbn [main echo got]. rewrite He. split.
    + split. exists i, vs0. split_and!; try done; try lia.
      destruct Hr as [Hm Ho Hi' H1 H2|t0 Hm Hk He' Hi'|t0 Hm Hk He' Hi'|t0 Hm Hk Ho Hi' H1 H2|Hm Hk Ho Hi' H2];
        try lia.
      * apply at_home; cbn; auto. right. split; [lia|done].
      * eapply in_pong; cbn; eauto. right. split; [lia|done].
      * apply retired; cbn; auto. naive_solver.
    + unfold echo_left, lengthZ. cbn [length].
      destruct Hr; unfold kRounds in *; lia.
  - split; [|lia]. split. by exists i, vs0.
Qed.

Lemma step_binv x x' : binv x -> step x x' -> binv x' /\ remaining x' <= remaining x.
Proof.
  intros [(i & vs & Hr & Hi & Hh & Hl)] Hs.
  assert (main x' = main x \/ main x' <> main x) as [E|E].
  { destruct (main x'), (main x); try (right; congruence); [..|by left|by left].
    all: destruct (decide (i0 = i1)) as [->|]; try (right; congruence).
    2,3: destruct (decide (t0 = t1)) as [->|]; [|right; congruence]. all: by left. }
  - by eapply echo_step_inv.
  - destruct (main_step_inv _ _ _ _ Hr Hi Hh Hl Hs E). split; [done|lia].
Qed.

Lemma reachable_binv x : reachable x -> binv x.
Proof.
  unfold reachable. intros Hx. pose proof start_binv as Hb.
  induction Hx as [|x y z Hxy _ IH]; [done|]. apply IH. by eapply step_binv.
Qed.

(** ** The end *)

Definition finished (x : Bench) : Prop :=
  main x = Done /\ echo x = Returned /\ Histogram.count_ (hist x) = kRounds /\ got x = kRounds /\ holds (pong x) [].

Lemma progress x : binv x -> finished x \/ exists x', step x x' /\ remaining x' < remaining x.
Proof.
  intros Hb. pose proof Hb as [(i & vs & Hr & Hi & Hh & Hl)].
  enough (finished x \/ exists x', step x x' /\ (main x' <> main x \/ remaining x' < remaining x)) as [Hf|(x' & Hs & [E|E])].
  - by left.
  - right. exists x'. split; [done|]. by destruct (main_step_inv _ _ _ _ Hr Hi Hh Hl Hs E).
  - right. eauto.
  - destruct Hr as [Hm Ho Hg H1 H2|t0 Hm Hk He Hg H1 H2|t0 Hm Hk He Hg H1 H2|t0 Hm Hk Ho Hg H1 H2|Hm Hk Ho Hg H2].
    + right. destruct Hm as [Hm|(Hk & t & Hm)].
      * destruct (decide (i < kRounds)) as [Hk|Hk].
        -- eexists. split; [by apply (main_clock x i 0)|]. left. cbn. congruence.
        -- assert (i = kRounds) as -> by lia. eexists. split; [by apply main_stops|]. left. cbn. congruence.
      * destruct (push_holds _ i H1) as (q & E & _). eexists. split; [by eapply main_push|]. left. cbn. congruence.
    + right. destruct (wait_one _ _ H1) as (q & E & _). eexists. split; [apply (echo_takes x [i] q); [done|lia|done]|].
      right. unfold remaining. cbn [main echo got]. rewrite He. unfold echo_left, lengthZ. cbn [length]. lia.
    + right. destruct (push_holds _ i H2) as (q & E & _). eexists. split; [by apply (echo_pushes x i [] q)|].
      right. unfold remaining. cbn [main echo got]. rewrite He, Hg, got_next by lia.
      unfold echo_left, lengthZ. cbn [length]. lia.
    + right. destruct (poll_one _ _ H2) as (q & E & _).
      destruct (Histogram.record_rep (hist x) vs (u64 (0 - t0) / 2) Hh) as (h & Eh & _).
      { pose proof (wrap_fits 64 (0 - t0) ltac:(lia)) as [? ?]. split; [apply Z.div_pos; lia|].
        apply Z.div_lt_upper_bound; lia. }
      { unfold kRounds in *. lia. }
      eexists. split; [eapply (main_done x i t0 [i] q 0 h); try done; cbn; by rewrite Z.eqb_refl|].
      left. cbn. congruence.
    + destruct Ho as [He|He].
      * right. eexists. split; [apply (echo_returns x); [done|lia]|]. right. unfold remaining. cbn [main echo got].
        rewrite He, Hg. unfold echo_left, lengthZ. cbn [length]. lia.
      * destruct Hm as [Hm|[Hm _]].
        -- right. eexists. split; [by apply main_joins|]. left. cbn. congruence.
        -- left. split_and!; try done. rewrite (Histogram.hr_count _ _ Hh). lia.
Qed.

Definition completes (x : Bench) : Prop :=
  (finished x \/ exists x', step x x' /\ remaining x' < remaining x) /\
  (forall x', step x x' -> 0 <= remaining x' <= remaining x) /\
  (forall i t0, main x = Waiting i t0 -> exists vs q, poll (pong x) = Ok (vs, q) /\
     (vs = [] \/ vs = [i]) /\ Histogram.count_ (hist x) = i).

Lemma remaining_nonneg x : binv x -> 0 <= remaining x.
Proof.
  intros [(i & vs & Hr & Hi & _)]. apply Z.add_nonneg_nonneg.
  - destruct Hr as [[Hm|(_ & t & Hm)] _ _|t Hm|t Hm|t Hm|[Hm|[Hm _]] _ _ _]; rewrite Hm; cbn [main_left]; lia.
  - assert (echo_left Returned (got x) = 0) as Hret by done.
    assert (got x <= kRounds -> 0 <= echo_left (Holding []) (got x)) as Hnil
      by (unfold echo_left, lengthZ; cbn [length]; lia).
    destruct Hr as [_ [He|[_ He]] Hg|t _ Hk He Hg|t _ Hk He Hg|t _ Hk [He|[_ He]] Hg|_ _ [He|He] Hg]; rewrite He;
      try (rewrite Hret; lia); try (apply Hnil; lia).
    unfold echo_left, lengthZ. cbn [length]. lia.
Qed.

Lemma reachable_completes x : reachable x -> completes x.
Proof.
  intros Hx%reachable_binv. split_and!.
  - by apply progress.
  - intros x' Hs. destruct (step_binv _ _ Hx Hs) as [Hx' Hle]. split; [by apply remaining_nonneg|done].
  - intros i t0 Hm. destruct Hx as [(j & vs & Hr & Hj & Hh & Hl)].
    pose proof (round_waiting _ _ _ _ Hr Hm) as <-.
    enough (exists ws q, poll (pong x) = Ok (ws, q)) as (ws & q & E).
    { exists ws, q. split_and!; [done| |by rewrite (Histogram.hr_count _ _ Hh)].
      destruct (poll_reply _ _ _ _ _ Hr Hm E) as [(-> & _)|(-> & _)]; auto. }
    destruct Hr as [Hm'|t Hm' ? ? ? ? Hq|t Hm' ? ? ? ? Hq|t Hm' ? ? ? ? Hq|? ? ? ? Hq];
      try (destruct (poll_none _ Hq) as (q & E & _); by eauto).
    + destruct Hm' as [Hm'|(_ & t & Hm')]; congruence.
    + destruct (poll_one _ _ Hq) as (q & E & _). eauto.
Qed.
End Threads.

(** C31: the queue benchmark ends, over the mutex-guarded queue and over the
    lock-free ring, however the two threads are scheduled. In every state they can
    reach, either both threads have returned, with exactly one latency recorded
    per round, or one of them can take a step that brings the end nearer; no step
    takes it further away, and there are five of them per round and three at the
    end. A poll never fails and returns nothing or exactly the token that was sent, so
    the value recorded is the time of that token's trip and no reply is taken for
    another round's. *)
Theorem queue_benchmark_completes :
  (forall x : @Bench (Mpsc.Queue Z), reachable x -> completes x) /\
  (forall x : @Bench (@SpscRing.Ring Z), reachable x -> completes x) /\
  remaining (@start (Mpsc.Queue Z) _) = 5 * kRounds + 3 /\
  remaining (@start (@SpscRing.Ring Z) _) = 5 * kRounds + 3.
Proof. split_and!; [apply reachable_completes..|reflexivity|reflexivity]. Qed.
End PingPong.
