(* ===== verification/BenchMain.v ===== *)
(** The benchmark program ([apps/bench.cpp]): its four modes, what they print,
    and the whole loop of the end-to-end measurement.

    The random numbers, the readings of the clock and, for every poll of the
    client, when the acknowledgements it delivers were handled are arguments.
    The components the end-to-end mode starts are those of Exchange. *)

From S2P Require Import Prelude StdMap Endian BookTypes BookSpec BookLaws BookReplay MatchingBook ReferenceBook ReferenceBookRefines OrderIndex HashIndex HashIndexRefines LadderBook LadderLinks LadderInv LadderOps LadderMatch LadderBookRefines LadderObserve BookClaims Wire Symbols Ouch EngineBook Engine EngineInv EngineRuns EngineFeed EngineClaims Soup SoupSession Gateway GatewaySession GatewayInv GatewayRuns Client ClientPaths Prices Text Doubles Histogram OrderFlow Bench PingPong.
From Stdlib Require Import Ascii.

Module BenchMain.
Import Text Doubles OrderFlow Bench.

(** [std::chrono::duration<double>(...).count()] of a number of nanoseconds. *)
Definition seconds (ns : Z) : double := ddiv (of_Z ns) (of_Z 1000000000).

(** ** The book *)

(** A run on a new [FastBook]. *)
Definition fast_ops (ops : list Op) : outcome unit :=
  b0 ← deref (fast_book default_cfg);
  _ ← deref (@run_ops _ (FastBook_matching b0) ops b0);
  Ok tt.

(** [ref_ns] and [fast_ns] are how long the two runs took, [op_ns] how long each
    call of the third did. *)
Definition bench_book (nan_text : bytes) (ds : list Draw) (ref_ns fast_ns : Z) (op_ns : list Z) : outcome bytes :=
  ops ← make_ops ds;
  _ ← deref (run_ops ops OrderBook.empty);
  _ ← fast_ops ops;
  b0 ← deref (fast_book default_cfg);
  '(_, h) ← @timed_ops _ (FastBook_matching b0) (zip ops op_ns) b0 Histogram.empty;
  line ← Histogram.summary (str "fastbook per-op") h;
  let rate ns := fixed nan_text 2 (ddiv (of_Z 2) (seconds ns)) in
  Ok (str "== book: 2M mixed ops (55% add / 25% cancel / 20% replace) ==" ++ newline ++
      str "  reference  " ++ rate ref_ns ++ str "M ops/sec" ++ newline ++
      str "  fastbook   " ++ rate fast_ns ++ str "M ops/sec" ++ newline ++
      str "  " ++ line ++ newline).

(** ** The queues *)

(** [mutex_h] and [ring_h] are the histograms the two ping-pongs end with. *)
Definition bench_queue (mutex_h ring_h : Histogram.LatencyHistogram) : outcome bytes :=
  mutex_line ← Histogram.summary (str "mutex MpscQueue") mutex_h;
  ring_line ← Histogram.summary (str "lock-free SpscRing") ring_h;
  Ok (newline ++ str "== queue: cross-thread ping-pong hop latency (200k round trips) ==" ++ newline ++
      str "  " ++ mutex_line ++ newline ++ str "  " ++ ring_line ++ newline).

(** ** End to end *)

(** [while (handler.recv < want) c.poll();]: each poll delivers some
    acknowledgements. [None]: the polls are used up. *)
Fixpoint wait_for (want : nat) (polls : list (list Z)) (h : OpenLoop) : outcome (option (OpenLoop * list (list Z))) :=
  if (want <=? recv h)%nat then Ok (Some (h, polls))
  else
    match polls with
    | [] => Ok None
    | acks :: polls => h ← all_accepted acks h; wait_for want polls h
    end.

(** The warm-up: one order at a time. *)
Fixpoint warm_up (orders : list nat) (polls : list (list Z)) (h : OpenLoop)
    : outcome (option (OpenLoop * list ClientPaths.Order)) :=
  match orders with
  | [] => Ok (Some (h, []))
  | i :: orders =>
      let want := S (recv h) in
      r ← wait_for want polls h;
      match r with
      | None => Ok None
      | Some (h, polls) =>
          r ← warm_up orders polls h;
          match r with
          | None => Ok None
          | Some (h, sent) => Ok (Some (h, loop_order (chr "W") i :: sent))
          end
      end
  end.

(** The measured loop's variables, with the orders entered so far. *)
Record Loop := mkLoop { handler : OpenLoop; sent : nat; orders : list ClientPaths.Order }.

(** One turn: a look at the clock, the orders that are due, and a poll. *)
Definition turn (now : Z) (acks : list Z) (l : Loop) : outcome Loop :=
  ks ← send_due (intended (handler l)) now (sent l);
  h ← all_accepted acks (handler l);
  Ok (mkLoop h (sent l + length ks) (orders l ++ map (loop_order (chr "B")) ks)).

Fixpoint open_loop (turns : list (Z * list Z)) (l : Loop) : outcome (option Loop) :=
  if (length (intended (handler l)) <=? recv (handler l))%nat then Ok (Some l)
  else
    match turns with
    | [] => Ok None
    | (now, acks) :: turns => l ← turn now acks l; open_loop turns l
    end.

(** What the surroundings of a run do: whether the client connects, the polls of
    the warm-up, the clock when the schedule is made, and the turns. *)
Record Surroundings := mkSurroundings {
  connects : bool;
  warm_polls : list (list Z);
  plan_ns : Z;
  turns : list (Z * list Z) }.

(** [None] while the run is not over. *)
Definition run_openloop_e2e (label : bytes) (rate_hz : Z) (n : nat) (s : Surroundings) : outcome (option bytes) :=
  if negb (connects s) then Ok (Some (str "  connect failed" ++ newline))
  else
    r ← warm_up (seq 0 5000) (warm_polls s) (mkOpenLoop [] None 0);
    match r with
    | None => Ok None
    | Some (h, warm) =>
        let h := mkOpenLoop (schedule (plan_ns s) rate_hz n) (Some Histogram.empty) 0 in
        r ← open_loop (turns s) (mkLoop h 0 warm);
        match r with
        | None => Ok None
        | Some l =>
            rtt ← deref (hist (handler l));
            line ← Histogram.summary label rtt;
            Ok (Some (str "  " ++ line ++ newline))
        end
    end.

Definition kRate : Z := 50000.
Definition kOrders : nat := 100000.

Definition bench_e2e (blocking busy : Surroundings) : outcome (option bytes) :=
  r1 ← run_openloop_e2e (str "blocking engine") kRate kOrders blocking;
  match r1 with
  | None => Ok None
  | Some t1 =>
      r2 ← run_openloop_e2e (str "busy-poll engine") kRate kOrders busy;
      match r2 with
      | None => Ok None
      | Some t2 =>
          Ok (Some (newline ++ str "== end-to-end: enter -> Accepted latency, open loop @ " ++
            unsigned (kRate / 1000) ++ str "k orders/sec (coordinated-omission-corrected) ==" ++ newline ++ t1 ++ t2))
      end
  end.

(** ** perf *)

Definition kReplays : nat := 15.

(** The replays, with their durations: the seconds and the operations. *)
Fixpoint replays (ops : list Op) (runs : list Z) (secs : double) (total : Z) : outcome (double * Z) :=
  match runs with
  | [] => Ok (secs, total)
  | ns :: runs =>
      _ ← fast_ops ops;
      replays ops runs (dadd secs (seconds ns)) (u64 (total + lengthZ ops))
  end.

Definition bench_perf (nan_text : bytes) (ds : list Draw) (runs : list Z) : outcome bytes :=
  ops ← make_ops ds;
  '(secs, total) ← replays ops runs (of_Z 0) 0;
  Ok (str "perf: " ++ unsigned total ++ str " FastBook ops in " ++ fixed nan_text 2 secs ++ str "s (" ++
      fixed nan_text 1 (ddiv (ddiv (of_Z total) secs) (of_Z 1000000)) ++
      str "M ops/sec) " ++ [226; 128; 148] ++ str " wrap this run in `perf stat` via scripts/perf-engine.sh" ++ newline).

(** ** main *)

(** The modes that run, in order. *)
Inductive Mode := Book | Queue | EndToEnd | Perf.

Definition modes (argv : list bytes) : list Mode :=
  let mode := default (str "all") (argv !! 1%nat) in
  let all := bool_decide (mode = str "all") in
  (if bool_decide (mode = str "book") || all then [Book] else []) ++
  (if bool_decide (mode = str "queue") || all then [Queue] else []) ++
  (if bool_decide (mode = str "e2e") || all then [EndToEnd] else []) ++
  (if bool_decide (mode = str "perf") then [Perf] else []).

Lemma modes_default prog : modes [prog] = [Book; Queue; EndToEnd].
Proof. reflexivity. Qed.

(** ** What the modes report *)

Section Modes.
Context (nan_text : bytes) (ds : list Draw) (Hds : Forall draw_ok ds) (Hn : 1 + lengthZ ds <= FastBook.kNil).

(** The book mode prints the summary of the durations of its calls, and fails
    only if that does. *)
Lemma bench_book_reports ref_ns fast_ns op_ns :
  length op_ns = length ds -> Forall (fits 64) op_ns ->
  exists h, Histogram.Rep h op_ns /\
    bench_book nan_text ds ref_ns fast_ns op_ns =
      (line ← Histogram.summary (str "fastbook per-op") h;
       let rate ns := fixed nan_text 2 (ddiv (of_Z 2) (seconds ns)) in
       Ok (str "== book: 2M mixed ops (55% add / 25% cancel / 20% replace) ==" ++ newline ++
           str "  reference  " ++ rate ref_ns ++ str "M ops/sec" ++ newline ++
           str "  fastbook   " ++ rate fast_ns ++ str "M ops/sec" ++ newline ++
           str "  " ++ line ++ newline)).
Proof.
  intros Hl Hf. destruct (benchmark_streams_agree default_cfg ds default_cfg_ok Hds Hn)
    as (ops & rs & b0 & bf & br & Hm & Hlen & _ & Hb & Hfast & Href & _ & _ & Ht).
  destruct (Ht op_ns) as (h & Hh & HR); [by rewrite Hl|done|]. exists h. split; [done|].
  unfold bench_book, fast_ops. rewrite Hm, outcome_bind_Ok, Href, Hb. cbn [deref]. rewrite !outcome_bind_Ok, Hfast.
  cbn [deref]. by rewrite !outcome_bind_Ok, Hh, outcome_bind_Ok.
Qed.

(** The perf mode counts every operation of every replay. *)
Lemma replays_total ops runs : forall secs total,
  (exists b0 r, fast_book default_cfg = Some b0 /\ @run_ops _ (FastBook_matching b0) ops b0 = Some r) ->
  0 <= total -> total + lengthZ runs * lengthZ ops < 2 ^ 64 ->
  replays ops runs secs total =
    Ok (fold_left (fun s ns => dadd s (seconds ns)) runs secs, total + lengthZ runs * lengthZ ops).
Proof.
  induction runs as [|ns runs IH]; intros secs total Hrun H0 Hlt; cbn [replays fold_left].
  { change (lengthZ (@nil Z)) with 0. by rewrite Z.mul_0_l, Z.add_0_r. }
  assert (lengthZ (ns :: runs) = lengthZ runs + 1) as El by (unfold lengthZ; cbn [length]; lia).
  pose proof (lengthZ_nonneg runs). pose proof (lengthZ_nonneg ops). rewrite El in *.
  assert (fast_ops ops = Ok tt) as ->.
  { destruct Hrun as (b0 & r & Hb & Hr). unfold fast_ops. rewrite Hb. cbn [deref].
    by rewrite outcome_bind_Ok, Hr. }
  rewrite outcome_bind_Ok, (wrap_small 64) by (unfold fits; nia). rewrite IH by (done || nia). do 2 f_equal. lia.
Qed.

Lemma bench_perf_counts runs :
  (length runs <= kReplays)%nat ->
  exists secs, bench_perf nan_text ds runs =
    Ok (str "perf: " ++ unsigned (lengthZ runs * lengthZ ds) ++ str " FastBook ops in " ++
        fixed nan_text 2 secs ++ str "s (" ++
        fixed nan_text 1 (ddiv (ddiv (of_Z (lengthZ runs * lengthZ ds)) secs) (of_Z 1000000)) ++
        str "M ops/sec) " ++ [226; 128; 148] ++
        str " wrap this run in `perf stat` via scripts/perf-engine.sh" ++ newline).
Proof.
  unfold kReplays. intros Hr. destruct (benchmark_streams_agree default_cfg ds default_cfg_ok Hds Hn)
    as (ops & rs & b0 & bf & br & Hm & Hlen & _ & Hb & Hfast & _).
  assert (lengthZ ops = lengthZ ds) as El by (unfold lengthZ; by rewrite Hlen).
  eexists. unfold bench_perf. rewrite Hm, outcome_bind_Ok, replays_total; [|eauto|lia|].
  - rewrite outcome_bind_Ok, Z.add_0_l, El. reflexivity.
  - rewrite El. unfold FastBook.kNil in Hn. pose proof (lengthZ_nonneg ds).
    assert (lengthZ runs <= 15) by (unfold lengthZ; lia). pose proof (lengthZ_nonneg runs). nia.
Qed.
End Modes.

(** ** The measurement *)

Lemma record_all_app vs ws h :
  Histogram.record_all (vs ++ ws) h = (h ← Histogram.record_all vs h; Histogram.record_all ws h).
Proof.
  revert h. induction vs as [|v vs IH]; intros h; cbn [app Histogram.record_all]; [by rewrite outcome_bind_Ok|].
  destruct (Histogram.record v h) as [h'| |]; rewrite ?outcome_bind_Ok; [apply IH|done|done].
Qed.

(** What the acknowledgements add to the histogram. *)
Definition latencies (acks intended : list Z) : list Z := zip_with (fun now t => u64 (now - t)) acks intended.

Lemma latencies_app a1 a2 sched :
  (length a1 <= length sched)%nat ->
  latencies (a1 ++ a2) sched = latencies a1 sched ++ latencies a2 (drop (length a1) sched).
Proof.
  revert sched. induction a1 as [|a a1 IH]; intros sched Hl; [done|].
  destruct sched as [|t sched]; cbn [length] in Hl; [lia|]. unfold latencies in *. cbn. by rewrite IH by lia.
Qed.

Lemma latencies_recorded acks sched :
  (length acks <= length sched)%nat -> lengthZ sched < 2 ^ 64 ->
  exists h, Histogram.record_all (latencies acks sched) Histogram.empty = Ok h /\
    Histogram.Rep h (latencies acks sched).
Proof.
  intros Hl Hn. destruct (Histogram.record_all_rep (latencies acks sched) Histogram.empty [])
    as (h & Hh & Hr); [apply Histogram.histogram_empty_rep|..].
  - apply Forall_forall. intros x Hx. unfold latencies in Hx. apply elem_of_lookup_zip_with in Hx as (i & a & t & -> & _).
    apply wrap_fits. lia.
  - unfold lengthZ in *. cbn [length]. unfold latencies. rewrite length_zip_with. lia.
  - exists h. split; [done|]. rewrite app_nil_r in Hr. eapply Histogram.rep_perm; [|exact Hr].
    symmetry. apply Permutation_rev.
Qed.

(** Every acknowledgement answers an order: never more of them than orders
    sent, as long as the loop runs. *)
Fixpoint served (sched : list Z) (turns : list (Z * list Z)) (sent recv : nat) : Prop :=
  match turns with
  | [] => True
  | (now, acks) :: turns =>
      (length sched <= recv)%nat \/
      exists ks, send_due sched now sent = Ok ks /\ (recv + length acks <= sent + length ks)%nat /\
        served sched turns (sent + length ks) (recv + length acks)
  end.

Definition acknowledged (turns : list (Z * list Z)) : list Z := concat (map snd turns).

(** The state of the loop after some acknowledgements. *)
Record measuring (warm : list ClientPaths.Order) (sched : list Z) (acks : list Z) (l : Loop) : Prop := {
  me_handler : exists hs, handler l = mkOpenLoop sched (Some hs) (length acks) /\
    Histogram.record_all (latencies acks sched) Histogram.empty = Ok hs;
  me_sent : (length acks <= sent l <= length sched)%nat;
  me_orders : orders l = warm ++ map (loop_order (chr "B")) (seq 0 (sent l)) }.

Section Loop.
Context (now rate_hz : Z) (n : nat) (Hnow : 0 <= now) (Hrate : 0 < rate_hz)
  (Hfits : now + 1000000 + Z.of_nat n * (1000000000 / rate_hz) < 2 ^ 64) (Hn : Z.of_nat n < 2 ^ 63).
Let sched := schedule now rate_hz n.

Lemma sched_length : length sched = n.
Proof. apply length_schedule. Qed.

Lemma turn_measures warm t new acks l ks :
  measuring warm sched acks l -> send_due sched t (sent l) = Ok ks -> (length acks + length new <= sent l + length ks)%nat ->
  exists l', turn t new l = Ok l' /\ measuring warm sched (acks ++ new) l' /\ sent l' = (sent l + length ks)%nat.
Proof.
  intros [(hs & Hh & Hrec) Hs Ho] Hk Hle. pose proof sched_length as Hlen.
  assert (send_due sched t (sent l) = due (n - sent l) sched t (sent l)) as Hsd by (unfold send_due; by rewrite Hlen).
  destruct (due_spec now rate_hz n Hnow Hrate Hfits t (n - sent l) (sent l) eq_refl) as (l0 & Hd & Hseq & Hin).
  fold sched in Hd. rewrite Hsd, Hd in Hk. injection Hk as ->.
  assert (sent l + length ks <= n)%nat as Hsn.
  { destruct (decide (ks = [])) as [->|Hne]; [cbn [length]; lia|].
    assert (sent l + length ks - 1 ∈ ks)%nat as Hi.
    { assert (0 < length ks)%nat by (destruct ks; [done|cbn [length]; lia]).
      rewrite Hseq at 2. apply elem_of_seq. lia. }
    apply Hin in Hi as [Hi _]. lia. }
  unfold turn. rewrite Hh. cbn [intended]. rewrite Hsd, Hd, outcome_bind_Ok, all_accepted_spec by lia.
  change (zip_with _ new (drop (length acks) sched)) with (latencies new (drop (length acks) sched)).
  destruct (latencies_recorded (acks ++ new) sched) as (h & Hrec' & _);
    [rewrite length_app; lia|unfold lengthZ; lia|].
  rewrite latencies_app, record_all_app, Hrec, outcome_bind_Ok in Hrec' by lia.
  rewrite Hrec', !outcome_bind_Ok. eexists. split; [reflexivity|]. split; [split; cbn|done].
  - exists h. split; [by rewrite length_app|]. rewrite latencies_app, record_all_app, Hrec by lia. done.
  - rewrite length_app. lia.
  - rewrite Ho, <- app_assoc, seq_app, map_app. do 3 f_equal. cbn [plus]. by rewrite <- Hseq.
Qed.

Lemma open_loop_measures warm turns : forall acks l,
  measuring warm sched acks l -> served sched turns (sent l) (length acks) ->
  exists r, open_loop turns l = Ok r /\
    (forall l', r = Some l' -> measuring warm sched (take n (acks ++ acknowledged turns)) l' /\ sent l' = n /\
       recv (handler l') = n) /\
    ((n <= length (acks ++ acknowledged turns))%nat -> is_Some r).
Proof.
  induction turns as [|[t new] turns IH]; intros acks l Hl Hsv; cbn [open_loop].
  all: pose proof Hl as [(hs & Hh & Hrec) Hs Ho]; rewrite sched_length in Hs; rewrite Hh; cbn [intended recv];
    rewrite sched_length; destruct (Nat.leb_spec n (length acks)) as [Hend|Hgo].
  1, 3: assert (length acks = n /\ sent l = n) as [Ea Es] by lia; exists (Some l); split; [done|]; split;
    [intros l' [= <-]; rewrite <- Ea, take_app_length; split_and!; [done|lia|by rewrite Hh]|done].
  - exists None. split_and!; [done|done|]. rewrite app_nil_r. lia.
  - cbn [served] in Hsv. rewrite sched_length in Hsv. destruct Hsv as [Hc|(ks & Hk & Hle & Hsv)]; [lia|].
    destruct (turn_measures warm t new acks l ks Hl Hk Hle) as (l1 & Ht & Hl1 & Es1).
    rewrite Ht, outcome_bind_Ok. rewrite <- Es1, <- length_app in Hsv.
    destruct (IH (acks ++ new) l1 Hl1 Hsv) as (r & Hr & Hdone & Hsome). exists r.
    change (acknowledged ((t, new) :: turns)) with (new ++ acknowledged turns). rewrite app_assoc. done.
Qed.
End Loop.

(** ** The warm-up *)

Lemma all_accepted_unrecorded acks : forall h,
  hist h = None -> all_accepted acks h = Ok (mkOpenLoop (intended h) None (recv h + length acks)).
Proof.
  induction acks as [|a acks IH]; intros [i o r] Hh; cbn in Hh; subst o; cbn [all_accepted].
  - by rewrite Nat.add_0_r.
  - unfold on_accepted. cbn [hist]. rewrite outcome_bind_Ok, IH by done. cbn [intended recv length].
    by replace (S r + length acks)%nat with (r + S (length acks))%nat by lia.
Qed.

Lemma wait_for_one polls : forall h,
  hist h = None -> Forall (fun acks => (length acks <= 1)%nat) polls -> forall want, (recv h <= want)%nat ->
  (want <= S (recv h))%nat ->
  exists r, wait_for want polls h = Ok r /\
    forall h' polls', r = Some (h', polls') -> h' = mkOpenLoop (intended h) None want /\
      Forall (fun acks => (length acks <= 1)%nat) polls'.
Proof.
  induction polls as [|acks polls IH]; intros h Hh Hp want H1 H2; cbn [wait_for].
  all: destruct (Nat.leb_spec want (recv h)) as [Hle|Hgt].
  1, 3: eexists; split; [reflexivity|]; intros h' polls' [= <- <-]; split; [|done];
    destruct h as [i o r]; cbn in *; subst o; f_equal; lia.
  - by exists None.
  - apply Forall_cons in Hp as [Ha Hp]. rewrite all_accepted_unrecorded, outcome_bind_Ok by done.
    destruct (IH (mkOpenLoop (intended h) None (recv h + length acks)) eq_refl Hp want) as (r & Hr & Hs);
      [cbn [recv]; lia..|]. by exists r.
Qed.

Lemma warm_up_settles todo : forall polls h,
  hist h = None -> Forall (fun acks => (length acks <= 1)%nat) polls ->
  exists r, warm_up todo polls h = Ok r /\
    forall h' sent, r = Some (h', sent) -> recv h' = (recv h + length todo)%nat /\
      sent = map (loop_order (chr "W")) todo.
Proof.
  induction todo as [|i todo IH]; intros polls h Hh Hp; cbn [warm_up].
  { eexists. split; [reflexivity|]. intros h' sent [= <- <-]. cbn. by rewrite Nat.add_0_r. }
  destruct (wait_for_one polls h Hh Hp (S (recv h))) as (r & Hr & Hs); [lia..|]. rewrite Hr, outcome_bind_Ok.
  destruct r as [[h1 polls1]|]; [|by exists None]. destruct (Hs _ _ eq_refl) as [-> Hp1].
  destruct (IH polls1 (mkOpenLoop (intended h) None (S (recv h))) eq_refl Hp1) as (r & Hr1 & Hs1).
  rewrite Hr1, outcome_bind_Ok. destruct r as [[h2 sent2]|]; [|by exists None].
  eexists. split; [reflexivity|]. intros h' sent [= <- <-]. destruct (Hs1 _ _ eq_refl) as [E ->].
  cbn [recv length map] in *. split; [lia|done].
Qed.

(** C30: the end-to-end benchmark measures what it says. The warm-up ends with
    every one of its orders acknowledged, so no acknowledgement of it is taken
    for a measured order's. The measured loop, however often it turns and
    whatever the clock reads, as long as acknowledgements answer orders: sends
    every order once and in order, reads only the planned times of its own
    orders, and cannot end before all are acknowledged; when as many
    acknowledgements as orders have come it ends, and the histogram holds
    exactly the [n] differences between an acknowledgement and the time its
    order was planned for, a fixed interval apart. And since the engine,
    whatever other clients do, acknowledges the orders in the order they were
    sent and refuses none, each difference is the latency of that order. *)
Theorem open_loop_measures_each_order now rate_hz n polls turns :
  0 <= now -> 0 < rate_hz -> Z.of_nat n < 2 ^ 31 ->
  now + 1000000 + Z.of_nat n * (1000000000 / rate_hz) < 2 ^ 64 ->
  Forall (fun acks => (length acks <= 1)%nat) polls ->
  served (schedule now rate_hz n) turns 0 0 ->
  (exists r, warm_up (seq 0 5000) polls (mkOpenLoop [] None 0) = Ok r /\
     forall h warm, r = Some (h, warm) -> recv h = length warm /\ warm = map (loop_order (chr "W")) (seq 0 5000)) /\
  (forall warm, exists r,
     open_loop turns (mkLoop (mkOpenLoop (schedule now rate_hz n) (Some Histogram.empty) 0) 0 warm) = Ok r /\
     (forall l, r = Some l -> orders l = warm ++ map (loop_order (chr "B")) (seq 0 n) /\
        exists h, hist (handler l) = Some h /\
          Histogram.Rep h (latencies (take n (acknowledged turns)) (schedule now rate_hz n))) /\
     ((n <= length (acknowledged turns))%nat -> is_Some r)) /\
  (forall i, (i < n)%nat ->
     schedule now rate_hz n !! i = Some (now + 1000000 + Z.of_nat i * (1000000000 / rate_hz))) /\
  (forall c cmds e, session_ok cmds -> messages_of c cmds = map ClientPaths.order_msg (loop_orders n) ->
     engine_run cmds = Some e ->
     answers c (Engine.to_gateway_ e) =
       Acknowledged <$> (map (fun i => numbered (chr "W") (Z.of_nat i)) (seq 0 5000) ++
                         map (fun i => numbered (chr "B") (Z.of_nat i)) (seq 0 n))).
Proof.
  intros Hnow Hrate Hn Hfits Hp Hsv. pose proof (sched_length now rate_hz n) as Hlen. split_and!.
  - destruct (warm_up_settles (seq 0 5000) polls (mkOpenLoop [] None 0) eq_refl Hp) as (r & Hr & Hs).
    exists r. split; [exact Hr|]. intros h warm E. destruct (Hs h warm E) as [Er ->].
    split; [|reflexivity]. by rewrite Er, length_map.
  - intros warm.
    destruct (open_loop_measures now rate_hz n Hnow Hrate Hfits ltac:(lia) warm turns []
      (mkLoop (mkOpenLoop (schedule now rate_hz n) (Some Histogram.empty) 0) 0 warm)) as (r & Hr & Hdone & Hsome).
    + split; cbn; [by exists Histogram.empty|lia|by rewrite app_nil_r].
    + exact Hsv.
    + exists r. split; [exact Hr|]. split; [|exact Hsome]. cbn [app] in Hdone. intros l E.
      destruct (Hdone l E) as ([(hs & Hh & Hrec) Hsent Ho] & Es & _). split; [by rewrite Ho, Es|].
      exists hs. rewrite Hh. split; [reflexivity|].
      destruct (latencies_recorded (take n (acknowledged turns)) (schedule now rate_hz n)) as (h & Hh' & HR);
        [rewrite length_take; lia|unfold lengthZ; lia|].
      rewrite Hrec in Hh'. by injection Hh' as <-.
  - intros i Hi. rewrite (schedule_lookup now rate_hz n Hnow Hrate Hfits i). by rewrite decide_True.
  - apply (open_loop_measures_schedule now rate_hz n Hnow Hrate Hn Hfits).
Qed.

(** Two orders a second apart, the first acknowledged late. *)
Lemma open_loop_measures_each_order_witness :
  exists l h, open_loop [(1000000, []); (2000000000, [2000000100]); (2000000200, [2000000300])]
      (mkLoop (mkOpenLoop (schedule 0 1 2) (Some Histogram.empty) 0) 0 []) = Ok (Some l) /\
    hist (handler l) = Some h /\ Histogram.Rep h [1999000100; 999000300].
Proof.
  destruct (open_loop_measures_each_order 0 1 2 [] [(1000000, []); (2000000000, [2000000100]); (2000000200, [2000000300])])
    as (_ & H & _); [lia|lia|lia|by vm_compute|constructor| |].
  - cbn. right. eexists. split; [reflexivity|]. split; [cbn; lia|].
    right. eexists. split; [reflexivity|]. split; [cbn; lia|].
    right. eexists. split; [reflexivity|]. split; [cbn; lia|done].
  - destruct (H []) as (r & Hr & Hs & Hsome). destruct (Hsome ltac:(cbn; lia)) as [l ->].
    destruct (Hs l eq_refl) as (_ & h & Hh & HR). exists l, h. split; [exact Hr|]. split; [exact Hh|exact HR].
Defined.
End BenchMain.
