(* ===== verification/Demo.v ===== *)
(** The in-process demonstration ([apps/demo.cpp]): a scripted scenario and a
    random burst on the reference book, with every event and the ladders printed.

    What is printed is returned as text; the random numbers of the burst are
    arguments, in the ranges of the distributions. *)

From S2P Require Import Prelude StdMap Endian BookTypes BookSpec BookLaws BookReplay MatchingBook ReferenceBook ReferenceBookRefines Soup Prices Text Display.
From Stdlib Require Import Ascii.

Module Demo.
Import Text.

Definition side_char (s : Side) : bytes :=
  match s with Buy => str "B" | Sell => str "S" | RawSide c => [c] end.

(** [PrintingListener], when verbose. *)
Definition event_line (ev : BookEvent) : outcome bytes :=
  match ev with
  | on_added e =>
      px ← Prices.price_to_string (ad_price e);
      Ok (str "  ADDED    #" ++ unsigned (ad_id e) ++ str " " ++ side_char (ad_side e) ++ str " " ++
          unsigned (ad_qty e) ++ str " @ " ++ px ++ newline)
  | on_executed e =>
      px ← Prices.price_to_string (ex_price e);
      Ok (str "  EXEC     #" ++ unsigned (ex_resting_id e) ++ str " x #" ++ unsigned (ex_aggressor_id e) ++ str "  " ++
          unsigned (ex_qty e) ++ str " @ " ++ px ++ str " (match " ++ unsigned (ex_match_id e) ++ str ")" ++ newline)
  | on_canceled e =>
      Ok (str "  CANCELED #" ++ unsigned (ca_id e) ++ str " -" ++ unsigned (ca_canceled_qty e) ++
          str (if ca_removed e then " (removed)" else "") ++ newline)
  | on_replaced e =>
      px ← Prices.price_to_string (re_price e);
      Ok (str "  REPLACED #" ++ unsigned (re_old_id e) ++ str " -> #" ++ unsigned (re_new_id e) ++ str " " ++
          unsigned (re_qty e) ++ str " @ " ++ px ++ newline)
  end.

Fixpoint event_lines (evs : list BookEvent) : outcome bytes :=
  match evs with
  | [] => Ok []
  | ev :: evs => line ← event_line ev; rest ← event_lines evs; Ok (line ++ rest)
  end.

(** [print_ladder] takes the book here, and frames the ladder in blank lines. *)
Definition print_ladder (b : OrderBook.OrderBook) (depth : Z) : outcome bytes :=
  snap ← deref (OrderBook.snapshot b);
  ladder ← Display.print_ladder snap depth;
  Ok (newline ++ ladder ++ newline).

(** Calls on the book, with the lines its listener prints. *)
Fixpoint calls (verbose : bool) (ops : list BookOp) (b : OrderBook.OrderBook)
    : outcome (bytes * OrderBook.OrderBook) :=
  match ops with
  | [] => Ok ([], b)
  | op :: ops =>
      '(_, b') ← deref (OrderBook.step op b);
      text ← (if verbose then event_lines (drop (length (OrderBook.listener_ b)) (OrderBook.listener_ b')) else Ok []);
      '(rest, b') ← calls verbose ops b';
      Ok (text ++ rest, b')
  end.

Definition puts (s : string) : bytes := str s ++ newline.

Definition build_ops : list BookOp :=
  [OpAdd 1 Buy (Prices.make_price 99 5000) 300; OpAdd 2 Buy (Prices.make_price 99 0) 500;
   OpAdd 3 Sell (Prices.make_price 100 5000) 400; OpAdd 4 Sell (Prices.make_price 101 0) 200].
Definition aggressive_ops : list BookOp := [OpAdd 5 Buy (Prices.make_price 100 5000) 500].
Definition cancel_replace_ops : list BookOp := [OpCancel 2 0; OpReplace 1 6 (Prices.make_price 99 7500) 350].

Record Draw := mkDraw { d_word : Z; d_tick : Z; d_qty : Z }.
Definition draw_ok (d : Draw) : Prop := -20 <= d_tick d <= 20 /\ 1 <= d_qty d <= 500.

(** The burst: one add per draw, numbered from [id]. *)
Fixpoint burst_ops (id : OrderId) (ds : list Draw) : list BookOp :=
  match ds with
  | [] => []
  | d :: ds =>
      OpAdd id (if Z.odd (d_word d) then Buy else Sell)
        (Prices.make_price 100 0 + d_tick d * Prices.make_price 0 100) (d_qty d) :: burst_ops (id + 1) ds
  end.

Definition scripted : outcome (bytes * OrderBook.OrderBook) :=
  '(t1, b) ← calls true build_ops OrderBook.empty;
  l1 ← print_ladder b 5;
  '(t2, b) ← calls true aggressive_ops b;
  l2 ← print_ladder b 5;
  '(t3, b) ← calls true cancel_replace_ops b;
  l3 ← print_ladder b 5;
  Ok (puts "== Scripted scenario ==" ++ puts "Build a two-sided book:" ++ t1 ++ l1 ++
      puts "Aggressive buy 500 @ 100.50 walks the ask:" ++ t2 ++ l2 ++
      puts "Cancel #2, replace #1 to 99.75 x 350 (loses time priority):" ++ t3 ++ l3, b).

Definition run (ds : list Draw) : outcome (bytes * Z) :=
  '(script, b) ← scripted;
  '(_, b) ← calls false (burst_ops 100 ds) b;
  _ ← OrderBook.check_invariants b;
  ladder ← print_ladder b 8;
  Ok (script ++ puts "== Random burst: 2000 orders around 100.00 ==" ++
      puts "Invariants hold. Final book (top 8):" ++ ladder, 0).

(** ** The demonstration succeeds *)

Definition script_ops : list BookOp := build_ops ++ aggressive_ops ++ cancel_replace_ops.

Definition accepted (r : OpResult) : bool :=
  match r with RAdd r => match ar_status r with AddOk => true | _ => false end | RBool ok => ok end.

(** What the abstract book shows, [depth] rows of it. *)
Definition shown (sp : Spec.Book) (depth : nat) : bytes :=
  let snap := Spec.to_snapshot sp in
  newline ++ Display.header ++
  concat (map (Display.shown_row snap) (seq 0 (Nat.min depth (Display.depth_of snap)))) ++ newline.

(** The book during the burst: ids below the next, prices that print. *)
Record bursting (n : OrderId) (sp : Spec.Book) : Prop := mkBursting {
  bu_wf : Spec.wf sp;
  bu_ids : forall id, id ∈ Spec.ids sp -> id < n;
  bu_prices : forall s p, p ∈ Spec.keys (Spec.levels s sp) -> 0 <= p < 2 ^ 63 }.

Lemma rest_keys id side px qty sp s p :
  p ∈ Spec.keys (Spec.levels s (Spec.rest id side px qty sp)) ->
  p = px \/ p ∈ Spec.keys (Spec.levels s sp).
Proof.
  unfold Spec.rest. destruct (decide (is_buy s = is_buy side)) as [E|E].
  - rewrite !(Spec.levels_is_buy s side) by done. rewrite Spec.levels_set_eq. intros Hin%Spec.keys_upsert. naive_solver.
  - assert (is_buy s = is_buy (opposite side)) as E'
      by (rewrite Spec.is_buy_opposite; by destruct (is_buy s), (is_buy side)).
    rewrite !(Spec.levels_is_buy s (opposite side)) by done. rewrite Spec.levels_set_opp. auto.
Qed.

Lemma match_keys id side px qty sp sp' rem evs s p :
  Spec.wf sp -> 0 <= qty -> Spec.match_ id side px qty sp = (sp', rem, evs) ->
  p ∈ Spec.keys (Spec.levels s sp') -> p ∈ Spec.keys (Spec.levels s sp).
Proof.
  intros Hwf Hq Hm. apply Spec.match_wf in Hm as (_ & _ & Hl & _ & Hk & _); [|done..].
  destruct (decide (is_buy s = is_buy side)) as [E|E].
  - rewrite !(Spec.levels_is_buy s side) by done. by rewrite Hl.
  - assert (is_buy s = is_buy (opposite side)) as E'
      by (rewrite Spec.is_buy_opposite; by destruct (is_buy s), (is_buy side)).
    rewrite !(Spec.levels_is_buy s (opposite side)) by done. apply Hk.
Qed.

Lemma enter_bursting n side px qty sp sp' rem evs :
  bursting n sp -> 0 < px < 2 ^ 63 -> fits 32 qty ->
  Spec.enter n side px qty sp = (sp', rem, evs) -> bursting (n + 1) sp'.
Proof.
  intros [Hwf Hids Hpx] Hp Hq He.
  assert (n ∉ Spec.ids sp) as Hn by (intros Hin; apply Hids in Hin; lia).
  split; [eapply Spec.enter_wf in He as [? _]; [done|done|done|lia|done]|..].
  - unfold Spec.enter in He. destruct (Spec.match_ _ _ _ _ _) as [[b1 r] ev] eqn:Hm.
    apply Spec.match_wf in Hm as (_ & _ & _ & Hi & _ & _); [|done|apply Hq].
    intros id. destruct (r =? 0); simplify_eq; [intros Hin%Hi%Hids; lia|].
    rewrite Spec.ids_rest, elem_of_cons. intros [->|Hin%Hi%Hids]; lia.
  - unfold Spec.enter in He. destruct (Spec.match_ _ _ _ _ _) as [[b1 r] ev] eqn:Hm.
    pose proof (fun s p => match_keys _ _ _ _ _ _ _ _ s p Hwf (proj1 Hq) Hm) as Hk.
    intros s p. destruct (r =? 0); simplify_eq; [eauto|].
    intros [->|Hin]%rest_keys; [lia|eauto].
Qed.

Lemma burst_add n d sp :
  bursting n sp -> draw_ok d -> exists op r sp' evs,
    burst_ops n [d] = [op] /\ op_ok op /\ Spec.step op sp = (r, sp', evs) /\ accepted r = true /\ bursting (n + 1) sp'.
Proof.
  intros Hb [Ht Hq]. set (px := Prices.make_price 100 0 + d_tick d * Prices.make_price 0 100).
  assert (0 < px < 2 ^ 63) as Hpx by (unfold px, Prices.make_price, Prices.kPriceScale; lia).
  set (side := if Z.odd (d_word d) then Buy else Sell).
  destruct (Spec.enter n side px (d_qty d) sp) as [[sp' rem] evs] eqn:E.
  assert (fits 32 (d_qty d)) as Hf by (unfold fits; lia).
  eexists _, (RAdd (mkAddResult AddOk (d_qty d - rem) rem)), sp', evs. split; [done|]. split_and!.
  - split; [|done]. unfold side. destruct (Z.odd _); [by left|by right].
  - cbn [Spec.step]. unfold Spec.add. fold px side.
    replace (px <=? 0) with false by lia. replace (d_qty d =? 0) with false by lia.
    destruct (Spec.contains n sp) eqn:Hc; [apply Spec.contains_spec, (bu_ids _ _ Hb) in Hc; lia|]. by rewrite E.
  - done.
  - by eapply enter_bursting.
Qed.

(** Calls that return leave a book that implements the abstract one. *)
Lemma calls_refine v ops : forall b sp t b' rs sp' evs,
  Rep b sp -> Forall op_ok ops -> calls v ops b = Ok (t, b') ->
  spec_run ops sp = (rs, sp', evs) -> Rep b' sp'.
Proof.
  induction ops as [|op ops IH]; intros b sp t b' rs sp' evs HR Hok Hc Hs; cbn [calls spec_run] in *.
  - by simplify_eq.
  - apply Forall_cons in Hok as [Hop Hok]. destruct (Spec.step op sp) as [[r sp1] ev1] eqn:E1.
    destruct (spec_run ops sp1) as [[rs2 sp2] ev2] eqn:E2. simplify_eq.
    destruct (step_refines _ _ _ _ _ _ HR Hop E1) as (b1 & Hb1 & HR1 & _).
    rewrite Hb1 in Hc. cbn in Hc.
    destruct (if v then _ else _) as [text| |]; [|done..]. rewrite outcome_bind_Ok in Hc.
    destruct (calls v ops b1) as [[t2 b2]| |] eqn:E3; [|done..]. rewrite outcome_bind_Ok in Hc.
    simplify_eq. by eapply IH.
Qed.

Lemma burst_ok ds : forall n b sp,
  Rep b sp -> bursting n sp -> Forall draw_ok ds -> exists b' rs sp' evs,
    calls false (burst_ops n ds) b = Ok ([], b') /\ spec_run (burst_ops n ds) sp = (rs, sp', evs) /\
    Rep b' sp' /\ bursting (n + Z.of_nat (length ds)) sp' /\ forallb accepted rs = true.
Proof.
  induction ds as [|d ds IH]; intros n b sp HR Hb Hd.
  - exists b, [], sp, []. rewrite Z.add_0_r. done.
  - apply Forall_cons in Hd as [Hd Hds].
    destruct (burst_add n d sp Hb Hd) as (op & r & sp1 & ev1 & Eop & Hop & Es & Ha & Hb1).
    assert (burst_ops n (d :: ds) = op :: burst_ops (n + 1) ds) as ->
      by (cbn [burst_ops] in Eop |- *; injection Eop as <-; done).
    destruct (step_refines _ _ _ _ _ _ HR Hop Es) as (b1 & Eb1 & HR1 & _).
    destruct (IH _ _ _ HR1 Hb1 Hds) as (b2 & rs & sp2 & ev2 & Ec & Es2 & HR2 & Hb2 & Hacc).
    exists b2, (r :: rs), sp2, (ev1 ++ ev2). cbn [calls spec_run]. rewrite Eb1, Es, Es2. cbn [deref length forallb]. rewrite !outcome_bind_Ok.
    rewrite Ec, Ha. split_and!; try done. by replace (n + Z.of_nat (S (length ds))) with (n + 1 + Z.of_nat (length ds)) by lia.
Qed.

Lemma ladder_ok b sp n depth :
  Rep b sp -> bursting n sp -> print_ladder b depth = Ok (shown sp (Z.to_nat depth)).
Proof.
  intros HR [_ _ Hpx]. unfold print_ladder. rewrite (snapshot_refines _ _ HR). cbn [deref].
  rewrite outcome_bind_Ok, Display.print_ladder_ok, outcome_bind_Ok.
  - unfold shown. by rewrite <- app_assoc.
  - split; apply Forall_forall; cbn [Spec.to_snapshot bs_bids bs_asks]; intros l ([q os] & -> & Hin)%list_elem_of_fmap.
    + apply (Hpx Buy), Spec.elem_of_keys. by exists os.
    + apply (Hpx Sell), Spec.elem_of_keys. by exists os.
Qed.

Lemma script_ops_ok : Forall op_ok script_ops.
Proof.
  unfold script_ops, build_ops, aggressive_ops, cancel_replace_ops.
  repeat (apply List.Forall_cons; [cbn; unfold valid_side, fits; first [lia | split; [auto|lia]]|]).
  apply List.Forall_nil.
Qed.

Lemma script_book : exists text b,
  scripted = Ok (text, b) /\ exists rs sp evs, spec_run script_ops Spec.empty = (rs, sp, evs) /\
    Rep b sp /\ bursting 100 sp /\ forallb accepted rs = true.
Proof.
  destruct (spec_run script_ops Spec.empty) as [[rs sp] evs] eqn:Es.
  destruct (calls true script_ops OrderBook.empty) as [[t b]| |] eqn:Ec;
    [|by vm_compute in Ec..].
  assert (Rep b sp) as HR.
  { eapply (calls_refine true script_ops); [apply empty_rep| |exact Ec|exact Es].
    apply script_ops_ok. }
  destruct scripted as [[text b']| |] eqn:Et; [|by vm_compute in Et..].
  assert (b' = b) as -> by (vm_compute in Et, Ec; by simplify_eq).
  exists text, b. split; [done|]. exists rs, sp, evs. split_and!; [done|done| |].
  - pose proof (rep_wf _ _ HR) as Hwf. vm_compute in Es. injection Es as <- <- <-.
    split; [done|..].
    + intros id Hin. vm_compute in Hin. set_unfold. lia.
    + intros s p Hin. destruct (is_buy s) eqn:E; unfold Spec.levels in Hin; rewrite E in Hin;
        vm_compute in Hin; set_unfold; lia.
  - vm_compute in Es. by injection Es as <- <- <-.
Qed.

(** The demonstration runs to its end for every outcome of its random
    draws: no price of the script or of the burst fails to print, every call of
    the script and every order of the burst is accepted, the reference book's own
    [check_invariants] passes after 2,000 orders, and the ladder it prints last is
    that of the abstract book after the same commands. *)
Theorem demo_succeeds ds :
  length ds = 2000%nat -> Forall draw_ok ds ->
  exists script b rs sp evs,
    scripted = Ok (script, b) /\
    spec_run (script_ops ++ burst_ops 100 ds) Spec.empty = (rs, sp, evs) /\
    forallb accepted rs = true /\ Spec.wf sp /\
    run ds = Ok (script ++ puts "== Random burst: 2000 orders around 100.00 ==" ++
                 puts "Invariants hold. Final book (top 8):" ++ shown sp 8, 0).
Proof.
  intros _ Hd. destruct script_book as (text & b & Et & rs1 & sp1 & ev1 & Es1 & HR1 & Hb1 & Ha1).
  destruct (burst_ok ds 100 b sp1 HR1 Hb1 Hd) as (b2 & rs2 & sp2 & ev2 & Ec & Es2 & HR2 & Hb2 & Ha2).
  exists text, b, (rs1 ++ rs2), sp2, (ev1 ++ ev2). split_and!.
  - exact Et.
  - by eapply spec_run_app.
  - by rewrite forallb_app, Ha1, Ha2.
  - by apply Hb2.
  - unfold run. rewrite Et, outcome_bind_Ok, Ec, outcome_bind_Ok.
    rewrite (check_invariants_ok _ _ HR2), outcome_bind_Ok.
    by rewrite (ladder_ok _ _ _ _ HR2 Hb2), outcome_bind_Ok.
Qed.

Definition sample_draws : list Draw := replicate 1000 (mkDraw 1 (-20) 500) ++ replicate 1000 (mkDraw 2 20 1).

Lemma demo_succeeds_witness :
  length sample_draws = 2000%nat /\ Forall draw_ok sample_draws /\
  exists script b rs sp evs,
    scripted = Ok (script, b) /\
    spec_run (script_ops ++ burst_ops 100 sample_draws) Spec.empty = (rs, sp, evs) /\
    forallb accepted rs = true /\ Spec.wf sp /\
    run sample_draws = Ok (script ++ puts "== Random burst: 2000 orders around 100.00 ==" ++
                 puts "Invariants hold. Final book (top 8):" ++ shown sp 8, 0).
Proof.
  assert (length sample_draws = 2000%nat) as Hl by (vm_compute; reflexivity).
  assert (Forall draw_ok sample_draws) as Hd
    by (apply Forall_app; split; apply Forall_replicate; unfold draw_ok; cbn; lia).
  split; [exact Hl|]. split; [exact Hd|]. exact (demo_succeeds sample_draws Hl Hd).
Defined.
End Demo.
